(* ===== verification/_CoqProject ===== *)
-Q . S2P
Prelude.v
Rlp.v
BlockHeader.v
CheckFork.v
OpFunding.v
Types.v
BlockStore.v
Provider.v
BlockIndexer.v
LogIndexer.v
BlockchainTracker.v
ChainFeed.v
Schedulers.v
Events.v
BtcSignature.v
Bitvmx.v
NativeBridge.v
Flow.v
Processor.v
PeginFlow.v
PegoutFlow.v
OperatorTakeFlow.v
Inputs.v
PegoutProcessor.v
TakeProcessor.v
PeginProcessor.v
CoordinatorStore.v
CommitteeSetup.v
SetupCommitteeFlow.v
SetupProcessor.v
Broker.v
Notifiers.v
FundingInfo.v
Monitor.v
Coordinator.v
WalletStore.v
Wallet.v
WalletSpending.v
UserApi.v
Sender.v
