(* ===== verification/Prelude.v ===== *)
(** * Verification of the Union Bridge client

    The client lets the members of a committee run a bridge between Bitcoin and
    Rootstock (RSK).  Its processes are Rust programs under [src/crates]:

    - the _block indexer_ keeps a copy of the node's canonical chain and
      announces every new canonical block with its uncles;
    - the _log indexer_ recovers and follows the logs of the bridge contracts;
    - the _coordinator_ consumes both, counts confirmations, and drives one state
      machine per committee, peg-in, peg-out and operator take, calling the
      contracts through the _transaction dispatcher_ and exchanging messages
      with BitVMX over a broker;
    - the _check-fork_ verifier runs in a zkVM and decides whether a list of RSK
      blocks is a continuation with a given peg-out event and enough work;
    - _op-funding_ computes what members must deposit;
    - the _user API_ takes the requests of users, members and administrators;
    - a command line _wallet_ under [src/cli] makes the Bitcoin transactions of users
      and members.

    ** How the code is translated

    Pure functions are functions.  Code with [&mut self], a store, a node or a
    broker is a computation [SR S E A := S -> result E A * S]: an early return
    with [?] keeps the mutations made before it.  Errors are values: [failure]
    is an [anyhow] chain of contexts, a panic, or a loop out of fuel, and the
    flows keep the typed causes they downcast to.  Machine integers are
    [Z] with the checked, saturating or wrapping operation that the code uses,
    at its width.  Shared counters ([Rc<RefCell<_>>]) are addresses into a
    store of cells.  Hash maps are [gmap]s, and no theorem depends on an
    iteration order the code does not fix.  Logging, metrics and tracing spans
    are omitted.

    Code outside the repository is a class with the operations that are called
    and, where a theorem needs them, a second class with the laws that its
    documentation promises: [AlloyRlp], [Keccak], [Sha256], [Bitcoin],
    [SocketAddrs], [InnerLru], [Storage], [LogStorage], [Database], [Bindings],
    [BitcoinCrate].  Traits of the code are classes too: [BlockStore], [LogStore],
    [RskProvider], [SignatureContracts], [BridgeNode], [MonitorApi],
    [EventProcessor] and the services of each flow.  Their operations act
    on an environment that may change at every call, so that the node may
    reorganise and calls may fail at any point.  Concrete instances (modules
    [Reference], [Memory], [Script], [Feed], [Sample]) show that the laws can
    hold, and carry the witnesses.

    ** Files

    - [Prelude]: results, the state and error monad with its weakest
      precondition [wp], machine integers, bytes, tactics and hint databases.
    - [Rlp], [BlockHeader], [CheckFork]: [check-fork/src/rlp.rs],
      [block_header.rs], [lib.rs] and the guest [zkp/guest/src/main.rs].
      [check_fork] is the verifier, [encode_rlp] and [calculate_block_hash] the
      hash of a header, [compute_pegout_id] and [to_bytes] what is committed.
    - [OpFunding]: [op-funding/src/lib.rs].
    - [Types], [Provider]: [common/core/src/types.rs],
      [common/rsk/src/rsk_provider.rs] and the indexers' configuration.  A
      [World] is a store, the environment, what was sent to the consumers, and
      whether the receiver is alive.
    - [BlockStore]: [block-indexer/src/store.rs] and [cache.rs].  The class
      [BlockStore] is the trait, [StoreModel] what it promises, module [Cached]
      the implementation over a database and a cache.
    - [BlockIndexer]: [block-indexer/src/indexer.rs], against the interfaces of
      store and node only.
    - [LogIndexer]: [log-indexer/src/indexer.rs] and [store.rs].
    - [BlockchainTracker]: [coordinator/src/blockchain_tracker.rs].  A [Tracker]
      is the view, its observers and the cells of the counters.
    - [ChainFeed]: the composition of the block indexer with the view.
    - [Schedulers], [Events]: [coordinator/src/types.rs].
    - [BtcSignature]: [coordinator/src/flows/btc_signature].
    - [Bitvmx]: [common/bitvmx/src/bitvmx_types.rs] and [FlowId::from_tx].
    - [NativeBridge]: [flows/common/native_bridge_verifier.rs] with
      [transaction-dispatcher/src/contracts/native_bridge.rs] and
      [interactions/get_btc_transaction_confirmations.rs].
    - [Flow], [Processor]: what the flows and the processors share.  A [World] is
      a flow's state, the environment, what the store holds and the log of its
      effects; a [Processor] is the flows of a kind with their signature
      subflows, the events that await confirmations and tables of its own.
    - [PeginFlow], [PegoutFlow], [OperatorTakeFlow]: the state machines
      [pegin_flow.rs], [pegout_flow.rs] and [operator_take_flow.rs] of
      [coordinator/src/flows].
    - [Inputs]: the payloads of events, the messages of BitVMX and the requests
      that reach the processors.
    - [PeginProcessor], [PegoutProcessor], [TakeProcessor]: the processors of the
      three kinds, every handler with its tables, retries and restart.
    - [CoordinatorStore]: [coordinator/src/store.rs] and [flows/common/context.rs].
    - [CommitteeSetup], [SetupCommitteeFlow], [SetupProcessor]: the programs that a
      committee sets up, the state machine of a setup and its processor
      ([flows/committee], [protocol-params]).
    - [Broker], [Notifiers]: the messages between the processes with their errors
      ([common/broker/src]) and the notifiers of the indexers.
    - [FundingInfo], [Monitor], [Coordinator]: [flows/funding_info_flow.rs],
      [monitor.rs], and the loop of [coordinator.rs] over the interface
      [EventProcessor] that every processor implements.
    - [UserApi]: [user-api/src/server.rs], the endpoints and the shared request for
      funding information as concurrent tasks.
    - [Sender]: [transaction-dispatcher/src/contracts/common.rs], the sending of a
      transaction with the raising of its gas.
    - [WalletStore], [Wallet], [WalletSpending]: the Bitcoin wallet of
      [cli/bitcoin-wallet/src]: its stores behind the interfaces [UtxoStoreApi] and
      [PendingStoreApi], its operations and commands, and what it spends.

    ** What is proved

    - _Verifier._  [check_fork] accepts exactly the forks of a declarative
      specification and returns the exact sum of their work; an accepted fork is
      a hash-linked chain with the event; a block hash binds the header, a tip
      the chain and a peg-out identifier its arguments, unless Keccak-256 collides on
      the very messages that are hashed for them; the guest's journal carries the
      verdict.  Two further theorems
      record that the superblock threshold rejects nothing and that a repeated
      uncle counts again.
    - _Funding._  Every amount equals its closed form, overflow is reported
      exactly when it happens, the binary-search root is the least root for
      every [u128], and balances cover what they must.
    - _Store._  Behind any cache the block store refines [StoreModel]; database
      keys do not collide.
    - _Block indexer._  Against a node whose chain stands still, start-up, a
      backward sync and a subscribed block terminate with the node's chain
      stored, linked, and exactly the differing heights announced in order.
      [ChainFeed] shows that the coordinator's view accepts these announcements.
      Counterexamples on scripted nodes show what a failed or interrupted sync
      and a shrinking node leave behind.
    - _Log indexer._  Recovery terminates and saves exactly the logs from the
      adjusted start to the returned height, against a node that may grow; the
      subscription delivers exactly the accepted logs.
    - _Confirmations._  A view update is characterised on every branch, panics
      included; an event is confirmed exactly when it is deep enough, after any
      sequence of extensions and reorganisations; snapshots survive a restart.
    - _Signature subflow._  In every run the nonce and the signature are sent at
      most once and in order, each only on a confirmed event; the restored
      subflow is the stored one; a failed signature call strands the subflow.
    - _Native bridge._  The call data decode to the arguments, the bridge's
      signed answer decides through the error text between calling, waiting and
      failing, and no contract is called before the confirmations are there.
    - _Flows._  Every reachable peg-in, peg-out, advance and committee setup holds
      the data its step relies on, in memory and in the store; steps follow the
      transition relations.  A peg-in is done only on the confirmed acceptance
      of the transaction that BitVMX named; a peg-out only on the registration of
      its user take or after handing over to an operator, one of the two and
      once; an operator that was not selected does nothing; the aggregated key of
      a committee is deposited last and is the key on record for the aggregation of
      the take keys, taken from BitVMX in the step that waits for it.
    - _Processors._  The states that a processor reaches are indexed by its past, the
      list of its starts and of the inputs it took with the states that took them.
      Through any inputs, failures, panics and restarts every flow and waiting event
      is filed under its own name; actions are taken only on events that were waiting
      in this past and were buried under the required number of blocks; a restart
      resumes the stored flows with what they wait for, and panics exactly when
      BitVMX or the store refuses; clean-up forgets exactly the finished ones.
      Counterexamples show retries that are lost, a peg-out that nothing watches, a
      committee event that a restart forgets and a repeated answer of BitVMX that is
      taken for an aggregated key.
    - _Committee programs._  Both sides of a dispute channel configure it with the
      same messages; members agree on the requests of their pairs; the outputs that
      a setup uses are those it had paid.
    - _Process._  Through any number of processes of the coordinator each processor is
      in a state that it reaches on its own, with a past of exactly the starts and the
      messages that the monitor gave, so that the theorems on processors hold of the
      process; broken connections to brokers, and only those, do not end the loop; BitVMX is
      declared lost only after an unanswered ping.  The notifiers send each consumer
      what it was subscribed to, in order.  The coordinator's store refines a map
      per kind of flow.
    - _Identifiers, events, schedulers._  The hashed inputs of BitVMX program
      identifiers determine the program; a decoded event keeps its origin; a
      scheduled key fires exactly once, with its attempt.
    - _User API._  Only a request with the administrators' token becomes an
      administrator's request at the coordinator; funding information is what the
      coordinator sent in reply, and one request at a time asks for it.  A dropped
      request blocks this information for good, and one that waits too late starves.
    - _Sending._  A call of a contract ends, and is one transaction: another is sent
      only after the one before is known to have run out of gas; limits of gas cover
      the estimate and do not fall.
    - _Wallet._  The stores refine maps.  Making a transaction ends, and the
      transaction balances, pays enough for its size and has no dust; a payment
      that is funded is made.  Whatever fails, pending transactions share no input
      and the wallet selects none of their inputs, in sessions that meet three stated
      conditions on registered outputs, on the change of new transactions and on
      replacements that fail; further theorems show what happens without the last two,
      and that a repeated payment is one transaction.

    ** Bounds

    The loops of the indexers take fuel.  The theorems state how much is enough
    and prove success, not success under the assumption of an end: a sync needs
    more than the distance from the initial block to the tip, since each round
    goes down one height; log recovery more than the number of heights up to
    the bound of the node's growth, since each round advances the start; the
    listening loops take the number of rounds that are observed.  The square
    root has 129 rounds, since the interval halves and a [u128] has 128 bits.  A
    step of a peg-in that is started may complete itself once, so a nesting of one
    is enough ([start_step_eq]); the loop of the coordinator takes the number of
    rounds that are observed.  The two loops that make a transaction have [2 ^ 64]
    and [2 ^ 65] rounds ([iterate]), which is more than amounts of 64 bits allow,
    since the fee that is assumed grows in every round of the one and the amount
    that is required in every round of the other.  The loop that awaits a receipt has
    as many rounds as its time-out has intervals, and two more, since each sleeps.

    ** Not modelled

    Input and output around third-party code: the JSON-RPC provider, the channels
    and certificates of the broker, process start-up, configuration files,
    logging, metrics, the proving host, the key manager, the operator commands, the
    process runner, and the gateway with the contract wrappers, which only convert
    arguments and errors for generated bindings that are in another repository.  Test
    code and generators of test data are not part of the program. *)

From stdpp Require Import prelude gmap strings.

#[export] Set Default Goal Selector "!".
Open Scope Z_scope.

(** ** Results

    [anyhow::Result] and [Result<_, &'static str>] are [result]; an error
    value is kept, because callers branch on it and tests compare it. *)

Inductive result (E A : Type) : Type :=
| Ok (a : A)
| Err (e : E).
Arguments Ok {E A} a.
Arguments Err {E A} e.

#[export] Instance result_ret {E} : MRet (result E) := fun A a => Ok a.
#[export] Instance result_bind {E} : MBind (result E) :=
  fun A B f m => match m with Ok a => f a | Err e => Err e end.
#[export] Instance result_fmap {E} : FMap (result E) :=
  fun A B f m => match m with Ok a => Ok (f a) | Err e => Err e end.

Definition ok_or {E A} (o : option A) (e : E) : result E A :=
  match o with Some a => Ok a | None => Err e end.

Definition is_ok {E A} (r : result E A) : bool :=
  match r with Ok _ => true | Err _ => false end.

(** [if cond { return Err(e) }] *)
Definition fail_if {E} (b : bool) (e : E) : result E unit :=
  if b then Err e else Ok tt.

(** ** Stateful, fallible code

    [self] is threaded as a state; an early [?] return keeps the mutations
    made before it, as in Rust. *)

Definition SR (S E A : Type) : Type := S -> result E A * S.

#[export] Instance SR_ret {S E} : MRet (SR S E) := fun A a s => (Ok a, s).
#[export] Instance SR_bind {S E} : MBind (SR S E) :=
  fun A B f m s =>
    match m s with
    | (Ok a, s') => f a s'
    | (Err e, s') => (Err e, s')
    end.

Definition sget {S E} : SR S E S := fun s => (Ok s, s).
Definition sput {S E} (s : S) : SR S E unit := fun _ => (Ok tt, s).
Definition smodify {S E} (f : S -> S) : SR S E unit := fun s => (Ok tt, f s).
Definition sfail {S E A} (e : E) : SR S E A := fun s => (Err e, s).
Definition slift {S E A} (r : result E A) : SR S E A := fun s => (r, s).

(** How a computation can fail to return: an [anyhow::Error] with its chain of
    contexts, outermost first, a panic, or a loop that used up its fuel. *)
Inductive failure :=
| Anyhow (chain : list string)
| Panic (msg : string)
| OutOfFuel.

(** [Result::context] *)
Definition context {S A} (c : string) (m : SR S failure A) : SR S failure A :=
  fun s => match m s with
           | (Err (Anyhow chain), s') => (Err (Anyhow (c :: chain)), s')
           | r => r
           end.

(** [Option::context] *)
Definition opt_context {S A} (c : string) (o : option A) : SR S failure A :=
  match o with Some a => mret a | None => sfail (Anyhow [c]) end.

Definition bail {S A} (msg : string) : SR S failure A := sfail (Anyhow [msg]).

(** Runs a computation on one component of a larger state. *)
Definition zoom {W S E A} (get : W -> S) (set : S -> W -> W) (m : SR S E A) : SR W E A :=
  fun w => let '(r, s) := m (get w) in (r, set s w).

(** Total correctness: from [s] the computation succeeds, and [Q] holds of its
    result and final state. *)
Definition wp {S E A} (m : SR S E A) (Q : A -> S -> Prop) (s : S) : Prop :=
  exists a s', m s = (Ok a, s') /\ Q a s'.

(** ** Unsigned machine integers of width [w], as [Z] *)

Definition uint (w z : Z) : Prop := 0 <= z < 2 ^ w.

#[export] Instance uint_dec w z : Decision (uint w z).
Proof. unfold uint. apply _. Defined.

Definition uint_max (w : Z) : Z := 2 ^ w - 1.

Definition checked_add (w a b : Z) : option Z :=
  if a + b <? 2 ^ w then Some (a + b) else None.
Definition checked_sub (a b : Z) : option Z :=
  if b <=? a then Some (a - b) else None.
Definition checked_mul (w a b : Z) : option Z :=
  if a * b <? 2 ^ w then Some (a * b) else None.
Definition checked_div (a b : Z) : option Z :=
  if b =? 0 then None else Some (a / b).
Definition saturating_add (w a b : Z) : Z := Z.min (a + b) (uint_max w).
Definition saturating_sub (a b : Z) : Z := Z.max (a - b) 0.
Definition saturating_mul (w a b : Z) : Z := Z.min (a * b) (uint_max w).
Definition wrapping_add (w a b : Z) : Z := (a + b) mod 2 ^ w.
Definition wrapping_sub (w a b : Z) : Z := (a - b) mod 2 ^ w.

(** ** Bytes *)

Abbreviation bytes := (list Z).

Definition byte_ok (b : Z) : Prop := 0 <= b < 256.
Definition bytes_ok (l : bytes) : Prop := Forall byte_ok l.

#[export] Instance byte_ok_dec b : Decision (byte_ok b).
Proof. unfold byte_ok. apply _. Defined.
#[export] Instance bytes_ok_dec l : Decision (bytes_ok l).
Proof. unfold bytes_ok. apply _. Defined.

(** [uN::to_be_bytes], [U256::to_big_endian] with [n] bytes. *)
Fixpoint be_bytes (n : nat) (z : Z) : bytes :=
  match n with
  | O => []
  | S n' => (z / 256 ^ Z.of_nat n') mod 256 :: be_bytes n' z
  end.

(** [U256::from_big_endian]. *)
Definition from_be (l : bytes) : Z := foldl (fun acc b => acc * 256 + b) 0 l.

(** ** Automation *)

Create HintDb bridge.
Create Rewrite HintDb machine.

(** Splits a hypothesis or goal along the branches of the modelled code. *)
Ltac branch :=
  match goal with
  | H : context [match ?x with _ => _ end] |- _ =>
      lazymatch x with context [match _ with _ => _ end] => fail | _ => idtac end;
      destruct x eqn:?; simplify_eq/=
  | |- context [match ?x with _ => _ end] =>
      lazymatch x with context [match _ with _ => _ end] => fail | _ => idtac end;
      destruct x eqn:?; simplify_eq/=
  end.

(** Turns boolean comparisons of the code into propositions. *)
Ltac reflect_bool :=
  repeat match goal with
  | H : (_ <? _) = true |- _ => apply Z.ltb_lt in H
  | H : (_ <? _) = false |- _ => apply Z.ltb_ge in H
  | H : (_ <=? _) = true |- _ => apply Z.leb_le in H
  | H : (_ <=? _) = false |- _ => apply Z.leb_gt in H
  | H : (_ =? _) = true |- _ => apply Z.eqb_eq in H
  | H : (_ =? _) = false |- _ => apply Z.eqb_neq in H
  | H : bool_decide _ = true |- _ => apply bool_decide_eq_true in H
  | H : bool_decide _ = false |- _ => apply bool_decide_eq_false in H
  | H : negb _ = true |- _ => apply negb_true_iff in H
  | H : negb _ = false |- _ => apply negb_false_iff in H
  | H : (_ && _)%bool = true |- _ => apply andb_true_iff in H; destruct H
  | H : (_ || _)%bool = false |- _ => apply orb_false_iff in H; destruct H
  end.

(** Closes a concrete decidable goal by evaluation. *)
Ltac by_decide := apply (bool_decide_unpack _); vm_compute; exact I.

(** ** Lemmas on results *)

Lemma result_bind_ok {E A B} (m : result E A) (f : A -> result E B) b :
  (m ≫= f) = Ok b <-> exists a, m = Ok a /\ f a = Ok b.
Proof. destruct m; cbn; naive_solver. Qed.

Lemma ok_or_ok {E A} (o : option A) (e : E) a : ok_or o e = Ok a <-> o = Some a.
Proof. destruct o; cbn; naive_solver. Qed.

Lemma fail_if_ok {E} b (e : E) u : fail_if b e = Ok u <-> b = false.
Proof. destruct b, u; cbn; naive_solver. Qed.

Lemma SR_bind_ok {S E A B} (m : SR S E A) (f : A -> SR S E B) s b s' :
  (m ≫= f) s = (Ok b, s') <-> exists a s1, m s = (Ok a, s1) /\ f a s1 = (Ok b, s').
Proof. unfold mbind, SR_bind. destruct (m s) as [[a|e] s1]; naive_solver. Qed.

Lemma context_ok {S A} c (m : SR S failure A) s a s' :
  context c m s = (Ok a, s') <-> m s = (Ok a, s').
Proof. unfold context. destruct (m s) as [[|[]] ?]; naive_solver. Qed.

Lemma opt_context_ok {S A} c (o : option A) (s : S) a s' :
  opt_context c o s = (Ok a, s') <-> o = Some a /\ s' = s.
Proof. unfold opt_context. destruct o; unfold mret, SR_ret, sfail; naive_solver. Qed.

Lemma zoom_ok {W S E A} (get : W -> S) set (m : SR S E A) w a w' :
  zoom get set m w = (Ok a, w') <-> exists s, m (get w) = (Ok a, s) /\ w' = set s w.
Proof. unfold zoom. destruct (m (get w)) as [r s]. naive_solver. Qed.

Lemma SR_ret_ok {S E A} (a b : A) (s s' : S) :
  (mret a : SR S E A) s = (Ok b, s') <-> b = a /\ s' = s.
Proof. unfold mret, SR_ret. naive_solver. Qed.

(** Inverts a successful run of a sequence of fallible steps, and builds one. *)
Ltac ok_inv H :=
  lazymatch type of H with
  | (_ ≫= _) = Ok _ =>
      let x := fresh "x" in let Hx := fresh "Hx" in
      apply result_bind_ok in H; destruct H as (x & Hx & H);
      ok_inv Hx; ok_inv H
  | fail_if _ _ = Ok _ => apply fail_if_ok in H
  | ok_or _ _ = Ok _ => apply ok_or_ok in H
  | Ok _ = Ok _ => injection H as H
  | _ => idtac
  end.

(** The same for stateful steps. *)
Ltac sr_inv H :=
  lazymatch type of H with
  | @mbind (SR _ _) _ _ _ _ _ _ = (Ok _, _) =>
      let x := fresh "x" in let s := fresh "s" in let Hx := fresh "Hx" in
      apply SR_bind_ok in H; destruct H as (x & s & Hx & H); sr_inv Hx; sr_inv H
  | @context _ _ _ _ _ = (Ok _, _) => apply context_ok in H; sr_inv H
  | opt_context _ _ _ = (Ok _, _) => apply opt_context_ok in H; destruct H as [H ->]
  | @mret (SR _ _) _ _ _ _ = (Ok _, _) => apply SR_ret_ok in H; first [destruct H as [-> ->] | destruct H as [H ->]]
  | zoom _ _ _ _ = (Ok _, _) =>
      let s := fresh "s" in apply zoom_ok in H; destruct H as (s & H & ->); sr_inv H
  | sfail _ _ = (Ok _, _) => discriminate H
  | bail _ _ = (Ok _, _) => discriminate H
  | _ => idtac
  end.

Section WP.
Context {St E : Type}.

Lemma wp_bind {A B} (m : SR St E A) (f : A -> SR St E B) Q s :
  wp m (fun a s' => wp (f a) Q s') s -> wp (m ≫= f) Q s.
Proof.
  intros (a & s1 & Hm & b & s2 & Hf & HQ). exists b, s2. split; [|done].
  apply SR_bind_ok. eauto.
Qed.

Lemma wp_ret {A} (a : A) (Q : A -> St -> Prop) s : Q a s -> wp (mret a : SR St E A) Q s.
Proof. intros HQ. by exists a, s. Qed.

Lemma wp_mono {A} (m : SR St E A) (Q R : A -> St -> Prop) s :
  wp m Q s -> (forall a s', Q a s' -> R a s') -> wp m R s.
Proof. intros (a & s' & Hm & HQ) HR. exists a, s'. auto. Qed.

Lemma wp_context {A} c (m : SR St failure A) Q s : wp m Q s -> wp (context c m) Q s.
Proof. intros (a & s' & Hm & HQ). exists a, s'. by rewrite context_ok. Qed.

Lemma wp_opt_context {A} c (a : A) (Q : A -> St -> Prop) s :
  Q a s -> wp (opt_context c (Some a)) Q s.
Proof. intros HQ. by exists a, s. Qed.

Lemma wp_zoom {W A} (get : W -> St) set (m : SR St E A) (Q : A -> W -> Prop) w :
  wp m (fun a s => Q a (set s w)) (get w) -> wp (zoom get set m) Q w.
Proof. intros (a & s & Hm & HQ). exists a, (set s w). rewrite zoom_ok. eauto. Qed.

Lemma wp_sget (Q : St -> St -> Prop) s : Q s s -> wp (sget : SR St E St) Q s.
Proof. intros HQ. by exists s, s. Qed.

Lemma wp_sput s' (Q : unit -> St -> Prop) s : Q tt s' -> wp (sput s' : SR St E unit) Q s.
Proof. intros HQ. by exists tt, s'. Qed.

Lemma wp_smodify f (Q : unit -> St -> Prop) s : Q tt (f s) -> wp (smodify f : SR St E unit) Q s.
Proof. intros HQ. by exists tt, (f s). Qed.

Lemma wp_run {A} (m : SR St E A) (Q : A -> St -> Prop) s a s' :
  m s = (Ok a, s') -> Q a s' -> wp m Q s.
Proof. intros Hm HQ. by exists a, s'. Qed.

(** A computation that fails at its first step fails. *)
Lemma SR_bind_err {A B} (m : SR St E A) (f : A -> SR St E B) s e s' :
  m s = (Err e, s') -> (m ≫= f) s = (Err e, s').
Proof. intros Hm. unfold mbind, SR_bind. by rewrite Hm. Qed.

Lemma SR_bind_run {A B} (m : SR St E A) (f : A -> SR St E B) s a s' :
  m s = (Ok a, s') -> (m ≫= f) s = f a s'.
Proof. intros Hm. unfold mbind, SR_bind. by rewrite Hm. Qed.

End WP.

(** Steps through the sequencing of a computation under [wp]. *)
Ltac wp_step :=
  lazymatch goal with
  | |- wp (@mbind (SR _ _) _ _ _ _ _) _ _ => apply wp_bind
  | |- wp (@context _ _ _ _) _ _ => apply wp_context
  | |- wp (@mret (SR _ _) _ _ _) _ _ => apply wp_ret
  | |- wp (opt_context _ (Some _)) _ _ => apply wp_opt_context
  | |- wp sget _ _ => apply wp_sget
  | |- wp (sput _) _ _ => apply wp_sput
  | |- wp (smodify _) _ _ => apply wp_smodify
  end.
Ltac wp_steps := repeat wp_step.

Ltac ok_step :=
  lazymatch goal with
  | |- (_ ≫= _) = Ok _ => apply result_bind_ok; eexists; split
  | |- fail_if _ _ = Ok _ => apply (fail_if_ok _ _ tt)
  | |- ok_or _ _ = Ok _ => apply ok_or_ok
  end.

(** ** Lemmas on machine integers *)

Lemma checked_add_Some w a b c :
  checked_add w a b = Some c <-> c = a + b /\ a + b < 2 ^ w.
Proof. unfold checked_add. destruct (Z.ltb_spec (a + b) (2 ^ w)); naive_solver lia. Qed.

Lemma checked_mul_Some w a b c :
  checked_mul w a b = Some c <-> c = a * b /\ a * b < 2 ^ w.
Proof. unfold checked_mul. destruct (Z.ltb_spec (a * b) (2 ^ w)); naive_solver lia. Qed.

Lemma checked_sub_Some a b c :
  checked_sub a b = Some c <-> c = a - b /\ b <= a.
Proof. unfold checked_sub. destruct (Z.leb_spec b a); naive_solver lia. Qed.

Lemma checked_div_Some a b c :
  checked_div a b = Some c <-> c = a / b /\ b <> 0.
Proof. unfold checked_div. destruct (Z.eqb_spec b 0); naive_solver. Qed.

Lemma wrapping_add_id w a b : uint w (a + b) -> wrapping_add w a b = a + b.
Proof. intros H. apply Z.mod_small, H. Qed.

Lemma wrapping_sub_id w a b : uint w (a - b) -> wrapping_sub w a b = a - b.
Proof. intros H. apply Z.mod_small, H. Qed.

#[export] Hint Rewrite checked_add_Some checked_mul_Some checked_sub_Some
  checked_div_Some : machine.

(** ** Lemmas on bytes *)

Lemma length_be_bytes n z : length (be_bytes n z) = n.
Proof. induction n; cbn; auto. Qed.

Lemma be_bytes_ok n z : bytes_ok (be_bytes n z).
Proof.
  induction n; constructor; [|done].
  apply Z.mod_pos_bound; lia.
Qed.

Lemma foldl_from_be acc l :
  foldl (fun acc b => acc * 256 + b) acc l
  = acc * 256 ^ Z.of_nat (length l) + from_be l.
Proof.
  unfold from_be. revert acc. induction l as [|b l IH]; intros acc; cbn [foldl length].
  { rewrite Z.pow_0_r. lia. }
  rewrite IH, (IH (0 * 256 + b)), Nat2Z.inj_succ, Z.pow_succ_r by lia. ring.
Qed.

Lemma from_be_cons b l :
  from_be (b :: l) = b * 256 ^ Z.of_nat (length l) + from_be l.
Proof. unfold from_be at 1. cbn [foldl]. rewrite foldl_from_be. ring. Qed.

Lemma from_be_bound l : bytes_ok l -> 0 <= from_be l < 256 ^ Z.of_nat (length l).
Proof.
  induction 1 as [|b l Hb _ IH]; [done|].
  rewrite from_be_cons. cbn [length]. rewrite Nat2Z.inj_succ, Z.pow_succ_r by lia.
  unfold byte_ok in Hb. nia.
Qed.

Lemma from_be_be_bytes n z : from_be (be_bytes n z) = z mod 256 ^ Z.of_nat n.
Proof.
  induction n as [|n IH]; [by rewrite Z.mod_1_r|].
  cbn [be_bytes]. rewrite from_be_cons, length_be_bytes, IH.
  rewrite Nat2Z.inj_succ, Z.pow_succ_r, Z.mul_comm by lia.
  rewrite (Z.mul_comm 256), Z.rem_mul_r by lia. ring.
Qed.

Lemma be_bytes_inj n z z' :
  0 <= z < 256 ^ Z.of_nat n -> 0 <= z' < 256 ^ Z.of_nat n ->
  be_bytes n z = be_bytes n z' -> z = z'.
Proof.
  intros Hz Hz' H. apply (f_equal from_be) in H.
  rewrite !from_be_be_bytes, !Z.mod_small in H; lia.
Qed.

Lemma from_be_inj l l' :
  bytes_ok l -> bytes_ok l' -> length l = length l' ->
  from_be l = from_be l' -> l = l'.
Proof.
  intros Hl. revert l'. induction Hl as [|b l Hb Hl IH]; intros [|b' l'] Hl' Hlen Heq;
    [done|done|done|].
  apply Forall_cons in Hl' as [Hb' Hl']. injection Hlen as Hlen.
  rewrite !from_be_cons, <- Hlen in Heq.
  pose proof (from_be_bound l Hl) as B1. pose proof (from_be_bound l' Hl') as B2.
  rewrite <- Hlen in B2.
  assert (b = b') as -> by nia.
  f_equal. apply IH; [done|done|]. lia.
Qed.

Lemma be_bytes_from_be l : bytes_ok l -> be_bytes (length l) (from_be l) = l.
Proof.
  intros Hl. apply from_be_inj; [apply be_bytes_ok|done|apply length_be_bytes|].
  rewrite from_be_be_bytes. apply Z.mod_small, from_be_bound, Hl.
Qed.

#[export] Hint Resolve be_bytes_ok : bridge.

(** ** Lemmas on lists *)

Lemma app_inj_length {A} (l1 l2 k1 k2 : list A) :
  length l1 = length l2 -> l1 ++ k1 = l2 ++ k2 -> l1 = l2 /\ k1 = k2.
Proof. intros H. apply app_inj_1, H. Qed.

Lemma two_list_inj {A} (a b c d : A) : [a; b] = [c; d] -> a = c /\ b = d.
Proof. by intros [= -> ->]. Qed.

Lemma filter_ext_in {A} (P Q : A -> Prop) `{!forall x, Decision (P x), !forall x, Decision (Q x)} (l : list A) :
  (forall x, x ∈ l -> P x <-> Q x) -> filter P l = filter Q l.
Proof.
  induction l as [|x l IH]; intros HPQ; [done|]. rewrite !filter_cons, IH by set_solver.
  specialize (HPQ x ltac:(set_solver)). by repeat case_decide; naive_solver.
Qed.

Lemma filter_none {A} (P : A -> Prop) `{!forall x, Decision (P x)} (l : list A) :
  (forall x, x ∈ l -> ~ P x) -> filter P l = [].
Proof.
  induction l as [|x l IH]; intros HP; [done|].
  rewrite filter_cons, decide_False by (apply HP; set_solver). apply IH. set_solver.
Qed.

Lemma filter_all {A} (P : A -> Prop) `{!forall x, Decision (P x)} (l : list A) :
  (forall x, x ∈ l -> P x) -> filter P l = l.
Proof.
  induction l as [|x l IH]; intros HP; [done|].
  rewrite filter_cons, decide_True by (apply HP; set_solver). by rewrite IH by set_solver.
Qed.

(** A decidable property of a range of integers, by evaluation. *)
Lemma by_range (P : Z -> Prop) lo hi :
  Forall P (seqZ lo (hi - lo + 1)) -> forall n, lo <= n <= hi -> P n.
Proof. intros HP n Hn. rewrite Forall_forall in HP. apply HP, elem_of_seqZ. lia. Qed.
