(* ===== verification/Rlp.v ===== *)
(** * RLP encodings of coin values (crates/check-fork/src/rlp.rs)

    [alloy_rlp] is a third-party crate: [AlloyRlp] is the part of it the
    client calls, [AlloyRlpLaws] what its documentation promises, and
    [reference_rlp] an executable encoder that satisfies those laws. *)

From stdpp Require Import prelude.
From S2P Require Import Prelude.
Open Scope Z_scope.

(** ** The third-party encoder *)

Class AlloyRlp := {
  (** [alloy_rlp::encode] of a byte slice *)
  rlp_encode_bytes : bytes -> bytes;
  (** [alloy_rlp::encode] of an unsigned integer *)
  rlp_encode_uint : Z -> bytes;
  (** [alloy_rlp::Header { list: true, payload_length }.encode] *)
  rlp_list_header : Z -> bytes
}.

(** ** rlp.rs *)

(** [buf.iter().position(|&b| b != 0).unwrap_or(buf.len())] *)
Definition first_non_zero (buf : bytes) : nat :=
  match list_find (fun b => b <> 0) buf with
  | Some (i, _) => i
  | None => length buf
  end.

Definition u256_be_trimmed (value : Z) : bytes :=
  let buf := be_bytes 32 value in
  drop (first_non_zero buf) buf.

Definition u256_be_coin_bytes (value : Z) : bytes :=
  if value =? 0 then [] else u256_be_trimmed value.

(** The byte vector [encode_signed_coin_value] hands to the encoder. *)
Definition signed_coin_bytes (value : Z) : bytes :=
  let bytes := u256_be_coin_bytes value in
  match bytes with
  | b :: _ => if 128 <=? b then 0 :: bytes else bytes
  | [] => bytes
  end.

Section Encoders.
Context `{AlloyRlp}.

Definition encode_coin_value (value : Z) : bytes :=
  rlp_encode_bytes (u256_be_coin_bytes value).

Definition encode_signed_coin_value (value : Z) : bytes :=
  rlp_encode_bytes (signed_coin_bytes value).

Definition encode_signed_coin_value_as_byte (value : Z) : bytes :=
  if value =? 0 then rlp_encode_bytes [0] else encode_signed_coin_value value.

End Encoders.

(** Minimal big-endian bytes of an unsigned integer: empty for zero. *)
Definition uint_payload (n : Z) : bytes :=
  let buf := be_bytes 8 n in drop (first_non_zero buf) buf.

(** No leading zero byte. *)
Definition canonical (l : bytes) : Prop :=
  match l with [] => True | b :: _ => 0 < b end.

(** What the encoder documents: strings and list headers are self-delimiting,
    integers are encoded as the string of their minimal big-endian bytes. *)
Class AlloyRlpLaws `{AlloyRlp} := {
  rlp_bytes_delimited : forall l l' k k',
    bytes_ok l -> bytes_ok l' ->
    Z.of_nat (length l) < 2 ^ 64 -> Z.of_nat (length l') < 2 ^ 64 ->
    rlp_encode_bytes l ++ k = rlp_encode_bytes l' ++ k' -> l = l' /\ k = k';
  rlp_header_delimited : forall n n' k k',
    uint 64 n -> uint 64 n' ->
    rlp_list_header n ++ k = rlp_list_header n' ++ k' -> n = n' /\ k = k';
  rlp_uint_as_bytes : forall n,
    uint 64 n -> rlp_encode_uint n = rlp_encode_bytes (uint_payload n);
  rlp_bytes_ok : forall l,
    bytes_ok l -> Z.of_nat (length l) < 2 ^ 64 -> bytes_ok (rlp_encode_bytes l);
  rlp_header_ok : forall n, uint 64 n -> bytes_ok (rlp_list_header n);
  rlp_bytes_overhead : forall l,
    Z.of_nat (length l) < 2 ^ 64 -> (length (rlp_encode_bytes l) <= 9 + length l)%nat;
  rlp_header_overhead : forall n, uint 64 n -> (length (rlp_list_header n) <= 9)%nat
}.

(** ** An executable reference encoder *)

Module Reference.

Definition prefix (base n : Z) : bytes :=
  if n <? 56 then [base + n]
  else let b := uint_payload n in base + 55 + Z.of_nat (length b) :: b.

Definition encode_bytes (l : bytes) : bytes :=
  match l with
  | [b] => if b <? 128 then [b] else prefix 128 1 ++ l
  | _ => prefix 128 (Z.of_nat (length l)) ++ l
  end.

(** Reads a length prefix: the announced length and the rest. *)
Definition read_prefix (base : Z) (s : bytes) : option (Z * bytes) :=
  match s with
  | [] => None
  | h :: t =>
      if h <? base then None
      else if h <? base + 56 then Some (h - base, t)
      else let n := Z.to_nat (h - base - 55) in Some (from_be (take n t), drop n t)
  end.

Definition decode_bytes (s : bytes) : option (bytes * bytes) :=
  match s with
  | [] => None
  | h :: t =>
      if h <? 128 then Some ([h], t)
      else '(n, rest) ← read_prefix 128 s;
           Some (take (Z.to_nat n) rest, drop (Z.to_nat n) rest)
  end.

End Reference.

Definition reference_rlp : AlloyRlp := {|
  rlp_encode_bytes := Reference.encode_bytes;
  rlp_encode_uint n := Reference.encode_bytes (uint_payload n);
  rlp_list_header := Reference.prefix 192
|}.

(** ** Minimal big-endian byte strings *)

Lemma first_non_zero_cons b l :
  first_non_zero (b :: l) = if b =? 0 then S (first_non_zero l) else O.
Proof.
  unfold first_non_zero. cbn [list_find].
  destruct (Z.eqb_spec b 0) as [->|Hb].
  - rewrite decide_False by lia. by destruct (list_find _ l) as [[]|].
  - by rewrite decide_True by lia.
Qed.

Lemma drop_first_non_zero l :
  bytes_ok l ->
  let t := drop (first_non_zero l) l in
  bytes_ok t /\ canonical t /\ from_be t = from_be l /\ (length t <= length l)%nat.
Proof.
  induction 1 as [|b l Hb Hl IH]; [by split_and!; [constructor|..]|].
  rewrite first_non_zero_cons. destruct (Z.eqb_spec b 0) as [->|Hne].
  - cbn [drop length]. destruct IH as (?&?&Heq&?).
    rewrite from_be_cons, Heq. split_and!; [done|done|lia|lia].
  - cbn. unfold byte_ok in Hb. split_and!; [by constructor|lia|done|lia].
Qed.

(** The integer and the length class determine a canonical string. *)
Lemma canonical_bound b l :
  bytes_ok (b :: l) -> canonical (b :: l) ->
  256 ^ Z.of_nat (length l) <= from_be (b :: l) < 256 ^ Z.of_nat (S (length l)).
Proof.
  intros Hok Hc. split; [|apply (from_be_bound (b :: l)), Hok].
  apply Forall_cons in Hok as [Hb Hl]. rewrite from_be_cons.
  pose proof (from_be_bound l Hl). cbn in Hc. nia.
Qed.

Lemma canonical_inj l l' :
  bytes_ok l -> bytes_ok l' -> canonical l -> canonical l' ->
  from_be l = from_be l' -> l = l'.
Proof.
  intros Hl Hl' Hc Hc' Heq. apply from_be_inj; [done..| |done].
  destruct l as [|b l], l' as [|b' l']; [done| | |].
  - pose proof (canonical_bound _ _ Hl' Hc') as B. rewrite <- Heq in B.
    change (from_be []) with 0 in B. pose proof (Z.pow_pos_nonneg 256 (Z.of_nat (length l'))). lia.
  - pose proof (canonical_bound _ _ Hl Hc) as B. rewrite Heq in B.
    change (from_be []) with 0 in B. pose proof (Z.pow_pos_nonneg 256 (Z.of_nat (length l))). lia.
  - pose proof (canonical_bound _ _ Hl Hc) as B. pose proof (canonical_bound _ _ Hl' Hc') as B'.
    rewrite Heq in B. cbn [length]. f_equal.
    destruct (Nat.lt_trichotomy (length l) (length l')) as [Hlt|[|Hlt]]; [|done|].
    + assert (256 ^ Z.of_nat (S (length l)) <= 256 ^ Z.of_nat (length l'))
        by (apply Z.pow_le_mono_r; lia). lia.
    + assert (256 ^ Z.of_nat (S (length l')) <= 256 ^ Z.of_nat (length l))
        by (apply Z.pow_le_mono_r; lia). lia.
Qed.

Lemma uint_payload_spec n :
  uint 64 n ->
  bytes_ok (uint_payload n) /\ canonical (uint_payload n) /\
  from_be (uint_payload n) = n /\ (length (uint_payload n) <= 8)%nat.
Proof.
  intros Hn. unfold uint_payload.
  destruct (drop_first_non_zero _ (be_bytes_ok 8 n)) as (?&?&Heq&Hle).
  rewrite length_be_bytes in Hle. rewrite Heq, from_be_be_bytes.
  rewrite Z.mod_small by (unfold uint in Hn; lia). auto.
Qed.

Lemma u256_be_trimmed_spec v :
  uint 256 v ->
  bytes_ok (u256_be_trimmed v) /\ canonical (u256_be_trimmed v) /\
  from_be (u256_be_trimmed v) = v /\ (length (u256_be_trimmed v) <= 32)%nat.
Proof.
  intros Hn. unfold u256_be_trimmed.
  destruct (drop_first_non_zero _ (be_bytes_ok 32 v)) as (?&?&Heq&Hle).
  rewrite length_be_bytes in Hle. rewrite Heq, from_be_be_bytes.
  rewrite Z.mod_small by (unfold uint in Hn; lia). auto.
Qed.

Lemma u256_be_coin_bytes_spec v :
  uint 256 v ->
  bytes_ok (u256_be_coin_bytes v) /\ canonical (u256_be_coin_bytes v) /\
  from_be (u256_be_coin_bytes v) = v /\ (length (u256_be_coin_bytes v) <= 32)%nat.
Proof.
  intros Hv. unfold u256_be_coin_bytes. destruct (Z.eqb_spec v 0) as [->|].
  - split_and!; [constructor|done|done|cbn; lia].
  - by apply u256_be_trimmed_spec.
Qed.

(** ** Signed coin values *)

(** The top bit of the first byte is clear and at most one zero byte leads. *)
Lemma signed_coin_bytes_spec v :
  uint 256 v ->
  bytes_ok (signed_coin_bytes v) /\ from_be (signed_coin_bytes v) = v /\
  (length (signed_coin_bytes v) <= 33)%nat /\
  match signed_coin_bytes v with b :: _ => b < 128 | [] => v = 0 end.
Proof.
  intros Hv. destruct (u256_be_coin_bytes_spec v Hv) as (Hok&Hc&Hval&Hlen).
  unfold signed_coin_bytes. destruct (u256_be_coin_bytes v) as [|b l]; [by cbn in *; auto with lia|].
  destruct (Z.leb_spec 128 b).
  - split_and!; [constructor; [unfold byte_ok; lia|done]| |cbn in *; lia|lia].
    rewrite from_be_cons, Hval. lia.
  - split_and!; [done|done|lia|done].
Qed.

(** [encode_signed_coin_value_as_byte] encodes this string. *)
Definition signed_byte_payload (v : Z) : bytes :=
  if v =? 0 then [0] else signed_coin_bytes v.

Lemma signed_byte_payload_spec v :
  uint 256 v ->
  bytes_ok (signed_byte_payload v) /\ from_be (signed_byte_payload v) = v /\
  (length (signed_byte_payload v) <= 33)%nat.
Proof.
  intros Hv. unfold signed_byte_payload. destruct (Z.eqb_spec v 0) as [->|].
  - split_and!; [by repeat constructor|done|cbn; lia].
  - destruct (signed_coin_bytes_spec v Hv) as (?&?&?&_). auto.
Qed.

Lemma encode_signed_as_byte_payload `{AlloyRlp} v :
  encode_signed_coin_value_as_byte v = rlp_encode_bytes (signed_byte_payload v).
Proof.
  unfold encode_signed_coin_value_as_byte, signed_byte_payload. by destruct (v =? 0).
Qed.

(** ** The reference encoder satisfies the documented laws *)

Module ReferenceLaws.
Import Reference.

Lemma uint_payload_length n :
  uint 64 n -> 56 <= n -> (1 <= length (uint_payload n) <= 8)%nat.
Proof.
  intros Hn Hge. destruct (uint_payload_spec n Hn) as (_&_&Hval&Hle).
  destruct (uint_payload n); [cbn in Hval; lia|cbn in *; lia].
Qed.

Lemma read_prefix_prefix base n k :
  0 <= base -> uint 64 n -> read_prefix base (prefix base n ++ k) = Some (n, k).
Proof.
  intros Hb Hn. unfold prefix. destruct (Z.ltb_spec n 56) as [Hlt|Hge]; unfold uint in Hn.
  - cbn. rewrite (proj2 (Z.ltb_ge _ _)), (proj2 (Z.ltb_lt _ _)) by lia. do 2 f_equal. lia.
  - destruct (uint_payload_spec n Hn) as (_&_&Hval&_).
    pose proof (uint_payload_length n Hn Hge).
    cbn [read_prefix app]. rewrite !(proj2 (Z.ltb_ge _ _)) by lia.
    replace (Z.to_nat _) with (length (uint_payload n)) by lia.
    by rewrite take_app_length, drop_app_length, Hval.
Qed.

Lemma prefix_head base n :
  uint 64 n -> exists h t, prefix base n = h :: t /\ base <= h.
Proof.
  intros Hn. unfold prefix, uint in *. destruct (n <? 56); eexists _, _; split; eauto; lia.
Qed.

Lemma decode_prefixed l k :
  Z.of_nat (length l) < 2 ^ 64 ->
  decode_bytes (prefix 128 (Z.of_nat (length l)) ++ l ++ k) = Some (l, k).
Proof.
  intros Hl. assert (uint 64 (Z.of_nat (length l))) as Hu by (unfold uint; lia).
  pose proof (read_prefix_prefix 128 _ (l ++ k) ltac:(lia) Hu) as Hr.
  destruct (prefix_head 128 _ Hu) as (h&t&He&Hh). rewrite He in *. cbn [app] in *.
  cbn [decode_bytes]. rewrite (proj2 (Z.ltb_ge _ _)) by lia. rewrite Hr. cbn.
  by rewrite Nat2Z.id, take_app_length, drop_app_length.
Qed.

Lemma decode_encode l k :
  Z.of_nat (length l) < 2 ^ 64 -> decode_bytes (encode_bytes l ++ k) = Some (l, k).
Proof.
  intros Hlen. pose proof (decode_prefixed l k Hlen) as Hp.
  destruct l as [|b [|b' l]].
  - exact Hp.
  - cbn [encode_bytes]. destruct (b <? 128) eqn:Hb.
    + cbn. by rewrite Hb.
    + rewrite <- app_assoc. exact Hp.
  - cbn [encode_bytes]. rewrite <- app_assoc. exact Hp.
Qed.

Lemma prefix_overhead base n : uint 64 n -> (length (prefix base n) <= 9)%nat.
Proof.
  intros Hn. destruct (uint_payload_spec n Hn) as (_&_&_&Hle).
  unfold prefix. destruct (n <? 56); cbn; lia.
Qed.

Lemma encode_bytes_overhead l :
  Z.of_nat (length l) < 2 ^ 64 -> (length (encode_bytes l) <= 9 + length l)%nat.
Proof.
  intros Hl. assert (uint 64 (Z.of_nat (length l))) as Hu by (unfold uint; lia).
  pose proof (prefix_overhead 128 _ Hu) as Hp.
  destruct l as [|b [|b' l]]; [done|destruct (b <? 128) eqn:Hb; cbn; rewrite Hb; cbn; lia|].
  cbn [encode_bytes]. rewrite length_app. lia.
Qed.

Lemma prefix_ok base n :
  128 <= base <= 192 -> uint 64 n -> bytes_ok (prefix base n).
Proof.
  intros Hb Hn. destruct (uint_payload_spec n Hn) as (Hok&_&_&Hle).
  unfold prefix, uint in *. destruct (Z.ltb_spec n 56); constructor; try done;
    unfold byte_ok; lia.
Qed.

Lemma encode_bytes_ok l :
  bytes_ok l -> Z.of_nat (length l) < 2 ^ 64 -> bytes_ok (encode_bytes l).
Proof.
  intros Hl Hlen.
  assert (bytes_ok (prefix 128 (Z.of_nat (length l)) ++ l)) as Hp.
  { apply Forall_app. split; [apply prefix_ok; unfold uint; lia|done]. }
  destruct l as [|b [|b' l]]; [exact Hp| |exact Hp].
  cbn [encode_bytes]. by destruct (b <? 128).
Qed.

End ReferenceLaws.

Lemma reference_rlp_laws : @AlloyRlpLaws reference_rlp.
Proof.
  split.
  - intros l l' k k' _ _ Hl Hl' Heq. apply (f_equal Reference.decode_bytes) in Heq.
    cbn in Heq. rewrite !ReferenceLaws.decode_encode in Heq by done. by simplify_eq.
  - intros n n' k k' Hn Hn' Heq. apply (f_equal (Reference.read_prefix 192)) in Heq.
    cbn [rlp_list_header reference_rlp] in Heq.
    rewrite !ReferenceLaws.read_prefix_prefix in Heq by (done || lia). by simplify_eq.
  - done.
  - intros l. apply ReferenceLaws.encode_bytes_ok.
  - intros n Hn. by apply ReferenceLaws.prefix_ok; [lia|].
  - intros l Hl. by apply ReferenceLaws.encode_bytes_overhead.
  - intros n Hn. by apply ReferenceLaws.prefix_overhead.
Qed.

(** Known encodings of the RLP specification. *)
Example reference_rlp_dog :
  @rlp_encode_bytes reference_rlp [100; 111; 103] = [131; 100; 111; 103].
Proof. reflexivity. Qed.

Example reference_rlp_1024 : @rlp_encode_uint reference_rlp 1024 = [130; 4; 0].
Proof. reflexivity. Qed.
