(* ===== verification/BlockHeader.v ===== *)
(** * RSK block headers and their hash (crates/check-fork/src/block_header.rs)

    The header record, its RLP encoding with the version-dependent extension
    field, and the Keccak-256 block hash.  The theorems show which fields the
    hash binds: two headers with one hash agree on every encoded field, or
    Keccak-256 collides on messages that are hashed for them. *)

From stdpp Require Import prelude strings.
From S2P Require Import Prelude Rlp.
Open Scope Z_scope.

(** [sha3::Keccak256] of a byte string. *)
Class Keccak := { keccak256 : bytes -> bytes }.

Class KeccakLaws `{Keccak} := {
  keccak256_length : forall m, length (keccak256 m) = 32%nat;
  keccak256_bytes : forall m, bytes_ok (keccak256 m)
}.

(** The two messages are distinct and have one digest. *)
Definition collide `{Keccak} (m m' : list Z) : Prop := m <> m' /\ keccak256 m = keccak256 m'.

(** [primitive_types::H256]: its 32 bytes. *)
Abbreviation H256 := (list Z).

Definition h256_ok (h : H256) : Prop := bytes_ok h /\ length h = 32%nat.

#[export] Instance h256_ok_dec h : Decision (h256_ok h).
Proof. unfold h256_ok. apply _. Defined.

Definition RSK_HEADER_EXTENSION_TYPE_V1 : Z := 1.
Definition RSK_HEADER_EXTENSION_TYPE_V2 : Z := 2.
Definition BASE_EVENT_MAX_SIZE : Z := 128.
Definition MAX_RSK_PTE_EDGES : Z := 0.

Record RskBlockHeader := mkHeader {
  hdr_number : Z;
  hdr_hash : H256;
  hdr_parent : H256;
  hdr_difficulty : Z;
  hdr_timestamp : Z;
  hdr_uncles_hash : H256;
  hdr_coinbase : bytes;
  hdr_state_root : H256;
  hdr_tx_trie_root : H256;
  hdr_receipt_trie_root : H256;
  hdr_extension_data : bytes;
  hdr_gas_limit : bytes;
  hdr_gas_used : Z;
  hdr_extra_data : bytes;
  hdr_paid_fees : Z;
  hdr_minimum_gas_price : option Z;
  hdr_uncles : list H256;
  hdr_rsk_pte_edges : option (list Z);
  hdr_version : Z;
  hdr_base_event : option bytes;
  hdr_bitcoin_merged_mining_header : bytes
}.

Definition zero_h256 : H256 := replicate 32 0.

Definition default_header : RskBlockHeader := {|
  hdr_version := 1;
  hdr_number := 0;
  hdr_hash := zero_h256;
  hdr_parent := zero_h256;
  hdr_difficulty := 0;
  hdr_timestamp := 0;
  hdr_uncles_hash := zero_h256;
  hdr_coinbase := replicate 20 0;
  hdr_state_root := zero_h256;
  hdr_tx_trie_root := zero_h256;
  hdr_receipt_trie_root := zero_h256;
  hdr_extension_data := replicate 256 0;
  hdr_gas_limit := [0];
  hdr_gas_used := 0;
  hdr_extra_data := [];
  hdr_paid_fees := 0;
  hdr_minimum_gas_price := Some 0;
  hdr_uncles := [];
  hdr_rsk_pte_edges := None;
  hdr_base_event := None;
  hdr_bitcoin_merged_mining_header := replicate 80 0
|}.

Definition umm_root : bytes := [].

Section Encoding.
Context `{AlloyRlp, Keccak}.

Definition encode_list (rlp_list : list bytes) : bytes :=
  let payload_length := sum_list_with (fun f => length f) rlp_list in
  rlp_list_header (Z.of_nat payload_length) ++ concat rlp_list.

Definition logs_bloom_v0 (self : RskBlockHeader) : result string bytes :=
  _ ← fail_if (negb (Z.of_nat (length (hdr_extension_data self)) =? 256))
        "unsupported extension_data format: expected RPC logsBloom (256 bytes)";
  Ok (hdr_extension_data self).

(** [u16::to_le_bytes] *)
Definition u16_le_bytes (e : Z) : bytes := [e mod 256; (e / 256) mod 256].

Definition encoded_rsk_pte_edges (self : RskBlockHeader) : result string (option bytes) :=
  match hdr_rsk_pte_edges self with
  | None => Ok None
  | Some edges =>
      edge_bytes_len ← ok_or (checked_mul 64 (Z.of_nat (length edges)) 2)
                         "rsk_pte_edges byte length overflow";
      _ ← fail_if (MAX_RSK_PTE_EDGES <? edge_bytes_len)
            "rsk_pte_edges exceeds maximum allowed length";
      Ok (Some (rlp_encode_bytes (mjoin (u16_le_bytes <$> edges))))
  end.

Definition compressed_extension_data (self : RskBlockHeader) (extension_type : Z)
    (extra_fields : list bytes) : result string bytes :=
  logs_bloom ← logs_bloom_v0 self;
  let logs_bloom_hash := keccak256 logs_bloom in
  let fields := rlp_encode_bytes logs_bloom_hash :: extra_fields in
  edges ← encoded_rsk_pte_edges self;
  let fields := fields ++ match edges with Some f => [f] | None => [] end in
  let extension_hash := keccak256 (encode_list fields) in
  Ok (encode_list [rlp_encode_uint extension_type; rlp_encode_bytes extension_hash]).

Definition compressed_extension_data_v1 (self : RskBlockHeader) : result string bytes :=
  compressed_extension_data self RSK_HEADER_EXTENSION_TYPE_V1 [].

Definition compressed_extension_data_v2 (self : RskBlockHeader) : result string bytes :=
  let base_event := default [] (hdr_base_event self) in
  _ ← fail_if (BASE_EVENT_MAX_SIZE <? Z.of_nat (length base_event))
        "base_event exceeds maximum allowed length";
  compressed_extension_data self RSK_HEADER_EXTENSION_TYPE_V2 [rlp_encode_bytes base_event].

Definition extension_field (self : RskBlockHeader) : result string bytes :=
  if hdr_version self =? RSK_HEADER_EXTENSION_TYPE_V2 then compressed_extension_data_v2 self
  else if hdr_version self =? RSK_HEADER_EXTENSION_TYPE_V1 then
    match hdr_rsk_pte_edges self with
    | Some _ => compressed_extension_data_v1 self
    | None => logs_bloom_v0 self
    end
  else Err "unsupported RSK block header version".

Definition encode_rlp (self : RskBlockHeader) : result string bytes :=
  minimum_gas_price ← ok_or (hdr_minimum_gas_price self) "minimum_gas_price is None";
  ext ← extension_field self;
  Ok (encode_list [
    rlp_encode_bytes (hdr_parent self);
    rlp_encode_bytes (hdr_uncles_hash self);
    rlp_encode_bytes (hdr_coinbase self);
    rlp_encode_bytes (hdr_state_root self);
    rlp_encode_bytes (hdr_tx_trie_root self);
    rlp_encode_bytes (hdr_receipt_trie_root self);
    rlp_encode_bytes ext;
    encode_coin_value (hdr_difficulty self);
    rlp_encode_uint (hdr_number self);
    rlp_encode_bytes (hdr_gas_limit self);
    rlp_encode_uint (hdr_gas_used self);
    rlp_encode_uint (hdr_timestamp self);
    rlp_encode_bytes (hdr_extra_data self);
    encode_coin_value (hdr_paid_fees self);
    encode_signed_coin_value_as_byte minimum_gas_price;
    rlp_encode_uint (Z.of_nat (length (hdr_uncles self)));
    rlp_encode_bytes umm_root;
    rlp_encode_bytes (hdr_bitcoin_merged_mining_header self)
  ]).

Definition calculate_block_hash (self : RskBlockHeader) : result string H256 :=
  rlp_encoded ← encode_rlp self;
  Ok (keccak256 rlp_encoded).

End Encoding.

(** ** Well-typed headers

    What the Rust types guarantee: integer widths, fixed array sizes, and
    vectors whose length fits [isize]. *)

Definition vec_fits (l : bytes) : Prop := Z.of_nat (length l) < 2 ^ 63.

Definition vec_ok (l : bytes) : Prop := bytes_ok l /\ vec_fits l.

#[export] Instance vec_fits_dec l : Decision (vec_fits l).
Proof. unfold vec_fits. apply _. Defined.
#[export] Instance vec_ok_dec l : Decision (vec_ok l).
Proof. unfold vec_ok. apply _. Defined.

Record header_ok (h : RskBlockHeader) : Prop := {
  ok_number : uint 64 (hdr_number h);
  ok_timestamp : uint 64 (hdr_timestamp h);
  ok_gas_used : uint 64 (hdr_gas_used h);
  ok_uncles : uint 64 (Z.of_nat (length (hdr_uncles h)));
  ok_difficulty : uint 256 (hdr_difficulty h);
  ok_paid_fees : uint 256 (hdr_paid_fees h);
  ok_minimum_gas_price : forall p, hdr_minimum_gas_price h = Some p -> uint 256 p;
  ok_parent : h256_ok (hdr_parent h);
  ok_uncles_hash : h256_ok (hdr_uncles_hash h);
  ok_state_root : h256_ok (hdr_state_root h);
  ok_tx_trie_root : h256_ok (hdr_tx_trie_root h);
  ok_receipt_trie_root : h256_ok (hdr_receipt_trie_root h);
  ok_coinbase : bytes_ok (hdr_coinbase h) /\ length (hdr_coinbase h) = 20%nat;
  ok_extension_data : vec_ok (hdr_extension_data h);
  ok_gas_limit : vec_ok (hdr_gas_limit h);
  ok_extra_data : vec_ok (hdr_extra_data h);
  ok_base_event : forall e, hdr_base_event h = Some e -> vec_ok e;
  ok_mm_header : vec_ok (hdr_bitcoin_merged_mining_header h)
}.

(** The strings whose encodings make up the hashed list. *)
Definition header_strings (h : RskBlockHeader) (mgp : Z) (ext : bytes) : list bytes := [
  hdr_parent h; hdr_uncles_hash h; hdr_coinbase h; hdr_state_root h; hdr_tx_trie_root h;
  hdr_receipt_trie_root h; ext; u256_be_coin_bytes (hdr_difficulty h);
  uint_payload (hdr_number h); hdr_gas_limit h; uint_payload (hdr_gas_used h);
  uint_payload (hdr_timestamp h); hdr_extra_data h; u256_be_coin_bytes (hdr_paid_fees h);
  signed_byte_payload mgp; uint_payload (Z.of_nat (length (hdr_uncles h))); umm_root;
  hdr_bitcoin_merged_mining_header h ].

(** The strings hashed into the compressed extension of a version [v] header. *)
Definition extension_strings `{Keccak} (h : RskBlockHeader) (v : Z) : list bytes :=
  keccak256 (hdr_extension_data h)
  :: (if v =? RSK_HEADER_EXTENSION_TYPE_V2 then [default [] (hdr_base_event h)] else [])
  ++ match hdr_rsk_pte_edges h with Some _ => [[]] | None => [] end.

(** Every field of the header the block hash commits to. *)
Definition same_committed_fields (h h' : RskBlockHeader) : Prop :=
  hdr_parent h = hdr_parent h' /\ hdr_uncles_hash h = hdr_uncles_hash h' /\
  hdr_coinbase h = hdr_coinbase h' /\ hdr_state_root h = hdr_state_root h' /\
  hdr_tx_trie_root h = hdr_tx_trie_root h' /\
  hdr_receipt_trie_root h = hdr_receipt_trie_root h' /\
  hdr_difficulty h = hdr_difficulty h' /\ hdr_number h = hdr_number h' /\
  hdr_gas_limit h = hdr_gas_limit h' /\ hdr_gas_used h = hdr_gas_used h' /\
  hdr_timestamp h = hdr_timestamp h' /\ hdr_extra_data h = hdr_extra_data h' /\
  hdr_paid_fees h = hdr_paid_fees h' /\
  hdr_minimum_gas_price h = hdr_minimum_gas_price h' /\
  length (hdr_uncles h) = length (hdr_uncles h') /\
  hdr_bitcoin_merged_mining_header h = hdr_bitcoin_merged_mining_header h' /\
  hdr_extension_data h = hdr_extension_data h' /\ hdr_version h = hdr_version h' /\
  hdr_rsk_pte_edges h = hdr_rsk_pte_edges h' /\
  (hdr_version h = RSK_HEADER_EXTENSION_TYPE_V2 ->
   default [] (hdr_base_event h) = default [] (hdr_base_event h')).

(** ** Lists of encoded strings *)

Section Injectivity.
Context `{AlloyRlpLaws}.

Lemma rlp_encode_bytes_nonempty l : vec_ok l -> rlp_encode_bytes l <> [].
Proof.
  intros [Hok Hfit] Hnil.
  set (m := if decide (l = []) then [0] else []).
  assert (m <> l /\ bytes_ok m /\ Z.of_nat (length m) < 2 ^ 64) as (Hne&Hm&Hlm).
  { subst m. destruct (decide (l = [])) as [->|]; split_and!; try done; by repeat constructor. }
  destruct (rlp_bytes_delimited m l [] (rlp_encode_bytes m)); try done.
  - unfold vec_fits in *. lia.
  - by rewrite Hnil, app_nil_r.
Qed.

Lemma concat_encoded_inj ls ls' :
  Forall vec_ok ls -> Forall vec_ok ls' ->
  concat (rlp_encode_bytes <$> ls) = concat (rlp_encode_bytes <$> ls') -> ls = ls'.
Proof.
  intros Hls. revert ls'. induction Hls as [|l ls Hl _ IH]; intros [|l' ls'] Hls' Heq; [done|..].
  - apply Forall_cons in Hls' as [Hl' _]. cbn in Heq.
    symmetry in Heq. apply app_nil in Heq as [Heq _].
    by apply rlp_encode_bytes_nonempty in Heq.
  - cbn in Heq. apply app_nil in Heq as [Heq _]. by apply rlp_encode_bytes_nonempty in Heq.
  - apply Forall_cons in Hls' as [[Hl' Hf'] Hls']. destruct Hl as [Hl Hf]. cbn in Heq.
    unfold vec_fits in *.
    apply rlp_bytes_delimited in Heq as [-> Heq]; [|done|done|lia|lia].
    f_equal. by apply IH.
Qed.

Lemma length_concat_sum (ls : list bytes) :
  length (concat ls) = sum_list_with (fun f => length f) ls.
Proof. induction ls; cbn; [done|]. rewrite length_app. lia. Qed.

Lemma encode_list_inj ls ls' :
  Forall vec_ok ls -> Forall vec_ok ls' ->
  vec_fits (encode_list (rlp_encode_bytes <$> ls)) ->
  vec_fits (encode_list (rlp_encode_bytes <$> ls')) ->
  encode_list (rlp_encode_bytes <$> ls) = encode_list (rlp_encode_bytes <$> ls') -> ls = ls'.
Proof.
  intros Hls Hls' Hf Hf' Heq. apply concat_encoded_inj; [done..|].
  unfold encode_list, vec_fits in *. rewrite !length_app, !length_concat_sum in *.
  apply rlp_header_delimited in Heq as [_ Heq]; [done|unfold uint; lia..].
Qed.

End Injectivity.

(** ** What the block hash commits to *)

Section Binding.
Context `{AlloyRlpLaws, KeccakLaws}.

(** The extension field of a header with a compressed extension. *)
Definition compressed (h : RskBlockHeader) : bytes :=
  encode_list (rlp_encode_bytes <$>
    [uint_payload (hdr_version h);
     keccak256 (encode_list (rlp_encode_bytes <$> extension_strings h (hdr_version h)))]).

Definition edges_empty (h : RskBlockHeader) : Prop :=
  hdr_rsk_pte_edges h = None \/ hdr_rsk_pte_edges h = Some [].

Lemma logs_bloom_v0_ok h b :
  logs_bloom_v0 h = Ok b <-> b = hdr_extension_data h /\ length (hdr_extension_data h) = 256%nat.
Proof.
  unfold logs_bloom_v0. destruct (Z.eqb_spec (Z.of_nat (length (hdr_extension_data h))) 256);
    cbn; split; intros Hb; destruct_and?; simplify_eq; split || exfalso; (done || lia).
Qed.

Lemma encoded_rsk_pte_edges_ok h o :
  encoded_rsk_pte_edges h = Ok o ->
  edges_empty h /\ o = match hdr_rsk_pte_edges h with Some _ => Some (rlp_encode_bytes []) | None => None end.
Proof.
  unfold encoded_rsk_pte_edges, edges_empty. destruct (hdr_rsk_pte_edges h) as [edges|]; intros He.
  - apply result_bind_ok in He as (n&Hn&He). apply ok_or_ok, checked_mul_Some in Hn as [-> _].
    apply result_bind_ok in He as ([]&Hn&He). apply fail_if_ok in Hn. simplify_eq.
    destruct edges as [|e edges]; [by auto|].
    cbn [length] in Hn. unfold MAX_RSK_PTE_EDGES in Hn. reflect_bool. lia.
  - simplify_eq. auto.
Qed.

Lemma compressed_extension_data_ok h v extra ext :
  compressed_extension_data h v extra = Ok ext -> uint 64 v ->
  length (hdr_extension_data h) = 256%nat /\ edges_empty h /\
  ext = encode_list (rlp_encode_bytes <$>
    [uint_payload v;
     keccak256 (encode_list (rlp_encode_bytes (keccak256 (hdr_extension_data h)) :: extra
       ++ (rlp_encode_bytes <$> match hdr_rsk_pte_edges h with Some _ => [[]] | None => [] end)))]).
Proof.
  intros Hc Hv. unfold compressed_extension_data in Hc.
  apply result_bind_ok in Hc as (b&Hb&Hc). apply logs_bloom_v0_ok in Hb as [-> Hlen].
  apply result_bind_ok in Hc as (o&Ho&Hc). apply encoded_rsk_pte_edges_ok in Ho as [He ->].
  simplify_eq. split_and!; [done|done|].
  rewrite rlp_uint_as_bytes by done. do 3 f_equal.
  cbn [fmap list_fmap]. do 4 f_equal. by destruct (hdr_rsk_pte_edges h).
Qed.

Lemma extension_field_cases h ext :
  extension_field h = Ok ext ->
  length (hdr_extension_data h) = 256%nat /\
  ((hdr_version h = 1 /\ hdr_rsk_pte_edges h = None /\ ext = hdr_extension_data h) \/
   (hdr_version h = 1 /\ hdr_rsk_pte_edges h = Some [] /\ ext = compressed h) \/
   (hdr_version h = 2 /\ edges_empty h /\ ext = compressed h /\
    (length (default [] (hdr_base_event h)) <= 128)%nat)).
Proof.
  unfold extension_field. destruct (Z.eqb_spec (hdr_version h) RSK_HEADER_EXTENSION_TYPE_V2) as [Hv|_].
  - intros Hc. apply result_bind_ok in Hc as ([]&Hn&Hc). apply fail_if_ok in Hn.
    unfold BASE_EVENT_MAX_SIZE in Hn. reflect_bool.
    apply compressed_extension_data_ok in Hc as (?&?&->); [|done].
    split; [done|]. right; right. split_and!; [done|done| |lia].
    unfold compressed. rewrite Hv. do 6 f_equal.
  - destruct (Z.eqb_spec (hdr_version h) RSK_HEADER_EXTENSION_TYPE_V1) as [Hv|_]; [|done].
    destruct (hdr_rsk_pte_edges h) as [edges|] eqn:He; intros Hc.
    + apply compressed_extension_data_ok in Hc as (?&Hempty&->); [|done].
      split; [done|]. right; left. unfold edges_empty in Hempty. split_and!; [done|naive_solver|].
      unfold compressed, extension_strings. by rewrite Hv.
    + apply logs_bloom_v0_ok in Hc as [-> ?]. auto.
Qed.

Lemma encoded_length_bound ls n :
  Forall vec_ok ls -> (sum_list_with (fun l => 9 + length l) ls <= n)%nat -> Z.of_nat n < 2 ^ 64 ->
  (length (encode_list (rlp_encode_bytes <$> ls)) <= 9 + n)%nat.
Proof.
  intros Hls Hsum Hn. unfold encode_list. rewrite length_app, length_concat_sum.
  assert (sum_list_with (fun f => length f) (rlp_encode_bytes <$> ls) <= n)%nat as Hle.
  { etrans; [|exact Hsum]. clear Hsum. induction Hls as [|l ls [_ Hl] _ IH]; [done|].
    rewrite fmap_cons. cbn [sum_list_with]. unfold vec_fits in Hl.
    pose proof (rlp_bytes_overhead l ltac:(lia)). lia. }
  pose proof (rlp_header_overhead (Z.of_nat (sum_list_with (fun f => length f) (rlp_encode_bytes <$> ls)))).
  unfold uint in *. lia.
Qed.

Lemma encode_list_bytes_ok ls :
  Forall vec_ok ls -> vec_fits (encode_list (rlp_encode_bytes <$> ls)) ->
  bytes_ok (encode_list (rlp_encode_bytes <$> ls)).
Proof.
  intros Hls Hfit. unfold encode_list, vec_fits in *.
  rewrite length_app, length_concat_sum in Hfit.
  apply Forall_app. split; [apply rlp_header_ok; unfold uint; lia|].
  clear Hfit. induction Hls as [|l ls [Hl Hf] _ IH]; [constructor|].
  cbn. apply Forall_app. split; [apply rlp_bytes_ok; unfold vec_fits in *; [done|lia]|done].
Qed.

Lemma small_vec_ok l n : bytes_ok l -> (length l <= n)%nat -> Z.of_nat n < 2 ^ 63 -> vec_ok l.
Proof. intros. split; [done|unfold vec_fits; lia]. Qed.

Lemma keccak_vec_ok m : vec_ok (keccak256 m).
Proof. apply (small_vec_ok _ 32); [apply keccak256_bytes|by rewrite keccak256_length|lia]. Qed.

Lemma uint_payload_vec_ok n : uint 64 n -> vec_ok (uint_payload n).
Proof. intros Hn. destruct (uint_payload_spec n Hn) as (?&_&_&?). by apply (small_vec_ok _ 8). Qed.

Lemma coin_vec_ok v : uint 256 v -> vec_ok (u256_be_coin_bytes v).
Proof. intros Hv. destruct (u256_be_coin_bytes_spec v Hv) as (?&_&_&?). by apply (small_vec_ok _ 32). Qed.

Lemma signed_vec_ok v : uint 256 v -> vec_ok (signed_byte_payload v).
Proof. intros Hv. destruct (signed_byte_payload_spec v Hv) as (?&_&?). by apply (small_vec_ok _ 33). Qed.

Lemma h256_vec_ok h : h256_ok h -> vec_ok h.
Proof. intros [? Hl]. apply (small_vec_ok _ 32); [done|lia|lia]. Qed.

End Binding.

#[export] Hint Resolve keccak_vec_ok uint_payload_vec_ok coin_vec_ok signed_vec_ok h256_vec_ok
  : bridge.

Section Commitment.
Context `{AlloyRlpLaws, KeccakLaws}.

Lemma keccak_eq_or_collide m m' : keccak256 m = keccak256 m' -> m = m' \/ collide m m'.
Proof. intros Heq. destruct (decide (m = m')); [by left|by right]. Qed.

(** Messages of the extensions of two headers collide. *)
Definition extensions_collide (h h' : RskBlockHeader) : Prop :=
  collide (hdr_extension_data h) (hdr_extension_data h') \/
  collide (encode_list (rlp_encode_bytes <$> extension_strings h (hdr_version h)))
    (encode_list (rlp_encode_bytes <$> extension_strings h' (hdr_version h'))).

(** Two messages that are hashed for the block hashes of the two headers, at the
    same place, collide: their encodings, the lists of their compressed
    extensions, or their logs blooms. *)
Definition headers_collide (h h' : RskBlockHeader) : Prop :=
  (exists enc enc', encode_rlp h = Ok enc /\ encode_rlp h' = Ok enc' /\ collide enc enc') \/
  extensions_collide h h'.

(** A header whose extension is compressed. *)
Definition compressible (h : RskBlockHeader) : Prop :=
  (hdr_version h = 1 /\ hdr_rsk_pte_edges h = Some []) \/
  (hdr_version h = 2 /\ edges_empty h /\ (length (default [] (hdr_base_event h)) <= 128)%nat).

Lemma base_event_vec_ok h : header_ok h -> vec_ok (default [] (hdr_base_event h)).
Proof.
  intros Hh. destruct (hdr_base_event h) as [e|] eqn:He; [by eapply ok_base_event|].
  by split; [constructor|].
Qed.

Lemma extension_strings_ok h :
  header_ok h -> compressible h ->
  Forall vec_ok (extension_strings h (hdr_version h)) /\
  vec_fits (encode_list (rlp_encode_bytes <$> extension_strings h (hdr_version h))).
Proof.
  intros Hh Hc. pose proof (base_event_vec_ok h Hh) as Hb.
  assert (vec_ok []) as Hnil by (by split; [constructor|]).
  assert (Forall vec_ok (extension_strings h (hdr_version h))) as Hall.
  { unfold extension_strings. constructor; [apply keccak_vec_ok|].
    apply Forall_app. split.
    - destruct (_ =? _); auto using Forall_cons_2, Forall_nil_2.
    - destruct (hdr_rsk_pte_edges h); auto using Forall_cons_2, Forall_nil_2. }
  split; [done|].
  pose proof (encoded_length_bound (extension_strings h (hdr_version h)) 200 Hall) as Hle.
  enough (sum_list_with (fun l => 9 + length l)%nat (extension_strings h (hdr_version h)) <= 200)%nat
    by (unfold vec_fits; lia).
  unfold extension_strings. cbn [sum_list_with]. rewrite keccak256_length, sum_list_with_app.
  destruct Hc as [[-> ->]|(->&He&Hl)]; [cbn; lia|].
  destruct (hdr_rsk_pte_edges h); cbn in *; lia.
Qed.

Lemma compressed_ok h :
  header_ok h -> compressible h -> vec_ok (compressed h) /\ (length (compressed h) < 256)%nat.
Proof.
  intros Hh Hc. unfold compressed.
  set (ls := [_; _]).
  assert (uint 64 (hdr_version h)) as Hv by (unfold uint; destruct Hc as [[-> _]|[-> _]]; lia).
  assert (Forall vec_ok ls) as Hls by (apply Forall_cons_2, Forall_singleton; auto with bridge).
  assert (length (encode_list (rlp_encode_bytes <$> ls)) <= 9 + 60)%nat as Hle.
  { apply encoded_length_bound; [done| |lia]. cbn. rewrite keccak256_length.
    destruct (uint_payload_spec _ Hv) as (_&_&_&?). lia. }
  assert (vec_fits (encode_list (rlp_encode_bytes <$> ls))) as Hf by (unfold vec_fits; lia).
  split; [|lia]. split; [by apply encode_list_bytes_ok|done].
Qed.

Lemma uint_payload_inj n n' :
  uint 64 n -> uint 64 n' -> uint_payload n = uint_payload n' -> n = n'.
Proof.
  intros Hn Hn' Heq. destruct (uint_payload_spec n Hn) as (_&_&<-&_).
  destruct (uint_payload_spec n' Hn') as (_&_&<-&_). by rewrite Heq.
Qed.

Lemma compressed_inj h h' :
  header_ok h -> header_ok h' -> compressible h -> compressible h' ->
  compressed h = compressed h' ->
  extensions_collide h h' \/
  (hdr_extension_data h = hdr_extension_data h' /\ hdr_version h = hdr_version h' /\
   hdr_rsk_pte_edges h = hdr_rsk_pte_edges h' /\
   (hdr_version h = 2 -> default [] (hdr_base_event h) = default [] (hdr_base_event h'))).
Proof.
  intros Hh Hh' Hc Hc' Heq.
  assert (forall k, compressible k -> uint 64 (hdr_version k)) as Huv
    by (intros k [[-> _]|[-> _]]; unfold uint; lia).
  apply encode_list_inj in Heq; [|apply Forall_cons_2, Forall_singleton; auto with bridge..| |];
    [|by apply compressed_ok..].
  apply two_list_inj in Heq as [Hv Hk]. apply uint_payload_inj in Hv; [|by apply Huv..].
  apply keccak_eq_or_collide in Hk as [Hk|]; [|by left; right].
  destruct (extension_strings_ok h) as [Hs Hf]; [done..|].
  destruct (extension_strings_ok h') as [Hs' Hf']; [done..|].
  apply encode_list_inj in Hk; [|done..].
  unfold extension_strings in Hk. injection Hk as Hbloom Hrest.
  apply keccak_eq_or_collide in Hbloom as [Hbloom|]; [|by left; left]. right.
  destruct Hc as [[Hv1 He]|(Hv1&He&_)], Hc' as [[Hv1' He']|(Hv1'&He'&_)]; try congruence.
  - split_and!; [done|done|congruence|congruence].
  - rewrite Hv1, Hv1' in Hrest. cbn in Hrest. injection Hrest as Hev Hed.
    split_and!; [done|done| |done].
    destruct He as [He|He], He' as [He'|He']; rewrite He, He' in *; done.
Qed.

Lemma extension_field_inj h h' ext :
  header_ok h -> header_ok h' -> extension_field h = Ok ext -> extension_field h' = Ok ext ->
  extensions_collide h h' \/
  (hdr_extension_data h = hdr_extension_data h' /\ hdr_version h = hdr_version h' /\
   hdr_rsk_pte_edges h = hdr_rsk_pte_edges h' /\
   (hdr_version h = 2 -> default [] (hdr_base_event h) = default [] (hdr_base_event h'))).
Proof.
  intros Hh Hh' He He'.
  apply extension_field_cases in He as [Hl Hcase]. apply extension_field_cases in He' as [Hl' Hcase'].
  assert (forall k e, length (hdr_extension_data k) = 256%nat -> header_ok k -> compressible k ->
    e = compressed k -> length e <> 256%nat) as Hshort.
  { intros k e _ Hk Hck ->. pose proof (compressed_ok k Hk Hck). lia. }
  assert (forall k, (hdr_version k = 1 /\ hdr_rsk_pte_edges k = Some [] /\ ext = compressed k \/
    hdr_version k = 2 /\ edges_empty k /\ ext = compressed k /\
      (length (default [] (hdr_base_event k)) <= 128)%nat) -> compressible k /\ ext = compressed k) as Hcomp.
  { unfold compressible. naive_solver. }
  destruct Hcase as [(Hv&Hed&Hx)|Hcase], Hcase' as [(Hv'&Hed'&Hx')|Hcase'].
  - right. split_and!; congruence.
  - apply Hcomp in Hcase' as [? ?]. exfalso. eapply (Hshort h'); eauto. by rewrite Hx.
  - apply Hcomp in Hcase as [? ?]. exfalso. eapply (Hshort h); eauto. by rewrite Hx'.
  - apply Hcomp in Hcase as [? Hx], Hcase' as [? Hx']. apply compressed_inj; [done..|congruence].
Qed.

Lemma encode_rlp_ok h enc :
  header_ok h -> encode_rlp h = Ok enc ->
  exists mgp ext, hdr_minimum_gas_price h = Some mgp /\ extension_field h = Ok ext /\
    enc = encode_list (rlp_encode_bytes <$> header_strings h mgp ext).
Proof.
  intros Hh He. unfold encode_rlp in He.
  apply result_bind_ok in He as (mgp&Hm&He). apply ok_or_ok in Hm.
  apply result_bind_ok in He as (ext&Hx&He). exists mgp, ext. split_and!; [done|done|].
  injection He as <-. unfold header_strings, encode_coin_value.
  rewrite !rlp_uint_as_bytes by (destruct Hh; done). by rewrite encode_signed_as_byte_payload.
Qed.

Lemma extension_vec_ok h ext : header_ok h -> extension_field h = Ok ext -> vec_ok ext.
Proof.
  intros Hh He. apply extension_field_cases in He as [_ [(_&_&->)|[(?&?&->)|(?&?&->&?)]]].
  - by apply ok_extension_data.
  - apply compressed_ok; [done|by left].
  - apply compressed_ok; [done|by right].
Qed.

Lemma header_strings_ok h mgp ext :
  header_ok h -> hdr_minimum_gas_price h = Some mgp -> vec_ok ext ->
  Forall vec_ok (header_strings h mgp ext).
Proof.
  intros Hh Hm Hx. unfold header_strings. pose proof (ok_minimum_gas_price h Hh mgp Hm).
  assert (vec_ok (hdr_coinbase h)) by (destruct (ok_coinbase h Hh); apply (small_vec_ok _ 20); [done|lia|lia]).
  assert (vec_ok umm_root) by (by split; [constructor|]).
  destruct Hh. repeat apply Forall_cons_2; auto using Forall_nil_2 with bridge.
Qed.

Lemma coin_bytes_inj v v' :
  uint 256 v -> uint 256 v' -> u256_be_coin_bytes v = u256_be_coin_bytes v' -> v = v'.
Proof.
  intros Hv Hv' Heq. destruct (u256_be_coin_bytes_spec v Hv) as (_&_&<-&_).
  destruct (u256_be_coin_bytes_spec v' Hv') as (_&_&<-&_). by rewrite Heq.
Qed.

Lemma signed_payload_inj v v' :
  uint 256 v -> uint 256 v' -> signed_byte_payload v = signed_byte_payload v' -> v = v'.
Proof.
  intros Hv Hv' Heq. destruct (signed_byte_payload_spec v Hv) as (_&<-&_).
  destruct (signed_byte_payload_spec v' Hv') as (_&<-&_). by rewrite Heq.
Qed.

Lemma header_strings_inj h h' mgp mgp' ext ext' :
  header_ok h -> header_ok h' -> hdr_minimum_gas_price h = Some mgp ->
  hdr_minimum_gas_price h' = Some mgp' ->
  header_strings h mgp ext = header_strings h' mgp' ext' ->
  ext = ext' /\
  (hdr_extension_data h = hdr_extension_data h' /\ hdr_version h = hdr_version h' /\
   hdr_rsk_pte_edges h = hdr_rsk_pte_edges h' /\
   (hdr_version h = 2 -> default [] (hdr_base_event h) = default [] (hdr_base_event h')) ->
   same_committed_fields h h').
Proof.
  intros Hh Hh' Hm Hm' Heq. unfold header_strings in Heq.
  injection Heq as Hpar Hunc Hcb Hst Htx Hrc Hext Hdiff Hnum Hgl Hgu Hts Hxd Hpf Hmgp Hul Hmm.
  split; [done|]. intros (?&?&?&?).
  pose proof (ok_minimum_gas_price h Hh mgp Hm). pose proof (ok_minimum_gas_price h' Hh' mgp' Hm').
  destruct Hh, Hh'.
  apply coin_bytes_inj in Hdiff, Hpf; try done. apply signed_payload_inj in Hmgp; try done.
  apply uint_payload_inj in Hnum, Hgu, Hts, Hul; try done.
  unfold same_committed_fields. split_and!; try done; [congruence|lia].
Qed.

Lemma block_hash_binding h h' enc enc' x :
  header_ok h -> header_ok h' ->
  encode_rlp h = Ok enc -> vec_fits enc -> encode_rlp h' = Ok enc' -> vec_fits enc' ->
  calculate_block_hash h = Ok x -> calculate_block_hash h' = Ok x ->
  same_committed_fields h h' \/ headers_collide h h'.
Proof.
  intros Hh Hh' He Hfit He' Hfit' Hx Hx'.
  unfold calculate_block_hash in Hx, Hx'. rewrite He in Hx. rewrite He' in Hx'.
  injection Hx as Hx. injection Hx' as <-.
  apply keccak_eq_or_collide in Hx as [->|]; [|right; left; by exists enc, enc'].
  apply encode_rlp_ok in He as (mgp&ext&Hm&Hex&->); [|done].
  apply encode_rlp_ok in He' as (mgp'&ext'&Hm'&Hex'&Heq); [|done].
  pose proof (header_strings_ok _ _ _ Hh Hm (extension_vec_ok _ _ Hh Hex)).
  pose proof (header_strings_ok _ _ _ Hh' Hm' (extension_vec_ok _ _ Hh' Hex')).
  apply encode_list_inj in Heq; [|done..|by rewrite <- Heq].
  apply header_strings_inj in Heq as [-> Hsame]; [|done..].
  destruct (extension_field_inj h h' ext'); [done..|by right; right|by left; apply Hsame].
Qed.

(** C32: The block hash binds the header.  If [calculate_block_hash] gives two
    well-typed headers one hash, then they agree on every field the encoding
    commits to (number, parent, difficulty, timestamp, roots, uncle count,
    version, logs bloom, merged-mining header and, in version 2, the base
    event), or Keccak-256 gives one digest to two distinct messages that it is
    applied to for these very headers: their two encodings, the two lists of their
    compressed extensions, or their two logs blooms. *)
Theorem block_hash_binds_header h h' enc enc' x :
  header_ok h -> header_ok h' ->
  encode_rlp h = Ok enc -> vec_fits enc -> encode_rlp h' = Ok enc' -> vec_fits enc' ->
  calculate_block_hash h = Ok x -> calculate_block_hash h' = Ok x ->
  same_committed_fields h h' \/ headers_collide h h'.
Proof. apply block_hash_binding. Qed.

End Commitment.

(** ** A concrete instance

    A checksum-like digest: enough to run the encoders on sample headers. *)

Definition sample_keccak : Keccak := {|
  keccak256 m := be_bytes 32 (from_be m + Z.of_nat (length m))
|}.

Lemma sample_keccak_laws : @KeccakLaws sample_keccak.
Proof. split; intros m; [apply length_be_bytes|apply be_bytes_ok]. Qed.

(** A version 2 header carrying a 32-byte base event, and a second one that
    differs from it only in the stored hash. *)
Definition sample_header : RskBlockHeader := {|
  hdr_version := 2; hdr_number := 101; hdr_hash := zero_h256; hdr_parent := zero_h256;
  hdr_difficulty := 400; hdr_timestamp := 1000; hdr_uncles_hash := zero_h256;
  hdr_coinbase := replicate 20 0; hdr_state_root := zero_h256; hdr_tx_trie_root := zero_h256;
  hdr_receipt_trie_root := zero_h256; hdr_extension_data := replicate 256 0;
  hdr_gas_limit := [0]; hdr_gas_used := 21000; hdr_extra_data := [];
  hdr_paid_fees := 5; hdr_minimum_gas_price := Some 0; hdr_uncles := [];
  hdr_rsk_pte_edges := None; hdr_base_event := Some (replicate 32 7);
  hdr_bitcoin_merged_mining_header := replicate 80 0 |}.

Definition rehashed (x : H256) (h : RskBlockHeader) : RskBlockHeader :=
  mkHeader (hdr_number h) x (hdr_parent h) (hdr_difficulty h) (hdr_timestamp h)
    (hdr_uncles_hash h) (hdr_coinbase h) (hdr_state_root h) (hdr_tx_trie_root h)
    (hdr_receipt_trie_root h) (hdr_extension_data h) (hdr_gas_limit h) (hdr_gas_used h)
    (hdr_extra_data h) (hdr_paid_fees h) (hdr_minimum_gas_price h) (hdr_uncles h)
    (hdr_rsk_pte_edges h) (hdr_version h) (hdr_base_event h)
    (hdr_bitcoin_merged_mining_header h).

Lemma sample_header_ok x : header_ok (rehashed x sample_header).
Proof.
  constructor; try by_decide.
  - intros p [= <-]. by_decide.
  - intros e [= <-]. by_decide.
Qed.

(** The premises of [block_hash_binds_header] hold of two copies of the sample
    header with different stored hashes. *)
Lemma block_hash_binds_header_witness :
  same_committed_fields sample_header (rehashed (replicate 32 9) sample_header)
  \/ @headers_collide reference_rlp sample_keccak sample_header (rehashed (replicate 32 9) sample_header).
Proof.
  eapply (@block_hash_binds_header reference_rlp reference_rlp_laws sample_keccak
    sample_keccak_laws sample_header (rehashed (replicate 32 9) sample_header)).
  - apply (sample_header_ok zero_h256).
  - apply (sample_header_ok (replicate 32 9)).
  - vm_compute. reflexivity.
  - by_decide.
  - vm_compute. reflexivity.
  - by_decide.
  - vm_compute. reflexivity.
  - vm_compute. reflexivity.
Defined.
