(* ===== verification/CheckFork.v ===== *)
(** * The check-fork verifier (crates/check-fork/src/lib.rs)

    [check_fork] runs inside the zkVM: it accepts a list of RSK blocks as a
    continuation that carries the peg-out event and enough cumulative work.
    This file holds the verifier, the peg-out identifier, the committed
    journal, and the guest program that ties them together
    (crates/check-fork/zkp/guest/src/main.rs). *)

From stdpp Require Import prelude strings.
From S2P Require Import Prelude Rlp BlockHeader.
Open Scope Z_scope.

(** ** Data *)

Definition SUPERBLOCK_TIMES_DIFFICULTY : Z := 20.
Definition CHECK_FORK_JOURNAL_VERSION : Z := 1.
Definition PEGOUT_ID_VERSION : Z := 1.

Inductive RskBlock := mkBlock {
  blk_uncles : list RskBlock;
  blk_pow : H256;
  blk_header : RskBlockHeader
}.

Record CheckForkArgs := mkArgs {
  pegout_id_version : Z;
  sequence_number : Z;
  stream_id : Z;
  packet_number : Z;
  slot_id : Z;
  operator_take_pubkey_parity : Z;
  operator_take_pubkey_xonly : bytes;
  best_block_hash : H256;
  init_block_time : Z;
  init_block_number : Z;
  required_effort : Z;
  required_num_blocks : Z;
  block_list : list RskBlock
}.

Record CheckForkJournal := mkJournal {
  operator_take_pubkey : bytes;
  pegout_id : bytes;
  journal_slot_id : bytes;
  accepted : Z;
  version : bytes
}.

(** ** Block validation *)

Definition build_pegout_base_event_from_id (pegout_id : H256) : bytes := pegout_id.

Definition calculate_block_effort (block : RskBlock) : result string Z :=
  let pow := from_be (blk_pow block) in
  ok_or (checked_div (uint_max 256) pow) "0 division on calculate_block_effort".

Definition accumulate_effort (cumulative_effort : Z) (block : RskBlock) : result string Z :=
  effort ← calculate_block_effort block;
  ok_or (checked_add 256 cumulative_effort effort) "Overflow occurred adding block's PoW".

Definition validate_block_list (required_num_blocks : Z) (block_list : list RskBlock)
    : result string unit :=
  _ ← fail_if (required_num_blocks <? 1) "Invalid number of required blocks";
  _ ← fail_if (Z.of_nat (length block_list) <? 3)
        "Check-fork requires at least one continuation block with the PegOutID base event";
  fail_if (Z.of_nat (length block_list) <? required_num_blocks) "Insufficient number of blocks".

(** The comparison of the two efforts decides nothing: both branches of the
    source return [Ok(())]. *)
Definition validate_enough_effort_superblock (block : RskBlock) : result string unit :=
  expected_effort ← ok_or (checked_mul 256 (hdr_difficulty (blk_header block))
                             SUPERBLOCK_TIMES_DIFFICULTY)
                      "Overflow occurred multiplying difficulty by times";
  actual_effort ← calculate_block_effort block;
  if expected_effort <=? actual_effort then Ok tt else Ok tt.

Definition contains_matching_pegout_event (block : RskBlock) (expected_base_event : bytes) : bool :=
  match hdr_base_event (blk_header block) with
  | Some event => bool_decide (event = expected_base_event)
  | None => false
  end.

Definition validate_first_block (block : RskBlock) (init_block_time init_block_number : Z)
    (expected_base_event : bytes) : result string unit :=
  _ ← fail_if (hdr_timestamp (blk_header block) <? init_block_time)
        "First block timestamp lower than expected";
  _ ← fail_if (hdr_number (blk_header block) <? init_block_number)
        "First block number lower than expected";
  _ ← validate_enough_effort_superblock block;
  fail_if (contains_matching_pegout_event block expected_base_event)
    "First block must not contain the PegOutID base event".

Definition validate_required_pegout_event (block : RskBlock) (expected_base_event : bytes)
    : result string unit :=
  if contains_matching_pegout_event block expected_base_event then Ok tt
  else Err "Continuation block is missing the expected PegOutID base event".

Definition validate_difficulty_in_bounds (block prev_block : RskBlock) : result string unit :=
  let prev := hdr_difficulty (blk_header prev_block) in
  let max_delta := prev / 400 in
  let lower_bound := saturating_sub prev max_delta in
  let upper_bound := saturating_add 256 prev max_delta in
  let d := hdr_difficulty (blk_header block) in
  if (lower_bound <=? d) && (d <=? upper_bound) then Ok tt
  else Err "Consecutive Block difficulty is out of bounds".

Definition validate_consecutive_block (block prev_block : RskBlock) : result string unit :=
  let b := blk_header block in
  let p := blk_header prev_block in
  _ ← fail_if (hdr_timestamp b <=? hdr_timestamp p) "Block Timestamp is not increasing";
  expected_next_number ← ok_or (checked_add 64 (hdr_number p) 1)
                           "Overflow incrementing previous block number";
  _ ← fail_if (negb (hdr_number b =? expected_next_number)) "Block numbers are not consecutive";
  _ ← fail_if (negb (bool_decide (hdr_parent b = hdr_hash p)))
        "Invalid parent linkage between blocks";
  _ ← validate_enough_effort_superblock block;
  validate_difficulty_in_bounds block prev_block.

Section Verifier.
Context `{AlloyRlp, Keccak}.

Definition validate_block_hash (header : RskBlockHeader) : result string unit :=
  _ ← fail_if (match hdr_base_event header with Some _ => true | None => false end
               && negb (hdr_version header =? RSK_HEADER_EXTENSION_TYPE_V2))
        "Block with base event must use header version 2";
  actual_hash ← calculate_block_hash header;
  fail_if (negb (bool_decide (hdr_hash header = actual_hash))) "Block header hash is not matching".

Definition validate_uncle (trunk_block uncle : RskBlock) : result string unit :=
  let u := blk_header uncle in
  let t := blk_header trunk_block in
  _ ← fail_if (negb (hdr_number u =? hdr_number t))
        "Uncle's block number does not match trunk block number";
  _ ← fail_if (negb (bool_decide (hdr_parent u = hdr_parent t)))
        "Uncle's parent does not match trunk block's parent";
  _ ← fail_if (negb (hdr_difficulty u =? hdr_difficulty t))
        "Uncle's difficulty does not match trunk block's difficulty";
  _ ← validate_block_hash u;
  validate_enough_effort_superblock uncle.

(** [for uncle in &block.uncles] *)
Fixpoint check_uncles (prev_block : RskBlock) (uncles : list RskBlock) (cumulative_effort : Z)
    : result string Z :=
  match uncles with
  | [] => Ok cumulative_effort
  | uncle :: rest =>
      _ ← validate_uncle prev_block uncle;
      cumulative_effort ← accumulate_effort cumulative_effort uncle;
      check_uncles prev_block rest cumulative_effort
  end.

(** [for i in 1..block_list.len()]: [i] is the index of the head of [rest] and
    [prev_block] is [block_list[i - 1]]. *)
Fixpoint check_blocks (expected_base_event : bytes) (i : nat) (prev_block : RskBlock)
    (rest : list RskBlock) (cumulative_effort : Z) : result string Z :=
  match rest with
  | [] => Ok cumulative_effort
  | block :: rest =>
      _ ← validate_consecutive_block block prev_block;
      _ ← validate_block_hash (blk_header block);
      cumulative_effort ← accumulate_effort cumulative_effort block;
      cumulative_effort ← check_uncles prev_block (blk_uncles block) cumulative_effort;
      _ ← (if (2 <=? i)%nat then validate_required_pegout_event block expected_base_event
           else Ok tt);
      check_blocks expected_base_event (S i) block rest cumulative_effort
  end.

Definition check_fork (args : CheckForkArgs) (pegout_id : H256) : result string Z :=
  let expected_base_event := build_pegout_base_event_from_id pegout_id in
  _ ← fail_if (negb (pegout_id_version args =? PEGOUT_ID_VERSION))
        "PegOutID version does not match contract ABI";
  _ ← validate_block_list (required_num_blocks args) (block_list args);
  match block_list args with
  | [] => Err "index out of bounds"
  | first_block :: rest =>
      _ ← validate_first_block first_block (init_block_time args) (init_block_number args)
            expected_base_event;
      _ ← validate_block_hash (blk_header first_block);
      cumulative_effort ← accumulate_effort 0 first_block;
      cumulative_effort ← check_blocks expected_base_event 1 first_block rest cumulative_effort;
      _ ← fail_if (cumulative_effort <? required_effort args)
            "Cumulative PoW does not meet the required threshold";
      Ok cumulative_effort
  end.

(** ** The peg-out identifier, the journal and the guest *)

Definition build_pegout_id_preimage (args : CheckForkArgs) : bytes :=
  [pegout_id_version args] ++ be_bytes 32 (sequence_number args) ++ be_bytes 8 (stream_id args)
  ++ be_bytes 8 (packet_number args) ++ be_bytes 8 (slot_id args)
  ++ [operator_take_pubkey_parity args] ++ operator_take_pubkey_xonly args
  ++ best_block_hash args.

Definition compute_pegout_id (args : CheckForkArgs) : H256 :=
  keccak256 (build_pegout_id_preimage args).

Definition build_check_fork_journal (args : CheckForkArgs) (pegout_id : H256) (acc : bool)
    : CheckForkJournal := {|
  operator_take_pubkey := operator_take_pubkey_parity args :: operator_take_pubkey_xonly args;
  pegout_id := pegout_id;
  journal_slot_id := be_bytes 8 (slot_id args);
  accepted := if acc then 1 else 0;
  version := be_bytes 2 CHECK_FORK_JOURNAL_VERSION
|}.

Definition to_bytes (j : CheckForkJournal) : bytes :=
  operator_take_pubkey j ++ pegout_id j ++ journal_slot_id j ++ [accepted j] ++ version j.

(** The zkVM guest: the bytes it commits for the given arguments. *)
Definition guest_main (args_des : CheckForkArgs) : bytes :=
  let pegout_id := compute_pegout_id args_des in
  let acc := match check_fork args_des pegout_id with Ok _ => true | Err _ => false end in
  to_bytes (build_check_fork_journal args_des pegout_id acc).

End Verifier.

(** ** The acceptance condition, stated without the code's control flow *)

Definition work (b : RskBlock) : Z := uint_max 256 / from_be (blk_pow b).

(** The work a main-chain block brings: its own and that of its uncles. *)
Definition block_work (b : RskBlock) : Z := work b + foldr Z.add 0 (work <$> blk_uncles b).

Definition effort_defined (b : RskBlock) : Prop :=
  from_be (blk_pow b) <> 0 /\
  hdr_difficulty (blk_header b) * SUPERBLOCK_TIMES_DIFFICULTY < 2 ^ 256.

Definition has_event (ev : bytes) (b : RskBlock) : Prop :=
  hdr_base_event (blk_header b) = Some ev.

Definition link_valid (p b : RskBlock) : Prop :=
  let hb := blk_header b in let hp := blk_header p in
  hdr_timestamp hp < hdr_timestamp hb /\
  hdr_number hb = hdr_number hp + 1 /\ hdr_number hp + 1 < 2 ^ 64 /\
  hdr_parent hb = hdr_hash hp /\ effort_defined b /\
  saturating_sub (hdr_difficulty hp) (hdr_difficulty hp / 400) <= hdr_difficulty hb
    <= saturating_add 256 (hdr_difficulty hp) (hdr_difficulty hp / 400).

Section Acceptance.
Context `{AlloyRlp, Keccak}.

Definition header_hash_valid (h : RskBlockHeader) : Prop :=
  (is_Some (hdr_base_event h) -> hdr_version h = RSK_HEADER_EXTENSION_TYPE_V2) /\
  calculate_block_hash h = Ok (hdr_hash h).

Definition uncle_valid (t u : RskBlock) : Prop :=
  hdr_number (blk_header u) = hdr_number (blk_header t) /\
  hdr_parent (blk_header u) = hdr_parent (blk_header t) /\
  hdr_difficulty (blk_header u) = hdr_difficulty (blk_header t) /\
  header_hash_valid (blk_header u) /\ effort_defined u.

(** [rest] continues [p], its head having index [i] in the list. *)
Inductive chain_valid (ev : bytes) : nat -> RskBlock -> list RskBlock -> Prop :=
| chain_valid_nil i p : chain_valid ev i p []
| chain_valid_cons i p b rest :
    link_valid p b -> header_hash_valid (blk_header b) ->
    Forall (uncle_valid p) (blk_uncles b) -> ((2 <= i)%nat -> has_event ev b) ->
    chain_valid ev (S i) b rest -> chain_valid ev i p (b :: rest).

Definition first_valid (args : CheckForkArgs) (ev : bytes) (b : RskBlock) : Prop :=
  init_block_time args <= hdr_timestamp (blk_header b) /\
  init_block_number args <= hdr_number (blk_header b) /\
  effort_defined b /\ ~ has_event ev b /\ header_hash_valid (blk_header b).

Definition total_work (first : RskBlock) (rest : list RskBlock) : Z :=
  work first + foldr Z.add 0 (block_work <$> rest).

Definition fork_accepted (args : CheckForkArgs) (ev : bytes) (e : Z) : Prop :=
  pegout_id_version args = PEGOUT_ID_VERSION /\
  1 <= required_num_blocks args <= Z.of_nat (length (block_list args)) /\
  (3 <= length (block_list args))%nat /\
  exists first rest, block_list args = first :: rest /\
    first_valid args ev first /\ chain_valid ev 1 first rest /\
    e = total_work first rest /\ required_effort args <= e < 2 ^ 256.

End Acceptance.

(** Proof-of-work hashes are byte strings, at every level of the uncle tree
    the verifier reads. *)
Definition pow_bytes_ok (b : RskBlock) : Prop :=
  bytes_ok (blk_pow b) /\ Forall (fun u => bytes_ok (blk_pow u)) (blk_uncles b).

Definition args_pow_ok (args : CheckForkArgs) : Prop := Forall pow_bytes_ok (block_list args).

(** ** Equivalence of the code with the acceptance condition *)

Lemma work_nonneg b : bytes_ok (blk_pow b) -> 0 <= work b.
Proof.
  intros Hb. unfold work. pose proof (from_be_bound _ Hb).
  destruct (decide (from_be (blk_pow b) = 0)) as [->|]; [done|].
  apply Z.div_pos; [done|lia].
Qed.

Lemma sum_nonneg (l : list Z) : Forall (fun z => 0 <= z) l -> 0 <= foldr Z.add 0 l.
Proof. induction 1; cbn; lia. Qed.

Lemma uncle_works_nonneg us :
  Forall (fun u => bytes_ok (blk_pow u)) us -> 0 <= foldr Z.add 0 (work <$> us).
Proof.
  intros Hus. apply sum_nonneg, Forall_fmap. eapply Forall_impl; [exact Hus|].
  intros u Hu. cbn. by apply work_nonneg.
Qed.

Lemma block_works_nonneg bs :
  Forall pow_bytes_ok bs -> 0 <= foldr Z.add 0 (block_work <$> bs).
Proof.
  intros Hbs. apply sum_nonneg, Forall_fmap. eapply Forall_impl; [exact Hbs|].
  intros b [Hb Hu]. unfold compose, block_work. pose proof (work_nonneg b Hb).
  pose proof (uncle_works_nonneg _ Hu). lia.
Qed.

Lemma calculate_block_effort_ok b e :
  calculate_block_effort b = Ok e <-> e = work b /\ from_be (blk_pow b) <> 0.
Proof. unfold calculate_block_effort. by rewrite ok_or_ok, checked_div_Some. Qed.

Lemma accumulate_effort_ok c b e :
  accumulate_effort c b = Ok e <->
  e = c + work b /\ from_be (blk_pow b) <> 0 /\ c + work b < 2 ^ 256.
Proof.
  unfold accumulate_effort. split.
  - intros Ha. ok_inv Ha. apply calculate_block_effort_ok in Hx as [-> ?].
    apply checked_add_Some in Ha as [-> ?]. done.
  - intros (->&?&?). ok_step; [by apply calculate_block_effort_ok|].
    ok_step. by apply checked_add_Some.
Qed.

Lemma superblock_ok b u :
  validate_enough_effort_superblock b = Ok u <-> effort_defined b.
Proof.
  unfold validate_enough_effort_superblock, effort_defined. destruct u. split.
  - intros Hs. ok_inv Hs. apply checked_mul_Some in Hx as [-> ?].
    apply calculate_block_effort_ok in Hx0 as [_ ?]. done.
  - intros [? ?]. ok_step; [ok_step; by apply checked_mul_Some|].
    ok_step; [by apply calculate_block_effort_ok|]. by destruct (_ <=? _).
Qed.

Lemma matching_event_iff b ev : contains_matching_pegout_event b ev = true <-> has_event ev b.
Proof.
  unfold contains_matching_pegout_event, has_event.
  destruct (hdr_base_event (blk_header b)); [|done]. rewrite bool_decide_eq_true. naive_solver.
Qed.

Lemma difficulty_in_bounds_ok b p u :
  validate_difficulty_in_bounds b p = Ok u <->
  saturating_sub (hdr_difficulty (blk_header p)) (hdr_difficulty (blk_header p) / 400)
    <= hdr_difficulty (blk_header b)
    <= saturating_add 256 (hdr_difficulty (blk_header p)) (hdr_difficulty (blk_header p) / 400).
Proof.
  unfold validate_difficulty_in_bounds. destruct u.
  destruct (_ && _)%bool eqn:Hb.
  - reflect_bool. done.
  - split; [done|]. intros [H1 H2]. apply Z.leb_le in H1, H2. by rewrite H1, H2 in Hb.
Qed.

Lemma validate_consecutive_block_ok b p u :
  validate_consecutive_block b p = Ok u <-> link_valid p b.
Proof.
  unfold validate_consecutive_block, link_valid. destruct u. split.
  - intros Hv. ok_inv Hv. apply checked_add_Some in Hx0 as [-> ?].
    apply superblock_ok in Hx3. apply difficulty_in_bounds_ok in Hv. reflect_bool. done.
  - intros (?&?&?&?&?&?). ok_step; [ok_step; by apply Z.leb_gt|].
    ok_step; [ok_step; by apply checked_add_Some|].
    ok_step; [ok_step; by apply negb_false_iff, Z.eqb_eq|].
    ok_step; [ok_step; by apply negb_false_iff, bool_decide_eq_true|].
    ok_step; [by apply superblock_ok|]. by apply difficulty_in_bounds_ok.
  Unshelve. exact tt.
Qed.

Section Equivalence.
Context `{AlloyRlp, Keccak}.

Lemma validate_block_hash_ok h u : validate_block_hash h = Ok u <-> header_hash_valid h.
Proof.
  unfold validate_block_hash, header_hash_valid. destruct u. split.
  - intros Hv. ok_inv Hv. reflect_bool. subst. split; [|done].
    intros [ev Hev]. rewrite Hev in Hx. cbn in Hx. by reflect_bool.
  - intros [Hver Hh]. ok_step; [ok_step|].
    { destruct (hdr_base_event h); [|done]. rewrite Hver by eauto. done. }
    ok_step; [exact Hh|]. ok_step. by apply negb_false_iff, bool_decide_eq_true.
Qed.

Lemma validate_uncle_ok t u x : validate_uncle t u = Ok x <-> uncle_valid t u.
Proof.
  unfold validate_uncle, uncle_valid. destruct x. split.
  - intros Hv. ok_inv Hv. apply validate_block_hash_ok in Hx2. apply superblock_ok in Hv.
    by reflect_bool.
  - intros (?&?&?&?&?).
    ok_step; [ok_step; by apply negb_false_iff, Z.eqb_eq|].
    ok_step; [ok_step; by apply negb_false_iff, bool_decide_eq_true|].
    ok_step; [ok_step; by apply negb_false_iff, Z.eqb_eq|].
    ok_step; [by apply validate_block_hash_ok|]. by apply superblock_ok.
  Unshelve. exact tt.
Qed.

Lemma check_uncles_ok p us c e :
  Forall (fun u => bytes_ok (blk_pow u)) us -> c < 2 ^ 256 ->
  check_uncles p us c = Ok e <->
  Forall (uncle_valid p) us /\ e = c + foldr Z.add 0 (work <$> us) /\ e < 2 ^ 256.
Proof.
  intros Hus. revert c. induction Hus as [|u us Hu Hus IH]; intros c Hc; cbn [check_uncles].
  { cbn. split; [intros [= ->]; split_and!; [constructor|lia|done]|intros (_&->&_); f_equal; lia]. }
  pose proof (uncle_works_nonneg us Hus).
  rewrite fmap_cons. cbn [foldr]. split.
  - intros Hv. ok_inv Hv. apply validate_uncle_ok in Hx.
    apply accumulate_effort_ok in Hx0 as (->&?&?). apply IH in Hv as (?&->&?); [|done].
    split_and!; [by constructor|lia|done].
  - intros (Hall&->&Hlt). apply Forall_cons in Hall as [Hv Hall].
    pose proof Hv as (_&_&_&_&?&_).
    ok_step; [by apply validate_uncle_ok|].
    ok_step; [apply accumulate_effort_ok; split_and!; [done|done|lia]|].
    apply IH; [lia|]. split_and!; [done|lia|lia].
  Unshelve. exact tt.
Qed.

Lemma required_event_ok i b ev u :
  (if (2 <=? i)%nat then validate_required_pegout_event b ev else Ok tt) = Ok u <->
  ((2 <= i)%nat -> has_event ev b).
Proof.
  destruct u. destruct (Nat.leb_spec 2 i) as [Hi|Hi].
  - unfold validate_required_pegout_event. rewrite <- matching_event_iff.
    destruct (contains_matching_pegout_event b ev); naive_solver.
  - split; [lia|done].
Qed.

Lemma check_blocks_ok ev i p rest c e :
  Forall pow_bytes_ok rest -> c < 2 ^ 256 ->
  check_blocks ev i p rest c = Ok e <->
  chain_valid ev i p rest /\ e = c + foldr Z.add 0 (block_work <$> rest) /\ e < 2 ^ 256.
Proof.
  intros Hr. revert i p c. induction Hr as [|b rest [Hb Hu] Hr IH]; intros i p c Hc.
  { cbn. split; [intros [= ->]; split_and!; [constructor|lia|done]|intros (_&->&_); f_equal; lia]. }
  cbn [check_blocks]. pose proof (block_works_nonneg rest Hr).
  pose proof (uncle_works_nonneg _ Hu).
  rewrite fmap_cons. cbn [foldr]. unfold block_work at 1. split.
  - intros Hv. ok_inv Hv. apply validate_consecutive_block_ok in Hx. apply validate_block_hash_ok in Hx0.
    apply accumulate_effort_ok in Hx1 as (->&?&?). apply check_uncles_ok in Hx2 as (?&->&?); [|done..].
    rewrite required_event_ok in Hx3. apply IH in Hv as (?&->&?); [|done].
    split_and!; [by constructor|lia|done].
  - intros (Hcv&->&Hlt). inversion Hcv as [|? ? ? ? Hl Hh Hunc Hev Hrest]; subst.
    pose proof Hl as (_&_&_&_&[? _]&_).
    ok_step; [by apply validate_consecutive_block_ok|].
    ok_step; [by apply validate_block_hash_ok|].
    ok_step; [apply accumulate_effort_ok; split_and!; [done|done|lia]|].
    ok_step; [apply check_uncles_ok; [done|lia|split_and!; [done|done|lia]]|].
    ok_step; [by apply required_event_ok|].
    apply IH; [lia|]. split_and!; [done|lia|lia].
  Unshelve. all: exact tt.
Qed.

Lemma validate_block_list_ok n bl u :
  validate_block_list n bl = Ok u <->
  1 <= n <= Z.of_nat (length bl) /\ (3 <= length bl)%nat.
Proof.
  unfold validate_block_list. destruct u. split.
  - intros Hv. ok_inv Hv. reflect_bool. lia.
  - intros [[? ?] ?]. ok_step; [ok_step; apply Z.ltb_ge; lia|].
    ok_step; [ok_step; apply Z.ltb_ge; lia|]. ok_step. apply Z.ltb_ge. lia.
Qed.

Lemma validate_first_block_ok args b ev u :
  validate_first_block b (init_block_time args) (init_block_number args) ev = Ok u /\
  header_hash_valid (blk_header b) <-> first_valid args ev b.
Proof.
  unfold validate_first_block, first_valid. destruct u. rewrite <- matching_event_iff. split.
  - intros [Hv ?]. ok_inv Hv. apply superblock_ok in Hx1. reflect_bool.
    split_and!; [done..| |done]. by rewrite Hv.
  - intros (?&?&?&?&?). split; [|done].
    ok_step; [ok_step; by apply Z.ltb_ge|]. ok_step; [ok_step; by apply Z.ltb_ge|].
    ok_step; [by apply superblock_ok|]. ok_step. by apply not_true_iff_false.
  Unshelve. exact tt.
Qed.

Lemma check_fork_accepted args id e :
  args_pow_ok args -> check_fork args id = Ok e <-> fork_accepted args id e.
Proof.
  intros Hpow. unfold check_fork, fork_accepted, build_pegout_base_event_from_id.
  unfold args_pow_ok in Hpow. split.
  - intros Hv. apply result_bind_ok in Hv as (?&Hver&Hv). ok_inv Hver.
    apply result_bind_ok in Hv as (?&Hbl&Hv). apply validate_block_list_ok in Hbl as [? ?].
    destruct (block_list args) as [|first rest]; [done|].
    apply Forall_cons in Hpow as [[Hf _] Hpow]. ok_inv Hv.
    apply validate_block_hash_ok in Hx0.
    apply accumulate_effort_ok in Hx1 as (->&?&?). apply check_blocks_ok in Hx2 as (?&->&?); [|done..].
    reflect_bool. split_and!; [done|lia|lia|done|].
    exists first, rest. split_and!; [done| |done|unfold total_work; lia|lia|lia].
    by eapply validate_first_block_ok.
  - intros (Hver&Hn&Hl&first&rest&Heq&Hf&Hc&->&Hreq). rewrite Heq in *.
    apply Forall_cons in Hpow as [[Hfp _] Hpow].
    pose proof (block_works_nonneg rest Hpow). unfold total_work in *.
    pose proof Hf as (_&_&[? _]&_).
    apply (validate_first_block_ok _ _ _ tt) in Hf as [Hf Hh].
    ok_step; [ok_step; by apply negb_false_iff, Z.eqb_eq|].
    ok_step; [by apply validate_block_list_ok|]. cbn [block_list].
    ok_step; [exact Hf|]. ok_step; [by apply validate_block_hash_ok|].
    ok_step; [apply accumulate_effort_ok; split_and!; [done|done|lia]|].
    ok_step; [apply check_blocks_ok; [done|lia|split_and!; [done|done|lia]]|].
    ok_step; [ok_step; apply Z.ltb_ge; lia|]. done.
  Unshelve. all: exact tt.
Qed.

End Equivalence.

(** ** Consequences of acceptance *)

Section Consequences.
Context `{AlloyRlp, Keccak}.

Lemma chain_valid_lookup ev i p rest j b :
  chain_valid ev i p rest -> rest !! j = Some b ->
  hdr_number (blk_header b) = hdr_number (blk_header p) + Z.of_nat j + 1 /\
  header_hash_valid (blk_header b) /\ ((2 <= i + j)%nat -> has_event ev b) /\
  exists q, (p :: rest) !! j = Some q /\ link_valid q b.
Proof.
  intros Hc. revert j. induction Hc as [|i p b' rest Hl Hh Hu Hev Hc IH]; intros j Hj; [done|].
  destruct j as [|j]; cbn in Hj.
  - injection Hj as <-. pose proof Hl as (_&Hn&_).
    split_and!; [rewrite Hn; lia|done|rewrite Nat.add_0_r; done|eauto].
  - apply IH in Hj as (Hn'&?&He&q&Hq&?). pose proof Hl as (_&Hn&_).
    split_and!; [rewrite Hn', Hn; lia|done|intros; apply He; lia|eauto].
Qed.

(** The block at index [S j] extends the block at index [j]. *)
Lemma accepted_link args ev e j b :
  fork_accepted args ev e -> block_list args !! S j = Some b ->
  exists q, block_list args !! j = Some q /\ link_valid q b.
Proof.
  intros (_&_&_&first&rest&Heq&_&Hc&_) Hj. rewrite Heq in *. cbn in Hj.
  by destruct (chain_valid_lookup _ _ _ _ _ _ Hc Hj) as (_&_&_&Hq).
Qed.

Lemma accepted_hash_valid args ev e j b :
  fork_accepted args ev e -> block_list args !! j = Some b -> header_hash_valid (blk_header b).
Proof.
  intros (_&_&_&first&rest&Heq&Hf&Hc&_) Hj. rewrite Heq in *.
  destruct j as [|j]; cbn in Hj; [injection Hj as <-; apply Hf|].
  by destruct (chain_valid_lookup _ _ _ _ _ _ Hc Hj) as (_&?&_).
Qed.

(** An accepted fork is a hash-linked chain with the peg-out event.  If
    [check_fork] returns [Ok], then every block's stored hash is the hash of
    its header, block [i] has number [first + i], names its predecessor's hash
    as parent and is strictly later; the first block does not carry the event
    and every block from index 2 on carries exactly the expected one. *)
Theorem accepted_fork_is_chain args id e :
  args_pow_ok args -> check_fork args id = Ok e ->
  exists first, block_list args !! 0%nat = Some first /\ ~ has_event id first /\
  forall i b, block_list args !! i = Some b ->
    calculate_block_hash (blk_header b) = Ok (hdr_hash (blk_header b)) /\
    hdr_number (blk_header b) = hdr_number (blk_header first) + Z.of_nat i /\
    ((2 <= i)%nat -> has_event id b) /\
    (forall j, i = S j -> exists p, block_list args !! j = Some p /\
       hdr_parent (blk_header b) = hdr_hash (blk_header p) /\
       hdr_timestamp (blk_header p) < hdr_timestamp (blk_header b)).
Proof.
  intros Hpow Hcf. apply check_fork_accepted in Hcf as Hacc; [|done].
  pose proof Hacc as (_&_&_&first&rest&Heq&Hf&Hc&_).
  exists first. rewrite Heq at 1. split; [done|]. split; [apply Hf|].
  intros i b Hi. split; [by eapply accepted_hash_valid|].
  destruct i as [|j].
  - rewrite Heq in Hi. cbn in Hi. injection Hi as <-. split_and!; [lia|lia|done].
  - split_and!.
    + rewrite Heq in Hi. destruct (chain_valid_lookup _ _ _ _ _ _ Hc Hi) as (->&_). lia.
    + rewrite Heq in Hi. by destruct (chain_valid_lookup _ _ _ _ _ _ Hc Hi) as (_&_&?&_).
    + intros j' [= <-]. destruct (accepted_link _ _ _ _ _ Hacc Hi) as (q&?&(?&_&_&?&_)). eauto.
Qed.

(** C1: [check_fork] computes exactly the acceptance condition.  It returns
    [Ok e] if and only if the version, list length, first block, every link,
    hash, uncle and event are valid and [e] is the exact, overflow-free sum of
    the work of all blocks and of the uncles of every block but the first,
    and [e] reaches the required effort. *)
Theorem check_fork_correct args id e :
  args_pow_ok args -> check_fork args id = Ok e <-> fork_accepted args id e.
Proof. apply check_fork_accepted. Qed.

End Consequences.

(** ** The tip determines the chain *)

Definition encoding_fits `{AlloyRlp, Keccak} (h : RskBlockHeader) : Prop :=
  forall enc, encode_rlp h = Ok enc -> vec_fits enc.

(** Headers the Rust types admit, whose encoding is a vector. *)
Definition headers_ok `{AlloyRlp, Keccak} (args : CheckForkArgs) : Prop :=
  Forall (fun b => header_ok (blk_header b) /\ encoding_fits (blk_header b)) (block_list args).

Section TipDeterminesChain.
Context `{AlloyRlpLaws, KeccakLaws}.

Lemma same_hash_same_fields h h' :
  header_ok h -> header_ok h' -> encoding_fits h -> encoding_fits h' ->
  header_hash_valid h -> header_hash_valid h' -> hdr_hash h = hdr_hash h' ->
  same_committed_fields h h' \/ headers_collide h h'.
Proof.
  intros Hok Hok' Hf Hf' [_ Hh] [_ Hh'] Heq.
  pose proof Hh as He. pose proof Hh' as He'. unfold calculate_block_hash in He, He'.
  apply result_bind_ok in He as (enc&He&_), He' as (enc'&He'&_).
  rewrite Heq in Hh. by eapply (block_hash_binding h h'); eauto.
Qed.

Section Pair.
Context (args args' : CheckForkArgs) (id id' : H256) (e e' : Z).
Hypothesis Hacc : fork_accepted args id e.
Hypothesis Hacc' : fork_accepted args' id' e'.
Hypothesis Hok : headers_ok args.
Hypothesis Hok' : headers_ok args'.

Lemma same_at j b b' :
  block_list args !! j = Some b -> block_list args' !! j = Some b' ->
  hdr_hash (blk_header b) = hdr_hash (blk_header b') ->
  same_committed_fields (blk_header b) (blk_header b') \/ headers_collide (blk_header b) (blk_header b').
Proof.
  intros Hb Hb' Heq. unfold headers_ok in Hok, Hok'. rewrite Forall_lookup in Hok, Hok'.
  destruct (Hok _ _ Hb), (Hok' _ _ Hb').
  apply same_hash_same_fields; eauto using accepted_hash_valid.
Qed.

(** Headers at one index of the two forks collide. *)
Definition forks_collide : Prop :=
  exists j b b', block_list args !! j = Some b /\ block_list args' !! j = Some b' /\
    headers_collide (blk_header b) (blk_header b').

(** Agreement propagates from a block to every earlier one. *)
Lemma same_down_to k j b b' :
  block_list args !! (k + j)%nat = Some b -> block_list args' !! (k + j)%nat = Some b' ->
  hdr_hash (blk_header b) = hdr_hash (blk_header b') ->
  forks_collide \/
  forall c c', block_list args !! j = Some c -> block_list args' !! j = Some c' ->
    hdr_hash (blk_header c) = hdr_hash (blk_header c').
Proof.
  revert b b'. induction k as [|k IH]; intros b b' Hb Hb' Heq; [right; cbn in *; congruence|].
  destruct (same_at _ _ _ Hb Hb' Heq) as [Hs|]; [|left; by eexists _, b, b'].
  destruct (accepted_link _ _ _ _ _ Hacc Hb) as (q&Hq&(_&_&_&Hpq&_)).
  destruct (accepted_link _ _ _ _ _ Hacc' Hb') as (q'&Hq'&(_&_&_&Hpq'&_)).
  apply (IH q q'); [done..|]. rewrite <- Hpq, <- Hpq'. apply Hs.
Qed.

End Pair.

(** The tip of an accepted fork determines the whole fork.  If two forks of
    equal length are accepted and their last blocks carry the same hash, then
    at every index the two headers agree on all committed fields (so in
    particular on the base event), or at some index the two headers yield a
    Keccak-256 collision. *)
Theorem accepted_tip_determines_chain args args' id id' e e' n b b' i c c' :
  args_pow_ok args -> args_pow_ok args' -> headers_ok args -> headers_ok args' ->
  check_fork args id = Ok e -> check_fork args' id' = Ok e' ->
  length (block_list args) = S n -> length (block_list args') = S n ->
  block_list args !! n = Some b -> block_list args' !! n = Some b' ->
  hdr_hash (blk_header b) = hdr_hash (blk_header b') ->
  block_list args !! i = Some c -> block_list args' !! i = Some c' ->
  same_committed_fields (blk_header c) (blk_header c') \/ forks_collide args args'.
Proof.
  intros Hp Hp' Hok Hok' Hc Hc' Hl Hl' Hb Hb' Heq Hi Hi'.
  apply check_fork_accepted in Hc, Hc'; [|done..].
  apply lookup_lt_Some in Hi as Hlt. rewrite Hl in Hlt.
  replace n with ((n - i) + i)%nat in Hb, Hb' by lia.
  destruct (same_down_to args args' id id' e e' Hc Hc' Hok Hok' _ _ _ _ Hb Hb' Heq) as [|Hsame];
    [by right|].
  destruct (same_at args args' id id' e e' Hc Hc' Hok Hok' i c c') as [|Hcol]; [by auto..|by left|].
  right. by exists i, c, c'.
Qed.

End TipDeterminesChain.

(** ** Peg-out identifier and journal *)

Record args_ok (args : CheckForkArgs) : Prop := {
  ok_pegout_id_version : uint 8 (pegout_id_version args);
  ok_sequence_number : uint 256 (sequence_number args);
  ok_stream_id : uint 64 (stream_id args);
  ok_packet_number : uint 64 (packet_number args);
  ok_slot_id : uint 64 (slot_id args);
  ok_parity : uint 8 (operator_take_pubkey_parity args);
  ok_xonly : bytes_ok (operator_take_pubkey_xonly args) /\
             length (operator_take_pubkey_xonly args) = 32%nat;
  ok_best_block_hash : h256_ok (best_block_hash args)
}.

(** The arguments a peg-out identifier stands for. *)
Definition pegout_fields (args : CheckForkArgs) :=
  (pegout_id_version args, sequence_number args, stream_id args, packet_number args, slot_id args,
   operator_take_pubkey_parity args, operator_take_pubkey_xonly args, best_block_hash args).

Lemma be_bytes_app_inj n z z' k k' :
  0 <= z < 256 ^ Z.of_nat n -> 0 <= z' < 256 ^ Z.of_nat n ->
  be_bytes n z ++ k = be_bytes n z' ++ k' -> z = z' /\ k = k'.
Proof.
  intros Hz Hz' Heq. apply app_inj_length in Heq as [Heq ->]; [|by rewrite !length_be_bytes].
  split; [|done]. by eapply be_bytes_inj.
Qed.

Lemma pegout_id_preimage_inj args args' :
  args_ok args -> args_ok args' ->
  build_pegout_id_preimage args = build_pegout_id_preimage args' ->
  pegout_fields args = pegout_fields args'.
Proof.
  intros [Hv Hs Hst Hp Hsl Hpar [Hx Hxl] [Hb Hbl]] [Hv' Hs' Hst' Hp' Hsl' Hpar' [Hx' Hxl'] [Hb' Hbl']] Heq.
  unfold uint in *. unfold build_pegout_id_preimage in Heq.
  apply app_inj_length in Heq as [Hver Heq]; [|done].
  apply be_bytes_app_inj in Heq as [Hseq Heq]; [|lia..].
  apply be_bytes_app_inj in Heq as [Hstr Heq]; [|lia..].
  apply be_bytes_app_inj in Heq as [Hpk Heq]; [|lia..].
  apply be_bytes_app_inj in Heq as [Hslo Heq]; [|lia..].
  apply app_inj_length in Heq as [Hpa Heq]; [|done].
  apply app_inj_length in Heq as [Hxo Hbb]; [|lia].
  unfold pegout_fields. congruence.
Qed.

(** A peg-out identifier stands for one set of arguments.  If
    [compute_pegout_id] gives two well-typed argument sets one identifier, then
    version, sequence number, stream, packet, slot, operator key and best block
    hash all coincide, or the two preimages are a Keccak-256 collision. *)
Theorem pegout_id_binds_arguments `{Keccak} args args' :
  args_ok args -> args_ok args' -> compute_pegout_id args = compute_pegout_id args' ->
  pegout_fields args = pegout_fields args' \/
  collide (build_pegout_id_preimage args) (build_pegout_id_preimage args').
Proof.
  intros Hok Hok' Heq. apply keccak_eq_or_collide in Heq as [Heq|]; [|by right].
  left. by apply pegout_id_preimage_inj.
Qed.

(** The guest commits the verdict.  The 76 committed bytes are the operator
    key (33 bytes), the peg-out identifier (32), the big-endian slot (8), one
    verdict byte and the journal version; the verdict byte is 1 exactly when
    [check_fork] accepts the arguments under their own identifier. *)
Theorem guest_journal_correct `{AlloyRlp, KeccakLaws} args :
  args_ok args ->
  let j := guest_main args in
  length j = 76%nat /\
  take 33 j = operator_take_pubkey_parity args :: operator_take_pubkey_xonly args /\
  take 32 (drop 33 j) = compute_pegout_id args /\
  from_be (take 8 (drop 65 j)) = slot_id args /\
  (j !! 73%nat = Some 1 <-> exists e, check_fork args (compute_pegout_id args) = Ok e) /\
  drop 74 j = [0; 1].
Proof.
  intros Hok. destruct (ok_xonly args Hok) as [_ Hxl].
  unfold guest_main, to_bytes, build_check_fork_journal. cbn [operator_take_pubkey pegout_id journal_slot_id accepted version].
  set (key := _ :: _). set (id := compute_pegout_id args). set (slot := be_bytes 8 _).
  assert (length key = 33%nat) as Hk by (subst key; cbn; lia).
  assert (length id = 32%nat) as Hi by apply keccak256_length.
  assert (length slot = 8%nat) as Hs by apply length_be_bytes.
  assert (be_bytes 2 CHECK_FORK_JOURNAL_VERSION = [0; 1]) as -> by done.
  split_and!.
  - rewrite !length_app, Hk, Hi, Hs. done.
  - by rewrite take_app_length' by lia.
  - rewrite drop_app_length' by lia. by rewrite take_app_length' by lia.
  - rewrite (app_assoc key), drop_app_length' by (rewrite length_app; lia).
    rewrite take_app_length' by lia. subst slot. rewrite from_be_be_bytes.
    pose proof (ok_slot_id args Hok) as Hu. unfold uint in Hu. apply Z.mod_small. lia.
  - rewrite (app_assoc id), (app_assoc key), lookup_app_r by (rewrite !length_app; lia).
    rewrite !length_app, Hk, Hi, Hs. cbn. subst id.
    destruct (check_fork args (compute_pegout_id args)) as [e|]; split.
    + eauto.
    + done.
    + done.
    + by intros [? ?].
  - rewrite (app_assoc id), (app_assoc key), drop_app_ge by (rewrite !length_app; lia).
    by rewrite !length_app, Hk, Hi, Hs.
Qed.

(** ** A concrete accepted fork *)

Module Sample.
#[local] Existing Instance reference_rlp.
#[local] Existing Instance sample_keccak.

(** A version 2 header with the given number, time, parent and event, sealed
    with its own hash. *)
Definition sealed (n ts : Z) (parent : H256) (ev : option bytes) : RskBlockHeader :=
  let h := {|
    hdr_version := 2; hdr_number := n; hdr_hash := zero_h256; hdr_parent := parent;
    hdr_difficulty := 400; hdr_timestamp := ts; hdr_uncles_hash := zero_h256;
    hdr_coinbase := replicate 20 0; hdr_state_root := zero_h256; hdr_tx_trie_root := zero_h256;
    hdr_receipt_trie_root := zero_h256; hdr_extension_data := replicate 256 0;
    hdr_gas_limit := [0]; hdr_gas_used := 0; hdr_extra_data := [];
    hdr_paid_fees := 0; hdr_minimum_gas_price := Some 0; hdr_uncles := [];
    hdr_rsk_pte_edges := None; hdr_base_event := ev;
    hdr_bitcoin_merged_mining_header := replicate 80 0 |} in
  match calculate_block_hash h with Ok x => rehashed x h | Err _ => h end.

(** The largest proof-of-work hash: a block of effort 1. *)
Definition weakest_pow : H256 := replicate 32 255.

Definition ev : bytes := replicate 32 7.

Definition b0 : RskBlock := Eval vm_compute in mkBlock [] weakest_pow (sealed 100 1000 zero_h256 None).
Definition b1 : RskBlock := Eval vm_compute in
  mkBlock [] weakest_pow (sealed 101 1001 (hdr_hash (blk_header b0)) None).
Definition u1 : RskBlock := Eval vm_compute in
  mkBlock [] weakest_pow (sealed 101 1005 (hdr_hash (blk_header b0)) None).
Definition b2 : RskBlock := Eval vm_compute in
  mkBlock [u1] weakest_pow (sealed 102 1002 (hdr_hash (blk_header b1)) (Some ev)).

Definition args : CheckForkArgs := {|
  pegout_id_version := 1; sequence_number := 1; stream_id := 1; packet_number := 1; slot_id := 4;
  operator_take_pubkey_parity := 2; operator_take_pubkey_xonly := replicate 32 17;
  best_block_hash := replicate 32 34; init_block_time := 1000; init_block_number := 100;
  required_effort := 4; required_num_blocks := 2; block_list := [b0; b1; b2] |}.

Example accepted_effort : check_fork args ev = Ok 4.
Proof. vm_compute. reflexivity. Qed.

Example rejects_missing_event : check_fork args (replicate 32 8)
  = Err "Continuation block is missing the expected PegOutID base event".
Proof. vm_compute. reflexivity. Qed.

End Sample.

(** ** What the verifier does not check *)

Definition with_uncles (us : list RskBlock) (b : RskBlock) : RskBlock :=
  mkBlock us (blk_pow b) (blk_header b).

Definition with_blocks (bs : list RskBlock) (args : CheckForkArgs) : CheckForkArgs :=
  mkArgs (pegout_id_version args) (sequence_number args) (stream_id args) (packet_number args)
    (slot_id args) (operator_take_pubkey_parity args) (operator_take_pubkey_xonly args)
    (best_block_hash args) (init_block_time args) (init_block_number args) (required_effort args)
    (required_num_blocks args) bs.

Section Duplicates.
Context `{AlloyRlp, Keccak}.

Lemma chain_valid_same_header ev i p p' rest :
  blk_header p' = blk_header p -> chain_valid ev i p rest -> chain_valid ev i p' rest.
Proof.
  intros Hp Hc. destruct Hc as [|i p b rest Hl Hh Hu Hev Hc]; constructor; try done.
  - unfold link_valid in *. by rewrite Hp.
  - eapply Forall_impl; [exact Hu|]. intros u. unfold uncle_valid. by rewrite Hp.
Qed.

Lemma chain_valid_repeat_uncle ev i p rest j b u :
  chain_valid ev i p rest -> rest !! j = Some b -> u ∈ blk_uncles b ->
  chain_valid ev i p (<[j := with_uncles (u :: blk_uncles b) b]> rest).
Proof.
  intros Hc. revert j. induction Hc as [|i p b' rest Hl Hh Hu Hev Hc IH]; intros j Hj Hin; [done|].
  destruct j as [|j]; cbn in *.
  - injection Hj as ->. constructor; [done|done| |done|by apply (chain_valid_same_header _ _ b)].
    constructor; [|done]. by eapply Forall_forall in Hu.
  - constructor; auto.
Qed.

Lemma works_insert rest j b u :
  rest !! j = Some b ->
  foldr Z.add 0 (block_work <$> <[j := with_uncles (u :: blk_uncles b) b]> rest)
  = work u + foldr Z.add 0 (block_work <$> rest).
Proof.
  revert j. induction rest as [|b' rest IH]; intros [|j] Hj; cbn in Hj; [done|done|..].
  - injection Hj as ->. cbn. unfold block_work, with_uncles. cbn.
    change (work (mkBlock _ (blk_pow b) (blk_header b))) with (work b). lia.
  - change (<[S j := ?x]> (b' :: rest)) with (b' :: <[j := x]> rest).
    rewrite !fmap_cons. cbn [foldr]. rewrite (IH j) by done. lia.
Qed.

(** Listing an uncle twice counts its work twice.  If [check_fork] accepts
    with effort [e] and block [S j] of the list has uncle [u], then it also
    accepts the list in which [u] is repeated in that block, with effort
    [e + work u] (as long as the sum fits 256 bits): the verifier compares the
    uncles neither with each other nor with the header's uncle fields. *)
Theorem repeated_uncle_counted_again args id e j b u :
  args_pow_ok args -> check_fork args id = Ok e ->
  block_list args !! S j = Some b -> u ∈ blk_uncles b -> e + work u < 2 ^ 256 ->
  check_fork (with_blocks (<[S j := with_uncles (u :: blk_uncles b) b]> (block_list args)) args) id
  = Ok (e + work u).
Proof.
  intros Hpow Hcf Hj Hin Hlt. apply check_fork_accepted in Hcf; [|done].
  assert (pow_bytes_ok b) as [Hb Hub] by (by eapply Forall_lookup in Hpow).
  assert (bytes_ok (blk_pow u)) as Hu by (by eapply Forall_forall in Hub).
  pose proof (work_nonneg u Hu).
  apply check_fork_accepted.
  { unfold args_pow_ok. cbn. apply Forall_insert; [done|]. split; [done|by constructor]. }
  destruct Hcf as (Hv&Hn&Hl&first&rest&Heq&Hf&Hc&->&Hreq).
  unfold fork_accepted. cbn [with_blocks pegout_id_version required_num_blocks required_effort block_list].
  rewrite length_insert. split_and!; [done|lia|lia|done|].
  rewrite Heq in *. cbn in Hj. cbn [insert list_insert].
  eexists _, _. split; [done|]. split; [done|].
  split; [by apply chain_valid_repeat_uncle|].
  unfold total_work in *. change (list_insert j ?x rest) with (<[j := x]> rest).
  rewrite works_insert by done. lia.
Qed.

End Duplicates.

(** The 20-times-difficulty threshold is not enforced.
    [validate_enough_effort_superblock] succeeds for every block whose effort
    is defined, however small that effort is, and a fork in which every block
    has less work than its difficulty demands is accepted. *)
Theorem superblock_threshold_not_enforced :
  (forall b, validate_enough_effort_superblock b = Ok tt <-> effort_defined b) /\
  Forall (fun b => work b < hdr_difficulty (blk_header b) * SUPERBLOCK_TIMES_DIFFICULTY)
    (block_list Sample.args) /\
  @check_fork reference_rlp sample_keccak Sample.args Sample.ev = Ok 4.
Proof.
  split; [intros b; apply superblock_ok|]. split; [by_decide|]. vm_compute. reflexivity.
Qed.

(** ** Witnesses *)

#[export] Instance pow_bytes_ok_dec b : Decision (pow_bytes_ok b).
Proof. unfold pow_bytes_ok. apply _. Defined.

Lemma sample_pow_ok : args_pow_ok Sample.args.
Proof. unfold args_pow_ok. by_decide. Qed.

Lemma sample_args_ok : args_ok Sample.args.
Proof. constructor; by_decide. Qed.

Lemma check_fork_correct_witness :
  args_pow_ok Sample.args /\
  @fork_accepted reference_rlp sample_keccak Sample.args Sample.ev 4.
Proof.
  split; [apply sample_pow_ok|].
  apply (@check_fork_correct reference_rlp sample_keccak); [apply sample_pow_ok|].
  vm_compute. reflexivity.
Defined.

Lemma accepted_fork_is_chain_witness :
  exists first, block_list Sample.args !! 0%nat = Some first /\ ~ has_event Sample.ev first.
Proof.
  destruct (@accepted_fork_is_chain reference_rlp sample_keccak Sample.args Sample.ev 4)
    as (first&?&?&_); [apply sample_pow_ok|vm_compute; reflexivity|eauto].
Defined.

Lemma pegout_id_binds_arguments_witness :
  pegout_fields Sample.args = pegout_fields (with_blocks [] Sample.args) \/
  @collide sample_keccak (build_pegout_id_preimage Sample.args) (build_pegout_id_preimage (with_blocks [] Sample.args)).
Proof.
  apply (@pegout_id_binds_arguments sample_keccak Sample.args (with_blocks [] Sample.args));
    [apply sample_args_ok|constructor; by_decide|vm_compute; reflexivity].
Defined.

Lemma guest_journal_correct_witness :
  length (@guest_main reference_rlp sample_keccak Sample.args) = 76%nat.
Proof.
  apply (@guest_journal_correct reference_rlp sample_keccak sample_keccak_laws Sample.args).
  apply sample_args_ok.
Defined.

Lemma repeated_uncle_counted_again_witness :
  @check_fork reference_rlp sample_keccak
    (with_blocks [Sample.b0; Sample.b1; with_uncles [Sample.u1; Sample.u1] Sample.b2] Sample.args)
    Sample.ev = Ok 5.
Proof.
  apply (@repeated_uncle_counted_again reference_rlp sample_keccak Sample.args Sample.ev 4 1
           Sample.b2 Sample.u1).
  - apply sample_pow_ok.
  - vm_compute. reflexivity.
  - reflexivity.
  - constructor.
  - vm_compute. reflexivity.
Defined.

Lemma sample_headers_ok : @headers_ok reference_rlp sample_keccak Sample.args.
Proof.
  assert (forall h, h = Sample.b0 \/ h = Sample.b1 \/ h = Sample.b2 ->
    header_ok (blk_header h) /\ @encoding_fits reference_rlp sample_keccak (blk_header h)) as Hall.
  { intros h [->|[->| ->]]; (split; [constructor; try by_decide;
      [intros p [= <-]; by_decide|intros e He; vm_compute in He; simplify_eq; by_decide]|]);
      intros enc He; vm_compute in He; injection He as <-; by_decide. }
  unfold headers_ok. repeat apply Forall_cons_2; auto using Forall_nil_2.
Qed.

Lemma accepted_tip_determines_chain_witness :
  same_committed_fields (blk_header Sample.b1) (blk_header Sample.b1)
  \/ @forks_collide reference_rlp sample_keccak Sample.args Sample.args.
Proof.
  apply (@accepted_tip_determines_chain reference_rlp reference_rlp_laws sample_keccak
    sample_keccak_laws Sample.args Sample.args Sample.ev Sample.ev 4 4 2 Sample.b2 Sample.b2 1).
  1,2: exact sample_pow_ok.
  1,2: exact sample_headers_ok.
  1,2: vm_compute; reflexivity.
  all: reflexivity.
Defined.
