(* ===== verification/OpFunding.v ===== *)
(** * Operator funding arithmetic (crates/op-funding/src/lib.rs)

    Bitcoin funding profiles of the streams in checked 64-bit arithmetic, the
    probabilistic slot budget in checked 128-bit arithmetic with its binary
    search square root, and the RSK balances in saturating 256-bit arithmetic.
    The theorems give the exact value of every function and the exact inputs
    on which it overflows. *)

From stdpp Require Import prelude.
From S2P Require Import Prelude.
Open Scope Z_scope.

Definition STREAM_DENOMINATIONS : list Z :=
  [100000; 1000000; 10000000; 100000000; 1000000000].
Definition FUNDING_AMOUNT_PER_SLOT : Z := 12000.
Definition DISPUTE_CHANNEL_FUNDING_PER_MEMBER : Z := 50000.
Definition DUST_VALUE : Z := 540.
Definition SPEEDUP_VALUE : Z := 540.
Definition REGTEST_SPEEDUP_FUNDS_VALUE : Z := 1000000.
Definition NON_REGTEST_SPEEDUP_FUNDS_VALUE : Z := 30000.
Definition EXAMPLE_PROTOCOL_FUNDING_SAFETY_BUFFER : Z := 5000.
Definition EXAMPLE_TOTAL_FUNDING_SAFETY_BUFFER : Z := 10000.
Definition OPERATOR_FUNDING_MARGIN_NUMERATOR : Z := 25.
Definition OPERATOR_FUNDING_MARGIN_DENOMINATOR : Z := 100.
Definition REGTEST_FEE_RATE : Z := 10.
Definition NON_REGTEST_FEE_RATE : Z := 1.
Definition RSK_GAS_BUFFER_PERCENT : Z := 20.
Definition MEMBER_RSK_SETUP_RESERVE_WEI : Z := 10000000000000000.
Definition MEMBER_RSK_RESERVE_PER_SLOT_WEI : Z := 3000000000000000.
Definition SLOT_BUDGET_Z_SCORE_NUMERATOR : Z := 233.
Definition SLOT_BUDGET_Z_SCORE_DENOMINATOR : Z := 100.

Record StreamFundingProfile := mkProfile {
  denomination : Z;
  protocol_funding : Z;
  speed_up_utxo : Z;
  advance_funds : Z;
  operator_fund_amount : Z
}.

Inductive FundingProfileError :=
| UnknownStreamId (stream_id : Z)
| ArithmeticOverflow.

Definition stream_denomination (stream_id : Z) : option Z :=
  STREAM_DENOMINATIONS !! Z.to_nat stream_id.

Definition calculate_advance_funds_value (stream_denomination : Z) : option Z :=
  x ← checked_mul 64 stream_denomination 12; checked_div x 10.

Definition estimate_fee (input_quantity output_quantity fee_rate : Z) : option Z :=
  i ← checked_mul 64 input_quantity 68;
  x ← checked_add 64 46 i;
  o ← checked_mul 64 output_quantity 34;
  x ← checked_add 64 x o;
  checked_mul 64 x fee_rate.

Definition fee_rate (is_regtest : bool) : Z :=
  if is_regtest then REGTEST_FEE_RATE else NON_REGTEST_FEE_RATE.

Definition operator_funding_value (slots_per_package : Z) (is_regtest : bool) : option Z :=
  x ← checked_mul 64 FUNDING_AMOUNT_PER_SLOT slots_per_package;
  x ← checked_add 64 x SPEEDUP_VALUE;
  o ← checked_add 64 slots_per_package 2;
  f ← estimate_fee 1 o (fee_rate is_regtest);
  checked_add 64 x f.

Definition watchtower_funding_value (committee_member_count : Z) (is_regtest : bool) : option Z :=
  x ← checked_mul 64 DISPUTE_CHANNEL_FUNDING_PER_MEMBER committee_member_count;
  x ← checked_add 64 x SPEEDUP_VALUE;
  o ← checked_add 64 committee_member_count 2;
  f ← estimate_fee 1 o (fee_rate is_regtest);
  checked_add 64 x f.

Definition funding_wt_disabler_directory_value (prover_count : Z) (is_regtest : bool) : option Z :=
  output_quantity ← checked_mul 64 prover_count 2;
  x ← checked_mul 64 DUST_VALUE prover_count;
  x ← checked_mul 64 x 2;
  x ← checked_add 64 x SPEEDUP_VALUE;
  f ← estimate_fee 2 output_quantity (fee_rate is_regtest);
  checked_add 64 x f.

Definition funding_op_disabler_directory_value (slots_per_package : Z) (is_regtest : bool) : option Z :=
  x ← checked_mul 64 DUST_VALUE slots_per_package;
  x ← checked_add 64 x SPEEDUP_VALUE;
  o ← checked_add 64 slots_per_package 1;
  f ← estimate_fee 2 o (fee_rate is_regtest);
  checked_add 64 x f.

Definition speedup_funds_value (is_regtest : bool) : Z :=
  if is_regtest then REGTEST_SPEEDUP_FUNDS_VALUE else NON_REGTEST_SPEEDUP_FUNDS_VALUE.

Definition operator_funding_margin (denomination : Z) : option Z :=
  x ← checked_mul 64 denomination OPERATOR_FUNDING_MARGIN_NUMERATOR;
  checked_div x OPERATOR_FUNDING_MARGIN_DENOMINATOR.

Definition derive_stream_funding_profile (stream_id : Z) (is_regtest : bool)
    (slots_per_package committee_member_count prover_count : Z)
    : result FundingProfileError StreamFundingProfile :=
  denomination ← ok_or (stream_denomination stream_id) (UnknownStreamId stream_id);
  let speed_up_utxo := speedup_funds_value is_regtest in
  advance_funds ← ok_or (calculate_advance_funds_value denomination) ArithmeticOverflow;
  operator_funding ← ok_or (operator_funding_value slots_per_package is_regtest) ArithmeticOverflow;
  op_disabler_funding ← ok_or (funding_op_disabler_directory_value slots_per_package is_regtest)
                          ArithmeticOverflow;
  watchtower_funding ← ok_or (watchtower_funding_value committee_member_count is_regtest)
                         ArithmeticOverflow;
  wt_disabler_funding ← ok_or (funding_wt_disabler_directory_value prover_count is_regtest)
                          ArithmeticOverflow;
  protocol_funding ← ok_or
    (v ← checked_add 64 operator_funding op_disabler_funding;
     v ← checked_add 64 v watchtower_funding;
     v ← checked_add 64 v wt_disabler_funding;
     checked_add 64 v EXAMPLE_PROTOCOL_FUNDING_SAFETY_BUFFER) ArithmeticOverflow;
  operator_fund_amount ← ok_or
    (v ← checked_add 64 speed_up_utxo advance_funds;
     v ← checked_add 64 v operator_funding;
     v ← checked_add 64 v op_disabler_funding;
     v ← checked_add 64 v watchtower_funding;
     v ← checked_add 64 v wt_disabler_funding;
     v ← checked_add 64 v EXAMPLE_TOTAL_FUNDING_SAFETY_BUFFER;
     margin ← operator_funding_margin denomination;
     checked_add 64 v margin) ArithmeticOverflow;
  Ok (mkProfile denomination protocol_funding speed_up_utxo advance_funds operator_fund_amount).

Definition required_rsk_balance (min_deposit : Z) : Z :=
  let percentage_buffer := saturating_mul 256 min_deposit RSK_GAS_BUFFER_PERCENT / 100 in
  saturating_add 256 min_deposit percentage_buffer.

(** [u128::div_ceil] *)
Definition ceil_div (numerator denominator : Z) : Z :=
  if numerator mod denominator =? 0 then numerator / denominator
  else numerator / denominator + 1.

(** The [while low < high] loop; [None] when the fuel runs out. *)
Fixpoint ceil_sqrt_loop (fuel : nat) (value low high : Z) : option Z :=
  match fuel with
  | O => None
  | S fuel =>
      if low <? high then
        let mid := saturating_add 128 low ((high - low) / 2) in
        let square := saturating_mul 128 mid mid in
        if square <? value then ceil_sqrt_loop fuel value (saturating_add 128 mid 1) high
        else ceil_sqrt_loop fuel value low mid
      else Some low
  end.

(** The interval halves at each iteration, so 129 are enough for [u128]. *)
Definition ceil_sqrt_fuel : nat := 129.

Definition ceil_sqrt (value : Z) : Z :=
  if value <=? 1 then value else default 0 (ceil_sqrt_loop ceil_sqrt_fuel value 1 value).

Definition checked_budgeted_slot_count (slots_per_package committee_member_count : Z) : option Z :=
  let committee_member_count := Z.max committee_member_count 1 in
  if slots_per_package =? 0 then Some 0
  else
    m ← checked_sub committee_member_count 1;
    p ← checked_mul 128 slots_per_package m;
    let sqrt_term := ceil_sqrt p in
    a ← checked_mul 128 slots_per_package SLOT_BUDGET_Z_SCORE_DENOMINATOR;
    b ← checked_mul 128 SLOT_BUDGET_Z_SCORE_NUMERATOR sqrt_term;
    numerator ← checked_add 128 a b;
    denominator ← checked_mul 128 SLOT_BUDGET_Z_SCORE_DENOMINATOR committee_member_count;
    let v := ceil_div numerator denominator in
    if v <? 2 ^ 64 then Some v else None.

(** [None] is the panic of [expect]. *)
Definition budgeted_slot_count (slots_per_package committee_member_count : Z) : option Z :=
  checked_budgeted_slot_count slots_per_package committee_member_count.

Definition required_member_rsk_balance (min_deposit slots_per_package committee_member_count : Z)
    : option Z :=
  let percentage_buffer := saturating_mul 256 min_deposit RSK_GAS_BUFFER_PERCENT / 100 in
  slot_budget ← budgeted_slot_count slots_per_package committee_member_count;
  let probabilistic_reserve :=
    saturating_add 256 MEMBER_RSK_SETUP_RESERVE_WEI
      (saturating_mul 256 MEMBER_RSK_RESERVE_PER_SLOT_WEI slot_budget) in
  Some (saturating_add 256 min_deposit (Z.max percentage_buffer probabilistic_reserve)).

(** Values the crate's tests fix. *)
Example regtest_stream_zero :
  derive_stream_funding_profile 0 true 100 4 2 = Ok (mkProfile 100000 1541660 1000000 120000 2691660).
Proof. reflexivity. Qed.

Example budget_100_4 : budgeted_slot_count 100 4 = Some 36.
Proof. vm_compute. reflexivity. Qed.

Example member_balance_small : required_member_rsk_balance 25000000000000000 100 4 = Some 143000000000000000.
Proof. vm_compute. reflexivity. Qed.

(** ** The formulas without overflow *)

(** A value that fits [u64], or the overflow. *)
Definition fits64 (v : Z) : option Z := if v <? 2 ^ 64 then Some v else None.

Definition fee (i o : Z) (regtest : bool) : Z := (46 + i * 68 + o * 34) * fee_rate regtest.
Definition operator_funding (s : Z) r := 12000 * s + 540 + fee 1 (s + 2) r.
Definition op_disabler_funding (s : Z) r := 540 * s + 540 + fee 2 (s + 1) r.
Definition watchtower_funding (n : Z) r := 50000 * n + 540 + fee 1 (n + 2) r.
Definition wt_disabler_funding (p : Z) r := 540 * p * 2 + 540 + fee 2 (p * 2) r.

Definition shared_funding (s n p : Z) r : Z :=
  operator_funding s r + op_disabler_funding s r + watchtower_funding n r + wt_disabler_funding p r.

(** The operator's amount: the largest quantity of a profile. *)
Definition operator_total (d s n p : Z) r : Z :=
  speedup_funds_value r + d * 12 / 10 + shared_funding s n p r + 10000 + d * 25 / 100.

(** Case analysis on every overflow test of the code. *)
Ltac by_overflow_cases :=
  repeat (cbn; match goal with |- context [?a <? ?b] => destruct (Z.ltb_spec a b) end);
  first [reflexivity | exfalso; lia | (repeat f_equal; lia)].

Ltac unfold_funding :=
  unfold estimate_fee, fee, fits64, checked_mul, checked_add, FUNDING_AMOUNT_PER_SLOT, SPEEDUP_VALUE,
    DUST_VALUE, DISPUTE_CHANNEL_FUNDING_PER_MEMBER, fee_rate, REGTEST_FEE_RATE,
    NON_REGTEST_FEE_RATE in *.

Lemma operator_funding_value_eq s r :
  0 <= s -> operator_funding_value s r = fits64 (operator_funding s r).
Proof.
  intros Hs. unfold operator_funding_value, operator_funding. unfold_funding.
  destruct r; by_overflow_cases.
Qed.

Lemma op_disabler_value_eq s r :
  0 <= s -> funding_op_disabler_directory_value s r = fits64 (op_disabler_funding s r).
Proof.
  intros Hs. unfold funding_op_disabler_directory_value, op_disabler_funding. unfold_funding.
  destruct r; by_overflow_cases.
Qed.

Lemma watchtower_value_eq n r :
  0 <= n -> watchtower_funding_value n r = fits64 (watchtower_funding n r).
Proof.
  intros Hs. unfold watchtower_funding_value, watchtower_funding. unfold_funding.
  destruct r; by_overflow_cases.
Qed.

Lemma wt_disabler_value_eq p r :
  0 <= p -> funding_wt_disabler_directory_value p r = fits64 (wt_disabler_funding p r).
Proof.
  intros Hs. unfold funding_wt_disabler_directory_value, wt_disabler_funding. unfold_funding.
  destruct r; by_overflow_cases.
Qed.

Lemma stream_denomination_bound i d :
  stream_denomination i = Some d -> 100000 <= d <= 1000000000.
Proof.
  unfold stream_denomination. intros Hd. apply list_elem_of_lookup_2 in Hd.
  unfold STREAM_DENOMINATIONS in Hd. set_unfold in Hd. lia.
Qed.

Lemma fundings_nonneg s n p r :
  0 <= s -> 0 <= n -> 0 <= p ->
  0 <= operator_funding s r /\ 0 <= op_disabler_funding s r /\
  0 <= watchtower_funding n r /\ 0 <= wt_disabler_funding p r.
Proof.
  intros. unfold operator_funding, op_disabler_funding, watchtower_funding, wt_disabler_funding.
  unfold_funding. destruct r; lia.
Qed.

(** The funding profile is exact.  For [u64] sizing parameters,
    [derive_stream_funding_profile] reports an unknown stream exactly outside
    the denomination table; otherwise it returns the closed-form amounts
    (advance 12/10 of the denomination, protocol funding, operator amount with
    its 25% margin) when the operator amount fits 64 bits, and
    [ArithmeticOverflow] exactly when it does not. *)
Theorem derive_stream_funding_profile_exact i r s n p :
  uint 64 i -> uint 64 s -> uint 64 n -> uint 64 p ->
  derive_stream_funding_profile i r s n p =
  match stream_denomination i with
  | None => Err (UnknownStreamId i)
  | Some d =>
      if operator_total d s n p r <? 2 ^ 64 then
        Ok {| denomination := d; protocol_funding := shared_funding s n p r + 5000;
              speed_up_utxo := speedup_funds_value r; advance_funds := d * 12 / 10;
              operator_fund_amount := operator_total d s n p r |}
      else Err ArithmeticOverflow
  end.
Proof.
  unfold uint. intros Hi Hs Hn Hp. unfold derive_stream_funding_profile.
  destruct (stream_denomination i) as [d|] eqn:Hd; [|done].
  apply stream_denomination_bound in Hd. cbn [ok_or].
  rewrite operator_funding_value_eq, op_disabler_value_eq, watchtower_value_eq, wt_disabler_value_eq by lia.
  destruct (fundings_nonneg s n p r) as (?&?&?&?); [lia..|].
  unfold operator_total, shared_funding.
  generalize dependent (operator_funding s r). generalize dependent (op_disabler_funding s r).
  generalize dependent (watchtower_funding n r). generalize dependent (wt_disabler_funding p r).
  intros wd Hwd wt Hwt od Hod op Hop.
  assert (30000 <= speedup_funds_value r <= 1000000) as Hsp by (destruct r; cbv; done).
  unfold calculate_advance_funds_value, operator_funding_margin, fits64, checked_mul, checked_add,
    checked_div, EXAMPLE_PROTOCOL_FUNDING_SAFETY_BUFFER, EXAMPLE_TOTAL_FUNDING_SAFETY_BUFFER,
    OPERATOR_FUNDING_MARGIN_NUMERATOR, OPERATOR_FUNDING_MARGIN_DENOMINATOR.
  assert (0 <= d * 12 / 10 <= 1200000000) by (split; [apply Z.div_pos; lia|apply Z.div_le_upper_bound; lia]).
  assert (0 <= d * 25 / 100 <= 250000000) by (split; [apply Z.div_pos; lia|apply Z.div_le_upper_bound; lia]).
  generalize dependent (speedup_funds_value r). intros sp Hsp.
  repeat (cbn -[Z.pow Z.div]; match goal with |- context [?a <? ?b] => destruct (Z.ltb_spec a b) end);
    first [reflexivity | exfalso; lia | (do 2 f_equal; lia)].
Qed.

(** ** The slot budget *)

(** One iteration keeps the answer in [low..high] and halves the interval. *)
Lemma ceil_sqrt_loop_correct fuel value low high :
  0 <= value < 2 ^ 128 -> 1 <= low <= high -> high <= value ->
  high - low < 2 ^ Z.of_nat fuel -> value <= high * high -> (low - 1) * (low - 1) < value ->
  exists r, ceil_sqrt_loop (S fuel) value low high = Some r /\
    low <= r <= high /\ value <= r * r /\ (r - 1) * (r - 1) < value.
Proof.
  intros Hv. revert low high. induction fuel as [|fuel IH]; intros low high Hl Hhv Hf Hhi Hlo.
  - assert (low = high) as -> by (cbn in Hf; lia).
    exists high. cbn. rewrite Z.ltb_irrefl. split_and!; [done|lia..].
  - rewrite Nat2Z.inj_succ, Z.pow_succ_r in Hf by lia.
    remember (S fuel) as f eqn:Hfe. cbn [ceil_sqrt_loop]. subst f.
    destruct (Z.ltb_spec low high) as [Hlt|Hge].
    2: { assert (low = high) as -> by lia. exists high. split_and!; [done|lia..]. }
    assert (low <= low + (high - low) / 2 < high) as Hmid.
    { split; [pose proof (Z.div_pos (high - low) 2); lia|].
      pose proof (Z.div_lt (high - low) 2). lia. }
    assert (2 * ((high - low) / 2) <= high - low < 2 * ((high - low) / 2) + 2) as Hhalf
      by (pose proof (Z.div_mod (high - low) 2); pose proof (Z.mod_pos_bound (high - low) 2); lia).
    assert (saturating_add 128 low ((high - low) / 2) = low + (high - low) / 2) as ->
      by (unfold saturating_add, uint_max; lia).
    set (mid := low + (high - low) / 2) in *.
    assert ((saturating_mul 128 mid mid <? value) = (mid * mid <? value)) as ->.
    { unfold saturating_mul, uint_max.
      destruct (Z.ltb_spec (mid * mid) value), (Z.ltb_spec (Z.min (mid * mid) (2 ^ 128 - 1)) value); lia. }
    destruct (Z.ltb_spec (mid * mid) value).
    + assert (saturating_add 128 mid 1 = mid + 1) as -> by (unfold saturating_add, uint_max; lia).
      destruct (IH (mid + 1) high) as (r&?&?&?&?); [lia|lia|lia|lia|nia|].
      exists r. split_and!; [done|lia..].
    + destruct (IH low mid) as (r&?&?&?&?); [lia|lia|lia|lia|lia|].
      exists r. split_and!; [done|lia..].
Qed.

Lemma ceil_sqrt_loop_stops value :
  2 <= value < 2 ^ 128 ->
  exists r, ceil_sqrt_loop ceil_sqrt_fuel value 1 value = Some r /\
    1 <= r /\ value <= r * r /\ (r - 1) * (r - 1) < value.
Proof.
  intros Hv. destruct (ceil_sqrt_loop_correct 128 value 1 value) as (r&Hr&?&?&?);
    [lia|lia|lia| |nia|lia|].
  { change (Z.of_nat 128) with 128. lia. }
  exists r. split_and!; [exact Hr|lia|done|done].
Qed.

Lemma ceil_sqrt_bounds value :
  0 <= value < 2 ^ 128 ->
  0 <= ceil_sqrt value /\ value <= ceil_sqrt value * ceil_sqrt value /\
  (0 < ceil_sqrt value -> (ceil_sqrt value - 1) * (ceil_sqrt value - 1) < value).
Proof.
  intros Hv. unfold ceil_sqrt. destruct (Z.leb_spec value 1) as [Hle|Hgt]; [nia|].
  destruct (ceil_sqrt_loop_stops value) as (r&Hr&?&?&?); [lia|].
  rewrite Hr. cbn [default from_option id]. lia.
Qed.

(** The binary search returns the ceiling square root.  For every [u128]
    value the loop of [ceil_sqrt] stops within its fuel and the result is the
    least [r] with [value <= r * r]; the saturating multiplication of the
    source never changes a comparison. *)
Theorem ceil_sqrt_least value :
  uint 128 value ->
  (2 <= value -> is_Some (ceil_sqrt_loop ceil_sqrt_fuel value 1 value)) /\
  0 <= ceil_sqrt value /\ value <= ceil_sqrt value * ceil_sqrt value /\
  forall r, 0 <= r -> value <= r * r -> ceil_sqrt value <= r.
Proof.
  unfold uint. intros Hv. destruct (ceil_sqrt_bounds value Hv) as (?&?&Hlow). split.
  - intros Hge. destruct (ceil_sqrt_loop_stops value) as (r&Hr&_); [lia|eauto].
  - split_and!; [done|done|]. intros r Hr Hsq.
    destruct (decide (ceil_sqrt value <= r)); [done|]. nia.
Qed.

Lemma ceil_div_bounds a b :
  0 <= a -> 0 < b -> a <= b * ceil_div a b /\ b * ceil_div a b < a + b /\ 0 <= ceil_div a b.
Proof.
  intros Ha Hb. unfold ceil_div. pose proof (Z.div_mod a b). pose proof (Z.mod_pos_bound a b Hb).
  pose proof (Z.div_pos a b Ha Hb). destruct (Z.eqb_spec (a mod b) 0); nia.
Qed.

(** The budget with [n >= 1] members, before the conversion to [u64]. *)
Definition slot_budget (s n : Z) : Z := ceil_div (s * 100 + 233 * ceil_sqrt (s * (n - 1))) (100 * n).

Lemma slot_budget_bounds s n :
  1 <= s < 2 ^ 64 -> 1 <= n < 2 ^ 64 ->
  ceil_sqrt (s * (n - 1)) <= 2 ^ 64 /\ 0 <= slot_budget s n < 2 ^ 64 /\ s <= n * slot_budget s n.
Proof.
  intros Hs Hn. unfold slot_budget. set (r := ceil_sqrt (s * (n - 1))).
  destruct (ceil_sqrt_bounds (s * (n - 1))) as (Hr0&Hr1&Hr2); [nia|]. fold r in Hr0, Hr1, Hr2.
  assert (r <= 2 ^ 64) as Hr64 by nia.
  destruct (ceil_div_bounds (s * 100 + 233 * r) (100 * n)) as (?&?&?); [lia|lia|].
  assert (233 * r <= 100 * (n - 1) * (2 ^ 64 - 1)) as Hbig.
  { destruct (decide (n = 1)) as [->|].
    - assert (r = 0) by nia. lia.
    - destruct (decide (r <= 1000)); [nia|]. assert ((r - 1) * 999 <= (r - 1) * (r - 1)) by nia. nia. }
  set (q := ceil_div (s * 100 + 233 * r) (100 * n)) in *.
  split_and!; [done|lia|nia|nia].
Qed.

Lemma slot_count_defined s m :
  0 <= s < 2 ^ 64 -> 0 <= m < 2 ^ 64 ->
  exists q, checked_budgeted_slot_count s m = Some q /\ 0 <= q < 2 ^ 64 /\ s <= Z.max m 1 * q /\
    (s <> 0 -> q = slot_budget s (Z.max m 1)).
Proof.
  intros Hs Hm. unfold checked_budgeted_slot_count.
  destruct (Z.eqb_spec s 0) as [->|Hne]; [exists 0; split_and!; [done|lia..]|].
  set (n := Z.max m 1). assert (1 <= n < 2 ^ 64) as Hn by lia.
  destruct (slot_budget_bounds s n) as (Hr&Hq&Hcov); [lia|lia|].
  exists (slot_budget s n).
  assert (0 <= ceil_sqrt (s * (n - 1))) by (apply ceil_sqrt_bounds; nia).
  unfold checked_sub, checked_mul, checked_add, SLOT_BUDGET_Z_SCORE_DENOMINATOR,
    SLOT_BUDGET_Z_SCORE_NUMERATOR.
  rewrite (proj2 (Z.leb_le 1 n)) by lia. cbn [mbind option_bind].
  rewrite (proj2 (Z.ltb_lt (s * (n - 1)) _)) by nia. cbn [mbind option_bind].
  repeat (rewrite (proj2 (Z.ltb_lt _ (2 ^ 128))) by lia; cbn [mbind option_bind]).
  fold (slot_budget s n). rewrite (proj2 (Z.ltb_lt _ _)) by lia. done.
Qed.

(** C40: The slot budget never overflows.  For every pair of [u64] inputs
    [budgeted_slot_count] returns a value, so the documented panic is
    unreachable; the value is the ceiling of
    (100 s + 233 ceil(sqrt(s (n - 1)))) / (100 n) for n = max(1, members), and
    it covers at least an equal share of the slots. *)
Theorem budgeted_slot_count_total s m :
  uint 64 s -> uint 64 m ->
  exists q, budgeted_slot_count s m = Some q /\ 0 <= q < 2 ^ 64 /\ s <= Z.max m 1 * q /\
    (s <> 0 -> q = slot_budget s (Z.max m 1)).
Proof. apply slot_count_defined. Qed.

(** ** RSK balances *)

(** RSK balances cover the deposit and its buffers.  For any [U256] deposit
    up to MAX/20 the operator balance is exactly the deposit plus 20 percent,
    and for any [u64] sizing the member balance is defined, at least the
    operator balance, at least deposit plus setup and per-slot reserve (capped
    at the 256-bit maximum), and never exceeds 256 bits. *)
Theorem member_balance_covers d s m :
  uint 256 d -> uint 64 s -> uint 64 m ->
  (d * 20 <= uint_max 256 -> required_rsk_balance d = Z.min (d + d * 20 / 100) (uint_max 256)) /\
  exists v q, required_member_rsk_balance d s m = Some v /\ budgeted_slot_count s m = Some q /\
    required_rsk_balance d <= v <= uint_max 256 /\ d <= v /\
    Z.min (d + MEMBER_RSK_SETUP_RESERVE_WEI + MEMBER_RSK_RESERVE_PER_SLOT_WEI * q) (uint_max 256) <= v.
Proof.
  unfold uint. intros Hd Hs Hm. split.
  { intros Hle. unfold required_rsk_balance, saturating_add, saturating_mul, RSK_GAS_BUFFER_PERCENT.
    by rewrite (Z.min_l (d * 20)) by lia. }
  destruct (checked_budgeted_slot_count s m) as [q|] eqn:Hq.
  2: { exfalso. by destruct (slot_count_defined s m) as (q&Hq'&_); [done..|congruence]. }
  eexists _, q. unfold required_member_rsk_balance, budgeted_slot_count. rewrite Hq.
  split; [reflexivity|]. split; [done|].
  destruct (slot_count_defined s m) as (q'&Hq'&Hqb&_); [done..|]. simplify_eq.
  unfold required_rsk_balance, saturating_add, saturating_mul, MEMBER_RSK_SETUP_RESERVE_WEI,
    MEMBER_RSK_RESERVE_PER_SLOT_WEI, RSK_GAS_BUFFER_PERCENT, uint_max in *.
  set (buf := Z.min (d * 20) (2 ^ 256 - 1) / 100).
  assert (0 <= buf) by (apply Z.div_pos; lia). lia.
Qed.

(** ** Witnesses *)

Lemma derive_stream_funding_profile_exact_witness :
  derive_stream_funding_profile 1 true 100 4 2
  = Ok (mkProfile 1000000 1541660 1000000 1200000 3996660).
Proof.
  rewrite (derive_stream_funding_profile_exact 1 true 100 4 2) by by_decide. reflexivity.
Defined.

Lemma ceil_sqrt_least_witness : 10 <= ceil_sqrt 10 * ceil_sqrt 10 /\ ceil_sqrt 10 <= 4.
Proof.
  destruct (ceil_sqrt_least 10) as (_&_&?&Hmin); [by_decide|].
  split; [done|apply Hmin; lia].
Defined.

Lemma budgeted_slot_count_total_witness : exists q, budgeted_slot_count 100 4 = Some q /\ 100 <= 4 * q.
Proof.
  destruct (budgeted_slot_count_total 100 4) as (q&?&_&?&_); [by_decide|by_decide|eauto].
Defined.

Lemma member_balance_covers_witness :
  exists v, required_member_rsk_balance 25000000000000000 100 4 = Some v /\ 30000000000000000 <= v.
Proof.
  destruct (member_balance_covers 25000000000000000 100 4) as [Hr (v&q&Hv&_&[Hle _]&_)];
    [by_decide..|].
  exists v. split; [done|]. rewrite Hr in Hle by by_decide. exact Hle.
Defined.
