(* ===== verification/Types.v ===== *)
(** * Core data types (crates/common/core/src/types.rs)

    Block hashes, block numbers, blocks and logs as the indexers and the
    coordinator exchange them, with their textual forms.  Two [RskBlock]s are
    equal in Rust when their hashes are: that is the setoid equality here. *)

From Stdlib Require Import Ascii.
From stdpp Require Import prelude gmap strings pretty.
From S2P Require Import Prelude BlockHeader.
Open Scope Z_scope.

(** ** Hashes, addresses and numbers *)

(** [Hash256(H256)], with its aliases [BlockHash], [TxHash], [LogTopic], and
    [Address(H160)]: their bytes. *)
Abbreviation Hash256 := (list Z).
Abbreviation Address := (list Z).

Definition hex_digit (d : Z) : ascii :=
  match Z.to_nat d with
  | 0 => "0" | 1 => "1" | 2 => "2" | 3 => "3" | 4 => "4" | 5 => "5" | 6 => "6" | 7 => "7"
  | 8 => "8" | 9 => "9" | 10 => "a" | 11 => "b" | 12 => "c" | 13 => "d" | 14 => "e" | _ => "f"
  end%nat%char.

(** [hex::encode] *)
Fixpoint hex_encode (l : bytes) : string :=
  match l with
  | [] => ""
  | b :: l => String (hex_digit (b / 16)) (String (hex_digit (b mod 16)) (hex_encode l))
  end.

(** [impl Display for Hash256], also of [Address] *)
Definition hash_to_string (h : Hash256) : string := "0x" +:+ hex_encode h.

(** [bitcoin::Network] *)
Inductive Network := Mainnet | Testnet | Testnet4 | Signet | Regtest.

#[export] Instance Network_eq_dec : EqDecision Network.
Proof. solve_decision. Defined.

(** [hex::decode] *)
Inductive FromHexError := InvalidHexCharacter (c : ascii) (index : Z) | OddLength.

Definition hex_val (c : ascii) : option Z :=
  let n := Z.of_N (N_of_ascii c) in
  if (48 <=? n) && (n <=? 57) then Some (n - 48)
  else if (97 <=? n) && (n <=? 102) then Some (n - 87)
  else if (65 <=? n) && (n <=? 70) then Some (n - 55)
  else None.

Fixpoint decode_pairs (i : Z) (s : string) : result FromHexError bytes :=
  match s with
  | String c (String c' s) =>
      hi ← ok_or (hex_val c) (InvalidHexCharacter c i);
      lo ← ok_or (hex_val c') (InvalidHexCharacter c' (i + 1));
      l ← decode_pairs (i + 2) s;
      mret (hi * 16 + lo :: l)
  | _ => mret []
  end.

Definition hex_decode (s : string) : result FromHexError bytes :=
  if Nat.odd (String.length s) then Err OddLength else decode_pairs 0 s.

(** [str::trim_start_matches("0x")] *)
Fixpoint trim_0x (s : string) : string :=
  match s with
  | String c (String c' s') => if decide (c = "0" /\ c' = "x")%char then trim_0x s' else s
  | _ => s
  end.

(** [H256::from_slice] and [H160::from_slice] assert the length of the slice. *)
Definition from_slice (len : nat) (l : bytes) : result failure bytes :=
  if decide (length l = len) then Ok l else Err (Panic "assertion failed: slice length").

(** [impl TryFrom<&str> for Hash256] and [for Address] *)
Definition from_hex_error {A} (r : result FromHexError A) : result failure A :=
  match r with Ok a => Ok a | Err _ => Err (Anyhow ["FromHexError"]) end.

Definition hash_try_from (value : string) : result failure Hash256 :=
  l ← from_hex_error (hex_decode (trim_0x value)); from_slice 32 l.

Definition address_try_from (value : string) : result failure Address :=
  l ← from_hex_error (hex_decode (trim_0x value)); from_slice 20 l.

(** [BlockNumber(u64)]: additions and subtractions wrap, as in the release
    profile the images are built with. *)
Abbreviation BlockNumber := Z.

Definition bn_add (n : BlockNumber) (rhs : Z) : BlockNumber := wrapping_add 64 n rhs.
Definition bn_sub (n : BlockNumber) (rhs : Z) : BlockNumber := wrapping_sub 64 n rhs.

(** [impl Display for BlockNumber] *)
Definition bn_to_string (n : BlockNumber) : string := pretty (Z.to_N n).

(** [BlockPow::into_effort] *)
Definition into_effort (pow : Hash256) : Z :=
  default 0 (checked_div (uint_max 256) (from_be pow)).

(** ** Blocks *)

Record RskBlock := mkRskBlock {
  number : BlockNumber;
  hash : Hash256;
  parent_hash : Hash256;
  timestamp : Z;
  difficulty : Z;
  total_difficulty : Z;
  pow : Hash256;
  uncles : list Hash256;
  uncles_hash : Hash256;
  miner : Address;
  state_root : Hash256;
  transactions_root : Hash256;
  receipts_root : Hash256;
  logs_bloom : bytes;
  gas_limit : bytes;
  gas_used : Z;
  extra_data : bytes;
  paid_fees : Z;
  minimum_gas_price : option Z;
  bitcoin_merged_mining_header : bytes;
  rsk_pte_edges : option (list Z)
}.

(** [RskBlock::new] *)
Definition new_block (number : BlockNumber) (hash parent_hash : Hash256) (timestamp : Z)
    (difficulty total_difficulty : Z) (pow : Hash256) (uncles : list Hash256) : RskBlock := {|
  number := number;
  hash := hash;
  parent_hash := parent_hash;
  timestamp := timestamp;
  difficulty := difficulty;
  total_difficulty := total_difficulty;
  pow := pow;
  uncles := uncles;
  uncles_hash := replicate 32 0;
  miner := replicate 20 0;
  state_root := replicate 32 0;
  transactions_root := replicate 32 0;
  receipts_root := replicate 32 0;
  logs_bloom := replicate 256 0;
  gas_limit := [0];
  gas_used := 0;
  extra_data := [];
  paid_fees := 0;
  minimum_gas_price := Some 0;
  bitcoin_merged_mining_header := replicate 80 0;
  rsk_pte_edges := None
|}.

(** [impl PartialEq for RskBlock] *)
#[export] Instance block_equiv : Equiv RskBlock := fun a b => hash a = hash b.

Record RskBlockAndUncles := mkBlockAndUncles {
  block : RskBlock;
  block_uncles : list RskBlock
}.

(** [RskBlockAndUncles::{hash, parent, number}] *)
Definition bu_hash (b : RskBlockAndUncles) : Hash256 := hash (block b).
Definition bu_parent (b : RskBlockAndUncles) : Hash256 := parent_hash (block b).
Definition bu_number (b : RskBlockAndUncles) : BlockNumber := number (block b).

(** ** Logs *)

Record LogInfo := mkLogInfo {
  address : Address;
  block_hash : Hash256;
  block_number : BlockNumber;
  tx_hash : Hash256;
  log_index : Z;
  removed : bool
}.

Record LogEvent := mkLogEvent {
  data : bytes;
  topics : list Hash256
}.

Record RskLog := mkRskLog {
  info : LogInfo;
  event : LogEvent
}.

(** ** Bitcoin transaction ids

    [TxIdParser]: the contracts write a txid in display order, the Bitcoin
    crates in internal order. *)
Definition fb_32_to_txid (tx_id : bytes) : bytes := reverse tx_id.
Definition txid_to_fb_32 (txid : bytes) : bytes := reverse txid.

(** ** Equality *)

#[export] Instance block_equivalence : Equivalence (≡@{RskBlock}).
Proof. unfold equiv, block_equiv. split; congruence. Qed.

#[export] Instance hash_proper : Proper ((≡@{RskBlock}) ==> (=)) hash.
Proof. intros a b Hab. exact Hab. Qed.

#[export] Instance LogInfo_eq_dec : EqDecision LogInfo.
Proof. solve_decision. Defined.
#[export] Instance LogEvent_eq_dec : EqDecision LogEvent.
Proof. solve_decision. Defined.
#[export] Instance RskLog_eq_dec : EqDecision RskLog.
Proof. solve_decision. Defined.
#[export] Instance RskBlock_eq_dec : EqDecision RskBlock.
Proof. solve_decision. Defined.

(** ** Textual forms are injective *)

Lemma hex_val_digit d : 0 <= d < 16 -> hex_val (hex_digit d) = Some d.
Proof.
  intros Hd. rewrite <- (Z2Nat.id d) at 2 by lia. unfold hex_digit.
  assert (Z.to_nat d < 16)%nat as Hn by lia. revert Hn. generalize (Z.to_nat d). clear.
  intros n Hn. do 16 (destruct n as [|n]; [done|]). lia.
Qed.

Lemma decode_pairs_encode i l : bytes_ok l -> decode_pairs i (hex_encode l) = Ok l.
Proof.
  intros Hl. revert i. induction Hl as [|b l Hb _ IH]; intros i; [done|].
  cbn -[hex_val hex_digit]. unfold byte_ok in Hb.
  rewrite !hex_val_digit by (split; [apply Z.div_pos || apply Z.mod_pos_bound; lia|
    apply Z.div_lt_upper_bound || apply Z.mod_pos_bound; lia]).
  cbn. rewrite IH. cbn. do 2 f_equal. pose proof (Z.div_mod b 16). lia.
Qed.

Lemma hex_encode_length l : String.length (hex_encode l) = (2 * length l)%nat.
Proof. induction l; cbn; lia. Qed.

Lemma hex_decode_encode l : bytes_ok l -> hex_decode (hex_encode l) = Ok l.
Proof.
  intros Hl. unfold hex_decode. rewrite hex_encode_length, Nat.odd_mul. cbn.
  by apply decode_pairs_encode.
Qed.

Lemma hex_digit_not_x d : hex_digit d <> "x"%char.
Proof. unfold hex_digit. by repeat case_match. Qed.

Lemma trim_0x_hex_encode l : trim_0x (hex_encode l) = hex_encode l.
Proof.
  destruct l as [|b l]; [done|]. cbn [hex_encode trim_0x].
  rewrite decide_False; [done|]. by intros [_ ?%hex_digit_not_x].
Qed.

Lemma hash_try_from_to_string h : h256_ok h -> hash_try_from (hash_to_string h) = Ok h.
Proof.
  intros [Hlen Hh]. unfold hash_try_from, hash_to_string. cbn -[hex_decode trim_0x].
  change (trim_0x _) with (trim_0x (hex_encode h)).
  rewrite trim_0x_hex_encode, hex_decode_encode by done. cbn. unfold from_slice.
  by rewrite decide_True.
Qed.

Lemma hash_to_string_inj h h' :
  bytes_ok h -> bytes_ok h' -> hash_to_string h = hash_to_string h' -> h = h'.
Proof.
  intros Hh Hh' Heq. injection Heq as Heq. change (hex_encode h = hex_encode h') in Heq.
  apply (f_equal hex_decode) in Heq. rewrite !hex_decode_encode in Heq by done. congruence.
Qed.

Lemma bn_to_string_inj n n' : 0 <= n -> 0 <= n' -> bn_to_string n = bn_to_string n' -> n = n'.
Proof. unfold bn_to_string. intros Hn Hn' Heq. apply (inj pretty) in Heq. lia. Qed.

(** ** Block number arithmetic *)

Lemma bn_add_small n k : 0 <= n -> 0 <= k -> n + k < 2 ^ 64 -> bn_add n k = n + k.
Proof. intros. apply wrapping_add_id. unfold uint. lia. Qed.

Lemma bn_sub_small n k : 0 <= k <= n -> n < 2 ^ 64 -> bn_sub n k = n - k.
Proof. intros. apply wrapping_sub_id. unfold uint. lia. Qed.
