(* ===== verification/BlockStore.v ===== *)
(** * The block store (crates/block-indexer/src/store.rs and cache.rs)

    [CachedBlockStore] keeps blocks in a key-value database behind an LRU
    cache.  [StoreModel] is what the block indexer may rely on: a best block, a
    checkpoint, blocks by hash and canonical hashes by height.  The refinement
    theorem shows that the cache is invisible: whatever it evicts, every
    successful operation acts on the model as specified. *)

From stdpp Require Import prelude gmap strings pretty.
From S2P Require Import Prelude BlockHeader Types.
Open Scope Z_scope.

(** ** The interface the indexer programs against: trait [BlockStore] *)

Class BlockStore (S : Type) := {
  get_best_block : SR S failure (option RskBlock);
  set_best_block : RskBlock -> SR S failure unit;
  get_back_sync_checkpoint : SR S failure (option RskBlock);
  set_back_sync_checkpoint : RskBlock -> SR S failure unit;
  reset_back_sync_checkpoint : SR S failure unit;
  get_block_by_hash : Hash256 -> SR S failure (option RskBlock);
  save_block : RskBlock -> SR S failure unit;
  get_canonical_block : BlockNumber -> SR S failure (option RskBlock);
  set_canonical_block : RskBlock -> SR S failure unit
}.

(** ** The abstract store *)

Record StoreModel := mkModel {
  m_best : option RskBlock;
  m_checkpoint : option RskBlock;
  m_blocks : gmap Hash256 RskBlock;
  m_canonical : gmap BlockNumber Hash256
}.

Definition empty_model : StoreModel := mkModel None None ∅ ∅.

Definition model_set_best (b : RskBlock) (m : StoreModel) : StoreModel :=
  mkModel (Some b) (m_checkpoint m) (m_blocks m) (m_canonical m).
Definition model_set_checkpoint (o : option RskBlock) (m : StoreModel) : StoreModel :=
  mkModel (m_best m) o (m_blocks m) (m_canonical m).
Definition model_save (b : RskBlock) (m : StoreModel) : StoreModel :=
  mkModel (m_best m) (m_checkpoint m) (<[hash b := b]> (m_blocks m)) (m_canonical m).
Definition model_set_canonical (b : RskBlock) (m : StoreModel) : StoreModel :=
  mkModel (m_best m) (m_checkpoint m) (m_blocks m) (<[number b := hash b]> (m_canonical m)).
Definition model_canonical (n : BlockNumber) (m : StoreModel) : option RskBlock :=
  m_canonical m !! n ≫= fun h => m_blocks m !! h.

(** What the types of a block guarantee. *)
Definition block_ok (b : RskBlock) : Prop := h256_ok (hash b) /\ uint 64 (number b).

#[export] Instance block_ok_dec b : Decision (block_ok b).
Proof. unfold block_ok. apply _. Defined.

(** The model itself, as a store that never fails. *)
Definition model_read {A} (f : StoreModel -> A) : SR StoreModel failure A := fun m => (Ok (f m), m).
Definition model_write (f : StoreModel -> StoreModel) : SR StoreModel failure unit :=
  fun m => (Ok tt, f m).

#[export] Instance model_store : BlockStore StoreModel := {|
  get_best_block := model_read m_best;
  set_best_block b := model_write (model_set_best b);
  get_back_sync_checkpoint := model_read m_checkpoint;
  set_back_sync_checkpoint b := model_write (model_set_checkpoint (Some b));
  reset_back_sync_checkpoint := model_write (model_set_checkpoint None);
  get_block_by_hash h := model_read (fun m => m_blocks m !! h);
  save_block b := model_write (model_save b);
  get_canonical_block n := model_read (model_canonical n);
  set_canonical_block b := model_write (model_set_canonical b)
|}.

(** A store promises: a successful read returns what the model says (for
    [get_canonical_block], up to the equality of blocks), a successful write
    changes the model as specified. *)
Class BlockStoreLaws (S : Type) `{BlockStore S} := {
  represents : S -> StoreModel -> Prop;
  get_best_block_law s m o s' :
    represents s m -> get_best_block s = (Ok o, s') -> o = m_best m /\ represents s' m;
  set_best_block_law s m b s' :
    represents s m -> block_ok b -> set_best_block b s = (Ok tt, s') ->
    represents s' (model_set_best b m);
  get_checkpoint_law s m o s' :
    represents s m -> get_back_sync_checkpoint s = (Ok o, s') ->
    o = m_checkpoint m /\ represents s' m;
  set_checkpoint_law s m b s' :
    represents s m -> block_ok b -> set_back_sync_checkpoint b s = (Ok tt, s') ->
    represents s' (model_set_checkpoint (Some b) m);
  reset_checkpoint_law s m s' :
    represents s m -> reset_back_sync_checkpoint s = (Ok tt, s') ->
    represents s' (model_set_checkpoint None m);
  get_block_by_hash_law s m h o s' :
    represents s m -> h256_ok h -> get_block_by_hash h s = (Ok o, s') ->
    o = m_blocks m !! h /\ represents s' m;
  save_block_law s m b s' :
    represents s m -> block_ok b -> save_block b s = (Ok tt, s') ->
    represents s' (model_save b m);
  get_canonical_block_law s m n o s' :
    represents s m -> uint 64 n -> get_canonical_block n s = (Ok o, s') ->
    o ≡ model_canonical n m /\ represents s' m;
  set_canonical_block_law s m b s' :
    represents s m -> block_ok b -> is_Some (m_blocks m !! hash b) ->
    set_canonical_block b s = (Ok tt, s') -> represents s' (model_set_canonical b m)
}.

(** Sequences of operations, on any store: what the [BlockIndexer] does to it. *)

Inductive StoreOp :=
| OpGetBest | OpSetBest (b : RskBlock)
| OpGetCheckpoint | OpSetCheckpoint (b : RskBlock) | OpResetCheckpoint
| OpGetByHash (h : Hash256) | OpSave (b : RskBlock)
| OpGetCanonical (n : BlockNumber) | OpSetCanonical (b : RskBlock).

Definition run_op `{BlockStore St} (op : StoreOp) : SR St failure (option RskBlock) :=
  let unit_op m := (_ ← m; mret None) in
  match op with
  | OpGetBest => get_best_block
  | OpSetBest b => unit_op (set_best_block b)
  | OpGetCheckpoint => get_back_sync_checkpoint
  | OpSetCheckpoint b => unit_op (set_back_sync_checkpoint b)
  | OpResetCheckpoint => unit_op reset_back_sync_checkpoint
  | OpGetByHash h => get_block_by_hash h
  | OpSave b => unit_op (save_block b)
  | OpGetCanonical n => get_canonical_block n
  | OpSetCanonical b => unit_op (set_canonical_block b)
  end.

Fixpoint run_ops `{BlockStore St} (ops : list StoreOp) : SR St failure (list (option RskBlock)) :=
  match ops with
  | [] => mret []
  | op :: ops => o ← run_op op; os ← run_ops ops; mret (o :: os)
  end.

(** A block is saved before it is made canonical. *)
Definition op_ok (op : StoreOp) (m : StoreModel) : Prop :=
  match op with
  | OpGetBest | OpGetCheckpoint | OpResetCheckpoint => True
  | OpSetBest b | OpSetCheckpoint b | OpSave b => block_ok b
  | OpGetByHash h => h256_ok h
  | OpGetCanonical n => uint 64 n
  | OpSetCanonical b => block_ok b /\ is_Some (m_blocks m !! hash b)
  end.

Fixpoint ops_ok (ops : list StoreOp) (m : StoreModel) : Prop :=
  match ops with
  | [] => True
  | op :: ops => op_ok op m /\ ops_ok ops (snd (run_op op m))
  end.

#[export] Instance op_ok_dec op m : Decision (op_ok op m).
Proof. destruct op; cbn; apply _. Defined.

#[export] Instance ops_ok_dec ops m : Decision (ops_ok ops m).
Proof. revert m. induction ops; cbn; apply _. Defined.

Lemma run_op_model op m : exists o, run_op op m = (Ok o, snd (run_op op m)).
Proof. destruct op; cbn; eauto. Qed.

Lemma run_op_refines `{BlockStoreLaws St} op s m o s' :
  represents s m -> op_ok op m -> run_op op s = (Ok o, s') ->
  exists o', fst (run_op op m) = Ok o' /\ o ≡ o' /\ represents s' (snd (run_op op m)).
Proof.
  intros Hs Hok Hr. destruct op; cbn in *; sr_inv Hr;
    try match goal with u : unit |- _ => destruct u end.
  - apply (get_best_block_law _ _ _ _ Hs) in Hr as [-> ?]. eauto.
  - apply (set_best_block_law _ _ _ _ Hs) in Hx; eauto.
  - apply (get_checkpoint_law _ _ _ _ Hs) in Hr as [-> ?]. eauto.
  - apply (set_checkpoint_law _ _ _ _ Hs) in Hx; eauto.
  - apply (reset_checkpoint_law _ _ _ Hs) in Hx; eauto.
  - apply (get_block_by_hash_law _ _ _ _ _ Hs) in Hr as [-> ?]; eauto.
  - apply (save_block_law _ _ _ _ Hs) in Hx; eauto.
  - apply (get_canonical_block_law _ _ _ _ _ Hs) in Hr as [? ?]; eauto.
  - destruct Hok. apply (set_canonical_block_law _ _ _ _ Hs) in Hx; eauto.
Qed.

(** A store that does not fail. *)
Class BlockStoreTotal (St : Type) `{BlockStoreLaws St} := {
  store_total op s m : represents s m -> op_ok op m -> exists o s', run_op op s = (Ok o, s')
}.

Section TotalStore.
Context `{BlockStoreTotal St}.

(** Each operation on such a store, as a total-correctness rule. *)
Lemma unit_op_total (m : SR St failure unit) s o s' :
  (_ ← m; mret (None : option RskBlock)) s = (Ok o, s') -> m s = (Ok tt, s').
Proof. intros Hr. sr_inv Hr. by destruct x. Qed.

Lemma wp_get_best_block s m (Q : _ -> _ -> Prop) :
  represents s m -> (forall s', represents s' m -> Q (m_best m) s') -> wp get_best_block Q s.
Proof.
  intros Hs HQ. destruct (store_total OpGetBest s m Hs I) as (o & s' & Hr).
  destruct (get_best_block_law _ _ _ _ Hs Hr) as [-> ?]. exists (m_best m), s'. auto.
Qed.

Lemma wp_get_checkpoint s m (Q : _ -> _ -> Prop) :
  represents s m -> (forall s', represents s' m -> Q (m_checkpoint m) s') ->
  wp get_back_sync_checkpoint Q s.
Proof.
  intros Hs HQ. destruct (store_total OpGetCheckpoint s m Hs I) as (o & s' & Hr).
  destruct (get_checkpoint_law _ _ _ _ Hs Hr) as [-> ?]. exists (m_checkpoint m), s'. auto.
Qed.

Lemma wp_get_canonical_block n s m (Q : _ -> _ -> Prop) :
  represents s m -> uint 64 n ->
  (forall o s', o ≡ model_canonical n m -> represents s' m -> Q o s') ->
  wp (get_canonical_block n) Q s.
Proof.
  intros Hs Hn HQ. destruct (store_total (OpGetCanonical n) s m Hs Hn) as (o & s' & Hr).
  destruct (get_canonical_block_law _ _ _ _ _ Hs Hn Hr). exists o, s'. auto.
Qed.

Lemma wp_set_best_block b s m (Q : _ -> _ -> Prop) :
  represents s m -> block_ok b -> (forall s', represents s' (model_set_best b m) -> Q tt s') ->
  wp (set_best_block b) Q s.
Proof.
  intros Hs Hb HQ. destruct (store_total (OpSetBest b) s m Hs Hb) as (o & s' & Hr%unit_op_total).
  pose proof (set_best_block_law _ _ _ _ Hs Hb Hr). exists tt, s'. auto.
Qed.

Lemma wp_set_checkpoint b s m (Q : _ -> _ -> Prop) :
  represents s m -> block_ok b ->
  (forall s', represents s' (model_set_checkpoint (Some b) m) -> Q tt s') ->
  wp (set_back_sync_checkpoint b) Q s.
Proof.
  intros Hs Hb HQ. destruct (store_total (OpSetCheckpoint b) s m Hs Hb) as (o & s' & Hr%unit_op_total).
  pose proof (set_checkpoint_law _ _ _ _ Hs Hb Hr). exists tt, s'. auto.
Qed.

Lemma wp_reset_checkpoint s m (Q : _ -> _ -> Prop) :
  represents s m -> (forall s', represents s' (model_set_checkpoint None m) -> Q tt s') ->
  wp reset_back_sync_checkpoint Q s.
Proof.
  intros Hs HQ. destruct (store_total OpResetCheckpoint s m Hs I) as (o & s' & Hr%unit_op_total).
  pose proof (reset_checkpoint_law _ _ _ Hs Hr). exists tt, s'. auto.
Qed.

Lemma wp_save_block b s m (Q : _ -> _ -> Prop) :
  represents s m -> block_ok b -> (forall s', represents s' (model_save b m) -> Q tt s') ->
  wp (save_block b) Q s.
Proof.
  intros Hs Hb HQ. destruct (store_total (OpSave b) s m Hs Hb) as (o & s' & Hr%unit_op_total).
  pose proof (save_block_law _ _ _ _ Hs Hb Hr). exists tt, s'. auto.
Qed.

Lemma wp_set_canonical_block b s m (Q : _ -> _ -> Prop) :
  represents s m -> block_ok b -> is_Some (m_blocks m !! hash b) ->
  (forall s', represents s' (model_set_canonical b m) -> Q tt s') -> wp (set_canonical_block b) Q s.
Proof.
  intros Hs Hb Hin HQ.
  destruct (store_total (OpSetCanonical b) s m Hs (conj Hb Hin)) as (o & s' & Hr%unit_op_total).
  pose proof (set_canonical_block_law _ _ _ _ Hs Hb Hin Hr). exists tt, s'. auto.
Qed.

End TotalStore.

(** The model implements itself. *)
#[export] Instance model_store_laws : BlockStoreLaws StoreModel.
Proof.
  refine {| represents s m := s = m |}; intros s m *; intros; cbn in *;
    unfold model_read, model_write in *; simplify_eq; eauto.
Defined.

#[export] Instance model_store_total : BlockStoreTotal StoreModel.
Proof. split. intros op s m _ _. destruct op; cbn; eauto. Qed.

Lemma run_ops_refines `{BlockStoreLaws St} ops s m os s' :
  represents s m -> ops_ok ops m -> run_ops ops s = (Ok os, s') ->
  exists os' m', run_ops ops m = (Ok os', m') /\ os ≡ os' /\ represents s' m'.
Proof.
  revert s m os. induction ops as [|op ops IH]; intros s m os Hs Hok Hr; cbn in Hr; sr_inv Hr.
  { by exists [], m. }
  destruct Hok as [Hop Hok].
  destruct (run_op_refines _ _ _ _ _ Hs Hop Hx) as (o' & Ho' & Hoo & Hs1).
  destruct (IH _ _ _ Hs1 Hok Hx0) as (os' & m' & Hos' & Heq & Hs').
  exists (o' :: os'), m'. split; [|split; [by constructor|done]].
  destruct (run_op op m) as [r m1] eqn:E. cbn in *. subst r.
  unfold mbind, SR_bind. by rewrite E, Hos'.
Qed.

(** ** cache.rs

    [lru::LruCache] is a third-party crate: [InnerLru] is the part in use. *)

Class InnerLru (C V : Type) := {
  lru_get : string -> C -> option V * C;
  lru_put : string -> V -> C -> option V * C;
  lru_pop : string -> C -> option V * C
}.

(** An LRU cache holds entries that were put and not overwritten, popped or
    evicted; the last put is present, and a read evicts nothing. *)
Class InnerLruLaws (C V : Type) `{InnerLru C V} := {
  lru_view : C -> gmap string V;
  lru_get_spec k c : fst (lru_get k c) = lru_view c !! k /\ lru_view (snd (lru_get k c)) = lru_view c;
  lru_put_spec k v c :
    lru_view (snd (lru_put k v c)) !! k = Some v /\
    forall k' v', k' <> k -> lru_view (snd (lru_put k v c)) !! k' = Some v' ->
      lru_view c !! k' = Some v';
  lru_pop_spec k c :
    fst (lru_pop k c) = lru_view c !! k /\ lru_view (snd (lru_pop k c)) = delete k (lru_view c)
}.

(** trait [Cache] *)
Class Cache (C V : Type) := {
  cache_get : string -> SR C failure (option V);
  cache_insert : string -> V -> SR C failure (option V);
  cache_remove : string -> SR C failure (option V)
}.

(** The [RwLock] is poisoned when a holder has panicked. *)
Record LruCache (C : Type) := mkLruCache { poisoned : bool; inner : C }.
Arguments mkLruCache {C}.
Arguments poisoned {C}.
Arguments inner {C}.

Section Lru.
Context `{InnerLru C V}.

(** [self.inner.write().map_err(..)?] followed by one operation. *)
Definition with_write_lock {A} (op : C -> A * C) : SR (LruCache C) failure A :=
  fun c => if poisoned c then (Err (Anyhow ["Failed to acquire write lock on cache"]), c)
           else let '(a, i) := op (inner c) in (Ok a, mkLruCache (poisoned c) i).

Definition LruCache_get (key : string) : SR (LruCache C) failure (option V) :=
  with_write_lock (lru_get key).
Definition LruCache_insert (key : string) (value : V) : SR (LruCache C) failure (option V) :=
  with_write_lock (lru_put key value).
Definition LruCache_remove (key : string) : SR (LruCache C) failure (option V) :=
  with_write_lock (lru_pop key).

#[export] Instance lru_cache : Cache (LruCache C) V := {|
  cache_get := LruCache_get; cache_insert := LruCache_insert; cache_remove := LruCache_remove |}.

End Lru.

(** ** The database: [storage_backend::KeyValueStore]

    Values are written as JSON; a typed read decodes what was written. *)

Inductive StoreValue := StBlock (b : RskBlock) | StString (s : string).

Class Storage (D : Type) := {
  db_get_block : string -> SR D failure (option RskBlock);
  db_get_hash : string -> SR D failure (option Hash256);
  db_set : string -> StoreValue -> SR D failure unit;
  db_delete : string -> SR D failure unit
}.

Class StorageLaws (D : Type) `{Storage D} := {
  db_view : D -> gmap string StoreValue;
  db_get_block_spec k d o d' : db_get_block k d = (Ok o, d') ->
    db_view d' = db_view d /\ StBlock <$> o = db_view d !! k;
  db_get_hash_spec k d o d' : db_get_hash k d = (Ok o, d') ->
    db_view d' = db_view d /\
    match db_view d !! k with
    | None => o = None
    | Some v => forall h, h256_ok h -> v = StString (hash_to_string h) -> o = Some h
    end;
  db_set_spec k v d d' : db_set k v d = (Ok tt, d') -> db_view d' = <[k := v]> (db_view d);
  db_delete_spec k d d' : db_delete k d = (Ok tt, d') -> db_view d' = delete k (db_view d)
}.

(** ** store.rs *)

Inductive StoreKey :=
| BlockByHash (block_hash : Hash256)
| BlockByNumber (block_height : BlockNumber)
| BestBlock
| BackSyncCheckpoint.

Definition value (k : StoreKey) : string :=
  match k with
  | BlockByHash block_hash => "block/hash/" +:+ hash_to_string block_hash
  | BlockByNumber block_height => "block/height/" +:+ bn_to_string block_height
  | BestBlock => "meta/best_block"
  | BackSyncCheckpoint => "meta/tmp_back_sync_checkpoint"
  end.

#[global] Arguments value : simpl never.

#[export] Instance StoreKey_eq_dec : EqDecision StoreKey.
Proof. solve_decision. Defined.

Record CachedBlockStore (C D : Type) := mkStore { db : D; block_cache : C }.
Arguments mkStore {C D}.
Arguments db {C D}.
Arguments block_cache {C D}.

Module Cached.
Section Operations.
Context `{Storage D, Cache C RskBlock}.

Definition on_cache {A} (m : SR C failure A) : SR (CachedBlockStore C D) failure A :=
  zoom block_cache (fun c s => mkStore (db s) c) m.
Definition on_db {A} (m : SR D failure A) : SR (CachedBlockStore C D) failure A :=
  zoom db (fun d s => mkStore d (block_cache s)) m.

Definition save_to_cache (key : string) (v : RskBlock) := on_cache (cache_insert key v).
Definition get_from_cache (key : string) := on_cache (cache_get key).

(** [if let Some(cached) = self.get_from_cache(&key)? { return Ok(Some(cached)) }],
    then the database, filling the cache. *)
Definition cached_block (key : string) : SR (CachedBlockStore C D) failure (option RskBlock) :=
  cached ← get_from_cache key;
  match cached with
  | Some b => mret (Some b)
  | None =>
      db_block ← on_db (db_get_block key);
      match db_block with
      | Some b => _ ← save_to_cache key b; mret (Some b)
      | None => mret None
      end
  end.

Definition get_best_block : SR (CachedBlockStore C D) failure (option RskBlock) :=
  cached_block (value BestBlock).

Definition set_best_block (v : RskBlock) : SR (CachedBlockStore C D) failure unit :=
  _ ← save_to_cache (value BestBlock) v; on_db (db_set (value BestBlock) (StBlock v)).

Definition get_back_sync_checkpoint : SR (CachedBlockStore C D) failure (option RskBlock) :=
  on_db (db_get_block (value BackSyncCheckpoint)).

Definition set_back_sync_checkpoint (v : RskBlock) : SR (CachedBlockStore C D) failure unit :=
  on_db (db_set (value BackSyncCheckpoint) (StBlock v)).

Definition reset_back_sync_checkpoint : SR (CachedBlockStore C D) failure unit :=
  on_db (db_delete (value BackSyncCheckpoint)).

Definition get_block_by_hash (h : Hash256) : SR (CachedBlockStore C D) failure (option RskBlock) :=
  cached_block (value (BlockByHash h)).

Definition save_block (v : RskBlock) : SR (CachedBlockStore C D) failure unit :=
  let key := value (BlockByHash (hash v)) in
  _ ← save_to_cache key v; on_db (db_set key (StBlock v)).

Definition get_canonical_block (block_height : BlockNumber)
    : SR (CachedBlockStore C D) failure (option RskBlock) :=
  let key := value (BlockByNumber block_height) in
  cached ← get_from_cache key;
  match cached with
  | Some b => mret (Some b)
  | None =>
      block_hash ← on_db (db_get_hash key);
      match block_hash with
      | None => mret None
      | Some h =>
          db_block ← get_block_by_hash h;
          match db_block with
          | None => mret None
          | Some b => _ ← save_to_cache key b; mret (Some b)
          end
      end
  end.

Definition set_canonical_block (b : RskBlock) : SR (CachedBlockStore C D) failure unit :=
  let key := value (BlockByNumber (number b)) in
  _ ← save_to_cache key b; on_db (db_set key (StString (hash_to_string (hash b)))).

End Operations.
End Cached.

(** [impl BlockStore for CachedBlockStore] *)
#[export] Instance cached_block_store `{Storage D, Cache C RskBlock} : BlockStore (CachedBlockStore C D) := {|
  get_best_block := context "Error getting best block from store" Cached.get_best_block;
  set_best_block b := context "Error setting best block in store" (Cached.set_best_block b);
  get_back_sync_checkpoint :=
    context "Error getting back sync checkpoint from store" Cached.get_back_sync_checkpoint;
  set_back_sync_checkpoint b :=
    context "Error setting back sync checkpoint in store" (Cached.set_back_sync_checkpoint b);
  reset_back_sync_checkpoint :=
    context "Error resetting back sync checkpoint" Cached.reset_back_sync_checkpoint;
  get_block_by_hash h := context "Error getting getting block" (Cached.get_block_by_hash h);
  save_block b := context "Error saving block to store" (Cached.save_block b);
  get_canonical_block n := context "Error getting canonical block for height" (Cached.get_canonical_block n);
  set_canonical_block b := context "Error setting canonical block for height" (Cached.set_canonical_block b)
|}.

(** ** Keys *)

Definition key_ok (k : StoreKey) : Prop :=
  match k with BlockByHash h => h256_ok h | BlockByNumber n => uint 64 n | _ => True end.

#[export] Instance key_ok_dec k : Decision (key_ok k).
Proof. destruct k; cbn; apply _. Defined.

Lemma value_inj k k' : key_ok k -> key_ok k' -> value k = value k' -> k = k'.
Proof.
  destruct k as [h|n| |], k' as [h'|n'| |]; intros Hk Hk' Hv; try done; try discriminate Hv.
  - f_equal. destruct Hk as [? ?], Hk' as [? ?].
    apply hash_to_string_inj; [done..|]. injection Hv as Hv. unfold hash_to_string. by f_equal.
  - f_equal. apply bn_to_string_inj; [apply Hk|apply Hk'|]. by injection Hv as Hv.
Qed.

(** The database keys of two different records never collide: blocks by
    hash, canonical hashes by height and the two metadata entries are disjoint,
    for all 32-byte hashes and 64-bit heights. *)
Theorem store_keys_injective k k' : key_ok k -> key_ok k' -> value k = value k' -> k = k'.
Proof. apply value_inj. Qed.

Lemma store_keys_injective_witness :
  BlockByNumber 10 = BlockByNumber 10 /\ value (BlockByNumber 10) <> value (BlockByNumber 100).
Proof.
  split; [apply store_keys_injective; [by_decide..|reflexivity]|by vm_compute].
Defined.

(** ** What a cache promises *)

Class CacheLaws (C V : Type) `{Cache C V} := {
  cache_view : C -> gmap string V;
  cache_get_law k c o c' : cache_get k c = (Ok o, c') ->
    o = cache_view c !! k /\ cache_view c' = cache_view c;
  cache_insert_law k v c o c' : cache_insert k v c = (Ok o, c') ->
    cache_view c' !! k = Some v /\
    forall k' v', k' <> k -> cache_view c' !! k' = Some v' -> cache_view c !! k' = Some v'
}.

Lemma with_write_lock_ok {C A} (op : C -> A * C) c a c' :
  with_write_lock op c = (Ok a, c') ->
  poisoned c = false /\ a = fst (op (inner c)) /\ inner c' = snd (op (inner c)).
Proof.
  unfold with_write_lock. destruct (poisoned c) eqn:E; [done|].
  destruct (op (inner c)) as [x i]. by intros [= <- <-].
Qed.

#[export] Instance lru_cache_laws `{InnerLruLaws C V} : CacheLaws (LruCache C) V.
Proof.
  refine {| cache_view c := lru_view (inner c) |}.
  - intros k c o c' (_ & -> & ->)%with_write_lock_ok. by destruct (lru_get_spec k (inner c)).
  - intros k v c o c' (_ & -> & ->)%with_write_lock_ok. apply lru_put_spec.
Defined.

(** ** Refinement *)

Section Refinement.
Context `{StorageLaws D, CacheLaws C RskBlock}.

(** The database holds the model, the cache a part of it. *)
Record cached_represents (s : CachedBlockStore C D) (m : StoreModel) : Prop := {
  db_best : db_view (db s) !! value BestBlock = StBlock <$> m_best m;
  db_checkpoint : db_view (db s) !! value BackSyncCheckpoint = StBlock <$> m_checkpoint m;
  db_blocks h : h256_ok h -> db_view (db s) !! value (BlockByHash h) = StBlock <$> m_blocks m !! h;
  db_canonical n : uint 64 n -> db_view (db s) !! value (BlockByNumber n) =
    StString ∘ hash_to_string <$> m_canonical m !! n;
  cache_best b : cache_view (block_cache s) !! value BestBlock = Some b -> m_best m = Some b;
  cache_blocks h b : h256_ok h ->
    cache_view (block_cache s) !! value (BlockByHash h) = Some b -> m_blocks m !! h = Some b;
  cache_canonical n b : uint 64 n ->
    cache_view (block_cache s) !! value (BlockByNumber n) = Some b ->
    m_canonical m !! n = Some (hash b);
  model_hash h b : m_blocks m !! h = Some b -> hash b = h;
  model_canonical_saved n h : m_canonical m !! n = Some h -> h256_ok h /\ is_Some (m_blocks m !! h)
}.

Lemma value_ne k k' : key_ok k -> key_ok k' -> k <> k' -> value k <> value k'.
Proof. intros Hk Hk' Hne Hv. by apply Hne, value_inj. Qed.

Lemma same_views_represents s s' m :
  cached_represents s m -> db_view (db s') = db_view (db s) ->
  cache_view (block_cache s') = cache_view (block_cache s) -> cached_represents s' m.
Proof. intros [] Hd Hc. split; rewrite ?Hd, ?Hc; eauto. Qed.

Lemma get_from_cache_ok key s o s' :
  Cached.get_from_cache (D := D) key s = (Ok o, s') ->
  o = cache_view (block_cache s) !! key /\ db s' = db s /\
  cache_view (block_cache s') = cache_view (block_cache s).
Proof.
  unfold Cached.get_from_cache, Cached.on_cache. intros Hr. sr_inv Hr.
  by destruct (cache_get_law _ _ _ _ Hr) as [-> Hv].
Qed.

Lemma save_to_cache_ok k b s o s' :
  key_ok k -> Cached.save_to_cache (D := D) (value k) b s = (Ok o, s') ->
  db s' = db s /\
  forall k' v, key_ok k' -> cache_view (block_cache s') !! value k' = Some v ->
    k = k' /\ v = b \/ k <> k' /\ cache_view (block_cache s) !! value k' = Some v.
Proof.
  unfold Cached.save_to_cache, Cached.on_cache. intros Hk Hr. sr_inv Hr. cbn.
  destruct (cache_insert_law _ _ _ _ _ Hr) as [Hnew Hold]. split; [done|].
  intros k' v Hk' Hin. destruct (decide (value k' = value k)) as [E|E];
    [left|right; split; [congruence|eauto]].
  rewrite E in Hin. split; [symmetry; by apply value_inj|congruence].
Qed.

Lemma db_set_ok k v s s' :
  key_ok k -> Cached.on_db (C := C) (db_set (value k) v) s = (Ok tt, s') ->
  block_cache s' = block_cache s /\
  forall k', key_ok k' ->
    db_view (db s') !! value k' = if decide (k = k') then Some v else db_view (db s) !! value k'.
Proof.
  unfold Cached.on_db. intros Hk Hr. sr_inv Hr. cbn. split; [done|]. intros k' Hk'.
  rewrite (db_set_spec _ _ _ _ Hr). case_decide as E; [subst; apply lookup_insert_eq|].
  apply lookup_insert_ne. by apply value_ne.
Qed.

(** Caching what the model holds keeps the representation. *)
Lemma save_to_cache_represents k b s o s' m :
  cached_represents s m -> key_ok k ->
  match k with
  | BlockByHash h => m_blocks m !! h = Some b
  | BlockByNumber n => m_canonical m !! n = Some (hash b)
  | BestBlock => m_best m = Some b
  | BackSyncCheckpoint => True
  end ->
  Cached.save_to_cache (D := D) (value k) b s = (Ok o, s') -> cached_represents s' m.
Proof.
  intros [] Hk Hb [Hdb Hv]%save_to_cache_ok; [|done].
  split; rewrite ?Hdb; eauto.
  - intros b' Hin. destruct (Hv BestBlock b' I Hin) as [[-> ->]|[_ ?]]; eauto.
  - intros h b' Hh Hin. destruct (Hv (BlockByHash h) b' Hh Hin) as [[-> ->]|[_ ?]]; eauto.
  - intros n b' Hn Hin. destruct (Hv (BlockByNumber n) b' Hn Hin) as [[-> ->]|[_ ?]]; eauto.
Qed.

(** The state after writing [b] through the cache and [v] to the database. *)
Lemma write_through_ok k b v s u s' :
  key_ok k ->
  (_ ← Cached.save_to_cache (D := D) (value k) b; Cached.on_db (db_set (value k) v)) s = (Ok u, s') ->
  (forall k', key_ok k' ->
    db_view (db s') !! value k' = if decide (k = k') then Some v else db_view (db s) !! value k') /\
  (forall k' w, key_ok k' -> cache_view (block_cache s') !! value k' = Some w ->
    k = k' /\ w = b \/ k <> k' /\ cache_view (block_cache s) !! value k' = Some w).
Proof.
  intros Hk Hr. apply SR_bind_ok in Hr as (x & s1 & Hx & Hr). destruct u.
  apply save_to_cache_ok in Hx as [Hdb Hv]; [|done].
  apply db_set_ok in Hr as [-> Hd]; [|done]. by rewrite Hdb in Hd.
Qed.

Lemma cached_block_ok k s m o s' ob :
  cached_represents s m -> key_ok k ->
  match k with
  | BlockByHash h => ob = m_blocks m !! h
  | BestBlock => ob = m_best m
  | _ => False
  end ->
  Cached.cached_block (value k) s = (Ok o, s') -> o = ob /\ cached_represents s' m.
Proof.
  intros Hs Hk Hob Hr. unfold Cached.cached_block in Hr.
  apply SR_bind_ok in Hr as (c & s1 & (-> & Hdb & Hcv)%get_from_cache_ok & Hr).
  assert (Hs1 : cached_represents s1 m) by (eapply same_views_represents; [exact Hs|by rewrite Hdb|done]).
  destruct (cache_view (block_cache s) !! value k) as [b|] eqn:E.
  - sr_inv Hr. split; [|done]. destruct Hs, k; try done; subst ob; symmetry; eauto.
  - apply SR_bind_ok in Hr as (d & s2 & Hd & Hr). unfold Cached.on_db in Hd. sr_inv Hd.
    destruct (db_get_block_spec _ _ _ _ Hd) as [Hview Hval].
    assert (Hs2 : cached_represents (mkStore s0 (block_cache s1)) m)
      by (eapply same_views_represents; [exact Hs1|done..]).
    assert (Ho : d = ob).
    { rewrite Hdb in Hval. destruct Hs, k; try done; subst ob; cbn in Hk.
      - rewrite db_blocks0 in Hval by done. by destruct d, (m_blocks m !! _); simplify_eq/=.
      - rewrite db_best0 in Hval. by destruct d, (m_best m); simplify_eq/=. }
    subst d. destruct ob as [b|]; [|by sr_inv Hr].
    apply SR_bind_ok in Hr as (? & s3 & Hsave & Hr). sr_inv Hr. split; [done|].
    eapply save_to_cache_represents; [exact Hs2|exact Hk| |exact Hsave]. by destruct k.
Qed.

Lemma get_canonical_block_ok n s m o s' :
  cached_represents s m -> uint 64 n -> Cached.get_canonical_block n s = (Ok o, s') ->
  o ≡ model_canonical n m /\ cached_represents s' m.
Proof.
  intros Hs Hn Hr. unfold Cached.get_canonical_block in Hr.
  apply SR_bind_ok in Hr as (c & s1 & (-> & Hdb & Hcv)%get_from_cache_ok & Hr).
  assert (Hs1 : cached_represents s1 m) by (eapply same_views_represents; [exact Hs|by rewrite Hdb|done]).
  unfold model_canonical.
  destruct (cache_view (block_cache s) !! _) as [b|] eqn:E.
  - sr_inv Hr. split; [|done]. destruct Hs.
    pose proof (cache_canonical0 _ _ Hn E) as Hc. rewrite Hc. cbn.
    destruct (model_canonical_saved0 _ _ Hc) as [_ [b' Hb']]. rewrite Hb'.
    constructor. symmetry. by apply model_hash0.
  - apply SR_bind_ok in Hr as (d & s2 & Hd & Hr). unfold Cached.on_db in Hd. sr_inv Hd.
    destruct (db_get_hash_spec _ _ _ _ Hd) as [Hview Hval].
    rewrite (db_canonical _ _ Hs1) in Hval by done.
    assert (Hs2 : cached_represents (mkStore s0 (block_cache s1)) m)
      by (eapply same_views_represents; [exact Hs1|done..]).
    destruct (m_canonical m !! n) as [h|] eqn:Hc; cbn in Hval; [|subst d; by sr_inv Hr].
    destruct (model_canonical_saved _ _ Hs2 _ _ Hc) as [Hh [b' Hb']].
    rewrite (Hval h Hh eq_refl) in Hr.
    apply SR_bind_ok in Hr as (ob & s3 & Hget & Hr).
    apply (cached_block_ok (BlockByHash h) _ m _ _ (m_blocks m !! h)) in Hget as [-> Hs3]; [|done..]. cbn.
    rewrite Hb' in *. apply SR_bind_ok in Hr as (? & s4 & Hsave & Hr). sr_inv Hr.
    split; [done|]. eapply (save_to_cache_represents (BlockByNumber n)); [exact Hs3|done| |exact Hsave].
    cbn. rewrite Hc. f_equal. symmetry. by apply (model_hash _ _ Hs3).
Qed.

(** Closes the clauses of [cached_represents] after a write: reads of the
    written key see the new value, all others the old one. *)
Ltac written Hd Hc :=
  split; cbn; intros;
  repeat match goal with
  | |- context [db_view _ !! value _] => rewrite Hd by done; case_decide; simplify_eq/=
  | H : cache_view _ !! value _ = Some _ |- _ =>
      apply Hc in H as [[? ?]|[? H]]; [| |done]; simplify_eq/=; clear Hc
  end; eauto.

Lemma set_best_block_ok b s m s' :
  cached_represents s m -> Cached.set_best_block b s = (Ok tt, s') ->
  cached_represents s' (model_set_best b m).
Proof. intros [] [Hd Hc]%(write_through_ok BestBlock); [|done]. written Hd Hc. Qed.

Lemma save_block_ok b s m s' :
  cached_represents s m -> block_ok b -> Cached.save_block b s = (Ok tt, s') ->
  cached_represents s' (model_save b m).
Proof.
  intros [] [Hh Hn] [Hd Hc]%(write_through_ok (BlockByHash (hash b))); [|done].
  written Hd Hc;
    try match goal with h : list Z |- _ => destruct (decide (hash b = h)) end;
    simplify_map_eq; eauto.
  all: edestruct model_canonical_saved0; eauto.
Qed.

Lemma set_canonical_block_ok b s m s' :
  cached_represents s m -> block_ok b -> is_Some (m_blocks m !! hash b) ->
  Cached.set_canonical_block b s = (Ok tt, s') ->
  cached_represents s' (model_set_canonical b m).
Proof.
  intros [] [Hh Hn] Hsaved [Hd Hc]%(write_through_ok (BlockByNumber (number b))); [|done].
  written Hd Hc; try (destruct (decide (number b = n))); simplify_map_eq; eauto.
Qed.

Lemma set_checkpoint_ok b s m s' :
  cached_represents s m -> Cached.set_back_sync_checkpoint b s = (Ok tt, s') ->
  cached_represents s' (model_set_checkpoint (Some b) m).
Proof.
  intros [] [Hc Hd]%(db_set_ok BackSyncCheckpoint); [|done].
  split; cbn; rewrite ?Hc; intros; rewrite ?Hd by done; try case_decide; simplify_eq/=; eauto.
Qed.

Lemma reset_checkpoint_ok s m s' :
  cached_represents s m -> Cached.reset_back_sync_checkpoint s = (Ok tt, s') ->
  cached_represents s' (model_set_checkpoint None m).
Proof.
  intros [] Hr. unfold Cached.reset_back_sync_checkpoint, Cached.on_db in Hr. sr_inv Hr.
  apply db_delete_spec in Hr.
  split; cbn; intros; rewrite ?Hr, ?lookup_delete_eq; eauto;
    rewrite lookup_delete_ne by (by apply value_ne); eauto.
Qed.

(** [CachedBlockStore] refines [StoreModel]. *)
#[export] Instance cached_block_store_laws : BlockStoreLaws (CachedBlockStore C D).
Proof.
  refine {| represents := cached_represents |}; intros s m *.
  - intros Hs Hr%context_ok. by apply (cached_block_ok BestBlock s m).
  - intros Hs _ Hr%context_ok. by eapply set_best_block_ok.
  - intros Hs Hr%context_ok. unfold Cached.get_back_sync_checkpoint, Cached.on_db in Hr. sr_inv Hr.
    destruct (db_get_block_spec _ _ _ _ Hr) as [Hv Ho]. rewrite (db_checkpoint _ _ Hs) in Ho.
    split; [by destruct o, (m_checkpoint m); simplify_eq/=|].
    by eapply same_views_represents.
  - intros Hs _ Hr%context_ok. by eapply set_checkpoint_ok.
  - intros Hs Hr%context_ok. by eapply reset_checkpoint_ok.
  - intros Hs Hh Hr%context_ok. by apply (cached_block_ok (BlockByHash h) s m).
  - intros Hs Hb Hr%context_ok. by eapply save_block_ok.
  - intros Hs Hn Hr%context_ok. by eapply get_canonical_block_ok.
  - intros Hs Hb Hsaved Hr%context_ok. by eapply set_canonical_block_ok.
Defined.

End Refinement.

(** ** Concrete instances: a one-entry LRU cache and an in-memory database *)

Module Memory.

#[export] Instance one_entry_lru {V} : InnerLru (option (string * V)) V :=
  let get k (c : option (string * V)) :=
    match c with Some (k', v) => if decide (k = k') then Some v else None | None => None end in
  {| lru_get k c := (get k c, c);
     lru_put k v c := (get k c, Some (k, v));
     lru_pop k c := (get k c, match get k c with Some _ => None | None => c end) |}.

#[export] Instance one_entry_lru_laws {V} : InnerLruLaws (option (string * V)) V.
Proof.
  refine {| lru_view c := match c with Some (k, v) => {[ k := v ]} | None => ∅ end |}.
  - intros k [[k' v]|]; cbn; [|done]. case_decide; simplify_map_eq; done.
  - intros k v c. cbn. split; [by simplify_map_eq|]. intros k' v' ? ?. by simplify_map_eq.
  - intros k [[k' v]|]; cbn; [|by rewrite delete_empty]. case_decide as E; cbn; simplify_map_eq; split; try done.
    + symmetry. apply delete_singleton_eq.
    + symmetry. by apply delete_singleton_ne.
Defined.

Abbreviation Db := (gmap string StoreValue).

#[export] Instance memory_db : Storage Db := {|
  db_get_block k d :=
    (match d !! k with
     | Some (StBlock b) => Ok (Some b)
     | Some (StString _) => Err (Anyhow ["deserialization"])
     | None => Ok None
     end, d);
  db_get_hash k d :=
    (match d !! k with
     | Some (StString s) => Some <$> hash_try_from s
     | Some _ => Err (Anyhow ["deserialization"])
     | None => Ok None
     end, d);
  db_set k v d := (Ok tt, <[k := v]> d);
  db_delete k d := (Ok tt, delete k d)
|}.

#[export] Instance memory_db_laws : StorageLaws Db.
Proof.
  refine {| db_view d := d |}.
  - intros k d o d' ?. simplify_eq/=. by repeat branch.
  - intros k d o d' ?. simplify_eq/=. split; [done|]. repeat branch; try congruence.
    intros h Hh Heq. injection Heq as ->. rewrite hash_try_from_to_string in * by done. by simplify_eq/=.
  - intros k v d d' ?. by simplify_eq/=.
  - intros k d d' ?. by simplify_eq/=.
Defined.

Definition empty_store : CachedBlockStore (LruCache (option (string * RskBlock))) Db :=
  mkStore ∅ (mkLruCache false None).

Definition sample_block (n : Z) : RskBlock :=
  new_block n (replicate 31 7 ++ [n]) (replicate 31 7 ++ [n - 1]) (30 * n) 1 n (replicate 32 1) [].

Definition sample_ops : list StoreOp := Eval vm_compute in
  let b1 := sample_block 1 in let b2 := sample_block 2 in
  [OpSave b1; OpSave b2; OpSetCanonical b1; OpSetCanonical b2; OpSetBest b2; OpGetCanonical 1;
   OpGetByHash (hash b2); OpSetCheckpoint b1; OpGetCheckpoint; OpResetCheckpoint; OpGetBest].

End Memory.

(** C34: For every cache that holds a part of what was inserted (an LRU cache of
    any size) and every database, any sequence of store operations that
    succeeds returns what the abstract store returns for that sequence (blocks
    compared as the code compares them, by hash) and ends in a store that
    represents the abstract one, provided blocks are saved before they are made
    canonical. *)
Theorem cached_store_refines_model
    `{StorageLaws D, InnerLruLaws C RskBlock} (ops : list StoreOp)
    (s : CachedBlockStore (LruCache C) D) (m : StoreModel) os s' :
  represents s m -> ops_ok ops m -> run_ops ops s = (Ok os, s') ->
  exists os' m', run_ops ops m = (Ok os', m') /\ os ≡ os' /\ represents s' m'.
Proof. apply run_ops_refines. Qed.

Import Memory.

Lemma empty_store_represents : represents Memory.empty_store empty_model.
Proof. by split; intros; simplify_map_eq. Qed.

Lemma cached_store_refines_model_witness :
  exists os s' os' m', run_ops Memory.sample_ops Memory.empty_store = (Ok os, s') /\
    run_ops Memory.sample_ops empty_model = (Ok os', m') /\ os ≡ os' /\ represents s' m'.
Proof.
  destruct (run_ops Memory.sample_ops Memory.empty_store) as [[os|e] s'] eqn:E.
  - destruct (cached_store_refines_model Memory.sample_ops Memory.empty_store empty_model os s')
      as (os' & m' & ? & ? & ?); [apply empty_store_represents|by_decide|exact E|].
    exists os, s', os', m'. auto.
  - exfalso. assert (Hok : is_ok (fst (run_ops Memory.sample_ops Memory.empty_store)) = true)
      by (vm_compute; reflexivity).
    rewrite E in Hok. discriminate Hok.
Defined.
