(* ===== verification/Provider.v ===== *)
(** * The Rootstock node as the indexers see it
    (crates/common/rsk/src/rsk_provider.rs, crates/common/runtime/src/shutdown_flag.rs)

    [RskProvider] is the trait the indexers are generic in.  A node, its
    subscriptions and the process's shutdown flag are one environment whose
    state may change at every call: between two calls the node may reorganise,
    and a signal may arrive. *)

From stdpp Require Import prelude gmap strings.
From S2P Require Import Prelude BlockHeader Types.
Open Scope Z_scope.

Inductive RskSubscriptionError :=
| ClosedConnection
| Lagged (n : Z)
| Transient (msg : string)
| Unexpected (e : failure).

Record RskSubscriptionFilter := mkFilter {
  addresses : list Address;
  filter_topics : list string;
  from_block : option BlockNumber
}.

(** traits [RskProvider] and [RskSubscription], with [ShutdownFlag::is_on] *)
Class RskProvider (P : Type) := {
  provider_best_block : SR P failure RskBlock;
  provider_block_by_hash : Hash256 -> SR P failure (option RskBlock);
  provider_block_by_number : BlockNumber -> SR P failure (option RskBlock);
  provider_uncle : Hash256 -> Z -> SR P failure (option RskBlock);
  provider_logs : BlockNumber -> BlockNumber -> list Address -> SR P failure (list RskLog);
  subscribe_blocks : SR P failure unit;
  next_block : SR P RskSubscriptionError RskBlock;
  unsubscribe_blocks : SR P failure unit;
  subscribe_logs : RskSubscriptionFilter -> SR P failure unit;
  next_log : SR P RskSubscriptionError RskLog;
  unsubscribe_logs : SR P failure unit;
  is_on : P -> bool * P
}.

(** ** Where an indexer starts *)

Inductive IndexerStartFrom := StartHash | StartBest.

Record SyncConfig := mkSyncConfig { finality_depth : Z; batch_size : Z }.

Record IndexerConfig := mkIndexerConfig {
  start_from : IndexerStartFrom;
  initial_block_hash_cfg : option string;
  sync : SyncConfig
}.

Definition resolve_initial_block `{RskProvider P} (config : IndexerConfig) : SR P failure RskBlock :=
  match start_from config with
  | StartHash =>
      hash_from_cfg ←
        opt_context "Missing indexer.initial_block_hash when indexer.start_from is 'hash'"
          (initial_block_hash_cfg config);
      initial_block_hash ← context "Invalid initial block hash" (slift (hash_try_from hash_from_cfg));
      block ← context "Failed to get initial block by hash" (provider_block_by_hash initial_block_hash);
      opt_context "Initial block not found on provider" block
  | StartBest =>
      context "Failed to get best block for start_from='best'" provider_best_block
  end.

(** ** The state an indexer acts on

    Its store, the node with the shutdown flag, the messages sent on the channel
    and whether the channel's receiver still exists. *)

Record World (St P M : Type) := mkWorld {
  w_store : St;
  w_env : P;
  w_sent : list M;
  w_receiver : bool
}.
Arguments mkWorld {St P M}.
Arguments w_store {St P M}.
Arguments w_env {St P M}.
Arguments w_sent {St P M}.
Arguments w_receiver {St P M}.

Section World.
Context {St M : Type} `{RskProvider P}.
Abbreviation W := (World St P M).

Definition on_store {A} (m : SR St failure A) : SR W failure A :=
  zoom w_store (fun s w => mkWorld s (w_env w) (w_sent w) (w_receiver w)) m.
Definition on_env {E A} (m : SR P E A) : SR W E A :=
  zoom w_env (fun p w => mkWorld (w_store w) p (w_sent w) (w_receiver w)) m.

(** [channel.send] fails exactly when the receiver is gone. *)
Definition send (msg : M) : SR W failure unit :=
  smodify (fun w => if w_receiver w
                    then mkWorld (w_store w) (w_env w) (w_sent w ++ [msg]) (w_receiver w) else w).

Definition is_running : SR W failure bool :=
  on_env (fun p => let '(on, p') := is_on p in (Ok (negb on), p')).

End World.
