(* ===== verification/BlockIndexer.v ===== *)
(** * The block indexer (crates/block-indexer/src/indexer.rs)

    [BlockIndexer] keeps a local copy of the node's canonical chain: it walks
    backwards from the node's best block until it meets the local chain
    ([backward_sync]), then follows new blocks ([listen_blocks]), and sends every
    new canonical block to its consumers.  The store and the node are used
    through their interfaces only. *)

From stdpp Require Import prelude gmap strings.
From S2P Require Import Prelude BlockHeader Types BlockStore Provider.
Open Scope Z_scope.

(** The constant fields of [BlockIndexer]. *)
Record BlockIndexer := mkBlockIndexer {
  new_block_sender : bool;
  indexer_start_from : IndexerStartFrom;
  initial_block_hash : Hash256
}.

Section Indexer.
Context `{BlockStore St, RskProvider P}.
Abbreviation W := (World St P RskBlockAndUncles).
Variable self : BlockIndexer.

Definition get_initial_block : SR W failure RskBlock :=
  fun w =>
    match on_env (provider_block_by_hash (initial_block_hash self)) w with
    | (Ok (Some b), w') => (Ok b, w')
    | (Ok None, w') => (Err (Panic "Precondition failed: initial block not found"), w')
    | (Err _, w') => (Err (Panic "Precondition failed: error fetching initial block"), w')
    end.

Definition save_as_canonical (canonical_block : RskBlock) : SR W failure unit :=
  _ ← context "Storing canonical block" (on_store (save_block canonical_block));
  context "Setting canonical block" (on_store (set_canonical_block canonical_block)).

Definition save_as_best_block (new_block : RskBlock) : SR W failure unit :=
  _ ← context "Saving canonical" (save_as_canonical new_block);
  context "Saving as best block" (on_store (set_best_block new_block)).

Definition init_db_if_required (initial_block_node : RskBlock) : SR W failure unit :=
  best_block ← context "Initialising DB" (on_store get_best_block);
  match best_block with
  | Some _ => mret tt
  | None => context "Initialising DB" (save_as_best_block initial_block_node)
  end.

Definition warn_if_filled_db : SR W failure unit :=
  _ ← context "Checking DB state" (on_store get_best_block); mret tt.

Definition notify_block (b : RskBlock) (uncles : list RskBlock) : SR W failure unit :=
  if new_block_sender self then send (mkBlockAndUncles b uncles) else mret tt.

Fixpoint notify_blocks (l : list (RskBlock * list RskBlock)) : SR W failure unit :=
  match l with
  | [] => mret tt
  | (b, uncles) :: l => _ ← notify_block b uncles; notify_blocks l
  end.

(** [for i in 0..uncle_amount], from index [i] on *)
Fixpoint process_uncles_from (new_block : RskBlock) (i : Z) (n : nat) (uncle_blocks : list RskBlock)
    : SR W failure (list RskBlock) :=
  match n with
  | O => mret uncle_blocks
  | S n =>
      uncle ← context "Fetching uncle block" (on_env (provider_uncle (hash new_block) i));
      match uncle with
      | Some u =>
          if bool_decide (hash u ∈ uncles new_block) then
            _ ← context "Saving uncle block" (on_store (save_block u));
            process_uncles_from new_block (i + 1) n (uncle_blocks ++ [u])
          else process_uncles_from new_block (i + 1) n uncle_blocks
      | None => process_uncles_from new_block (i + 1) n uncle_blocks
      end
  end.

Definition process_uncle_blocks (new_block : RskBlock) : SR W failure (list RskBlock) :=
  match uncles new_block with
  | [] => mret []
  | _ => process_uncles_from new_block 0 (length (uncles new_block)) []
  end.

Definition get_next_backward_sync_block (block_num : BlockNumber) : SR W failure RskBlock :=
  block ← on_env (provider_block_by_number block_num);
  match block with
  | Some b => mret b
  | None => on_env provider_best_block
  end.

(** The end of the loop body of [backward_sync], once [new_block] is dealt with:
    stop on a shutdown or at the initial block, or go on with the block below. *)
Definition search_backwards (new_block : RskBlock) (search : RskBlock -> SR W failure unit)
    : SR W failure unit :=
  running ← is_running;
  if negb running then
    context "On Backward Sync" (on_store (set_back_sync_checkpoint new_block))
  else if bool_decide (initial_block_hash self = hash new_block) || (number new_block =? 0) then
    mret tt
  else
    next ← context "On Backward Sync" (get_next_backward_sync_block (bn_sub (number new_block) 1));
    search next.

(** The [loop] of [backward_sync]; every round costs one unit of fuel. *)
Fixpoint backward_sync_loop (fuel : nat) (starting_block store_best_block : RskBlock)
    (blocks_to_notify : list (RskBlock * list RskBlock)) (new_block : RskBlock)
    : SR W failure unit :=
  match fuel with
  | O => sfail OutOfFuel
  | S fuel =>
      store_block ← context "On Backward Sync" (on_store (get_canonical_block (number new_block)));
      let is_missing := negb (bool_decide (is_Some store_block)) in
      let is_reorg :=
        match store_block with Some sb => negb (bool_decide (hash sb = hash new_block)) | None => false end in
      let reached_connection_height := number new_block <=? number store_best_block in
      if is_missing || is_reorg then
        uncles ← context "On Backward Sync" (process_uncle_blocks new_block);
        let blocks_to_notify := blocks_to_notify ++ [(new_block, uncles)] in
        _ ← context "On Backward Sync" (save_as_canonical new_block);
        search_backwards new_block
          (backward_sync_loop fuel starting_block store_best_block blocks_to_notify)
      else if negb reached_connection_height then
        search_backwards new_block
          (backward_sync_loop fuel starting_block store_best_block blocks_to_notify)
      else
        _ ← context "On Backward Sync" (on_store reset_back_sync_checkpoint);
        _ ← context "On Backward Sync" (on_store (set_best_block starting_block));
        notify_blocks (reverse blocks_to_notify)
  end.

Definition backward_sync (fuel : nat) (starting_block : RskBlock) : SR W failure unit :=
  running ← is_running;
  if negb running then mret tt else
  best ← context "On Backward Sync" (on_store get_best_block);
  store_best_block ← opt_context "Best block not found in store during backward sync" best;
  backward_sync_loop fuel starting_block store_best_block [] starting_block.

Definition resume_pending_backward_sync (fuel : nat) : SR W failure unit :=
  checkpoint ← context "Resuming Pending Backward Sync" (on_store get_back_sync_checkpoint);
  match checkpoint with
  | None => mret tt
  | Some checkpoint =>
      parent ← context "Resuming Backward Sync"
        (on_env (provider_block_by_hash (parent_hash checkpoint)));
      match parent with
      | Some checkpoint_parent => backward_sync fuel checkpoint_parent
      | None => mret tt
      end
  end.

(** [for i in 1..max_attempts], with [rounds] rounds left *)
Fixpoint sync_rounds (fuel : nat) (rounds : nat) : SR W failure unit :=
  match rounds with
  | O => bail "Could not catch up to the tip after 10 rounds"
  | S rounds =>
      provider_best_block ← context "On Full Sync Backward Sync rounds" (on_env provider_best_block);
      best ← context "On Full Sync Backward Sync rounds" (on_store get_best_block);
      match best with
      | None => sync_rounds fuel rounds
      | Some store_best_block =>
          if bool_decide (hash provider_best_block = hash store_best_block) then mret tt else
          running ← is_running;
          if negb running then mret tt else
          _ ← context "On Full Sync Backward Sync rounds" (backward_sync fuel provider_best_block);
          sync_rounds fuel rounds
      end
  end.

Definition max_attempts : nat := 10.

Definition full_sync_backward_syncs (fuel : nat) : SR W failure unit :=
  sync_rounds fuel (max_attempts - 1).

Definition startup_backward_sync (fuel : nat) : SR W failure unit :=
  _ ← resume_pending_backward_sync fuel; full_sync_backward_syncs fuel.

(** What [listen_blocks] does with one new block. *)
Definition process_new_block (fuel : nat) (new_block : RskBlock) : SR W failure unit :=
  best ← context "On Block subscription" (on_store get_best_block);
  local_best_block ← opt_context "Best block not found while listening blocks" best;
  let extends_canonical := bool_decide (parent_hash new_block = hash local_best_block) in
  let needs_catch_up :=
    (number local_best_block <? number new_block) ||
    (total_difficulty local_best_block <? total_difficulty new_block) in
  if extends_canonical then
    uncles ← context "On Backward Sync" (process_uncle_blocks new_block);
    _ ← notify_block new_block uncles;
    context "On Block subscription" (save_as_best_block new_block)
  else if needs_catch_up then
    provider_best_block ← context "On Block subscription" (on_env provider_best_block);
    context "On Block subscription" (backward_sync fuel provider_best_block)
  else context "On Block subscription" (on_store (save_block new_block)).

(** The [while] of [listen_blocks]: [rounds] bounds its iterations, [fuel] those
    of a backward sync. *)
Fixpoint listen_blocks (rounds fuel : nat) : SR W failure unit :=
  match rounds with
  | O => sfail OutOfFuel
  | S rounds =>
      running ← is_running;
      if negb running then mret tt else
      (fun w =>
        match on_env next_block w with
        | (Ok new_block, w1) =>
            (_ ← process_new_block fuel new_block; listen_blocks rounds fuel) w1
        | (Err ClosedConnection, w1) =>
            (running ← is_running;
             if (running : bool) then bail "Provider closed unexpectedly!" else mret tt) w1
        | (Err (Transient _), w1) => listen_blocks rounds fuel w1
        | (Err (Lagged _), w1) => listen_blocks rounds fuel w1
        | (Err (Unexpected _), w1) =>
            bail "[subscribe_blocks] Unknown error on block subs, quitting" w1
        end) : SR W failure unit
  end.

Definition start_block_subscription (rounds fuel : nat) : SR W failure unit :=
  running ← is_running;
  if negb running then mret tt else
  _ ← context "Failed to subscribe to blocks" (on_env subscribe_blocks);
  (fun w =>
    let '(loop_result, w1) := listen_blocks rounds fuel w in
    match on_env unsubscribe_blocks w1 with
    | (Ok _, w2) => (loop_result, w2)
    | (Err e, w2) => (Err e, w2)
    end) : SR W failure unit.

(** [RskIndexer::run] *)
Definition run (rounds fuel : nat) : SR W failure unit :=
  initial_block ← get_initial_block;
  _ ← match indexer_start_from self with
      | StartBest =>
          _ ← warn_if_filled_db;
          context "Initialising DB for best" (save_as_best_block initial_block)
      | StartHash =>
          _ ← init_db_if_required initial_block;
          startup_backward_sync fuel
      end;
  start_block_subscription rounds fuel.

End Indexer.

(** [BlockIndexer::new_with_notifier] and [BlockIndexer::new] *)
Definition new_indexer `{RskProvider P} (with_notifier : bool) (indexer_config : IndexerConfig)
    : SR P failure BlockIndexer :=
  initial_block ← resolve_initial_block indexer_config;
  mret (mkBlockIndexer with_notifier (start_from indexer_config) (hash initial_block)).

(** ** A stored chain *)

(** Blocks the node really produced: the hash determines the block. *)
Class Genuine := {
  genuine : RskBlock -> Prop;
  genuine_ok b : genuine b -> block_ok b;
  genuine_inj a b : genuine a -> genuine b -> hash a = hash b -> a = b
}.

(** What the store holds is genuine, filed under its hash, and canonical blocks
    are saved. *)
Record store_good `{Genuine} (m : StoreModel) : Prop := {
  good_blocks h b : m_blocks m !! h = Some b -> hash b = h /\ genuine b;
  good_canonical n h : m_canonical m !! n = Some h -> is_Some (m_blocks m !! h)
}.

(** The canonical blocks from height [lo] to [hi] form a chain. *)
Definition linked `{Genuine} (m : StoreModel) (lo hi : Z) : Prop :=
  forall n, lo <= n <= hi -> exists x,
    genuine x /\ number x = n /\ m_canonical m !! n = Some (hash x) /\
    (lo < n -> m_canonical m !! (n - 1) = Some (parent_hash x)).

(** The best block is the tip of such a chain. *)
Definition synced `{Genuine} (m : StoreModel) (lo : Z) : Prop :=
  store_good m /\ exists b, m_best m = Some b /\ genuine b /\ lo <= number b /\
    m_canonical m !! number b = Some (hash b) /\ linked m lo (number b).

(** The chain of a node between two heights. *)
Record node_chain `{Genuine} (c : Z -> RskBlock) (lo top : Z) : Prop := {
  chain_range : 0 <= lo <= top;
  chain_width : top < 2 ^ 64;
  chain_number n : lo <= n <= top -> number (c n) = n;
  chain_genuine n : lo <= n <= top -> genuine (c n);
  chain_link n : lo < n <= top -> parent_hash (c n) = hash (c (n - 1))
}.

Section Chains.
Context `{Genuine}.

Lemma model_canonical_good m n o :
  store_good m -> o ≡ model_canonical n m ->
  (o = None /\ m_canonical m !! n = None) \/
  exists sb, o = Some sb /\ m_canonical m !! n = Some (hash sb).
Proof.
  intros [Hb Hc] Ho. unfold model_canonical in Ho.
  destruct (m_canonical m !! n) as [h|] eqn:E; cbn in Ho; [|inversion Ho; auto].
  destruct (Hc _ _ E) as [x Hx]. rewrite Hx in Ho. destruct (Hb _ _ Hx) as [<- _].
  inversion Ho as [sb ? Heq|]; subst. right. exists sb. split; [done|]. by rewrite Heq.
Qed.

Lemma save_good b m : genuine b -> store_good m -> store_good (model_save b m).
Proof.
  intros Hg [Hb Hc]. split; cbn.
  - intros h b' Hin. destruct (decide (hash b = h)); simplify_map_eq; eauto.
  - intros n h Hin. destruct (decide (hash b = h)); simplify_map_eq; eauto.
Qed.

Lemma set_canonical_good b m :
  is_Some (m_blocks m !! hash b) -> store_good m -> store_good (model_set_canonical b m).
Proof.
  intros Hin [Hb Hc]. split; cbn; [done|].
  intros n h Hn. destruct (decide (number b = n)); simplify_map_eq; eauto.
Qed.

(** Two chains that share a block share everything below it. *)
Lemma linked_agree m c lo top k :
  linked m lo k -> node_chain c lo top -> k <= top -> m_canonical m !! k = Some (hash (c k)) ->
  forall n, lo <= n <= k -> m_canonical m !! n = Some (hash (c n)).
Proof.
  intros Hl Hc Hk Htop n Hn. remember (Z.to_nat (k - n)) as d eqn:Hd.
  revert n Hn Hd. induction d as [|d IH]; intros n Hn Hd.
  { by replace n with k by lia. }
  assert (Hsucc : m_canonical m !! (n + 1) = Some (hash (c (n + 1)))) by (apply IH; lia).
  destruct (Hl (n + 1)) as (x & Hx & _ & Hcan & Hpar); [lia|].
  assert (x = c (n + 1)) as ->.
  { apply genuine_inj; [done|eapply chain_genuine; [done|lia]|congruence]. }
  replace n with (n + 1 - 1) by lia. rewrite Hpar by lia.
  f_equal. eapply chain_link; [done|lia].
Qed.

Lemma linked_chain m c lo top :
  node_chain c lo top -> (forall n, lo <= n <= top -> m_canonical m !! n = Some (hash (c n))) ->
  linked m lo top.
Proof.
  intros Hc Hm n Hn. exists (c n). repeat split.
  - by eapply chain_genuine.
  - by eapply chain_number.
  - by apply Hm.
  - intros ?. rewrite Hm by lia. f_equal. symmetry. eapply chain_link; [done|lia].
Qed.

Lemma chain_hash_inj c lo top n k :
  node_chain c lo top -> lo <= n <= top -> lo <= k <= top -> hash (c n) = hash (c k) -> n = k.
Proof.
  intros Hc Hn Hk Heq. rewrite <- (chain_number _ _ _ Hc n Hn), <- (chain_number _ _ _ Hc k Hk).
  f_equal. apply genuine_inj; [by eapply chain_genuine..|done].
Qed.

End Chains.

(** ** Synchronising with a node whose chain does not move *)

(** A node in a [stable] state answers every query from the chain [c], whose
    uncles are [uncle_at], and no shutdown is requested. *)
Record stable_node `{RskProvider P, Genuine} (stable : P -> Prop) (c : Z -> RskBlock) (lo top : Z)
    (uncle_at : Z -> Z -> option RskBlock) : Prop := {
  stable_running p : stable p -> exists p', is_on p = (false, p') /\ stable p';
  stable_hash p n : stable p -> lo <= n <= top ->
    wp (provider_block_by_hash (hash (c n))) (fun o p' => o = Some (c n) /\ stable p') p;
  stable_best p : stable p -> wp provider_best_block (fun b p' => b = c top /\ stable p') p;
  stable_number p n : stable p -> lo <= n <= top ->
    wp (provider_block_by_number n) (fun o p' => o = Some (c n) /\ stable p') p;
  stable_uncle p n i : stable p -> lo <= n <= top ->
    wp (provider_uncle (hash (c n)) i) (fun o p' => o = uncle_at n i /\ stable p') p;
  uncle_genuine n i u : uncle_at n i = Some u -> genuine u
}.

(** The uncles of block [n] that the node serves and the block lists. *)
Definition served_uncles (c : Z -> RskBlock) (uncle_at : Z -> Z -> option RskBlock) (n : Z)
    : list RskBlock :=
  filter (fun u => hash u ∈ uncles (c n)) (omap (uncle_at n) (seqZ 0 (Z.of_nat (length (uncles (c n)))))).

(** The heights from [lo] to [hi], ascending, at which the store does not hold
    the node's block. *)
Definition outdated (m : StoreModel) (c : Z -> RskBlock) (lo hi : Z) : list Z :=
  filter (fun n => m_canonical m !! n <> Some (hash (c n))) (seqZ lo (hi - lo + 1)).

(** Sending needs a channel and a receiver. *)
Definition delivered (self : BlockIndexer) (rc : bool) (l : list RskBlockAndUncles) : list RskBlockAndUncles :=
  if new_block_sender self && rc then l else [].

(** Saving blocks that are not canonical changes neither the best block, nor
    the checkpoint, nor the canonical chain. *)
Record more_blocks (m m' : StoreModel) : Prop := {
  more_best : m_best m' = m_best m;
  more_checkpoint : m_checkpoint m' = m_checkpoint m;
  more_canonical : m_canonical m' = m_canonical m
}.

Section Sync.
Context `{BlockStoreTotal St, RskProvider P, Genuine}.
Context (self : BlockIndexer) (stable : P -> Prop) (c : Z -> RskBlock) (lo top : Z).
Context (uncle_at : Z -> Z -> option RskBlock).
Hypothesis Hnode : stable_node stable c lo top uncle_at.
Hypothesis Hchain : node_chain c lo top.
Hypothesis Hinitial : initial_block_hash self = hash (c lo).

Abbreviation W := (World St P RskBlockAndUncles).

(** The world holds the model [m] and has sent [snt]. *)
Record at_model (rc : bool) (m : StoreModel) (snt : list RskBlockAndUncles) (w : W) : Prop := {
  at_represents : represents (w_store w) m;
  at_good : store_good m;
  at_stable : stable (w_env w);
  at_sent : w_sent w = snt;
  at_receiver : w_receiver w = rc
}.

Lemma wp_on_store {A} (op : SR St failure A) rc m m' snt w (Q : A -> W -> Prop) :
  at_model rc m snt w -> store_good m' ->
  wp op (fun a s' => represents s' m' /\ forall w', at_model rc m' snt w' -> Q a w') (w_store w) ->
  wp (on_store op) Q w.
Proof.
  intros [] Hm' (a & s' & Hr & Hs' & HQ). exists a. eexists. split.
  - apply zoom_ok. eauto.
  - apply HQ. by split.
Qed.

Lemma wp_on_env {A} (op : SR P failure A) rc m snt w (R : A -> Prop) (Q : A -> W -> Prop) :
  at_model rc m snt w -> wp op (fun a p' => R a /\ stable p') (w_env w) ->
  (forall a w', R a -> at_model rc m snt w' -> Q a w') -> wp (on_env op) Q w.
Proof.
  intros [] (a & p' & Hr & Ha & Hp') HQ. exists a. eexists. split.
  - apply zoom_ok. eauto.
  - apply HQ; [done|]. by split.
Qed.

Lemma wp_is_running rc m snt w (Q : bool -> W -> Prop) :
  at_model rc m snt w -> (forall w', at_model rc m snt w' -> Q true w') -> wp is_running Q w.
Proof.
  intros Hw HQ. destruct (stable_running _ _ _ _ _ Hnode _ (at_stable _ _ _ _ Hw)) as (p' & Hon & Hp').
  apply (wp_on_env _ rc m snt w (eq true)); [done| |intros ? ? <-; apply HQ].
  exists true, p'. by rewrite Hon.
Qed.

Lemma delivered_app rc l k : delivered self rc (l ++ k) = delivered self rc l ++ delivered self rc k.
Proof. unfold delivered. by case_match. Qed.

Lemma wp_notify_block rc m snt w b us (Q : unit -> W -> Prop) :
  at_model rc m snt w ->
  (forall w', at_model rc m (snt ++ delivered self rc [mkBlockAndUncles b us]) w' -> Q tt w') ->
  wp (notify_block self b us) Q w.
Proof.
  intros [] HQ. unfold notify_block, delivered in *. destruct (new_block_sender self); cbn in *.
  - exists tt. eexists. split; [reflexivity|]. apply HQ. subst rc.
    destruct (w_receiver w) eqn:E; split; cbn; rewrite ?app_nil_r; congruence.
  - exists tt, w. split; [done|]. apply HQ. split; rewrite ?app_nil_r; done.
Qed.

Lemma wp_notify_blocks rc m l snt w (Q : unit -> W -> Prop) :
  at_model rc m snt w ->
  (forall w', at_model rc m (snt ++ delivered self rc (uncurry mkBlockAndUncles <$> l)) w' -> Q tt w') ->
  wp (notify_blocks self l) Q w.
Proof.
  revert snt w. induction l as [|[b us] l IH]; intros snt w Hw HQ; cbn.
  - apply wp_ret, HQ. unfold delivered. cbn. by case_match; rewrite app_nil_r.
  - apply wp_bind. eapply wp_notify_block; [done|]. intros w1 Hw1.
    eapply IH; [done|]. intros w2 Hw2. apply HQ.
    rewrite <- (assoc_L (++)), <- delivered_app in Hw2. done.
Qed.

Lemma wp_save_block_w rc m snt w b (Q : unit -> W -> Prop) :
  at_model rc m snt w -> genuine b ->
  (forall w', at_model rc (model_save b m) snt w' -> Q tt w') -> wp (on_store (save_block b)) Q w.
Proof.
  intros Hw Hb HQ. eapply wp_on_store; [done|by apply save_good, (at_good _ _ _ _ Hw)|].
  eapply wp_save_block; [apply Hw|by apply genuine_ok|]. intros s' Hs'. eauto.
Qed.

Lemma wp_process_uncles n i k acc rc m snt w (Q : list RskBlock -> W -> Prop) :
  at_model rc m snt w -> lo <= n <= top ->
  (forall m' w', more_blocks m m' -> at_model rc m' snt w' ->
    Q (acc ++ filter (fun u => hash u ∈ uncles (c n)) (omap (uncle_at n) (seqZ i (Z.of_nat k)))) w') ->
  wp (process_uncles_from (c n) i k acc) Q w.
Proof.
  revert i acc m w. induction k as [|k IH]; intros i acc m w Hw Hn HQ; cbn [process_uncles_from].
  { apply wp_ret. rewrite <- (app_nil_r acc). by eapply HQ. }
  assert (Hseq : seqZ i (Z.of_nat (S k)) = i :: seqZ (i + 1) (Z.of_nat k)).
  { rewrite seqZ_cons by lia. do 2 f_equal; lia. }
  rewrite Hseq in HQ. cbn [omap list_omap] in HQ. wp_steps.
  eapply wp_on_env; [done|eapply (stable_uncle _ _ _ _ _ Hnode); [apply Hw|done]|].
  intros o w1 -> Hw1. cbn. destruct (uncle_at n i) as [u|] eqn:Hu; [|by eapply IH].
  rewrite filter_cons in HQ. case_bool_decide as Hin; [|rewrite decide_False in HQ by done; by eapply IH].
  rewrite decide_True in HQ by done. wp_steps.
  eapply wp_save_block_w; [done|by eapply (uncle_genuine _ _ _ _ _ Hnode)|]. intros w2 Hw2.
  eapply IH; [done|done|]. intros m' w' [Hbest Hcp Hcan] Hw'. rewrite <- (assoc_L (++)). cbn.
  eapply HQ; [by split|done].
Qed.

Lemma wp_process_uncle_blocks n rc m snt w (Q : list RskBlock -> W -> Prop) :
  at_model rc m snt w -> lo <= n <= top ->
  (forall m' w', more_blocks m m' -> at_model rc m' snt w' -> Q (served_uncles c uncle_at n) w') ->
  wp (process_uncle_blocks (c n)) Q w.
Proof.
  intros Hw Hn HQ. unfold process_uncle_blocks, served_uncles in *.
  destruct (uncles (c n)) as [|h l] eqn:E; [by apply wp_ret; eapply HQ|]. rewrite <- E in *.
  by eapply wp_process_uncles.
Qed.

Lemma wp_save_as_canonical b rc m snt w (Q : unit -> W -> Prop) :
  at_model rc m snt w -> genuine b ->
  (forall w', at_model rc (model_set_canonical b (model_save b m)) snt w' -> Q tt w') ->
  wp (save_as_canonical b) Q w.
Proof.
  intros Hw Hb HQ. unfold save_as_canonical. wp_steps.
  eapply wp_save_block_w; [done..|]. intros w1 Hw1. wp_steps.
  assert (Hin : is_Some (m_blocks (model_save b m) !! hash b)) by (cbn; by rewrite lookup_insert_eq).
  eapply wp_on_store; [done|by apply set_canonical_good, (at_good _ _ _ _ Hw1)|].
  eapply wp_set_canonical_block; [apply Hw1|by apply genuine_ok|done|]. eauto.
Qed.

Lemma wp_set_best_w b rc m snt w (Q : unit -> W -> Prop) :
  at_model rc m snt w -> genuine b ->
  (forall w', at_model rc (model_set_best b m) snt w' -> Q tt w') ->
  wp (on_store (set_best_block b)) Q w.
Proof.
  intros Hw Hb HQ.
  apply (wp_on_store _ rc m (model_set_best b m) snt); [done|destruct (at_good _ _ _ _ Hw); by split|].
  eapply wp_set_best_block; [apply Hw|by apply genuine_ok|]. eauto.
Qed.

Lemma wp_get_best_w rc m snt w (Q : _ -> W -> Prop) :
  at_model rc m snt w -> (forall w', at_model rc m snt w' -> Q (m_best m) w') ->
  wp (on_store get_best_block) Q w.
Proof.
  intros Hw HQ. eapply wp_on_store; [done|apply Hw|]. eapply wp_get_best_block; [apply Hw|]. eauto.
Qed.

Lemma wp_search_backwards n search rc m snt w (Q : unit -> W -> Prop) :
  at_model rc m snt w -> lo < n <= top ->
  (forall w', at_model rc m snt w' -> wp (search (c (n - 1))) Q w') ->
  wp (search_backwards self (c n) search) Q w.
Proof.
  intros Hw Hn HQ. pose proof (chain_range _ _ _ Hchain). pose proof (chain_width _ _ _ Hchain).
  unfold search_backwards. wp_steps. eapply wp_is_running; [done|]. intros w1 Hw1. cbn [negb].
  rewrite (chain_number _ _ _ Hchain) by lia.
  rewrite bool_decide_eq_false_2, (proj2 (Z.eqb_neq n 0)); [|lia|].
  2: { rewrite Hinitial. intros Heq%(chain_hash_inj _ _ _ _ _ Hchain); lia. }
  cbn [orb]. wp_steps. rewrite bn_sub_small by lia. unfold get_next_backward_sync_block. wp_steps.
  eapply wp_on_env; [done|eapply (stable_number _ _ _ _ _ Hnode); [apply Hw1|lia]|].
  intros o w2 -> Hw2. apply wp_ret. by apply HQ.
Qed.

Definition note (j : Z) : RskBlockAndUncles := mkBlockAndUncles (c j) (served_uncles c uncle_at j).

Lemma outdated_snoc m k n :
  k <= n -> outdated m c k n =
  outdated m c k (n - 1) ++ if decide (m_canonical m !! n <> Some (hash (c n))) then [n] else [].
Proof.
  intros Hk. unfold outdated. replace (n - k + 1) with ((n - 1 - k + 1) + 1) by lia.
  rewrite seqZ_app by lia. rewrite filter_app. f_equal.
  replace (k + (n - 1 - k + 1)) with n by lia. by rewrite seqZ_cons, seqZ_nil, filter_cons by lia.
Qed.

Lemma outdated_ext m m' k n :
  (forall j, k <= j <= n -> m_canonical m' !! j = m_canonical m !! j) ->
  outdated m' c k n = outdated m c k n.
Proof.
  intros Heq. apply filter_ext_in. intros j Hj%elem_of_seqZ. by rewrite Heq by lia.
Qed.

(** What one run of the loop from height [n] leads to: the chain connects at
    some [k], everything above it is the node's, and the outdated heights are
    announced before what was already collected. *)
Definition connected (rc : bool) (n : Z) (best start : RskBlock)
    (acc : list (RskBlock * list RskBlock)) (m : StoreModel) snt (w' : W) : Prop :=
  exists k m', lo <= k <= n /\ k <= number best /\ m_canonical m !! k = Some (hash (c k)) /\
    (forall j, m_canonical m' !! j =
       if decide (k < j <= n) then Some (hash (c j)) else m_canonical m !! j) /\
    m_best m' = Some start /\ m_checkpoint m' = None /\
    at_model rc m' (snt ++ delivered self rc
      ((note <$> outdated m c (k + 1) n) ++ (uncurry mkBlockAndUncles <$> reverse acc))) w'.

Lemma connected_step rc n best start acc acc' m m1 snt w' :
  lo < n ->
  (forall j, m_canonical m1 !! j = if decide (j = n) then Some (hash (c n)) else m_canonical m !! j) ->
  acc' = acc ++ (if decide (m_canonical m !! n <> Some (hash (c n)))
                 then [(c n, served_uncles c uncle_at n)] else []) ->
  connected rc (n - 1) best start acc' m1 snt w' -> connected rc n best start acc m snt w'.
Proof.
  intros Hn Hm1 -> (k & m' & Hk & Hkb & Hkc & Hcan & Hbest & Hcp & Hw').
  assert (Hbelow : forall j, j < n -> m_canonical m1 !! j = m_canonical m !! j)
    by (intros j Hj; rewrite Hm1; by rewrite decide_False by lia).
  exists k, m'. split_and!; [lia..| | |done|done|].
  - by rewrite <- Hbelow by lia.
  - intros j. rewrite Hcan, Hm1. repeat case_decide; try lia; congruence.
  - rewrite (outdated_snoc m) by lia. rewrite (outdated_ext m) in Hw' by (intros; apply Hbelow; lia).
    case_decide; cbn in *; rewrite ?app_nil_r in *; [|done].
    rewrite reverse_app in Hw'. by rewrite fmap_app, <- (assoc_L (++)).
Qed.

Lemma wp_backward_sync_loop fuel n start best acc rc m snt w :
  at_model rc m snt w -> lo <= n <= top -> genuine start -> lo <= number best ->
  m_canonical m !! lo = Some (hash (c lo)) -> n - lo < Z.of_nat fuel ->
  wp (backward_sync_loop self fuel start best acc (c n))
     (fun _ w' => connected rc n best start acc m snt w') w.
Proof.
  pose proof (chain_range _ _ _ Hchain). pose proof (chain_width _ _ _ Hchain).
  revert n acc m w. induction fuel as [|fuel IH]; intros n acc m w Hw Hn Hs Hb Hlo Hfuel; [lia|].
  cbn [backward_sync_loop]. wp_steps. rewrite (chain_number _ _ _ Hchain) by lia.
  eapply wp_on_store; [done|apply Hw|].
  eapply wp_get_canonical_block; [apply Hw|unfold uint; lia|]. intros o s' Ho Hs'. split; [done|].
  clear s' Hs' w Hw. intros w Hw.
  assert (Htest : (negb (bool_decide (is_Some o)) ||
    match o with Some sb => negb (bool_decide (hash sb = hash (c n))) | None => false end)%bool =
    bool_decide (m_canonical m !! n <> Some (hash (c n)))).
  { destruct (model_canonical_good _ _ _ (at_good _ _ _ _ Hw) Ho) as [[-> Hc]|(sb & -> & Hc)];
      rewrite Hc; cbn; [by rewrite bool_decide_eq_true_2|].
    rewrite <- bool_decide_not. apply bool_decide_ext. split; congruence. }
  rewrite Htest. clear Htest. case_bool_decide as Hup.
  - (* missing or replaced *)
    assert (n <> lo) by (intros ->; congruence). wp_steps.
    eapply wp_process_uncle_blocks; [done..|]. intros m1 w1 [Hb1 Hc1 Hcan1] Hw1. wp_steps.
    eapply wp_save_as_canonical; [done|by eapply chain_genuine|]. intros w2 Hw2.
    eapply wp_search_backwards; [done|lia|]. intros w3 Hw3.
    assert (Hcan : forall j, m_canonical (model_set_canonical (c n) (model_save (c n) m1)) !! j =
      if decide (j = n) then Some (hash (c n)) else m_canonical m !! j).
    { intros j. cbn. rewrite (chain_number _ _ _ Hchain), Hcan1 by done.
      case_decide; [subst; apply lookup_insert_eq|by apply lookup_insert_ne]. }
    eapply wp_mono; [eapply IH; [done|lia|done|done| |lia]|].
    + rewrite Hcan. by rewrite decide_False by lia.
    + intros [] w4. eapply connected_step; [lia|exact Hcan|]. by rewrite decide_True.
  - destruct (Z.leb_spec n (number best)); cbn [negb].
    + (* the connection point *)
      wp_steps. apply (wp_on_store _ rc m (model_set_checkpoint None m) snt);
        [done|destruct (at_good _ _ _ _ Hw); by split|].
      eapply wp_reset_checkpoint; [apply Hw|]. intros s' Hs'. split; [done|]. intros w1 Hw1.
      wp_steps. eapply wp_set_best_w; [done|done|]. intros w2 Hw2.
      eapply wp_notify_blocks; [done|]. intros w3 Hw3.
      assert (outdated m c (n + 1) n = []) as Hnone by (unfold outdated; by rewrite seqZ_nil by lia).
      exists n, (model_set_best start (model_set_checkpoint None m)). rewrite Hnone.
      split_and!; try done; try lia. intros j. by rewrite decide_False by lia.
    + (* known, above the connection height *)
      eapply wp_search_backwards; [done|lia|]. intros w1 Hw1.
      eapply wp_mono; [eapply IH; [done|lia|done|done|done|lia]|].
      intros [] w4. eapply connected_step; [lia| |].
      * intros j. case_decide; [by subst|done].
      * rewrite decide_False by (intros ?; done). by rewrite app_nil_r.
Qed.

Lemma outdated_app m k t :
  lo - 1 <= k <= t -> outdated m c lo t = outdated m c lo k ++ outdated m c (k + 1) t.
Proof.
  intros Hk. unfold outdated. replace (t - lo + 1) with ((k - lo + 1) + (t - k)) by lia.
  rewrite seqZ_app, filter_app by lia. replace (lo + (k - lo + 1)) with (k + 1) by lia.
  by replace (t - (k + 1) + 1) with (t - k) by lia.
Qed.

Lemma outdated_none m k t :
  (forall n, k <= n <= t -> m_canonical m !! n = Some (hash (c n))) -> outdated m c k t = [].
Proof.
  intros Hm. apply filter_none. intros n Hn%elem_of_seqZ Hne. apply Hne, Hm. lia.
Qed.

Lemma delivered_nil rc : delivered self rc [] = [].
Proof. unfold delivered. by case_match. Qed.

(** The store after a sync with the node's chain up to height [t], and what was
    announced on the way. *)
Record caught_up (t : Z) (rc : bool) (m : StoreModel) snt (m' : StoreModel) (w' : W) : Prop := {
  cu_at : at_model rc m' (snt ++ delivered self rc (note <$> outdated m c lo t)) w';
  cu_best : m_best m' = Some (c t);
  cu_canonical n : lo <= n <= t -> m_canonical m' !! n = Some (hash (c n));
  cu_above n : t < n -> m_canonical m' !! n = m_canonical m !! n
}.

Lemma node_chain_below t : lo <= t <= top -> node_chain c lo t.
Proof. intros Ht. destruct Hchain. split; try lia; intros; eauto with lia. Qed.

Lemma caught_up_synced t rc m snt m' w' :
  lo <= t <= top -> caught_up t rc m snt m' w' -> synced m' lo.
Proof.
  intros Ht []. split; [apply cu_at0|]. exists (c t).
  rewrite (chain_number _ _ _ Hchain) by lia.
  split_and!; [done|by eapply chain_genuine|lia|apply cu_canonical0; lia|].
  eapply linked_chain; [by apply node_chain_below|done].
Qed.

(** One sync after another. *)
Lemma caught_up_trans k t rc m m1 m2 snt w1 w2 :
  lo <= k <= t -> caught_up k rc m snt m1 w1 ->
  caught_up t rc m1 (snt ++ delivered self rc (note <$> outdated m c lo k)) m2 w2 ->
  caught_up t rc m snt m2 w2.
Proof.
  intros Hk [Hw1 Hb1 Hc1 Ha1] [Hw2 Hb2 Hc2 Ha2]. split; [|done|done|].
  - rewrite (outdated_app m k t), fmap_app, delivered_app, (assoc_L (++)) by lia.
    rewrite (outdated_app m1 k t), (outdated_none m1 lo k) in Hw2 by (done || lia).
    cbn in Hw2. by rewrite (outdated_ext m m1) in Hw2 by (intros; apply Ha1; lia).
  - intros n Hn. rewrite Ha2, Ha1 by lia. done.
Qed.

Lemma wp_backward_sync t fuel rc m snt w :
  lo <= t <= top -> at_model rc m snt w -> synced m lo ->
  m_canonical m !! lo = Some (hash (c lo)) -> t - lo < Z.of_nat fuel ->
  wp (backward_sync self fuel (c t))
     (fun _ w' => exists m', caught_up t rc m snt m' w' /\ m_checkpoint m' = None) w.
Proof.
  intros Ht Hw (_ & b & Hbest & Hbg & Hb & Hbc & Hl) Hlo Hfuel.
  unfold backward_sync. wp_steps. eapply wp_is_running; [done|]. intros w1 Hw1. cbn [negb].
  wp_steps. eapply wp_get_best_w; [done|]. intros w2 Hw2. rewrite Hbest. wp_steps.
  eapply wp_mono; [apply (wp_backward_sync_loop fuel t (c t) b [] rc m snt w2); try done; try lia|].
  { by eapply chain_genuine. }
  intros [] w3 (k & m' & Hk & Hkb & Hkc & Hcan & Hbest' & Hcp' & Hw3).
  assert (Hlow : forall n, lo <= n <= k -> m_canonical m !! n = Some (hash (c n))).
  { eapply linked_agree; [|done|lia|done]. intros n Hn. apply Hl. lia. }
  exists m'. split; [|done]. split; [|done|..].
  - rewrite app_nil_r in Hw3. by rewrite (outdated_app m k), outdated_none by (done || lia).
  - intros n Hn. rewrite Hcan. case_decide; [done|]. apply Hlow. lia.
  - intros n Hn. rewrite Hcan. by rewrite decide_False by lia.
Qed.

Lemma caught_up_already rc m snt w b :
  at_model rc m snt w -> m_best m = Some b -> genuine b -> hash (c top) = hash b ->
  m_canonical m !! number b = Some (hash b) -> linked m lo (number b) -> caught_up top rc m snt m w.
Proof.
  intros Hw Hbest Hbg Heq Hbc Hl. pose proof (chain_range _ _ _ Hchain).
  assert (b = c top) as -> by (apply genuine_inj; [done|eapply chain_genuine; [done|lia]|done]).
  rewrite (chain_number _ _ _ Hchain) in Hl, Hbc by lia.
  assert (Hall : forall n, lo <= n <= top -> m_canonical m !! n = Some (hash (c n)))
    by (eapply linked_agree; [done|done|lia|done]).
  split; [|done..]. rewrite outdated_none by done. cbn. by rewrite delivered_nil, app_nil_r.
Qed.

Lemma wp_sync_rounds fuel rounds rc m snt w :
  at_model rc m snt w -> synced m lo -> m_canonical m !! lo = Some (hash (c lo)) ->
  top - lo < Z.of_nat fuel ->
  (2 <= rounds)%nat \/ (1 <= rounds)%nat /\ m_best m = Some (c top) ->
  wp (sync_rounds self fuel rounds) (fun _ w' => exists m', caught_up top rc m snt m' w') w.
Proof.
  revert m snt w. induction rounds as [|rounds IH]; intros m snt w Hw Hsync Hlo Hfuel Hrounds; [lia|].
  pose proof Hsync as (_ & b & Hbest & Hbg & Hb & Hbc & Hl). pose proof (chain_range _ _ _ Hchain).
  cbn [sync_rounds]. wp_steps.
  eapply wp_on_env; [done|apply (stable_best _ _ _ _ _ Hnode), Hw|]. intros ? w1 -> Hw1.
  wp_steps. eapply wp_get_best_w; [done|]. intros w2 Hw2. rewrite Hbest. case_bool_decide as Heq.
  - apply wp_ret. exists m. by eapply caught_up_already.
  - destruct Hrounds as [Hrounds|[_ Hsame]]; [|congruence].
    wp_steps. eapply wp_is_running; [done|]. intros w3 Hw3. cbn [negb]. wp_steps.
    eapply wp_mono; [apply (wp_backward_sync top fuel rc m snt w3); (done || lia)|].
    intros [] w4 (m' & Hcu & _).
    eapply wp_mono; [apply (IH _ _ _ (cu_at _ _ _ _ _ _ Hcu)); [| |done|]|].
    + eapply caught_up_synced; [|done]. lia.
    + apply (cu_canonical _ _ _ _ _ _ Hcu). lia.
    + right. split; [lia|apply Hcu].
    + intros [] w5 (m'' & Hcu'). exists m''. eapply (caught_up_trans top); [lia|done|done].
Qed.

(** ** Start-up *)

(** The store after [init_db_if_required]. *)
Definition initialised (m : StoreModel) : StoreModel :=
  match m_best m with
  | Some _ => m
  | None => model_set_best (c lo) (model_set_canonical (c lo) (model_save (c lo) m))
  end.

Lemma wp_save_as_best_block b rc m snt w (Q : unit -> W -> Prop) :
  at_model rc m snt w -> genuine b ->
  (forall w', at_model rc (model_set_best b (model_set_canonical b (model_save b m))) snt w' -> Q tt w') ->
  wp (save_as_best_block b) Q w.
Proof.
  intros Hw Hb HQ. unfold save_as_best_block. wp_steps.
  eapply wp_save_as_canonical; [done..|]. intros w1 Hw1. wp_steps. by eapply wp_set_best_w.
Qed.

Lemma wp_init_db_if_required rc m snt w (Q : unit -> W -> Prop) :
  at_model rc m snt w -> (forall w', at_model rc (initialised m) snt w' -> Q tt w') ->
  wp (init_db_if_required (c lo)) Q w.
Proof.
  intros Hw HQ. pose proof (chain_range _ _ _ Hchain). unfold init_db_if_required, initialised in *.
  wp_steps. eapply wp_get_best_w; [done|]. intros w1 Hw1.
  destruct (m_best m); wp_steps; [by apply HQ|].
  eapply wp_save_as_best_block; [done|eapply chain_genuine; [done|lia]|done].
Qed.

Lemma initialised_synced m :
  store_good m -> m_best m = None \/ synced m lo /\ m_canonical m !! lo = Some (hash (c lo)) ->
  synced (initialised m) lo /\ m_canonical (initialised m) !! lo = Some (hash (c lo)).
Proof.
  pose proof (chain_range _ _ _ Hchain). intros Hg [Hnone|[Hs Hlo]]; unfold initialised.
  - rewrite Hnone. assert (Hc : genuine (c lo)) by (eapply chain_genuine; [done|lia]).
    assert (Hn : number (c lo) = lo) by (eapply chain_number; [done|lia]).
    assert (Hg' : store_good (model_set_canonical (c lo) (model_save (c lo) m)))
      by (apply set_canonical_good; [cbn; by rewrite lookup_insert_eq|by apply save_good]).
    cbn. rewrite Hn, lookup_insert_eq. split; [|done]. split; [destruct Hg'; by split|].
    exists (c lo). cbn. rewrite Hn, lookup_insert_eq. split_and!; try done.
    intros n ?. exists (c lo). assert (n = lo) as -> by lia. cbn. rewrite Hn, lookup_insert_eq.
    split_and!; (done || lia).
  - pose proof Hs as (_ & b & -> & _). done.
Qed.

Lemma wp_startup_backward_sync fuel rc m snt w :
  at_model rc m snt w -> synced m lo -> m_canonical m !! lo = Some (hash (c lo)) ->
  match m_checkpoint m with
  | Some cp => exists k, lo <= k <= top /\ parent_hash cp = hash (c k)
  | None => True
  end ->
  top - lo < Z.of_nat fuel ->
  wp (startup_backward_sync self fuel) (fun _ w' => exists m', caught_up top rc m snt m' w') w.
Proof.
  intros Hw Hsync Hlo Hcp Hfuel. pose proof (chain_range _ _ _ Hchain).
  unfold startup_backward_sync, resume_pending_backward_sync, full_sync_backward_syncs. wp_steps.
  eapply wp_on_store; [done|apply Hw|]. eapply wp_get_checkpoint; [apply Hw|].
  intros s' Hs'. split; [done|]. intros w1 Hw1.
  destruct (m_checkpoint m) as [cp|].
  - destruct Hcp as (k & Hk & Hpar). rewrite Hpar. wp_steps.
    eapply wp_on_env; [done|eapply (stable_hash _ _ _ _ _ Hnode); [apply Hw1|done]|]. intros ? w2 -> Hw2.
    eapply wp_mono; [apply (wp_backward_sync k fuel rc m snt w2); (done || lia)|].
    intros [] w3 (m' & Hcu & _).
    eapply wp_mono; [apply (wp_sync_rounds fuel (max_attempts - 1) rc m' _ _ (cu_at _ _ _ _ _ _ Hcu))|].
    + by eapply caught_up_synced.
    + apply (cu_canonical _ _ _ _ _ _ Hcu). lia.
    + done.
    + left. vm_compute. lia.
    + intros [] w4 (m'' & Hcu'). exists m''. eapply (caught_up_trans k); [lia|done|done].
  - wp_steps. eapply wp_sync_rounds; try done. left. vm_compute. lia.
Qed.

(** ** One new block *)

Lemma extend_synced m b n :
  synced m lo -> m_best m = Some b -> lo < n <= top -> hash b = hash (c (n - 1)) ->
  synced (model_set_best (c n) (model_set_canonical (c n) (model_save (c n) m))) lo.
Proof.
  intros (Hg & b' & Hbest & Hbg & Hb & Hbc & Hl) Hbest' Hn Hpar. assert (b' = b) as -> by congruence.
  assert (Hgn : genuine (c n)) by (eapply chain_genuine; [done|lia]).
  assert (Hnn : number (c n) = n) by (eapply chain_number; [done|lia]).
  assert (b = c (n - 1)) as -> by (apply genuine_inj; [done|eapply chain_genuine; [done|lia]|done]).
  rewrite (chain_number _ _ _ Hchain) in Hbc, Hl by lia.
  assert (Hg' : store_good (model_set_canonical (c n) (model_save (c n) m)))
    by (apply set_canonical_good; [cbn; by rewrite lookup_insert_eq|by apply save_good]).
  split; [destruct Hg'; by split|]. exists (c n). cbn. rewrite Hnn, lookup_insert_eq.
  split_and!; try (done || lia). intros j Hj. cbn.
  destruct (decide (j = n)) as [->|Hjn].
  - exists (c n). rewrite Hnn, lookup_insert_eq, lookup_insert_ne by lia.
    split_and!; try done. intros _. rewrite Hbc. f_equal. symmetry. eapply chain_link; [done|lia].
  - destruct (Hl j ltac:(lia)) as (x & Hx & Hxn & Hxc & Hxp). exists x.
    rewrite Hnn, !lookup_insert_ne by lia. done.
Qed.

(** What [process_new_block] does in each of its three cases. *)
Definition new_block_processed (nb b : RskBlock) (rc : bool) (m : StoreModel) snt (w' : W) : Prop :=
  exists m', synced m' lo /\
    if bool_decide (parent_hash nb = hash b) then
      m_best m' = Some nb /\ at_model rc m' (snt ++ delivered self rc [note (number nb)]) w'
    else if (number b <? number nb) || (total_difficulty b <? total_difficulty nb) then
      caught_up top rc m snt m' w'
    else more_blocks m m' /\ at_model rc m' snt w'.

Lemma wp_process_new_block fuel nb b rc m snt w :
  at_model rc m snt w -> synced m lo -> m_canonical m !! lo = Some (hash (c lo)) ->
  m_best m = Some b -> genuine nb ->
  (parent_hash nb = hash b -> lo < number nb <= top /\ nb = c (number nb)) ->
  top - lo < Z.of_nat fuel ->
  wp (process_new_block self fuel nb) (fun _ => new_block_processed nb b rc m snt) w.
Proof.
  intros Hw Hsync Hlo Hbest Hnb Hext Hfuel. pose proof (chain_range _ _ _ Hchain).
  unfold process_new_block, new_block_processed. wp_steps.
  eapply wp_get_best_w; [done|]. intros w1 Hw1. rewrite Hbest. wp_steps.
  case_bool_decide as Hpar.
  - destruct (Hext Hpar) as [Hn Hc]. rewrite Hc. set (n := number nb) in *. wp_steps.
    eapply wp_process_uncle_blocks; [done|lia|]. intros m1 w2 Hmore Hw2. wp_steps.
    eapply wp_notify_block; [done|]. intros w3 Hw3. wp_steps.
    eapply wp_save_as_best_block; [done|by rewrite <- Hc|]. intros w4 Hw4.
    rewrite (chain_number _ _ _ Hchain) by lia. eexists. split; [|split; [|exact Hw4]]; [|done].
    eapply (extend_synced _ b); [|by rewrite (more_best _ _ Hmore)|done|].
    + destruct Hsync as (_ & b' & ? & ? & ? & ? & Hl). split; [apply Hw2|].
      exists b'. rewrite (more_best _ _ Hmore), (more_canonical _ _ Hmore). split_and!; try done.
      intros j Hj. rewrite (more_canonical _ _ Hmore). by apply Hl.
    + rewrite <- Hpar, Hc. eapply chain_link; [done|lia].
  - destruct (_ || _)%bool.
    + wp_steps. eapply wp_on_env; [done|apply (stable_best _ _ _ _ _ Hnode), Hw1|].
      intros ? w2 -> Hw2. wp_steps.
      eapply wp_mono; [apply (wp_backward_sync top fuel rc m snt w2); (done || lia)|].
      intros [] w3 (m' & Hcu & _). exists m'. split; [|done]. eapply caught_up_synced; [|done]. lia.
    + wp_steps. eapply wp_save_block_w; [done|done|]. intros w2 Hw2.
      eexists. split; [|split; [|exact Hw2]]; [|done].
      destruct Hsync as (_ & b' & ? & ? & ? & ? & Hl). split; [apply Hw2|]. by exists b'.
Qed.
End Sync.

(** ** Theorems *)

(** C2: Against a node whose chain does not move during the sync, and a store
    that holds a linked chain from the initial block up to its best block,
    [backward_sync] from the node's block at height [t] terminates within
    [t - lo + 1] rounds and succeeds.  Afterwards the best block is that block,
    every height from the initial block up to it holds the node's block, the
    chain is linked, no checkpoint is left, and the consumer has received
    exactly the heights at which the store differed, in ascending order, each
    with the uncles the node serves. *)
Theorem backward_sync_correct `{BlockStoreTotal St, RskProvider P, Genuine}
    self stable c lo top uncle_at t fuel (w : World St P RskBlockAndUncles) (m : StoreModel) :
  stable_node stable c lo top uncle_at -> node_chain c lo top ->
  initial_block_hash self = hash (c lo) -> stable (w_env w) ->
  represents (w_store w) m -> synced m lo -> m_canonical m !! lo = Some (hash (c lo)) ->
  lo <= t <= top -> t - lo < Z.of_nat fuel ->
  wp (backward_sync self fuel (c t))
     (fun _ w' => exists m', represents (w_store w') m' /\ synced m' lo /\
        m_best m' = Some (c t) /\ m_checkpoint m' = None /\
        (forall n, lo <= n <= t -> m_canonical m' !! n = Some (hash (c n))) /\
        w_sent w' = w_sent w ++ delivered self (w_receiver w)
          ((fun n => mkBlockAndUncles (c n) (served_uncles c uncle_at n)) <$> outdated m c lo t)) w.
Proof.
  intros Hnode Hchain Hinit Hst Hrep Hsync Hlo Ht Hfuel.
  eapply wp_mono; [eapply (wp_backward_sync self stable c lo top); try done|].
  { split; [done|apply Hsync|done|done|done]. }
  intros [] w' (m' & Hcu & Hcp). exists m'.
  assert (synced m' lo) by (eapply (caught_up_synced self stable c lo top uncle_at); done).
  destruct Hcu as [[] ? ? ?]. done.
Qed.

(** C38: Start-up in [hash] mode.  On a new store, or on one left in sync, with
    no pending checkpoint or one whose parent is on the node's chain,
    initialising and syncing terminates and succeeds, the store ends with the
    node's chain from the initial block to the tip, and what is announced is
    exactly what the initialised store lacked, in ascending order, also when
    the work is split between resuming the checkpoint and the rounds from the
    tip. *)
Theorem startup_sync_correct `{BlockStoreTotal St, RskProvider P, Genuine}
    self stable c lo top uncle_at fuel (w : World St P RskBlockAndUncles) (m : StoreModel) :
  stable_node stable c lo top uncle_at -> node_chain c lo top ->
  initial_block_hash self = hash (c lo) -> stable (w_env w) ->
  represents (w_store w) m -> store_good m ->
  m_best m = None \/ synced m lo /\ m_canonical m !! lo = Some (hash (c lo)) ->
  match m_checkpoint m with
  | Some cp => exists k, lo <= k <= top /\ parent_hash cp = hash (c k)
  | None => True
  end ->
  top - lo < Z.of_nat fuel ->
  wp (_ ← init_db_if_required (c lo); startup_backward_sync self fuel)
     (fun _ w' => exists m', represents (w_store w') m' /\ synced m' lo /\
        m_best m' = Some (c top) /\
        (forall n, lo <= n <= top -> m_canonical m' !! n = Some (hash (c n))) /\
        w_sent w' = w_sent w ++ delivered self (w_receiver w)
          ((fun n => mkBlockAndUncles (c n) (served_uncles c uncle_at n))
             <$> outdated (initialised c lo m) c lo top)) w.
Proof.
  intros Hnode Hchain Hinit Hst Hrep Hgood Hm Hcp Hfuel.
  destruct (initialised_synced c lo top Hchain m Hgood Hm) as [Hsync Hlo].
  apply wp_bind. eapply (wp_init_db_if_required stable c lo top); [done|by split|]. intros w1 Hw1.
  eapply wp_mono; [eapply (wp_startup_backward_sync self stable c lo top); try done|].
  { unfold initialised. by destruct (m_best m). }
  intros [] w' (m' & Hcu). exists m'. pose proof (chain_range _ _ _ Hchain).
  assert (synced m' lo)
    by (eapply (caught_up_synced self stable c lo top uncle_at Hchain top); [|exact Hcu]; lia).
  destruct Hcu as [[] ? ? ?]. done.
Qed.

(** One block from the subscription, in each of the three cases of the code.
    If its parent is the local best block it becomes the best block and is
    announced; if it does not extend the chain but is taller or heavier the
    store catches up with the node; otherwise only the block itself is saved.
    The store stays in sync in every case, and the call always succeeds. *)
Theorem process_new_block_correct `{BlockStoreTotal St, RskProvider P, Genuine}
    self stable c lo top uncle_at fuel (w : World St P RskBlockAndUncles) (m : StoreModel) (nb b : RskBlock) :
  stable_node stable c lo top uncle_at -> node_chain c lo top ->
  initial_block_hash self = hash (c lo) -> stable (w_env w) ->
  represents (w_store w) m -> synced m lo -> m_canonical m !! lo = Some (hash (c lo)) ->
  m_best m = Some b -> genuine nb ->
  (parent_hash nb = hash b -> lo < number nb <= top /\ nb = c (number nb)) ->
  top - lo < Z.of_nat fuel ->
  let announce n := mkBlockAndUncles (c n) (served_uncles c uncle_at n) in
  wp (process_new_block self fuel nb)
     (fun _ w' => exists m', represents (w_store w') m' /\ synced m' lo /\
        if bool_decide (parent_hash nb = hash b) then
          m_best m' = Some nb /\
          w_sent w' = w_sent w ++ delivered self (w_receiver w) [announce (number nb)]
        else if (number b <? number nb) || (total_difficulty b <? total_difficulty nb) then
          m_best m' = Some (c top) /\
          (forall n, lo <= n <= top -> m_canonical m' !! n = Some (hash (c n))) /\
          w_sent w' = w_sent w ++ delivered self (w_receiver w) (announce <$> outdated m c lo top)
        else more_blocks m m' /\ w_sent w' = w_sent w) w.
Proof.
  intros Hnode Hchain Hinit Hst Hrep Hsync Hlo Hbest Hnb Hext Hfuel announce.
  eapply wp_mono; [eapply (wp_process_new_block self stable c lo top uncle_at); try done|].
  { split; [done|apply Hsync|done|done|done]. }
  intros [] w' (m' & Hsync' & Hcase). exists m'. revert Hcase.
  case_bool_decide; [|destruct (_ || _)%bool]; [intros [? []]|intros [[] ? ? ?]|intros [? []]];
    split_and!; done.
Qed.

(** ** A scripted node

    [at_time] gives the node's chain at each query ([None] when it does not
    answer), lowest block first; [stop_at] the query after which a shutdown is
    requested. *)

Module Script.

Record Node := mkNode {
  clock : nat;
  at_time : nat -> option (list RskBlock);
  stop_at : option nat
}.

Definition query {A} (f : list RskBlock -> A) : SR Node failure A := fun p =>
  let p' := mkNode (S (clock p)) (at_time p) (stop_at p) in
  match at_time p (clock p) with
  | Some chain => (Ok (f chain), p')
  | None => (Err (Anyhow ["node unreachable"]), p')
  end.

#[export] Instance scripted : RskProvider Node := {|
  provider_best_block p :=
    match query last p with
    | (Ok (Some b), p') => (Ok b, p')
    | (Ok None, p') => (Err (Anyhow ["no block"]), p')
    | (Err e, p') => (Err e, p')
    end;
  provider_block_by_hash h := query (fun l => head (filter (fun b => hash b = h) l));
  provider_block_by_number n := query (fun l => head (filter (fun b => number b = n) l));
  provider_uncle _ _ := query (fun _ => None);
  provider_logs _ _ _ := query (fun _ => []);
  subscribe_blocks := query (fun _ => tt);
  next_block p := (Err ClosedConnection, p);
  unsubscribe_blocks := query (fun _ => tt);
  subscribe_logs _ := query (fun _ => tt);
  next_log p := (Err ClosedConnection, p);
  unsubscribe_logs := query (fun _ => tt);
  is_on p := (match stop_at p with Some t => (t <=? clock p)%nat | None => false end, p)
|}.

(** Block [n] of branch [f], on a parent of branch [g]. *)
Definition sample (f g n : Z) : RskBlock :=
  new_block n (replicate 30 0 ++ [f; n]) (replicate 30 0 ++ [g; n - 1]) (30 * n) 1 n (replicate 32 1) [].

(** Branch 1 from height 0, and branch 2, which leaves it above height 2. *)
Definition branch1 (n : Z) : RskBlock := sample 1 1 n.
Definition branch2 (n : Z) : RskBlock :=
  if n <=? 2 then branch1 n else sample 2 (if n =? 3 then 1 else 2) n.

Definition blocks (c : Z -> RskBlock) (top : Z) : list RskBlock := c <$> seqZ 0 (top + 1).

(** A store that holds the given blocks, the last one as its best. *)
Definition holding (l : list RskBlock) : StoreModel :=
  mkModel (last l) None (list_to_map ((fun b => (hash b, b)) <$> l))
    (list_to_map ((fun b => (number b, hash b)) <$> l)).

Definition indexer : BlockIndexer := mkBlockIndexer true StartHash (hash (branch1 0)).

Definition world (m : StoreModel) (at_time : nat -> option (list RskBlock)) (stop_at : option nat)
    : World StoreModel Node RskBlockAndUncles := mkWorld m (mkNode 0 at_time stop_at) [] true.

(** The blocks of both branches are told apart by their hashes. *)
Definition known : list RskBlock := blocks branch1 6 ++ blocks branch2 6.

#[export] Instance known_genuine : Genuine.
Proof.
  refine {| genuine b := b ∈ known |}.
  - apply Forall_forall. by_decide.
  - assert (Hinj : Forall (fun a => Forall (fun b => hash a = hash b -> a = b) known) known) by by_decide.
    intros a b Ha Hb. rewrite Forall_forall in Hinj. specialize (Hinj a Ha).
    rewrite Forall_forall in Hinj. by apply Hinj.
Defined.

#[export] Instance known_genuine_dec b : Decision (genuine b).
Proof. cbn. apply _. Defined.

Definition quiet (l : list RskBlock) (p : Node) : Prop :=
  (forall t, at_time p t = Some l) /\ stop_at p = None.

Lemma wp_query {A} (f : list RskBlock -> A) l p (Q : A -> Node -> Prop) :
  quiet l p -> (forall p', quiet l p' -> Q (f l) p') -> wp (query f) Q p.
Proof.
  intros [Hat Hstop] HQ. exists (f l). eexists. unfold query. rewrite Hat. split; [done|].
  by apply HQ.
Qed.

Lemma branch2_node : stable_node (quiet (blocks branch2 5)) branch2 0 5 (fun _ _ => None).
Proof.
  split.
  - intros p [Hat Hstop]. exists p. cbn. rewrite Hstop. done.
  - intros p n Hp Hn. eapply wp_query; [done|]. intros p' Hp'. split; [|done].
    revert n Hn. apply by_range. by_decide.
  - intros p [Hat Hstop]. exists (branch2 5). eexists. split; [cbn; unfold query; by rewrite Hat|]. by split.
  - intros p n Hp Hn. eapply wp_query; [done|]. intros p' Hp'. split; [|done].
    revert n Hn. apply by_range. by_decide.
  - intros p n i Hp Hn. by eapply wp_query.
  - done.
Qed.

Lemma branch_chain : node_chain branch1 0 4 /\ node_chain branch2 0 5.
Proof.
  split; (split; [lia|lia|apply by_range; by_decide|apply by_range; by_decide|]).
  - intros n Hn. assert (1 <= n <= 4) as H by lia. clear Hn.
    revert n H. apply by_range. by_decide.
  - intros n Hn. assert (1 <= n <= 5) as H by lia. clear Hn.
    revert n H. apply by_range. by_decide.
Qed.

(** A store on branch 1 up to height 4, from the initial block on. *)
Definition stored : StoreModel := Eval vm_compute in holding (blocks branch1 4).

Lemma stored_synced : synced stored 0 /\ m_canonical stored !! 0 = Some (hash (branch2 0)).
Proof.
  split; [|by vm_compute]. split; [split|].
  - intros h b. apply (map_Forall_lookup_1 (fun h b => hash b = h /\ genuine b)). by_decide.
  - intros n h. apply (map_Forall_lookup_1 (fun n h => is_Some (m_blocks stored !! h))). by_decide.
  - exists (branch1 4). split_and!; [by vm_compute|by_decide|done|by vm_compute|].
    eapply linked_chain; [apply branch_chain|]. apply by_range. by_decide.
Qed.

End Script.

Import Script.

Lemma backward_sync_correct_witness :
  wp (backward_sync indexer 6 (branch2 5))
     (fun _ w' => w_sent w' = (fun n => mkBlockAndUncles (branch2 n) []) <$> [3; 4; 5])
     (world stored (fun _ => Some (blocks branch2 5)) None).
Proof.
  eapply wp_mono; [apply (backward_sync_correct indexer (quiet (blocks branch2 5)) branch2 0 5
    (fun _ _ => None) 5 6 _ stored)|].
  - apply branch2_node.
  - apply branch_chain.
  - reflexivity.
  - split; [intros t; reflexivity|reflexivity].
  - reflexivity.
  - apply stored_synced.
  - apply stored_synced.
  - lia.
  - lia.
  - intros [] w' (m' & _ & _ & _ & _ & _ & ->). vm_compute. reflexivity.
Defined.

Lemma startup_sync_correct_witness :
  wp (_ ← init_db_if_required (branch2 0); startup_backward_sync indexer 6)
     (fun _ w' => w_sent w' = (fun n => mkBlockAndUncles (branch2 n) []) <$> [1; 2; 3; 4; 5])
     (world empty_model (fun _ => Some (blocks branch2 5)) None).
Proof.
  eapply wp_mono; [apply (startup_sync_correct indexer (quiet (blocks branch2 5)) branch2 0 5
    (fun _ _ => None) 6 _ empty_model)|].
  - apply branch2_node.
  - apply branch_chain.
  - reflexivity.
  - split; [intros t; reflexivity|reflexivity].
  - reflexivity.
  - split; intros ? ? Hin; discriminate Hin.
  - left. reflexivity.
  - exact I.
  - lia.
  - intros [] w' (m' & _ & _ & _ & _ & ->). vm_compute. reflexivity.
Defined.

Lemma process_new_block_correct_witness :
  wp (process_new_block indexer 6 (branch2 5))
     (fun _ w' => w_sent w' = (fun n => mkBlockAndUncles (branch2 n) []) <$> [3; 4; 5])
     (world stored (fun _ => Some (blocks branch2 5)) None).
Proof.
  eapply wp_mono; [apply (process_new_block_correct indexer (quiet (blocks branch2 5)) branch2 0 5
    (fun _ _ => None) 6 _ stored (branch2 5) (branch1 4))|].
  - apply branch2_node.
  - apply branch_chain.
  - reflexivity.
  - split; [intros t; reflexivity|reflexivity].
  - reflexivity.
  - apply stored_synced.
  - apply stored_synced.
  - vm_compute. reflexivity.
  - by_decide.
  - intros Hpar. vm_compute in Hpar. discriminate Hpar.
  - lia.
  - intros [] w' (m' & _ & _ & Hcase). rewrite bool_decide_eq_false_2 in Hcase by by_decide.
    destruct Hcase as (_ & _ & ->). vm_compute. reflexivity.
Defined.

(** ** Syncs that are cut short

    The next three theorems run the code against a node that fails, a shutdown
    and a node that reorganises during the walk. *)

(** The store and the messages of a world, with the node replaced. *)
Definition restart (w : World StoreModel Node RskBlockAndUncles) (at_time : nat -> option (list RskBlock))
    : World StoreModel Node RskBlockAndUncles := mkWorld (w_store w) (mkNode 0 at_time None) (w_sent w) true.

(** A failed sync is not repaired by the next one.  The store is on branch 1
    up to height 5; a sync to the tip of branch 2 replaces heights 6 and 5 and
    then loses the node.  The next sync, against a healthy node, meets its own
    block at height 5, which is not above the old best block, and completes
    there: it succeeds, sets the tip as the best block, announces nothing, and
    leaves at height 4 a block that is not the parent of the canonical block at
    height 5. *)
Theorem failed_sync_leaves_stale_blocks :
  let node := Some (blocks branch2 6) in
  let '(r1, w1) := backward_sync indexer 20 (branch2 6)
    (world (holding (blocks branch1 5)) (fun t => if (t <=? 0)%nat then node else None) None) in
  let '(r2, w2) := backward_sync indexer 20 (branch2 6) (restart w1 (fun _ => node)) in
  is_ok r1 = false /\ r2 = Ok tt /\
  m_best (w_store w2) = Some (branch2 6) /\ w_sent w2 = [] /\
  m_canonical (w_store w2) !! 5 = Some (hash (branch2 5)) /\
  m_canonical (w_store w2) !! 4 = Some (hash (branch1 4)) /\
  parent_hash (branch2 5) <> hash (branch1 4).
Proof. vm_compute. repeat split. discriminate. Qed.

(** A shutdown during the walk loses announcements: the blocks collected so far
    are dropped, and after the restart they are known and not collected again.
    Blocks 5 and 4 become canonical and are never sent. *)
Theorem interrupted_sync_skips_announcements :
  let node (_ : nat) := Some (blocks branch1 5) in
  let '(r1, w1) := backward_sync indexer 20 (branch1 5)
    (world (holding (blocks branch1 2)) node (Some 1%nat)) in
  let '(r2, w2) := startup_backward_sync indexer 20 (restart w1 node) in
  r1 = Ok tt /\ m_checkpoint (w_store w1) = Some (branch1 4) /\ r2 = Ok tt /\
  m_best (w_store w2) = Some (branch1 5) /\
  m_canonical (w_store w2) !! 4 = Some (hash (branch1 4)) /\
  w_sent w2 = [mkBlockAndUncles (branch1 3) []].
Proof. vm_compute. by repeat split. Qed.

(** When the node reorganises to a lower tip during the walk, the walk goes on
    from that tip but the abandoned starting block still becomes the best block:
    height 4 stays empty below it, and it is announced right after block 3. *)
Theorem shrinking_node_leaves_gap :
  let '(r, w) := backward_sync indexer 20 (branch1 5)
    (world (holding (blocks branch1 2)) (fun _ => Some (blocks branch1 3)) None) in
  r = Ok tt /\ m_best (w_store w) = Some (branch1 5) /\ m_canonical (w_store w) !! 4 = None /\
  w_sent w = (fun n => mkBlockAndUncles (branch1 n) []) <$> [3; 5].
Proof. vm_compute. by repeat split. Qed.
