(* ===== verification/LogIndexer.v ===== *)
(** * The log indexer (crates/log-indexer/src/indexer.rs and store.rs)

    [LogIndexer] recovers the logs of the managed contracts from the node in
    batches ([recover_logs]), then follows the log subscription ([listen_logs]),
    storing each log with a checkpoint and sending it to its consumers.
    [RawLogStore] keeps logs in a key-value database. *)

From stdpp Require Import prelude gmap strings pretty.
From S2P Require Import Prelude BlockHeader Types Provider.
Open Scope Z_scope.

(** ** store.rs *)

(** trait [LogStore] *)
Class LogStore (S : Type) := {
  save_log : RskLog -> SR S failure unit;
  save_logs : list RskLog -> SR S failure unit;
  get_sync_checkpoint : SR S failure (option RskLog);
  set_sync_checkpoint : RskLog -> SR S failure unit
}.

(** A log is identified by its contract, transaction and index. *)
Definition LogKey : Type := Address * Hash256 * Z.
Definition log_key (l : RskLog) : LogKey :=
  (address (info l), tx_hash (info l), log_index (info l)).

(** What a log store keeps. *)
Record LogModel := mkLogModel {
  lm_logs : gmap LogKey RskLog;
  lm_checkpoint : option RskLog
}.

Definition empty_logs : LogModel := mkLogModel ∅ None.
Definition lm_save (l : RskLog) (m : LogModel) : LogModel :=
  mkLogModel (<[log_key l := l]> (lm_logs m)) (lm_checkpoint m).
Definition lm_save_all (ls : list RskLog) (m : LogModel) : LogModel :=
  foldl (fun m l => lm_save l m) m ls.
Definition lm_set_checkpoint (l : RskLog) (m : LogModel) : LogModel :=
  mkLogModel (lm_logs m) (Some l).

(** The widths the types of a log guarantee. *)
Definition log_ok (l : RskLog) : Prop :=
  (length (address (info l)) = 20%nat /\ bytes_ok (address (info l))) /\
  h256_ok (tx_hash (info l)) /\ uint 64 (log_index (info l)).

#[export] Instance log_ok_dec l : Decision (log_ok l).
Proof. unfold log_ok. apply _. Defined.

Inductive LogStoreKey := LogId (addr : Address) (tx_hash : string) (log_index : Z) | LogSyncCheckpoint.

Definition LOG_PREFIX : string := "logs/".

Definition log_key_value (k : LogStoreKey) : string :=
  match k with
  | LogId addr tx_hash log_index =>
      LOG_PREFIX +:+ hash_to_string addr +:+ "/" +:+ tx_hash +:+ "/" +:+ pretty (Z.to_N log_index)
  | LogSyncCheckpoint => "meta/sync_checkpoint"
  end.

(** [storage_backend::KeyValueStore], for values of type [RskLog] *)
Class LogStorage (D : Type) := {
  ldb_get : string -> SR D failure (option RskLog);
  ldb_set : string -> RskLog -> SR D failure unit
}.

Class LogStorageLaws (D : Type) `{LogStorage D} := {
  ldb_view : D -> gmap string RskLog;
  ldb_get_spec k d o d' : ldb_get k d = (Ok o, d') -> ldb_view d' = ldb_view d /\ o = ldb_view d !! k;
  ldb_set_spec k v d d' : ldb_set k v d = (Ok tt, d') -> ldb_view d' = <[k := v]> (ldb_view d)
}.

Module Raw.
Section RawLogStore.
Context `{LogStorage D}.

Definition save_log (log : RskLog) : SR D failure unit :=
  ldb_set (log_key_value (LogId (address (info log)) (hash_to_string (tx_hash (info log)))
             (log_index (info log)))) log.

(** [logs.iter().try_for_each(|log| self.save_log(log))] *)
Fixpoint save_logs (logs : list RskLog) : SR D failure unit :=
  match logs with
  | [] => mret tt
  | log :: logs => _ ← save_log log; save_logs logs
  end.

Definition get_sync_checkpoint : SR D failure (option RskLog) :=
  ldb_get (log_key_value LogSyncCheckpoint).

Definition set_sync_checkpoint (log : RskLog) : SR D failure unit :=
  ldb_set (log_key_value LogSyncCheckpoint) log.

End RawLogStore.
End Raw.

#[export] Instance raw_log_store `{LogStorage D} : LogStore D := {|
  save_log := Raw.save_log; save_logs := Raw.save_logs;
  get_sync_checkpoint := Raw.get_sync_checkpoint; set_sync_checkpoint := Raw.set_sync_checkpoint |}.

(** ** indexer.rs *)

Record ContractInfo := mkContractInfo { contract_name : string; contract_address : Address }.

Record LogIndexer := mkLogIndexer {
  new_log_sender : bool;
  log_start_from : IndexerStartFrom;
  initial_block_number : BlockNumber;
  sync_batch_size : Z;
  sync_finality_depth : Z;
  managed_contracts : gmap Address ContractInfo
}.

(** [LogIndexer::new_with_notifier] and [LogIndexer::new] *)
Definition new_log_indexer `{RskProvider P} (with_notifier : bool) (indexer_config : IndexerConfig)
    (managed_contracts : gmap Address ContractInfo) : SR P failure LogIndexer :=
  initial_block ← resolve_initial_block indexer_config;
  mret (mkLogIndexer with_notifier (start_from indexer_config) (number initial_block)
    (batch_size (sync indexer_config)) (finality_depth (sync indexer_config)) managed_contracts).

Definition max_log_attempts : Z := 10.

Section Indexer.
Context `{LogStore St, RskProvider P}.
Abbreviation W := (World St P RskLog).
Variable self : LogIndexer.

Definition warn_if_filled_log_db : SR W failure unit :=
  _ ← on_store get_sync_checkpoint; mret tt.

Definition save_logs_and_checkpoint (logs : list RskLog) : SR W failure unit :=
  match logs with
  | [] => mret tt
  | _ =>
      _ ← on_store (save_logs logs);
      match last logs with
      | Some last_log => on_store (set_sync_checkpoint last_log)
      | None => mret tt
      end
  end.

(** The [while] of [recover_logs], each round for one unit of fuel; returns the
    final value of [end]. *)
Fixpoint recover_loop (fuel : nat) (addrs : list Address) (start end_ : BlockNumber) (attempt : Z)
    : SR W failure BlockNumber :=
  match fuel with
  | O => sfail OutOfFuel
  | S fuel =>
      running ← is_running;
      if negb (running && (start <=? end_)) then mret end_ else
      if max_log_attempts <? attempt then
        bail "Failed to recover logs after 10 attempts. Best block kept changing."
      else
        let from := start in
        let to := if bn_add start (sync_batch_size self) <? end_
                  then bn_add start (sync_batch_size self) else end_ in
        logs ← on_env (provider_logs from to addrs);
        _ ← save_logs_and_checkpoint logs;
        if to =? end_ then
          new_best_block ← on_env provider_best_block;
          if end_ <? number new_best_block
          then recover_loop fuel addrs (bn_add to 1) (number new_best_block) (attempt + 1)
          else recover_loop fuel addrs (bn_add to 1) end_ attempt
        else recover_loop fuel addrs (bn_add to 1) end_ attempt
  end.

Definition recovery_start (checkpoint : option RskLog) : BlockNumber :=
  let start := match checkpoint with
               | Some log => block_number (info log)
               | None => initial_block_number self
               end in
  saturating_sub start (sync_finality_depth self).

Definition recover_logs (fuel : nat) (addrs : list Address) : SR W failure BlockNumber :=
  checkpoint ← on_store get_sync_checkpoint;
  best_block ← on_env provider_best_block;
  recover_loop fuel addrs (recovery_start checkpoint) (number best_block) 1.

(** What [listen_logs] does with one log. *)
Definition accepted (new_log : RskLog) : bool :=
  (initial_block_number self <=? block_number (info new_log)) &&
  bool_decide (is_Some (managed_contracts self !! address (info new_log))).

Definition process_new_log (new_log : RskLog) : SR W failure unit :=
  if negb (accepted new_log) then mret tt else
  _ ← context "Saving new log" (on_store (save_log new_log));
  _ ← context "Setting new log checkpoint" (on_store (set_sync_checkpoint new_log));
  if new_log_sender self then send new_log else mret tt.

Fixpoint listen_logs (rounds : nat) : SR W failure unit :=
  match rounds with
  | O => sfail OutOfFuel
  | S rounds =>
      running ← is_running;
      if negb running then mret tt else
      (fun w =>
        match on_env next_log w with
        | (Ok new_log, w1) => (_ ← process_new_log new_log; listen_logs rounds) w1
        | (Err ClosedConnection, w1) =>
            (running ← is_running;
             if (running : bool) then bail "Provider closed unexpectedly!" else mret tt) w1
        | (Err (Transient _), w1) => listen_logs rounds w1
        | (Err (Lagged _), w1) => listen_logs rounds w1
        | (Err (Unexpected _), w1) => bail "[subscribe_logs] Unknown error on log subs" w1
        end) : SR W failure unit
  end.

(** [RskIndexer::run] *)
Definition run_log_indexer (rounds fuel : nat) : SR W failure unit :=
  running ← is_running;
  if negb running then mret tt else
  let contract_addresses := (fun c => contract_address (snd c)) <$> map_to_list (managed_contracts self) in
  last_block_number ←
    match log_start_from self with
    | StartBest => _ ← warn_if_filled_log_db; mret (initial_block_number self)
    | StartHash => recover_logs fuel contract_addresses
    end;
  _ ← context "Failed to subscribe to logs"
        (on_env (subscribe_logs (mkFilter contract_addresses [] (Some last_block_number))));
  (fun w =>
    let '(loop_result, w1) := listen_logs rounds w in
    match on_env unsubscribe_logs w1 with
    | (Ok _, w2) => (loop_result, w2)
    | (Err e, w2) => (Err e, w2)
    end) : SR W failure unit.

End Indexer.

(** ** The store keeps what the model says *)

Class LogStoreLaws (S : Type) `{LogStore S} := {
  log_represents : S -> LogModel -> Prop;
  save_log_law s m l s' : log_represents s m -> log_ok l -> save_log l s = (Ok tt, s') ->
    log_represents s' (lm_save l m);
  save_logs_law s m ls s' : log_represents s m -> Forall log_ok ls -> save_logs ls s = (Ok tt, s') ->
    log_represents s' (lm_save_all ls m);
  get_sync_checkpoint_law s m o s' : log_represents s m -> get_sync_checkpoint s = (Ok o, s') ->
    o = lm_checkpoint m /\ log_represents s' m;
  set_sync_checkpoint_law s m l s' : log_represents s m -> log_ok l ->
    set_sync_checkpoint l s = (Ok tt, s') -> log_represents s' (lm_set_checkpoint l m)
}.

(** A log store that does not fail. *)
Class LogStoreTotal (S : Type) `{LogStoreLaws S} := {
  save_log_total s m l : log_represents s m -> log_ok l -> exists s', save_log l s = (Ok tt, s');
  save_logs_total s m ls : log_represents s m -> Forall log_ok ls ->
    exists s', save_logs ls s = (Ok tt, s');
  get_sync_checkpoint_total s m : log_represents s m -> exists o s', get_sync_checkpoint s = (Ok o, s');
  set_sync_checkpoint_total s m l : log_represents s m -> log_ok l ->
    exists s', set_sync_checkpoint l s = (Ok tt, s')
}.

Lemma string_app_inj (s1 s2 t1 t2 : string) :
  String.length s1 = String.length t1 -> s1 +:+ s2 = t1 +:+ t2 -> s1 = t1 /\ s2 = t2.
Proof.
  revert t1. induction s1 as [|a s1 IH]; intros [|b t1] Hlen Heq; try done.
  injection Hlen as Hlen. injection Heq as -> Heq. destruct (IH _ Hlen Heq) as [-> ->]. done.
Qed.

Lemma hash_to_string_length h h' :
  length h = length h' -> String.length (hash_to_string h) = String.length (hash_to_string h').
Proof.
  intros Hlen. change (S (S (String.length (hex_encode h))) = S (S (String.length (hex_encode h')))).
  rewrite !hex_encode_length. lia.
Qed.

Definition key_of (k : LogKey) : LogStoreKey :=
  let '(a, t, i) := k in LogId a (hash_to_string t) i.

Lemma log_key_value_inj l l' :
  log_ok l -> log_ok l' ->
  log_key_value (key_of (log_key l)) = log_key_value (key_of (log_key l')) -> log_key l = log_key l'.
Proof.
  intros [[Hla Hba] [[Hlt Hbt] Hi]] [[Hla' Hba'] [[Hlt' Hbt'] Hi']] Heq.
  unfold log_key, key_of, log_key_value in *.
  apply string_app_inj in Heq as [_ Heq]; [|done].
  apply string_app_inj in Heq as [Ha Heq]; [|apply hash_to_string_length; lia].
  apply string_app_inj in Heq as [_ Heq]; [|done].
  apply string_app_inj in Heq as [Ht Heq]; [|apply hash_to_string_length; lia].
  apply string_app_inj in Heq as [_ Heq]; [|done].
  apply hash_to_string_inj in Ha; [|done..]. apply hash_to_string_inj in Ht; [|done..].
  apply (inj pretty) in Heq. unfold uint in *. rewrite Ha, Ht. f_equal. lia.
Qed.

Section RawRefinement.
Context `{LogStorageLaws D}.

Record raw_represents (d : D) (m : LogModel) : Prop := {
  raw_logs l : log_ok l ->
    ldb_view d !! log_key_value (key_of (log_key l)) = lm_logs m !! log_key l;
  raw_checkpoint : ldb_view d !! log_key_value LogSyncCheckpoint = lm_checkpoint m
}.

Lemma raw_save_log_ok d m l u d' :
  raw_represents d m -> log_ok l -> Raw.save_log l d = (Ok u, d') -> raw_represents d' (lm_save l m).
Proof.
  intros [Hl Hc] Hok Hr. destruct u.
  assert (Hv : ldb_view d' = <[log_key_value (key_of (log_key l)) := l]> (ldb_view d))
    by apply (ldb_set_spec _ _ _ _ Hr).
  split; rewrite Hv; [|by rewrite lookup_insert_ne].
  intros l' Hl'. unfold lm_save. cbn [lm_logs].
  destruct (decide (log_key l = log_key l')) as [E|E].
  - rewrite E, !lookup_insert_eq. done.
  - rewrite !lookup_insert_ne; [by apply Hl|done|]. by intros ?%log_key_value_inj.
Qed.

Lemma raw_save_logs_ok ls d m u d' :
  raw_represents d m -> Forall log_ok ls -> Raw.save_logs ls d = (Ok u, d') ->
  raw_represents d' (lm_save_all ls m).
Proof.
  revert d m. induction ls as [|l ls IH]; intros d m Hd Hls Hr; cbn in Hr; sr_inv Hr; [done|].
  apply Forall_cons in Hls as [Hl Hls]. eapply IH; [|done|done]. by eapply raw_save_log_ok.
Qed.

#[export] Instance raw_log_store_laws : LogStoreLaws D.
Proof.
  refine {| log_represents := raw_represents |}; intros d m *.
  - apply raw_save_log_ok.
  - apply raw_save_logs_ok.
  - intros [Hl Hc] Hr. apply ldb_get_spec in Hr as [Hv ->]. split; [done|]. by split; rewrite Hv.
  - intros [Hl Hc] Hok Hr. apply ldb_set_spec in Hr. split; rewrite Hr; cbn.
    + intros l' Hl'. rewrite lookup_insert_ne by done. by apply Hl.
    + apply lookup_insert_eq.
Defined.

End RawRefinement.

(** The model implements itself. *)
#[export] Instance model_log_store : LogStore LogModel := {|
  save_log l m := (Ok tt, lm_save l m);
  save_logs ls m := (Ok tt, lm_save_all ls m);
  get_sync_checkpoint m := (Ok (lm_checkpoint m), m);
  set_sync_checkpoint l m := (Ok tt, lm_set_checkpoint l m)
|}.

#[export] Instance model_log_store_laws : LogStoreLaws LogModel.
Proof. refine {| log_represents s m := s = m |}; intros s m *; intros; by simplify_eq/=. Defined.

#[export] Instance model_log_store_total : LogStoreTotal LogModel.
Proof. split; cbn; eauto. Qed.

(** ** Recovery *)

(** The logs of the blocks from [from] to [to], in order. *)
Definition logs_between (logs_at : Z -> list RskLog) (from to : Z) : list RskLog :=
  concat (logs_at <$> seqZ from (to - from + 1)).

(** The store after recovering the logs [ls]. *)
Definition recovered (m : LogModel) (ls : list RskLog) : LogModel :=
  mkLogModel (lm_logs (lm_save_all ls m)) (from_option Some (lm_checkpoint m) (last ls)).

(** A node that answers, whose best block may grow up to height [hmax] between
    any two calls; [node h p] says that it has reached height [h]. *)
Record growing_node `{RskProvider P} (node : Z -> P -> Prop) (logs_at : Z -> list RskLog)
    (addrs : list Address) (hmax : Z) : Prop := {
  grow_running h p : node h p -> exists p', is_on p = (false, p') /\ node h p';
  grow_best h p : node h p ->
    wp provider_best_block (fun b p' => h <= number b <= hmax /\ node (number b) p') p;
  grow_logs h p from to : node h p -> 0 <= from <= to -> to <= h ->
    wp (provider_logs from to addrs)
       (fun ls p' => ls = logs_between logs_at from to /\ exists h', h <= h' <= hmax /\ node h' p') p;
  grow_log_ok n l : l ∈ logs_at n -> log_ok l
}.

Lemma lm_save_all_app ls ls' m : lm_save_all (ls ++ ls') m = lm_save_all ls' (lm_save_all ls m).
Proof. apply foldl_app. Qed.

Lemma lm_save_all_logs ls m m' :
  lm_logs m = lm_logs m' -> lm_logs (lm_save_all ls m) = lm_logs (lm_save_all ls m').
Proof.
  revert m m'. induction ls as [|l ls IH]; intros m m' Heq; [done|].
  apply (IH (lm_save l m) (lm_save l m')). cbn. by rewrite Heq.
Qed.

Lemma recovered_app m ls ls' : recovered (recovered m ls) ls' = recovered m (ls ++ ls').
Proof.
  unfold recovered. cbn. f_equal.
  - rewrite lm_save_all_app. by apply lm_save_all_logs.
  - rewrite last_app. by destruct (last ls').
Qed.

Lemma recovered_nil m : recovered m [] = m.
Proof. by destruct m. Qed.

Lemma recovered_checkpoint m ls l :
  last ls = Some l -> lm_set_checkpoint l (lm_save_all ls m) = recovered m ls.
Proof. intros Hl. unfold recovered. by rewrite Hl. Qed.

Lemma logs_between_app logs_at from mid to :
  from - 1 <= mid <= to ->
  logs_between logs_at from mid ++ logs_between logs_at (mid + 1) to = logs_between logs_at from to.
Proof.
  intros Hm. unfold logs_between. rewrite <- concat_app, <- fmap_app. do 2 f_equal.
  replace (to - from + 1) with ((mid - from + 1) + (to - (mid + 1) + 1)) by lia.
  rewrite (seqZ_app from (mid - from + 1)) by lia. by replace (from + (mid - from + 1)) with (mid + 1) by lia.
Qed.

Lemma logs_between_empty logs_at from to : to < from -> logs_between logs_at from to = [].
Proof. intros. unfold logs_between. by rewrite seqZ_nil by lia. Qed.

Section Recovery.
Context `{LogStoreTotal St, RskProvider P}.
Context (self : LogIndexer) (addrs : list Address) (node : Z -> P -> Prop).
Context (logs_at : Z -> list RskLog) (hmax : Z).
Hypothesis Hnode : growing_node node logs_at addrs hmax.
Hypothesis Hbatch : 0 <= sync_batch_size self.
Hypothesis Hwidth : hmax + sync_batch_size self + 1 < 2 ^ 64.

Abbreviation W := (World St P RskLog).

Record at_logs (m : LogModel) (h : Z) (snt : list RskLog) (rc : bool) (w : W) : Prop := {
  al_represents : log_represents (w_store w) m;
  al_node : node h (w_env w);
  al_sent : w_sent w = snt;
  al_receiver : w_receiver w = rc
}.

Lemma logs_between_ok from to : Forall log_ok (logs_between logs_at from to).
Proof.
  apply Forall_concat, Forall_forall. intros ls (n & -> & _)%list_elem_of_fmap.
  apply Forall_forall. intros l. by apply (grow_log_ok _ _ _ _ Hnode).
Qed.

Lemma wp_save_logs_and_checkpoint ls m h snt rc w (Q : unit -> W -> Prop) :
  at_logs m h snt rc w -> Forall log_ok ls ->
  (forall w', at_logs (recovered m ls) h snt rc w' -> Q tt w') ->
  wp (save_logs_and_checkpoint ls) Q w.
Proof.
  intros Hw Hls HQ. destruct (last ls) as [l|] eqn:El.
  2: { apply last_None in El as ->. apply wp_ret, HQ. by rewrite recovered_nil. }
  unfold save_logs_and_checkpoint. rewrite El. destruct ls as [|x ls]; [done|].
  destruct Hw as [Hr Hn Hs Hrc]. apply wp_bind, wp_zoom.
  destruct (save_logs_total _ _ _ Hr Hls) as [s1 Hs1].
  pose proof (save_logs_law _ _ _ _ Hr Hls Hs1) as Hr1. exists tt, s1. split; [done|].
  assert (Hl : log_ok l) by (rewrite Forall_forall in Hls; apply Hls; by apply last_Some_elem_of).
  destruct (set_sync_checkpoint_total _ _ _ Hr1 Hl) as [s2 Hs2].
  pose proof (set_sync_checkpoint_law _ _ _ _ Hr1 Hl Hs2) as Hr2.
  apply wp_zoom. exists tt, s2. split; [done|]. apply HQ. split; try done.
  by rewrite <- (recovered_checkpoint _ _ l).
Qed.

Lemma wp_log_running m h snt rc w (Q : bool -> W -> Prop) :
  at_logs m h snt rc w -> (forall w', at_logs m h snt rc w' -> Q true w') -> wp is_running Q w.
Proof.
  intros [Hr Hn Hs Hrc] HQ. destruct (grow_running _ _ _ _ Hnode _ _ Hn) as (p' & Hon & Hn').
  exists true. eexists. split; [apply zoom_ok; exists p'; by rewrite Hon|]. by apply HQ.
Qed.

Lemma wp_log_best m h snt rc w (Q : RskBlock -> W -> Prop) :
  at_logs m h snt rc w ->
  (forall b w', h <= number b <= hmax -> at_logs m (number b) snt rc w' -> Q b w') ->
  wp (on_env provider_best_block) Q w.
Proof.
  intros [Hr Hn Hs Hrc] HQ. destruct (grow_best _ _ _ _ Hnode _ _ Hn) as (b & p' & Hb & Hh & Hn').
  apply wp_zoom. exists b, p'. split; [done|]. by apply HQ.
Qed.

Lemma wp_log_logs from to m h snt rc w (Q : list RskLog -> W -> Prop) :
  at_logs m h snt rc w -> 0 <= from <= to -> to <= h ->
  (forall h' w', h <= h' <= hmax -> at_logs m h' snt rc w' -> Q (logs_between logs_at from to) w') ->
  wp (on_env (provider_logs from to addrs)) Q w.
Proof.
  intros [Hr Hn Hs Hrc] Hf Ht HQ.
  destruct (grow_logs _ _ _ _ Hnode _ _ _ _ Hn Hf Ht) as (ls & p' & Hls & -> & h' & Hh' & Hn').
  apply wp_zoom. eexists _, p'. split; [done|]. by eapply HQ.
Qed.

Definition kept_changing : failure :=
  Anyhow ["Failed to recover logs after 10 attempts. Best block kept changing."].

(** How a recovery from [start] ends, when [end_] is the height aimed at: with
    all logs up to a height not below it, or, if the best block can still grow
    too often, with an error. *)
Definition recovery_outcome (m : LogModel) (start end_ attempt : Z) snt rc
    (r : result failure BlockNumber) (w' : W) : Prop :=
  match r with
  | Ok e => end_ <= e <= hmax /\ exists h, at_logs (recovered m (logs_between logs_at start e)) h snt rc w'
  | Err f => f = kept_changing /\ max_log_attempts < attempt + (hmax - end_)
  end.

(** A total-correctness step in front of a computation that may fail. *)
Lemma wp_then {A B} (op : SR W failure A) (f : A -> SR W failure B) (R : result failure B -> W -> Prop) w :
  wp op (fun a w1 => R (fst (f a w1)) (snd (f a w1))) w ->
  R (fst ((op ≫= f) w)) (snd ((op ≫= f) w)).
Proof. intros (a & w1 & Hop & HR). unfold mbind, SR_bind. by rewrite Hop. Qed.

Lemma recover_loop_outcome fuel start end_ attempt m h snt rc w :
  at_logs m h snt rc w -> 0 <= start <= end_ + 1 -> end_ <= h <= hmax ->
  hmax - start + 1 < Z.of_nat fuel ->
  recovery_outcome m start end_ attempt snt rc
    (fst (recover_loop self fuel addrs start end_ attempt w))
    (snd (recover_loop self fuel addrs start end_ attempt w)).
Proof.
  revert start end_ attempt m h w.
  induction fuel as [|fuel IH]; intros start end_ attempt m h w Hw Hstart Hend Hfuel; [lia|].
  cbn [recover_loop]. apply wp_then. eapply wp_log_running; [done|]. intros w1 Hw1. cbn [andb].
  destruct (Z.leb_spec start end_) as [Hle|Hgt]; cbn [negb].
  2: { cbn. split; [lia|]. exists h. by rewrite logs_between_empty, recovered_nil by lia. }
  destruct (Z.ltb_spec max_log_attempts attempt) as [Hatt|Hatt].
  { cbn. split; [done|]. lia. }
  set (to := if bn_add start (sync_batch_size self) <? end_
             then bn_add start (sync_batch_size self) else end_).
  assert (Hto : start <= to <= end_).
  { unfold to. rewrite bn_add_small by lia. destruct (Z.ltb_spec (start + sync_batch_size self) end_); lia. }
  apply wp_then. eapply wp_log_logs; [done|lia..|]. intros h2 w2 Hh2 Hw2.
  apply wp_then. eapply wp_save_logs_and_checkpoint; [done|apply logs_between_ok|]. intros w3 Hw3.
  rewrite bn_add_small by lia.
  assert (Hnext : forall end' attempt' w4 h4, at_logs (recovered m (logs_between logs_at start to)) h4 snt rc w4 ->
    end_ <= end' <= h4 -> h4 <= hmax -> attempt' - end' <= attempt - end_ ->
    recovery_outcome m start end_ attempt snt rc
      (fst (recover_loop self fuel addrs (to + 1) end' attempt' w4))
      (snd (recover_loop self fuel addrs (to + 1) end' attempt' w4))).
  { intros end' attempt' w4 h4 Hw4 He Hh4 Ha.
    specialize (IH (to + 1) end' attempt' _ _ _ Hw4). unfold recovery_outcome in *.
    destruct (fst _) as [e|f].
    - destruct IH as [Hle' [h' Hw']]; [lia..|]. split; [lia|]. exists h'.
      by rewrite recovered_app, logs_between_app in Hw' by lia.
    - destruct IH as [-> Hbound]; [lia..|]. split; [done|]. lia. }
  destruct (Z.eqb_spec to end_); [|by apply (Hnext end_ attempt _ h2); [|lia..]].
  apply wp_then. eapply wp_log_best; [done|]. intros b w4 Hb Hw4.
  destruct (Z.ltb_spec end_ (number b)); by apply (Hnext _ _ _ (number b)); [|lia..].
Qed.
End Recovery.

(** C37: Recovery terminates and leaves no gap.  Against a node whose best block
    may grow between any two calls, [recover_logs] returns a height [e] not
    below the best block at the start, with exactly the logs of the blocks from
    the checkpoint minus the finality depth up to [e] saved in order and the
    checkpoint on the last of them; or it reports that the best block kept
    changing, which needs a growth of ten blocks or more.  Nothing is sent to
    the consumers. *)
Theorem recover_logs_complete `{LogStoreTotal St, RskProvider P}
    self addrs node logs_at h hmax fuel (w : World St P RskLog) (m : LogModel) :
  let start := recovery_start self (lm_checkpoint m) in
  growing_node node logs_at addrs hmax -> node h (w_env w) -> log_represents (w_store w) m ->
  0 <= sync_batch_size self -> hmax + sync_batch_size self + 1 < 2 ^ 64 ->
  start <= h + 1 -> hmax - start + 1 < Z.of_nat fuel ->
  let '(r, w') := recover_logs self fuel addrs w in
  match r with
  | Ok e => h <= e <= hmax /\ w_sent w' = w_sent w /\
      log_represents (w_store w') (recovered m (logs_between logs_at start e))
  | Err f => f = kept_changing /\ 10 <= hmax - h
  end.
Proof.
  intros start Hnode Hn Hr Hbatch Hwidth Hstart Hfuel.
  assert (Hpos : 0 <= start) by (unfold start, recovery_start, saturating_sub; lia).
  assert (Hw : at_logs node m h (w_sent w) (w_receiver w) w) by done.
  set (R := fun (r : result failure BlockNumber) (w' : World St P RskLog) =>
    match r with
    | Ok e => h <= e <= hmax /\ w_sent w' = w_sent w /\
        log_represents (w_store w') (recovered m (logs_between logs_at start e))
    | Err f => f = kept_changing /\ 10 <= hmax - h
    end).
  enough (HR : R (fst (recover_logs self fuel addrs w)) (snd (recover_logs self fuel addrs w)))
    by (destruct (recover_logs self fuel addrs w); exact HR).
  unfold recover_logs. apply (wp_then _ _ R).
  destruct (get_sync_checkpoint_total _ _ Hr) as (o & s1 & Hs1).
  destruct (get_sync_checkpoint_law _ _ _ _ Hr Hs1) as [-> Hr1].
  apply wp_zoom. exists (lm_checkpoint m), s1. split; [done|].
  apply (wp_then _ _ R). eapply (wp_log_best addrs node logs_at hmax Hnode m h (w_sent w) (w_receiver w)); [done|].
  intros b w2 Hb Hw2.
  pose proof (recover_loop_outcome self addrs node logs_at hmax Hnode Hbatch Hwidth
    fuel start (number b) 1 m (number b) _ _ w2 Hw2 ltac:(lia) ltac:(lia) ltac:(lia)) as Hout.
  unfold recovery_outcome in Hout. unfold R. fold start. destruct (fst _) as [e|f].
  - destruct Hout as [He [h' []]]. split_and!; [lia..|done|done].
  - destruct Hout as [-> Hbound]. unfold max_log_attempts in Hbound. split; [done|lia].
Qed.

(** ** Following the subscription *)

(** A node that delivers the given subscription results, after which a shutdown
    is requested. *)
Record feeding_node `{RskProvider P}
    (feeds : list (result RskSubscriptionError RskLog) -> P -> Prop) : Prop := {
  feed_running l p : feeds l p ->
    exists p', is_on p = (match l with [] => true | _ => false end, p') /\ feeds l p';
  feed_next x l p : feeds (x :: l) p -> exists p', next_log p = (x, p') /\ feeds l p'
}.

(** Results the loop survives: logs, lags and transient errors. *)
Definition benign (x : result RskSubscriptionError RskLog) : Prop :=
  match x with
  | Ok l => log_ok l
  | Err (Lagged _) | Err (Transient _) => True
  | Err _ => False
  end.

(** The accepted logs of a feed, in order. *)
Definition accepted_logs (self : LogIndexer) (l : list (result RskSubscriptionError RskLog)) : list RskLog :=
  filter (fun x => accepted self x = true)
    (omap (fun x => match x with Ok log => Some log | Err _ => None end) l).

Lemma accepted_logs_cons self x l :
  accepted_logs self (x :: l) =
  (match x with Ok log => if accepted self log then [log] else [] | Err _ => [] end) ++ accepted_logs self l.
Proof.
  unfold accepted_logs. destruct x as [log|]; [|done]. cbn [omap list_omap]. rewrite filter_cons.
  destruct (accepted self log) eqn:E; [by rewrite decide_True|by rewrite decide_False].
Qed.

Lemma wp_process_new_log `{LogStoreTotal St, RskProvider P} self log (w : World St P RskLog) m Q :
  log_represents (w_store w) m -> log_ok log ->
  (forall s', log_represents s' (recovered m (if accepted self log then [log] else [])) ->
    Q tt (mkWorld s' (w_env w)
      (w_sent w ++ if new_log_sender self && w_receiver w
                   then (if accepted self log then [log] else []) else []) (w_receiver w))) ->
  wp (process_new_log self log) Q w.
Proof.
  intros Hr Hlog HQ. unfold process_new_log. destruct (accepted self log); cbn [negb].
  2: { apply wp_ret. specialize (HQ (w_store w)). rewrite recovered_nil in HQ. specialize (HQ Hr).
       destruct (_ && _); rewrite app_nil_r in HQ; by destruct w. }
  wp_steps. apply wp_zoom. destruct (save_log_total _ _ _ Hr Hlog) as [s1 Hs1].
  pose proof (save_log_law _ _ _ _ Hr Hlog Hs1) as Hr1. exists tt, s1. split; [done|].
  wp_steps. apply wp_zoom. destruct (set_sync_checkpoint_total _ _ _ Hr1 Hlog) as [s2 Hs2].
  pose proof (set_sync_checkpoint_law _ _ _ _ Hr1 Hlog Hs2) as Hr2. exists tt, s2. split; [done|].
  specialize (HQ s2 Hr2). destruct (new_log_sender self); cbn in *.
  - exists tt. eexists. split; [reflexivity|]. cbn.
    destruct (w_receiver w); [done|]. by rewrite app_nil_r in HQ.
  - apply wp_ret. by rewrite app_nil_r in HQ.
Qed.

(** [listen_logs] loses and repeats nothing.  For every sequence of logs,
    lags and transient errors, it stores exactly the logs of managed contracts
    that are not below the initial block, in order, leaves the checkpoint on the
    last of them, sends exactly those to the consumer, if there is one, and
    returns successfully at the shutdown. *)
Theorem listen_logs_delivers `{LogStoreTotal St, RskProvider P} self feeds
    (l : list (result RskSubscriptionError RskLog)) rounds (w : World St P RskLog) (m : LogModel) :
  feeding_node feeds -> feeds l (w_env w) -> log_represents (w_store w) m ->
  Forall benign l -> (length l < rounds)%nat ->
  wp (listen_logs self rounds)
     (fun _ w' => log_represents (w_store w') (recovered m (accepted_logs self l)) /\
        w_sent w' = w_sent w ++ (if new_log_sender self && w_receiver w then accepted_logs self l else [])) w.
Proof.
  intros Hfeed. revert l w m. induction rounds as [|rounds IH]; intros l w m Hl Hr Hb Hlen; [lia|].
  cbn [listen_logs]. apply wp_bind.
  destruct (feed_running _ Hfeed _ _ Hl) as (p' & Hon & Hl').
  exists (match l with [] => false | _ => true end). eexists. split.
  { apply zoom_ok. exists p'. rewrite Hon. by destruct l. }
  destruct l as [|x l]; cbn [negb].
  { apply wp_ret. rewrite recovered_nil. split; [done|]. cbn. by case_match; rewrite app_nil_r. }
  apply Forall_cons in Hb as [Hx Hb]. destruct (feed_next _ Hfeed _ _ _ Hl') as (p2 & Hnext & Hl2).
  set (w1 := mkWorld (w_store w) p2 (w_sent w) (w_receiver w)).
  assert (Hskip : accepted_logs self (x :: l) = accepted_logs self l -> wp (listen_logs self rounds)
     (fun _ w' => log_represents (w_store w') (recovered m (accepted_logs self (x :: l))) /\
        w_sent w' = w_sent w ++ (if new_log_sender self && w_receiver w
                                 then accepted_logs self (x :: l) else [])) w1).
  { intros ->. cbn in Hlen. apply (IH l w1 m); try done. lia. }
  unfold wp. unfold on_env at 1, zoom at 1. cbn [w_env]. rewrite Hnext.
  destruct x as [log|[|?|?|?]]; try done; [|by apply Hskip, accepted_logs_cons..]. fold w1.
  apply wp_bind. eapply wp_process_new_log; [exact Hr|exact Hx|]. intros s' Hs'.
  eapply wp_mono; [eapply (IH l); [exact Hl2|exact Hs'|exact Hb|cbn in Hlen; lia]|].
  intros [] w' [Hr' Hs]. cbn [w_sent w_receiver w1] in Hs. rewrite accepted_logs_cons.
  rewrite recovered_app in Hr'. split; [done|]. rewrite Hs, <- (assoc_L (++)). f_equal.
  by destruct (_ && _).
Qed.

(** ** A scripted node *)

Module Feed.

(** A node that grows by one block at every query of its best block, up to
    height 5, and delivers [feed]. *)
Record Node := mkNode { height : Z; feed : list (result RskSubscriptionError RskLog) }.

Definition contract : Address := replicate 20 9.
Definition sample_log (n i : Z) : RskLog :=
  mkRskLog (mkLogInfo contract (replicate 32 n) n (replicate 32 (n + 1)) i false) (mkLogEvent [] []).
Definition sample_logs (n : Z) : list RskLog := 
  if (0 <=? n) && (n <=? 5) && Z.even n then [sample_log n 0; sample_log n 1] else [].

Definition answer {A} (a : A) : SR Node failure A := fun p => (Ok a, p).

#[export] Instance fed : RskProvider Node := {|
  provider_best_block p :=
    let h := Z.min (height p + 1) 5 in
    (Ok (new_block h (replicate 32 h) (replicate 32 (h - 1)) h 1 h (replicate 32 1) []), mkNode h (feed p));
  provider_block_by_hash _ := answer None;
  provider_block_by_number _ := answer None;
  provider_uncle _ _ := answer None;
  provider_logs from to _ := answer (logs_between sample_logs from to);
  subscribe_blocks := answer tt;
  next_block p := (Err ClosedConnection, p);
  unsubscribe_blocks := answer tt;
  subscribe_logs _ := answer tt;
  next_log p :=
    match feed p with [] => (Err ClosedConnection, p) | x :: l => (x, mkNode (height p) l) end;
  unsubscribe_logs := answer tt;
  is_on p := (match feed p with [] => true | _ => false end, p)
|}.

Definition indexer : LogIndexer :=
  mkLogIndexer true StartHash 2 1 1 {[ contract := mkContractInfo "PeginManager" contract ]}.

Definition pending : list (result RskSubscriptionError RskLog) :=
  [Ok (sample_log 1 0); Err (Lagged 3); Ok (sample_log 4 0); Ok (sample_log 6 1)].

Lemma growing :
  growing_node (fun h p => height p = h /\ 0 <= h <= 5 /\ feed p = pending) sample_logs [contract] 5.
Proof.
  split.
  - intros h p (<- & Hh & Hf). exists p. cbn. by rewrite Hf.
  - intros h p (<- & Hh & Hf). eexists _, _. split; [reflexivity|]. cbn. split_and!; (done || lia).
  - intros h p from to (<- & Hh & Hf) ? ?. eexists _, p. split; [reflexivity|]. split; [done|].
    exists (height p). split_and!; (done || lia).
  - intros n l Hl. unfold sample_logs in Hl. destruct ((0 <=? n) && (n <=? 5) && Z.even n) eqn:E;
      [|set_solver]. reflect_bool. revert l Hl. apply Forall_forall.
    assert (Hall : forall n, 0 <= n <= 5 -> Forall log_ok [sample_log n 0; sample_log n 1])
      by (apply by_range; by_decide).
    apply Hall. lia.
Qed.

Lemma feeding : feeding_node (fun l p => feed p = l).
Proof.
  split.
  - intros l p <-. by exists p.
  - intros x l p Hf. cbn. rewrite Hf. by eexists.
Qed.

Definition world : World LogModel Node RskLog :=
  mkWorld (mkLogModel ∅ (Some (sample_log 2 0))) (mkNode 3 pending) [] true.

End Feed.

#[local] Existing Instance Feed.fed.

Lemma recover_logs_complete_witness :
  let '(r, w') := recover_logs Feed.indexer 10 [Feed.contract] Feed.world in
  r = Ok 5 /\ lm_checkpoint (w_store w') = Some (Feed.sample_log 4 1).
Proof.
  pose proof (recover_logs_complete Feed.indexer [Feed.contract] _ Feed.sample_logs 3 5
    10 Feed.world (w_store Feed.world) Feed.growing) as Hrec.
  destruct (recover_logs Feed.indexer 10 [Feed.contract] Feed.world) as [r w'] eqn:E.
  specialize (Hrec ltac:(repeat split; lia) eq_refl ltac:(vm_compute; discriminate)
    ltac:(vm_compute; reflexivity) ltac:(vm_compute; discriminate) ltac:(vm_compute; reflexivity)).
  destruct r as [e|f]; [|destruct Hrec as [_ Hrec]; lia].
  assert (e = 5) as ->.
  { assert (He : fst (recover_logs Feed.indexer 10 [Feed.contract] Feed.world) = Ok 5)
      by (vm_compute; reflexivity). rewrite E in He. by injection He. }
  destruct Hrec as (_ & _ & Hrec). split; [done|]. cbn in Hrec. rewrite Hrec. vm_compute. reflexivity.
Defined.

Lemma listen_logs_delivers_witness :
  wp (listen_logs Feed.indexer 5)
     (fun _ w' => w_sent w' = [Feed.sample_log 4 0; Feed.sample_log 6 1]) Feed.world.
Proof.
  eapply wp_mono; [apply (listen_logs_delivers Feed.indexer (fun l p => Feed.feed p = l)
    Feed.pending 5 Feed.world (w_store Feed.world))|].
  - apply Feed.feeding.
  - reflexivity.
  - reflexivity.
  - repeat constructor; by_decide.
  - vm_compute. lia.
  - intros [] w' [_ ->]. vm_compute. reflexivity.
Defined.
