(* ===== verification/BlockchainTracker.v ===== *)
(** * Confirmation tracking (crates/coordinator/src/blockchain_tracker.rs)

    A [BlockchainView] keeps the blocks announced by the block indexer and tells
    its observers about added and removed blocks; a [ConfirmableEvent] counts the
    confirmations of an event through such an observer.  The counter is shared
    between the event and the view ([Rc<RefCell<..>>]): it lives in a store of
    cells, and both hold its address. *)

From stdpp Require Import prelude gmap strings.
From S2P Require Import Prelude BlockHeader Types.
Open Scope Z_scope.

(** ** Counters *)

Record BlockConfirmations := mkConfirmations {
  flow_id : string;
  init : BlockNumber;
  last_block : BlockNumber;
  required : Z
}.

(** [BlockConfirmations::new] *)
Definition new_confirmations (flow_id : string) (init : BlockNumber) (req_confirmations : Z)
    : BlockConfirmations := mkConfirmations flow_id init init req_confirmations.

Definition accum (c : BlockConfirmations) : Z :=
  if last_block c <? init c then 0 else last_block c - init c + 1.

(** [BlockConfirmations::is_confirmed] *)
Definition counter_confirmed (c : BlockConfirmations) : bool := required c <=? accum c.

Definition on_block_added (b : RskBlockAndUncles) (c : BlockConfirmations) : BlockConfirmations :=
  mkConfirmations (flow_id c) (init c) (bu_number b) (required c).

Definition on_block_removed (b : RskBlockAndUncles) (c : BlockConfirmations) : BlockConfirmations :=
  mkConfirmations (flow_id c) (init c) (bu_number b) (required c).

(** ** The view

    [view_blocks] is the [BTreeMap], ascending; every block is filed under its
    own number. *)

Record Tracker := mkTracker {
  view_blocks : list RskBlockAndUncles;
  observers : gmap string nat;
  cells : gmap nat BlockConfirmations;
  next_cell : nat
}.

(** [BlockchainView::new], with its counters *)
Definition new_tracker : Tracker := mkTracker [] ∅ ∅ 0.

Definition set_blocks (l : list RskBlockAndUncles) (t : Tracker) : Tracker :=
  mkTracker l (observers t) (cells t) (next_cell t).
Definition set_observers (o : gmap string nat) (t : Tracker) : Tracker :=
  mkTracker (view_blocks t) o (cells t) (next_cell t).
Definition set_cells (c : gmap nat BlockConfirmations) (t : Tracker) : Tracker :=
  mkTracker (view_blocks t) (observers t) c (next_cell t).

(** [BTreeMap::get], [insert], [range(..n)], [split_off] and [range(n..)] *)
Definition block_at (n : BlockNumber) (l : list RskBlockAndUncles) : option RskBlockAndUncles :=
  head (filter (fun b => bu_number b = n) l).
Definition below (n : BlockNumber) (l : list RskBlockAndUncles) : list RskBlockAndUncles :=
  filter (fun b => bu_number b < n) l.
Definition from_number (n : BlockNumber) (l : list RskBlockAndUncles) : list RskBlockAndUncles :=
  filter (fun b => n <= bu_number b) l.
Definition insert_block (b : RskBlockAndUncles) (l : list RskBlockAndUncles) : list RskBlockAndUncles :=
  below (bu_number b) l ++ b :: filter (fun x => bu_number b < bu_number x) l.

Definition get_tip : SR Tracker failure (option RskBlockAndUncles) :=
  t ← sget; mret (last (view_blocks t)).

Definition get_from (n : BlockNumber) : SR Tracker failure (list RskBlockAndUncles) :=
  t ← sget; mret (from_number n (view_blocks t)).

Definition add_observer (id : string) (cell : nat) : SR Tracker failure unit :=
  t ← sget;
  match observers t !! id with
  | Some _ => sfail (Panic "Observer already exists in BlockchainView, halting to avoid duplicates")
  | None => smodify (set_observers (<[id := cell]> (observers t)))
  end.

Definition remove_observer (observer_id : string) : SR Tracker failure unit :=
  smodify (fun t => set_observers (delete observer_id (observers t)) t).

(** Every observer of the view is called with the block. *)
Definition notify (f : BlockConfirmations -> BlockConfirmations) (t : Tracker) : Tracker :=
  set_cells (foldr (fun cell => alter f cell) (cells t) (map_to_list (observers t)).*2) t.

Definition notify_added_block (b : RskBlockAndUncles) : SR Tracker failure unit :=
  smodify (notify (on_block_added b)).
Definition notify_removed_block (b : RskBlockAndUncles) : SR Tracker failure unit :=
  smodify (notify (on_block_removed b)).

Fixpoint notify_removed_blocks (l : list RskBlockAndUncles) : SR Tracker failure unit :=
  match l with
  | [] => mret tt
  | b :: l => _ ← notify_removed_block b; notify_removed_blocks l
  end.

Definition validate_consecutive_block (new_tip prev_tip : RskBlock) : SR Tracker failure unit :=
  if (number new_tip =? bn_add (number prev_tip) 1) &&
     bool_decide (parent_hash new_tip = hash prev_tip)
  then mret tt
  else sfail (Panic "Non-consecutive block or parent hash mismatch").

Definition rollback_to (new_tip : RskBlockAndUncles) : SR Tracker failure unit :=
  t ← sget;
  _ ← match last (below (bu_number new_tip) (view_blocks t)) with
      | Some tip_parent => validate_consecutive_block (block new_tip) (block tip_parent)
      | None => mret tt
      end;
  let replaced_block_opt := block_at (bu_number new_tip) (view_blocks t) in
  _ ← smodify (set_blocks (insert_block new_tip (view_blocks t)));
  match checked_add 64 (bu_number new_tip) 1 with
  | None => sfail (Panic "block number overflow while rolling back BlockchainView")
  | Some next_height =>
      t ← sget;
      let blocks_to_remove := from_number next_height (view_blocks t) in
      _ ← smodify (set_blocks (below next_height (view_blocks t)));
      _ ← notify_removed_blocks (reverse blocks_to_remove);
      _ ← match replaced_block_opt with
          | Some replaced_block => notify_removed_block replaced_block
          | None => mret tt
          end;
      notify_added_block new_tip
  end.

Definition update (new_block : RskBlockAndUncles) : SR Tracker failure unit :=
  prev_tip ← get_tip;
  t ← sget;
  let known := match block_at (bu_number new_block) (view_blocks t) with
               | Some stored => bool_decide (bu_hash stored = bu_hash new_block)
               | None => false
               end in
  if (known : bool) then mret tt else
  let reorg := match prev_tip with
               | Some tip => bu_number new_block <=? bu_number tip
               | None => false
               end in
  if (reorg : bool) then rollback_to new_block else
  _ ← smodify (fun t => set_blocks (insert_block new_block (view_blocks t)) t);
  _ ← match prev_tip with
      | Some tip => validate_consecutive_block (block new_block) (block tip)
      | None => mret tt
      end;
  notify_added_block new_block.

Definition restart_from (first_block : BlockNumber) : SR Tracker failure unit :=
  smodify (fun t => set_blocks (from_number first_block (view_blocks t)) t).

Definition clear_view : SR Tracker failure unit :=
  smodify (fun t => set_observers ∅ (set_blocks [] t)).

Definition has_observers (t : Tracker) : bool := negb (bool_decide (observers t = ∅)).

(** ** Events awaiting confirmations *)

Record ConfirmableEvent := mkEvent {
  event_id : string;
  req_confirmations : Z;
  confirmations : option nat
}.

(** [ConfirmableEvent::new] *)
Definition new_event (id : string) (req_confirmations : Z) : ConfirmableEvent :=
  mkEvent id req_confirmations None.

(** [Rc::new(RefCell::new(..))] *)
Definition alloc (c : BlockConfirmations) : SR Tracker failure nat :=
  t ← sget;
  _ ← sput (mkTracker (view_blocks t) (observers t) (<[next_cell t := c]> (cells t)) (S (next_cell t)));
  mret (next_cell t).

Definition start_confirming (e : ConfirmableEvent) (block_number : BlockNumber)
    : SR Tracker failure ConfirmableEvent :=
  cell ← alloc (new_confirmations (event_id e) block_number (req_confirmations e));
  _ ← remove_observer (event_id e);
  _ ← add_observer (event_id e) cell;
  mret (mkEvent (event_id e) (req_confirmations e) (Some cell)).

Definition stop_confirming (e : ConfirmableEvent) : SR Tracker failure ConfirmableEvent :=
  _ ← remove_observer (event_id e);
  mret (mkEvent (event_id e) (req_confirmations e) None).

(** The counter an event holds. *)
Definition counter (e : ConfirmableEvent) (t : Tracker) : option BlockConfirmations :=
  confirmations e ≫= fun cell => cells t !! cell.

Definition is_confirmed (e : ConfirmableEvent) (t : Tracker) : bool :=
  from_option counter_confirmed false (counter e t).

Record ConfirmableEventSnapshot := mkEventSnapshot {
  snap_id : string; snap_start_block : BlockNumber; snap_required : Z }.

Definition snapshot (e : ConfirmableEvent) (t : Tracker) : option ConfirmableEventSnapshot :=
  (fun c => mkEventSnapshot (event_id e) (init c) (req_confirmations e)) <$> counter e t.

Definition from_snapshot (s : ConfirmableEventSnapshot) : SR Tracker failure ConfirmableEvent :=
  start_confirming (new_event (snap_id s) (snap_required s)) (snap_start_block s).

Record ConfirmableEventStateSnapshot := mkStateSnapshot {
  state_id : string; state_start_block : option BlockNumber; state_required : Z }.

Definition state_snapshot (e : ConfirmableEvent) (t : Tracker) : ConfirmableEventStateSnapshot :=
  mkStateSnapshot (event_id e) (init <$> counter e t) (req_confirmations e).

Definition from_state_snapshot (s : ConfirmableEventStateSnapshot) : SR Tracker failure ConfirmableEvent :=
  let event := new_event (state_id s) (state_required s) in
  match state_start_block s with
  | Some start_block => start_confirming event start_block
  | None => mret event
  end.

(** Events with the contract event they wait for. *)
Record ConfirmableEventWithData (D : Type) := mkEventWithData {
  confirmation : ConfirmableEvent;
  event_data : D
}.
Arguments mkEventWithData {D}.
Arguments confirmation {D}.
Arguments event_data {D}.

Section WithData.
Context {D : Type}.

Definition snapshot_with_data (e : ConfirmableEventWithData D) (t : Tracker)
    : option (ConfirmableEventSnapshot * D) :=
  (fun c => (c, event_data e)) <$> snapshot (confirmation e) t.

Definition from_snapshot_with_data (s : ConfirmableEventSnapshot * D)
    : SR Tracker failure (ConfirmableEventWithData D) :=
  e ← from_snapshot (fst s); mret (mkEventWithData e (snd s)).

Definition snapshot_confirmable_events (events : gmap string (ConfirmableEventWithData D)) (t : Tracker)
    : gmap string (ConfirmableEventSnapshot * D) :=
  list_to_map (omap (fun kv => (fun s => (event_id (confirmation kv.2), s)) <$> snapshot_with_data kv.2 t)
    (map_to_list events)).

Fixpoint restore_events (l : list (ConfirmableEventSnapshot * D))
    : SR Tracker failure (list (string * ConfirmableEventWithData D)) :=
  match l with
  | [] => mret []
  | s :: l =>
      e ← from_snapshot_with_data s;
      es ← restore_events l;
      mret ((event_id (confirmation e), e) :: es)
  end.

(** In a view of their own. *)
Definition restore_confirmable_events (snapshots : gmap string (ConfirmableEventSnapshot * D))
    : result failure (gmap string (ConfirmableEventWithData D)) * Tracker :=
  (es ← restore_events (map_to_list snapshots).*2; mret (list_to_map es)) new_tracker.

End WithData.

(** ** The view is a chain *)

Definition follows (a b : RskBlockAndUncles) : Prop :=
  bu_number b = bu_number a + 1 /\ bu_parent b = bu_hash a.

#[export] Instance follows_dec a b : Decision (follows a b).
Proof. unfold follows. apply _. Defined.

Fixpoint chained (l : list RskBlockAndUncles) : Prop :=
  match l with
  | a :: (b :: _) as l' => follows a b /\ chained l'
  | _ => True
  end.

Lemma chained_cons a l :
  chained (a :: l) <-> (forall b, head l = Some b -> follows a b) /\ chained l.
Proof.
  destruct l as [|b l]; cbn; [naive_solver|]. split; [|naive_solver].
  intros [Hf Hc]. split; [|done]. by intros ? [= <-].
Qed.

Lemma chained_app l k :
  chained (l ++ k) <->
  chained l /\ chained k /\ (forall a b, last l = Some a -> head k = Some b -> follows a b).
Proof.
  induction l as [|x l IH]; [naive_solver|]. rewrite <- app_comm_cons, !chained_cons, IH.
  rewrite last_cons. destruct l as [|y l]; cbn [app head].
  - cbn. naive_solver.
  - destruct (last (y :: l)) eqn:E; [naive_solver|]. by apply last_None in E.
Qed.

Lemma chained_above a l : chained (a :: l) -> Forall (fun b => bu_number a < bu_number b) l.
Proof.
  revert a. induction l as [|b l IH]; intros a Hc; [done|].
  destruct Hc as [[Hn _] Hc]. constructor; [lia|].
  eapply Forall_impl; [by apply IH|]. cbn. lia.
Qed.

(** Filtering a chain by height cuts it in two. *)
Lemma chained_cut n l : chained l -> l = below n l ++ from_number n l.
Proof.
  induction l as [|a l IH]; intros Hc; [done|]. unfold below, from_number in *.
  pose proof (chained_above _ _ Hc) as Ha. apply chained_cons in Hc as [_ Hc].
  rewrite !filter_cons. destruct (decide (bu_number a < n)) as [Hlt|Hge].
  - rewrite (decide_False (P := n <= bu_number a)) by lia. cbn. by rewrite <- IH.
  - rewrite (decide_True (P := n <= bu_number a)) by lia.
    rewrite filter_none; [|intros x Hx; rewrite Forall_forall in Ha; specialize (Ha x Hx); lia].
    cbn. f_equal. rewrite (IH Hc) at 1.
    rewrite filter_none; [done|]. intros x Hx. rewrite Forall_forall in Ha. specialize (Ha x Hx). lia.
Qed.

Lemma chained_below n l : chained l -> chained (below n l).
Proof. intros Hc. rewrite (chained_cut n l Hc) in Hc. by apply chained_app in Hc as [? _]. Qed.

Lemma below_below n k l : n <= k -> below n (below k l) = below n l.
Proof.
  intros Hn. unfold below. rewrite list_filter_filter. apply filter_ext_in. intros x _. lia.
Qed.

Lemma below_all n l : Forall (fun b => bu_number b < n) l -> below n l = l.
Proof. rewrite Forall_forall. apply filter_all. Qed.

Lemma last_is_highest l tip :
  chained l -> last l = Some tip -> Forall (fun b => bu_number b <= bu_number tip) l.
Proof.
  induction l as [|a l IH]; intros Hc Hl; [done|]. pose proof (chained_above _ _ Hc) as Ha.
  rewrite last_cons in Hl. destruct (last l) as [x|] eqn:E.
  - injection Hl as ->. apply last_Some_elem_of in E. rewrite Forall_forall in Ha.
    specialize (Ha tip E). apply chained_cons in Hc as [_ Hc]. constructor; [lia|]. by apply IH.
  - injection Hl as ->. apply last_None in E as ->. by repeat constructor.
Qed.

(** Inserting a block and dropping everything above it. *)
Lemma below_insert nb l :
  below (bu_number nb + 1) (insert_block nb l) = below (bu_number nb) l ++ [nb].
Proof.
  unfold insert_block, below. rewrite filter_app, filter_cons, decide_True by lia. f_equal.
  - rewrite list_filter_filter. apply filter_ext_in. intros x _. lia.
  - f_equal. rewrite list_filter_filter. apply filter_none. intros x _ ?. lia.
Qed.

Lemma insert_on_top nb l :
  Forall (fun b => bu_number b < bu_number nb) l -> insert_block nb l = l ++ [nb].
Proof.
  intros Hl. unfold insert_block. rewrite below_all by done. do 2 f_equal. apply filter_none.
  intros x Hx. rewrite Forall_forall in Hl. specialize (Hl x Hx). lia.
Qed.

(** ** Notifications *)

Lemma notify_lookup f t k :
  (forall c, f (f c) = f c) ->
  cells (notify f t) !! k =
  if decide (k ∈ (map_to_list (observers t)).*2) then f <$> cells t !! k else cells t !! k.
Proof.
  intros Hf. unfold notify. cbn. induction (map_to_list (observers t)).*2 as [|x l IH]; [done|].
  cbn [foldr]. destruct (decide (x = k)) as [->|Hne].
  - rewrite lookup_alter_eq, IH, (decide_True (P := k ∈ k :: l)) by set_solver.
    case_decide; [|done]. destruct (cells t !! k); cbn; [by rewrite Hf|done].
  - rewrite lookup_alter_ne, IH by done. case_decide; case_decide; (done || set_solver).
Qed.

(** The observers see the last notified block only. *)
Lemma notify_added_removed b b' t :
  cells (notify (on_block_added b) (notify (on_block_removed b') t)) = cells (notify (on_block_added b) t).
Proof.
  apply map_eq. intros k. rewrite !notify_lookup by done. cbn. case_decide; [|done].
  by destruct (cells t !! k).
Qed.

Lemma notify_removed_blocks_run l t :
  exists t', notify_removed_blocks l t = (Ok tt, t') /\ view_blocks t' = view_blocks t /\
    observers t' = observers t /\ next_cell t' = next_cell t /\
    forall b, cells (notify (on_block_added b) t') = cells (notify (on_block_added b) t).
Proof.
  revert t. induction l as [|x l IH]; intros t; [by exists t|].
  destruct (IH (notify (on_block_removed x) t)) as (t' & Hr & Hv & Ho & Hn & Hc).
  exists t'. split; [exact Hr|]. split_and!; try done. intros b. by rewrite Hc, notify_added_removed.
Qed.

(** ** Updating the view *)

(** The view already holds the block. *)
Definition known (nb : RskBlockAndUncles) (l : list RskBlockAndUncles) : bool :=
  match block_at (bu_number nb) l with
  | Some stored => bool_decide (bu_hash stored = bu_hash nb)
  | None => false
  end.

(** The block below it, if the view has one, is its parent. *)
Definition parent_ok (nb : RskBlockAndUncles) (parent : option RskBlockAndUncles) : Prop :=
  match parent with Some p => follows p nb | None => True end.

#[export] Instance parent_ok_dec nb o : Decision (parent_ok nb o).
Proof. destruct o; apply _. Defined.

Definition accepts (l : list RskBlockAndUncles) (nb : RskBlockAndUncles) : Prop :=
  parent_ok nb (last (below (bu_number nb) l)).

#[export] Instance accepts_dec l nb : Decision (accepts l nb).
Proof. apply _. Defined.

(** The invariant of a view: a chain of blocks with 64-bit numbers. *)
Definition view_ok (t : Tracker) : Prop :=
  chained (view_blocks t) /\ Forall (fun b => 0 <= bu_number b < 2 ^ 64 - 1) (view_blocks t).

Lemma validate_consecutive_block_run a b t :
  0 <= bu_number a < 2 ^ 64 - 1 ->
  validate_consecutive_block (block b) (block a) t =
  ((if decide (follows a b) then Ok tt
    else Err (Panic "Non-consecutive block or parent hash mismatch")), t).
Proof.
  intros Ha. unfold validate_consecutive_block, follows, bu_number, bu_parent, bu_hash in *.
  rewrite bn_add_small by lia.
  destruct (Z.eqb_spec (number (block b)) (number (block a) + 1)); cbn [andb];
    [case_bool_decide|]; case_decide; naive_solver.
Qed.

(** Validating against the block below, if any. *)
Lemma validate_opt_run nb o (t : Tracker) :
  from_option (fun p => 0 <= bu_number p < 2 ^ 64 - 1) True o ->
  match o with
  | Some p => validate_consecutive_block (block nb) (block p)
  | None => mret tt
  end t = ((if decide (parent_ok nb o) then Ok tt
            else Err (Panic "Non-consecutive block or parent hash mismatch")), t).
Proof.
  intros Hp. destruct o as [p|]; cbn in *.
  - rewrite validate_consecutive_block_run by done. by repeat case_decide.
  - by rewrite decide_True.
Qed.

(** The state after a block is accepted. *)
Record accepted_block (nb : RskBlockAndUncles) (t t' : Tracker) : Prop := {
  acc_blocks : view_blocks t' = below (bu_number nb) (view_blocks t) ++ [nb];
  acc_observers : observers t' = observers t;
  acc_next : next_cell t' = next_cell t;
  acc_cells : cells t' = cells (notify (on_block_added nb) t)
}.

Lemma last_below_ok n t :
  view_ok t ->
  from_option (fun p => 0 <= bu_number p < 2 ^ 64 - 1) True (last (below n (view_blocks t))).
Proof.
  intros [_ Hf]. destruct (last _) as [p|] eqn:E; [|done]. cbn.
  apply last_Some_elem_of, list_elem_of_filter in E as [_ E]. rewrite Forall_forall in Hf. by apply Hf.
Qed.

Lemma rollback_to_accepts nb t :
  view_ok t -> 0 <= bu_number nb < 2 ^ 64 - 1 -> accepts (view_blocks t) nb ->
  wp (rollback_to nb) (fun _ => accepted_block nb t) t.
Proof.
  intros Hv Hn Hacc. unfold rollback_to. wp_steps.
  eapply wp_run; [rewrite validate_opt_run by (by apply last_below_ok); by rewrite decide_True|].
  wp_steps. rewrite (proj2 (checked_add_Some 64 (bu_number nb) 1 (bu_number nb + 1))) by lia.
  wp_steps. cbn [view_blocks set_blocks].
  destruct (notify_removed_blocks_run (reverse (from_number (bu_number nb + 1) (insert_block nb (view_blocks t))))
    (set_blocks (below (bu_number nb + 1) (insert_block nb (view_blocks t))) t))
    as (t2 & Hr & Hb & Ho & Hx & Hcells).
  eapply wp_run; [exact Hr|]. wp_steps.
  assert (Hlast : forall t3, view_blocks t3 = view_blocks t2 -> observers t3 = observers t2 ->
    next_cell t3 = next_cell t2 ->
    cells (notify (on_block_added nb) t3) = cells (notify (on_block_added nb) t2) ->
    wp (notify_added_block nb) (fun _ => accepted_block nb t) t3).
  { intros t3 Hb3 Ho3 Hx3 Hc3. unfold notify_added_block. wp_steps. split; cbn.
    - rewrite Hb3, Hb. cbn. apply below_insert.
    - by rewrite Ho3, Ho.
    - by rewrite Hx3, Hx.
    - etransitivity; [exact Hc3|]. etransitivity; [exact (Hcells nb)|]. done. }
  destruct (block_at _ _) as [r|]; unfold notify_removed_block; wp_steps; apply Hlast; try done.
  apply notify_added_removed.
Qed.

Lemma update_known nb t : known nb (view_blocks t) = true -> update nb t = (Ok tt, t).
Proof.
  intros Hk. unfold update, get_tip. rewrite SR_bind_run with (a := last (view_blocks t)) (s' := t) by done.
  erewrite SR_bind_run by reflexivity. fold (known nb (view_blocks t)). by rewrite Hk.
Qed.

Lemma update_accepts nb t :
  view_ok t -> 0 <= bu_number nb < 2 ^ 64 - 1 -> known nb (view_blocks t) = false ->
  accepts (view_blocks t) nb -> wp (update nb) (fun _ => accepted_block nb t) t.
Proof.
  intros Hv Hn Hk Hacc. unfold update, get_tip. wp_steps. fold (known nb (view_blocks t)). rewrite Hk.
  destruct (last (view_blocks t)) as [tip|] eqn:Etip; cbn.
  - destruct (Z.leb_spec (bu_number nb) (bu_number tip)); [by apply rollback_to_accepts|].
    assert (Hall : Forall (fun b => bu_number b < bu_number nb) (view_blocks t)).
    { eapply Forall_impl; [apply (last_is_highest _ _ (proj1 Hv) Etip)|]. cbn. lia. }
    unfold accepts in Hacc. rewrite below_all, Etip in Hacc by done.
    wp_steps. eapply wp_run.
    { rewrite validate_consecutive_block_run; [by rewrite decide_True|].
      destruct Hv as [_ Hf]. rewrite Forall_forall in Hf. by apply Hf, last_Some_elem_of. }
    unfold notify_added_block. wp_steps. split; try done. cbn.
    by rewrite insert_on_top, below_all by done.
  - apply last_None in Etip. wp_steps. unfold notify_added_block. wp_steps.
    split; try done. cbn. by rewrite Etip.
Qed.

Lemma update_rejects nb t :
  view_ok t -> 0 <= bu_number nb < 2 ^ 64 - 1 -> known nb (view_blocks t) = false ->
  ~ accepts (view_blocks t) nb -> exists msg t', update nb t = (Err (Panic msg), t').
Proof.
  intros Hv Hn Hk Hacc. unfold update, get_tip. rewrite SR_bind_run with (a := last (view_blocks t)) (s' := t) by done.
  erewrite SR_bind_run by reflexivity. fold (known nb (view_blocks t)). rewrite Hk.
  destruct (last (view_blocks t)) as [tip|] eqn:Etip.
  2: { apply last_None in Etip. rewrite Etip in Hacc. by destruct Hacc. }
  destruct (Z.leb_spec (bu_number nb) (bu_number tip)).
  - unfold rollback_to. erewrite SR_bind_run by reflexivity. eexists _, _. apply SR_bind_err.
    rewrite validate_opt_run by (by apply last_below_ok). by rewrite decide_False.
  - assert (Hall : Forall (fun b => bu_number b < bu_number nb) (view_blocks t)).
    { eapply Forall_impl; [apply (last_is_highest _ _ (proj1 Hv) Etip)|]. cbn. lia. }
    unfold accepts in Hacc. rewrite below_all, Etip in Hacc by done.
    erewrite SR_bind_run by reflexivity. eexists _, _. apply SR_bind_err.
    rewrite validate_consecutive_block_run; [by rewrite decide_False|].
    destruct Hv as [_ Hf]. rewrite Forall_forall in Hf. by apply Hf, last_Some_elem_of.
Qed.

Lemma accepted_view_ok nb t t' :
  view_ok t -> 0 <= bu_number nb < 2 ^ 64 - 1 -> accepts (view_blocks t) nb ->
  accepted_block nb t t' -> view_ok t'.
Proof.
  intros [Hc Hf] Hn Hacc Ht'. unfold view_ok. rewrite (acc_blocks _ _ _ Ht'). split.
  - apply chained_app. split; [by apply chained_below|]. split; [done|].
    intros a b Hl [= <-]. unfold accepts in Hacc. by rewrite Hl in Hacc.
  - apply Forall_app. split; [|by apply Forall_singleton].
    apply Forall_forall. intros b [_ Hb]%list_elem_of_filter. rewrite Forall_forall in Hf. by apply Hf.
Qed.

(** ** Counting confirmations *)

(** The event counts from block [k] through the observer of its view. *)
Record observing (e : ConfirmableEvent) (k : BlockNumber) (c : BlockConfirmations) (t : Tracker) : Prop := {
  obs_cell cell : confirmations e = Some cell -> observers t !! event_id e = Some cell;
  obs_counter : counter e t = Some c;
  obs_init : init c = k;
  obs_required : required c = req_confirmations e
}.

Lemma accepted_observing e k c nb t t' :
  observing e k c t -> accepted_block nb t t' -> observing e k (on_block_added nb c) t'.
Proof.
  intros [Hcell Hcnt Hinit Hreq] []. unfold counter in *.
  destruct (confirmations e) as [cell|] eqn:E; [|done]. cbn in Hcnt.
  split; cbn; try done.
  - intros cell' Hc'. rewrite acc_observers0. apply Hcell. congruence.
  - unfold counter. rewrite E. cbn. rewrite acc_cells0, notify_lookup by done.
    rewrite decide_True; [by rewrite Hcnt|].
    apply list_elem_of_fmap. exists (event_id e, cell). split; [done|].
    apply elem_of_map_to_list. by apply Hcell.
Qed.

Lemma observing_confirmed e k c t :
  observing e k c t ->
  is_confirmed e t = (req_confirmations e <=? Z.max 0 (last_block c - k + 1)).
Proof.
  intros [_ Hcnt <- <-]. unfold is_confirmed. rewrite Hcnt. cbn. unfold counter_confirmed, accum.
  destruct (Z.ltb_spec (last_block c) (init c)); f_equal; lia.
Qed.

Lemma start_confirming_observing e k t :
  (forall cell c, cells t !! cell = Some c -> (cell < next_cell t)%nat) ->
  wp (start_confirming e k) (fun e' t' =>
    event_id e' = event_id e /\ req_confirmations e' = req_confirmations e /\
    view_blocks t' = view_blocks t /\
    observing e' k (new_confirmations (event_id e) k (req_confirmations e)) t') t.
Proof.
  intros Hfresh. unfold start_confirming, alloc, remove_observer, add_observer. wp_steps. cbn.
  rewrite lookup_delete_eq. wp_steps. split_and!; try done. split; cbn; try done.
  - intros ? [= <-]. by rewrite lookup_insert_eq.
  - unfold counter. cbn. by rewrite lookup_insert_eq.
Qed.

(** A sequence of blocks from the indexer. *)
Fixpoint run_updates (l : list RskBlockAndUncles) : SR Tracker failure unit :=
  match l with
  | [] => mret tt
  | b :: l => _ ← update b; run_updates l
  end.

(** One successful update. *)
Lemma update_ok nb t t' :
  view_ok t -> 0 <= bu_number nb < 2 ^ 64 - 1 -> update nb t = (Ok tt, t') ->
  (known nb (view_blocks t) = true /\ t' = t) \/
  (known nb (view_blocks t) = false /\ accepts (view_blocks t) nb /\ accepted_block nb t t').
Proof.
  intros Hv Hn Hr. destruct (known nb (view_blocks t)) eqn:Hk.
  - left. rewrite update_known in Hr by done. by simplify_eq.
  - right. destruct (decide (accepts (view_blocks t) nb)) as [Ha|Ha].
    + destruct (update_accepts nb t Hv Hn Hk Ha) as ([] & t2 & Hr2 & Hacc).
      assert (t2 = t') as <- by congruence. done.
    + destruct (update_rejects nb t Hv Hn Hk Ha) as (msg & t2 & Hr2). congruence.
Qed.

(** The counter agrees with the tip. *)
Definition counting (e : ConfirmableEvent) (k : BlockNumber) (t : Tracker) : Prop :=
  view_ok t /\ exists c tip, observing e k c t /\ last (view_blocks t) = Some tip /\
    last_block c = bu_number tip.

Lemma accepted_counting e k c nb t t' :
  view_ok t -> 0 <= bu_number nb < 2 ^ 64 - 1 -> accepts (view_blocks t) nb ->
  accepted_block nb t t' -> observing e k c t -> counting e k t'.
Proof.
  intros Hv Hn Ha Hacc Hobs. split; [by eapply accepted_view_ok|].
  exists (on_block_added nb c), nb. split; [by eapply accepted_observing|].
  rewrite (acc_blocks _ _ _ Hacc), last_snoc. done.
Qed.

Lemma run_updates_counting l e k t t' :
  Forall (fun b => 0 <= bu_number b < 2 ^ 64 - 1) l -> counting e k t ->
  run_updates l t = (Ok tt, t') -> counting e k t'.
Proof.
  revert t. induction l as [|b l IH]; intros t Hl Hct Hr; cbn in Hr; sr_inv Hr; [done|].
  apply Forall_cons in Hl as [Hb Hl]. destruct x. apply (IH s); [done| |done].
  destruct Hct as [Hv (c & tip & Hobs & Htip & Hlast)].
  destruct (update_ok b t s Hv Hb Hx) as [[_ ->]|(_ & Ha & Hacc)]; [by split; eauto 10|].
  by eapply accepted_counting.
Qed.

(** ** Restoring events *)

(** Cells are allocated in order. *)
Definition cells_ok (t : Tracker) : Prop :=
  forall cell c, cells t !! cell = Some c -> (cell < next_cell t)%nat.

(** Starting an event leaves the others counting. *)
Lemma wp_start_confirming e k t (Q : ConfirmableEvent -> Tracker -> Prop) :
  cells_ok t ->
  (forall e' t', event_id e' = event_id e -> req_confirmations e' = req_confirmations e ->
    observing e' k (new_confirmations (event_id e) k (req_confirmations e)) t' ->
    view_blocks t' = view_blocks t -> cells_ok t' ->
    (forall e2 k2 c2, event_id e2 <> event_id e -> observing e2 k2 c2 t -> observing e2 k2 c2 t') ->
    Q e' t') ->
  wp (start_confirming e k) Q t.
Proof.
  intros Hwf HQ. unfold start_confirming, alloc, remove_observer, add_observer. wp_steps. cbn.
  rewrite lookup_delete_eq. wp_steps. apply HQ; try done; cbn.
  - split; cbn; try done.
    + intros ? [= <-]. by rewrite lookup_insert_eq.
    + unfold counter. cbn. by rewrite lookup_insert_eq.
  - intros cell c Hc. cbn in *. destruct (decide (cell = next_cell t)); [lia|].
    rewrite lookup_insert_ne in Hc by done. specialize (Hwf _ _ Hc). lia.
  - intros e2 k2 c2 Hne [Hcell Hcnt Hi Hr]. unfold counter in *.
    destruct (confirmations e2) as [cell|] eqn:E; [|done]. cbn in Hcnt. specialize (Hwf _ _ Hcnt).
    split; cbn; try done.
    + intros cell' Hc'. rewrite lookup_insert_ne, lookup_delete_ne by done. apply Hcell. congruence.
    + unfold counter. rewrite E. cbn. by rewrite lookup_insert_ne by lia.
Qed.

(** A restored event counts from the block of its snapshot. *)
Definition restored_from {D} (s : ConfirmableEventSnapshot * D) (e : ConfirmableEventWithData D)
    (t : Tracker) : Prop :=
  event_data e = snd s /\ event_id (confirmation e) = snap_id (fst s) /\
  req_confirmations (confirmation e) = snap_required (fst s) /\
  observing (confirmation e) (snap_start_block (fst s))
    (new_confirmations (snap_id (fst s)) (snap_start_block (fst s)) (snap_required (fst s))) t.

Lemma wp_restore_events {D} (l : list (ConfirmableEventSnapshot * D)) t :
  cells_ok t -> NoDup ((snap_id ∘ fst) <$> l) ->
  wp (restore_events l) (fun es t' =>
    es.*1 = (snap_id ∘ fst) <$> l /\ Forall2 (fun s e => restored_from s e.2 t') l es /\
    view_blocks t' = view_blocks t /\ cells_ok t' /\
    forall e k c, event_id e ∉ ((snap_id ∘ fst) <$> l) -> observing e k c t -> observing e k c t') t.
Proof.
  revert t. induction l as [|s l IH]; intros t Hwf Hnd; cbn [restore_events].
  { apply wp_ret. split_and!; [done|constructor|done..]. }
  rewrite fmap_cons in Hnd. apply NoDup_cons in Hnd as [Hin Hnd].
  wp_steps. unfold from_snapshot_with_data, from_snapshot. wp_steps.
  eapply wp_start_confirming; [done|]. intros e' t1 Hid Hreq Hobs Hblocks Hwf1 Hothers. wp_steps.
  eapply wp_mono; [by apply IH|]. intros es t' (Hids & Hall & Hblocks' & Hwf' & Hkeep). wp_steps.
  cbn in Hid, Hreq, Hobs. split_and!.
  - cbn. by rewrite Hids, Hid.
  - constructor; [|done]. split_and!; try done. apply Hkeep; [cbn; by rewrite Hid|done].
  - by rewrite Hblocks'.
  - done.
  - intros e k c He Hobs'. rewrite fmap_cons, not_elem_of_cons in He. destruct He as [He1 He2].
    apply Hkeep; [done|]. by apply Hothers.
Qed.

Section Persistence.
Context {D : Type}.
Implicit Types (events : gmap string (ConfirmableEventWithData D)).

(** Events are filed under their ids and count. *)
Definition events_ok events (t : Tracker) : Prop :=
  forall id e, events !! id = Some e ->
    event_id (confirmation e) = id /\ exists c, observing (confirmation e) (init c) c t.

Lemma snapshot_events_map events t :
  events_ok events t ->
  snapshot_confirmable_events events t = omap (fun e => snapshot_with_data e t) events.
Proof.
  intros Hok. apply map_eq. intros id. rewrite lookup_omap. unfold snapshot_confirmable_events.
  set (l := omap _ _).
  assert (Hl : forall k s, (k, s) ∈ l <-> exists e, events !! k = Some e /\ snapshot_with_data e t = Some s).
  { intros k s. unfold l. rewrite list_elem_of_omap. split.
    - intros ([k' e] & Hin%elem_of_map_to_list & Hs). cbn in Hs. apply fmap_Some in Hs as (s' & Hs' & [= -> ->]).
      destruct (Hok _ _ Hin) as [-> _]. eauto.
    - intros (e & Hin & Hs). exists (k, e). split; [by apply elem_of_map_to_list|]. cbn. rewrite Hs.
      cbn. by destruct (Hok _ _ Hin) as [-> _]. }
  assert (Hnd : forall k s s', (k, s) ∈ l -> (k, s') ∈ l -> s = s').
  { intros k s s' Hs Hs'. apply Hl in Hs as (e & ? & ?). apply Hl in Hs' as (e' & ? & ?). congruence. }
  destruct (list_to_map l !! id) as [s|] eqn:E.
  - apply elem_of_list_to_map_2, Hl in E as (e & -> & <-). done.
  - apply not_elem_of_list_to_map_2 in E. destruct (events !! id) as [e|] eqn:He; [|done]. cbn.
    destruct (snapshot_with_data e t) as [s|] eqn:Hs; [|done]. destruct E.
    apply list_elem_of_fmap. exists (id, s). split; [done|]. apply Hl. eauto.
Qed.

Lemma restore_confirmable_events_run (snaps : gmap string (ConfirmableEventSnapshot * D)) :
  (forall id s, snaps !! id = Some s -> snap_id (fst s) = id) ->
  exists es t', restore_confirmable_events snaps = (Ok es, t') /\ view_blocks t' = [] /\ cells_ok t' /\
    dom es = dom snaps /\
    forall id s, snaps !! id = Some s -> exists e, es !! id = Some e /\ restored_from s e t'.
Proof.
  intros Hids.
  assert (Hkeys : (snap_id ∘ fst) <$> (map_to_list snaps).*2 = (map_to_list snaps).*1).
  { rewrite <- list_fmap_compose. apply list_fmap_ext. intros i [id s] Hin. cbn. apply Hids.
    by apply elem_of_map_to_list, list_elem_of_lookup_2 with i. }
  destruct (wp_restore_events (map_to_list snaps).*2 new_tracker) as (es & t' & Hr & Hks & Hall & Hblocks & Hcells & _).
  { intros cell c Hc. cbn [cells new_tracker] in Hc. by rewrite lookup_empty in Hc. }
  { rewrite Hkeys. apply NoDup_fst_map_to_list. }
  exists (list_to_map es), t'. split.
  { unfold restore_confirmable_events. by erewrite SR_bind_run by exact Hr. }
  split_and!; [done|done| |].
  { by rewrite dom_list_to_map_L, Hks, Hkeys, <- dom_list_to_map_L, list_to_map_to_list. }
  intros id s Hs. apply elem_of_map_to_list, list_elem_of_lookup in Hs as [i Hi].
  assert (Hi2 : (map_to_list snaps).*2 !! i = Some s) by (by rewrite list_lookup_fmap, Hi).
  destruct (Forall2_lookup_l _ _ _ _ _ Hall Hi2) as ([id' e] & He & Hres).
  assert (id' = id) as ->.
  { assert (Hk : es.*1 !! i = Some id') by (by rewrite list_lookup_fmap, He).
    rewrite Hks, Hkeys, list_lookup_fmap, Hi in Hk. by injection Hk. }
  exists e. split; [|done]. apply elem_of_list_to_map_1.
  - rewrite Hks, Hkeys. apply NoDup_fst_map_to_list.
  - by apply list_elem_of_lookup_2 with i.
Qed.
End Persistence.

(** ** Theorems *)

(** [update] in every case.  On a view that is a chain, a block it already
    holds changes nothing; a block that follows the view's block below it (or
    has none below it in the view) becomes the tip, everything from its height
    on is dropped, the view is again a chain and the set of observers is the
    same; any other block makes the code panic. *)
Theorem view_update_correct nb t :
  view_ok t -> 0 <= bu_number nb < 2 ^ 64 - 1 ->
  if known nb (view_blocks t) then update nb t = (Ok tt, t)
  else if decide (accepts (view_blocks t) nb) then
    wp (update nb) (fun _ t' => view_blocks t' = below (bu_number nb) (view_blocks t) ++ [nb] /\
      view_ok t' /\ observers t' = observers t) t
  else exists msg t', update nb t = (Err (Panic msg), t').
Proof.
  intros Hv Hn. destruct (known nb (view_blocks t)) eqn:Hk; [by apply update_known|].
  case_decide as Ha; [|by apply update_rejects].
  eapply wp_mono; [by apply update_accepts|]. intros [] t' Hacc.
  split_and!; [apply Hacc|by eapply accepted_view_ok|apply Hacc].
Qed.

(** C33: An event is confirmed exactly when the tip is deep enough.  Once an event
    counts from block [k], then after any sequence of blocks that the view
    accepts, reorganisations included, of which the first one is new to it, the
    event is confirmed if and only if the number of blocks from [k] to the
    current tip reaches the required confirmations. *)
Theorem confirmed_iff_deep_enough e k t e1 t1 b bs t' :
  view_ok t -> cells_ok t -> start_confirming e k t = (Ok e1, t1) ->
  Forall (fun b => 0 <= bu_number b < 2 ^ 64 - 1) (b :: bs) ->
  known b (view_blocks t) = false -> run_updates (b :: bs) t1 = (Ok tt, t') ->
  exists tip, last (view_blocks t') = Some tip /\
    is_confirmed e1 t' = (req_confirmations e <=? Z.max 0 (bu_number tip - k + 1)).
Proof.
  intros Hv Hcells Hstart Hbs Hk Hr. apply Forall_cons in Hbs as [Hb Hbs].
  destruct (wp_start_confirming e k t (fun e' t2 => req_confirmations e' = req_confirmations e /\
    observing e' k (new_confirmations (event_id e) k (req_confirmations e)) t2 /\
    view_blocks t2 = view_blocks t) Hcells) as (e2 & t2 & Hstart' & Hreq & Hobs & Hblocks).
  { intros. done. }
  rewrite Hstart in Hstart'. injection Hstart' as <- <-.
  assert (Hv1 : view_ok t1) by (unfold view_ok; by rewrite Hblocks).
  cbn in Hr. apply SR_bind_ok in Hr as ([] & t2 & Hu & Hr).
  destruct (update_ok b t1 t2 Hv1 Hb Hu) as [[Hk1 _]|(_ & Ha & Hacc)].
  { rewrite Hblocks in Hk1. congruence. }
  destruct (run_updates_counting bs e1 k t2 t') as [_ (c & tip & Hobs' & Htip & Hlast)]; [done| |done|].
  { by eapply accepted_counting. }
  exists tip. split; [done|]. rewrite (observing_confirmed _ _ _ _ Hobs'), Hlast. by rewrite Hreq.
Qed.

(** Pending events survive a restart.  Restoring the snapshots of a set of
    counting events never panics on a duplicate observer, and every event comes
    back under its id, with its data and its required confirmations, counting
    from the same block. *)
Theorem events_survive_restart {D} (events : gmap string (ConfirmableEventWithData D)) t :
  events_ok events t ->
  exists es t', restore_confirmable_events (snapshot_confirmable_events events t) = (Ok es, t') /\
    forall id e c, events !! id = Some e -> counter (confirmation e) t = Some c ->
      exists e', es !! id = Some e' /\ event_data e' = event_data e /\
        req_confirmations (confirmation e') = req_confirmations (confirmation e) /\
        observing (confirmation e') (init c)
          (new_confirmations id (init c) (req_confirmations (confirmation e))) t'.
Proof.
  intros Hok. rewrite snapshot_events_map by done.
  destruct (restore_confirmable_events_run (omap (fun e => snapshot_with_data e t) events))
    as (es & t' & Hr & _ & _ & _ & Hall).
  { intros id s Hs. rewrite lookup_omap in Hs. destruct (events !! id) as [e|] eqn:He; [|done].
    destruct (Hok _ _ He) as [Hid _]. cbn in Hs. unfold snapshot_with_data, snapshot in Hs.
    by destruct (counter (confirmation e) t); simplify_eq/=. }
  exists es, t'. split; [done|]. intros id e c He Hc.
  destruct (Hok _ _ He) as [Hid _].
  destruct (Hall id (mkEventSnapshot id (init c) (req_confirmations (confirmation e)), event_data e))
    as (e' & He' & Hd & _ & Hreq & Hobs).
  { rewrite lookup_omap, He. cbn. unfold snapshot_with_data, snapshot. rewrite Hc. cbn. by rewrite Hid. }
  by exists e'.
Qed.

(** ** Witnesses *)

Module Sample.

Definition bu (f n : Z) : RskBlockAndUncles :=
  mkBlockAndUncles (new_block n (replicate 30 0 ++ [f; n]) (replicate 30 0 ++ [1; n - 1]) n 1 n
    (replicate 32 1) []) [].

Definition view : Tracker := Eval vm_compute in set_blocks [bu 1 10; bu 1 11; bu 1 12] new_tracker.

Lemma view_ok_sample : view_ok view.
Proof. split; [repeat split|by_decide]. Qed.

Definition counting_view : ConfirmableEvent * Tracker := Eval vm_compute in
  match start_confirming (new_event "pegin" 3) 11 view with
  | (Ok e, t) => (e, t)
  | (Err _, t) => (new_event "pegin" 3, t)
  end.

Definition events : gmap string (ConfirmableEventWithData Z) :=
  {[ "pegin" := mkEventWithData (fst counting_view) 7 ]}.

End Sample.

(** A block of another branch at height 12 replaces the tip. *)
Lemma view_update_correct_witness :
  wp (update (Sample.bu 2 12)) (fun _ t' => (bu_hash <$> view_blocks t') =
    bu_hash <$> [Sample.bu 1 10; Sample.bu 1 11; Sample.bu 2 12]) Sample.view.
Proof.
  eapply wp_mono; [apply (view_update_correct (Sample.bu 2 12) Sample.view)|].
  - apply Sample.view_ok_sample.
  - cbn. lia.
  - intros [] t' (-> & _ & _). vm_compute. reflexivity.
Defined.

Lemma confirmed_iff_deep_enough_witness :
  exists t', run_updates [Sample.bu 2 12; Sample.bu 1 12; Sample.bu 1 13] (snd Sample.counting_view) = (Ok tt, t') /\
    is_confirmed (fst Sample.counting_view) t' = true.
Proof.
  destruct (run_updates [Sample.bu 2 12; Sample.bu 1 12; Sample.bu 1 13] (snd Sample.counting_view))
    as [r t'] eqn:E.
  assert (Hr : r = Ok tt).
  { assert (H : fst (run_updates [Sample.bu 2 12; Sample.bu 1 12; Sample.bu 1 13]
      (snd Sample.counting_view)) = Ok tt) by (vm_compute; reflexivity). by rewrite E in H. }
  subst r. exists t'. split; [done|].
  destruct (confirmed_iff_deep_enough (new_event "pegin" 3) 11 Sample.view (fst Sample.counting_view)
    (snd Sample.counting_view) (Sample.bu 2 12) [Sample.bu 1 12; Sample.bu 1 13] t')
    as (tip & Htip & ->).
  - apply Sample.view_ok_sample.
  - intros cell c Hc. discriminate Hc.
  - vm_compute. reflexivity.
  - by_decide.
  - vm_compute. reflexivity.
  - exact E.
  - assert (H : (bu_number <$> last (view_blocks (snd (run_updates
      [Sample.bu 2 12; Sample.bu 1 12; Sample.bu 1 13] (snd Sample.counting_view))))) = Some 13)
      by (vm_compute; reflexivity).
    rewrite E in H. cbn [snd] in H. rewrite Htip in H. cbn in H. injection H as H.
    unfold bu_number in *. rewrite H. reflexivity.
Defined.

Lemma events_survive_restart_witness :
  exists es t' e', restore_confirmable_events
      (snapshot_confirmable_events Sample.events (snd Sample.counting_view)) = (Ok es, t') /\
    es !! "pegin"%string = Some e' /\ event_data e' = 7.
Proof.
  destruct (events_survive_restart Sample.events (snd Sample.counting_view)) as (es & t' & Hr & Hall).
  - intros id e He. unfold Sample.events in He. apply lookup_singleton_Some in He as [<- <-].
    split; [vm_compute; reflexivity|]. exists (new_confirmations "pegin" 11 3).
    split; [|vm_compute; reflexivity..].
    intros cell Hcell. vm_compute in Hcell. injection Hcell as <-. vm_compute. reflexivity.
  - destruct (Hall "pegin"%string (mkEventWithData (fst Sample.counting_view) 7)
      (new_confirmations "pegin" 11 3)) as (e' & He' & Hd & _).
    + apply lookup_singleton_eq.
    + vm_compute. reflexivity.
    + exists es, t', e'. split; [exact Hr|]. split; [exact He'|exact Hd].
Defined.
