(* ===== verification/ChainFeed.v ===== *)
(** * From the block indexer to the coordinator's view

    The block indexer announces blocks (crates/block-indexer/src/indexer.rs);
    the coordinator feeds them to a [BlockchainView]
    (crates/coordinator/src/blockchain_tracker.rs), which panics on a block that
    does not follow.  This file composes the two: the announcements of a
    completed sync are ones the view accepts, and those of an interrupted one
    are not. *)

From stdpp Require Import prelude gmap strings.
From S2P Require Import Prelude BlockHeader Types BlockStore Provider BlockIndexer BlockchainTracker.
Open Scope Z_scope.

(** The view holds the top of the store's canonical chain, up to its best
    block. *)
Record tracks (v : Tracker) (m : StoreModel) (best : RskBlock) : Prop := {
  tracks_ok : view_ok v;
  tracks_tip tip : last (view_blocks v) = Some tip -> bu_number tip = number best;
  tracks_canonical b : b ∈ view_blocks v -> m_canonical m !! bu_number b = Some (bu_hash b)
}.

Section Feed.
Context `{Genuine} (c : Z -> RskBlock) (lo top : Z) (uncle_at : Z -> Z -> option RskBlock).
Hypothesis Hchain : node_chain c lo top.
Hypothesis Hwidth : top < 2 ^ 64 - 1.

Abbreviation note := (fun n => mkBlockAndUncles (c n) (served_uncles c uncle_at n)).

Lemma note_number n : lo <= n <= top -> bu_number (note n) = n.
Proof. intros Hn. by apply (chain_number _ _ _ Hchain). Qed.

Lemma note_follows n : lo < n <= top -> follows (note (n - 1)) (note n).
Proof.
  intros Hn. split; [rewrite !note_number by lia; lia|]. apply (chain_link _ _ _ Hchain). lia.
Qed.

(** Where the stored chain leaves the node's. *)
Lemma fork_point m b t :
  lo <= t <= top -> linked m lo (number b) -> m_canonical m !! lo = Some (hash (c lo)) ->
  (forall n, number b < n -> m_canonical m !! n = None) ->
  exists k, lo <= k <= t /\ k <= number b /\
    (forall n, lo <= n <= k -> m_canonical m !! n = Some (hash (c n))) /\
    (forall n, k < n <= t -> m_canonical m !! n <> Some (hash (c n))).
Proof.
  intros Ht Hl Hlo Habove. remember (Z.to_nat (t - lo)) as d eqn:Hd. revert t Ht Hd.
  induction d as [|d IH]; intros t Ht Hd.
  - assert (t = lo) as -> by lia. exists lo. split_and!; try lia.
    + destruct (decide (lo <= number b)); [done|]. rewrite Habove in Hlo by lia. done.
    + intros n ?. by assert (n = lo) as -> by lia.
  - destruct (decide (m_canonical m !! t = Some (hash (c t)))) as [Heq|Hne].
    + exists t. assert (t <= number b).
      { destruct (decide (t <= number b)); [done|]. rewrite Habove in Heq by lia. done. }
      split_and!; try lia. eapply linked_agree; [|exact Hchain|lia|done].
      intros n Hn. apply Hl. lia.
    + destruct (IH (t - 1)) as (k & Hk & Hkb & Hagree & Hdiff); [lia..|].
      exists k. split_and!; try lia; [done|]. intros n Hn.
      destruct (decide (n = t)) as [->|]; [done|]. apply Hdiff. lia.
Qed.

Lemma outdated_fork m k t :
  lo <= k <= t -> (forall n, lo <= n <= k -> m_canonical m !! n = Some (hash (c n))) ->
  (forall n, k < n <= t -> m_canonical m !! n <> Some (hash (c n))) ->
  outdated m c lo t = seqZ (k + 1) (t - k).
Proof.
  intros Hk Hagree Hdiff. rewrite (outdated_app c lo m k t), outdated_none by (done || lia).
  unfold outdated. replace (t - (k + 1) + 1) with (t - k) by lia. cbn [app].
  apply filter_all. intros x Hx%elem_of_seqZ. apply Hdiff. lia.
Qed.

(** The view while the announcements above [k] arrive. *)
Lemma feed_run k j v :
  lo <= k -> 0 <= j -> k + j <= top -> view_ok v ->
  (forall tip, last (view_blocks v) = Some tip -> bu_number tip = k /\ bu_hash tip = hash (c k)) ->
  wp (run_updates (note <$> seqZ (k + 1) j))
     (fun _ v' => view_ok v' /\ view_blocks v' = view_blocks v ++ (note <$> seqZ (k + 1) j)) v.
Proof.
  pose proof (chain_range _ _ _ Hchain).
  intros Hlo Hj. remember (Z.to_nat j) as d eqn:Hd. revert k j v Hlo Hj Hd.
  induction d as [|d IH]; intros k j v Hlo Hj Hd Htop Hv Htip.
  { assert (j = 0) as -> by lia. rewrite seqZ_nil by lia. apply wp_ret. cbn. by rewrite app_nil_r. }
  rewrite seqZ_cons by lia. rewrite fmap_cons. cbn [run_updates].
  assert (Hnum : bu_number (note (k + 1)) = k + 1) by (apply note_number; lia).
  assert (Hall : Forall (fun b => bu_number b < k + 1) (view_blocks v)).
  { destruct (last (view_blocks v)) as [tip|] eqn:E; [|apply last_None in E as ->; constructor].
    destruct (Htip tip eq_refl) as [Hk _].
    eapply Forall_impl; [apply (last_is_highest _ _ (proj1 Hv) E)|]. cbn. lia. }
  assert (Hknown : known (note (k + 1)) (view_blocks v) = false).
  { unfold known, block_at. rewrite Hnum, filter_none; [done|]. intros x Hx.
    rewrite Forall_forall in Hall. specialize (Hall x Hx). lia. }
  assert (Hacc : accepts (view_blocks v) (note (k + 1))).
  { unfold accepts. rewrite Hnum, below_all by done.
    destruct (last (view_blocks v)) as [tip|] eqn:E; [|done]. destruct (Htip tip eq_refl) as [Hk Hh].
    pose proof (note_follows (k + 1) ltac:(lia)) as [_ Hp]. replace (k + 1 - 1) with k in Hp by lia.
    split; [rewrite Hnum; lia|by rewrite Hp, Hh]. }
  apply wp_bind. eapply wp_mono.
  { apply update_accepts; [done|rewrite Hnum; lia|done|done]. }
  intros [] v1 Hv1. assert (Hv1ok : view_ok v1) by (eapply accepted_view_ok; [exact Hv|rewrite Hnum; lia|done|done]).
  pose proof (acc_blocks _ _ _ Hv1) as Hb1. rewrite Hnum, below_all in Hb1 by done.
  replace (Z.succ (k + 1)) with (k + 1 + 1) by lia. replace (Z.pred j) with (j - 1) by lia.
  eapply wp_mono; [apply (IH (k + 1) (j - 1) v1); try lia; try done|].
  - intros tip Htip1. rewrite Hb1, last_snoc in Htip1. injection Htip1 as <-. done.
  - intros [] v2 [Hv2 Hb2]. split; [done|]. by rewrite Hb2, Hb1, <- (assoc_L (++)).
Qed.

(** The first announcement, just above the fork. *)
Lemma first_announcement v m b k :
  tracks v m b -> lo <= k < top -> k <= number b -> m_canonical m !! k = Some (hash (c k)) ->
  m_canonical m !! (k + 1) <> Some (hash (c (k + 1))) ->
  known (note (k + 1)) (view_blocks v) = false /\ accepts (view_blocks v) (note (k + 1)).
Proof.
  intros [[Hv Hf] Htip Hcan] Hk Hkb Hck Hdiff.
  assert (Hnum : bu_number (note (k + 1)) = k + 1) by (apply note_number; lia). split.
  - unfold known, block_at. rewrite Hnum. destruct (head _) as [x|] eqn:E; [|done].
    apply bool_decide_eq_false. intros Heq.
    apply head_Some_elem_of, list_elem_of_filter in E as [Hx Hin].
    apply Hcan in Hin. rewrite Hx, Heq in Hin. done.
  - unfold accepts. rewrite Hnum. destruct (last (below (k + 1) (view_blocks v))) as [p|] eqn:E; [|done].
    pose proof E as Hp. apply last_Some_elem_of, list_elem_of_filter in Hp as [Hlt Hin].
    assert (Hpk : bu_number p = k).
    { pose proof (chained_cut (k + 1) _ Hv) as Hcut. pose proof Hv as Hv'. rewrite Hcut in Hv'.
      apply chained_app in Hv' as (_ & _ & Hlink).
      destruct (head (from_number (k + 1) (view_blocks v))) as [x|] eqn:Eh.
      - destruct (Hlink p x E eq_refl) as [Hx _].
        apply head_Some_elem_of, list_elem_of_filter in Eh as [Hge _]. lia.
      - apply head_None in Eh. rewrite Eh, app_nil_r in Hcut. rewrite <- Hcut in E.
        specialize (Htip _ E). lia. }
    pose proof (note_follows (k + 1) ltac:(lia)) as [_ Hpar]. replace (k + 1 - 1) with k in Hpar by lia.
    apply Hcan in Hin. rewrite Hpk, Hck in Hin. injection Hin as Hin.
    split; [by rewrite Hnum, Hpk|]. rewrite Hpar. done.
Qed.

Lemma feed_outdated v m b t :
  tracks v m b -> lo <= t <= top -> linked m lo (number b) -> m_canonical m !! lo = Some (hash (c lo)) ->
  (forall n, number b < n -> m_canonical m !! n = None) ->
  number b <= t \/ outdated m c lo t <> [] ->
  wp (run_updates (note <$> outdated m c lo t)) (fun _ v' => view_ok v' /\
    (forall x, x ∈ view_blocks v' -> lo <= bu_number x -> bu_hash x = hash (c (bu_number x))) /\
    (outdated m c lo t <> [] -> last (view_blocks v') = Some (note t))) v.
Proof.
  intros Hv Ht Hl Hlo Habove Hor. pose proof (chain_range _ _ _ Hchain).
  destruct (fork_point m b t Ht Hl Hlo Habove) as (k & Hk & Hkb & Hagree & Hdiff).
  rewrite (outdated_fork m k t) in * by done.
  destruct (decide (k = t)) as [->|Hkt].
  { replace (t - t) with 0 in * by lia. rewrite seqZ_nil in * by lia. apply wp_ret.
    split_and!; [apply Hv| |done]. intros x Hx Hlox.
    assert (bu_number x <= number b).
    { destruct (last (view_blocks v)) as [tip|] eqn:E; [|apply last_None in E; rewrite E in Hx; set_solver].
      rewrite <- (tracks_tip _ _ _ Hv _ E).
      pose proof (last_is_highest _ _ (proj1 (tracks_ok _ _ _ Hv)) E) as Hall.
      rewrite Forall_forall in Hall. by apply Hall. }
    apply (tracks_canonical _ _ _ Hv) in Hx. rewrite Hagree in Hx by (destruct Hor; (done || lia)).
    by injection Hx. }
  rewrite seqZ_cons by lia. rewrite fmap_cons. cbn [run_updates].
  replace (Z.succ (k + 1)) with (k + 1 + 1) by lia. replace (Z.pred (t - k)) with (t - (k + 1)) by lia.
  assert (Hnum : bu_number (note (k + 1)) = k + 1) by (apply note_number; lia).
  destruct (first_announcement v m b k) as [Hknown Hacc]; try done; try lia.
  { apply Hagree. lia. } { apply Hdiff. lia. }
  apply wp_bind. eapply wp_mono.
  { apply update_accepts; [apply Hv|rewrite Hnum; lia|done|done]. }
  intros [] v1 Hv1. assert (Hv1ok : view_ok v1)
    by (eapply accepted_view_ok; [apply Hv|rewrite Hnum; lia|done|done]).
  pose proof (acc_blocks _ _ _ Hv1) as Hb1. rewrite Hnum in Hb1.
  eapply wp_mono; [apply (feed_run (k + 1) (t - (k + 1)) v1); try lia; try done|].
  { intros tip Htip. rewrite Hb1, last_snoc in Htip. injection Htip as <-. done. }
  intros [] v2 [Hv2 Hb2]. split_and!; [done| |].
  - intros x Hx Hlox. rewrite Hb2, Hb1 in Hx. apply elem_of_app in Hx as [Hx|Hx].
    + apply elem_of_app in Hx as [Hx|Hx].
      * apply list_elem_of_filter in Hx as [Hlt Hin]. apply (tracks_canonical _ _ _ Hv) in Hin.
        rewrite Hagree in Hin by lia. by injection Hin.
      * apply list_elem_of_singleton in Hx as ->. by rewrite Hnum.
    + apply list_elem_of_fmap in Hx as (n & -> & Hn%elem_of_seqZ). by rewrite note_number by lia.
  - intros _. rewrite Hb2, Hb1. destruct (decide (t = k + 1)) as [->|].
    + rewrite seqZ_nil by lia. by rewrite app_nil_r, last_snoc.
    + replace (t - (k + 1)) with ((t - (k + 1) - 1) + 1) by lia. rewrite seqZ_app by lia.
      replace (k + 1 + 1 + (t - (k + 1) - 1)) with t by lia. rewrite (seqZ_cons t 1), (seqZ_nil (Z.succ t)) by lia.
      rewrite fmap_app, (assoc_L (++)). apply last_snoc.
Qed.
End Feed.

(** C8: The announcements of a sync keep the coordinator's view on the node's
    chain.  Take a store in sync with no canonical entry above its best block
    and a view that tracks it.  A sync with a node of higher or diverging chain
    announces blocks that the view accepts one after the other without
    panicking; afterwards all its blocks from the initial height on are the
    node's, and its tip is the block the indexer made its best. *)
Theorem sync_keeps_view `{BlockStoreTotal St, RskProvider P, Genuine}
    self stable c lo top uncle_at t fuel (w : World St P RskBlockAndUncles) (m : StoreModel)
    (best : RskBlock) (v : Tracker) :
  stable_node stable c lo top uncle_at -> node_chain c lo top -> top < 2 ^ 64 - 1 ->
  initial_block_hash self = hash (c lo) -> new_block_sender self = true -> w_receiver w = true ->
  stable (w_env w) -> represents (w_store w) m -> synced m lo -> m_best m = Some best ->
  m_canonical m !! lo = Some (hash (c lo)) -> (forall n, number best < n -> m_canonical m !! n = None) ->
  tracks v m best -> lo <= t <= top -> t - lo < Z.of_nat fuel ->
  number best <= t \/ outdated m c lo t <> [] ->
  wp (backward_sync self fuel (c t)) (fun _ w' => exists announced,
    w_sent w' = w_sent w ++ announced /\
    wp (run_updates announced) (fun _ v' => view_ok v' /\
      (forall x, x ∈ view_blocks v' -> lo <= bu_number x -> bu_hash x = hash (c (bu_number x))) /\
      (announced <> [] -> bu_hash <$> last (view_blocks v') = Some (hash (c t)))) v) w.
Proof.
  intros Hnode Hchain Hwidth Hinit Hsend Hrc Hst Hrep Hsync Hbest Hlo Habove Hv Ht Hfuel Hor.
  eapply wp_mono; [eapply (wp_backward_sync self stable c lo top uncle_at); try done|].
  { split; [done|apply Hsync|done|done|done]. }
  intros [] w' (m' & Hcu & _). destruct (cu_at _ _ _ _ _ _ _ _ _ _ _ Hcu) as [_ _ _ Hsent _].
  exists ((fun n => mkBlockAndUncles (c n) (served_uncles c uncle_at n)) <$> outdated m c lo t).
  split; [rewrite Hsent; unfold delivered; by rewrite Hsend, ?Hrc|].
  destruct Hsync as (_ & b & Hb & _ & _ & _ & Hl). assert (b = best) as -> by congruence.
  eapply wp_mono; [by eapply (feed_outdated c lo top uncle_at)|].
  intros [] v' (Hok & Hall & Hlast). split_and!; [done|done|]. intros Hne.
  rewrite Hlast; [done|]. intros Hnil. apply Hne. by rewrite Hnil.
Qed.

Import Script.

(** A view that starts at height 2 of branch 1. *)
Definition sample_view : Tracker := Eval vm_compute in
  set_blocks ((fun n => mkBlockAndUncles (branch1 n) []) <$> [2; 3; 4]) new_tracker.

Lemma sync_keeps_view_witness :
  wp (backward_sync indexer 6 (branch2 5)) (fun _ w' => exists announced,
    w_sent w' = announced /\
    wp (run_updates announced) (fun _ v' => view_ok v' /\
      (announced <> [] -> bu_hash <$> last (view_blocks v') = Some (hash (branch2 5)))) sample_view)
    (world stored (fun _ => Some (blocks branch2 5)) None).
Proof.
  eapply wp_mono; [apply (sync_keeps_view indexer (quiet (blocks branch2 5)) branch2 0 5
    (fun _ _ => None) 5 6 _ stored (branch1 4) sample_view)|].
  - apply branch2_node.
  - apply branch_chain.
  - vm_compute. reflexivity.
  - reflexivity.
  - reflexivity.
  - reflexivity.
  - split; [intros t; reflexivity|reflexivity].
  - reflexivity.
  - apply stored_synced.
  - vm_compute. reflexivity.
  - apply stored_synced.
  - intros n Hn. destruct (m_canonical stored !! n) as [h|] eqn:E; [|reflexivity].
    assert (Hall : map_Forall (fun n _ => n <= 4) (m_canonical stored)) by by_decide.
    specialize (Hall n h E). cbn in Hn, Hall. lia.
  - split.
    + split; [repeat split|by_decide].
    + intros tip Htip. vm_compute in Htip. injection Htip as <-. vm_compute. reflexivity.
    + apply Forall_forall. by_decide.
  - lia.
  - lia.
  - left. vm_compute. discriminate.
  - intros [] w' (announced & Hs & Hv). exists announced. split; [exact Hs|].
    eapply wp_mono; [exact Hv|]. intros [] v' (Hok & _ & Hl). split; assumption.
Defined.

(** After the interrupted sync of [interrupted_sync_skips_announcements] the
    consumer, whose view ends at height 2, receives block 3 and next the block
    above the new best block 5: the view panics. *)
Theorem interrupted_sync_breaks_view :
  let node (_ : nat) := Some (blocks branch1 5) in
  let '(_, w1) := backward_sync indexer 20 (branch1 5)
    (world (holding (blocks branch1 2)) node (Some 1%nat)) in
  let '(_, w2) := startup_backward_sync indexer 20 (restart w1 node) in
  let '(r, w3) := process_new_block indexer 20 (branch1 6) w2 in
  r = Ok tt /\
  fst (run_updates (w_sent w3) (set_blocks [mkBlockAndUncles (branch1 2) []] new_tracker)) =
  Err (Panic "Non-consecutive block or parent hash mismatch").
Proof. vm_compute. by repeat split. Qed.
