(* ===== verification/Schedulers.v ===== *)
(** * Retries and timeouts (crates/coordinator/src/types.rs)

    [TickScheduler] counts blocks, [RetryTracker] adds an attempt number to each
    scheduled retry, [TimeBasedScheduler] compares block timestamps.  The order
    in which matured items are returned is that of a hash map: the theorems
    speak of membership. *)

From stdpp Require Import prelude gmap.
From S2P Require Import Prelude.
Open Scope Z_scope.

Section Schedulers.
Context `{Countable K}.

(** ** TickScheduler *)

Record TickScheduler := mkTicks { pending : gmap K Z }.

Definition schedule (id : K) (delay_ticks : Z) (s : TickScheduler) : TickScheduler :=
  mkTicks (<[id := delay_ticks]> (pending s)).
Definition cancel (id : K) (s : TickScheduler) : TickScheduler := mkTicks (delete id (pending s)).
Definition is_scheduled (id : K) (s : TickScheduler) : bool := bool_decide (is_Some (pending s !! id)).
Definition is_empty (s : TickScheduler) : bool := bool_decide (pending s = ∅).
Definition clear (s : TickScheduler) : TickScheduler := mkTicks ∅.

(** One entry of the loop of [tick]: the new counter. *)
Definition tick_down (ticks : Z) : Z := if 0 <? ticks then ticks - 1 else ticks.

Definition tick (s : TickScheduler) : list K * TickScheduler :=
  let counted := tick_down <$> pending s in
  let ready := (map_to_list (filter (fun kv => kv.2 = 0) counted)).*1 in
  (ready, mkTicks (foldr delete counted ready)).

#[global] Arguments tick : simpl never.

(** ** RetryTracker *)

Record RetryTracker := mkRetries { attempts : gmap K Z; scheduler : TickScheduler }.

Definition schedule_retry (id : K) (attempt delay_ticks : Z) (r : RetryTracker) : RetryTracker :=
  mkRetries (<[id := attempt]> (attempts r)) (schedule id delay_ticks (scheduler r)).

(** [filter_map(|id| self.attempts.remove(&id).map(..))] *)
Fixpoint take_attempts (ids : list K) (m : gmap K Z) : list (K * Z) * gmap K Z :=
  match ids with
  | [] => ([], m)
  | id :: ids =>
      let '(l, m') := take_attempts ids (delete id m) in
      (match m !! id with Some attempt => (id, attempt) :: l | None => l end, m')
  end.

Definition tick_retries (r : RetryTracker) : list (K * Z) * RetryTracker :=
  let '(ready, s) := tick (scheduler r) in
  let '(l, m) := take_attempts ready (attempts r) in
  (l, mkRetries m s).

Definition current_attempt (id : K) (r : RetryTracker) : Z := default 0 (attempts r !! id).
Definition cancel_retry (id : K) (r : RetryTracker) : RetryTracker :=
  mkRetries (delete id (attempts r)) (cancel id (scheduler r)).
Definition is_empty_retries (r : RetryTracker) : bool := is_empty (scheduler r).
Definition clear_retries (r : RetryTracker) : RetryTracker := mkRetries ∅ (clear (scheduler r)).

(** ** TimeBasedScheduler *)

Record TimeBasedScheduler := mkTimes { expirations : gmap K Z }.

Definition schedule_timeout (id : K) (current_timestamp timeout_seconds : Z) (s : TimeBasedScheduler)
    : TimeBasedScheduler :=
  mkTimes (<[id := wrapping_add 64 current_timestamp timeout_seconds]> (expirations s)).
Definition cancel_timeout (id : K) (s : TimeBasedScheduler) : TimeBasedScheduler :=
  mkTimes (delete id (expirations s)).
Definition is_scheduled_timeout (id : K) (s : TimeBasedScheduler) : bool :=
  bool_decide (is_Some (expirations s !! id)).
Definition is_empty_timeouts (s : TimeBasedScheduler) : bool := bool_decide (expirations s = ∅).
Definition clear_timeouts (s : TimeBasedScheduler) : TimeBasedScheduler := mkTimes ∅.

Definition check_expired (current_timestamp : Z) (s : TimeBasedScheduler) : list K * TimeBasedScheduler :=
  let expired := (map_to_list (filter (fun kv => kv.2 <= current_timestamp) (expirations s))).*1 in
  (expired, mkTimes (foldr delete (expirations s) expired)).

(** ** Lemmas *)

Lemma foldr_delete_lookup {A} (l : list K) (m : gmap K A) k :
  foldr delete m l !! k = if decide (k ∈ l) then None else m !! k.
Proof.
  induction l as [|x l IH]; cbn [foldr]; [by rewrite decide_False by set_solver|].
  destruct (decide (x = k)) as [->|Hne].
  - by rewrite lookup_delete_eq, decide_True by set_solver.
  - rewrite lookup_delete_ne, IH by done. repeat case_decide; (done || set_solver).
Qed.

Lemma elem_of_keys_filter {A} (P : K * A -> Prop) `{!forall x, Decision (P x)} (m : gmap K A) k :
  k ∈ (map_to_list (filter P m)).*1 <-> exists a, m !! k = Some a /\ P (k, a).
Proof.
  rewrite list_elem_of_fmap. split.
  - intros ([k' a] & -> & Hin). apply elem_of_map_to_list, map_lookup_filter_Some in Hin as [? ?]. eauto.
  - intros (a & Hk & HP). exists (k, a). split; [done|].
    by apply elem_of_map_to_list, map_lookup_filter_Some.
Qed.

(** What one tick does to an entry. *)
Lemma tick_spec s k :
  match pending s !! k with
  | None => (k ∉ fst (tick s)) /\ pending (snd (tick s)) !! k = None
  | Some d =>
      if decide (tick_down d = 0) then k ∈ fst (tick s) /\ pending (snd (tick s)) !! k = None
      else (k ∉ fst (tick s)) /\ pending (snd (tick s)) !! k = Some (tick_down d)
  end.
Proof.
  unfold tick. cbn [fst snd pending].
  assert (Hin : k ∈ (map_to_list (filter (fun kv => kv.2 = 0) (tick_down <$> pending s))).*1 <->
    exists d, pending s !! k = Some d /\ tick_down d = 0).
  { rewrite elem_of_keys_filter. setoid_rewrite lookup_fmap. cbn.
    destruct (pending s !! k); cbn; naive_solver. }
  rewrite foldr_delete_lookup, lookup_fmap.
  destruct (pending s !! k) as [d|]; cbn.
  - case_decide as Hd.
    + rewrite decide_True by (apply Hin; eauto). split; [apply Hin; eauto|done].
    + rewrite decide_False; [split; [|done]|]; rewrite Hin; naive_solver.
  - rewrite decide_False; [split; [|done]|]; rewrite Hin; naive_solver.
Qed.

(** The results of [n] ticks. *)
Fixpoint ticks (n : nat) (s : TickScheduler) : list (list K) * TickScheduler :=
  match n with
  | O => ([], s)
  | S n =>
      let '(ready, s1) := tick s in
      let '(l, s2) := ticks n s1 in
      (ready :: l, s2)
  end.

(** The tick at which an entry matures. *)
Definition matures (d : Z) : nat := Z.to_nat (Z.max 1 d).

Lemma ticks_absent n s k i l :
  pending s !! k = None -> fst (ticks n s) !! i = Some l -> k ∉ l.
Proof.
  revert s i. induction n as [|n IH]; intros s i Hk; cbn; [done|].
  pose proof (tick_spec s k) as Hspec. rewrite Hk in Hspec. destruct Hspec as [Hnot Hnone].
  destruct (tick s) as [ready s1]. cbn in *. specialize (IH s1).
  destruct (ticks n s1) as [ls s2]. cbn in *. destruct i as [|i]; cbn; [naive_solver|]. by apply IH.
Qed.

Lemma ticks_present n s k d i l :
  pending s !! k = Some d -> 0 <= d -> fst (ticks n s) !! i = Some l ->
  (k ∈ l <-> S i = matures d).
Proof.
  revert s d i. induction n as [|n IH]; intros s d i Hk Hd; cbn; [done|].
  pose proof (tick_spec s k) as Hspec. rewrite Hk in Hspec. unfold tick_down in Hspec.
  pose proof (ticks_absent n (snd (tick s)) k) as Habs. specialize (IH (snd (tick s))).
  destruct (tick s) as [ready s1]. cbn in *. destruct (ticks n s1) as [ls s2]. cbn in *.
  unfold matures in *. case_decide as Hz; destruct Hspec as [Hin Hnext].
  - assert (Z.max 1 d = 1) as -> by (destruct (Z.ltb_spec 0 d); lia).
    destruct i as [|i]; cbn; intros Hl; [by simplify_eq|].
    split; [|lia]. intros Hk'. by destruct (Habs i l Hnext Hl).
  - destruct (Z.ltb_spec 0 d); [|lia]. destruct i as [|i]; cbn; intros Hl.
    + simplify_eq. split; [done|]. lia.
    + rewrite (IH (d - 1) i Hnext) by (done || lia). lia.
Qed.

(** The keys with an attempt are those with a schedule. *)
Definition retries_ok (r : RetryTracker) : Prop :=
  forall k, is_Some (attempts r !! k) <-> is_Some (pending (scheduler r) !! k).

Lemma take_attempts_spec ids m :
  NoDup ids ->
  (forall k a, (k, a) ∈ fst (take_attempts ids m) <-> k ∈ ids /\ m !! k = Some a) /\
  (forall k, snd (take_attempts ids m) !! k = if decide (k ∈ ids) then None else m !! k).
Proof.
  revert m. induction ids as [|id ids IH]; intros m Hnd; cbn.
  - split; [set_solver|]. intros k. by rewrite decide_False by set_solver.
  - apply NoDup_cons in Hnd as [Hid Hnd]. specialize (IH (delete id m) Hnd).
    destruct (take_attempts ids (delete id m)) as [l m']. cbn in *. destruct IH as [IH1 IH2]. split.
    + intros k a. transitivity ((k, a) ∈ l \/ k = id /\ m !! id = Some a).
      { destruct (m !! id); set_solver. }
      rewrite IH1, elem_of_cons. destruct (decide (k = id)) as [->|Hne].
      * rewrite lookup_delete_eq. naive_solver.
      * rewrite lookup_delete_ne by done. naive_solver.
    + intros k. rewrite IH2. destruct (decide (k = id)) as [->|Hne].
      * rewrite lookup_delete_eq. repeat case_decide; (done || set_solver).
      * rewrite lookup_delete_ne by done. repeat case_decide; (done || set_solver).
Qed.

Lemma tick_ready_nodup s : NoDup (fst (tick s)).
Proof. unfold tick. apply NoDup_fst_map_to_list. Qed.

(** *** What is scheduled *)

Lemma is_scheduled_schedule (k k' : K) n (s : TickScheduler) :
  is_scheduled k (schedule k' n s) = bool_decide (k = k') || is_scheduled k s.
Proof.
  unfold is_scheduled, schedule. cbn [pending]. destruct (decide (k = k')) as [->|Hne].
  - by rewrite lookup_insert_eq, !bool_decide_true by done.
  - rewrite lookup_insert_ne by done. by rewrite (bool_decide_false (k = k')) by done.
Qed.

(** Scheduling what is not scheduled yet. *)
Lemma is_scheduled_once (k k' : K) n (s : TickScheduler) :
  is_scheduled k s = true \/ k = k' -> is_scheduled k (if is_scheduled k' s then s else schedule k' n s) = true.
Proof.
  intros Hk. destruct (is_scheduled k' s) eqn:Hs; [by destruct Hk; subst|].
  rewrite is_scheduled_schedule. destruct Hk as [-> | ->]; [apply orb_true_r|by rewrite bool_decide_true].
Qed.

End Schedulers.

(** A scheduled item fires exactly once, at the tick its delay says (the
    first one for a delay of zero), whatever else is scheduled. *)
Theorem tick_scheduler_fires_once `{Countable K} (s : TickScheduler) (id : K) delay n i l :
  0 <= delay -> fst (ticks n (schedule id delay s)) !! i = Some l ->
  id ∈ l <-> Z.of_nat (S i) = Z.max 1 delay.
Proof.
  intros Hd Hl. rewrite (ticks_present n (schedule id delay s) id delay i l); [unfold matures; lia| |done|done].
  apply lookup_insert_eq.
Qed.

Lemma tick_scheduler_fires_once_witness :
  let s := schedule 7 3 (schedule 5 0 (mkTicks (K := Z) ∅)) in
  fst (ticks 4 s) !! 2%nat = Some [7] /\ (7 ∈ [7] <-> Z.of_nat 3 = Z.max 1 3).
Proof.
  cbn zeta. split; [vm_compute; reflexivity|].
  apply (tick_scheduler_fires_once (schedule 5 0 (mkTicks (K := Z) ∅)) 7 3 4 2).
  - lia.
  - vm_compute. reflexivity.
Defined.

(** The attempt numbers of a [RetryTracker] follow its schedule: if every
    scheduled retry has an attempt and conversely, the same holds after
    scheduling, cancelling or ticking, and a tick returns exactly the matured
    retries, each with the attempt it was scheduled with. *)
Theorem retry_tracker_consistent `{Countable K} (r : RetryTracker (K := K)) id attempt delay :
  retries_ok r ->
  retries_ok (schedule_retry id attempt delay r) /\ retries_ok (cancel_retry id r) /\
  retries_ok (snd (tick_retries r)) /\
  forall k a, (k, a) ∈ fst (tick_retries r) <->
    attempts r !! k = Some a /\ exists d, pending (scheduler r) !! k = Some d /\ tick_down d = 0.
Proof.
  intros Hok. split_and!.
  - intros k. cbn. destruct (decide (id = k)) as [->|]; [by rewrite !lookup_insert_eq|].
    rewrite !lookup_insert_ne by done. apply Hok.
  - intros k. cbn. destruct (decide (id = k)) as [->|]; [by rewrite !lookup_delete_eq|].
    rewrite !lookup_delete_ne by done. apply Hok.
  - unfold tick_retries. pose proof (tick_spec (scheduler r)) as Hspec.
    pose proof (tick_ready_nodup (scheduler r)) as Hnd. destruct (tick (scheduler r)) as [ready s].
    cbn in *. destruct (take_attempts_spec ready (attempts r) Hnd) as [_ Hrest].
    destruct (take_attempts ready (attempts r)) as [l m]. cbn in *. intros k. cbn. rewrite Hrest.
    specialize (Hspec k). specialize (Hok k). destruct (pending (scheduler r) !! k) as [d|].
    + case_decide as Hz; destruct Hspec as [Hin ->].
      * by rewrite decide_True by done.
      * rewrite decide_False by done. rewrite Hok. naive_solver.
    + destruct Hspec as [Hin ->]. rewrite decide_False by done. apply Hok.
  - intros k a. unfold tick_retries. pose proof (tick_spec (scheduler r) k) as Hspec.
    pose proof (tick_ready_nodup (scheduler r)) as Hnd. destruct (tick (scheduler r)) as [ready s].
    cbn in *. destruct (take_attempts_spec ready (attempts r) Hnd) as [Hin _].
    destruct (take_attempts ready (attempts r)) as [l m]. cbn in *. rewrite Hin.
    destruct (pending (scheduler r) !! k) as [d|]; [case_decide|]; naive_solver.
Qed.

Lemma retry_tracker_consistent_witness :
  let r := schedule_retry 5 2 1 (mkRetries (K := Z) ∅ (mkTicks ∅)) in
  retries_ok r /\ ((5, 2) ∈ fst (tick_retries r) <->
    attempts r !! 5 = Some 2 /\ exists d, pending (scheduler r) !! 5 = Some d /\ tick_down d = 0).
Proof.
  cbn zeta.
  destruct (retry_tracker_consistent (mkRetries (K := Z) ∅ (mkTicks ∅)) 5 2 1) as [Hr _].
  - intros k. cbn. rewrite !lookup_empty. reflexivity.
  - split; [exact Hr|].
    apply (retry_tracker_consistent (schedule_retry 5 2 1 (mkRetries (K := Z) ∅ (mkTicks ∅))) 0 0 0 Hr).
Defined.

(** Exactly the expired timeouts are returned, and exactly they are dropped. *)
Lemma check_expired_exact `{Countable K} now (s : TimeBasedScheduler (K := K)) k :
  (k ∈ fst (check_expired now s) <-> exists t, expirations s !! k = Some t /\ t <= now) /\
  expirations (snd (check_expired now s)) !! k =
    (if decide (k ∈ fst (check_expired now s)) then None else expirations s !! k).
Proof. split; [apply elem_of_keys_filter|apply foldr_delete_lookup]. Qed.
