(* ===== verification/Events.v ===== *)
(** * Contract events (crates/coordinator/src/types.rs: [EventDecoder])

    A log is offered to the generated bindings of one contract after the other;
    the first that decodes it decides.  The bindings are generated from the
    contracts' ABI in another repository: [Bindings] are their event types and
    decoders. *)

From stdpp Require Import prelude strings.
From S2P Require Import Prelude BlockHeader Types.
Open Scope Z_scope.

(** The payloads of the events that have a handler. *)
Class EventPayloads := {
  PeginRequestedP : Type;
  PeginAcceptedP : Type;
  PegoutRegisteredP : Type;
  PegoutRequestedP : Type;
  OperatorTakeTriggeredP : Type;
  AdvanceFundsRegisteredP : Type;
  ReimbursementKickoffRegisteredP : Type;
  AllOperatorTakeTxidsAddedP : Type;
  NewPendingCommitteeP : Type;
  NewCommitteeP : Type;
  AllCommunicationDataReadyP : Type;
  MemberInfoDepositedP : Type
}.

Record EventWithBlock (T : Type) := mkEventWithBlock {
  ev_inner : T;
  ev_block_number : BlockNumber;
  ev_block_hash : Hash256;
  ev_removed : bool;
  ev_tx_hash : Hash256
}.
Arguments mkEventWithBlock {T}.
Arguments ev_inner {T}.
Arguments ev_block_number {T}.
Arguments ev_block_hash {T}.
Arguments ev_removed {T}.
Arguments ev_tx_hash {T}.

Inductive RskPegManagerEvents `{EventPayloads} :=
| PeginRequested (e : EventWithBlock PeginRequestedP)
| PeginAccepted (e : EventWithBlock PeginAcceptedP)
| PegoutRegistered (e : EventWithBlock PegoutRegisteredP)
| PegoutRequested (e : EventWithBlock PegoutRequestedP)
| OperatorTakeTriggered (e : EventWithBlock OperatorTakeTriggeredP)
| AdvanceFundsRegistered (e : EventWithBlock AdvanceFundsRegisteredP)
| ReimbursementKickoffRegistered (e : EventWithBlock ReimbursementKickoffRegisteredP)
| RemoveRegisteredPeginRequest (e : EventWithBlock PeginRequestedP)
| AllNoncesReady (e : EventWithBlock Hash256)
| AllSignaturesReady (e : EventWithBlock Hash256)
| AllOperatorTakeTxidsAdded (e : EventWithBlock AllOperatorTakeTxidsAddedP)
| NewCommitteePending (e : EventWithBlock NewPendingCommitteeP)
| NewCommitteeReady (e : EventWithBlock NewCommitteeP)
| AllCommunicationDataReady (e : EventWithBlock AllCommunicationDataReadyP)
| MemberInfoDeposited (e : EventWithBlock MemberInfoDepositedP)
| IgnoredEvent
| UnknownEvent.

(** The generated enums; the last constructor of each stands for its variants
    without a handler. *)
Inductive PeginManagerEvents `{EventPayloads} :=
| PMRequested (inner : PeginRequestedP) | PMAccepted (inner : PeginAcceptedP) | PMOther.
Inductive PegoutManagerEvents `{EventPayloads} :=
| PORegistered (inner : PegoutRegisteredP) | PORequested (inner : PegoutRequestedP)
| POTakeTriggered (inner : OperatorTakeTriggeredP) | POAdvanceFunds (inner : AdvanceFundsRegisteredP)
| POKickoff (inner : ReimbursementKickoffRegisteredP) | POOther.
Inductive CommitteeRegistryEvents `{EventPayloads} :=
| CRNewPending (inner : NewPendingCommitteeP) | CRNew (inner : NewCommitteeP)
| CRCommunicationReady (inner : AllCommunicationDataReadyP) | CROther.
Inductive SignatureManagerEvents `{EventPayloads} :=
| SMNoncesReady (txid : Hash256) | SMSignaturesReady (txid : Hash256)
| SMTakeTxidsAdded (inner : AllOperatorTakeTxidsAddedP) | SMOther.

(** [decode_raw_log] of each binding; the member registry, stream manager and
    bitcoin manager have no event with a handler. *)
Class Bindings `{EventPayloads} := {
  decode_pegin_manager : list Hash256 -> bytes -> option PeginManagerEvents;
  decode_pegout_manager : list Hash256 -> bytes -> option PegoutManagerEvents;
  decode_committee_registry : list Hash256 -> bytes -> option CommitteeRegistryEvents;
  decode_member_registry : list Hash256 -> bytes -> option unit;
  decode_stream_manager : list Hash256 -> bytes -> option unit;
  decode_signature_manager : list Hash256 -> bytes -> option SignatureManagerEvents;
  decode_bitcoin_manager : list Hash256 -> bytes -> option unit
}.

Section Decoder.
Context `{Bindings}.

(** [extract_log_fields], with the payload: what every conversion builds. *)
Definition with_block {T} (log : RskLog) (inner : T) : EventWithBlock T :=
  mkEventWithBlock inner (block_number (info log)) (block_hash (info log)) (removed (info log))
    (tx_hash (info log)).

Definition convert_pegin_manager_event (log : RskLog) (event : PeginManagerEvents) : RskPegManagerEvents :=
  match event with
  | PMRequested inner => PeginRequested (with_block log inner)
  | PMAccepted inner => PeginAccepted (with_block log inner)
  | PMOther => IgnoredEvent
  end.

Definition convert_pegout_manager_event (log : RskLog) (event : PegoutManagerEvents) : RskPegManagerEvents :=
  match event with
  | PORegistered inner => PegoutRegistered (with_block log inner)
  | PORequested inner => PegoutRequested (with_block log inner)
  | POTakeTriggered inner => OperatorTakeTriggered (with_block log inner)
  | POAdvanceFunds inner => AdvanceFundsRegistered (with_block log inner)
  | POKickoff inner => ReimbursementKickoffRegistered (with_block log inner)
  | POOther => IgnoredEvent
  end.

Definition convert_committee_registry_event (log : RskLog) (event : CommitteeRegistryEvents)
    : RskPegManagerEvents :=
  match event with
  | CRNewPending inner => NewCommitteePending (with_block log inner)
  | CRNew inner => NewCommitteeReady (with_block log inner)
  | CRCommunicationReady inner => AllCommunicationDataReady (with_block log inner)
  | CROther => IgnoredEvent
  end.

Definition convert_signature_manager_event (log : RskLog) (event : SignatureManagerEvents)
    : RskPegManagerEvents :=
  match event with
  | SMNoncesReady txid => AllNoncesReady (with_block log txid)
  | SMSignaturesReady txid => AllSignaturesReady (with_block log txid)
  | SMTakeTxidsAdded inner => AllOperatorTakeTxidsAdded (with_block log inner)
  | SMOther => IgnoredEvent
  end.

Definition try_pegin_manager_events (log : RskLog) : option RskPegManagerEvents :=
  convert_pegin_manager_event log <$> decode_pegin_manager (topics (event log)) (data (event log)).
Definition try_pegout_manager_events (log : RskLog) : option RskPegManagerEvents :=
  convert_pegout_manager_event log <$> decode_pegout_manager (topics (event log)) (data (event log)).
Definition try_committee_registry_events (log : RskLog) : option RskPegManagerEvents :=
  convert_committee_registry_event log <$> decode_committee_registry (topics (event log)) (data (event log)).
Definition try_member_registry_events (log : RskLog) : option RskPegManagerEvents :=
  (fun _ => IgnoredEvent) <$> decode_member_registry (topics (event log)) (data (event log)).
Definition try_stream_manager_events (log : RskLog) : option RskPegManagerEvents :=
  (fun _ => IgnoredEvent) <$> decode_stream_manager (topics (event log)) (data (event log)).
Definition try_signature_manager_events (log : RskLog) : option RskPegManagerEvents :=
  convert_signature_manager_event log <$> decode_signature_manager (topics (event log)) (data (event log)).
Definition try_bitcoin_manager_events (log : RskLog) : option RskPegManagerEvents :=
  (fun _ => IgnoredEvent) <$> decode_bitcoin_manager (topics (event log)) (data (event log)).

(** The attempts, in the order of the code; the first success is returned. *)
Definition decoders : list (RskLog -> option RskPegManagerEvents) :=
  [try_pegin_manager_events; try_pegout_manager_events; try_committee_registry_events;
   try_member_registry_events; try_stream_manager_events; try_signature_manager_events;
   try_bitcoin_manager_events].

Fixpoint first_decoded (l : list (RskLog -> option RskPegManagerEvents)) (log : RskLog)
    : RskPegManagerEvents :=
  match l with
  | [] => UnknownEvent
  | f :: l => match f log with Some e => e | None => first_decoded l log end
  end.

Definition decode (log : RskLog) : RskPegManagerEvents :=
  match topics (event log) with
  | [] => UnknownEvent
  | _ => first_decoded decoders log
  end.

(** ** Theorems *)

(** The block, transaction and removal flag an event carries, if any. *)
Definition event_origin {T} (e : EventWithBlock T) : option (BlockNumber * Hash256 * bool * Hash256) :=
  Some (ev_block_number e, ev_block_hash e, ev_removed e, ev_tx_hash e).

Definition origin (e : RskPegManagerEvents) : option (BlockNumber * Hash256 * bool * Hash256) :=
  match e with
  | PeginRequested e | RemoveRegisteredPeginRequest e => event_origin e
  | PeginAccepted e => event_origin e
  | PegoutRegistered e => event_origin e
  | PegoutRequested e => event_origin e
  | OperatorTakeTriggered e => event_origin e
  | AdvanceFundsRegistered e => event_origin e
  | ReimbursementKickoffRegistered e => event_origin e
  | AllNoncesReady e | AllSignaturesReady e => event_origin e
  | AllOperatorTakeTxidsAdded e => event_origin e
  | NewCommitteePending e => event_origin e
  | NewCommitteeReady e => event_origin e
  | AllCommunicationDataReady e => event_origin e
  | MemberInfoDeposited e => event_origin e
  | IgnoredEvent | UnknownEvent => None
  end.

Lemma first_decoded_invariant (P : RskPegManagerEvents -> Prop) l log :
  P UnknownEvent -> Forall (fun f => forall e, f log = Some e -> P e) l -> P (first_decoded l log).
Proof.
  intros HU. induction 1 as [|f l Hf _ IH]; cbn; [done|]. destruct (f log) eqn:E; eauto.
Qed.

Lemma fmap_convert {A} (conv : A -> RskPegManagerEvents) (o : option A) (P : RskPegManagerEvents -> Prop) :
  (forall a, P (conv a)) -> forall e, conv <$> o = Some e -> P e.
Proof. intros HP e. destruct o; cbn; [|done]. intros ?; simplify_eq. apply HP. Qed.

Lemma decode_invariant (P : RskPegManagerEvents -> Prop) log :
  P UnknownEvent -> P IgnoredEvent ->
  (forall a, P (convert_pegin_manager_event log a)) -> (forall a, P (convert_pegout_manager_event log a)) ->
  (forall a, P (convert_committee_registry_event log a)) ->
  (forall a, P (convert_signature_manager_event log a)) -> P (decode log).
Proof.
  intros. unfold decode. destruct (topics (event log)); [done|].
  apply first_decoded_invariant; [done|]. repeat (apply Forall_cons_2); try apply Forall_nil_2;
    eapply fmap_convert; eauto.
Qed.

End Decoder.

(** A decoded event carries the block number, block hash, removal flag and
    transaction hash of the log it came from, for every contract and every
    variant; removal of a reorganised log is never lost on the way. *)
Theorem decode_keeps_origin `{Bindings} log o :
  origin (decode log) = Some o ->
  o = (block_number (info log), block_hash (info log), removed (info log), tx_hash (info log)).
Proof.
  revert o. apply decode_invariant; try done; intros []; cbn; try done; by intros ? [= <-].
Qed.

(** Bindings that know one event, told by its topic. *)
Module Sample.

#[export] Instance payloads : EventPayloads :=
  Build_EventPayloads Z Z Z Z Z Z Z Z Z Z Z Z.

#[export] Instance bindings : Bindings := {|
  decode_pegin_manager topics data :=
    if decide (topics = [[1]]) then Some (PMAccepted (Z.of_nat (length data))) else None;
  decode_pegout_manager _ _ := None;
  decode_committee_registry _ _ := None;
  decode_member_registry _ _ := None;
  decode_stream_manager _ _ := None;
  decode_signature_manager topics _ :=
    match topics with [t; txid] => if decide (t = [2]) then Some (SMNoncesReady txid) else None | _ => None end;
  decode_bitcoin_manager _ _ := None
|}.

Definition sample_log : RskLog :=
  mkRskLog (mkLogInfo [9] [4] 12 [5] 0 true) (mkLogEvent [] [[2]; [8]]).

End Sample.

Lemma decode_keeps_origin_witness :
  exists o, @origin Sample.payloads (@decode Sample.payloads Sample.bindings Sample.sample_log) = Some o /\
    o = (12, [4], true, [5]).
Proof.
  eexists. split; [vm_compute; reflexivity|].
  refine (@decode_keeps_origin Sample.payloads Sample.bindings Sample.sample_log _ _).
  vm_compute. reflexivity.
Defined.
