(* ===== verification/BtcSignature.v ===== *)
(** * The Bitcoin signature subflow
    (crates/coordinator/src/flows/btc_signature)

    A member sends its MuSig2 nonce to the contracts, waits until the event that
    all nonces are ready is confirmed, sends its signature, waits until the event
    that all signatures are ready is confirmed, and is done.  [Lifecycle] is
    [btc_signature_lifecycle.rs], [SubFlow] with its view of the chain is
    [btc_signature_subflow.rs].  The contracts are an interface whose calls may
    fail; every call is recorded. *)

From stdpp Require Import prelude gmap strings.
From S2P Require Import Prelude BlockHeader Types BlockchainTracker Events.
Open Scope Z_scope.

(** A [Uuid], by its textual form. *)
Abbreviation Uuid := string.

Record RegisterSignaturesBitVmxData := mkSignatureData {
  hash_to_sign : Hash256;
  nonce : bytes;
  signature : bytes
}.

Inductive ContractCall :=
| AddMemberNonce (hash_to_sign : Hash256) (nonce : bytes)
| AddMemberSignature (hash_to_sign : Hash256) (signature : bytes).

(** The two methods of [RskContractsGatewayApi] in use. *)
Class SignatureContracts (G : Type) := {
  contract_call : ContractCall -> SR G failure unit
}.

Record Lifecycle := mkLifecycle {
  lc_flow_id : Uuid;
  lc_data : option RegisterSignaturesBitVmxData;
  nonce_step : option ConfirmableEvent;
  signature_step : option ConfirmableEvent;
  required_confirmations : Z
}.

(** [BtcSignatureLifeCycle::new] *)
Definition new_lifecycle (flow_id : Uuid) (required_confirmations : Z) : Lifecycle :=
  mkLifecycle flow_id None None None required_confirmations.

Inductive ParentSpan := ParentPegin (id : Uuid) | ParentPegout (id : Uuid).

Record SubFlow := mkSubFlow {
  lifecycle : Lifecycle;
  is_done : bool;
  is_nonces_step_done : bool;
  parent_log_id : string;
  parent : option ParentSpan
}.

(** The subflow with its view, the contracts and the calls made to them. *)
Record World (G : Type) := mkWorld {
  flow : SubFlow;
  view : Tracker;
  gateway : G;
  calls : list ContractCall
}.
Arguments mkWorld {G}.
Arguments flow {G}.
Arguments view {G}.
Arguments gateway {G}.
Arguments calls {G}.

Section SubFlows.
Context `{SignatureContracts G, EventPayloads}.
Abbreviation W := (World G).

Definition get_life : SR W failure Lifecycle := w ← sget; mret (lifecycle (flow w)).

Definition set_flow (f : SubFlow -> SubFlow) : SR W failure unit :=
  smodify (fun w => mkWorld (f (flow w)) (view w) (gateway w) (calls w)).
Definition set_life (f : Lifecycle -> Lifecycle) : SR W failure unit :=
  set_flow (fun s => mkSubFlow (f (lifecycle s)) (is_done s) (is_nonces_step_done s)
                       (parent_log_id s) (parent s)).
Definition set_data (d : RegisterSignaturesBitVmxData) : SR W failure unit :=
  set_life (fun l => mkLifecycle (lc_flow_id l) (Some d) (nonce_step l) (signature_step l)
                       (required_confirmations l)).
Definition set_nonce_step (e : ConfirmableEvent) : SR W failure unit :=
  set_life (fun l => mkLifecycle (lc_flow_id l) (lc_data l) (Some e) (signature_step l)
                       (required_confirmations l)).
Definition set_signature_step (e : ConfirmableEvent) : SR W failure unit :=
  set_life (fun l => mkLifecycle (lc_flow_id l) (lc_data l) (nonce_step l) (Some e)
                       (required_confirmations l)).

Definition on_view {A} (m : SR Tracker failure A) : SR W failure A :=
  zoom view (fun t w => mkWorld (flow w) t (gateway w) (calls w)) m.

(** A call of the contracts, recorded whether it succeeds or not. *)
Definition call (c : ContractCall) : SR W failure unit :=
  _ ← smodify (fun w => mkWorld (flow w) (view w) (gateway w) (calls w ++ [c]));
  zoom gateway (fun g w => mkWorld (flow w) (view w) g (calls w)) (contract_call c).

(** ** btc_signature_lifecycle.rs *)

Definition modify_event_confirmation_status (block_number : option BlockNumber) (e : ConfirmableEvent)
    : SR W failure ConfirmableEvent :=
  match block_number with
  | Some block => context "Failed to start confirming event for flow" (on_view (start_confirming e block))
  | None => context "Failed to stop confirming event for flow" (on_view (stop_confirming e))
  end.

Definition modify_nonces_confirmation_status (block_number : option BlockNumber) : SR W failure unit :=
  l ← get_life;
  match signature_step l with
  | Some _ => bail "Nonces unset received for flow in Signatures step"
  | None =>
      match nonce_step l with
      | None => bail "flow is not at Nonces step"
      | Some nonce_event =>
          e ← modify_event_confirmation_status block_number nonce_event;
          set_nonce_step e
      end
  end.

Definition modify_signatures_confirmation_status (block_number : option BlockNumber) : SR W failure unit :=
  l ← get_life;
  match signature_step l with
  | None => bail "flow is not at Signatures step"
  | Some signature_event =>
      e ← modify_event_confirmation_status block_number signature_event;
      set_signature_step e
  end.

Definition send_nonce_to_contracts (data : RegisterSignaturesBitVmxData) : SR W failure unit :=
  l ← get_life;
  if bool_decide (is_Some (nonce_step l)) || bool_decide (is_Some (lc_data l)) then
    bail "flow is already in Nonces step"
  else
    _ ← set_data data;
    _ ← context "Failed to send nonce for flow" (call (AddMemberNonce (hash_to_sign data) (nonce data)));
    set_nonce_step (new_event ("add-member-nonce-" +:+ lc_flow_id l) (required_confirmations l)).

Definition set_all_nonces_ready (block_number : BlockNumber) : SR W failure unit :=
  modify_nonces_confirmation_status (Some block_number).
Definition unset_all_nonces_ready : SR W failure unit := modify_nonces_confirmation_status None.

Definition step_confirmed (e : option ConfirmableEvent) (t : Tracker) : bool :=
  match e with Some e => is_confirmed e t | None => false end.

Definition is_all_nonces_ready_confirmed (w : W) : bool :=
  step_confirmed (nonce_step (lifecycle (flow w))) (view w).
Definition is_all_signatures_ready_confirmed (w : W) : bool :=
  step_confirmed (signature_step (lifecycle (flow w))) (view w).

Definition send_signature_to_contracts : SR W failure unit :=
  w ← sget;
  let l := lifecycle (flow w) in
  match signature_step l with
  | Some _ => mret tt
  | None =>
      if negb (is_all_nonces_ready_confirmed w) then bail "flow has not completed the Nonces step yet" else
      _ ← match nonce_step l with
          | Some e => e' ← on_view (stop_confirming e); set_nonce_step e'
          | None => bail "Nonce step is not found for flow"
          end;
      match lc_data l with
      | None => bail "Signature data missing on flow"
      | Some d =>
          _ ← context "Failed to send signature for flow"
                (call (AddMemberSignature (hash_to_sign d) (signature d)));
          set_signature_step
            (new_event ("add-member-signature-" +:+ lc_flow_id l) (required_confirmations l))
      end
  end.

Definition set_all_signatures_ready (block_number : BlockNumber) : SR W failure unit :=
  modify_signatures_confirmation_status (Some block_number).
Definition unset_all_signatures_ready : SR W failure unit := modify_signatures_confirmation_status None.

Definition get_hash_to_sign : SR W failure (option Hash256) :=
  l ← get_life; mret (hash_to_sign <$> lc_data l).

(** ** btc_signature_subflow.rs *)

Definition start_signature_flow (flow_id : Uuid) (event : RegisterSignaturesBitVmxData) : SR W failure unit :=
  l ← get_life;
  if negb (bool_decide (lc_flow_id l = flow_id)) then mret tt else send_nonce_to_contracts event.

(** An event is for this flow when it names the hash the flow signs. *)
Definition if_mine (inner : Hash256) (m : SR W failure unit) : SR W failure unit :=
  hash ← get_hash_to_sign;
  match hash with
  | Some h => if bool_decide (h = inner) then m else mret tt
  | None => mret tt
  end.

Definition delegate_rsk_event (flow_id : Uuid) (event : RskPegManagerEvents) : SR W failure unit :=
  l ← get_life;
  if negb (bool_decide (lc_flow_id l = flow_id)) then mret tt else
  match event with
  | AllNoncesReady e =>
      if_mine (ev_inner e)
        (if ev_removed e then unset_all_nonces_ready else set_all_nonces_ready (ev_block_number e))
  | AllSignaturesReady e =>
      if_mine (ev_inner e)
        (if ev_removed e then unset_all_signatures_ready else set_all_signatures_ready (ev_block_number e))
  | _ => bail "Unexpected RSK event in BtcSignatureSubFlow"
  end.

Definition set_nonces_step_done : SR W failure unit :=
  set_flow (fun s => mkSubFlow (lifecycle s) (is_done s) true (parent_log_id s) (parent s)).
Definition set_done : SR W failure unit :=
  set_flow (fun s => mkSubFlow (lifecycle s) true (is_nonces_step_done s) (parent_log_id s) (parent s)).

Definition delegate_block (block : RskBlockAndUncles) : SR W failure unit :=
  _ ← on_view (update block);
  w ← sget;
  if negb (has_observers (view w)) then mret tt else
  if negb (is_nonces_step_done (flow w)) && is_all_nonces_ready_confirmed w then
    _ ← set_nonces_step_done;
    send_signature_to_contracts
  else if is_all_signatures_ready_confirmed w then
    _ ← set_done;
    on_view clear_view
  else mret tt.

End SubFlows.

(** ** Persistence *)

Record BtcSignatureLifecycleSnapshot := mkLifecycleSnapshot {
  lcs_flow_id : Uuid;
  lcs_data : option RegisterSignaturesBitVmxData;
  lcs_nonce_step : option ConfirmableEventStateSnapshot;
  lcs_signature_step : option ConfirmableEventStateSnapshot
}.

Record BtcSignatureSubFlowSnapshot := mkSubFlowSnapshot {
  sfs_lifecycle : BtcSignatureLifecycleSnapshot;
  sfs_is_done : bool;
  sfs_is_nonces_step_done : bool;
  sfs_parent_log_id : string;
  sfs_parent : option ParentSpan
}.

Definition lifecycle_snapshot (l : Lifecycle) (t : Tracker) : BtcSignatureLifecycleSnapshot :=
  mkLifecycleSnapshot (lc_flow_id l) (lc_data l)
    ((fun e => state_snapshot e t) <$> nonce_step l) ((fun e => state_snapshot e t) <$> signature_step l).

Definition subflow_snapshot (s : SubFlow) (t : Tracker) : BtcSignatureSubFlowSnapshot :=
  mkSubFlowSnapshot (lifecycle_snapshot (lifecycle s) t) (is_done s) (is_nonces_step_done s)
    (parent_log_id s) (parent s).

(** [step.map(|step| ConfirmableEvent::from_state_snapshot(step, ..)).transpose()] *)
Definition restore_step (s : option ConfirmableEventStateSnapshot) : SR Tracker failure (option ConfirmableEvent) :=
  match s with
  | Some s => e ← from_state_snapshot s; mret (Some e)
  | None => mret None
  end.

Definition lifecycle_from_snapshot (s : BtcSignatureLifecycleSnapshot) (required_confirmations : Z)
    : SR Tracker failure Lifecycle :=
  nonce ← restore_step (lcs_nonce_step s);
  signature ← restore_step (lcs_signature_step s);
  mret (mkLifecycle (lcs_flow_id s) (lcs_data s) nonce signature required_confirmations).

(** In a view of its own. *)
Definition subflow_from_snapshot (s : BtcSignatureSubFlowSnapshot) (required_confirmations : Z)
    : result failure SubFlow * Tracker :=
  (l ← lifecycle_from_snapshot (sfs_lifecycle s) required_confirmations;
   mret (mkSubFlow l (sfs_is_done s) (sfs_is_nonces_step_done s) (sfs_parent_log_id s) (sfs_parent s)))
  new_tracker.

(** [create_flow] *)
Definition new_subflow (flow_id : Uuid) (parent_log_id : string) (required_confirmations : Z)
    (parent : option ParentSpan) : SubFlow :=
  mkSubFlow (new_lifecycle flow_id required_confirmations) false false parent_log_id parent.

(** ** Runs

    The coordinator hands each input to the subflow, logs an error and goes on;
    a panic ends the process. *)

Inductive Input `{EventPayloads} :=
| Start (flow_id : Uuid) (data : RegisterSignaturesBitVmxData)
| Event (flow_id : Uuid) (event : RskPegManagerEvents)
| Block (block : RskBlockAndUncles).

Section Runs.
Context `{SignatureContracts G, EventPayloads}.
Abbreviation W := (World G).

Definition step (i : Input) : SR W failure unit :=
  match i with
  | Start flow_id data => start_signature_flow flow_id data
  | Event flow_id event => delegate_rsk_event flow_id event
  | Block block => delegate_block block
  end.

Definition react (i : Input) (w : W) : option W :=
  match step i w with
  | (Err (Panic _), _) => None
  | (_, w') => Some w'
  end.

Definition react_all (inputs : list Input) (w : W) : option W :=
  foldl (fun ow i => ow ≫= react i) (Some w) inputs.

(** What an event changes: the confirmation status of a step the flow is at. *)
Record same_progress (w w' : W) : Prop := {
  same_calls : calls w' = calls w;
  same_data : lc_data (lifecycle (flow w')) = lc_data (lifecycle (flow w));
  same_done : is_done (flow w') = is_done (flow w);
  same_nonces_done : is_nonces_step_done (flow w') = is_nonces_step_done (flow w);
  same_nonce_step : is_Some (nonce_step (lifecycle (flow w'))) <-> is_Some (nonce_step (lifecycle (flow w)));
  same_signature_step :
    is_Some (signature_step (lifecycle (flow w'))) <-> is_Some (signature_step (lifecycle (flow w)))
}.

Lemma same_progress_refl w : same_progress w w.
Proof. by split. Qed.

(** One step of the view leaves the flow alone. *)
Lemma on_view_run {A} (m : SR Tracker failure A) (w : W) :
  on_view m w = (fst (m (view w)), mkWorld (flow w) (snd (m (view w))) (gateway w) (calls w)).
Proof. unfold on_view, zoom. by destruct (m (view w)). Qed.

Lemma modify_event_run o e (w : W) :
  exists r t, modify_event_confirmation_status o e w = (r, mkWorld (flow w) t (gateway w) (calls w)).
Proof.
  unfold modify_event_confirmation_status, context. destruct o; rewrite on_view_run;
    [destruct (start_confirming e _ _) as [[|[]] t]|destruct (stop_confirming e _) as [[|[]] t]]; eauto.
Qed.

Lemma modify_nonces_effect o w : same_progress w (snd (modify_nonces_confirmation_status o w)).
Proof.
  unfold modify_nonces_confirmation_status. rewrite SR_bind_run with (a := lifecycle (flow w)) (s' := w) by done.
  destruct (signature_step (lifecycle (flow w))); [apply same_progress_refl|].
  destruct (nonce_step (lifecycle (flow w))) as [e|] eqn:En; [|apply same_progress_refl].
  destruct (modify_event_run o e w) as ([e'|f] & t & Hr).
  - rewrite (SR_bind_run _ _ _ _ _ Hr). split; cbn; rewrite ?En; done.
  - rewrite (SR_bind_err _ _ _ _ _ Hr). by split.
Qed.

Lemma modify_signatures_effect o w : same_progress w (snd (modify_signatures_confirmation_status o w)).
Proof.
  unfold modify_signatures_confirmation_status. rewrite SR_bind_run with (a := lifecycle (flow w)) (s' := w) by done.
  destruct (signature_step (lifecycle (flow w))) as [e|] eqn:Es; [|apply same_progress_refl].
  destruct (modify_event_run o e w) as ([e'|f] & t & Hr).
  - rewrite (SR_bind_run _ _ _ _ _ Hr). split; cbn; rewrite ?Es; done.
  - rewrite (SR_bind_err _ _ _ _ _ Hr). by split.
Qed.

Lemma if_mine_effect h m w :
  same_progress w (snd (m w)) -> same_progress w (snd (if_mine h m w)).
Proof.
  intros Hm. unfold if_mine, get_hash_to_sign. rewrite SR_bind_run with (a := hash_to_sign <$> lc_data (lifecycle (flow w))) (s' := w) by done.
  destruct (hash_to_sign <$> _); [case_bool_decide; [done|]|]; apply same_progress_refl.
Qed.

Lemma event_effect flow_id ev w : same_progress w (snd (delegate_rsk_event flow_id ev w)).
Proof.
  unfold delegate_rsk_event. rewrite SR_bind_run with (a := lifecycle (flow w)) (s' := w) by done.
  case_bool_decide; cbn [negb]; [|apply same_progress_refl].
  destruct ev; try apply same_progress_refl; apply if_mine_effect; destruct (ev_removed e);
    apply modify_nonces_effect || apply modify_signatures_effect.
Qed.

(** Starting: nothing, or the data are set, the nonce is sent and, if that
    succeeds, the nonces step begins. *)
Lemma start_effect flow_id data w :
  let w' := snd (start_signature_flow flow_id data w) in
  w' = w \/
  lc_data (lifecycle (flow w)) = None /\ nonce_step (lifecycle (flow w)) = None /\
  lc_data (lifecycle (flow w')) = Some data /\
  calls w' = calls w ++ [AddMemberNonce (hash_to_sign data) (nonce data)] /\
  is_done (flow w') = is_done (flow w) /\ is_nonces_step_done (flow w') = is_nonces_step_done (flow w) /\
  signature_step (lifecycle (flow w')) = signature_step (lifecycle (flow w)).
Proof.
  unfold start_signature_flow. rewrite SR_bind_run with (a := lifecycle (flow w)) (s' := w) by done.
  case_bool_decide; cbn [negb]; [|by left]. unfold send_nonce_to_contracts.
  rewrite SR_bind_run with (a := lifecycle (flow w)) (s' := w) by done.
  destruct (bool_decide (is_Some (nonce_step _))) eqn:Hn; [by left|].
  destruct (bool_decide (is_Some (lc_data _))) eqn:Hd; [by left|]. right. reflect_bool.
  apply eq_None_not_Some in Hn, Hd. split; [done|]. split; [done|]. cbn [orb].
  unfold set_data, set_life, set_flow, call, context, mbind, SR_bind, smodify, zoom. cbn.
  by destruct (contract_call _ _) as [[|[]] ?].
Qed.

(** Sending the signature once the nonces are confirmed. *)
Lemma send_signature_effect w :
  is_all_nonces_ready_confirmed w = true ->
  let r := send_signature_to_contracts w in
  is_done (flow (snd r)) = is_done (flow w) /\
  is_nonces_step_done (flow (snd r)) = is_nonces_step_done (flow w) /\
  lc_data (lifecycle (flow (snd r))) = lc_data (lifecycle (flow w)) /\
  match signature_step (lifecycle (flow w)), lc_data (lifecycle (flow w)) with
  | None, Some d =>
      calls (snd r) = calls w ++ [AddMemberSignature (hash_to_sign d) (signature d)] /\
      (is_Some (signature_step (lifecycle (flow (snd r)))) <-> fst r = Ok tt)
  | s, _ => calls (snd r) = calls w /\ signature_step (lifecycle (flow (snd r))) = s
  end.
Proof.
  intros Hc. unfold send_signature_to_contracts. rewrite SR_bind_run with (a := w) (s' := w) by done.
  destruct (signature_step (lifecycle (flow w))) eqn:Es; [by cbn|]. rewrite Hc. cbn [negb].
  unfold is_all_nonces_ready_confirmed in Hc. destruct (nonce_step (lifecycle (flow w))) as [e|]; [|done].
  set (w1 := mkWorld (mkSubFlow (mkLifecycle (lc_flow_id (lifecycle (flow w))) (lc_data (lifecycle (flow w)))
    (Some (mkEvent (event_id e) (req_confirmations e) None)) (signature_step (lifecycle (flow w)))
    (required_confirmations (lifecycle (flow w)))) (is_done (flow w)) (is_nonces_step_done (flow w))
    (parent_log_id (flow w)) (parent (flow w))) (snd (stop_confirming e (view w))) (gateway w) (calls w)).
  rewrite SR_bind_run with (a := tt) (s' := w1) by done.
  destruct (lc_data (lifecycle (flow w))) as [d|] eqn:Ed; [|by cbn].
  unfold set_signature_step, set_life, set_flow, call, context, mbind, SR_bind, smodify, zoom. cbn -[w1].
  destruct (contract_call _ _) as [[[]|[]] ?]; cbn; rewrite ?Es; split_and!; try done;
    (split; [by intros [? ?]|done]).
Qed.

(** A block: the view alone, or the nonces step closes and the signature is
    sent once the nonces are confirmed, or the flow is done once the signatures
    are. *)
Lemma block_effect b w :
  let w' := snd (delegate_block b w) in
  same_progress w w' \/
  (is_nonces_step_done (flow w) = false /\ is_nonces_step_done (flow w') = true /\
   exists t, update b (view w) = (Ok tt, t) /\
     step_confirmed (nonce_step (lifecycle (flow w))) t = true /\
     exists w1, w1 = mkWorld (mkSubFlow (lifecycle (flow w)) (is_done (flow w)) true (parent_log_id (flow w))
                               (parent (flow w))) t (gateway w) (calls w) /\
       delegate_block b w = send_signature_to_contracts w1) \/
  (calls w' = calls w /\ lifecycle (flow w') = lifecycle (flow w) /\
   is_nonces_step_done (flow w') = is_nonces_step_done (flow w) /\ is_done (flow w') = true /\
   exists t, update b (view w) = (Ok tt, t) /\
     step_confirmed (signature_step (lifecycle (flow w))) t = true).
Proof.
  cbn zeta. unfold delegate_block. destruct (update b (view w)) as [[[]|f] t] eqn:Hu.
  2: { left. rewrite SR_bind_err with (e := f) (s' := mkWorld (flow w) t (gateway w) (calls w))
         by (rewrite on_view_run, Hu; done). by split. }
  set (w1 := mkWorld (flow w) t (gateway w) (calls w)).
  rewrite SR_bind_run with (a := tt) (s' := w1) by (rewrite on_view_run, Hu; done).
  rewrite SR_bind_run with (a := w1) (s' := w1) by done.
  destruct (has_observers (view w1)); cbn [negb]; [|left; by split].
  unfold is_all_nonces_ready_confirmed, is_all_signatures_ready_confirmed. cbn [flow view w1].
  destruct (negb (is_nonces_step_done (flow w)) && step_confirmed (nonce_step (lifecycle (flow w))) t) eqn:Hn.
  - apply andb_true_iff in Hn as [Hnd Hc]. apply negb_true_iff in Hnd. right. left.
    set (w2 := mkWorld (mkSubFlow (lifecycle (flow w)) (is_done (flow w)) true (parent_log_id (flow w))
                               (parent (flow w))) t (gateway w) (calls w)). rewrite SR_bind_run with (a := tt) (s' := w2) by done.
    destruct (send_signature_effect w2 Hc) as (_ & Hnd2 & _). eauto 10.
  - destruct (step_confirmed (signature_step (lifecycle (flow w))) t) eqn:Hs; [|left; by split].
    right. right. unfold set_done, set_flow, mbind, SR_bind, smodify. cbn. eauto 10.
Qed.

Lemma react_step i w w' : react i w = Some w' -> w' = snd (step i w).
Proof. unfold react. destruct (step i w) as [[|[]] ?]; naive_solver. Qed.

(** Invariants of every step hold after every run. *)
Lemma react_all_invariant (I : W -> Prop) inputs w w' :
  (forall i w, I w -> I (snd (step i w))) -> I w -> react_all inputs w = Some w' -> I w'.
Proof.
  intros Hstep. unfold react_all. revert w. induction inputs as [|i l IH]; intros w HI Hr; cbn in Hr.
  { by simplify_eq. }
  destruct (react i w) as [w1|] eqn:E.
  - apply (IH w1); [|done]. rewrite (react_step _ _ _ E). by apply Hstep.
  - clear -Hr. exfalso. by induction l.
Qed.

(** How far a subflow has come, and the calls it has made. *)
Inductive progress (w : W) : Prop :=
| at_start : lc_data (lifecycle (flow w)) = None -> calls w = [] ->
    signature_step (lifecycle (flow w)) = None -> nonce_step (lifecycle (flow w)) = None ->
    is_nonces_step_done (flow w) = false -> is_done (flow w) = false -> progress w
| at_nonces d : lc_data (lifecycle (flow w)) = Some d ->
    calls w = [AddMemberNonce (hash_to_sign d) (nonce d)] ->
    signature_step (lifecycle (flow w)) = None ->
    is_nonces_step_done (flow w) = false -> is_done (flow w) = false -> progress w
| at_signatures d : lc_data (lifecycle (flow w)) = Some d ->
    calls w = [AddMemberNonce (hash_to_sign d) (nonce d); AddMemberSignature (hash_to_sign d) (signature d)] ->
    is_nonces_step_done (flow w) = true ->
    (is_done (flow w) = true -> is_Some (signature_step (lifecycle (flow w)))) -> progress w.

Lemma same_progress_progress w w' : same_progress w w' -> progress w -> progress w'.
Proof.
  intros [Hc Hd Hdn Hnd Hn Hs]. assert (Hnone : forall (A : Type) (o o' : option A),
    (is_Some o' <-> is_Some o) -> o = None -> o' = None).
  { intros A o o' Hi ->. apply eq_None_not_Some. rewrite Hi. apply is_Some_None. }
  destruct 1 as [?? Hs' Hn'|d ?? Hs'|d]; [apply at_start|eapply at_nonces|eapply at_signatures];
    rewrite ?Hc, ?Hd, ?Hdn, ?Hnd, ?Hs; eauto.
Qed.

Lemma progress_step i w : progress w -> progress (snd (step i w)).
Proof.
  intros Hp. destruct i as [fid d|fid ev|b]; cbn [step].
  - destruct (start_effect fid d w) as [->|(Hd & Hn & Hd' & Hc & Hdn & Hnd & Hs)]; [done|].
    destruct Hp as [? Hcs|?|?]; [|congruence..].
    eapply at_nonces; rewrite ?Hc, ?Hcs, ?Hdn, ?Hnd, ?Hs, ?Hd'; eauto.
  - eapply same_progress_progress; [apply event_effect|done].
  - destruct (block_effect b w) as [Hs|[(Hnd & Hnd' & t & Hu & Hc & w1 & Hw1 & Hrun)|
      (Hc & Hl & Hnd & Hdn & t & Hu & Hs)]].
    + by eapply same_progress_progress.
    + destruct Hp as [??? Hn|d Hd Hcs Hss|d]; [by rewrite Hn in Hc| |congruence].
      destruct (send_signature_effect w1) as (Hdn' & _ & Hd' & Hm); [by rewrite Hw1|].
      rewrite <- Hrun in *. rewrite Hw1 in Hdn', Hd', Hm. cbn [flow lifecycle is_done calls] in Hdn', Hd', Hm.
      rewrite Hss, Hd in Hm. destruct Hm as [Hm _].
      eapply at_signatures; rewrite ?Hm, ?Hd', ?Hcs; eauto. congruence.
    + assert (Hsome : is_Some (signature_step (lifecycle (flow w)))).
      { by destruct (signature_step (lifecycle (flow w))). }
      destruct Hp as [?? Hss|? ?? Hss|d]; [rewrite Hss in Hsome; by destruct Hsome..|].
      eapply at_signatures; rewrite ?Hc, ?Hl, ?Hnd; eauto.
Qed.

(** A subflow that can no longer reach its end: the signature was not sent
    although the nonces step is closed, or the nonce was not sent although the
    data are set. *)
Definition stuck (s : SubFlow) : Prop :=
  is_done s = false /\ signature_step (lifecycle s) = None /\
  (is_nonces_step_done s = true \/ nonce_step (lifecycle s) = None /\ is_Some (lc_data (lifecycle s))).

Lemma same_progress_stuck w w' : same_progress w w' -> stuck (flow w) -> stuck (flow w').
Proof.
  intros [Hc Hd Hdn Hnd Hn Hs]. unfold stuck. rewrite Hd, Hdn, Hnd, !eq_None_not_Some, Hn, Hs. done.
Qed.

Lemma stuck_step i w : stuck (flow w) -> stuck (flow (snd (step i w))).
Proof.
  intros Hst. pose proof Hst as (Hdn & Hss & Hst'). destruct i as [fid d|fid ev|b]; cbn [step].
  - destruct (start_effect fid d w) as [->|(Hd & Hn & Hd' & Hc & Hdn' & Hnd & Hs)]; [done|].
    unfold stuck. rewrite Hdn', Hnd, Hs, Hd'. split; [done|]. split; [done|]. left.
    destruct Hst' as [?|[_ [? ?]]]; [done|congruence].
  - eapply same_progress_stuck; [apply event_effect|done].
  - destruct (block_effect b w) as [Hs|[(Hnd & Hnd' & t & Hu & Hc & _)|(_ & _ & _ & _ & t & Hu & Hs)]].
    + by eapply same_progress_stuck.
    + destruct Hst' as [?|[Hn _]]; [congruence|]. by rewrite Hn in Hc.
    + by rewrite Hss in Hs.
Qed.

Lemma new_subflow_progress fid log req par t g : progress (mkWorld (new_subflow fid log req par) t g []).
Proof. by apply at_start. Qed.

(** Data once set are kept, a closed nonces step stays closed. *)
Lemma step_monotone i w d :
  (lc_data (lifecycle (flow w)) = Some d -> lc_data (lifecycle (flow (snd (step i w)))) = Some d) /\
  (is_nonces_step_done (flow w) = true -> is_nonces_step_done (flow (snd (step i w))) = true).
Proof.
  destruct i as [fid d'|fid ev|b]; cbn [step].
  - destruct (start_effect fid d' w) as [->|(Hd & Hn & Hd' & Hc & Hdn' & Hnd & Hs)]; [done|].
    rewrite Hd, Hnd. done.
  - destruct (event_effect fid ev w) as [_ -> _ -> _ _]. done.
  - destruct (block_effect b w) as [[_ -> _ -> _ _]|[(Hnd & Hnd' & t & Hu & Hc & w1 & Hw1 & Hrun)|
      (_ & -> & -> & _)]]; [done| |done].
    destruct (send_signature_effect w1) as (_ & _ & Hd' & _); [by rewrite Hw1|].
    rewrite Hnd', Hrun, Hd', Hw1. done.
Qed.

(** A subflow that closed its nonces step without sending the signature makes
    no further call and is never done. *)
Lemma stranded_for_good inputs d w w' :
  progress w -> stuck (flow w) -> lc_data (lifecycle (flow w)) = Some d ->
  is_nonces_step_done (flow w) = true -> react_all inputs w = Some w' ->
  is_done (flow w') = false /\ calls w' = calls w.
Proof.
  intros Hp Hst Hd Hnd Hr.
  assert (HI : progress w' /\ stuck (flow w') /\ lc_data (lifecycle (flow w')) = Some d /\
    is_nonces_step_done (flow w') = true).
  { revert Hr. apply (react_all_invariant (fun w => progress w /\ stuck (flow w) /\
      lc_data (lifecycle (flow w)) = Some d /\ is_nonces_step_done (flow w) = true)); [|done].
    intros i w2 (Hp2 & Hst2 & Hd2 & Hnd2). destruct (step_monotone i w2 d).
    split_and!; auto using progress_step, stuck_step. }
  destruct HI as (Hp' & [Hdn _] & Hd' & Hnd'). split; [done|].
  destruct Hp, Hp'; congruence.
Qed.

End Runs.

(** ** Restart *)

(** A restored step has the snapshot it came from, and the steps already
    restored keep their counters. *)
Lemma wp_restore_step o t :
  cells_ok t ->
  wp (restore_step o) (fun oe t' =>
    ((fun e => state_snapshot e t') <$> oe) = o /\ cells_ok t' /\
    (forall e cell, oe = Some e -> confirmations e = Some cell -> is_Some (cells t' !! cell)) /\
    forall cell, is_Some (cells t !! cell) -> cells t' !! cell = cells t !! cell) t.
Proof.
  intros Hwf. unfold restore_step, from_state_snapshot. destruct o as [[id [k|] req]|]; cbn [state_start_block].
  - unfold start_confirming, alloc, remove_observer, add_observer. wp_steps. cbn.
    rewrite lookup_delete_eq. wp_steps. cbn. split_and!.
    + unfold state_snapshot, counter. cbn. by rewrite lookup_insert_eq.
    + intros cell c Hc. cbn in *. destruct (decide (cell = next_cell t)); [lia|].
      rewrite lookup_insert_ne in Hc by done. specialize (Hwf _ _ Hc). lia.
    + intros ? ? [= <-] [= <-]. rewrite lookup_insert_eq. eauto.
    + intros cell [c Hc]. specialize (Hwf _ _ Hc). by rewrite lookup_insert_ne by lia.
  - wp_steps. split_and!; try done. by intros ? ? [= <-].
  - wp_steps. by split_and!.
Qed.

Lemma wp_lifecycle_from_snapshot s req t :
  cells_ok t ->
  wp (lifecycle_from_snapshot s req) (fun l t' =>
    lifecycle_snapshot l t' = s /\ required_confirmations l = req) t.
Proof.
  intros Hwf. unfold lifecycle_from_snapshot. destruct s as [fid d ns ss]. cbn. wp_steps.
  eapply wp_mono; [by apply wp_restore_step|]. intros ne t1 (Hn & Hwf1 & Hcell & _). wp_steps.
  eapply wp_mono; [by apply wp_restore_step|]. intros se t2 (Hs & _ & _ & Hkeep). wp_steps.
  split; [|done]. unfold lifecycle_snapshot. cbn. rewrite Hs. f_equal. rewrite <- Hn.
  destruct ne as [ne|]; [|done]. cbn. f_equal. unfold state_snapshot. f_equal. unfold counter.
  destruct (confirmations ne) as [cell|] eqn:Hce; [|done]. cbn.
  by rewrite Hkeep by eauto.
Qed.

(** ** What the subflow guarantees *)

(** C14: The calls to the contracts.  Whatever the subflow is handed, from its
    creation on, it has sent nothing, or the nonce of its data once, or that
    nonce and then that signature, once each; a nonce is never followed by a
    second one, also when other data arrive or a call fails; and a subflow that
    is done has sent both. *)
Theorem nonce_and_signature_sent_once `{SignatureContracts G, EventPayloads}
    fid log req par t (g : G) inputs w' :
  react_all inputs (mkWorld (new_subflow fid log req par) t g []) = Some w' ->
  (calls w' = [] \/
   exists d, lc_data (lifecycle (flow w')) = Some d /\
     (calls w' = [AddMemberNonce (hash_to_sign d) (nonce d)] \/
      calls w' = [AddMemberNonce (hash_to_sign d) (nonce d);
                  AddMemberSignature (hash_to_sign d) (signature d)])) /\
  (is_done (flow w') = true -> length (calls w') = 2%nat).
Proof.
  intros Hr. eapply (react_all_invariant progress) in Hr; [|apply progress_step|apply new_subflow_progress].
  destruct Hr as [? Hc|d ? Hc|d ? Hc]; rewrite Hc; split; eauto; congruence.
Qed.

(** What a call and the end of the subflow rest on.  A step that calls the
    contracts with the signature is a block after which the view confirms the
    event that all nonces are ready; a step that ends the subflow is a block
    after which the view confirms the event that all signatures are ready. *)
Theorem signature_needs_confirmed_nonces `{SignatureContracts G, EventPayloads} (i : Input) (w : World G) :
  let w' := snd (step i w) in
  (forall h s, calls w' = calls w ++ [AddMemberSignature h s] ->
     exists b t, i = Block b /\ update b (view w) = (Ok tt, t) /\
       step_confirmed (nonce_step (lifecycle (flow w))) t = true /\
       (fun d => (hash_to_sign d, signature d)) <$> lc_data (lifecycle (flow w)) = Some (h, s)) /\
  (is_done (flow w) = false -> is_done (flow w') = true ->
     exists b t, i = Block b /\ update b (view w) = (Ok tt, t) /\
       step_confirmed (signature_step (lifecycle (flow w))) t = true).
Proof.
  assert (Hnil : forall (l : list ContractCall) c, l = l ++ [c] -> False).
  { intros l c Hl. apply (f_equal length) in Hl. rewrite length_app in Hl. cbn in Hl. lia. }
  destruct i as [fid d|fid ev|b]; cbn [step].
  - destruct (start_effect fid d w) as [->|(Hd & Hn & Hd' & Hc & Hdn & Hnd & Hs)].
    + split; [intros ? ? []%Hnil|congruence].
    + split; [|congruence]. intros h s. rewrite Hc. intros [=]%app_inj_tail%proj2.
  - destruct (event_effect fid ev w) as [-> _ -> _ _ _]. split; [intros ? ? []%Hnil|congruence].
  - destruct (block_effect b w) as [[-> _ -> _ _ _]|[(Hnd & Hnd' & t & Hu & Hc & w1 & Hw1 & Hrun)|
      (-> & _ & _ & _ & t & Hu & Hs)]].
    + split; [intros ? ? []%Hnil|congruence].
    + destruct (send_signature_effect w1) as (Hdn & _ & _ & Hm); [by rewrite Hw1|].
      rewrite <- Hrun, Hw1 in *. cbn [flow lifecycle is_done calls] in Hdn, Hm. split; [|congruence].
      intros h s Hcs. exists b, t. split_and!; try done.
      destruct (signature_step _), (lc_data _); destruct Hm as [Hm _]; rewrite Hm in Hcs;
        try by apply Hnil in Hcs. apply app_inj_tail in Hcs as [_ Hcs]. cbn. congruence.
    + split; [intros ? ? []%Hnil|]. eauto 10.
Qed.

(** A failed signature call is final.  When a block confirms the nonces and
    the call that sends the signature fails, the nonces step is closed all the
    same: whatever the subflow is handed afterwards, the signature is not sent
    again and the subflow never ends. *)
Theorem failed_signature_strands_subflow `{SignatureContracts G, EventPayloads}
    fid log req par t (g : G) before b e w w1 after w' :
  react_all before (mkWorld (new_subflow fid log req par) t g []) = Some w ->
  delegate_block b w = (Err (Anyhow e), w1) -> calls w1 <> calls w ->
  react_all after w1 = Some w' ->
  is_done (flow w') = false /\ calls w' = calls w1.
Proof.
  intros Hr Hb Hcalls. eapply (react_all_invariant progress) in Hr; [|apply progress_step|apply new_subflow_progress].
  assert (Hp1 : progress w1) by (apply (progress_step (Block b)) in Hr; cbn in Hr; by rewrite Hb in Hr).
  pose proof (block_effect b w) as Hef. rewrite Hb in Hef. cbn [snd] in Hef.
  destruct Hef as [[Hc _ _ _ _ _]|[(Hnd & Hnd' & t' & Hu & Hc & w2 & Hw2 & Hrun)|[Hc _]]]; [done| |done].
  destruct (send_signature_effect w2) as (Hdn & _ & Hd & Hm); [by rewrite Hw2|].
  rewrite <- Hrun, Hw2 in *. cbn [flow lifecycle is_done calls fst snd] in Hdn, Hd, Hm.
  destruct (signature_step _) eqn:Hs; [by destruct Hm|]. destruct (lc_data (lifecycle (flow w))) as [d|]; [|by destruct Hm].
  apply (stranded_for_good after d); try done.
  split_and!; [by destruct Hr; congruence| |by left].
  apply eq_None_not_Some. rewrite (proj2 Hm). done.
Qed.

(** A subflow survives a restart.  Restoring any stored snapshot succeeds
    in a view of its own, and the restored subflow has that snapshot: the data,
    both steps with the block they count from, and the flags. *)
Theorem subflow_survives_restart (sn : BtcSignatureSubFlowSnapshot) (req : Z) :
  exists s t, subflow_from_snapshot sn req = (Ok s, t) /\ subflow_snapshot s t = sn /\
    required_confirmations (lifecycle s) = req.
Proof.
  enough (Hwp : wp (l ← lifecycle_from_snapshot (sfs_lifecycle sn) req;
    mret (mkSubFlow l (sfs_is_done sn) (sfs_is_nonces_step_done sn) (sfs_parent_log_id sn) (sfs_parent sn)))
    (fun s t => subflow_snapshot s t = sn /\ required_confirmations (lifecycle s) = req) new_tracker).
  { destruct Hwp as (s & t & Hrun & ?). by exists s, t. }
  wp_steps. eapply wp_mono; [apply wp_lifecycle_from_snapshot; by intros ? ? ?|].
  intros l t [Hl Hreq]. wp_steps. split; [|done]. unfold subflow_snapshot. cbn. rewrite Hl. by destruct sn.
Qed.

(** ** A run

    Contracts that answer from a list, [true] for success. *)

Module Sample.

#[export] Instance contracts : SignatureContracts (list bool) := {|
  contract_call _ g :=
    match g with
    | true :: g => (Ok tt, g)
    | false :: g => (Err (Anyhow ["rejected"]), g)
    | [] => (Err (Anyhow ["rejected"]), [])
    end
|}.

#[local] Existing Instance Events.Sample.payloads.

Definition data : RegisterSignaturesBitVmxData := mkSignatureData [1; 2] [3] [4].

Definition fresh (g : list bool) : World (list bool) :=
  mkWorld (new_subflow "f" "pegin" 2 None) new_tracker g [].

Definition nonces_ready : RskPegManagerEvents :=
  AllNoncesReady (mkEventWithBlock [1; 2] 10 [5] false [6]).
Definition signatures_ready : RskPegManagerEvents :=
  AllSignaturesReady (mkEventWithBlock [1; 2] 12 [5] false [6]).

(** The run up to the block that confirms the nonces. *)
Definition until_nonces : list Input :=
  [Start "f" data; Event "f" nonces_ready; Block (BlockchainTracker.Sample.bu 1 10);
   Start "f" data].
Definition confirming_block : RskBlockAndUncles := BlockchainTracker.Sample.bu 1 11.

(** The rest. *)
Definition until_done : list Input :=
  [Event "f" signatures_ready; Block (BlockchainTracker.Sample.bu 1 12);
   Block (BlockchainTracker.Sample.bu 1 13)].

End Sample.

#[local] Existing Instance Sample.contracts.
#[local] Existing Instance Events.Sample.payloads.

Lemma nonce_and_signature_sent_once_witness :
  exists w', react_all (Sample.until_nonces ++ Block Sample.confirming_block :: Sample.until_done)
    (Sample.fresh [true; true]) = Some w' /\ is_done (flow w') = true /\ length (calls w') = 2%nat.
Proof.
  eexists. split; [vm_compute; reflexivity|]. split; [reflexivity|].
  refine (proj2 (nonce_and_signature_sent_once "f" "pegin" 2 None new_tracker [true; true]
    (Sample.until_nonces ++ Block Sample.confirming_block :: Sample.until_done) _ _) _);
    vm_compute; reflexivity.
Defined.

Lemma failed_signature_strands_subflow_witness :
  exists w w1 w', react_all Sample.until_nonces (Sample.fresh [true; false; true]) = Some w /\
    snd (delegate_block Sample.confirming_block w) = w1 /\
    react_all Sample.until_done w1 = Some w' /\
    is_done (flow w') = false /\ calls w' = calls w1.
Proof.
  do 3 eexists. split; [vm_compute; reflexivity|]. split; [vm_compute; reflexivity|].
  split; [vm_compute; reflexivity|].
  eapply (failed_signature_strands_subflow "f" "pegin" 2 None new_tracker [true; false; true]
    Sample.until_nonces Sample.confirming_block) with (after := Sample.until_done);
    [vm_compute; reflexivity|vm_compute; reflexivity|vm_compute; discriminate|vm_compute; reflexivity].
Defined.

Lemma signature_needs_confirmed_nonces_witness :
  exists w t, react_all Sample.until_nonces (Sample.fresh [true; true]) = Some w /\
    update Sample.confirming_block (view w) = (Ok tt, t) /\
    step_confirmed (nonce_step (lifecycle (flow w))) t = true.
Proof.
  destruct (react_all Sample.until_nonces (Sample.fresh [true; true])) as [w|] eqn:Hw;
    [|vm_compute in Hw; discriminate Hw].
  destruct (proj1 (signature_needs_confirmed_nonces (Block Sample.confirming_block) w) [1; 2] [4])
    as (b & t & [= <-] & Hu & Hc & _); [|exists w, t; split; [reflexivity|split; [exact Hu|exact Hc]]].
  vm_compute in Hw. injection Hw as <-. vm_compute. reflexivity.
Defined.
