(* ===== verification/Bitvmx.v ===== *)
(** * Identifiers and messages shared with BitVMX
    (crates/common/bitvmx/src/bitvmx_types.rs, crates/coordinator/src/flows/common/context.rs)

    The identifiers of BitVMX programs and of flows are the first sixteen bytes
    of a SHA-256 hash.  SHA-256 is a parameter; what is proved is that the bytes
    that are hashed determine the program, so that two programs share an
    identifier only if two different inputs share the first half of their hash. *)

From Stdlib Require Import Ascii.
From stdpp Require Import prelude strings.
From S2P Require Import Prelude Types.
Open Scope Z_scope.

Class Sha256 := { sha256 : bytes -> bytes }.

(** The bytes of an ASCII string, as [hasher.update(&str)] reads them. *)
Fixpoint str_bytes (s : string) : bytes :=
  match s with
  | EmptyString => []
  | String c s => Z.of_N (Ascii.N_of_ascii c) :: str_bytes s
  end.

(** ** Program identifiers

    A [Uuid] by its bytes; [usize] has 64 bits. *)

Section Identifiers.
Context `{Sha256}.

Definition finalize_protocol_id (hashed : bytes) : bytes := take 16 (sha256 hashed).

Definition derive_input (committee_id : bytes) (slot_index : Z) (salt : string) : bytes :=
  committee_id ++ be_bytes 8 slot_index ++ str_bytes salt.
Definition derive_protocol_id (committee_id : bytes) (slot_index : Z) (salt : string) : bytes :=
  finalize_protocol_id (derive_input committee_id slot_index salt).

Definition accept_pegin_protocol_id (committee_id : bytes) (slot_index : Z) : bytes :=
  derive_protocol_id committee_id slot_index "accept_pegin".
Definition user_take_protocol_id (committee_id : bytes) (slot_index : Z) : bytes :=
  derive_protocol_id committee_id slot_index "user_take".
Definition advance_funds_protocol_id (committee_id : bytes) (slot_index : Z) : bytes :=
  derive_protocol_id committee_id slot_index "advance_funds".

(** The public key by its serialisation. *)
Definition dispute_core_protocol_id (committee_id pubkey : bytes) : bytes :=
  finalize_protocol_id (committee_id ++ pubkey ++ str_bytes "dispute_core").

Definition dispute_channel_protocol_id (committee_id : bytes) (op_index wt_index : Z) : bytes :=
  finalize_protocol_id (committee_id ++ be_bytes 8 op_index ++ be_bytes 8 wt_index ++
    str_bytes "dispute_channel").

Definition pairwise_aggregated_key_protocol_id (committee_id : bytes) (idx_a idx_b : Z) : bytes :=
  let '(min_i, max_i) := if idx_a <=? idx_b then (idx_a, idx_b) else (idx_b, idx_a) in
  finalize_protocol_id (committee_id ++ be_bytes 8 min_i ++ be_bytes 8 max_i ++
    str_bytes "pairwise_aggregated_key").

Definition full_penalization_protocol_id (committee_id : bytes) : bytes :=
  finalize_protocol_id (committee_id ++ str_bytes "full_penalization").
Definition take_aggregated_key_protocol_id (committee_id : bytes) : bytes :=
  finalize_protocol_id (committee_id ++ str_bytes "take_aggregated_key").
Definition dispute_aggregated_key_protocol_id (committee_id : bytes) : bytes :=
  finalize_protocol_id (committee_id ++ str_bytes "dispute_aggregated_key").

(** [FlowId::from_tx] *)
Definition from_tx (salt : string) (tx_id_or_hash : bytes) : bytes :=
  take 16 (sha256 (tx_id_or_hash ++ str_bytes salt)).

End Identifiers.

(** ** Roles and communication data *)

Inductive ParticipantRole := Prover | Verifier.

#[export] Instance ParticipantRole_eq_dec : EqDecision ParticipantRole.
Proof. solve_decision. Defined.

Definition role_to_u8 (role : ParticipantRole) : Z :=
  match role with Prover => 1 | Verifier => 2 end.
Definition role_try_from {S} (role : Z) : SR S failure ParticipantRole :=
  if role =? 1 then mret Prover else if role =? 2 then mret Verifier else bail "Invalid member role".

(** [SocketAddr], as the standard library parses and prints it. *)
Class SocketAddrs := {
  SocketAddr : Type;
  parse_socket_addr : string -> option SocketAddr;
  socket_addr_to_string : SocketAddr -> string
}.

Record CommsAddress `{SocketAddrs} := mkCommsAddress {
  address : SocketAddr;
  pubkey_hash : string
}.

Section Communication.
Context `{SocketAddrs} {St : Type}.

Fixpoint comms_addresses (my_p2p_address : string) (l : list (string * string))
    : SR St failure (list CommsAddress) :=
  match l with
  | [] => mret []
  | (committee_address, committee_pubkey_hash) :: l =>
      let addr := if bool_decide (committee_address = "") then my_p2p_address else committee_address in
      match parse_socket_addr addr with
      | None => bail "Invalid address"
      | Some a =>
          rest ← comms_addresses my_p2p_address l;
          mret (mkCommsAddress _ a committee_pubkey_hash :: rest)
      end
  end.

Definition build_communication_data (my_p2p_address : string)
    (committee_addresses committee_pubkey_hashes : list string) : SR St failure (list CommsAddress) :=
  if negb (length committee_addresses =? length committee_pubkey_hashes)%nat
  then bail "Inconsistent committee size"
  else comms_addresses my_p2p_address (zip committee_addresses committee_pubkey_hashes).

End Communication.

(** ** The identifiers tell programs apart *)

Inductive Program :=
| AcceptPeginProgram (committee_id : bytes) (slot_index : Z)
| UserTakeProgram (committee_id : bytes) (slot_index : Z)
| AdvanceFundsProgram (committee_id : bytes) (slot_index : Z)
| DisputeCoreProgram (committee_id pubkey : bytes)
| DisputeChannelProgram (committee_id : bytes) (op_index wt_index : Z)
| PairwiseKeyProgram (committee_id : bytes) (idx_a idx_b : Z)
| FullPenalizationProgram (committee_id : bytes)
| TakeKeyProgram (committee_id : bytes)
| DisputeKeyProgram (committee_id : bytes).

Definition protocol_id `{Sha256} (p : Program) : bytes :=
  match p with
  | AcceptPeginProgram c i => accept_pegin_protocol_id c i
  | UserTakeProgram c i => user_take_protocol_id c i
  | AdvanceFundsProgram c i => advance_funds_protocol_id c i
  | DisputeCoreProgram c k => dispute_core_protocol_id c k
  | DisputeChannelProgram c i j => dispute_channel_protocol_id c i j
  | PairwiseKeyProgram c i j => pairwise_aggregated_key_protocol_id c i j
  | FullPenalizationProgram c => full_penalization_protocol_id c
  | TakeKeyProgram c => take_aggregated_key_protocol_id c
  | DisputeKeyProgram c => dispute_aggregated_key_protocol_id c
  end.

(** The salt, the committee and what stands between them. *)
Definition program_salt (p : Program) : string :=
  match p with
  | AcceptPeginProgram _ _ => "accept_pegin"
  | UserTakeProgram _ _ => "user_take"
  | AdvanceFundsProgram _ _ => "advance_funds"
  | DisputeCoreProgram _ _ => "dispute_core"
  | DisputeChannelProgram _ _ _ => "dispute_channel"
  | PairwiseKeyProgram _ _ _ => "pairwise_aggregated_key"
  | FullPenalizationProgram _ => "full_penalization"
  | TakeKeyProgram _ => "take_aggregated_key"
  | DisputeKeyProgram _ => "dispute_aggregated_key"
  end.

Definition program_committee (p : Program) : bytes :=
  match p with
  | AcceptPeginProgram c _ | UserTakeProgram c _ | AdvanceFundsProgram c _ | DisputeCoreProgram c _
  | DisputeChannelProgram c _ _ | PairwiseKeyProgram c _ _ | FullPenalizationProgram c
  | TakeKeyProgram c | DisputeKeyProgram c => c
  end.

Definition program_args (p : Program) : bytes :=
  match p with
  | AcceptPeginProgram _ i | UserTakeProgram _ i | AdvanceFundsProgram _ i => be_bytes 8 i
  | DisputeCoreProgram _ k => k
  | DisputeChannelProgram _ i j => be_bytes 8 i ++ be_bytes 8 j
  | PairwiseKeyProgram _ i j => be_bytes 8 (Z.min i j) ++ be_bytes 8 (Z.max i j)
  | FullPenalizationProgram _ | TakeKeyProgram _ | DisputeKeyProgram _ => []
  end.

Lemma protocol_id_hashed `{Sha256} p :
  protocol_id p = take 16 (sha256 (program_committee p ++ program_args p ++ str_bytes (program_salt p))).
Proof.
  destruct p; try done. cbn. unfold pairwise_aggregated_key_protocol_id.
  destruct (Z.leb_spec idx_a idx_b); [rewrite Z.min_l, Z.max_r by lia|rewrite Z.min_r, Z.max_l by lia]; done.
Qed.

Definition salts : list string :=
  ["accept_pegin"; "user_take"; "advance_funds"; "dispute_core"; "dispute_channel";
   "pairwise_aggregated_key"; "full_penalization"; "take_aggregated_key"; "dispute_aggregated_key";
   "pegin_flow"; "pegout_flow"; "operator_take_flow"].

(** No salt ends another one. *)
Lemma salts_suffix_free :
  Forall (fun s => Forall (fun s' => str_bytes s `suffix_of` str_bytes s' -> s = s') salts) salts.
Proof. by_decide. Qed.

Lemma salted_inj m m' s s' :
  s ∈ salts -> s' ∈ salts -> m ++ str_bytes s = m' ++ str_bytes s' -> s = s' /\ m = m'.
Proof.
  intros Hs Hs' Heq. assert (s = s') as <-.
  { pose proof salts_suffix_free as Hfree. rewrite Forall_forall in Hfree.
    pose proof (Hfree _ Hs) as Hs1. pose proof (Hfree _ Hs') as Hs2. rewrite Forall_forall in Hs1, Hs2.
    destruct (suffix_weak_total (str_bytes s) (str_bytes s') (m ++ str_bytes s)) as [Hsuf|Hsuf].
    - by exists m.
    - exists m'. by rewrite Heq.
    - by apply Hs1.
    - symmetry. by apply Hs2. }
  split; [done|]. by apply app_inv_tail in Heq.
Qed.

Definition program_ok (p : Program) : Prop :=
  length (program_committee p) = 16%nat /\
  match p with
  | AcceptPeginProgram _ i | UserTakeProgram _ i | AdvanceFundsProgram _ i => uint 64 i
  | DisputeChannelProgram _ i j | PairwiseKeyProgram _ i j => uint 64 i /\ uint 64 j
  | _ => True
  end.

(** The two sides of a pairwise key are one program. *)
Inductive same_program : Program -> Program -> Prop :=
| same_refl p : same_program p p
| same_swap c i j : same_program (PairwiseKeyProgram c i j) (PairwiseKeyProgram c j i).

Lemma program_salt_listed p : program_salt p ∈ salts.
Proof. destruct p; by_decide. Qed.

Lemma be_bytes_8_inj i j : uint 64 i -> uint 64 j -> be_bytes 8 i = be_bytes 8 j -> i = j.
Proof. unfold uint. intros Hi Hj. apply be_bytes_inj; cbn in *; lia. Qed.

Lemma be_bytes_8_pair_inj i j i' j' :
  uint 64 i -> uint 64 j -> uint 64 i' -> uint 64 j' ->
  be_bytes 8 i ++ be_bytes 8 j = be_bytes 8 i' ++ be_bytes 8 j' -> i = i' /\ j = j'.
Proof.
  intros Hi Hj Hi' Hj' Heq. apply app_inj_length in Heq as [H1 H2]; [|by rewrite !length_be_bytes].
  by split; apply be_bytes_8_inj.
Qed.

Lemma hashed_determines_program p q :
  program_ok p -> program_ok q ->
  program_committee p ++ program_args p ++ str_bytes (program_salt p) =
  program_committee q ++ program_args q ++ str_bytes (program_salt q) -> same_program p q.
Proof.
  intros [Hp Hp'] [Hq Hq'] Heq. apply app_inj_length in Heq as [Hc Heq]; [|by rewrite Hp, Hq].
  apply salted_inj in Heq as [Hs Ha]; [|apply program_salt_listed..].
  destruct p, q; cbn in *; try discriminate Hs; subst; try apply same_refl;
    try (apply be_bytes_8_inj in Ha; [subst; apply same_refl|done|done]).
  - destruct Hp', Hq'. apply be_bytes_8_pair_inj in Ha as [-> ->]; try done. apply same_refl.
  - destruct Hp', Hq'. apply be_bytes_8_pair_inj in Ha as [Hmin Hmax]; try (unfold uint in *; lia).
    destruct (decide (idx_a = idx_a0)) as [->|].
    + replace idx_b0 with idx_b by lia. apply same_refl.
    + replace idx_a0 with idx_b by lia. replace idx_b0 with idx_a by lia. apply same_swap.
Qed.

(** Program identifiers are unambiguous.  Two programs with the same
    identifier are the same program, with the members of a pairwise key in
    either order, unless two different inputs agree on the first sixteen bytes
    of their SHA-256 hash: neither the kinds of programs nor their arguments can
    be confused with one another in what is hashed. *)
Theorem protocol_ids_unambiguous `{Sha256} p q :
  program_ok p -> program_ok q -> protocol_id p = protocol_id q ->
  same_program p q \/
  exists m m', m <> m' /\ take 16 (sha256 m) = take 16 (sha256 m').
Proof.
  intros Hp Hq. rewrite !protocol_id_hashed. intros Heq.
  destruct (decide (program_committee p ++ program_args p ++ str_bytes (program_salt p) =
                    program_committee q ++ program_args q ++ str_bytes (program_salt q))) as [E|Hne].
  - left. by apply hashed_determines_program.
  - right. eauto.
Qed.

(** A hash that keeps the end of its input, where the programs of a committee
    differ. *)
Module Sample.

#[export] Instance tail_hash : Sha256 := {| sha256 m := reverse (take 32 (reverse m ++ replicate 32 0)) |}.
Definition committee : bytes := replicate 16 7.

End Sample.

Lemma protocol_ids_unambiguous_witness :
  let p := PairwiseKeyProgram Sample.committee 3 1 in
  let q := PairwiseKeyProgram Sample.committee 1 3 in
  @protocol_id Sample.tail_hash p = @protocol_id Sample.tail_hash q /\
  (same_program p q \/ exists m m', m <> m' /\
     take 16 (@sha256 Sample.tail_hash m) = take 16 (@sha256 Sample.tail_hash m')).
Proof.
  cbn zeta. split; [reflexivity|].
  apply (@protocol_ids_unambiguous Sample.tail_hash).
  - split; [reflexivity|]. split; by_decide.
  - split; [reflexivity|]. split; by_decide.
  - reflexivity.
Defined.
