(* ===== verification/NativeBridge.v ===== *)
(** * Asking the native bridge before calling a contract
    (crates/coordinator/src/flows/common/native_bridge_verifier.rs,
     crates/transaction-dispatcher/src/contracts/native_bridge.rs and
     .../contracts/interactions/get_btc_transaction_confirmations.rs)

    A contract call that takes an SPV proof is made only after the native bridge
    of Rootstock reports enough confirmations for the Bitcoin transaction.  The
    bridge answers with a signed number: a negative one becomes an error message,
    which travels through two layers as text and is parsed back to tell the codes
    that ask for a retry from the others.  The whole way is modelled, from the
    call data to the decision.  Characters of messages are those of the Latin-1
    range; the node and the printed form of a transport error are parameters. *)

From Stdlib Require Import Ascii.
From stdpp Require Import prelude strings pretty.
From S2P Require Import Prelude Types.
Open Scope Z_scope.

(** ** Text *)

Fixpoint string_all (p : ascii -> bool) (s : string) : bool :=
  match s with
  | EmptyString => true
  | String c s => p c && string_all p s
  end.

(** [strip_prefix] *)
Fixpoint strip_prefix (pat s : string) : option string :=
  match pat, s with
  | EmptyString, s => Some s
  | String c pat, String d s => if decide (c = d) then strip_prefix pat s else None
  | String _ _, EmptyString => None
  end.

(** [str::split_once], for a pattern that is not empty *)
Fixpoint split_once (pat s : string) : option (string * string) :=
  match strip_prefix pat s with
  | Some rest => Some ("", rest)
  | None =>
      match s with
      | EmptyString => None
      | String c s => (fun '(before, after) => (String c before, after)) <$> split_once pat s
      end
  end.

Definition is_whitespace (c : ascii) : bool :=
  let n := N_of_ascii c in
  ((9 <=? n) && (n <=? 13) || (n =? 32) || (n =? 133) || (n =? 160))%N.
Arguments is_whitespace : simpl never.

Fixpoint take_word (s : string) : string :=
  match s with
  | EmptyString => ""
  | String c s => if is_whitespace c then "" else String c (take_word s)
  end.

(** [split_whitespace().next()] *)
Fixpoint first_word (s : string) : option string :=
  match s with
  | EmptyString => None
  | String c s' => if is_whitespace c then first_word s' else Some (take_word s)
  end.

Definition digit_value (c : ascii) : option Z :=
  let n := Z.of_N (N_of_ascii c) in
  if (48 <=? n) && (n <=? 57) then Some (n - 48) else None.

Fixpoint parse_digits (acc : Z) (s : string) : option Z :=
  match s with
  | EmptyString => Some acc
  | String c s => d ← digit_value c; parse_digits (acc * 10 + d) s
  end.

(** [str::parse::<i32>().ok()].  The accumulator of the standard library leaves
    the range of [i32] exactly when the number does. *)
Definition parse_i32 (s : string) : option Z :=
  let in_range z := if (- 2 ^ 31 <=? z) && (z <? 2 ^ 31) then Some z else None in
  match s with
  | EmptyString => None
  | String c rest =>
      if decide (c = "-"%char) then
        if decide (rest = "") then None else z ← parse_digits 0 rest; in_range (- z)
      else if decide (c = "+"%char) then
        if decide (rest = "") then None else parse_digits 0 rest ≫= in_range
      else parse_digits 0 s ≫= in_range
  end.

(** ** Errors of the contracts gateway (rsk_gateway.rs) *)

Inductive DomainErrors :=
| PeginAlreadyRequested (msg : string)
| PeginAlreadyAccepted (msg : string)
| InvalidAddress (msg : string)
| InvalidBtcTxSpvProof (msg : string)
| InvalidCompressedPubKey (msg : string)
| InvalidPublicKey (msg : string)
| InvalidValue (msg : string)
| NotOwner (msg : string)
| PegoutRequestAmountExceedsUint64Limit (msg : string)
| StreamNotFoundByDenomination (msg : string)
| PacketOutOfBound (msg : string)
| InvalidRole (msg : string)
| CommitteeError (msg : string)
| MemberAlreadyDepositedCommunicationData (msg : string)
| MemberAlreadyRegisteredForStream (msg : string)
| MemberInfoAlreadyDeposited (msg : string)
| MemberRegistryError (msg : string)
| SignaturesError (msg : string)
| MissingConfirmationsOnNativeBridge (msg : string)
| InvalidSlotState (expected actual : Z)
| PeginNotRequested (msg : string)
| ChallengeTxidNotMatch (msg : string)
| InvalidChallengeInputCount (msg : string)
| InvalidRevealedInputCount (msg : string)
| ReimbursementKickoffTxidNotMatch (msg : string)
| InvalidPegStatus (actual : Z)
| PegStatusAlreadyCompleted
| MemberNotInCommittee (msg : string)
| AcceptPeginTxidNotFound (msg : string)
| TxidToSignNotFound (msg : string)
| UnhandledContractError (msg : string)
| NoRevertError (msg : string)
| UnknownContractError (msg : string)
| InternalServerError (msg : string).

(** ** SPV proofs *)

(** The [bitcoin], [primitive-types] and [alloy] crates. *)
Class Bitcoin := {
  Transaction : Type;
  compute_txid : Transaction -> bytes;
  (** the values of the outputs, in satoshis *)
  output_values : Transaction -> list Z;
  (** [str::parse::<H256>], [parse::<FixedBytes<32>>], [parse::<U256>] *)
  parse_h256 : string -> option bytes;
  parse_fixed_bytes : string -> option bytes;
  parse_u256 : string -> option Z;
  (** the printed form of [TransportError::local_usage_str] *)
  display_local_usage : string -> string
}.

(** Printing puts a text before the message that has no capital N in it, such as
    "local usage error: "; thirty-two bytes are parsed from their hexadecimal form. *)
Class BitcoinLaws `{Bitcoin} := {
  display_prefix : exists pre, string_all (fun c => negb (bool_decide (c = "N"%char))) pre = true /\
    forall msg, display_local_usage msg = pre +:+ msg;
  parse_fixed_bytes_hex h : length h = 32%nat -> bytes_ok h -> parse_fixed_bytes (hex_encode h) = Some h
}.

Record BtcTxSPVProof `{Bitcoin} := mkProof {
  block_hash : string;
  tx : Transaction;
  merkle_branch_path : string;
  merkle_branch_hashes : list bytes
}.

(** ** The call of the bridge contract *)

(** The node: a call of a contract with its data, the error by its printed form. *)
Class BridgeNode (G : Type) := { provider_call : bytes -> SR G string bytes }.

Definition GET_BTC_TX_CONFIRMATIONS_SELECTOR : bytes := [91; 100; 69; 135].

Definition encode_call (tx_hash block_hash : bytes) (path : Z) (hashes : list bytes) : bytes :=
  GET_BTC_TX_CONFIRMATIONS_SELECTOR ++ tx_hash ++ block_hash ++ be_bytes 32 path ++
  be_bytes 32 128 ++ be_bytes 32 (Z.of_nat (length hashes)) ++ concat hashes.

Definition i256_from_be_bytes (l : bytes) : Z :=
  let u := from_be l in if u <? 2 ^ 255 then u else u - 2 ^ 256.

(** [i32::try_from(..).unwrap_or(i32::MIN)] *)
Definition i32_or_min (z : Z) : Z :=
  if (- 2 ^ 31 <=? z) && (z <? 2 ^ 31) then z else - 2 ^ 31.

Definition error_code_message (code : Z) : string :=
  "Native Bridge returned error code: " +:+ pretty code +:+ " (see RSKIP122 for error meanings)".

Section Bridge.
Context `{BridgeNode G, Bitcoin}.

Definition local_usage {A} (msg : string) : SR G string A := sfail (display_local_usage msg).

Fixpoint parse_hashes (l : list string) : SR G string (list bytes) :=
  match l with
  | [] => mret []
  | s :: l =>
      match parse_fixed_bytes s with
      | None => local_usage "Invalid merkle branch hash"
      | Some h => hs ← parse_hashes l; mret (h :: hs)
      end
  end.

Definition decode_confirmations (result_bytes : bytes) : SR G string Z :=
  if (length result_bytes <? 32)%nat then local_usage "Invalid response length from Native Bridge" else
  let confirmations_i256 := i256_from_be_bytes (take 32 result_bytes) in
  if confirmations_i256 <? 0 then local_usage (error_code_message (i32_or_min confirmations_i256))
  else if confirmations_i256 <? 2 ^ 32 then mret confirmations_i256
  else local_usage "Confirmations value exceeds u32 maximum".

Definition call_get_btc_transaction_confirmations (tx_hash block_hash : bytes) (merkle_branch_path : string)
    (merkle_branch_hashes : list string) : SR G string Z :=
  hashes ← parse_hashes merkle_branch_hashes;
  match parse_u256 merkle_branch_path with
  | None => local_usage "Invalid merkle branch path"
  | Some path =>
      result_bytes ← provider_call (encode_call tx_hash block_hash path hashes);
      decode_confirmations result_bytes
  end.

(** [GetBtcTransactionConfirmationsCall::run] *)
Definition get_btc_confirmations (tx_hash block_hash : bytes) (merkle_branch_path : string)
    (merkle_branch_hashes : list string) : SR G DomainErrors Z :=
  fun g =>
    match call_get_btc_transaction_confirmations tx_hash block_hash merkle_branch_path merkle_branch_hashes g with
    | (Ok c, g) => (Ok c, g)
    | (Err e, g) => (Err (UnhandledContractError ("Failed to get bitcoin confirmations: " +:+ e)), g)
    end.

(** ** The verifier *)

Inductive VerificationStatus :=
| Verified
| InsufficientConfirmations (required actual : Z).

Inductive NativeBridgeVerifier :=
| Real (required_confirmations : Z)
| Dummy.

Definition required_confirmations (v : NativeBridgeVerifier) : Z :=
  match v with Real r => r | Dummy => 0 end.

Definition NATIVE_BRIDGE_ERROR_MARKER : string := "Native Bridge returned error code:".

Definition parse_native_bridge_error_code (err : DomainErrors) : option Z :=
  match err with
  | UnhandledContractError message =>
      '(_, rest) ← split_once NATIVE_BRIDGE_ERROR_MARKER message;
      code_str ← first_word rest;
      parse_i32 code_str
  | _ => None
  end.

Definition native_bridge_error_reason (code : Z) : option string :=
  if code =? -1 then Some "block hash not found in bridge view"
  else if code =? -2 then Some "block is not in best chain"
  else if code =? -3 then Some "internal inconsistency prevented block lookup"
  else if code =? -4 then Some "block too old to be processed"
  else if code =? -5 then Some "merkle branch does not prove inclusion"
  else None.

Definition verify_btc_confirmations (spv_proof : BtcTxSPVProof) (required : Z)
    : SR G DomainErrors VerificationStatus :=
  match parse_h256 (block_hash spv_proof) with
  | None => sfail (InvalidBtcTxSpvProof "Invalid block hash")
  | Some bh => fun g =>
      match get_btc_confirmations (txid_to_fb_32 (compute_txid (tx spv_proof))) bh
              (merkle_branch_path spv_proof) (hex_encode <$> merkle_branch_hashes spv_proof) g with
      | (Ok confirmations, g) =>
          (Ok (if required <=? confirmations then Verified
               else InsufficientConfirmations required confirmations), g)
      | (Err e, g) =>
          match parse_native_bridge_error_code e ≫= native_bridge_error_reason with
          | Some _ => (Ok (InsufficientConfirmations required 0), g)
          | None => (Err e, g)
          end
      end
  end.

Definition verify_confirmations (v : NativeBridgeVerifier) (spv_proof : BtcTxSPVProof) (required : Z)
    : SR G DomainErrors VerificationStatus :=
  match v with
  | Real _ => verify_btc_confirmations spv_proof required
  | Dummy => mret Verified
  end.

Definition invoke_contract_safe {T} (spv_proof : BtcTxSPVProof) (v : NativeBridgeVerifier)
    (invoke : SR G DomainErrors T) : SR G DomainErrors T :=
  res ← verify_confirmations v spv_proof (required_confirmations v);
  match res with
  | Verified => invoke
  | InsufficientConfirmations required actual =>
      sfail (MissingConfirmationsOnNativeBridge
        (pretty actual +:+ "/" +:+ pretty required +:+ " confirmations"))
  end.

End Bridge.

(** ** Printing and parsing numbers *)

Lemma digit_char_value n : 0 <= n <= 9 -> digit_value (pretty_N_char (Z.to_N n)) = Some n.
Proof. revert n. apply by_range. by_decide. Qed.

Lemma digit_char_no_space n : 0 <= n <= 9 -> is_whitespace (pretty_N_char (Z.to_N n)) = false.
Proof. revert n. apply by_range. by_decide. Qed.

Lemma pretty_char_mod (x : N) :
  digit_value (pretty_N_char (x `mod` 10)%N) = Some (Z.of_N (x `mod` 10)%N) /\
  is_whitespace (pretty_N_char (x `mod` 10)%N) = false.
Proof.
  pose proof (N.mod_lt x 10 ltac:(lia)) as Hm. set (m := (x `mod` 10)%N) in *. clearbody m.
  rewrite <- (N2Z.id m) at 1 3. split; [apply digit_char_value|apply digit_char_no_space]; lia.
Qed.

Lemma parse_digits_pretty_go (x : N) s :
  parse_digits 0 (pretty_N_go x s) = parse_digits (Z.of_N x) s.
Proof.
  revert s. induction (N.lt_wf_0 x) as [x _ IH]. intros s.
  destruct (decide (0 < x)%N) as [Hx|Hx].
  - rewrite pretty_N_go_step, IH by (done || apply N.div_lt; lia). cbn [parse_digits].
    rewrite (proj1 (pretty_char_mod x)). cbn [mbind option_bind]. f_equal.
    pose proof (N.div_mod x 10 ltac:(lia)). lia.
  - replace x with 0%N by lia. by rewrite pretty_N_go_0.
Qed.

Lemma pretty_go_no_space (x : N) s :
  string_all (negb ∘ is_whitespace) s = true -> string_all (negb ∘ is_whitespace) (pretty_N_go x s) = true.
Proof.
  revert s. induction (N.lt_wf_0 x) as [x _ IH]. intros s Hs.
  destruct (decide (0 < x)%N) as [Hx|Hx].
  - rewrite pretty_N_go_step by done. apply IH; [apply N.div_lt; lia|]. cbn [string_all compose].
    by rewrite (proj2 (pretty_char_mod x)), Hs.
  - replace x with 0%N by lia. by rewrite pretty_N_go_0.
Qed.

(** The printed form of a positive number: digits, not empty, no sign. *)
Lemma pretty_pos_digits p :
  parse_digits 0 (pretty (Npos p)) = Some (Zpos p) /\
  string_all (negb ∘ is_whitespace) (pretty (Npos p)) = true /\ pretty (Npos p) <> "".
Proof.
  change (pretty (Npos p)) with (pretty_N_go (Npos p) "").
  split; [by rewrite parse_digits_pretty_go|]. split; [by apply pretty_go_no_space|].
  intros Heq. pose proof (parse_digits_pretty_go (Npos p) "") as Hp. rewrite Heq in Hp. by cbn in Hp.
Qed.

Lemma pretty_neg_parses p :
  - 2 ^ 31 <= Zneg p ->
  parse_i32 (pretty (Zneg p)) = Some (Zneg p) /\
  string_all (negb ∘ is_whitespace) (pretty (Zneg p)) = true.
Proof.
  intros Hp. destruct (pretty_pos_digits p) as (Hd & Hs & Hne).
  change (pretty (Zneg p)) with (String "-" (pretty (Npos p))).
  generalize dependent (pretty (Npos p)). intros s Hd Hs Hne. split; [|done].
  unfold parse_i32. rewrite decide_True, decide_False, Hd by done. cbn [mbind option_bind].
  change (- Z.pos p) with (Zneg p).
  by rewrite (proj2 (Z.leb_le _ _) Hp), (proj2 (Z.ltb_lt (Zneg p) (2 ^ 31))) by lia.
Qed.

(** ** Finding the code in a message *)

Lemma string_app_cons c s t : String c s +:+ t = String c (s +:+ t).
Proof. done. Qed.

Lemma string_app_assoc (s t u : string) : (s +:+ t) +:+ u = s +:+ t +:+ u.
Proof. induction s as [|c s IH]; [done|]. by rewrite !string_app_cons, IH. Qed.

Lemma strip_prefix_cons c pat d s :
  strip_prefix (String c pat) (String d s) = if decide (c = d) then strip_prefix pat s else None.
Proof. done. Qed.

Lemma strip_prefix_app pat s : strip_prefix pat (pat +:+ s) = Some s.
Proof.
  induction pat as [|c pat IH]; [by destruct s|].
  by rewrite string_app_cons, strip_prefix_cons, decide_True.
Qed.

Lemma split_once_cons pat c s :
  split_once pat (String c s) =
  match strip_prefix pat (String c s) with
  | Some rest => Some ("", rest)
  | None => (fun '(before, after) => (String c before, after)) <$> split_once pat s
  end.
Proof. by destruct pat. Qed.

Lemma split_once_first c pat pre rest :
  string_all (fun d => negb (bool_decide (d = c))) pre = true ->
  split_once (String c pat) (pre +:+ String c pat +:+ rest) = Some (pre, rest).
Proof.
  induction pre as [|d pre IH]; cbn [string_all].
  - intros _. change ("" +:+ String c pat +:+ rest) with (String c (pat +:+ rest)).
    by rewrite split_once_cons, strip_prefix_cons, decide_True, strip_prefix_app.
  - intros [Hd Hpre]%andb_true_iff. apply negb_true_iff, bool_decide_eq_false_1 in Hd.
    rewrite string_app_cons, split_once_cons, strip_prefix_cons, decide_False by congruence. by rewrite IH.
Qed.

Lemma string_all_app p s s' : string_all p (s +:+ s') = string_all p s && string_all p s'.
Proof. induction s as [|c s IH]; [done|]. rewrite string_app_cons. cbn. by rewrite IH, andb_assoc. Qed.

Lemma split_once_none c pat s :
  string_all (fun d => negb (bool_decide (d = c))) s = true -> split_once (String c pat) s = None.
Proof.
  induction s as [|d s IH]; [done|]. cbn [string_all]. intros [Hd Hs]%andb_true_iff.
  apply negb_true_iff, bool_decide_eq_false_1 in Hd.
  rewrite split_once_cons, strip_prefix_cons, decide_False by congruence. by rewrite IH.
Qed.

Lemma take_word_app w rest :
  string_all (negb ∘ is_whitespace) w = true -> take_word (w +:+ String " " rest) = w.
Proof.
  induction w as [|c w IH]; [done|]. rewrite string_app_cons. cbn. intros [Hc Hw]%andb_true_iff.
  apply negb_true_iff in Hc. by rewrite Hc, IH.
Qed.

Lemma first_word_app w rest :
  w <> "" -> string_all (negb ∘ is_whitespace) w = true ->
  first_word (String " " (w +:+ String " " rest)) = Some w.
Proof.
  destruct w as [|c w]; [done|]. intros _ Hw. pose proof (take_word_app (String c w) rest Hw) as Ht.
  rewrite string_app_cons in *. cbn in Hw. apply andb_true_iff in Hw as [Hc _]. apply negb_true_iff in Hc.
  cbn [first_word]. rewrite Hc, Ht. done.
Qed.

Section Answers.
Context `{BridgeNode G, Bitcoin, !BitcoinLaws}.

(** A code printed by the gateway is the code the verifier reads. *)
Lemma error_code_read code :
  - 2 ^ 31 <= code < 0 ->
  parse_native_bridge_error_code (UnhandledContractError
    ("Failed to get bitcoin confirmations: " +:+ display_local_usage (error_code_message code))) = Some code.
Proof.
  intros Hc. destruct display_prefix as (pre & Hpre & ->).
  destruct code as [|p|p]; [lia|lia|]. destruct (pretty_neg_parses p) as [Hp Hs]; [lia|].
  unfold parse_native_bridge_error_code, error_code_message.
  set (code := pretty (Zneg p)) in *.
  replace ("Failed to get bitcoin confirmations: " +:+ _) with
    (("Failed to get bitcoin confirmations: " +:+ pre) +:+ NATIVE_BRIDGE_ERROR_MARKER +:+
     String " " (code +:+ String " " "(see RSKIP122 for error meanings)"))
    by by rewrite string_app_assoc.
  unfold NATIVE_BRIDGE_ERROR_MARKER.
  rewrite split_once_first by by rewrite string_all_app, Hpre.
  cbn [mbind option_bind]. rewrite first_word_app; [done| |done]. intros Hcode.
  by rewrite Hcode in Hp.
Qed.

(** A message without a capital N carries no code. *)
Lemma no_code msg :
  string_all (fun c => negb (bool_decide (c = "N"%char))) msg = true ->
  parse_native_bridge_error_code (UnhandledContractError
    ("Failed to get bitcoin confirmations: " +:+ display_local_usage msg)) = None.
Proof.
  intros Hmsg. destruct display_prefix as (pre & Hpre & ->).
  unfold parse_native_bridge_error_code, NATIVE_BRIDGE_ERROR_MARKER.
  by rewrite split_once_none by by rewrite !string_all_app, Hpre, Hmsg.
Qed.

Lemma reason_of_code code : is_Some (native_bridge_error_reason code) <-> -5 <= code <= -1.
Proof.
  unfold native_bridge_error_reason. repeat (case_match; reflect_bool; [split; [lia|eauto]|]).
  split; [by intros []|lia].
Qed.

Lemma i32_or_min_neg z :
  z < 0 -> - 2 ^ 31 <= i32_or_min z < 0 /\ (-5 <= i32_or_min z <-> -5 <= z).
Proof.
  intros Hz. unfold i32_or_min.
  destruct (Z.leb_spec (- 2 ^ 31) z), (Z.ltb_spec z (2 ^ 31)); cbn [andb]; lia.
Qed.

(** The value of an answer of the bridge. *)
Definition answer (data : bytes) : Z := i256_from_be_bytes (take 32 data).

(** The hashes of a proof are [[u8; 32]]s. *)
Definition proof_ok (p : BtcTxSPVProof) : Prop :=
  Forall (fun h => length h = 32%nat /\ bytes_ok h) (merkle_branch_hashes p).

Lemma parse_hashes_hex hs (g : G) :
  Forall (fun h => length h = 32%nat /\ bytes_ok h) hs -> parse_hashes (hex_encode <$> hs) g = (Ok hs, g).
Proof.
  induction 1 as [|h hs [Hlen Hok] _ IH]; [done|]. rewrite fmap_cons. cbn [parse_hashes].
  by rewrite parse_fixed_bytes_hex, (SR_bind_run _ _ _ _ _ IH).
Qed.

(** What the verifier makes of the outcome of the call. *)
Lemma verify_run p r bh path g data g' :
  proof_ok p -> parse_h256 (block_hash p) = Some bh -> parse_u256 (merkle_branch_path p) = Some path ->
  provider_call (encode_call (txid_to_fb_32 (compute_txid (tx p))) bh path (merkle_branch_hashes p)) g
    = (Ok data, g') ->
  (32 <= length data)%nat ->
  if 0 <=? answer data then
    if answer data <? 2 ^ 32 then
      verify_btc_confirmations p r g =
        (Ok (if r <=? answer data then Verified else InsufficientConfirmations r (answer data)), g')
    else exists msg, verify_btc_confirmations p r g = (Err (UnhandledContractError msg), g')
  else if -5 <=? answer data then
    verify_btc_confirmations p r g = (Ok (InsufficientConfirmations r 0), g')
  else exists msg, verify_btc_confirmations p r g = (Err (UnhandledContractError msg), g').
Proof.
  intros Hok Hbh Hpath Hcall Hlen. unfold verify_btc_confirmations. rewrite Hbh.
  unfold get_btc_confirmations, call_get_btc_transaction_confirmations.
  rewrite (SR_bind_run _ _ _ _ _ (parse_hashes_hex _ _ Hok)), Hpath, (SR_bind_run _ _ _ _ _ Hcall).
  unfold decode_confirmations. rewrite (proj2 (Nat.ltb_ge _ _) Hlen). fold (answer data).
  destruct (Z.leb_spec 0 (answer data)); [rewrite (proj2 (Z.ltb_ge (answer data) 0)) by lia|
    rewrite (proj2 (Z.ltb_lt (answer data) 0)) by lia].
  - destruct (Z.ltb_spec (answer data) (2 ^ 32)); [done|]. cbn [local_usage sfail].
    rewrite no_code by done. eauto.
  - destruct (i32_or_min_neg (answer data)) as [Hrange Hcode]; [lia|].
    cbn [local_usage sfail]. rewrite error_code_read by done. cbn [mbind option_bind].
    pose proof (reason_of_code (i32_or_min (answer data))) as Hreason.
    destruct (native_bridge_error_reason _) as [s|].
    + rewrite (proj2 (Z.leb_le _ _)); [done|]. apply Hcode. apply Hreason. eauto.
    + destruct (Z.leb_spec (-5) (answer data)); [|eauto].
      destruct (proj2 Hreason) as [? [=]]. lia.
Qed.

Lemma parse_hashes_pure l (g : G) : snd (parse_hashes l g) = g.
Proof.
  induction l as [|s l IH]; [done|]. cbn [parse_hashes]. destruct (parse_fixed_bytes s); [|done].
  destruct (parse_hashes l g) as [[hs|e] g1] eqn:E; cbn in IH; subst;
    [by rewrite (SR_bind_run _ _ _ _ _ E)|by rewrite (SR_bind_err _ _ _ _ _ E)].
Qed.

(** A query that succeeds was answered by the node. *)
Lemma confirmations_answered tx_hash bh path hashes g c g' :
  get_btc_confirmations tx_hash bh path hashes g = (Ok c, g') ->
  exists call_data data, provider_call call_data g = (Ok data, g') /\
    (32 <= length data)%nat /\ answer data = c /\ 0 <= c.
Proof.
  unfold get_btc_confirmations, call_get_btc_transaction_confirmations. intros Hrun.
  pose proof (parse_hashes_pure hashes g) as Hpure.
  destruct (parse_hashes hashes g) as [[hs|e] g1] eqn:Hh; cbn in Hpure; subst g1;
    [rewrite (SR_bind_run _ _ _ _ _ Hh) in Hrun|rewrite (SR_bind_err _ _ _ _ _ Hh) in Hrun; done].
  destruct (parse_u256 path) as [z|]; [|done].
  destruct (provider_call (encode_call tx_hash bh z hs) g) as [[data|e] g2] eqn:Hc;
    [rewrite (SR_bind_run _ _ _ _ _ Hc) in Hrun|rewrite (SR_bind_err _ _ _ _ _ Hc) in Hrun; done].
  unfold decode_confirmations in Hrun. fold (answer data) in Hrun.
  destruct (Nat.ltb_spec (length data) 32); [done|].
  destruct (Z.ltb_spec (answer data) 0); [done|].
  destruct (Z.ltb_spec (answer data) (2 ^ 32)); [|done].
  cbn in Hrun. simplify_eq. eauto 10.
Qed.

End Answers.

(** ** The call data, read by the rules of the ABI *)

Definition abi_word (data : bytes) (offset : nat) : bytes := take 32 (drop offset data).

Definition decode_call (data : bytes) : bytes * bytes * Z * list bytes :=
  let args := drop 4 data in
  let array := Z.to_nat (from_be (abi_word args 96)) in
  let n := Z.to_nat (from_be (abi_word args array)) in
  (abi_word args 0, abi_word args 32, from_be (abi_word args 64),
   (fun i => abi_word args (array + 32 + 32 * i)) <$> seq 0 n).

Lemma abi_word_at pre w rest n :
  length pre = n -> length w = 32%nat -> abi_word (pre ++ w ++ rest) n = w.
Proof. intros <- Hw. unfold abi_word. rewrite drop_app_length. by apply take_app_length'. Qed.

Lemma abi_word_after pre rest n i :
  length pre = n -> abi_word (pre ++ rest) (n + i) = abi_word rest i.
Proof. intros <-. unfold abi_word. by rewrite drop_app_add. Qed.

Lemma abi_words hs :
  Forall (fun h => length h = 32%nat) hs ->
  (fun i => abi_word (concat hs) (32 * i)) <$> seq 0 (length hs) = hs.
Proof.
  induction 1 as [|h hs Hh _ IH]; [done|]. cbn [length seq]. rewrite fmap_cons. cbn [concat]. f_equal.
  - unfold abi_word. rewrite Nat.mul_0_r, drop_0. by apply take_app_length'.
  - rewrite <- IH at 2. rewrite <- fmap_S_seq, <- list_fmap_compose. apply list_fmap_ext. intros _ i _.
    unfold abi_word. cbn [compose]. f_equal.
    replace (32 * S i)%nat with (length h + 32 * i)%nat by lia. by rewrite drop_app_add.
Qed.

(** The call data of the bridge query is the ABI encoding of its arguments:
    reading them back by the rules of the ABI, with the array at the offset the
    head gives, returns the transaction, the block, the path and all hashes. *)
Theorem bridge_call_data_decodes tx_hash block_hash path hashes :
  length tx_hash = 32%nat -> length block_hash = 32%nat -> uint 256 path ->
  Forall (fun h => length h = 32%nat) hashes -> Z.of_nat (length hashes) < 2 ^ 64 ->
  decode_call (encode_call tx_hash block_hash path hashes) = (tx_hash, block_hash, path, hashes).
Proof.
  intros Htx Hbh Hpath Hhs Hn. unfold decode_call, encode_call.
  change (drop 4 (GET_BTC_TX_CONFIRMATIONS_SELECTOR ++ ?l)) with l.
  set (P := be_bytes 32 path). set (O := be_bytes 32 128). set (N := be_bytes 32 (Z.of_nat (length hashes))).
  assert (HP : length P = 32%nat) by apply length_be_bytes.
  assert (HO : length O = 32%nat) by apply length_be_bytes.
  assert (HN : length N = 32%nat) by apply length_be_bytes.
  set (args := tx_hash ++ _).
  assert (H0 : abi_word args 0 = tx_hash) by (by apply (abi_word_at [])).
  assert (H1 : abi_word args 32 = block_hash) by (by apply abi_word_at).
  assert (H2 : abi_word args 64 = P).
  { unfold args. rewrite (assoc_L (++) tx_hash). apply abi_word_at; [|done]. rewrite length_app. lia. }
  assert (H3 : abi_word args 96 = O).
  { unfold args. rewrite (assoc_L (++) block_hash), (assoc_L (++) tx_hash). apply abi_word_at; [|done].
    rewrite !length_app. lia. }
  assert (H4 : args = (tx_hash ++ block_hash ++ P ++ O) ++ N ++ concat hashes).
  { unfold args. by rewrite <- !(assoc_L (++)). }
  assert (H5 : from_be (abi_word args 128) = Z.of_nat (length hashes)).
  { rewrite H4, abi_word_at; [|rewrite !length_app; lia|done]. unfold N. rewrite from_be_be_bytes.
    apply Z.mod_small. lia. }
  rewrite H0, H1, H2, H3. unfold O, P. rewrite !from_be_be_bytes.
  rewrite (Z.mod_small 128) by lia. rewrite (Z.mod_small path) by (unfold uint in Hpath; lia).
  change (Z.to_nat 128) with 128%nat. rewrite H5, Nat2Z.id. f_equal.
  rewrite <- (abi_words hashes) at 2 by done. apply list_fmap_ext. intros _ i _.
  rewrite H4, (assoc_L (++) _ N). apply abi_word_after. rewrite !length_app. lia.
Qed.

(** C36: The bridge's answer decides.  For an answer of thirty-two bytes or more,
    read as a signed number: from the required number of confirmations up to the
    largest [u32] the contract is invoked; with fewer confirmations, or one of
    the codes -1 to -5, the call is put off with
    [MissingConfirmationsOnNativeBridge], although the code arrives as a word of
    a message; every other answer is an error of another kind. *)
Theorem bridge_answer_decides `{BridgeNode G, Bitcoin, !BitcoinLaws} {T} p r bh path g data g'
    (invoke : SR G DomainErrors T) :
  proof_ok p -> parse_h256 (block_hash p) = Some bh -> parse_u256 (merkle_branch_path p) = Some path ->
  provider_call (encode_call (txid_to_fb_32 (compute_txid (tx p))) bh path (merkle_branch_hashes p)) g
    = (Ok data, g') ->
  (32 <= length data)%nat ->
  let c := answer data in
  let run := invoke_contract_safe p (Real r) invoke g in
  (0 <= c < 2 ^ 32 -> r <= c -> run = invoke g') /\
  (0 <= c < 2 ^ 32 -> c < r -> exists msg, run = (Err (MissingConfirmationsOnNativeBridge msg), g')) /\
  (-5 <= c <= -1 -> exists msg, run = (Err (MissingConfirmationsOnNativeBridge msg), g')) /\
  (c < -5 \/ 2 ^ 32 <= c -> exists msg, run = (Err (UnhandledContractError msg), g')).
Proof.
  intros Hok Hbh Hpath Hcall Hlen. cbn zeta. unfold invoke_contract_safe, verify_confirmations. cbn [required_confirmations].
  pose proof (verify_run p r bh path g data g' Hok Hbh Hpath Hcall Hlen) as Hv.
  destruct (Z.leb_spec 0 (answer data)); [destruct (Z.ltb_spec (answer data) (2 ^ 32))|
    destruct (Z.leb_spec (-5) (answer data))].
  - rewrite (SR_bind_run _ _ _ _ _ Hv). split_and!; try lia; intros.
    + by rewrite (proj2 (Z.leb_le _ _)).
    + rewrite (proj2 (Z.leb_gt _ _)) by done. by eexists.
  - destruct Hv as [msg Hv]. rewrite (SR_bind_err _ _ _ _ _ Hv). split_and!; try lia; by eexists.
  - rewrite (SR_bind_run _ _ _ _ _ Hv). split_and!; try lia. by eexists.
  - destruct Hv as [msg Hv]. rewrite (SR_bind_err _ _ _ _ _ Hv). split_and!; try lia; by eexists.
Qed.

(** No call without confirmations.  With the real verifier, either the node
    answered with at least the required number of confirmations and the contract
    is invoked in the state after that answer, or the contract is not invoked:
    the outcome is an error that does not depend on the call. *)
Theorem contract_called_only_when_confirmed `{BridgeNode G, Bitcoin} p r (g : G) :
  (exists call_data data g', provider_call call_data g = (Ok data, g') /\ (32 <= length data)%nat /\
     r <= answer data /\
     forall T (invoke : SR G DomainErrors T), invoke_contract_safe p (Real r) invoke g = invoke g') \/
  (exists e g', forall T (invoke : SR G DomainErrors T), invoke_contract_safe p (Real r) invoke g = (Err e, g')).
Proof.
  unfold invoke_contract_safe, verify_confirmations. cbn [required_confirmations].
  destruct (verify_btc_confirmations p r g) as [[[|q a]|e] g'] eqn:Hv.
  - left. pose proof Hv as Hrun. unfold verify_btc_confirmations in Hv. destruct (parse_h256 _) as [bh|] eqn:Hbh; [|done].
    destruct (get_btc_confirmations _ _ _ _ g) as [[c|e] g1] eqn:Hc.
    + destruct (Z.leb_spec r c); [|done]. simplify_eq.
      destruct (confirmations_answered _ _ _ _ _ _ _ Hc) as (cd & data & Hcall & Hlen & Ha & _).
      exists cd, data, g'. split_and!; [done|done|lia|]. intros T invoke. by rewrite (SR_bind_run _ _ _ _ _ Hrun).
    + by destruct (parse_native_bridge_error_code e ≫= native_bridge_error_reason).
  - right. do 2 eexists. intros T invoke. by rewrite (SR_bind_run _ _ _ _ _ Hv).
  - right. do 2 eexists. intros T invoke. by rewrite (SR_bind_err _ _ _ _ _ Hv).
Qed.

(** ** A bridge that answers with what it is given *)

Module Sample.

#[export] Instance crates : Bitcoin := {|
  Transaction := list Z;
  compute_txid l := replicate 32 (hd 1 l);
  output_values l := l;
  parse_h256 _ := Some (replicate 32 2);
  parse_fixed_bytes s := match hex_decode s with Ok l => Some l | Err _ => None end;
  parse_u256 _ := Some 5;
  display_local_usage msg := "local usage error: " +:+ msg
|}.

#[export] Instance crates_laws : BitcoinLaws.
Proof.
  split.
  - by exists "local usage error: ".
  - intros h Hlen Hok. cbn. by rewrite hex_decode_encode.
Qed.

#[export] Instance node : BridgeNode (list bytes) := {|
  provider_call _ g := match g with d :: g => (Ok d, g) | [] => (Err "no answer", []) end
|}.

Definition spv : BtcTxSPVProof := mkProof _ "00" [7] "5" [replicate 32 3; replicate 32 4].

(** The answer -4: block too old. *)
Definition too_old : bytes := be_bytes 32 (2 ^ 256 - 4).
Definition twelve : bytes := be_bytes 32 12.

End Sample.

Lemma bridge_call_data_decodes_witness :
  decode_call (encode_call (replicate 32 1) (replicate 32 2) 5 [replicate 32 3; replicate 32 4]) =
  (replicate 32 1, replicate 32 2, 5, [replicate 32 3; replicate 32 4]).
Proof. apply bridge_call_data_decodes; [reflexivity|reflexivity|by_decide|by_decide|cbn; lia]. Defined.

(** The code -4 asks for another attempt, twelve confirmations out of six call
    the contract. *)
Lemma bridge_answer_decides_witness :
  (exists msg, @invoke_contract_safe _ Sample.node Sample.crates unit Sample.spv (Real 6) (mret tt)
     [Sample.too_old] = (Err (MissingConfirmationsOnNativeBridge msg), [])) /\
  @invoke_contract_safe _ Sample.node Sample.crates unit Sample.spv (Real 6) (mret tt) [Sample.twelve] = (Ok tt, []).
Proof.
  split.
  - refine (proj1 (proj2 (proj2 (@bridge_answer_decides _ Sample.node Sample.crates Sample.crates_laws unit
      Sample.spv 6 (replicate 32 2) 5 [Sample.too_old] Sample.too_old [] (mret tt) _ _ _ _ _))) _);
      [by_decide|reflexivity|reflexivity|reflexivity|by_decide|by_decide].
  - refine (proj1 (@bridge_answer_decides _ Sample.node Sample.crates Sample.crates_laws unit
      Sample.spv 6 (replicate 32 2) 5 [Sample.twelve] Sample.twelve [] (mret tt) _ _ _ _ _) _ _);
      [by_decide|reflexivity|reflexivity|reflexivity|by_decide|by_decide|by_decide].
Defined.
