(* ===== verification/Flow.v ===== *)
(** * What the flows of the coordinator share (crates/coordinator/src/flows)

    A flow is a state machine with services: it holds a state, saves it in the
    store, and acts on an environment of contracts, broker, store and markers
    whose operations may fail.  [World] is such a flow with what the store holds
    for it and the effects it had, in order.  Errors are [anyhow] chains that keep
    the typed errors of the gateway, because callers downcast to them. *)

From stdpp Require Import prelude strings.
From S2P Require Import Prelude Types Bitvmx NativeBridge.
Open Scope Z_scope.

(** ** Errors *)

(** A transient error of errors.rs stays one through [anyhow], which downcasts to it. *)
Inductive cause := Msg (msg : string) | Domain (e : DomainErrors) | TransientError (msg : string).
Inductive FlowError := Chain (causes : list cause) | FlowPanic (msg : string).

Definition flow_bail {S A} (msg : string) : SR S FlowError A := sfail (Chain [Msg msg]).
Definition required {S A} (msg : string) (o : option A) : SR S FlowError A :=
  match o with Some a => mret a | None => flow_bail msg end.

(** The outcome of a fallible call that the caller inspects; a panic goes on. *)
Definition catch {S A} (m : SR S FlowError A) : SR S FlowError (result (list cause) A) :=
  fun s => match m s with
           | (Ok a, s) => (Ok (Ok a), s)
           | (Err (Chain causes), s) => (Ok (Err causes), s)
           | (Err (FlowPanic msg), s) => (Err (FlowPanic msg), s)
           end.

(** [Result::context] *)
Definition in_context {S A} (c : string) (m : SR S FlowError A) : SR S FlowError A :=
  fun s => match m s with
           | (Err (Chain causes), s) => (Err (Chain (Msg c :: causes)), s)
           | r => r
           end.

(** [FlowError::from] and [or_transient] *)
Definition is_transient (causes : list cause) : bool :=
  existsb (fun c => match c with TransientError _ => true | _ => false end) causes.
Definition or_transient {S A} (m : SR S FlowError A) : SR S FlowError A :=
  fun s => match m s with
           | (Err (Chain _), s) => (Err (Chain [TransientError ""]), s)
           | r => r
           end.

(** After a panic the process starts again. *)
Definition panicked {A} (r : result FlowError A) : bool :=
  match r with Err (FlowPanic _) => true | _ => false end.

Definition domain (e : DomainErrors) : FlowError := Chain [Domain e].
Definition with_context (c : string) (e : DomainErrors) : FlowError := Chain [Msg c; Domain e].

Definition from_failure (f : failure) : FlowError :=
  match f with
  | Anyhow chain => Chain (Msg <$> chain)
  | Panic msg => FlowPanic msg
  | OutOfFuel => FlowPanic ""
  end.

(** ** The committee, as the gateway describes it *)

Record Member := mkMember { memberAddress : Address; role : Z }.
Record GetCommitteeOutput := mkCommittee { members : list Member; aggregatedKey : bytes }.

(** The status of a Bitcoin transaction that BitVMX reports. *)
Record TransactionStatus := mkTransactionStatus { ts_tx_id : bytes; ts_confirmations : Z }.

(** [Uuid::from_u128] *)
Definition uuid_from_u128 (z : Z) : bytes := be_bytes 16 z.

(** The hyphenated form of a [Uuid], and a [Txid] in the order it is displayed. *)
Definition uuid_to_string (u : bytes) : string :=
  hex_encode (take 4 u) +:+ "-" +:+ hex_encode (take 2 (drop 4 u)) +:+ "-" +:+ hex_encode (take 2 (drop 6 u)) +:+
  "-" +:+ hex_encode (take 2 (drop 8 u)) +:+ "-" +:+ hex_encode (drop 10 u).
Definition txid_to_string (txid : bytes) : string := hex_encode (reverse txid).

(** Parsers and printers of the crates in use. *)
Class FlowCodecs `{Bitcoin, SocketAddrs} := {
  PublicKey : Type;
  (** [PublicKey::from_slice]; [XOnlyPublicKey::from_slice] with even parity *)
  public_key_from_slice : bytes -> option PublicKey;
  even_public_key_from_slice : bytes -> option PublicKey;
  to_checksum : Address -> string;
  (** [P2PAddressParser::socket_addr_from_contracts] *)
  CommunicationData : Type;
  socket_addr_from_contracts : CommunicationData -> option (option SocketAddr)
}.

(** The calls of the gateway that every flow makes, and [Uuid::new_v4]. *)
Class CommitteeServices (E : Type) `{FlowCodecs} := {
  my_address : Address;
  get_committee : Z -> SR E DomainErrors GetCommitteeOutput;
  get_committee_communication_data : Z -> SR E DomainErrors (list CommunicationData);
  get_member_public_keys : Address -> SR E DomainErrors (list string);
  new_v4 : SR E FlowError bytes
}.

(** ** A flow with its services *)

Record World (S E X : Type) := mkWorld {
  state : S;
  saved : option S;
  env : E;
  trace : list X
}.
Arguments mkWorld {S E X}.
Arguments state {S E X}.
Arguments saved {S E X}.
Arguments env {S E X}.
Arguments trace {S E X}.

Section Operations.
Context {S E X : Type}.
Abbreviation W := (World S E X).

(** A computation of the services, with the error turned into one of the flow. *)
Definition on_env {Y A} (conv : Y -> FlowError) (m : SR E Y A) : SR W FlowError A :=
  fun w =>
    match m (env w) with
    | (Ok a, e) => (Ok a, mkWorld (state w) (saved w) e (trace w))
    | (Err y, e) => (Err (conv y), mkWorld (state w) (saved w) e (trace w))
    end.

(** Reading and writing the state of the flow. *)
Definition read_state {A} (f : S -> A) : SR W FlowError A := w ← sget; mret (f (state w)).
Definition update_state (f : S -> S) : SR W FlowError unit :=
  smodify (fun w => mkWorld (f (state w)) (saved w) (env w) (trace w)).

Definition record (x : X) : SR W FlowError unit :=
  smodify (fun w => mkWorld (state w) (saved w) (env w) (trace w ++ [x])).

(** An effect that is recorded once the service has accepted it. *)
Definition send_with (send : SR E FlowError unit) (x : X) : SR W FlowError unit :=
  _ ← on_env id send; record x.

(** A call of a contract, recorded whether it succeeds or not. *)
Definition call_with {Y A} (c : SR E Y A) (x : X) : SR W Y A :=
  fun w => let '(r, e) := c (env w) in (r, mkWorld (state w) (saved w) e (trace w ++ [x])).

(** The store holds the state once saving succeeds. *)
Definition persist_with (save : S -> SR E FlowError unit) : SR W FlowError unit :=
  w ← sget;
  _ ← on_env id (save (state w));
  smodify (fun w' => mkWorld (state w') (Some (state w)) (env w') (trace w')).

Definition map_err {Y A} (conv : Y -> FlowError) (m : SR W Y A) : SR W FlowError A :=
  fun w => match m w with (Ok a, w) => (Ok a, w) | (Err y, w) => (Err (conv y), w) end.

(** The bridge is asked, and the contracts are called, through the same services. *)
#[export] Instance world_node `{!BridgeNode E} : BridgeNode W := {|
  provider_call data w :=
    let '(r, e) := provider_call data (env w) in (r, mkWorld (state w) (saved w) e (trace w))
|}.

End Operations.

(** ** Communication data of the committee

    The same code in the peg-in and in the peg-out flow. *)

Section Committee.
Context `{CommitteeServices E} {S X : Type}.
Abbreviation W := (World S E X).

Fixpoint to_addresses (l : list CommunicationData) : SR W FlowError (list string) :=
  match l with
  | [] => mret []
  | d :: l =>
      addr ← required "Failed to convert communication data to P2P address" (socket_addr_from_contracts d);
      rest ← to_addresses l;
      mret (default "" (socket_addr_to_string <$> addr) :: rest)
  end.

Definition get_committee_addresses (committee_id : Z) : SR W FlowError (list string) :=
  data ← on_env domain (get_committee_communication_data committee_id); to_addresses data.

Definition COMM_KEY_INDEX : nat := 2.

Fixpoint pubkey_hashes_of (l : list Member) : SR W FlowError (list string) :=
  match l with
  | [] => mret []
  | m :: l =>
      keys ← on_env domain (get_member_public_keys (memberAddress m));
      key ← required "Communication key not found for member" (keys !! COMM_KEY_INDEX);
      rest ← pubkey_hashes_of l;
      mret (key :: rest)
  end.

End Committee.

(** ** Computations that leave the flow alone *)

Create HintDb keeps.

Section Keeps.
Context {S E X : Type}.
Abbreviation W := (World S E X).

(** Neither the state nor the store changes. *)
Definition keeps {Y A} (m : SR W Y A) : Prop :=
  forall w, state (snd (m w)) = state w /\ saved (snd (m w)) = saved w.

Lemma keeps_ret {Y A} (a : A) : keeps (mret a : SR W Y A).
Proof. by split. Qed.

Lemma keeps_fail {Y A} (y : Y) : keeps (sfail y : SR W Y A).
Proof. by split. Qed.

Lemma keeps_sget {Y} : keeps (sget : SR W Y W).
Proof. by split. Qed.

Lemma keeps_bind {Y A B} (m : SR W Y A) (f : A -> SR W Y B) :
  keeps m -> (forall a, keeps (f a)) -> keeps (m ≫= f).
Proof.
  intros Hm Hf w. specialize (Hm w). destruct (m w) as [[a|x] w1] eqn:E1; cbn in Hm.
  - rewrite (SR_bind_run _ _ _ _ _ E1). destruct (Hf a w1) as [-> ->]. done.
  - by rewrite (SR_bind_err _ _ _ _ _ E1).
Qed.

Lemma keeps_on_env {Y A} conv (m : SR E Y A) : keeps (on_env conv m : SR W FlowError A).
Proof. intros w. unfold on_env. by destruct (m (env w)) as [[]]. Qed.

Lemma keeps_read {A} (f : S -> A) : keeps (read_state f : SR W FlowError A).
Proof. by split. Qed.

Lemma keeps_record (x : X) : keeps (record x : SR W FlowError unit).
Proof. by split. Qed.

Lemma keeps_call {Y A} (c : SR E Y A) (x : X) : keeps (call_with c x : SR W Y A).
Proof. intros w. unfold call_with. by destruct (c (env w)). Qed.

Lemma keeps_required {A} msg (o : option A) : keeps (required (S := W) msg o).
Proof. by destruct o. Qed.

Lemma keeps_map_err {Y A} conv (m : SR W Y A) : keeps m -> keeps (map_err conv m).
Proof. intros Hm w. specialize (Hm w). unfold map_err. by destruct (m w) as [[]]. Qed.

Lemma keeps_catch {A} (m : SR W FlowError A) : keeps m -> keeps (catch m).
Proof. intros Hm w. specialize (Hm w). unfold catch. by destruct (m w) as [[|[]]]. Qed.

Lemma keeps_in_context {A} c (m : SR W FlowError A) : keeps m -> keeps (in_context c m).
Proof. intros Hm w. specialize (Hm w). unfold in_context. by destruct (m w) as [[|[]]]. Qed.

Lemma keeps_or_transient {A} (m : SR W FlowError A) : keeps m -> keeps (or_transient m).
Proof. intros Hm w. specialize (Hm w). unfold or_transient. by destruct (m w) as [[|[]]]. Qed.

Lemma keeps_if {Y A} (b : bool) (m n : SR W Y A) : keeps m -> keeps n -> keeps (if b then m else n).
Proof. by destruct b. Qed.

End Keeps.

#[export] Hint Resolve keeps_ret keeps_fail keeps_sget keeps_bind keeps_on_env keeps_read keeps_record
  keeps_call keeps_required keeps_map_err keeps_catch keeps_in_context keeps_or_transient keeps_if : keeps.
#[export] Hint Extern 1 (keeps (match ?x with _ => _ end)) => destruct x : keeps.
#[export] Hint Extern 5 (keeps _) => progress cbn zeta : keeps.

(** Proves [keeps] for an operation built of such computations. *)
Ltac keep := intros; cbn zeta; eauto 20 with keeps.

Section KeepsServices.
Context {S E X : Type}.
Abbreviation W := (World S E X).

Lemma keeps_send_with send (x : X) : keeps (send_with send x : SR W FlowError unit).
Proof. unfold send_with. keep. Qed.

Context `{!BridgeNode E, Bitcoin}.

Lemma keeps_provider_call data : keeps (provider_call (G := W) data).
Proof. intros w. cbn. by destruct (provider_call data (env w)). Qed.

Lemma keeps_parse_hashes l : keeps (parse_hashes (G := W) l).
Proof. induction l as [|s l IH]; cbn; unfold local_usage; keep. Qed.
Hint Resolve keeps_provider_call keeps_parse_hashes : keeps.

Lemma keeps_get_btc_confirmations a b c l : keeps (get_btc_confirmations (G := W) a b c l).
Proof.
  intros w. unfold get_btc_confirmations.
  assert (Hk : keeps (call_get_btc_transaction_confirmations (G := W) a b c l)).
  { unfold call_get_btc_transaction_confirmations, decode_confirmations, local_usage. keep. }
  specialize (Hk w). by destruct (call_get_btc_transaction_confirmations _ _ _ _ w) as [[]].
Qed.

Lemma keeps_verify v p r : keeps (verify_confirmations (G := W) v p r).
Proof.
  unfold verify_confirmations. destruct v; [|keep]. unfold verify_btc_confirmations.
  destruct (parse_h256 (block_hash p)) as [bh|]; [|keep]. intros w.
  pose proof (keeps_get_btc_confirmations (txid_to_fb_32 (compute_txid (tx p))) bh (merkle_branch_path p)
    (hex_encode <$> merkle_branch_hashes p) w) as Hk.
  destruct (get_btc_confirmations _ _ _ _ w) as [[c|e] w1]; [done|]. by destruct (_ ≫= _).
Qed.
Hint Resolve keeps_verify : keeps.

Lemma keeps_invoke {T} p v (m : SR W DomainErrors T) : keeps m -> keeps (invoke_contract_safe p v m).
Proof. unfold invoke_contract_safe. keep. Qed.

End KeepsServices.

Section KeepsCommittee.
Context `{CommitteeServices E} {S X : Type}.
Abbreviation W := (World S E X).

Lemma keeps_to_addresses l : keeps (to_addresses l : SR W FlowError (list string)).
Proof. induction l; cbn; keep. Qed.
Lemma keeps_pubkey_hashes l : keeps (pubkey_hashes_of l : SR W FlowError (list string)).
Proof. induction l; cbn; keep. Qed.
Lemma keeps_comms_addresses me l : keeps (comms_addresses (St := W) me l).
Proof. induction l as [|[]]; cbn; unfold bail; keep. Qed.

End KeepsCommittee.

#[export] Hint Resolve keeps_send_with keeps_verify keeps_invoke keeps_to_addresses keeps_pubkey_hashes
  keeps_comms_addresses : keeps.

(** ** Effects

    [adds A m]: every effect that the computation has satisfies [A]; [quiet P m]:
    it has no effect of the kind [P]. *)

Create HintDb adds.

Section Adds.
Context {S E X : Type} (A : X -> Prop).
Abbreviation W := (World S E X).

Definition adds {Y B} (m : SR W Y B) : Prop :=
  forall w, exists l, trace (snd (m w)) = trace w ++ l /\ Forall A l.

Lemma adds_nothing {Y B} (m : SR W Y B) : (forall w, trace (snd (m w)) = trace w) -> adds m.
Proof. intros Hm w. exists []. by rewrite app_nil_r. Qed.
Lemma adds_ret {Y B} (b : B) : adds (mret b : SR W Y B).
Proof. by apply adds_nothing. Qed.
Lemma adds_fail {Y B} (y : Y) : adds (sfail y : SR W Y B).
Proof. by apply adds_nothing. Qed.
Lemma adds_sget {Y} : adds (sget : SR W Y W).
Proof. by apply adds_nothing. Qed.
Lemma adds_modify {Y} (f : W -> W) : (forall w, trace (f w) = trace w) -> adds (smodify f : SR W Y unit).
Proof. intros Hf. by apply adds_nothing. Qed.
Lemma adds_read {B} (f : S -> B) : adds (read_state f : SR W FlowError B).
Proof. by apply adds_nothing. Qed.
Lemma adds_update (f : S -> S) : adds (update_state f : SR W FlowError unit).
Proof. by apply adds_nothing. Qed.

Lemma adds_bind {Y B C} (m : SR W Y B) (f : B -> SR W Y C) :
  adds m -> (forall b, adds (f b)) -> adds (m ≫= f).
Proof.
  intros Hm Hf w. destruct (Hm w) as (l & Hl & HA). destruct (m w) as [[b|x] w1] eqn:E1; cbn in Hl.
  - rewrite (SR_bind_run _ _ _ _ _ E1). destruct (Hf b w1) as (l' & Hl' & HA').
    exists (l ++ l'). rewrite Hl', Hl, app_assoc. split; [done|by apply Forall_app].
  - rewrite (SR_bind_err _ _ _ _ _ E1). eauto.
Qed.

Lemma adds_on_env {Y B} conv (m : SR E Y B) : adds (on_env conv m : SR W FlowError B).
Proof. apply adds_nothing. intros w. unfold on_env. by destruct (m (env w)) as [[]]. Qed.
Lemma adds_record (x : X) : A x -> adds (record x : SR W FlowError unit).
Proof. intros Hx w. exists [x]. split; [done|by apply Forall_singleton]. Qed.
Lemma adds_send_with send (x : X) : A x -> adds (send_with send x : SR W FlowError unit).
Proof. intros Hx. apply adds_bind; [apply adds_on_env|intros _; by apply adds_record]. Qed.
Lemma adds_call {Y B} (c : SR E Y B) (x : X) : A x -> adds (call_with c x : SR W Y B).
Proof.
  intros Hx w. exists [x]. unfold call_with. destruct (c (env w)). split; [done|by apply Forall_singleton].
Qed.
Lemma adds_persist save : adds (persist_with save : SR W FlowError unit).
Proof.
  unfold persist_with. apply adds_bind; [apply adds_sget|intros w]. apply adds_bind; [apply adds_on_env|intros _].
  by apply adds_modify.
Qed.
Lemma adds_required {B} msg (o : option B) : adds (required (S := W) msg o).
Proof. destruct o; [apply adds_ret|apply adds_fail]. Qed.
Lemma adds_map_err {Y B} conv (m : SR W Y B) : adds m -> adds (map_err conv m).
Proof. intros Hm w. specialize (Hm w). unfold map_err. by destruct (m w) as [[]]. Qed.
Lemma adds_catch {B} (m : SR W FlowError B) : adds m -> adds (catch m).
Proof. intros Hm w. specialize (Hm w). unfold catch. by destruct (m w) as [[|[]]]. Qed.
Lemma adds_in_context {B} c (m : SR W FlowError B) : adds m -> adds (in_context c m).
Proof. intros Hm w. specialize (Hm w). unfold in_context. by destruct (m w) as [[|[]]]. Qed.
Lemma adds_or_transient {B} (m : SR W FlowError B) : adds m -> adds (or_transient m).
Proof. intros Hm w. specialize (Hm w). unfold or_transient. by destruct (m w) as [[|[]]]. Qed.
Lemma adds_if {Y B} (b : bool) (m n : SR W Y B) : adds m -> adds n -> adds (if b then m else n).
Proof. by destruct b. Qed.

Context `{!BridgeNode E, Bitcoin}.

Lemma adds_provider_call data : adds (provider_call (G := W) data).
Proof. apply adds_nothing. intros w. cbn. by destruct (provider_call data (env w)). Qed.

End Adds.

Abbreviation quiet P := (adds (fun x => ~ P x)).

Lemma quiet_filter {S E X} (P : X -> Prop) `{!forall x, Decision (P x)} {Y B} (m : SR (World S E X) Y B) w :
  quiet P m -> filter P (trace (snd (m w))) = filter P (trace w).
Proof.
  intros Hm. destruct (Hm w) as (l & -> & Hl). rewrite filter_app. rewrite <- (app_nil_r (filter P (trace w))) at 2.
  f_equal. clear -Hl. induction Hl as [|x l Hx _ IH]; [done|]. by rewrite filter_cons_False.
Qed.

#[export] Hint Resolve adds_ret adds_fail adds_sget adds_read adds_update adds_bind adds_on_env adds_record
  adds_send_with adds_call adds_persist adds_required adds_map_err adds_catch adds_in_context adds_or_transient adds_if adds_provider_call : adds.
#[export] Hint Extern 1 (adds _ (match ?x with _ => _ end)) => destruct x : adds.
#[export] Hint Extern 1 (adds _ (smodify _)) => apply adds_modify; intros; reflexivity : adds.
#[export] Hint Extern 2 (~ _) => intros []; fail : adds.
#[export] Hint Extern 5 (adds _ _) => progress cbn zeta : adds.

(** Proves [adds] for an operation built of such computations. *)
Ltac be_quiet := intros; cbn zeta; eauto 20 with adds.

Section AddsServices.
Context {S E X : Type} (A : X -> Prop) `{!BridgeNode E, Bitcoin}.
Abbreviation W := (World S E X).

Lemma adds_get_btc_confirmations a b c l : adds A (get_btc_confirmations (G := W) a b c l).
Proof.
  intros w. unfold get_btc_confirmations.
  assert (Hp : adds A (parse_hashes (G := W) l)) by (induction l; cbn; unfold local_usage; be_quiet).
  assert (Hk : adds A (call_get_btc_transaction_confirmations (G := W) a b c l)).
  { unfold call_get_btc_transaction_confirmations, decode_confirmations, local_usage. be_quiet. }
  specialize (Hk w). by destruct (call_get_btc_transaction_confirmations _ _ _ _ w) as [[]].
Qed.

Lemma adds_verify v p r : adds A (verify_confirmations (G := W) v p r).
Proof.
  unfold verify_confirmations. destruct v; [|be_quiet]. unfold verify_btc_confirmations.
  destruct (parse_h256 (block_hash p)) as [bh|]; [|be_quiet]. intros w.
  pose proof (adds_get_btc_confirmations (txid_to_fb_32 (compute_txid (tx p))) bh (merkle_branch_path p)
    (hex_encode <$> merkle_branch_hashes p) w) as Hk.
  destruct (get_btc_confirmations _ _ _ _ w) as [[c|e] w1]; [done|]. by destruct (_ ≫= _).
Qed.

Lemma adds_invoke {T} p v (m : SR W DomainErrors T) : adds A m -> adds A (invoke_contract_safe p v m).
Proof. unfold invoke_contract_safe. pose proof (adds_verify v p). be_quiet. Qed.

End AddsServices.

Section AddsCommittee.
Context `{CommitteeServices E} {S X : Type} (A : X -> Prop).
Abbreviation W := (World S E X).

Lemma adds_to_addresses l : adds A (to_addresses l : SR W FlowError (list string)).
Proof. induction l; cbn; be_quiet. Qed.
Lemma adds_pubkey_hashes l : adds A (pubkey_hashes_of l : SR W FlowError (list string)).
Proof. induction l; cbn; be_quiet. Qed.
Lemma adds_comms_addresses me l : adds A (comms_addresses (St := W) me l).
Proof. induction l as [|[]]; cbn; unfold bail; be_quiet. Qed.

End AddsCommittee.

#[export] Hint Resolve adds_verify adds_invoke adds_to_addresses adds_pubkey_hashes
  adds_comms_addresses : adds.

(** ** Reasoning about both outcomes

    [hoare I P m Q]: started in [P], the computation ends in [Q] if it succeeds
    and in [I] if it fails.  Assertions are about the state and the store. *)

Section Hoare.
Context {S E X : Type}.
Abbreviation W := (World S E X).
Abbreviation assertion := (S -> option S -> Prop).

Definition hoare {A} (I P : assertion) (m : SR W FlowError A) (Q : A -> assertion) : Prop :=
  forall w, P (state w) (saved w) ->
    match m w with
    | (Ok a, w') => Q a (state w') (saved w')
    | (Err _, w') => I (state w') (saved w')
    end.

Context (I : assertion).

Lemma hoare_bind {A B} P Q R (m : SR W FlowError A) (f : A -> SR W FlowError B) :
  hoare I P m Q -> (forall a, hoare I (Q a) (f a) R) -> hoare I P (m ≫= f) R.
Proof.
  intros Hm Hf w HP. specialize (Hm w HP). destruct (m w) as [[a|x] w1] eqn:E1.
  - rewrite (SR_bind_run _ _ _ _ _ E1). by apply Hf.
  - by rewrite (SR_bind_err _ _ _ _ _ E1).
Qed.

Lemma hoare_weaken {A} (P P' : assertion) Q Q' (m : SR W FlowError A) :
  hoare I P m Q -> (forall s v, P' s v -> P s v) -> (forall a s v, Q a s v -> Q' a s v) -> hoare I P' m Q'.
Proof. intros Hm HP HQ w HP'. specialize (Hm w (HP _ _ HP')). destruct (m w) as [[]]; auto. Qed.

Lemma hoare_ret {A} (a : A) (Q : A -> assertion) : hoare I (Q a) (mret a) Q.
Proof. by intros w. Qed.

Lemma hoare_fail {A} x (P : assertion) (Q : A -> assertion) :
  (forall s v, P s v -> I s v) -> hoare I P (sfail x) Q.
Proof. intros HP w. cbn. apply HP. Qed.

Lemma hoare_keeps {A} (m : SR W FlowError A) (P : assertion) :
  keeps m -> (forall s v, P s v -> I s v) -> hoare I P m (fun _ => P).
Proof.
  intros Hm HP w Hw. specialize (Hm w) as [Hs Hv]. destruct (m w) as [[a|x] w1]; cbn in *; rewrite Hs, Hv; auto.
Qed.

Lemma hoare_read {A} (f : S -> A) (P : assertion) :
  hoare I P (read_state f) (fun a s v => P s v /\ a = f s).
Proof. by intros w Hw. Qed.

Lemma hoare_update f (P Q : assertion) : (forall s v, P s v -> Q (f s) v) -> hoare I P (update_state f) (fun _ => Q).
Proof. intros HQ w Hw. cbn. by apply HQ. Qed.

Lemma hoare_required {A} msg (o : option A) (P : assertion) :
  (forall s v, P s v -> I s v) -> hoare I P (required msg o) (fun a s v => P s v /\ o = Some a).
Proof. intros HP w Hw. destruct o; cbn; auto. Qed.

Lemma hoare_persist_with save (P Q : assertion) :
  (forall s v, P s v -> Q s (Some s)) -> (forall s v, P s v -> I s v) ->
  hoare I P (persist_with save) (fun _ => Q).
Proof.
  intros HQ HI w Hw. unfold persist_with. rewrite SR_bind_run with (a := w) (s' := w) by done.
  unfold on_env, mbind, SR_bind, smodify. destruct (save (state w) (env w)) as [[]]; cbn; eauto.
Qed.

Lemma hoare_if {A} (b : bool) (m n : SR W FlowError A) P Q :
  (b = true -> hoare I P m Q) -> (b = false -> hoare I P n Q) -> hoare I P (if b then m else n) Q.
Proof. destruct b; auto. Qed.

End Hoare.

(** ** Computations that succeed *)

Section Okay.
Context {S E X : Type}.
Abbreviation W := (World S E X).

Definition okay {Y A} (m : SR W Y A) (w : W) : Prop := exists a w', m w = (Ok a, w').

Lemma okay_ret {Y A} (a : A) w : okay (mret a : SR W Y A) w.
Proof. by exists a, w. Qed.

Lemma okay_bind {Y A B} (m : SR W Y A) (f : A -> SR W Y B) w :
  okay m w -> (forall a w', m w = (Ok a, w') -> okay (f a) w') -> okay (m ≫= f) w.
Proof. intros (a & w' & Hm) Hf. unfold okay. rewrite (SR_bind_run _ _ _ _ _ Hm). by apply Hf. Qed.

(** ... and leave the state alone. *)
Lemma okay_keeps {Y A B} (m : SR W Y A) (f : A -> SR W Y B) w :
  keeps m -> okay m w ->
  (forall a w', m w = (Ok a, w') -> state w' = state w -> okay (f a) w') -> okay (m ≫= f) w.
Proof.
  intros Hk Hm Hf. apply okay_bind; [done|]. intros a w' Hr. apply Hf; [done|].
  destruct (Hk w) as [Hs _]. by rewrite Hr in Hs.
Qed.

Lemma okay_need {A B} msg (o : option A) (f : A -> SR W FlowError B) w :
  is_Some o -> (forall a, o = Some a -> okay (f a) w) -> okay (a ← required msg o; f a) w.
Proof. intros [a ->] Hf. exact (Hf a eq_refl). Qed.

Lemma okay_env {Y A} conv (m : SR E Y A) (w : W) :
  (exists a e', m (env w) = (Ok a, e')) -> okay (on_env conv m) w.
Proof. intros (a & e' & Hm). unfold okay, on_env. rewrite Hm. eauto. Qed.

Lemma okay_send_with send (x : X) w :
  (exists e', send (env w) = (Ok tt, e')) -> okay (send_with send x) w.
Proof.
  intros [e' He]. apply okay_bind; [apply okay_env; eauto|]. intros [] w' _.
  unfold okay, record, smodify. eauto.
Qed.

Lemma okay_persist_with save w :
  (exists e', save (state w) (env w) = (Ok tt, e')) -> okay (persist_with save) w.
Proof.
  intros [e' He]. unfold okay, persist_with. rewrite SR_bind_run with (a := w) (s' := w) by done.
  unfold on_env, mbind, SR_bind, smodify. rewrite He. eauto.
Qed.

Lemma okay_call_with {Y A} (c : SR E Y A) (x : X) (w : W) :
  (exists a e', c (env w) = (Ok a, e')) -> okay (call_with c x) w.
Proof. intros (a & e' & He). unfold okay, call_with. rewrite He. eauto. Qed.

Lemma okay_map_err {Y A} conv (m : SR W Y A) w : okay m w -> okay (map_err conv m) w.
Proof. intros (a & w' & Hm). unfold okay, map_err. rewrite Hm. eauto. Qed.

End Okay.

(** ** Instances for examples: a committee of two, and services that answer. *)

Module Sample.

#[export] Existing Instance NativeBridge.Sample.crates.
#[export] Existing Instance Bitvmx.Sample.tail_hash.

#[export] Instance socket_addrs : SocketAddrs := {|
  SocketAddr := string; parse_socket_addr := Some; socket_addr_to_string a := a |}.

#[export] Instance codecs : FlowCodecs := {|
  PublicKey := bytes;
  public_key_from_slice := Some;
  even_public_key_from_slice := Some;
  to_checksum _ := "0xAb";
  CommunicationData := option string;
  socket_addr_from_contracts := Some
|}.

Definition sample_committee : GetCommitteeOutput := mkCommittee [mkMember [2] 2; mkMember [1] 1] [9].

#[export] Instance committee_services {E} : CommitteeServices E := {|
  my_address := [1];
  get_committee _ e := (Ok sample_committee, e);
  get_committee_communication_data _ e := (Ok [Some "10.0.0.2:80"; None], e);
  get_member_public_keys _ e := (Ok ["take"; "dispute"; "comm"], e);
  new_v4 e := (Ok [0], e)
|}.

#[export] Instance node {E} : BridgeNode E := {| provider_call _ e := (Ok [], e) |}.

End Sample.
