(* ===== verification/Processor.v ===== *)
(** * What the flow processors share (crates/coordinator/src/flows/*/*_processor.rs)

    A processor owns the flows of one kind, their signature subflows, the contract
    events that still need confirmations, and tables of its own; it hands every
    input to the flows it concerns.  [Processor] is such a state with what the
    store holds, [with_flow] and [with_signature] run an operation of one flow or
    subflow in it.  The confirmation of events, [Confirmer], is the same code in
    all processors. *)

From stdpp Require Import prelude gmap strings.
From S2P Require Import Prelude Types BlockchainTracker Events BtcSignature Bitvmx NativeBridge Flow.
Open Scope Z_scope.

(** Hash maps are visited in an order of their own. *)
Class HashOrder := {
  shuffle {A : Type} : list A -> list A;
  shuffle_perm {A : Type} (l : list A) : shuffle l ≡ₚ l
}.

Fixpoint for_each {S Y A} (l : list A) (f : A -> SR S Y unit) : SR S Y unit :=
  match l with
  | [] => mret tt
  | a :: l => _ ← f a; for_each l f
  end.

Definition lift {S A} (m : SR S failure A) : SR S FlowError A :=
  fun s => match m s with (Ok a, s) => (Ok a, s) | (Err f, s) => (Err (from_failure f), s) end.

Lemma SR_bind_assoc {S Y A B C} (m : SR S Y A) (f : A -> SR S Y B) (g : B -> SR S Y C) s :
  ((m ≫= f) ≫= g) s = (m ≫= fun a => f a ≫= g) s.
Proof. unfold mbind, SR_bind. by destruct (m s) as [[]]. Qed.

(** ** Events awaiting confirmations *)

Record Confirmer (D : Type) := mkConfirmer {
  events_confirming : gmap string (ConfirmableEventWithData D);
  blockchain_view : Tracker
}.
Arguments mkConfirmer {D}.
Arguments events_confirming {D}.
Arguments blockchain_view {D}.

Section Confirmers.
Context {D : Type}.
Abbreviation C := (Confirmer D).

Definition new_confirmer : C := mkConfirmer ∅ new_tracker.

Definition on_tracker {A} (m : SR Tracker failure A) : SR C failure A :=
  zoom blockchain_view (fun t c => mkConfirmer (events_confirming c) t) m.

Definition set_events (f : gmap string (ConfirmableEventWithData D) -> gmap string (ConfirmableEventWithData D))
    : SR C failure unit :=
  smodify (fun c => mkConfirmer (f (events_confirming c)) (blockchain_view c)).

Definition no_events (c : C) : bool := bool_decide (events_confirming c = ∅).

Definition stop_confirming_event (id : string) : SR C failure (option (ConfirmableEventWithData D)) :=
  c ← sget;
  match events_confirming c !! id with
  | None => mret None
  | Some e =>
      _ ← set_events (delete id);
      confirmation ← on_tracker (stop_confirming (confirmation e));
      c ← sget;
      _ ← (if no_events c then on_tracker clear_view else mret tt);
      mret (Some (mkEventWithData confirmation (event_data e)))
  end.

(** The part of [process_new_rsk_event] that files a new event. *)
Definition confirm_event (what id : string) (required_confirmations : Z) (block_num : BlockNumber) (data : D)
    : SR C failure unit :=
  e ← context what
        (on_tracker (start_confirming (new_event id required_confirmations) block_num));
  set_events (<[event_id e := mkEventWithData e data]>).

Definition clear_confirmer : SR C failure unit := _ ← set_events (fun _ => ∅); on_tracker clear_view.

Definition confirmed_keys (c : C) : list string :=
  (filter (fun kv => is_confirmed (confirmation kv.2) (blockchain_view c) = true)
     (map_to_list (events_confirming c))).*1.

End Confirmers.

(** ** Processors *)

Record Processor (S D E X Q N : Type) := mkProcessor {
  flows : gmap bytes S;
  signature_flows : gmap bytes (SubFlow * Tracker);
  confirmer : Confirmer D;
  tables : Q;
  disk : gmap bytes S;
  disk_tables : option N;
  penv : E;
  ptrace : list X;
  sig_calls : list ContractCall
}.
Arguments mkProcessor {S D E X Q N}.
Arguments flows {S D E X Q N}.
Arguments signature_flows {S D E X Q N}.
Arguments confirmer {S D E X Q N}.
Arguments tables {S D E X Q N}.
Arguments disk {S D E X Q N}.
Arguments disk_tables {S D E X Q N}.
Arguments penv {S D E X Q N}.
Arguments ptrace {S D E X Q N}.
Arguments sig_calls {S D E X Q N}.

(** The identifier a flow is filed and stored under. *)
Class Filed (S : Type) := filed_under : S -> bytes.

Section Processors.
Context {S D E X Q N : Type} `{!Filed S, HashOrder}.
Abbreviation P := (Processor S D E X Q N).

Definition set_flows (f : gmap bytes S -> gmap bytes S) : SR P FlowError unit :=
  smodify (fun p => mkProcessor (f (flows p)) (signature_flows p) (confirmer p) (tables p) (disk p)
                      (disk_tables p) (penv p) (ptrace p) (sig_calls p)).
Definition set_signature_flows (f : gmap bytes (SubFlow * Tracker) -> gmap bytes (SubFlow * Tracker))
    : SR P FlowError unit :=
  smodify (fun p => mkProcessor (flows p) (f (signature_flows p)) (confirmer p) (tables p) (disk p)
                      (disk_tables p) (penv p) (ptrace p) (sig_calls p)).
(** The services may change between two inputs. *)
Definition set_env (e : E) (p : P) : P :=
  mkProcessor (flows p) (signature_flows p) (confirmer p) (tables p) (disk p) (disk_tables p) e (ptrace p) (sig_calls p).
Definition set_confirmer (c : Confirmer D) (p : P) : P :=
  mkProcessor (flows p) (signature_flows p) c (tables p) (disk p) (disk_tables p) (penv p) (ptrace p) (sig_calls p).
Definition set_tables (f : Q -> Q) : SR P FlowError unit :=
  smodify (fun p => mkProcessor (flows p) (signature_flows p) (confirmer p) (f (tables p)) (disk p)
                      (disk_tables p) (penv p) (ptrace p) (sig_calls p)).

Definition read_tables {A} (f : Q -> A) : SR P FlowError A := p ← sget; mret (f (tables p)).

Definition on_confirmer {A} (m : SR (Confirmer D) failure A) : SR P FlowError A :=
  lift (zoom confirmer set_confirmer m).

(** A computation of the services. *)
Definition on_services {Y A} (conv : Y -> FlowError) (m : SR E Y A) : SR P FlowError A :=
  fun p =>
    match m (penv p) with
    | (Ok a, e) => (Ok a, mkProcessor (flows p) (signature_flows p) (confirmer p) (tables p) (disk p)
                            (disk_tables p) e (ptrace p) (sig_calls p))
    | (Err y, e) => (Err (conv y), mkProcessor (flows p) (signature_flows p) (confirmer p) (tables p) (disk p)
                                     (disk_tables p) e (ptrace p) (sig_calls p))
    end.

(** An operation of the flow filed under [k]: it sees its own entry of the store. *)
Definition with_flow {A} (k : bytes) (m : SR (World S E X) FlowError A) : SR P FlowError A :=
  fun p =>
    match flows p !! k with
    | None => (Err (FlowPanic "no such flow"), p)
    | Some s =>
        let '(r, w) := m (mkWorld s (disk p !! filed_under s) (penv p) (ptrace p)) in
        (r, mkProcessor (<[k := state w]> (flows p)) (signature_flows p) (confirmer p) (tables p)
              (partial_alter (fun _ => saved w) (filed_under s) (disk p)) (disk_tables p) (env w) (trace w)
              (sig_calls p))
    end.

(** An operation of a flow that is not filed yet. *)
Definition with_new_flow {A} (s : S) (m : SR (World S E X) FlowError A) : SR P FlowError (A * S) :=
  fun p =>
    let '(r, w) := m (mkWorld s (disk p !! filed_under s) (penv p) (ptrace p)) in
    let p' := mkProcessor (flows p) (signature_flows p) (confirmer p) (tables p)
                (partial_alter (fun _ => saved w) (filed_under s) (disk p)) (disk_tables p) (env w) (trace w)
                (sig_calls p) in
    match r with Ok a => (Ok (a, state w), p') | Err e => (Err e, p') end.

(** [values().find(..)] *)
Definition find_flow (pred : S -> bool) : SR P FlowError (option bytes) :=
  p ← sget;
  mret (head (filter (fun kv => pred kv.2 = true) (shuffle (map_to_list (flows p)))).*1).

Definition lookup_flow (k : bytes) : SR P FlowError (option S) := p ← sget; mret (flows p !! k).

(** ** Signature subflows *)

Context `{!SignatureContracts E, EventPayloads}.

Definition with_signature {A} (k : bytes) (m : SR (BtcSignature.World E) failure A) : SR P FlowError A :=
  fun p =>
    match signature_flows p !! k with
    | None => (Err (FlowPanic "no such signature flow"), p)
    | Some (s, t) =>
        let '(r, w) := m (BtcSignature.mkWorld s t (penv p) (sig_calls p)) in
        (match r with Ok a => Ok a | Err f => Err (from_failure f) end,
         mkProcessor (flows p) (<[k := (flow w, view w)]> (signature_flows p)) (confirmer p) (tables p) (disk p)
           (disk_tables p) (gateway w) (ptrace p) (calls w))
    end.

Definition signature_keys : SR P FlowError (list bytes) :=
  p ← sget; mret (shuffle (map_to_list (signature_flows p))).*1.

Definition signature_done (k : bytes) : SR P FlowError bool :=
  p ← sget; mret (from_option (fun st => is_done st.1) false (signature_flows p !! k)).

(** Every subflow sees the block; the identifiers of those that are done. *)
Fixpoint delegate_blocks (block : RskBlockAndUncles) (keys : list bytes) : SR P FlowError (list bytes) :=
  match keys with
  | [] => mret []
  | k :: keys =>
      _ ← with_signature k (delegate_block block);
      done ← signature_done k;
      rest ← delegate_blocks block keys;
      mret (if (done : bool) then k :: rest else rest)
  end.

Definition delegate_signature_event (event : RskPegManagerEvents) : SR P FlowError unit :=
  keys ← signature_keys;
  for_each keys (fun k => with_signature k (delegate_rsk_event (uuid_to_string k) event)).

(** A new subflow is filed once its nonce is sent. *)
Definition start_signature (k : bytes) (parent_log_id : string) (required_confirmations : Z)
    (parent : option ParentSpan) (data : RegisterSignaturesBitVmxData) : SR P FlowError unit :=
  fun p =>
    let s := new_subflow (uuid_to_string k) parent_log_id required_confirmations parent in
    let '(r, w) := start_signature_flow (uuid_to_string k) data
                     (BtcSignature.mkWorld s new_tracker (penv p) (sig_calls p)) in
    match r with
    | Ok _ => (Ok tt, mkProcessor (flows p) (<[k := (flow w, view w)]> (signature_flows p)) (confirmer p)
                        (tables p) (disk p) (disk_tables p) (gateway w) (ptrace p) (calls w))
    | Err f => (Err (from_failure f), mkProcessor (flows p) (signature_flows p) (confirmer p)
                        (tables p) (disk p) (disk_tables p) (gateway w) (ptrace p) (calls w))
    end.

(** ** Confirmed events *)

(** [process_block_confirmations], up to what a processor does at its end; it
    tells whether there were events to confirm. *)
Definition confirm_block (block : RskBlockAndUncles) (process : D -> SR P FlowError unit) : SR P FlowError bool :=
  p ← sget;
  if no_events (confirmer p) then mret false else
  _ ← on_confirmer (on_tracker (update block));
  p ← sget;
  _ ← for_each (shuffle (confirmed_keys (confirmer p))) (fun key =>
        stopped ← on_confirmer (stop_confirming_event key);
        match stopped with Some e => process (event_data e) | None => mret tt end);
  mret true.

(** ** The store *)

Definition delete_stored (delete : bytes -> SR E FlowError unit) (k : bytes) : SR P FlowError unit :=
  _ ← on_services id (delete k);
  smodify (fun p => mkProcessor (flows p) (signature_flows p) (confirmer p) (tables p)
                      (base.delete k (disk p)) (disk_tables p) (penv p) (ptrace p) (sig_calls p)).

Definition save_tables (save : N -> SR E FlowError unit) (snapshot : P -> N) : SR P FlowError unit :=
  p ← sget;
  _ ← on_services id (save (snapshot p));
  smodify (fun p' => mkProcessor (flows p') (signature_flows p') (confirmer p') (tables p') (disk p')
                       (Some (snapshot p)) (penv p') (ptrace p') (sig_calls p')).

Definition snapshot_signatures (p : P) : gmap bytes BtcSignatureSubFlowSnapshot :=
  (fun st => subflow_snapshot st.1 st.2) <$> signature_flows p.

Fixpoint restore_signatures (l : list (bytes * BtcSignatureSubFlowSnapshot)) (required_confirmations : Z)
    : result failure (list (bytes * (SubFlow * Tracker))) :=
  match l with
  | [] => Ok []
  | (k, s) :: l =>
      match subflow_from_snapshot s required_confirmations with
      | (Ok f, t) => rest ← restore_signatures l required_confirmations; Ok ((k, (f, t)) :: rest)
      | (Err e, _) => Err e
      end
  end.

End Processors.

(** [Result::expect] *)
Definition expect {S A} (msg : string) (m : SR S FlowError A) : SR S FlowError A :=
  fun s => match m s with (Err (Chain _), s) => (Err (FlowPanic msg), s) | r => r end.

Lemma expect_ok {S A} msg (m : SR S FlowError A) s a s' : m s = (Ok a, s') -> expect msg m s = (Ok a, s').
Proof. intros Hm. unfold expect. by rewrite Hm. Qed.

Lemma expect_err {S A} msg (m : SR S FlowError A) s x s' :
  m s = (Err x, s') -> exists msg', expect msg m s = (Err (FlowPanic msg'), s').
Proof. intros Hm. unfold expect. rewrite Hm. destruct x; eauto. Qed.

(** ** The past of a process

    Its starts, and the inputs it took, each with the state that took it. *)
Inductive Past (P I : Type) := Started | Took (p : P) (i : I).
Arguments Started {P I}.
Arguments Took {P I}.

Definition inputs_of {P I} (past : list (Past P I)) : list (option I) :=
  (fun x => match x with Started => None | Took _ i => Some i end) <$> past.

(** ** Reasoning about processors

    [every R m]: whatever the outcome of [m], its states before and after are
    related by [R], which may ask less after a panic. *)

Create HintDb every.

Class Composes {St : Type} (R : bool -> St -> St -> Prop) := {
  composes_refl b s : R b s s;
  composes_trans b s1 s2 s3 : R false s1 s2 -> R b s2 s3 -> R b s1 s3
}.

Section Every.
Context {St : Type} (R : bool -> St -> St -> Prop) `{!Composes R}.

Definition every {A} (m : SR St FlowError A) : Prop := forall s, R (panicked (fst (m s))) s (snd (m s)).

Lemma every_ret {A} (a : A) : every (mret a).
Proof. intros s. apply composes_refl. Qed.
Lemma every_fail {A} e : every (sfail e : SR St FlowError A).
Proof. intros s. apply composes_refl. Qed.
Lemma every_sget : every sget.
Proof. intros s. apply composes_refl. Qed.
Lemma every_lift {A} (r : result FlowError A) : every (slift r).
Proof. intros s. destruct r; apply composes_refl. Qed.
Lemma every_modify f : (forall s, R false s (f s)) -> every (smodify f).
Proof. intros Hf s. apply Hf. Qed.

(** From one state, where the states in between are known *)
Definition leads {A} (m : SR St FlowError A) (s : St) : Prop := R (panicked (fst (m s))) s (snd (m s)).

Lemma leads_bind {A B} (m : SR St FlowError A) (f : A -> SR St FlowError B) s :
  leads m s -> (forall a s', m s = (Ok a, s') -> leads (f a) s') -> leads (m ≫= f) s.
Proof.
  unfold leads. intros Hm Hf. destruct (m s) as [[a|x] s1] eqn:E1; cbn in Hm.
  - rewrite (SR_bind_run _ _ _ _ _ E1). eapply composes_trans; [exact Hm|by apply Hf].
  - by rewrite (SR_bind_err _ _ _ _ _ E1).
Qed.

Lemma every_bind {A B} (m : SR St FlowError A) (f : A -> SR St FlowError B) :
  every m -> (forall a, every (f a)) -> every (m ≫= f).
Proof. intros Hm Hf s. apply leads_bind; [apply Hm|]. intros a s' _. apply Hf. Qed.

(** Less is asked after a panic. *)
Lemma leads_expect {A} msg (m : SR St FlowError A) s :
  (forall s s', R false s s' -> R true s s') -> leads m s -> leads (expect msg m) s.
Proof. unfold leads, expect. intros Hf Hm. destruct (m s) as [[a|[causes|msg']] s']; [done|by apply Hf|done]. Qed.

(** Reading the state first. *)
Lemma every_get_bind {B} (f : St -> SR St FlowError B) :
  (forall s, R (panicked (fst (f s s))) s (snd (f s s))) -> every (sget ≫= f).
Proof. intros Hf s. apply Hf. Qed.

Lemma every_catch {A} (m : SR St FlowError A) : every m -> every (catch m).
Proof. intros Hm s. specialize (Hm s). unfold catch. by destruct (m s) as [[|[]]]. Qed.
Lemma every_required {A} msg (o : option A) : every (required msg o).
Proof. destruct o; [apply every_ret|apply every_fail]. Qed.
Lemma every_if {A} (b : bool) (m n : SR St FlowError A) : every m -> every n -> every (if b then m else n).
Proof. by destruct b. Qed.
Lemma every_for_each {A} (l : list A) f : (forall a, every (f a)) -> every (for_each l f).
Proof. intros Hf. induction l as [|a l IH]; [apply every_ret|]. apply every_bind; auto. Qed.

(** ... when the elements of the list matter. *)
Lemma every_for_each_in {A} (l : list A) f : (forall a, a ∈ l -> every (f a)) -> every (for_each l f).
Proof.
  induction l as [|a l IH]; intros Hf; [apply every_ret|]. apply every_bind; [apply Hf; set_solver|].
  intros []. apply IH. set_solver.
Qed.

End Every.

#[export] Hint Resolve every_ret every_fail every_sget every_lift every_bind every_catch every_required every_if
  every_for_each : every.
#[export] Hint Extern 1 (every _ (match ?x with _ => _ end)) => destruct x : every.
#[export] Hint Extern 1 (every _ (let '(_, _) := ?x in _)) => destruct x : every.
#[export] Hint Extern 5 (every _ _) => progress cbn zeta : every.
#[export] Hint Extern 0 (Composes _) => typeclasses eauto : every.

(** Proves [every] for an operation built of such computations. *)
Ltac prove_every := intros; cbn zeta; eauto 30 with every.

Lemma fmap_id_on {A} (f : A -> A) (l : list A) : (forall x, x ∈ l -> f x = x) -> f <$> l = l.
Proof.
  intros Hf. rewrite <- (list_fmap_id l) at 2. apply Forall_fmap_ext_1, Forall_forall. intros x Hx. by apply Hf.
Qed.

(** ** The confirmation of events

    [info] names an event of the processor: its identifier, whether it was
    removed, and its block. *)

Section ConfirmerOk.
Context {D : Type} (info : D -> option (string * bool * BlockNumber)) (required : Z).
Abbreviation C := (Confirmer D).

(** An event counts from its own block up to the tip of the view, or has not
    seen a block yet. *)
Definition event_ok (id : string) (e : ConfirmableEventWithData D) (t : Tracker) : Prop :=
  event_id (confirmation e) = id /\ req_confirmations (confirmation e) = required /\
  exists c removed, info (event_data e) = Some (id, removed, init c) /\
    observing (confirmation e) (init c) c t /\
    (last_block c = init c \/ exists tip, last (view_blocks t) = Some tip /\ last_block c = bu_number tip).

Record confirmer_ok (c : C) : Prop := {
  co_view : view_ok (blockchain_view c);
  co_cells : cells_ok (blockchain_view c);
  co_events id e : events_confirming c !! id = Some e -> event_ok id e (blockchain_view c)
}.

Definition snapshots_ok (m : gmap string (ConfirmableEventSnapshot * D)) : Prop :=
  forall id s, m !! id = Some s ->
    snap_id s.1 = id /\ snap_required s.1 = required /\
    exists removed, info s.2 = Some (id, removed, snap_start_block s.1).

Lemma confirmer_ok_new : confirmer_ok new_confirmer.
Proof. split; [by split|by intros ? ?|by intros ? ?]. Qed.

Lemma confirmer_ok_clear (c : C) :
  confirmer_ok (mkConfirmer ∅ (snd (clear_view (blockchain_view c)))) <-> cells_ok (blockchain_view c).
Proof. split; [by intros [_ Hc _]|]. intros Hc. split; [by split|exact Hc|by intros ? ?]. Qed.

(** A view in which an event is seen as before. *)
Lemma event_ok_view id e t t' :
  (forall c, observing (confirmation e) (init c) c t -> observing (confirmation e) (init c) c t') ->
  view_blocks t' = view_blocks t -> event_ok id e t -> event_ok id e t'.
Proof. intros Hobs Hv (Hid & Hreq & c & r & Hi & Ho & Hl). split_and!; [done..|]. exists c, r. rewrite Hv. auto. Qed.

Lemma remove_observer_observing id e k c t :
  event_id e <> id -> observing e k c t -> observing e k c (set_observers (delete id (observers t)) t).
Proof. intros Hne [Hcell Hcnt Hi Hr]. split; try done. intros cell Hc. cbn. rewrite lookup_delete_ne by done. auto. Qed.

Lemma stop_confirming_event_run id (c : C) :
  match events_confirming c !! id with
  | None => stop_confirming_event id c = (Ok None, c)
  | Some e => exists e' c', stop_confirming_event id c = (Ok (Some e'), c') /\ event_data e' = event_data e /\
      events_confirming c' = delete id (events_confirming c) /\ (confirmer_ok c -> confirmer_ok c')
  end.
Proof.
  unfold stop_confirming_event. rewrite SR_bind_run with (a := c) (s' := c) by done.
  destruct (events_confirming c !! id) as [e|] eqn:He; [|done].
  set (t' := set_observers (delete (event_id (confirmation e)) (observers (blockchain_view c))) (blockchain_view c)).
  rewrite SR_bind_run with (a := tt) (s' := mkConfirmer (delete id (events_confirming c)) (blockchain_view c)) by done.
  erewrite SR_bind_run with (s' := mkConfirmer (delete id (events_confirming c)) t') by done.
  erewrite SR_bind_run by done. unfold no_events. cbn [events_confirming].
  assert (Hdel : confirmer_ok c -> confirmer_ok (mkConfirmer (delete id (events_confirming c)) t')).
  { intros [Hv Hc Hev]. split; [exact Hv|exact Hc|]. cbn [events_confirming blockchain_view]. intros id2 e2 He2.
    apply lookup_delete_Some in He2 as [Hne He2]. pose proof (Hev _ _ He) as (Hid & _).
    eapply event_ok_view; [| |exact (Hev _ _ He2)]; [|done]. intros k Hobs. unfold t'.
    apply remove_observer_observing; [|done]. rewrite Hid. destruct (Hev _ _ He2) as [-> _]. done. }
  destruct (bool_decide_reflect (delete id (events_confirming c) = ∅)) as [Hempty|Hempty]; cbn;
    (eexists _, _; split_and!; [done|done|by rewrite ?Hempty|]); [|done].
  intros Hok. rewrite Hempty. apply (confirmer_ok_clear (mkConfirmer ∅ t')). exact (co_cells _ Hok).
Qed.

Lemma confirm_event_run what id block_num data removed (c : C) :
  confirmer_ok c -> info data = Some (id, removed, block_num) ->
  exists c', confirm_event what id required block_num data c = (Ok tt, c') /\ confirmer_ok c'.
Proof.
  intros [Hv Hcells Hev] Hi. unfold confirm_event.
  destruct (wp_start_confirming (new_event id required) block_num (blockchain_view c) (fun e' t' =>
    event_id e' = id /\ confirmer_ok (mkConfirmer (<[id := mkEventWithData e' data]> (events_confirming c)) t'))
    Hcells) as (e' & t' & Hr & Hid & Hok).
  { intros e' t' Hid Hreq Hobs Hblocks Hc' Hothers. cbn in Hid, Hreq, Hobs. split; [done|].
    split; cbn; [by unfold view_ok in *; rewrite Hblocks|done|]. intros id2 e2 He2.
    apply lookup_insert_Some in He2 as [[<- <-]|[Hne He2]].
    - split_and!; [done..|]. exists (new_confirmations id block_num required), removed. cbn. split_and!; [exact Hi|exact Hobs|by left].
    - eapply event_ok_view; [|done|exact (Hev _ _ He2)]. intros k. apply Hothers.
      destruct (Hev _ _ He2) as [-> _]. done. }
  exists (mkConfirmer (<[id := mkEventWithData e' data]> (events_confirming c)) t'). split; [|done].
  unfold context, on_tracker, zoom, mbind, SR_bind. rewrite Hr. cbn. by rewrite Hid.
Qed.

Lemma update_confirmer block (c c' : C) :
  confirmer_ok c -> 0 <= bu_number block < 2 ^ 64 - 1 -> on_tracker (update block) c = (Ok tt, c') ->
  confirmer_ok c' /\ events_confirming c' = events_confirming c.
Proof.
  intros [Hv Hcells Hev] Hn Hr. unfold on_tracker, zoom in Hr.
  destruct (update block (blockchain_view c)) as [r t'] eqn:Hu. injection Hr as -> <-. cbn. split; [|done].
  destruct (update_ok _ _ _ Hv Hn Hu) as [[_ ->]|(_ & Ha & Hacc)]; [by split|].
  split; cbn; [by eapply accepted_view_ok| |].
  - intros cell k Hk. rewrite (acc_next _ _ _ Hacc). rewrite (acc_cells _ _ _ Hacc) in Hk.
    rewrite notify_lookup in Hk by done.
    destruct (cells (blockchain_view c) !! cell) as [k0|] eqn:Hk0; [by eapply Hcells|by case_decide].
  - intros id e He. destruct (Hev _ _ He) as (Hid & Hreq & k & removed & Hi & Hobs & _).
    split_and!; [done..|]. exists (on_block_added block k), removed. split_and!; [done| |].
    + by eapply accepted_observing.
    + right. exists block. by rewrite (acc_blocks _ _ _ Hacc), last_snoc.
Qed.

(** A confirmed event lies deep enough below the tip. *)
Lemma confirmed_depth (c : C) id e :
  confirmer_ok c -> events_confirming c !! id = Some e ->
  is_confirmed (confirmation e) (blockchain_view c) = true ->
  exists removed n, info (event_data e) = Some (id, removed, n) /\
    (required <= 1 \/ exists tip, last (view_blocks (blockchain_view c)) = Some tip /\ n + required <= bu_number tip + 1).
Proof.
  intros Hok He Hc. destruct (co_events _ Hok _ _ He) as (_ & Hreq & k & removed & Hi & Hobs & Hl).
  exists removed, (init k). split; [done|]. rewrite (observing_confirmed _ _ _ _ Hobs), Hreq in Hc.
  apply Z.leb_le in Hc. destruct Hl as [Hl|(tip & Htip & Hl)]; [lia|].
  destruct (decide (required <= 0)); [lia|]. right. exists tip. split; [done|]. lia.
Qed.

Lemma snapshot_snapshots_ok (c : C) :
  confirmer_ok c -> snapshots_ok (snapshot_confirmable_events (events_confirming c) (blockchain_view c)).
Proof.
  intros Hok. rewrite snapshot_events_map.
  2: { intros id e He. destruct (co_events _ Hok _ _ He) as (Hid & _ & k & _ & _ & Hobs & _). eauto. }
  intros id s Hs. rewrite lookup_omap in Hs. destruct (events_confirming c !! id) as [e|] eqn:He; [|done].
  destruct (co_events _ Hok _ _ He) as (Hid & Hreq & k & removed & Hi & Hobs & _).
  cbn in Hs. unfold snapshot_with_data, snapshot in Hs. rewrite (obs_counter _ _ _ _ Hobs) in Hs.
  injection Hs as <-. cbn. split_and!; [done..|]. eauto.
Qed.

Lemma restore_confirmer (m : gmap string (ConfirmableEventSnapshot * D)) :
  snapshots_ok m -> exists es t, restore_confirmable_events m = (Ok es, t) /\ confirmer_ok (mkConfirmer es t).
Proof.
  intros Hm. destruct (restore_confirmable_events_run m) as (es & t & Hr & Hblocks & Hcells & Hdom & Hall).
  { intros id s Hs. by destruct (Hm _ _ Hs). }
  exists es, t. split; [done|]. split; cbn; [unfold view_ok; by rewrite Hblocks|done|]. intros id e He.
  assert (Hin : id ∈ dom m) by (rewrite <- Hdom; by eapply elem_of_dom_2). apply elem_of_dom in Hin as [s Hs].
  destruct (Hm _ _ Hs) as (Hid & Hreq & removed & Hi). destruct (Hall _ _ Hs) as (e' & He' & Hd & Hid' & Hreq' & Hobs).
  rewrite He in He'. injection He' as <-. split_and!; [congruence|congruence|].
  eexists (new_confirmations _ _ _), removed. cbn.
  split_and!; [rewrite Hd; exact Hi|exact Hobs|by left].
Qed.

End ConfirmerOk.

(** ** Operations that touch neither the flows nor the events *)

Section Framed.
Context {S D E X Q N : Type} `{!Filed S, HashOrder, !SignatureContracts E, EventPayloads}.
Abbreviation P := (Processor S D E X Q N).

Lemma on_services_run {A} (m : SR E FlowError A) (p : P) :
  on_services id m p = (let '(r, e) := m (penv p) in (r, set_env e p)).
Proof. unfold on_services. by destruct (m (penv p)) as [[] e]. Qed.

(** A service that the process cannot do without *)
Lemma expect_services {A} msg (m : SR E FlowError A) (p : P) :
  expect msg (on_services id m) p =
  match m (penv p) with
  | (Ok a, e) => (Ok a, set_env e p)
  | (Err (Chain _), e) => (Err (FlowPanic msg), set_env e p)
  | (Err (FlowPanic m'), e) => (Err (FlowPanic m'), set_env e p)
  end.
Proof. unfold expect, on_services. by destruct (m (penv p)) as [[a|[]] e]. Qed.

(** [R] does not look at the subflows and the services. *)
Class FramesServices (R : bool -> P -> P -> Prop) := {
  #[global] services_composes :: Composes R;
  frames_services b p sf e sc :
    R b p (mkProcessor (flows p) sf (confirmer p) (tables p) (disk p) (disk_tables p) e (ptrace p) sc)
}.

(** Nor at the tables. *)
Class Frames (R : bool -> P -> P -> Prop) := {
  #[global] frames_composes :: Composes R;
  frames b p sf t e sc :
    R b p (mkProcessor (flows p) sf (confirmer p) t (disk p) (disk_tables p) e (ptrace p) sc)
}.

#[export] Instance frames_frames_services R : Frames R -> FramesServices R.
Proof. intros HR. split; [apply _|]. intros. apply frames. Qed.

Lemma every_set_tables R f : Frames R -> every R (set_tables f).
Proof. intros HR p. apply frames. Qed.

Context (R : bool -> P -> P -> Prop) `{!FramesServices R}.

Lemma every_set_signature_flows f : every R (set_signature_flows f).
Proof. intros p. apply frames_services. Qed.
Lemma every_on_services {Y A} conv (m : SR E Y A) : every R (on_services conv m).
Proof. intros p. unfold on_services. destruct (m (penv p)) as [[a|y] e]; apply frames_services. Qed.
Lemma every_expect_services {A} msg (m : SR E FlowError A) : every R (expect msg (on_services id m)).
Proof. intros p. rewrite expect_services. destruct (m (penv p)) as [[a|[]] e]; apply frames_services. Qed.
Lemma every_with_signature {A} k (m : SR (BtcSignature.World E) failure A) : every R (with_signature k m).
Proof.
  intros p. unfold with_signature. destruct (signature_flows p !! k) as [[s t]|]; [|apply composes_refl].
  destruct (m _) as [r w]. apply frames_services.
Qed.
Lemma every_start_signature k log required parent data : every R (start_signature k log required parent data).
Proof. intros p. unfold start_signature. destruct (start_signature_flow _ _ _) as [[a|y] w]; apply frames_services. Qed.
Lemma every_read_tables {A} (f : Q -> A) : every R (read_tables f).
Proof. intros p. apply composes_refl. Qed.
Lemma every_find_flow pred : every R (find_flow pred).
Proof. intros p. apply composes_refl. Qed.
Lemma every_lookup_flow k : every R (lookup_flow k).
Proof. intros p. apply composes_refl. Qed.
Lemma every_signature_keys : every R signature_keys.
Proof. intros p. apply composes_refl. Qed.
Lemma every_signature_done k : every R (signature_done k).
Proof. intros p. apply composes_refl. Qed.

Hint Resolve every_with_signature every_signature_done every_signature_keys : every.

Lemma every_delegate_blocks block keys : every R (delegate_blocks block keys).
Proof. induction keys as [|k keys IH]; cbn [delegate_blocks]; prove_every. Qed.
Lemma every_delegate_signature_event event : every R (delegate_signature_event event).
Proof. unfold delegate_signature_event. prove_every. Qed.

End Framed.

#[export] Hint Resolve every_set_tables every_set_signature_flows every_on_services every_expect_services every_with_signature
  every_start_signature every_read_tables every_find_flow every_lookup_flow every_signature_keys every_signature_done
  every_delegate_blocks every_delegate_signature_event : every.
#[export] Hint Extern 0 (Frames _) => typeclasses eauto : every.
#[export] Hint Extern 0 (FramesServices _) => typeclasses eauto : every.

(** ** Confirming events *)

Section Confirming.
Context {S D E X Q N : Type} `{!Filed S, HashOrder}.
Abbreviation P := (Processor S D E X Q N).

Definition same_confirmer (b : bool) (p p' : P) : Prop := confirmer p' = confirmer p.

#[export] Instance same_confirmer_frames : Frames same_confirmer.
Proof. split; [split; [done|unfold same_confirmer; congruence]|done]. Qed.

Lemma same_confirmer_with_flow {A} k (m : SR (World S E X) FlowError A) : every same_confirmer (with_flow k m).
Proof. intros p. unfold with_flow. destruct (flows p !! k); [|done]. by destruct (m _). Qed.
Lemma same_confirmer_with_new_flow {A} s (m : SR (World S E X) FlowError A) :
  every same_confirmer (with_new_flow s m).
Proof. intros p. unfold with_new_flow. by destruct (m _) as [[]]. Qed.
Lemma same_confirmer_set_flows f : every same_confirmer (set_flows f).
Proof. by intros p. Qed.
Lemma same_confirmer_delete_stored f k : every same_confirmer (delete_stored f k).
Proof. unfold delete_stored. apply every_bind; [apply _|prove_every|]. by intros [] p. Qed.

Lemma same_confirmer_save_tables f snapshot : every same_confirmer (save_tables f snapshot).
Proof.
  unfold save_tables. apply every_bind; [apply _|prove_every|intros p]. apply every_bind; [apply _|prove_every|].
  by intros [] q.
Qed.

Lemma on_confirmer_run {A} (m : SR (Confirmer D) failure A) (p : P) :
  on_confirmer m p =
  (match fst (m (confirmer p)) with Ok a => Ok a | Err f => Err (from_failure f) end,
   set_confirmer (snd (m (confirmer p))) p).
Proof. unfold on_confirmer, lift, zoom. by destruct (m (confirmer p)) as [[a|f] c]. Qed.

Context (R : bool -> P -> P -> Prop) `{!Composes R} (process : D -> SR P FlowError unit).

Abbreviation process_key key :=
  (stopped ← on_confirmer (stop_confirming_event key);
   match stopped with Some e => process (event_data e) | None => mret tt end).

Hypothesis R_stop : forall id, every R (on_confirmer (stop_confirming_event id)).
Hypothesis process_confirmer : forall d, every same_confirmer (process d).

(** The events that are handled are among those there were. *)
Lemma process_keys_rule c1 l p :
  events_confirming (confirmer p) ⊆ events_confirming c1 ->
  (forall key e, key ∈ l -> events_confirming c1 !! key = Some e -> every R (process (event_data e))) ->
  let m := for_each l (fun key => process_key key) in R (panicked (fst (m p))) p (snd (m p)).
Proof.
  revert p. induction l as [|key l IH]; intros p Hsub Hproc; cbn [for_each]; [apply composes_refl|].
  pose proof (R_stop key p) as Hs.
  pose proof (stop_confirming_event_run (fun _ => None) 0 key (confirmer p)) as Hrun.
  assert (Hrest : forall q, events_confirming (confirmer q) ⊆ events_confirming c1 ->
    let m := for_each l (fun key => process_key key) in R (panicked (fst (m q))) q (snd (m q)))
    by (intros q Hq; apply IH; [done|set_solver]).
  assert (Hstop : on_confirmer (stop_confirming_event key) p =
    (match fst (stop_confirming_event key (confirmer p)) with Ok a => Ok a | Err f => Err (from_failure f) end,
     set_confirmer (snd (stop_confirming_event key (confirmer p))) p)) by apply on_confirmer_run.
  destruct (events_confirming (confirmer p) !! key) as [e|] eqn:He.
  - destruct Hrun as (e' & c' & Hr & Hd & Hev & _). rewrite Hr in Hstop. cbn in Hstop.
    rewrite Hstop in Hs. cbn in Hs.
    assert (He1 : events_confirming c1 !! key = Some e) by (by eapply lookup_weaken).
    pose proof (Hproc key e (ltac:(set_solver)) He1 (set_confirmer c' p)) as Hp.
    pose proof (process_confirmer (event_data e) (set_confirmer c' p)) as Hc. unfold same_confirmer in Hc.
    assert (Hk : process_key key p = process (event_data e) (set_confirmer c' p))
      by (rewrite (SR_bind_run _ _ _ _ _ Hstop); by rewrite Hd).
    destruct (process (event_data e) (set_confirmer c' p)) as [[[]|x] q] eqn:Hq; cbn in Hp, Hc.
    + rewrite (SR_bind_run _ _ _ _ _ Hk). eapply composes_trans; [eapply composes_trans; [exact Hs|exact Hp]|].
      apply Hrest. rewrite Hc. cbn. rewrite Hev. etransitivity; [apply delete_subseteq|done].
    + rewrite (SR_bind_err _ _ _ _ _ Hk). eapply composes_trans; [exact Hs|exact Hp].
  - rewrite Hrun in Hstop. cbn in Hstop. rewrite Hstop in Hs. cbn in Hs.
    assert (Hk : process_key key p = (Ok tt, set_confirmer (confirmer p) p))
      by (by rewrite (SR_bind_run _ _ _ _ _ Hstop)).
    rewrite (SR_bind_run _ _ _ _ _ Hk). eapply composes_trans; [exact Hs|]. by apply Hrest.
Qed.

Lemma confirm_block_rule block p :
  every R (on_confirmer (on_tracker (update block))) ->
  (forall c1 key e, on_tracker (update block) (confirmer p) = (Ok tt, c1) ->
     events_confirming c1 !! key = Some e -> is_confirmed (confirmation e) (blockchain_view c1) = true ->
     every R (process (event_data e))) ->
  R (panicked (fst (confirm_block block process p))) p (snd (confirm_block block process p)).
Proof.
  intros Hupd Hproc. unfold confirm_block. rewrite SR_bind_run with (a := p) (s' := p) by done.
  destruct (no_events (confirmer p)); [apply composes_refl|]. specialize (Hupd p).
  rewrite on_confirmer_run in Hupd.
  pose proof (on_confirmer_run (on_tracker (update block)) p) as Hrun.
  destruct (on_tracker (update block) (confirmer p)) as [[[]|f] c1] eqn:Hu; cbn in Hupd, Hrun.
  2: { rewrite (SR_bind_err _ _ _ _ _ Hrun). exact Hupd. }
  rewrite (SR_bind_run _ _ _ _ _ Hrun), SR_bind_run with (a := set_confirmer c1 p) (s' := set_confirmer c1 p) by done.
  set (q := set_confirmer c1 p) in *. set (l := shuffle (confirmed_keys (confirmer q))).
  assert (Hl : let m := for_each l (fun key => process_key key) in R (panicked (fst (m q))) q (snd (m q))).
  { apply (process_keys_rule c1); [done|]. intros key e Hkey He. apply (Hproc c1 key e); [done|done|].
    unfold l in Hkey. rewrite shuffle_perm in Hkey. unfold confirmed_keys in Hkey. cbn in Hkey.
    apply list_elem_of_fmap in Hkey as ([key' e'] & -> & Hin). apply list_elem_of_filter in Hin as [Hc Hin].
    apply elem_of_map_to_list in Hin. cbn in *. by replace e with e' by congruence. }
  cbn zeta in Hl. destruct (for_each l _ q) as [[[]|x] q'] eqn:Hq; cbn in Hl.
  - rewrite (SR_bind_run _ _ _ _ _ Hq). by eapply composes_trans.
  - rewrite (SR_bind_err _ _ _ _ _ Hq). by eapply composes_trans.
Qed.

End Confirming.

#[export] Hint Resolve same_confirmer_with_flow same_confirmer_with_new_flow same_confirmer_set_flows
  same_confirmer_delete_stored same_confirmer_save_tables : every.

(** ** The invariant of a processor

    [ok] is what a flow must satisfy, [stored_events] the events in the stored
    tables. *)

Section Invariant.
Context {S D E X Q N : Type} `{!Filed S, HashOrder} (ok : S -> Prop)
  (info : D -> option (string * bool * BlockNumber)) (required : Z)
  (stored_events : N -> gmap string (ConfirmableEventSnapshot * D)).
Abbreviation P := (Processor S D E X Q N).
Abbreviation W := (World S E X).

(** Every flow is filed under its own identifier and well formed. *)
Definition filed (m : gmap bytes S) : Prop := forall k s, m !! k = Some s -> filed_under s = k /\ ok s.

Record memory_ok (p : P) : Prop := {
  mem_flows : filed (flows p);
  mem_events : confirmer_ok info required (confirmer p)
}.

Record store_ok (p : P) : Prop := {
  store_flows : filed (disk p);
  store_events st : disk_tables p = Some st -> snapshots_ok info required (stored_events st)
}.

Definition inv (b : bool) (p p' : P) : Prop :=
  memory_ok p -> store_ok p -> (b = false -> memory_ok p') /\ store_ok p'.

#[export] Instance inv_frames : Frames inv.
Proof.
  split; [split|].
  - by intros b p ?.
  - intros b p1 p2 p3 H12 H23 Hm Hs. destruct (H12 Hm Hs) as [Hm2 Hs2]. apply H23; [by apply Hm2|done].
  - intros b p sf t e sc [] []. split; [intros _|]; by split.
Qed.

Lemma filed_empty : filed ∅.
Proof. by intros k s ?. Qed.
Lemma filed_insert m k s : filed m -> filed_under s = k -> ok s -> filed (<[k := s]> m).
Proof. intros Hm Hk Hs k' s' Hs'. apply lookup_insert_Some in Hs' as [[<- <-]|[_ Hs']]; auto. Qed.

(** Storing what a flow has saved. *)
Definition saves (s : S) (v v' : option S) : Prop :=
  v' = v \/ exists s', v' = Some s' /\ ok s' /\ filed_under s' = filed_under s.

Lemma filed_saved (m : gmap bytes S) s v :
  filed m -> saves s (m !! filed_under s) v -> filed (partial_alter (fun _ => v) (filed_under s) m).
Proof.
  intros Hm Hv k' s' Hs'. destruct (decide (filed_under s = k')) as [<-|Hne].
  2: { rewrite lookup_partial_alter_ne in Hs' by done. auto. }
  rewrite lookup_partial_alter_eq in Hs'. destruct Hv as [->|(s0 & -> & Hs0 & Hk)]; [auto|]. by injection Hs' as <-.
Qed.

(** What a flow must do for its processor: stay well formed and itself unless it
    panics, and save nothing else. *)
Definition well_behaved {A} (m : SR W FlowError A) : Prop :=
  forall w, ok (state w) -> (forall s, saved w = Some s -> ok s) ->
    (panicked (fst (m w)) = false -> ok (state (snd (m w))) /\ filed_under (state (snd (m w))) = filed_under (state w)) /\
    saves (state w) (saved w) (saved (snd (m w))).

Lemma well_behaved_keeps {A} (m : SR W FlowError A) : keeps m -> well_behaved m.
Proof. intros Hm w Hok _. destruct (Hm w) as [-> ->]. split; [done|by left]. Qed.

Lemma inv_set_flows f p : (filed (flows p) -> filed (f (flows p))) -> inv false p (snd (set_flows f p)).
Proof. intros Hf [Hfl Hev] [Hd Ht]. split; [|by split]. intros _. split; [by apply Hf|done]. Qed.

Lemma inv_with_flow {A} k (m : SR W FlowError A) : well_behaved m -> every inv (with_flow k m).
Proof.
  intros Hm p. unfold with_flow. destruct (flows p !! k) as [s|] eqn:Hs; [|by apply composes_refl].
  intros [Hfl Hev] [Hd Ht]. destruct (Hfl _ _ Hs) as [Hk Hsok]. set (w := mkWorld s _ _ _).
  destruct (Hm w Hsok) as [Hmem Hsave]; [by intros s' [_ ?]%Hd|]. destruct (m w) as [r w']. cbn in *.
  split; [intros Hp; destruct (Hmem Hp) as [Hok Hid]|]; (split; [|done]); cbn;
    [apply filed_insert; [done|congruence|done]|by apply filed_saved].
Qed.

(** A new flow that is filed once its first step succeeds. *)
Lemma inv_with_new_flow {A} s (m : SR W FlowError A) :
  well_behaved m -> ok s ->
  every inv (created ← with_new_flow s m; set_flows (<[filed_under s := created.2]>)).
Proof.
  intros Hm Hsok p [Hfl Hev] [Hd Ht]. unfold with_new_flow, mbind, SR_bind. set (w := mkWorld s _ _ _).
  destruct (Hm w Hsok) as [Hmem Hsave]; [by intros s' [_ ?]%Hd|]. destruct (m w) as [[a|x] w']; cbn in *.
  - destruct (Hmem eq_refl) as [Hok Hid].
    split; [intros _|]; (split; [|done]); cbn; [by apply filed_insert|by apply filed_saved].
  - split; [intros _; by split|]. split; [by apply filed_saved|done].
Qed.

(** The same for a flow that starts as [s], which may not be well formed yet, and
    may rely on what is stored under its name. *)
Definition kept {A} (s : S) (m : SR W FlowError A) : Prop :=
  forall w, state w = s -> (forall s', saved w = Some s' -> ok s' /\ filed_under s' = filed_under s) ->
    (panicked (fst (m w)) = false -> ok (state (snd (m w))) /\ filed_under (state (snd (m w))) = filed_under s) /\
    (forall s', saved (snd (m w)) = Some s' -> ok s' /\ filed_under s' = filed_under s).

Lemma filed_kept (m : gmap bytes S) s v :
  filed m -> (forall s', v = Some s' -> ok s' /\ filed_under s' = filed_under s) ->
  filed (partial_alter (fun _ => v) (filed_under s) m).
Proof.
  intros Hm Hv k' s' Hs'. destruct (decide (filed_under s = k')) as [<-|Hne].
  - rewrite lookup_partial_alter_eq in Hs'. by destruct (Hv _ Hs').
  - rewrite lookup_partial_alter_ne in Hs' by done. auto.
Qed.

Lemma inv_with_kept_flow {A} k (m : SR W FlowError A) : (forall s, ok s -> kept s m) -> every inv (with_flow k m).
Proof.
  intros Hm p. unfold with_flow. destruct (flows p !! k) as [s|] eqn:Hs; [|by apply composes_refl].
  intros [Hfl Hev] [Hd Ht]. destruct (Hfl _ _ Hs) as [Hk Hsok]. set (w := mkWorld s _ _ _).
  destruct (Hm s Hsok w eq_refl) as [Hmem Hsave]; [by intros s' [? ?]%Hd|]. destruct (m w) as [r w']. cbn in *.
  split; [intros Hp; destruct (Hmem Hp) as [Hok Hid]|]; (split; [|done]); cbn;
    [apply filed_insert; [done|congruence|done]|by apply filed_kept].
Qed.

Lemma inv_with_kept_new_flow {A} s (m : SR W FlowError A) :
  kept s m -> every inv (created ← with_new_flow s m; set_flows (<[filed_under s := created.2]>)).
Proof.
  intros Hm p [Hfl Hev] [Hd Ht]. unfold with_new_flow, mbind, SR_bind. set (w := mkWorld s _ _ _).
  destruct (Hm w eq_refl) as [Hmem Hsave]; [by intros s' [? ?]%Hd|]. destruct (m w) as [[a|x] w']; cbn in *.
  - destruct (Hmem eq_refl) as [Hok Hid].
    split; [intros _|]; (split; [|done]); cbn; [by apply filed_insert|by apply filed_kept].
  - split; [intros _; by split|]. split; [by apply filed_kept|done].
Qed.

Lemma inv_stop id : every inv (on_confirmer (stop_confirming_event id)).
Proof.
  intros p [Hfl Hev] [Hd Ht]. rewrite on_confirmer_run.
  pose proof (stop_confirming_event_run info required id (confirmer p)) as Hr.
  destruct (events_confirming (confirmer p) !! id) as [e|].
  - destruct Hr as (e' & c' & -> & _ & _ & Hok). cbn. split; [intros _; split; [done|]; by apply Hok|by split].
  - rewrite Hr. cbn. split; [intros _; by split|by split].
Qed.

Lemma inv_confirm what id removed n event :
  info event = Some (id, removed, n) -> every inv (on_confirmer (confirm_event what id required n event)).
Proof.
  intros Hi p [Hfl Hev] [Hd Ht]. rewrite on_confirmer_run.
  destruct (confirm_event_run _ _ what _ _ _ _ _ Hev Hi) as (c' & -> & Hok). cbn.
  split; [intros _; by split|by split].
Qed.

Lemma inv_update block : 0 <= bu_number block < 2 ^ 64 - 1 -> every inv (on_confirmer (on_tracker (update block))).
Proof.
  intros Hn p [Hfl Hev] [Hd Ht]. rewrite on_confirmer_run. split; [|by split]. cbn [fst snd].
  destruct (on_tracker (update block) (confirmer p)) as [[[]|f] c'] eqn:Hu; cbn [fst snd].
  - intros _. split; [done|]. by destruct (update_confirmer _ _ _ _ _ Hev Hn Hu).
  - destruct f as [chain|msg|]; cbn; try done. intros _. exfalso.
    unfold on_tracker, zoom in Hu. destruct (update block (blockchain_view (confirmer p))) as [r t] eqn:Hr.
    injection Hu as -> _. pose proof (co_view _ _ _ Hev) as Hv.
    destruct (known block (view_blocks (blockchain_view (confirmer p)))) eqn:Hk; [by rewrite update_known in Hr|].
    destruct (decide (accepts (view_blocks (blockchain_view (confirmer p))) block)) as [Ha|Ha].
    + destruct (update_accepts _ _ Hv Hn Hk Ha) as (? & ? & Hr' & _). congruence.
    + destruct (update_rejects _ _ Hv Hn Hk Ha) as (? & ? & Hr'). congruence.
Qed.

Lemma inv_clear : every inv (on_confirmer clear_confirmer).
Proof.
  intros p [Hfl [Hv Hc Hev]] [Hd Ht]. rewrite on_confirmer_run. split; [intros _|by split]. split; [done|].
  by apply confirmer_ok_clear.
Qed.

Lemma inv_delete_stored delete k : every inv (delete_stored delete k).
Proof.
  unfold delete_stored. apply every_bind; [apply _|prove_every|]. intros [] p [Hfl Hev] [Hd Ht].
  split; [intros _; by split|]. split; [|done]. cbn. intros k' s [_ Hs]%lookup_delete_Some. auto.
Qed.

Lemma inv_retain f `{!forall kv, Decision (f kv)} : every inv (set_flows (filter f)).
Proof. intros p. apply inv_set_flows. intros Hfl k s [Hs _]%map_lookup_filter_Some. auto. Qed.

Lemma inv_save_tables save snapshot :
  (forall p, stored_events (snapshot p) =
     snapshot_confirmable_events (events_confirming (confirmer p)) (blockchain_view (confirmer p))) ->
  every inv (save_tables save snapshot).
Proof.
  intros Hsnap p [Hfl Hev] [Hd Ht]. unfold save_tables, on_services, mbind, SR_bind. cbn.
  destruct (save (snapshot p) (penv p)) as [[u|x] e]; cbn; split; [intros _; by split| |intros _; by split|by split].
  split; [done|]. intros st [= <-]. rewrite Hsnap. by apply snapshot_snapshots_ok.
Qed.

(** Flows are restored under their own identifiers. *)
Lemma restored_flows (d : gmap bytes S) :
  filed d -> list_to_map ((fun s => (filed_under s, s)) <$> (shuffle (map_to_list d)).*2) = d.
Proof.
  intros Hd. rewrite <- list_fmap_compose. rewrite <- (list_to_map_to_list d) at 2.
  assert (Heq : ((fun s => (filed_under s, s)) ∘ snd) <$> shuffle (map_to_list d) = shuffle (map_to_list d)).
  { apply fmap_id_on. intros [k s] Hin. rewrite shuffle_perm in Hin. apply elem_of_map_to_list in Hin.
    cbn. by destruct (Hd _ _ Hin) as [-> _]. }
  rewrite Heq. apply list_to_map_proper; [|apply shuffle_perm]. rewrite shuffle_perm. apply NoDup_fst_map_to_list.
Qed.
Lemma filed_restored (d : gmap bytes S) :
  filed d -> filed (list_to_map ((fun s => (filed_under s, s)) <$> (shuffle (map_to_list d)).*2)).
Proof. intros Hd. by rewrite restored_flows. Qed.

End Invariant.

(** ** What a processor does on its own account *)

Section Acts.
Context {S D E X Q N : Type} `{!Filed S, HashOrder} (A : X -> Prop) (B : bytes -> Prop).
Abbreviation P := (Processor S D E X Q N).
Abbreviation W := (World S E X).

(** Every new effect satisfies [A], and every new flow [B]. *)
Definition acts (b : bool) (p p' : P) : Prop :=
  (exists l, ptrace p' = ptrace p ++ l /\ Forall A l) /\
  (forall k, is_Some (flows p' !! k) -> is_Some (flows p !! k) \/ B k).

Lemma acts_same b (p p' : P) : ptrace p' = ptrace p -> flows p' = flows p -> acts b p p'.
Proof. intros Ht Hf. split; [exists []; by rewrite app_nil_r|rewrite Hf; auto]. Qed.

#[export] Instance acts_frames : Frames acts.
Proof.
  split; [split|]; [intros; by apply acts_same| |intros; by apply acts_same].
  intros b p1 p2 p3 [(l & Hl & HA) HB] [(l' & Hl' & HA') HB']. split.
  - exists (l ++ l'). rewrite Hl', Hl, app_assoc. split; [done|by apply Forall_app].
  - intros k Hk. destruct (HB' k Hk); auto.
Qed.

Lemma acts_set_flows f p :
  (forall k, is_Some (f (flows p) !! k) -> is_Some (flows p !! k) \/ B k) -> acts false p (snd (set_flows f p)).
Proof. intros Hf. split; [exists []; by rewrite app_nil_r|done]. Qed.

Lemma acts_insert k s : B k -> every acts (set_flows (<[k := s]>)).
Proof.
  intros Hk p. apply acts_set_flows. intros k' Hk'. destruct (decide (k = k')) as [<-|]; [by right|].
  rewrite lookup_insert_ne in Hk' by done. by left.
Qed.

Lemma acts_with_flow {T} k (m : SR W FlowError T) : adds A m -> every acts (with_flow k m).
Proof.
  intros Hm p. unfold with_flow. destruct (flows p !! k) as [s|] eqn:Hs; [|apply composes_refl].
  set (w := mkWorld s _ _ _). destruct (Hm w) as (l & Hl & HA). destruct (m w) as [r w']. cbn in *.
  split; [by exists l|]. intros k' Hk'. left. destruct (decide (k = k')) as [<-|]; [by rewrite Hs|].
  cbn in Hk'. by rewrite lookup_insert_ne in Hk'.
Qed.

Lemma acts_with_new_flow {T} s (m : SR W FlowError T) : adds A m -> every acts (with_new_flow s m).
Proof.
  intros Hm p. unfold with_new_flow. set (w := mkWorld s _ _ _). destruct (Hm w) as (l & Hl & HA).
  destruct (m w) as [[] w']; cbn in *; (split; [by exists l|auto]).
Qed.

Lemma acts_on_confirmer {T} (m : SR _ failure T) : every acts (on_confirmer m).
Proof. intros p. rewrite on_confirmer_run. by apply acts_same. Qed.

Lemma acts_retain f `{!forall kv, Decision (f kv)} : every acts (set_flows (filter f)).
Proof. intros p. apply acts_set_flows. intros k [s [Hs _]%map_lookup_filter_Some]. rewrite Hs. eauto. Qed.

Lemma acts_clear : every acts (set_flows (fun _ => ∅)).
Proof. intros p. apply acts_set_flows. by intros k [s ?]. Qed.

Lemma acts_delete_stored delete k : every acts (delete_stored delete k).
Proof.
  unfold delete_stored. apply every_bind; [apply _|prove_every|]. intros [] p. by apply acts_same.
Qed.

Lemma acts_save_tables save snapshot : every acts (save_tables save snapshot).
Proof.
  unfold save_tables. apply every_bind; [apply _|prove_every|intros q].
  apply every_bind; [apply _|prove_every|]. intros [] p. by apply acts_same.
Qed.

End Acts.

(** *** Final events *)

Section Final.
Context {S D E X Q N : Type} (info : D -> option (string * bool * BlockNumber)) (required : Z).
Abbreviation P := (Processor S D E X Q N).

(** An event that waits for confirmations and has them with this block: its own
    block lies deep enough below the tip of the view (a required number of one
    needs no further block). *)
Definition final (p : P) (block : RskBlockAndUncles) (event : D) : Prop :=
  exists c key e removed n,
    on_tracker (update block) (confirmer p) = (Ok tt, c) /\
    events_confirming (confirmer p) !! key = Some e /\ event_data e = event /\
    info event = Some (key, removed, n) /\
    (required <= 1 \/
     exists tip, last (view_blocks (blockchain_view c)) = Some tip /\ n + required <= bu_number tip + 1).

Lemma confirmed_final p block c key e :
  confirmer_ok info required (confirmer p) -> 0 <= bu_number block < 2 ^ 64 - 1 ->
  on_tracker (update block) (confirmer p) = (Ok tt, c) -> events_confirming c !! key = Some e ->
  is_confirmed (confirmation e) (blockchain_view c) = true -> final p block (event_data e).
Proof.
  intros Hok Hn Hu He Hc. destruct (update_confirmer _ _ _ _ _ Hok Hn Hu) as [Hok' Hev].
  destruct (confirmed_depth _ _ _ _ _ Hok' He Hc) as (removed & n & Hi & Hdepth). rewrite Hev in He.
  by exists c, key, e, removed, n.
Qed.

End Final.
