(* ===== verification/PeginFlow.v ===== *)
(** * The peg-in state machine (crates/coordinator/src/flows/pegin/pegin_flow.rs)

    One peg-in, from the Bitcoin transaction BitVMX finds to the acceptance on
    Rootstock.  [FlowContext] collects what the steps learn; [complete_step]
    checks the data against the current step, records them and enters the next
    step; [start_step] performs the entry action and stores the state.  The
    contracts, the broker, the store and the markers are an interface with a
    state of its own whose operations may fail; contract calls and messages are
    recorded in order. *)

From stdpp Require Import prelude strings pretty.
From S2P Require Import Prelude Types Bitvmx NativeBridge Flow.
Open Scope Z_scope.

(** ** Steps and data *)

Inductive Steps :=
| StepPeginTransactionFound
| StepRequestPeginSpvProof
| StepWaitPeginRequested
| StepGetCommInfoAuthoritativeCheckpoint
| StepPreparePeginSetup
| StepRequestOperatorTakeTransactionInfo
| StepRequestOperatorWonTransactionInfo
| StepAddOperatorTakeHash
| StepWaitAllOperatorTakeTxidsAdded
| StepWaitAcceptPeginSignaturesReadyAllConvergeCheckpoint
| StepDispatchAcceptPeginTransactionAllConvergeCheckpoint
| StepConfirmAcceptPeginTransaction
| StepRequestAcceptPeginSpvProof
| StepAcceptPegin
| StepDone
| StepFailed.

#[export] Instance Steps_eq_dec : EqDecision Steps.
Proof. solve_decision. Defined.

Definition allows_fast_forward_to_pegin_accepted (s : Steps) : bool :=
  match s with
  | StepDispatchAcceptPeginTransactionAllConvergeCheckpoint | StepConfirmAcceptPeginTransaction
  | StepRequestAcceptPeginSpvProof | StepAcceptPegin => true
  | _ => false
  end.

(** The events of the contracts, the messages of BitVMX and the answers of the
    gateway, with the fields in use. *)
Record PeginRequested := mkPeginRequested {
  pr_committeeId : Z;
  pr_slotId : Z;
  pr_rskDestinationAddress : Address;
  pr_btcReimbursementPubKey : bytes;
  pr_acceptPeginSignatureMessage : bytes;
  pr_requestPeginTxid : Hash256;
  pr_acceptPeginTxid : Hash256
}.

Record PeginAccepted := mkPeginAccepted {
  pa_acceptPeginTxid : Hash256;
  pa_rskDestinationAddress : Address;
  pa_rbtcAmount : Z
}.

Record PeginAcceptedMessage := mkAcceptedMessage {
  am_accept_pegin_txid : bytes;
  am_accept_pegin_nonce : bytes;
  am_accept_pegin_signature : bytes
}.

Section Types.
Context `{FlowCodecs}.

Record PeginRequestMessage := mkRequestMessage {
  rm_txid : bytes;
  rm_amount : Z;
  rm_accept_pegin_sighash : bytes;
  rm_take_aggregated_key : PublicKey;
  rm_operator_indexes : list Z;
  rm_slot_index : Z;
  rm_committee_id : bytes;
  rm_rootstock_address : string;
  rm_reimbursement_pubkey : PublicKey
}.

Inductive StepData :=
| DataPeginTransactionFound
| DataRequestPeginSpvProof (spv_proof : BtcTxSPVProof)
| DataRetryRequestPegin
| DataPeginRequested (e : PeginRequested)
| DataCommInfo (comm_info : CommsAddress)
| DataBitvmxPeginAccepted (accepted : PeginAcceptedMessage)
| DataTransactionInfo (tx_name : string) (txid : bytes)
| DataOperatorTakeHashAdded
| DataAllOperatorTakeTxidsAdded
| DataAcceptPeginSignaturesReady
| DataAcceptPeginTransactionDispatched
| DataAcceptPeginTransactionConfirmed (tx_status : TransactionStatus)
| DataAcceptPeginSpvProof (spv_proof : BtcTxSPVProof)
| DataRetryAcceptPegin
| DataPeginAccepted (e : PeginAccepted).

Record FlowContext := mkContext {
  request_pegin_btc_tx_id : bytes;
  step : Steps;
  bitvmx_protocol_id : option bytes;
  request_pegin_spv_proof : option BtcTxSPVProof;
  pegin_requested : option PeginRequested;
  my_p2p_address : option CommsAddress;
  committee_output : option GetCommitteeOutput;
  bitvmx_pegin_accepted : option PeginAcceptedMessage;
  operator_take_txid : option bytes;
  operator_won_txid : option bytes;
  accept_pegin_spv_proof : option BtcTxSPVProof;
  accept_pegin_tx_status : option TransactionStatus;
  pegin_accepted : option PeginAccepted;
  op_role : option ParticipantRole
}.

Record State := mkState { flow_id : bytes; ctx : FlowContext; created_at : option Z }.

(** The messages to BitVMX in use; a variable carries the value before it is
    printed as JSON. *)
Inductive BitvmxMessage :=
| SetVarPeginRequest (id : bytes) (value : PeginRequestMessage)
| SetVarPeginAccepted (id : bytes) (value : PeginAccepted)
| Setup (id : bytes) (program_type : string) (addresses : list CommsAddress) (leader : Z)
| GetCommInfo (id : bytes)
| GetTransaction (id txid : bytes)
| GetTransactionInfoByName (id : bytes) (name : string)
| GetSPVProof (txid : bytes)
| DispatchTransactionName (id : bytes) (name : string).

Inductive Call :=
| RequestPegin (spv_proof : BtcTxSPVProof)
| AcceptPegin (spv_proof : BtcTxSPVProof)
| AddOperatorTakeTxHash (accept_pegin_tx_hash take_tx_hash won_tx_hash : bytes).

Inductive Effect :=
| Sent (msg : BitvmxMessage)
| Called (c : Call)
| Marked (protocol_id : bytes).

(** Contracts gateway, broker, store and completion markers. *)
Class PeginServices (E : Type) := {
  contract_call : Call -> SR E DomainErrors unit;
  broker_send : BitvmxMessage -> SR E FlowError unit;
  save_flow : State -> SR E FlowError unit;
  signal_done : bytes -> SR E FlowError unit
}.

End Types.

(** The flow with its services, what the store holds for it and what was done. *)
Abbreviation World E := (Flow.World State E Effect).

(** Updates of a context, one per field that is written. *)

Section Updates.
Context `{FlowCodecs}.

Definition set_step v (c : FlowContext) : FlowContext :=
  mkContext (request_pegin_btc_tx_id c) v (bitvmx_protocol_id c) (request_pegin_spv_proof c)
    (pegin_requested c) (my_p2p_address c) (committee_output c) (bitvmx_pegin_accepted c)
    (operator_take_txid c) (operator_won_txid c) (accept_pegin_spv_proof c) (accept_pegin_tx_status c)
    (pegin_accepted c) (op_role c).
Definition set_bitvmx_protocol_id v (c : FlowContext) : FlowContext :=
  mkContext (request_pegin_btc_tx_id c) (step c) (Some v) (request_pegin_spv_proof c) (pegin_requested c)
    (my_p2p_address c) (committee_output c) (bitvmx_pegin_accepted c) (operator_take_txid c)
    (operator_won_txid c) (accept_pegin_spv_proof c) (accept_pegin_tx_status c) (pegin_accepted c) (op_role c).
Definition set_request_pegin_spv_proof v (c : FlowContext) : FlowContext :=
  mkContext (request_pegin_btc_tx_id c) (step c) (bitvmx_protocol_id c) (Some v) (pegin_requested c)
    (my_p2p_address c) (committee_output c) (bitvmx_pegin_accepted c) (operator_take_txid c)
    (operator_won_txid c) (accept_pegin_spv_proof c) (accept_pegin_tx_status c) (pegin_accepted c) (op_role c).
Definition set_pegin_requested v (c : FlowContext) : FlowContext :=
  mkContext (request_pegin_btc_tx_id c) (step c) (bitvmx_protocol_id c) (request_pegin_spv_proof c) (Some v)
    (my_p2p_address c) (committee_output c) (bitvmx_pegin_accepted c) (operator_take_txid c)
    (operator_won_txid c) (accept_pegin_spv_proof c) (accept_pegin_tx_status c) (pegin_accepted c) (op_role c).
Definition set_my_p2p_address v (c : FlowContext) : FlowContext :=
  mkContext (request_pegin_btc_tx_id c) (step c) (bitvmx_protocol_id c) (request_pegin_spv_proof c)
    (pegin_requested c) (Some v) (committee_output c) (bitvmx_pegin_accepted c) (operator_take_txid c)
    (operator_won_txid c) (accept_pegin_spv_proof c) (accept_pegin_tx_status c) (pegin_accepted c) (op_role c).
Definition set_committee_output v (c : FlowContext) : FlowContext :=
  mkContext (request_pegin_btc_tx_id c) (step c) (bitvmx_protocol_id c) (request_pegin_spv_proof c)
    (pegin_requested c) (my_p2p_address c) (Some v) (bitvmx_pegin_accepted c) (operator_take_txid c)
    (operator_won_txid c) (accept_pegin_spv_proof c) (accept_pegin_tx_status c) (pegin_accepted c) (op_role c).
Definition set_bitvmx_pegin_accepted v (c : FlowContext) : FlowContext :=
  mkContext (request_pegin_btc_tx_id c) (step c) (bitvmx_protocol_id c) (request_pegin_spv_proof c)
    (pegin_requested c) (my_p2p_address c) (committee_output c) (Some v) (operator_take_txid c)
    (operator_won_txid c) (accept_pegin_spv_proof c) (accept_pegin_tx_status c) (pegin_accepted c) (op_role c).
Definition set_operator_take_txid v (c : FlowContext) : FlowContext :=
  mkContext (request_pegin_btc_tx_id c) (step c) (bitvmx_protocol_id c) (request_pegin_spv_proof c)
    (pegin_requested c) (my_p2p_address c) (committee_output c) (bitvmx_pegin_accepted c) (Some v)
    (operator_won_txid c) (accept_pegin_spv_proof c) (accept_pegin_tx_status c) (pegin_accepted c) (op_role c).
Definition set_operator_won_txid v (c : FlowContext) : FlowContext :=
  mkContext (request_pegin_btc_tx_id c) (step c) (bitvmx_protocol_id c) (request_pegin_spv_proof c)
    (pegin_requested c) (my_p2p_address c) (committee_output c) (bitvmx_pegin_accepted c)
    (operator_take_txid c) (Some v) (accept_pegin_spv_proof c) (accept_pegin_tx_status c) (pegin_accepted c)
    (op_role c).
Definition set_accept_pegin_spv_proof v (c : FlowContext) : FlowContext :=
  mkContext (request_pegin_btc_tx_id c) (step c) (bitvmx_protocol_id c) (request_pegin_spv_proof c)
    (pegin_requested c) (my_p2p_address c) (committee_output c) (bitvmx_pegin_accepted c)
    (operator_take_txid c) (operator_won_txid c) (Some v) (accept_pegin_tx_status c) (pegin_accepted c)
    (op_role c).
Definition set_accept_pegin_tx_status v (c : FlowContext) : FlowContext :=
  mkContext (request_pegin_btc_tx_id c) (step c) (bitvmx_protocol_id c) (request_pegin_spv_proof c)
    (pegin_requested c) (my_p2p_address c) (committee_output c) (bitvmx_pegin_accepted c)
    (operator_take_txid c) (operator_won_txid c) (accept_pegin_spv_proof c) (Some v) (pegin_accepted c)
    (op_role c).
Definition set_pegin_accepted v (c : FlowContext) : FlowContext :=
  mkContext (request_pegin_btc_tx_id c) (step c) (bitvmx_protocol_id c) (request_pegin_spv_proof c)
    (pegin_requested c) (my_p2p_address c) (committee_output c) (bitvmx_pegin_accepted c)
    (operator_take_txid c) (operator_won_txid c) (accept_pegin_spv_proof c) (accept_pegin_tx_status c)
    (Some v) (op_role c).
Definition set_op_role v (c : FlowContext) : FlowContext :=
  mkContext (request_pegin_btc_tx_id c) (step c) (bitvmx_protocol_id c) (request_pegin_spv_proof c)
    (pegin_requested c) (my_p2p_address c) (committee_output c) (bitvmx_pegin_accepted c)
    (operator_take_txid c) (operator_won_txid c) (accept_pegin_spv_proof c) (accept_pegin_tx_status c)
    (pegin_accepted c) (Some v).

End Updates.

(** ** Operations *)

Section Flow.
Context `{FlowCodecs, !CommitteeServices E, !PeginServices E, !BridgeNode E, Sha256} (verifier : NativeBridgeVerifier).
Abbreviation W := (World E).

Definition get_ctx : SR W FlowError FlowContext := w ← sget; mret (ctx (state w)).

Definition set_ctx (f : FlowContext -> FlowContext) : SR W FlowError unit :=
  smodify (fun w => mkWorld (mkState (flow_id (state w)) (f (ctx (state w))) (created_at (state w)))
                      (saved w) (env w) (trace w)).

(** [from_saved_state] and [new] *)
Definition from_saved_state (s : State) (e : E) (t : list Effect) : W := mkWorld s (Some s) e t.

Definition new_flow (btc_tx_id id : bytes) (now : Z) (e : E) : W :=
  mkWorld (mkState id (mkContext btc_tx_id StepPeginTransactionFound None None None None None None None None
                         None None None None) (Some now)) None e [].

Definition flow_id_from_request_pegin_txid (txid : bytes) : bytes := from_tx "pegin_flow" txid.

Definition persist_state : SR W FlowError unit := persist_with save_flow.

Definition send_bitvmx_msg (msg : BitvmxMessage) : SR W FlowError unit :=
  send_with (broker_send msg) (Sent msg).

Definition get_protocol_id : SR W FlowError bytes :=
  c ← get_ctx; required "bitvmx_protocol_id not yet set" (bitvmx_protocol_id c).

Definition get_accept_pegin_txid_from_bitvmx_var (c : FlowContext) : option bytes :=
  am_accept_pegin_txid <$> bitvmx_pegin_accepted c.

(** *** Requests to BitVMX *)

Definition request_pegin_spv_proof_msg : SR W FlowError unit :=
  c ← get_ctx; send_bitvmx_msg (GetSPVProof (request_pegin_btc_tx_id c)).

Definition request_bitvmx_comm_info : SR W FlowError unit :=
  req_id ← on_env id new_v4; send_bitvmx_msg (GetCommInfo req_id).

Fixpoint position_of (addr : Address) (i : Z) (l : list Member) : option Z :=
  match l with
  | [] => None
  | m :: l => if bool_decide (memberAddress m = addr) then Some i else position_of addr (i + 1) l
  end.

Definition my_committee_index : SR W FlowError Z :=
  c ← get_ctx;
  out ← required "Committee output not found" (committee_output c);
  required "Address not found in committee members" (position_of my_address 0 (members out)).

Definition indexed_name (prefix : string) (index : Z) : string := prefix +:+ "_" +:+ pretty index.

Definition operator_take_transaction_name : SR W FlowError string :=
  member_index ← my_committee_index; mret (indexed_name "OPERATOR_TAKE_TX" member_index).
Definition operator_won_transaction_name : SR W FlowError string :=
  member_index ← my_committee_index; mret (indexed_name "OPERATOR_WON_TX" member_index).

Definition request_operator_take_transaction_info : SR W FlowError unit :=
  id ← get_protocol_id; name ← operator_take_transaction_name;
  send_bitvmx_msg (GetTransactionInfoByName id name).
Definition request_operator_won_transaction_info : SR W FlowError unit :=
  id ← get_protocol_id; name ← operator_won_transaction_name;
  send_bitvmx_msg (GetTransactionInfoByName id name).

Definition dispatch_transaction : SR W FlowError unit :=
  id ← get_protocol_id; send_bitvmx_msg (DispatchTransactionName id "ACCEPT_PEGIN_TX").

Definition request_transaction_status : SR W FlowError unit :=
  c ← get_ctx;
  tx_id ← required "Expected accept pegin tx_id not found" (get_accept_pegin_txid_from_bitvmx_var c);
  id ← get_protocol_id; send_bitvmx_msg (GetTransaction id tx_id).

Definition request_spv_proof : SR W FlowError unit :=
  c ← get_ctx;
  tx_id ← required "Expected accept pegin tx_id not found" (get_accept_pegin_txid_from_bitvmx_var c);
  send_bitvmx_msg (GetSPVProof tx_id).

Definition send_pegin_accepted_to_bitvmx : SR W FlowError unit :=
  c ← get_ctx;
  e ← required "PeginAccepted data not available" (pegin_accepted c);
  id ← get_protocol_id; send_bitvmx_msg (SetVarPeginAccepted id e).

Definition write_completion_marker : SR W FlowError unit :=
  id ← get_protocol_id; send_with (signal_done id) (Marked id).

(** *** Contract calls *)

Definition call (c : Call) : SR W DomainErrors unit := call_with (contract_call c) (Called c).

Definition accept_pegin (spv_proof : BtcTxSPVProof) : SR W FlowError unit :=
  map_err (with_context "Failed to accept pegin with provided SPV proof")
    (invoke_contract_safe spv_proof verifier (call (AcceptPegin spv_proof))).

(** A peg-in that is already requested counts as requested. *)
Definition already_requested (m : SR W DomainErrors unit) : SR W DomainErrors unit :=
  fun w => match m w with (Err (PeginAlreadyRequested _), w) => (Ok tt, w) | r => r end.

Definition request_pegin (spv_proof : BtcTxSPVProof) : SR W FlowError unit :=
  map_err (with_context "Failed to request pegin with provided SPV proof")
    (already_requested (invoke_contract_safe spv_proof verifier (call (RequestPegin spv_proof)))).

Definition try_get_op_role : SR W FlowError ParticipantRole :=
  c ← get_ctx; required "Operator role not found in context" (op_role c).

Definition add_operator_take_hash : SR W FlowError unit :=
  role ← try_get_op_role;
  if negb (bool_decide (role = Prover)) then mret tt else
  c ← get_ctx;
  accepted ← required "BitVMX pegin accepted message not found" (bitvmx_pegin_accepted c);
  take_tx_hash ← required "operator_take_txid missing in pegin flow state" (operator_take_txid c);
  won_tx_hash ← required "operator_won_txid missing in pegin flow state" (operator_won_txid c);
  map_err domain (call (AddOperatorTakeTxHash (am_accept_pegin_txid accepted) take_tx_hash won_tx_hash)).

(** *** Preparing the setup *)

Definition find_member (addr : Address) (l : list Member) : option Member :=
  head (filter (fun m => memberAddress m = addr) l).

Definition calc_op_role : SR W FlowError ParticipantRole :=
  c ← get_ctx;
  out ← required "Committee output not found" (committee_output c);
  member ← required "Address not found in committee members" (find_member my_address (members out));
  if role member =? 1 then mret Prover else if role member =? 2 then mret Verifier
  else sfail (Chain [Msg "Failed to convert u8 role to ParticipantRole"; Msg "Invalid member role"]).

Definition extract_pegin_amount : SR W FlowError Z :=
  c ← get_ctx;
  spv_proof ← required "Request pegin SPV proof not available" (request_pegin_spv_proof c);
  required "Request pegin BTC transaction has no outputs" (head (output_values (tx spv_proof))).

Fixpoint operator_indexes_from (i : Z) (l : list Member) : list Z :=
  match l with
  | [] => []
  | m :: l =>
      if role m =? role_to_u8 Prover then i :: operator_indexes_from (i + 1) l
      else operator_indexes_from (i + 1) l
  end.
Definition build_operator_indexes (out : GetCommitteeOutput) : list Z :=
  operator_indexes_from 0 (members out).

(** [str::get(2..)] of an ASCII string *)
Definition get_from_2 (s : string) : option string :=
  match s with String _ (String _ s) => Some s | _ => None end.

Definition build_pegin_request_message (event : PeginRequested) (out : GetCommitteeOutput) (amount : Z)
    : SR W FlowError PeginRequestMessage :=
  rootstock_address ← required "RSK address checksum too short"
                        (get_from_2 (to_checksum (pr_rskDestinationAddress event)));
  take_aggregated_key ← required "Failed to parse aggregated public key from committee"
                          (public_key_from_slice (aggregatedKey out));
  reimbursement_pubkey ← required "Failed to parse reimbursement public key from pegin event"
                           (even_public_key_from_slice (pr_btcReimbursementPubKey event));
  mret (mkRequestMessage (fb_32_to_txid (pr_requestPeginTxid event)) amount
          (pr_acceptPeginSignatureMessage event) take_aggregated_key (build_operator_indexes out)
          (pr_slotId event) (uuid_from_u128 (pr_committeeId event)) rootstock_address reimbursement_pubkey).

Definition send_pegin_request_to_bitvmx (committee_id : Z) : SR W FlowError unit :=
  out ← on_env domain (get_committee committee_id);
  _ ← set_ctx (set_committee_output out);
  r ← calc_op_role;
  _ ← set_ctx (set_op_role r);
  c ← get_ctx;
  requested ← required "PeginRequested data not available" (pegin_requested c);
  amount ← extract_pegin_amount;
  pegin_request ← build_pegin_request_message requested out amount;
  id ← get_protocol_id;
  send_bitvmx_msg (SetVarPeginRequest id pegin_request).

Definition get_committee_pubkey_hashes (committee_id : Z) : SR W FlowError (list string) :=
  out ← on_env domain (get_committee committee_id); pubkey_hashes_of (members out).

Definition send_setup_to_bitvmx (committee_id : Z) : SR W FlowError unit :=
  addresses ← get_committee_addresses committee_id;
  pubkey_hashes ← get_committee_pubkey_hashes committee_id;
  c ← get_ctx;
  mine ← required "P2P address not available for setup" (my_p2p_address c);
  comms_addresses ← map_err from_failure
    (build_communication_data (socket_addr_to_string (address mine)) addresses pubkey_hashes);
  id ← get_protocol_id;
  send_bitvmx_msg (Setup id "accept_pegin" comms_addresses 0).

Definition prepare_pegin_setup : SR W FlowError unit :=
  c ← get_ctx;
  requested ← required "PeginRequested data not available" (pegin_requested c);
  _ ← send_pegin_request_to_bitvmx (pr_committeeId requested);
  send_setup_to_bitvmx (pr_committeeId requested).

(** *** The state machine *)

Definition retry_request_pegin_step : SR W FlowError Steps :=
  c ← get_ctx;
  spv_proof ← required "SPV proof not available for pegin request" (request_pegin_spv_proof c);
  _ ← request_pegin spv_proof;
  mret StepWaitPeginRequested.

Definition handle_operator_take_transaction_info (tx_name : string) (txid : bytes) : SR W FlowError Steps :=
  expected ← operator_take_transaction_name;
  if negb (bool_decide (tx_name = expected)) then flow_bail "Unexpected transaction info in step" else
  _ ← set_ctx (set_operator_take_txid txid);
  mret StepRequestOperatorWonTransactionInfo.

Definition handle_operator_won_transaction_info (tx_name : string) (txid : bytes) : SR W FlowError Steps :=
  expected ← operator_won_transaction_name;
  if negb (bool_decide (tx_name = expected)) then flow_bail "Unexpected transaction info in step" else
  _ ← set_ctx (set_operator_won_txid txid);
  mret StepAddOperatorTakeHash.

Definition confirm_accept_pegin_transaction (tx_status : TransactionStatus) : SR W FlowError Steps :=
  c ← get_ctx;
  expected ← required "Expected accept pegin txid not found" (get_accept_pegin_txid_from_bitvmx_var c);
  if negb (bool_decide (ts_tx_id tx_status = expected)) then flow_bail "transaction status txId mismatch" else
  _ ← set_ctx (set_accept_pegin_tx_status tx_status);
  mret StepRequestAcceptPeginSpvProof.

Definition complete_with_confirmed_pegin_acceptance (e : PeginAccepted) : SR W FlowError Steps :=
  c ← get_ctx;
  expected ← required "Expected accept pegin txid not found" (get_accept_pegin_txid_from_bitvmx_var c);
  if negb (bool_decide (fb_32_to_txid (pa_acceptPeginTxid e) = expected))
  then flow_bail "PeginAccepted txid mismatch" else
  _ ← set_ctx (set_pegin_accepted e);
  mret StepDone.

(** [slotId] is a [u64], which fits [usize]. *)
Definition record_pegin_requested (e : PeginRequested) : SR W FlowError Steps :=
  _ ← set_ctx (set_pegin_requested e);
  if negb ((0 <=? pr_slotId e) && (pr_slotId e <? 2 ^ 64)) then flow_bail "Slot ID too large for usize" else
  _ ← set_ctx (set_bitvmx_protocol_id
                 (accept_pegin_protocol_id (uuid_from_u128 (pr_committeeId e)) (pr_slotId e)));
  mret StepGetCommInfoAuthoritativeCheckpoint.

Definition process_step_data (current_step : Steps) (data : StepData) : SR W FlowError Steps :=
  match current_step, data with
  | StepPeginTransactionFound, DataPeginTransactionFound => mret StepRequestPeginSpvProof
  | StepRequestPeginSpvProof, DataRequestPeginSpvProof spv_proof =>
      _ ← set_ctx (set_request_pegin_spv_proof spv_proof);
      _ ← persist_state;
      _ ← request_pegin spv_proof;
      mret StepWaitPeginRequested
  | StepRequestPeginSpvProof, DataRetryRequestPegin => retry_request_pegin_step
  | StepWaitPeginRequested, DataPeginRequested e => record_pegin_requested e
  | StepGetCommInfoAuthoritativeCheckpoint, DataCommInfo comm_info =>
      _ ← set_ctx (set_my_p2p_address comm_info);
      mret StepPreparePeginSetup
  | StepPreparePeginSetup, DataBitvmxPeginAccepted accepted =>
      _ ← set_ctx (set_bitvmx_pegin_accepted accepted);
      r ← try_get_op_role;
      mret (if bool_decide (r = Prover) then StepRequestOperatorTakeTransactionInfo
            else StepWaitAllOperatorTakeTxidsAdded)
  | StepRequestOperatorTakeTransactionInfo, DataTransactionInfo tx_name txid =>
      handle_operator_take_transaction_info tx_name txid
  | StepRequestOperatorWonTransactionInfo, DataTransactionInfo tx_name txid =>
      handle_operator_won_transaction_info tx_name txid
  | StepAddOperatorTakeHash, DataOperatorTakeHashAdded => mret StepWaitAllOperatorTakeTxidsAdded
  | StepWaitAllOperatorTakeTxidsAdded, DataAllOperatorTakeTxidsAdded =>
      mret StepWaitAcceptPeginSignaturesReadyAllConvergeCheckpoint
  | StepWaitAcceptPeginSignaturesReadyAllConvergeCheckpoint, DataAcceptPeginSignaturesReady =>
      mret StepDispatchAcceptPeginTransactionAllConvergeCheckpoint
  | StepDispatchAcceptPeginTransactionAllConvergeCheckpoint, DataAcceptPeginTransactionDispatched =>
      mret StepConfirmAcceptPeginTransaction
  | StepConfirmAcceptPeginTransaction, DataAcceptPeginTransactionConfirmed tx_status =>
      confirm_accept_pegin_transaction tx_status
  | StepRequestAcceptPeginSpvProof, DataAcceptPeginSpvProof spv_proof =>
      _ ← set_ctx (set_accept_pegin_spv_proof spv_proof);
      mret StepAcceptPegin
  | StepAcceptPegin, DataRetryAcceptPegin => mret StepAcceptPegin
  | s, DataPeginAccepted e =>
      if allows_fast_forward_to_pegin_accepted s then complete_with_confirmed_pegin_acceptance e
      else flow_bail "Invalid state transition"
  | _, _ => flow_bail "Invalid state transition"
  end.

(** The entry action of a step; two steps complete themselves. *)
Definition entry_action (complete_step : StepData -> SR W FlowError unit) (next_step : Steps)
    : SR W FlowError unit :=
  match next_step with
  | StepPeginTransactionFound => sfail (FlowPanic "Init step should not be reached in start_step")
  | StepRequestPeginSpvProof => request_pegin_spv_proof_msg
  | StepGetCommInfoAuthoritativeCheckpoint => request_bitvmx_comm_info
  | StepPreparePeginSetup => prepare_pegin_setup
  | StepRequestOperatorTakeTransactionInfo => request_operator_take_transaction_info
  | StepRequestOperatorWonTransactionInfo => request_operator_won_transaction_info
  | StepAddOperatorTakeHash => _ ← add_operator_take_hash; complete_step DataOperatorTakeHashAdded
  | StepDispatchAcceptPeginTransactionAllConvergeCheckpoint =>
      _ ← dispatch_transaction; complete_step DataAcceptPeginTransactionDispatched
  | StepRequestAcceptPeginSpvProof => request_spv_proof
  | StepAcceptPegin =>
      c ← get_ctx;
      spv_proof ← required "SPV proof not available for pegin acceptance" (accept_pegin_spv_proof c);
      accept_pegin spv_proof
  | StepDone => _ ← send_pegin_accepted_to_bitvmx; write_completion_marker
  | StepWaitPeginRequested | StepWaitAllOperatorTakeTxidsAdded | StepWaitAcceptPeginSignaturesReadyAllConvergeCheckpoint
  | StepConfirmAcceptPeginTransaction | StepFailed => mret tt
  end.

Definition start_step_with (complete_step : StepData -> SR W FlowError unit) (next_step : Steps)
    : SR W FlowError unit :=
  _ ← set_ctx (set_step next_step);
  _ ← (if bool_decide (next_step = StepAcceptPegin) then persist_state else mret tt);
  _ ← entry_action complete_step next_step;
  c ← get_ctx;
  if bool_decide (step c = next_step) then persist_state else mret tt.

Definition complete_step_with (start_step : Steps -> SR W FlowError unit) (data : StepData)
    : SR W FlowError unit :=
  c ← get_ctx;
  next_step ← process_step_data (step c) data;
  start_step next_step.

(** The two call each other; [depth] bounds the nesting. *)
Fixpoint start_step_upto (depth : nat) (next_step : Steps) : SR W FlowError unit :=
  start_step_with
    (match depth with
     | O => fun _ => sfail (FlowPanic "nesting")
     | S depth => complete_step_with (start_step_upto depth)
     end) next_step.

(** A step that completes itself is followed by one that does not. *)
Definition start_step : Steps -> SR W FlowError unit := start_step_upto 1.
Definition complete_step : StepData -> SR W FlowError unit := complete_step_with start_step.

Definition mark_failed : SR W FlowError unit := start_step StepFailed.

Definition is_terminal (s : Steps) : bool :=
  match s with StepDone | StepFailed => true | _ => false end.

End Flow.

(** ** Computations that leave the flow alone *)

Section Keeping.
Context `{FlowCodecs, !CommitteeServices E, !PeginServices E, !BridgeNode E, Sha256} (verifier : NativeBridgeVerifier).
Abbreviation W := (World E).

Lemma keeps_send msg : keeps (send_bitvmx_msg (E := E) msg).
Proof. unfold send_bitvmx_msg. keep. Qed.
Lemma keeps_get_ctx : keeps (get_ctx (E := E)).
Proof. by split. Qed.
Hint Resolve keeps_get_ctx : keeps.
Lemma keeps_protocol_id : keeps (get_protocol_id (E := E)).
Proof. unfold get_protocol_id. keep. Qed.
Hint Resolve keeps_send keeps_protocol_id : keeps.

Lemma keeps_contract_call c : keeps (call (E := E) c).
Proof. unfold call. keep. Qed.
Hint Resolve keeps_contract_call : keeps.

Lemma keeps_accept_pegin p : keeps (accept_pegin verifier p).
Proof. unfold accept_pegin. keep. Qed.

Lemma keeps_request_pegin p : keeps (request_pegin verifier p).
Proof.
  unfold request_pegin. apply keeps_map_err. intros w. unfold already_requested.
  assert (Hk : keeps (invoke_contract_safe p verifier (call (RequestPegin p)))) by keep.
  specialize (Hk w). by destruct (invoke_contract_safe _ _ _ w) as [[|[]]].
Qed.

Lemma keeps_op_role : keeps (try_get_op_role (E := E)).
Proof. unfold try_get_op_role. keep. Qed.
Hint Resolve keeps_op_role : keeps.

Lemma keeps_add_operator_take_hash : keeps (add_operator_take_hash (E := E)).
Proof. unfold add_operator_take_hash. keep. Qed.

Lemma keeps_my_committee_index : keeps (my_committee_index (E := E)).
Proof. unfold my_committee_index. keep. Qed.
Hint Resolve keeps_my_committee_index : keeps.

Lemma keeps_take_name : keeps (operator_take_transaction_name (E := E)).
Proof. unfold operator_take_transaction_name. keep. Qed.
Lemma keeps_won_name : keeps (operator_won_transaction_name (E := E)).
Proof. unfold operator_won_transaction_name. keep. Qed.
Hint Resolve keeps_take_name keeps_won_name : keeps.

Lemma keeps_send_setup id : keeps (send_setup_to_bitvmx (E := E) id).
Proof.
  unfold send_setup_to_bitvmx, get_committee_addresses, get_committee_pubkey_hashes, build_communication_data, bail.
  keep.
Qed.

(** The steps that prepare the setup, or complete themselves. *)
Definition special (s : Steps) : bool :=
  match s with
  | StepPreparePeginSetup | StepAddOperatorTakeHash
  | StepDispatchAcceptPeginTransactionAllConvergeCheckpoint => true
  | _ => false
  end.

(** Every other entry action. *)
Lemma keeps_entry_action complete s :
  special s = false -> keeps (entry_action verifier complete s).
Proof.
  intros Hs. destruct s; try done; cbn [entry_action];
    unfold request_pegin_spv_proof_msg, request_bitvmx_comm_info, request_operator_take_transaction_info,
      request_operator_won_transaction_info, request_spv_proof,
      send_pegin_accepted_to_bitvmx, write_completion_marker;
    eauto 10 using keeps_accept_pegin with keeps.
Qed.

Lemma keeps_dispatch_transaction : keeps (dispatch_transaction (E := E)).
Proof. unfold dispatch_transaction. keep. Qed.

End Keeping.

(** ** Reasoning about both outcomes *)

Section Hoare.
Context `{FlowCodecs, !CommitteeServices E, !PeginServices E}.
Context (I : State -> option State -> Prop).

Lemma hoare_get_ctx (P : State -> option State -> Prop) :
  hoare (E := E) (X := Effect) I P get_ctx (fun c s v => P s v /\ c = ctx s).
Proof. by intros w. Qed.

Lemma hoare_set_ctx f (Q : State -> option State -> Prop) :
  hoare (E := E) (X := Effect) I (fun s v => Q (mkState (flow_id s) (f (ctx s)) (created_at s)) v) (set_ctx f) (fun _ => Q).
Proof. by intros w. Qed.

End Hoare.

(** ** The steps of the flow *)

Section Transitions.
Context `{FlowCodecs, !CommitteeServices E, !PeginServices E, !BridgeNode E, Sha256} (verifier : NativeBridgeVerifier).
Abbreviation W := (World E).

(** The transitions of the machine, with what the context must say. *)
Inductive transition (c : FlowContext) : StepData -> Steps -> Prop :=
| T_found : step c = StepPeginTransactionFound ->
    transition c DataPeginTransactionFound StepRequestPeginSpvProof
| T_proof p : step c = StepRequestPeginSpvProof ->
    transition c (DataRequestPeginSpvProof p) StepWaitPeginRequested
| T_retry p : step c = StepRequestPeginSpvProof -> request_pegin_spv_proof c = Some p ->
    transition c DataRetryRequestPegin StepWaitPeginRequested
| T_requested e : step c = StepWaitPeginRequested ->
    transition c (DataPeginRequested e) StepGetCommInfoAuthoritativeCheckpoint
| T_comm i : step c = StepGetCommInfoAuthoritativeCheckpoint ->
    transition c (DataCommInfo i) StepPreparePeginSetup
| T_prover a : step c = StepPreparePeginSetup -> op_role c = Some Prover ->
    transition c (DataBitvmxPeginAccepted a) StepRequestOperatorTakeTransactionInfo
| T_verifier a : step c = StepPreparePeginSetup -> op_role c = Some Verifier ->
    transition c (DataBitvmxPeginAccepted a) StepWaitAllOperatorTakeTxidsAdded
| T_take n t : step c = StepRequestOperatorTakeTransactionInfo ->
    transition c (DataTransactionInfo n t) StepRequestOperatorWonTransactionInfo
| T_won n t : step c = StepRequestOperatorWonTransactionInfo ->
    transition c (DataTransactionInfo n t) StepAddOperatorTakeHash
| T_added : step c = StepAddOperatorTakeHash ->
    transition c DataOperatorTakeHashAdded StepWaitAllOperatorTakeTxidsAdded
| T_all_added : step c = StepWaitAllOperatorTakeTxidsAdded ->
    transition c DataAllOperatorTakeTxidsAdded StepWaitAcceptPeginSignaturesReadyAllConvergeCheckpoint
| T_signed : step c = StepWaitAcceptPeginSignaturesReadyAllConvergeCheckpoint ->
    transition c DataAcceptPeginSignaturesReady StepDispatchAcceptPeginTransactionAllConvergeCheckpoint
| T_dispatched : step c = StepDispatchAcceptPeginTransactionAllConvergeCheckpoint ->
    transition c DataAcceptPeginTransactionDispatched StepConfirmAcceptPeginTransaction
| T_confirmed st : step c = StepConfirmAcceptPeginTransaction ->
    get_accept_pegin_txid_from_bitvmx_var c = Some (ts_tx_id st) ->
    transition c (DataAcceptPeginTransactionConfirmed st) StepRequestAcceptPeginSpvProof
| T_accept_proof p : step c = StepRequestAcceptPeginSpvProof ->
    transition c (DataAcceptPeginSpvProof p) StepAcceptPegin
| T_retry_accept : step c = StepAcceptPegin ->
    transition c DataRetryAcceptPegin StepAcceptPegin
| T_accepted e : allows_fast_forward_to_pegin_accepted (step c) = true ->
    get_accept_pegin_txid_from_bitvmx_var c = Some (fb_32_to_txid (pa_acceptPeginTxid e)) ->
    transition c (DataPeginAccepted e) StepDone.

(** What a context must hold at each step. *)

Definition requested_ok (c : FlowContext) : Prop :=
  is_Some (request_pegin_spv_proof c) /\
  exists e, pegin_requested c = Some e /\
    bitvmx_protocol_id c = Some (accept_pegin_protocol_id (uuid_from_u128 (pr_committeeId e)) (pr_slotId e)).

Definition role_ok (c : FlowContext) : Prop :=
  forall r, op_role c = Some r ->
    exists out m, committee_output c = Some out /\ find_member my_address (members out) = Some m /\
      role m = role_to_u8 r.

Definition accepted_ok (c : FlowContext) : Prop :=
  requested_ok c /\ role_ok c /\ is_Some (op_role c) /\ is_Some (bitvmx_pegin_accepted c).

Definition prover_ok (c : FlowContext) : Prop := accepted_ok c /\ op_role c = Some Prover.

Definition status_ok (c : FlowContext) : Prop :=
  exists st, accept_pegin_tx_status c = Some st /\ get_accept_pegin_txid_from_bitvmx_var c = Some (ts_tx_id st).

Definition ctx_ok (c : FlowContext) : Prop :=
  match step c with
  | StepPeginTransactionFound | StepRequestPeginSpvProof => op_role c = None
  | StepWaitPeginRequested => op_role c = None /\ is_Some (request_pegin_spv_proof c)
  | StepGetCommInfoAuthoritativeCheckpoint => op_role c = None /\ requested_ok c
  | StepPreparePeginSetup => role_ok c /\ requested_ok c /\ is_Some (my_p2p_address c)
  | StepRequestOperatorTakeTransactionInfo => prover_ok c
  | StepRequestOperatorWonTransactionInfo => prover_ok c /\ is_Some (operator_take_txid c)
  | StepAddOperatorTakeHash =>
      prover_ok c /\ is_Some (operator_take_txid c) /\ is_Some (operator_won_txid c)
  | StepWaitAllOperatorTakeTxidsAdded | StepWaitAcceptPeginSignaturesReadyAllConvergeCheckpoint
  | StepDispatchAcceptPeginTransactionAllConvergeCheckpoint | StepConfirmAcceptPeginTransaction => accepted_ok c
  | StepRequestAcceptPeginSpvProof => accepted_ok c /\ status_ok c
  | StepAcceptPegin => accepted_ok c /\ status_ok c /\ is_Some (accept_pegin_spv_proof c)
  | StepDone =>
      accepted_ok c /\ exists e, pegin_accepted c = Some e /\
        get_accept_pegin_txid_from_bitvmx_var c = Some (fb_32_to_txid (pa_acceptPeginTxid e))
  | StepFailed => True
  end.

Definition saved_ok (v : option State) : Prop := forall s, v = Some s -> ctx_ok (ctx s).
Definition flow_ok (s : State) (v : option State) : Prop := ctx_ok (ctx s) /\ saved_ok v.


(** A context with which a step may be entered; the role is found out on
    entering the preparation of the setup. *)
Definition enter_ok (next : Steps) (c : FlowContext) : Prop :=
  ctx_ok (set_step next c) /\ (next = StepPreparePeginSetup -> op_role c = None).

(** Data accepted at a context, with the step to enter. *)
Definition entering (c : FlowContext) (d : StepData) (next : Steps) (s : State) (v : option State) : Prop :=
  transition c d next /\ step (ctx s) = step c /\ enter_ok next (ctx s) /\ saved_ok v.

Definition refused (c : FlowContext) (s : State) (v : option State) : Prop :=
  step (ctx s) = step c /\ flow_ok s v.

Definition at_context (c : FlowContext) (s : State) (v : option State) : Prop :=
  ctx s = c /\ ctx_ok c /\ saved_ok v.

Lemma at_context_refused c s v : at_context c s v -> refused c s v.
Proof. intros (<- & Hc & Hv). by repeat split. Qed.
Hint Resolve at_context_refused : core.

Lemma hoare_bail {A} c msg (Q : A -> State -> option State -> Prop) :
  hoare (E := E) (X := Effect) (refused c) (at_context c) (flow_bail msg) Q.
Proof. apply hoare_fail. auto. Qed.

(** Reading the context. *)
Lemma pegin_hoare_read {A} c (f : FlowContext -> SR W FlowError A) Q :
  hoare (refused c) (at_context c) (f c) Q -> hoare (refused c) (at_context c) (x ← get_ctx; f x) Q.
Proof.
  intros Hf w Hw. rewrite SR_bind_run with (a := c) (s' := w); [by apply Hf|].
  destruct Hw as [Hc _]. unfold get_ctx, mbind, SR_bind. cbn. by rewrite Hc.
Qed.

Lemma hoare_need {A B} c msg (o : option A) (f : A -> SR W FlowError B) Q :
  (forall a, o = Some a -> hoare (refused c) (at_context c) (f a) Q) ->
  hoare (refused c) (at_context c) (x ← required msg o; f x) Q.
Proof.
  intros Hf. destruct o as [a|]; [by apply Hf|]. intros w Hw. by apply at_context_refused.
Qed.

Lemma hoare_keep {A B} c (m : SR W FlowError A) (f : A -> SR W FlowError B) Q :
  keeps m -> (forall a, hoare (refused c) (at_context c) (f a) Q) ->
  hoare (refused c) (at_context c) (m ≫= f) Q.
Proof. intros Hm Hf. eapply hoare_bind; [apply hoare_keeps; auto|done]. Qed.

(** Recording data in the context. *)
Lemma pegin_hoare_update {A} c f (m : SR W FlowError A) Q :
  step (f c) = step c -> (ctx_ok c -> ctx_ok (f c)) ->
  hoare (refused (f c)) (at_context (f c)) m Q -> hoare (refused c) (at_context c) (_ ← set_ctx f; m) Q.
Proof.
  intros Hstep Hok Hm w (Hc & Hcok & Hv).
  set (w1 := mkWorld (mkState (flow_id (state w)) (f (ctx (state w))) (created_at (state w)))
    (saved w) (env w) (trace w)).
  rewrite SR_bind_run with (a := tt) (s' := w1) by done. specialize (Hm w1).
  assert (Hw1 : at_context (f c) (state w1) (saved w1)) by (cbn; rewrite Hc; by split_and!; auto).
  specialize (Hm Hw1). destruct (m w1) as [[a|x] w2]; [done|]. destruct Hm as [Hs Hf]. by rewrite Hstep in Hs.
Qed.

Lemma hoare_save c : hoare (E := E) (X := Effect) (refused c) (at_context c) persist_state (fun _ => at_context c).
Proof.
  apply hoare_persist_with; [|auto]. intros s v (<- & Hc & Hv). split_and!; [done|done|]. by intros s' [= <-].
Qed.

(** Naming the next step. *)
Lemma hoare_next c c' d next :
  step c' = step c -> (next = StepPreparePeginSetup -> ctx_ok c' -> op_role c' = None) ->
  (ctx_ok c' -> transition c d next /\ ctx_ok (set_step next c')) ->
  hoare (E := E) (X := Effect) (refused c') (at_context c') (mret next) (entering c d).
Proof.
  intros Hs Hrole Hnext w (Hc & Hok & Hv). destruct (Hnext Hok). cbn. unfold entering, enter_ok.
  rewrite Hc. auto 10.
Qed.

Lemma fast_forward_accepted c :
  allows_fast_forward_to_pegin_accepted (step c) = true -> ctx_ok c -> accepted_ok c.
Proof. unfold ctx_ok. by destruct (step c); intros; destruct_and?. Qed.

Lemma complete_with_acceptance_hoare c e :
  allows_fast_forward_to_pegin_accepted (step c) = true ->
  hoare (E := E) (X := Effect) (refused c) (at_context c) (complete_with_confirmed_pegin_acceptance e)
    (entering c (DataPeginAccepted e)).
Proof.
  intros Hff. apply pegin_hoare_read, hoare_need. intros expected Hexp.
  case_bool_decide as Htx; cbn [negb]; [|apply hoare_bail]. subst expected.
  apply pegin_hoare_update; [done|by unfold ctx_ok; cbn; destruct (step c)|].
  apply hoare_next; [done|done|]. intros Hok. split; [by constructor|].
  split; [exact (fast_forward_accepted (set_pegin_accepted e c) Hff Hok)|]. cbn. eauto.
Qed.

Lemma confirm_accept_hoare c st :
  step c = StepConfirmAcceptPeginTransaction ->
  hoare (E := E) (X := Effect) (refused c) (at_context c) (confirm_accept_pegin_transaction st)
    (entering c (DataAcceptPeginTransactionConfirmed st)).
Proof.
  intros Hstep. apply pegin_hoare_read, hoare_need. intros expected Hexp.
  case_bool_decide as Htx; cbn [negb]; [|apply hoare_bail]. subst expected.
  apply pegin_hoare_update; [done|by unfold ctx_ok; cbn; rewrite Hstep|].
  apply hoare_next; [done|done|]. unfold ctx_ok. cbn. rewrite Hstep. intros Hok.
  split; [by constructor|]. split; [done|]. by exists st.
Qed.

Lemma operator_take_info_hoare c n txid :
  step c = StepRequestOperatorTakeTransactionInfo ->
  hoare (E := E) (X := Effect) (refused c) (at_context c) (handle_operator_take_transaction_info n txid)
    (entering c (DataTransactionInfo n txid)).
Proof.
  intros Hstep. apply hoare_keep; [apply keeps_take_name|intros name].
  case_bool_decide; cbn [negb]; [|apply hoare_bail].
  apply pegin_hoare_update; [done|by unfold ctx_ok; cbn; rewrite Hstep|].
  apply hoare_next; [done|done|]. unfold ctx_ok. cbn. rewrite Hstep. intros Hok.
  split; [by constructor|]. split; [done|]. cbn. eauto.
Qed.

Lemma operator_won_info_hoare c n txid :
  step c = StepRequestOperatorWonTransactionInfo ->
  hoare (E := E) (X := Effect) (refused c) (at_context c) (handle_operator_won_transaction_info n txid)
    (entering c (DataTransactionInfo n txid)).
Proof.
  intros Hstep. apply hoare_keep; [apply keeps_won_name|intros name].
  case_bool_decide; cbn [negb]; [|apply hoare_bail].
  apply pegin_hoare_update; [done|by unfold ctx_ok; cbn; rewrite Hstep|].
  apply hoare_next; [done|done|]. unfold ctx_ok. cbn. rewrite Hstep. intros [Hok Ht].
  split; [by constructor|]. split_and!; [done|done|eauto].
Qed.

Lemma pegin_requested_hoare c e :
  step c = StepWaitPeginRequested ->
  hoare (E := E) (X := Effect) (refused c) (at_context c) (record_pegin_requested e) (entering c (DataPeginRequested e)).
Proof.
  intros Hstep. apply pegin_hoare_update; [done|by unfold ctx_ok; cbn; rewrite Hstep|].
  match goal with |- context [negb ?b] => destruct b end; cbn [negb]; [|apply hoare_bail].
  apply pegin_hoare_update; [done|by unfold ctx_ok; cbn; rewrite Hstep|].
  apply hoare_next; [done|done|]. unfold ctx_ok. cbn. rewrite Hstep. intros [Hrole Hspv].
  split; [by constructor|]. split; [done|]. split; [done|]. cbn. eauto.
Qed.

Lemma hoare_op_role {A} c (f : ParticipantRole -> SR W FlowError A) Q :
  (forall r, op_role c = Some r -> hoare (refused c) (at_context c) (f r) Q) ->
  hoare (refused c) (at_context c) (r ← try_get_op_role; f r) Q.
Proof.
  intros Hf w Hw. pose proof Hw as [Hc _]. destruct (op_role c) as [r|] eqn:Hr.
  - rewrite SR_bind_run with (a := r) (s' := w); [by apply Hf|]. unfold try_get_op_role, get_ctx, mbind, SR_bind. cbn.
    by rewrite Hc, Hr.
  - unfold try_get_op_role, get_ctx, mbind, SR_bind. cbn. rewrite Hc, Hr. by apply at_context_refused.
Qed.

Lemma pegin_accepted_message_hoare c a :
  step c = StepPreparePeginSetup ->
  hoare (E := E) (X := Effect) (refused c) (at_context c)
    (_ ← set_ctx (set_bitvmx_pegin_accepted a);
     r ← try_get_op_role;
     mret (if bool_decide (r = Prover) then StepRequestOperatorTakeTransactionInfo
           else StepWaitAllOperatorTakeTxidsAdded))
    (entering c (DataBitvmxPeginAccepted a)).
Proof.
  intros Hstep. apply pegin_hoare_update; [done|by unfold ctx_ok; cbn; rewrite Hstep|].
  apply hoare_op_role. cbn [op_role set_bitvmx_pegin_accepted]. intros r Hr.
  apply hoare_next; [done|by destruct r|]. unfold ctx_ok at 1. cbn. rewrite Hstep. intros (Hrole & Hreq & Hp2p).
  assert (Hacc : accepted_ok (set_bitvmx_pegin_accepted a c)) by (split_and!; cbn; eauto).
  destruct r; rewrite ?bool_decide_true, ?bool_decide_false by done; (split; [by constructor|done]).
Qed.

(** Data that do not fit the step are refused; data that fit are recorded and
    name the step the transition relation gives. *)
Lemma process_step_data_hoare c d :
  hoare (refused c) (at_context c) (process_step_data verifier (step c) d) (entering c d).
Proof.
  assert (Hcase : forall s, step c = s -> hoare (refused c) (at_context c) (process_step_data verifier s d) (entering c d));
    [|by apply Hcase].
  intros s Hstep. destruct s, d; cbn [process_step_data allows_fast_forward_to_pegin_accepted];
    try apply hoare_bail;
    try (apply complete_with_acceptance_hoare; by rewrite Hstep);
    auto using confirm_accept_hoare, operator_take_info_hoare, operator_won_info_hoare, pegin_requested_hoare,
      pegin_accepted_message_hoare;
    try (apply hoare_next; [done|done|]; unfold ctx_ok; cbn; rewrite Hstep; intros Hok;
         split; [by constructor|]; first [by destruct_and?|by destruct Hok as [[? _] _]]).
  - apply pegin_hoare_update; [done|unfold ctx_ok; cbn; by rewrite Hstep|].
    eapply hoare_bind; [apply hoare_save|intros []].
    apply hoare_keep; [apply keeps_request_pegin|intros []].
    apply hoare_next; [done|done|]. unfold ctx_ok. cbn. rewrite Hstep. intros Hok. split; [by constructor|eauto].
  - apply pegin_hoare_read, hoare_need. intros p Hp. apply hoare_keep; [apply keeps_request_pegin|intros []].
    apply hoare_next; [done|done|]. unfold ctx_ok. cbn. rewrite Hstep. intros Hok.
    split; [by eapply T_retry|]. rewrite Hp. eauto.
  - apply pegin_hoare_update; [done|unfold ctx_ok; cbn; by rewrite Hstep|].
    apply hoare_next; [done|unfold ctx_ok; cbn; rewrite Hstep; by intros _ []|].
    unfold ctx_ok. cbn. rewrite Hstep. intros [Hrole Hreq].
    split; [by constructor|]. split_and!; [|done|eauto]. intros r Hr. cbn in Hr. congruence.
  - apply pegin_hoare_update; [done|unfold ctx_ok; cbn; by rewrite Hstep|].
    apply hoare_next; [done|done|]. unfold ctx_ok. cbn. rewrite Hstep. intros [Hok Hst].
    split; [by constructor|]. split_and!; [done|done|eauto].
Qed.

(** ** Entering a step *)

(** Where a step that is entered ends up. *)
Definition landing (s : Steps) : Steps :=
  match s with
  | StepAddOperatorTakeHash => StepWaitAllOperatorTakeTxidsAdded
  | StepDispatchAcceptPeginTransactionAllConvergeCheckpoint => StepConfirmAcceptPeginTransaction
  | s => s
  end.

Definition at_step (next : Steps) (s : State) (v : option State) : Prop :=
  step (ctx s) = next /\ flow_ok s v.
Definition interrupted (next : Steps) (s : State) (v : option State) : Prop :=
  (step (ctx s) = next \/ step (ctx s) = landing next) /\ flow_ok s v.
Definition landed (next : Steps) (s : State) (v : option State) : Prop :=
  step (ctx s) = landing next /\ flow_ok s v /\ v = Some s.

Lemma at_step_interrupted next s v : at_step next s v -> interrupted next s v.
Proof. intros []. split; auto. Qed.

Lemma hoare_persist_step next :
  hoare (E := E) (X := Effect) (interrupted next) (at_step next) persist_state (fun _ s v => at_step next s v /\ v = Some s).
Proof.
  apply hoare_persist_with; [|apply at_step_interrupted]. intros s v (Hs & Hc & Hv).
  split; [|done]. split; [done|]. split; [done|]. by intros s' [= <-].
Qed.

(** Preparing the setup finds out the committee and the role. *)
Lemma calc_op_role_hoare out next :
  hoare (E := E) (X := Effect) (interrupted next) (fun s v => at_step next s v /\ committee_output (ctx s) = Some out)
    calc_op_role
    (fun r s v => at_step next s v /\ committee_output (ctx s) = Some out /\
       exists m, find_member my_address (members out) = Some m /\ role m = role_to_u8 r).
Proof.
  intros w [Hw Hout]. unfold calc_op_role, get_ctx, mbind, SR_bind. cbn. rewrite Hout. cbn.
  destruct (find_member my_address (members out)) as [m|]; [|by apply at_step_interrupted].
  cbn. destruct (Z.eqb_spec (role m) 1); [split; [done|]; split; [done|by exists m]|].
  destruct (Z.eqb_spec (role m) 2); [split; [done|]; split; [done|by exists m]|by apply at_step_interrupted].
Qed.

Lemma prepare_step_ok (s : State) v c' :
  step c' = StepPreparePeginSetup -> at_step StepPreparePeginSetup s v -> role_ok c' ->
  (requested_ok (ctx s) -> requested_ok c') -> my_p2p_address c' = my_p2p_address (ctx s) ->
  at_step StepPreparePeginSetup (mkState (flow_id s) c' (created_at s)) v.
Proof.
  intros Hs' (Hs & Hc & Hv) Hrole Hreq Hp. split; [done|]. split; [|done]. unfold ctx_ok in *. cbn.
  rewrite Hs in Hc. rewrite Hs'. destruct Hc as (_ & Hr & Hm). rewrite Hp. auto.
Qed.

Lemma send_pegin_request_hoare id :
  hoare (E := E) (X := Effect) (interrupted StepPreparePeginSetup)
    (fun s v => at_step StepPreparePeginSetup s v /\ op_role (ctx s) = None)
    (send_pegin_request_to_bitvmx id) (fun _ => at_step StepPreparePeginSetup).
Proof.
  unfold send_pegin_request_to_bitvmx.
  eapply hoare_bind; [apply hoare_keeps; [apply keeps_on_env|intros s v []; by apply at_step_interrupted]|intros out].
  eapply hoare_bind.
  { eapply hoare_weaken; [apply (hoare_set_ctx _ (set_committee_output out) (fun s v =>
      at_step StepPreparePeginSetup s v /\ committee_output (ctx s) = Some out))| |done].
    intros s v [Hw Hr]. split; [|done]. pose proof Hw as [Hs _].
    apply prepare_step_ok; try done. intros r Hr'. cbn in Hr'. congruence. }
  intros []. eapply hoare_bind; [apply calc_op_role_hoare|intros r].
  eapply hoare_bind.
  { eapply hoare_weaken; [apply (hoare_set_ctx _ (set_op_role r) (at_step StepPreparePeginSetup))| |done].
    intros s v (Hw & Hout & m & Hm & Hrole). pose proof Hw as [Hs _].
    apply prepare_step_ok; try done. intros r' [= <-]. by exists out, m. }
  intros []. apply hoare_keeps; [|apply at_step_interrupted].
  unfold extract_pegin_amount, build_pegin_request_message.
  eauto 20 using keeps_send, keeps_protocol_id with keeps.
Qed.

Lemma prepare_pegin_setup_hoare :
  hoare (E := E) (X := Effect) (interrupted StepPreparePeginSetup)
    (fun s v => at_step StepPreparePeginSetup s v /\ op_role (ctx s) = None)
    prepare_pegin_setup (fun _ => at_step StepPreparePeginSetup).
Proof.
  unfold prepare_pegin_setup.
  eapply hoare_bind; [apply hoare_keeps; [apply keeps_get_ctx|intros s v []; by apply at_step_interrupted]|intros c].
  eapply hoare_bind; [apply hoare_keeps; [apply keeps_required|intros s v []; by apply at_step_interrupted]|intros e].
  eapply hoare_bind; [apply send_pegin_request_hoare|intros []].
  apply hoare_keeps; [apply keeps_send_setup|apply at_step_interrupted].
Qed.

(** The entry actions, for a [complete_step] that brings the two steps that
    complete themselves to their landings. *)
Definition completes (complete : StepData -> SR W FlowError unit) : Prop :=
  hoare (interrupted StepAddOperatorTakeHash) (at_step StepAddOperatorTakeHash)
    (complete DataOperatorTakeHashAdded) (fun _ => landed StepAddOperatorTakeHash) /\
  hoare (interrupted StepDispatchAcceptPeginTransactionAllConvergeCheckpoint)
    (at_step StepDispatchAcceptPeginTransactionAllConvergeCheckpoint)
    (complete DataAcceptPeginTransactionDispatched)
    (fun _ => landed StepDispatchAcceptPeginTransactionAllConvergeCheckpoint).

Definition entered (next : Steps) (s : State) (v : option State) : Prop :=
  if bool_decide (landing next = next) then at_step next s v else landed next s v.

Lemma entry_action_hoare complete next :
  completes complete ->
  hoare (interrupted next)
    (fun s v => at_step next s v /\ (next = StepPreparePeginSetup -> op_role (ctx s) = None))
    (entry_action verifier complete next) (fun _ => entered next).
Proof.
  intros [Hadd Hdispatch]. destruct (special next) eqn:Hsp.
  - destruct next; try done; cbn [entry_action]; unfold entered; cbn [landing].
    + rewrite bool_decide_true by done. eapply hoare_weaken; [apply prepare_pegin_setup_hoare| |done].
      intros s v [Hw Hr]. auto.
    + rewrite bool_decide_false by done. eapply hoare_bind.
      { eapply hoare_weaken; [apply hoare_keeps; [apply keeps_add_operator_take_hash|apply at_step_interrupted]
          |by intros s v []|by intros a s v Hw]. }
      by intros [].
    + rewrite bool_decide_false by done. eapply hoare_bind.
      { eapply hoare_weaken; [apply hoare_keeps; [apply keeps_dispatch_transaction|apply at_step_interrupted]
          |by intros s v []|by intros a s v Hw]. }
      by intros [].
  - assert (Hland : landing next = next) by by destruct next. unfold entered. rewrite bool_decide_true by done.
    eapply hoare_weaken; [apply hoare_keeps; [by apply keeps_entry_action|apply at_step_interrupted]
      |by intros s v []|by intros a s v Hw].
Qed.

Lemma start_step_with_hoare complete next :
  completes complete ->
  hoare (interrupted next) (fun s v => enter_ok next (ctx s) /\ saved_ok v)
    (start_step_with verifier complete next) (fun _ => landed next).
Proof.
  intros Hc. unfold start_step_with. eapply hoare_bind.
  { eapply hoare_weaken; [apply (hoare_set_ctx _ (set_step next) (fun s v => at_step next s v /\
      (next = StepPreparePeginSetup -> op_role (ctx s) = None)))| |done].
    intros s v [[Hok Hrole] Hv]. by split. }
  intros []. eapply hoare_bind.
  { apply (hoare_if _ _ _ _ _ (fun _ s v => at_step next s v /\ (next = StepPreparePeginSetup -> op_role (ctx s) = None))).
    - intros Hn. eapply hoare_weaken; [apply hoare_persist_step|by intros s v []|].
      intros _ s v [Hw _]. split; [done|]. by apply bool_decide_eq_true in Hn as ->.
    - intros _ w Hw. exact Hw. }
  intros []. eapply hoare_bind; [by apply entry_action_hoare|intros []]. unfold entered.
  eapply hoare_bind; [apply hoare_get_ctx|intros c].
  case_bool_decide as Hl.
  - intros w [Hw ->]. rewrite bool_decide_true by apply Hw.
    pose proof (hoare_persist_step next w Hw) as Hp. destruct (persist_state w) as [[]]; [|done].
    destruct Hp as [[Hs Hok] Hv]. split_and!; try done. by rewrite Hl.
  - intros w [Hw ->]. rewrite bool_decide_false; [done|]. destruct Hw as [-> _]. congruence.
Qed.

(** Completing a step, with what the nested [start_step] does. *)
Definition starts (start : Steps -> SR W FlowError unit) (next : Steps) : Prop :=
  hoare (interrupted next) (fun s v => enter_ok next (ctx s) /\ saved_ok v) (start next) (fun _ => landed next).

Lemma complete_step_with_run start d w :
  flow_ok (state w) (saved w) -> (forall next, starts start next) ->
  let c := ctx (state w) in
  match complete_step_with verifier start d w with
  | (Ok _, w') => exists next, transition c d next /\ landed next (state w') (saved w')
  | (Err _, w') => refused c (state w') (saved w') \/
      exists next, transition c d next /\ interrupted next (state w') (saved w')
  end.
Proof.
  intros [Hok Hv] Hstart. cbn zeta. set (c := ctx (state w)).
  unfold complete_step_with. rewrite SR_bind_run with (a := c) (s' := w) by done.
  pose proof (process_step_data_hoare c d w (conj eq_refl (conj Hok Hv))) as Hp.
  destruct (process_step_data verifier (step c) d w) as [[next|x] w1] eqn:Er.
  - rewrite (SR_bind_run _ _ _ _ _ Er). destruct Hp as (Ht & _ & Hen & Hv1).
    pose proof (Hstart next w1 (conj Hen Hv1)) as Hs. destruct (start next w1) as [[]]; eauto.
  - rewrite (SR_bind_err _ _ _ _ _ Er). by left.
Qed.

(** What the two self-completing steps need of the nested call. *)
Lemma completes_one start cur d next :
  (forall next, starts start next) ->
  (forall c n, step c = cur -> transition c d n -> n = next) -> landing cur = next -> landing next = next ->
  hoare (interrupted cur) (at_step cur) (complete_step_with verifier start d) (fun _ => landed cur).
Proof.
  intros Hstart Hnext Hl Hl' w [Hs Hok]. pose proof (complete_step_with_run start d w Hok Hstart) as Hr.
  cbn zeta in Hr. destruct (complete_step_with verifier start d w) as [[u|x] w'].
  - destruct Hr as (n & Ht & Hland & Hrest). apply Hnext in Ht as ->; [|done].
    split; [by rewrite Hland, Hl, Hl'|done].
  - destruct Hr as [[Hs' Hok']|(n & Ht & Hi & Hok')]; (split; [|done]).
    + left. congruence.
    + apply Hnext in Ht as ->; [|done]. right. rewrite Hl. rewrite Hl' in Hi. by destruct Hi.
Qed.

Lemma completes_with start : (forall next, starts start next) -> completes (complete_step_with verifier start).
Proof.
  intros Hstart. split; (eapply completes_one; [done| |done|done]);
    intros c n Hc Ht; by inversion Ht.
Qed.

Lemma starts_upto depth next : starts (start_step_upto verifier depth) next.
Proof.
  revert next. induction depth as [|depth IH]; intros next; apply start_step_with_hoare.
  - split; by apply hoare_fail, at_step_interrupted.
  - by apply completes_with.
Qed.

(** ** The nesting of calls *)

Lemma start_step_with_plain complete complete' next :
  landing next = next -> start_step_with verifier complete next = start_step_with verifier complete' next.
Proof. by destruct next. Qed.

Lemma start_step_with_ext complete complete' next w :
  (forall d w, step (ctx (state w)) = next -> landing next <> next -> complete d w = complete' d w) ->
  start_step_with verifier complete next w = start_step_with verifier complete' next w.
Proof.
  intros Hc. destruct (decide (landing next = next)) as [Hl|Hl].
  { by rewrite (start_step_with_plain complete complete'). }
  unfold start_step_with, mbind, SR_bind. cbn.
  assert (Hk : exists m : SR W FlowError unit, keeps m /\ exists d, forall c,
    entry_action verifier c next = (_ ← m; c d)).
  { destruct next; try done.
    - exists add_operator_take_hash. split; [apply keeps_add_operator_take_hash|by eexists].
    - exists dispatch_transaction. split; [apply keeps_dispatch_transaction|by eexists]. }
  destruct Hk as (m & Hm & d & He). rewrite !He. rewrite bool_decide_false by by destruct next.
  cbn. unfold mbind, SR_bind. set (w1 := mkWorld _ _ _ _). specialize (Hm w1) as [Hst _].
  destruct (m w1) as [[[]|x] w2]; [|done]. cbn in Hst. rewrite Hc; [done| |done]. by rewrite Hst.
Qed.

(** A step that completes itself is followed by one that does not. *)
Lemma special_then_plain s d w n w' :
  landing s <> s -> process_step_data verifier s d w = (Ok n, w') -> landing n = n.
Proof.
  intros Hs Hp. destruct s; try done; destruct d; cbn in Hp; try discriminate Hp; sr_inv Hp; try done.
  unfold complete_with_confirmed_pegin_acceptance in Hp. sr_inv Hp.
  destruct (negb _); sr_inv Hp; done.
Qed.

Lemma complete_upto depth depth' d w :
  landing (step (ctx (state w))) <> step (ctx (state w)) ->
  complete_step_with verifier (start_step_upto verifier depth) d w =
  complete_step_with verifier (start_step_upto verifier depth') d w.
Proof.
  intros Hs. unfold complete_step_with.
  rewrite !SR_bind_run with (a := ctx (state w)) (s' := w) by done.
  destruct (process_step_data verifier (step (ctx (state w))) d w) as [[n|x] w'] eqn:Ep.
  - rewrite !(SR_bind_run _ _ _ _ _ Ep). pose proof (special_then_plain _ _ _ _ _ Hs Ep) as Hn.
    destruct depth, depth'; cbn [start_step_upto];
      exact (f_equal (fun m => m w') (start_step_with_plain _ _ _ Hn)).
  - by rewrite !(SR_bind_err _ _ _ _ _ Ep).
Qed.

(** [start_step] and [complete_step] call each other; cut off after one nested
    call, they still satisfy the equation of the source. *)
Lemma start_step_eq next w :
  start_step verifier next w = start_step_with verifier (complete_step verifier) next w.
Proof.
  unfold start_step. cbn [start_step_upto]. apply start_step_with_ext. intros d w' Hs Hl.
  apply (complete_upto 0 1). by rewrite Hs.
Qed.

(** ** Reachable flows *)

(** A flow is created, handed data, asked for a status or marked as failed, with
    any outcome; a restart continues from what the store holds. *)
Inductive reachable : W -> Prop :=
| R_new txid id now e : reachable (new_flow txid id now e)
| R_complete w d : reachable w -> reachable (snd (complete_step verifier d w))
| R_failed w : reachable w -> reachable (snd (mark_failed verifier w))
| R_status w : reachable w -> reachable (snd (request_transaction_status w))
| R_restart w s e t : reachable w -> saved w = Some s -> reachable (from_saved_state s e t).

Lemma complete_step_flow_ok d w :
  flow_ok (state w) (saved w) ->
  let w' := snd (complete_step verifier d w) in flow_ok (state w') (saved w').
Proof.
  intros Hok. pose proof (complete_step_with_run _ d w Hok (starts_upto 1)) as Hr. cbn zeta in *.
  unfold complete_step, start_step. destruct (complete_step_with _ _ d w) as [[u|x] w']; cbn.
  - by destruct Hr as (next & _ & _ & Hok' & _).
  - destruct Hr as [[_ Hok']|(next & _ & _ & Hok')]; done.
Qed.

Lemma mark_failed_run w :
  flow_ok (state w) (saved w) ->
  match mark_failed verifier w with
  | (Ok _, w') => landed StepFailed (state w') (saved w')
  | (Err _, w') => interrupted StepFailed (state w') (saved w')
  end.
Proof. intros [Hok Hv]. apply (starts_upto 1 StepFailed w). by split. Qed.

Lemma reachable_flow_ok w : reachable w -> flow_ok (state w) (saved w).
Proof.
  induction 1 as [txid id now e|w d _ IH|w _ IH|w _ IH|w s e t _ IH Hs].
  - by split.
  - by apply complete_step_flow_ok.
  - pose proof (mark_failed_run w IH) as Hr. destruct (mark_failed verifier w) as [[u|x] w']; apply Hr.
  - assert (Hk : keeps (request_transaction_status (E := E))).
    { unfold request_transaction_status. eauto 10 using keeps_send, keeps_protocol_id with keeps. }
    by destruct (Hk w) as [-> ->].
  - destruct IH as [_ Hv]. pose proof (Hv s Hs). split; [done|]. by intros s' [= <-].
Qed.

End Transitions.

(** ** Progress

    Services that answer, about a committee this operator belongs to. *)

Class Reliable `{FlowCodecs, !CommitteeServices E, !PeginServices E, !BridgeNode E} (verifier : NativeBridgeVerifier) := {
  committee : GetCommitteeOutput;
  committee_key : is_Some (public_key_from_slice (aggregatedKey committee));
  committee_member : exists m, find_member my_address (members committee) = Some m /\
    (role m = 1 \/ role m = 2);
  call_ok c e : exists e', contract_call c e = (Ok tt, e');
  committee_ok id e : exists e', get_committee id e = (Ok committee, e');
  communication_ok id e : exists ds e', get_committee_communication_data id e = (Ok ds, e') /\
    length ds = length (members committee) /\ Forall (fun d => is_Some (socket_addr_from_contracts d)) ds;
  keys_ok a e : exists ks e', get_member_public_keys a e = (Ok ks, e') /\ is_Some (ks !! COMM_KEY_INDEX);
  send_ok m e : exists e', broker_send m e = (Ok tt, e');
  save_ok s e : exists e', save_flow s e = (Ok tt, e');
  signal_ok id e : exists e', signal_done id e = (Ok tt, e');
  uuid_ok e : exists id e', new_v4 e = (Ok id, e');
  socket_addr_round_trip a : parse_socket_addr (socket_addr_to_string a) = Some a;
  verified p (w : World E) : exists w',
    verify_confirmations verifier p (required_confirmations verifier) w = (Ok Verified, w')
}.

Section Progress.
Context `{FlowCodecs, !CommitteeServices E, !PeginServices E, !BridgeNode E, Sha256} (verifier : NativeBridgeVerifier).
Context `{!Reliable verifier}.
Abbreviation W := (World E).

Lemma okay_read {A} (f : FlowContext -> SR W FlowError A) w :
  okay (f (ctx (state w))) w -> okay (c ← get_ctx; f c) w.
Proof. done. Qed.

Lemma okay_send msg w : okay (send_bitvmx_msg msg) w.
Proof. apply okay_send_with, send_ok. Qed.

Lemma okay_persist w : okay persist_state w.
Proof. apply okay_persist_with, save_ok. Qed.

Lemma okay_protocol_id {A} (f : bytes -> SR W FlowError A) w :
  requested_ok (ctx (state w)) -> (forall id, okay (f id) w) -> okay (id ← get_protocol_id; f id) w.
Proof.
  intros (_ & e & _ & Hp) Hf. unfold okay.
  rewrite SR_bind_run with (a := accept_pegin_protocol_id (uuid_from_u128 (pr_committeeId e)) (pr_slotId e)) (s' := w);
    [by apply Hf|]. unfold get_protocol_id, get_ctx, mbind, SR_bind. cbn. by rewrite Hp.
Qed.

Lemma okay_invoke {T} p (m : SR W DomainErrors T) w :
  (forall w, okay m w) -> okay (invoke_contract_safe p verifier m) w.
Proof.
  intros Hm. destruct (verified p w) as [w' Hv]. unfold okay, invoke_contract_safe.
  rewrite (SR_bind_run _ _ _ _ _ Hv). apply Hm.
Qed.

Lemma okay_call c w : okay (call c) w.
Proof. apply okay_call_with. destruct (call_ok c (env w)). eauto. Qed.

Lemma okay_request_pegin p w : okay (request_pegin verifier p) w.
Proof.
  apply okay_map_err. destruct (okay_invoke p (call (RequestPegin p)) w (okay_call _)) as (u & w' & Hr).
  exists u, w'. unfold already_requested. by rewrite Hr.
Qed.

Lemma okay_accept_pegin p w : okay (accept_pegin verifier p) w.
Proof. apply okay_map_err, okay_invoke, okay_call. Qed.

(** *** Preparing the setup *)

Lemma to_addresses_run ds (w : W) :
  Forall (fun d => is_Some (socket_addr_from_contracts d)) ds ->
  exists l, to_addresses ds w = (Ok l, w) /\ length l = length ds /\
    Forall (fun s => s = "" \/ exists a, s = socket_addr_to_string a) l.
Proof.
  induction 1 as [|d ds [a Ha] _ (l & Hl & Hlen & Hf)]; [by exists []|].
  exists (default "" (socket_addr_to_string <$> a) :: l). cbn [to_addresses]. rewrite Ha.
  unfold required. rewrite SR_bind_run with (a := a) (s' := w) by done. rewrite (SR_bind_run _ _ _ _ _ Hl).
  split_and!; [done|cbn; lia|]. constructor; [|done]. destruct a; cbn; eauto.
Qed.

Lemma pubkey_hashes_run l (w : W) :
  exists ks w', pubkey_hashes_of l w = (Ok ks, w') /\ length ks = length l.
Proof.
  revert w. induction l as [|m l IH]; intros w; [by exists [], w|]. cbn [pubkey_hashes_of].
  destruct (keys_ok (memberAddress m) (env w)) as (ks & e' & Hk & [k Hk2]).
  rewrite SR_bind_run with (a := ks) (s' := mkWorld (state w) (saved w) e' (trace w))
    by (unfold on_env; by rewrite Hk).
  unfold required. rewrite Hk2. rewrite SR_bind_run with (a := k) (s' := mkWorld (state w) (saved w) e' (trace w)) by done.
  destruct (IH (mkWorld (state w) (saved w) e' (trace w))) as (rest & w' & Hr & Hlen).
  rewrite (SR_bind_run _ _ _ _ _ Hr). exists (k :: rest), w'. split; [done|]. cbn. lia.
Qed.

Lemma comms_addresses_run me l (w : W) :
  (exists a, me = socket_addr_to_string a) ->
  Forall (fun p => fst p = "" \/ exists a, fst p = socket_addr_to_string a) l ->
  exists r, comms_addresses me l w = (Ok r, w).
Proof.
  intros [a0 ->]. induction 1 as [|[s h] l Hs _ [r IH]]; [by exists []|]. cbn [comms_addresses].
  assert (Hp : is_Some (parse_socket_addr (if bool_decide (s = "") then socket_addr_to_string a0 else s))).
  { case_bool_decide; [rewrite socket_addr_round_trip; eauto|]. destruct Hs as [?|[a Ha]]; [done|].
    cbn in Ha. rewrite Ha, socket_addr_round_trip. eauto. }
  destruct Hp as [a ->]. rewrite (SR_bind_run _ _ _ _ _ IH). by eexists.
Qed.

Lemma okay_send_setup id (w : W) :
  requested_ok (ctx (state w)) -> is_Some (my_p2p_address (ctx (state w))) ->
  okay (send_setup_to_bitvmx id) w.
Proof.
  intros Hreq [mine Hmine]. unfold send_setup_to_bitvmx.
  destruct (communication_ok id (env w)) as (ds & e1 & Hds & Hlen & Hall).
  set (w1 := mkWorld (state w) (saved w) e1 (trace w)).
  destruct (to_addresses_run ds w1 Hall) as (addrs & Ha & Hla & Hfa).
  destruct (committee_ok id (env w1)) as [e2 Hc]. set (w2 := mkWorld (state w1) (saved w1) e2 (trace w1)).
  destruct (pubkey_hashes_run (members committee) w2) as (ks & w3 & Hk & Hlk).
  assert (Hst : state w3 = state w) by (destruct (keeps_pubkey_hashes (members committee) w2) as [Hs _]; by rewrite Hk in Hs).
  assert (Haddr : get_committee_addresses id w = (Ok addrs, w1)).
  { unfold get_committee_addresses. rewrite SR_bind_run with (a := ds) (s' := w1); [done|].
    unfold on_env. by rewrite Hds. }
  assert (Hkeys : get_committee_pubkey_hashes id w1 = (Ok ks, w3)).
  { unfold get_committee_pubkey_hashes. rewrite SR_bind_run with (a := committee) (s' := w2); [done|].
    unfold on_env. by rewrite Hc. }
  unfold okay. rewrite (SR_bind_run _ _ _ _ _ Haddr), (SR_bind_run _ _ _ _ _ Hkeys).
  apply okay_read. rewrite Hst, Hmine. apply okay_need; [eauto|intros a [= <-]].
  destruct (comms_addresses_run (socket_addr_to_string (address mine)) (zip addrs ks) w3) as [r Hr]; [eauto| |].
  { apply Forall_forall. intros [x y] Hp. apply (proj1 (Forall_forall _ _) Hfa). by eapply elem_of_zip_l. }
  assert (Hb : map_err from_failure (build_communication_data (socket_addr_to_string (address mine)) addrs ks) w3
    = (Ok r, w3)).
  { unfold map_err, build_communication_data. rewrite (proj2 (Nat.eqb_eq _ _)) by congruence. cbn [negb].
    by rewrite Hr. }
  unfold okay. rewrite (SR_bind_run _ _ _ _ _ Hb). apply okay_protocol_id; [by rewrite Hst|].
  intros. apply okay_send.
Qed.

(** The request and the event have what the message to BitVMX is built of. *)
Definition buildable (c : FlowContext) : Prop :=
  (exists p, request_pegin_spv_proof c = Some p /\ is_Some (head (output_values (tx p)))) /\
  (exists e, pegin_requested c = Some e /\ is_Some (get_from_2 (to_checksum (pr_rskDestinationAddress e))) /\
     is_Some (even_public_key_from_slice (pr_btcReimbursementPubKey e))).

Lemma okay_set {A} f (m : SR W FlowError A) w :
  okay m (mkWorld (mkState (flow_id (state w)) (f (ctx (state w))) (created_at (state w)))
            (saved w) (env w) (trace w)) ->
  okay (_ ← set_ctx f; m) w.
Proof. done. Qed.

Lemma calc_op_role_run (w : W) :
  committee_output (ctx (state w)) = Some committee -> exists r, calc_op_role w = (Ok r, w).
Proof.
  intros Hout. unfold calc_op_role, get_ctx, mbind, SR_bind. cbn. rewrite Hout. cbn.
  destruct committee_member as (m & -> & [Hr|Hr]); cbn; rewrite Hr; by eexists.
Qed.

Lemma okay_send_request id (w : W) :
  requested_ok (ctx (state w)) -> buildable (ctx (state w)) -> okay (send_pegin_request_to_bitvmx id) w.
Proof.
  intros Hreq [(p & Hp & [amount Ham]) (e & He & [addr Haddr] & [key Hkey])].
  unfold send_pegin_request_to_bitvmx. destruct (committee_ok id (env w)) as [e1 Hc].
  set (w1 := mkWorld (state w) (saved w) e1 (trace w)).
  unfold okay. rewrite SR_bind_run with (a := committee) (s' := w1) by (unfold on_env; by rewrite Hc).
  apply okay_set. set (w2 := mkWorld _ _ _ _).
  destruct (calc_op_role_run w2) as [r Hr]; [done|].
  unfold okay. rewrite (SR_bind_run _ _ _ _ _ Hr). apply okay_set. set (w3 := mkWorld _ _ _ _).
  apply okay_read. cbn. rewrite He. apply okay_need; [eauto|intros a [= <-]].
  assert (Hx : extract_pegin_amount w3 = (Ok amount, w3)).
  { unfold extract_pegin_amount, get_ctx, mbind, SR_bind. cbn. rewrite Hp. cbn. by rewrite Ham. }
  unfold okay. rewrite (SR_bind_run _ _ _ _ _ Hx). destruct committee_key as [ck Hck].
  assert (Hmsg : exists msg, build_pegin_request_message e committee amount w3 = (Ok msg, w3)).
  { unfold build_pegin_request_message, required. rewrite Haddr, Hck, Hkey. by eexists. }
  destruct Hmsg as [msg Hmsg]. unfold okay. rewrite (SR_bind_run _ _ _ _ _ Hmsg).
  apply okay_protocol_id; [exact Hreq|]. intros. apply okay_send.
Qed.

Lemma okay_prepare (w : W) :
  at_step StepPreparePeginSetup (state w) (saved w) -> op_role (ctx (state w)) = None ->
  buildable (ctx (state w)) -> okay prepare_pegin_setup w.
Proof.
  intros Hat Hrole Hb. pose proof Hat as (Hs & Hok & _). unfold ctx_ok in Hok. rewrite Hs in Hok.
  destruct Hok as (_ & Hreq & _). pose proof Hreq as (_ & e & He & _). unfold prepare_pegin_setup.
  apply okay_read. rewrite He. apply okay_need; [eauto|intros a [= <-]].
  apply okay_bind; [by apply okay_send_request|]. intros [] w' Hr.
  pose proof (send_pegin_request_hoare (pr_committeeId e) w (conj Hat Hrole)) as Hp. rewrite Hr in Hp.
  destruct Hp as (Hs' & Hok' & _). unfold ctx_ok in Hok'. rewrite Hs' in Hok'. destruct Hok' as (_ & ? & ?).
  by apply okay_send_setup.
Qed.

(** *** Entering and completing steps *)

Lemma position_of_found l i m :
  find_member my_address l = Some m -> is_Some (position_of my_address i l).
Proof.
  unfold find_member. revert i. induction l as [|x l IH]; intros i; [done|]. cbn [position_of]. rewrite filter_cons.
  case_decide; [rewrite bool_decide_true by done; eauto|]. rewrite bool_decide_false by done. apply IH.
Qed.

Lemma my_committee_index_run (w : W) :
  role_ok (ctx (state w)) -> is_Some (op_role (ctx (state w))) ->
  exists out i, committee_output (ctx (state w)) = Some out /\
    position_of my_address 0 (members out) = Some i /\ my_committee_index w = (Ok i, w).
Proof.
  intros Hrole [r Hr]. destruct (Hrole r Hr) as (out & m & Hout & Hm & _).
  destruct (position_of_found _ 0 _ Hm) as [i Hi]. exists out, i. split_and!; try done.
  unfold my_committee_index, get_ctx, mbind, SR_bind. cbn. rewrite Hout. cbn. by rewrite Hi.
Qed.

Lemma okay_names (w : W) :
  role_ok (ctx (state w)) -> is_Some (op_role (ctx (state w))) ->
  okay operator_take_transaction_name w /\ okay operator_won_transaction_name w.
Proof.
  intros Hrole Hr. destruct (my_committee_index_run w Hrole Hr) as (out & i & _ & _ & Hi).
  unfold operator_take_transaction_name, operator_won_transaction_name, okay.
  rewrite !(SR_bind_run _ _ _ _ _ Hi). split; by do 2 eexists.
Qed.

Lemma okay_operator_requests (w : W) :
  accepted_ok (ctx (state w)) ->
  okay request_operator_take_transaction_info w /\ okay request_operator_won_transaction_info w.
Proof.
  intros (Hreq & Hrole & Hr & _). destruct (okay_names w Hrole Hr).
  split; (apply okay_protocol_id; [done|intros id]; apply okay_bind; [done|]; intros; apply okay_send).
Qed.

Lemma okay_add_hash (w : W) :
  prover_ok (ctx (state w)) -> is_Some (operator_take_txid (ctx (state w))) ->
  is_Some (operator_won_txid (ctx (state w))) -> okay add_operator_take_hash w.
Proof.
  intros [(_ & _ & _ & Hacc) Hr] Ht Hw. unfold add_operator_take_hash.
  unfold okay. rewrite SR_bind_run with (a := Prover) (s' := w)
    by (unfold try_get_op_role, get_ctx, mbind, SR_bind; cbn; by rewrite Hr).
  rewrite bool_decide_true by done. cbn [negb]. apply okay_read.
  do 3 (apply okay_need; [done|intros ? _]). apply okay_map_err, okay_call.
Qed.

Lemma okay_write_marker (w : W) : requested_ok (ctx (state w)) -> okay write_completion_marker w.
Proof.
  intros Hreq. apply okay_protocol_id; [done|]. intros id.
  apply okay_bind; [apply okay_env; destruct (signal_ok id (env w)); eauto|]. intros [] w' _.
  unfold okay, record, smodify. eauto.
Qed.

Lemma okay_finish (w : W) :
  requested_ok (ctx (state w)) -> is_Some (pegin_accepted (ctx (state w))) ->
  okay (_ ← send_pegin_accepted_to_bitvmx; write_completion_marker) w.
Proof.
  intros Hreq Hacc. apply okay_keeps.
  - unfold send_pegin_accepted_to_bitvmx. eauto 10 using keeps_send, keeps_protocol_id with keeps.
  - apply okay_read, okay_need; [done|]. intros e _. apply okay_protocol_id; [done|]. intros. apply okay_send.
  - intros _ w' _ Hst. apply okay_write_marker. by rewrite Hst.
Qed.

Lemma okay_request_spv (w : W) : is_Some (bitvmx_pegin_accepted (ctx (state w))) -> okay request_spv_proof w.
Proof.
  intros [a Ha]. apply okay_read, okay_need; [|intros; apply okay_send].
  unfold get_accept_pegin_txid_from_bitvmx_var. rewrite Ha. eauto.
Qed.

(** What the two self-completing steps need of the nested call. *)
Definition okay_complete (complete : StepData -> SR W FlowError unit) : Prop :=
  (forall w, step (ctx (state w)) = StepAddOperatorTakeHash -> okay (complete DataOperatorTakeHashAdded) w) /\
  (forall w, step (ctx (state w)) = StepDispatchAcceptPeginTransactionAllConvergeCheckpoint ->
     okay (complete DataAcceptPeginTransactionDispatched) w).

(** A step whose context is right is entered. *)
Lemma okay_entry complete next (w : W) :
  at_step next (state w) (saved w) -> next <> StepPeginTransactionFound ->
  (next = StepPreparePeginSetup -> op_role (ctx (state w)) = None /\ buildable (ctx (state w))) ->
  okay_complete complete -> okay (entry_action verifier complete next) w.
Proof.
  intros Hat Hne Hprep [Hadd Hdispatch]. pose proof Hat as (Hs & Hok & _). unfold ctx_ok in Hok. rewrite Hs in Hok.
  destruct next; try done; cbn [entry_action]; try apply okay_ret.
  - apply okay_read, okay_send.
  - apply okay_bind; [apply okay_env; destruct (uuid_ok (env w)) as (? & ? & ?); eauto|].
    intros. apply okay_send.
  - destruct Hprep; [done|]. by apply okay_prepare.
  - apply okay_operator_requests, Hok.
  - apply okay_operator_requests, Hok.
  - destruct Hok as (? & ? & ?).
    apply okay_keeps; [apply keeps_add_operator_take_hash|by apply okay_add_hash|].
    intros _ w' _ Hst. apply Hadd. by rewrite Hst.
  - apply okay_keeps; [apply keeps_dispatch_transaction| |].
    + apply okay_protocol_id; [apply Hok|]. intros. apply okay_send.
    + intros _ w' _ Hst. apply Hdispatch. by rewrite Hst.
  - apply okay_request_spv. apply Hok.
  - apply okay_read, okay_need; [apply Hok|]. intros p _. apply okay_accept_pegin.
  - destruct Hok as ((Hreq & _) & e & He & _). apply okay_finish; [done|eauto].
Qed.

Lemma okay_start complete next (w : W) :
  enter_ok next (ctx (state w)) -> saved_ok (saved w) -> next <> StepPeginTransactionFound ->
  (next = StepPreparePeginSetup -> buildable (ctx (state w))) ->
  okay_complete complete -> okay (start_step_with verifier complete next) w.
Proof.
  intros [Hok Hrole] Hv Hne Hb Hc. unfold start_step_with. apply okay_set. set (w1 := mkWorld _ _ _ _).
  assert (Hat : at_step next (state w1) (saved w1)) by by split.
  apply okay_bind.
  { case_bool_decide; [apply okay_persist|apply okay_ret]. }
  intros [] w2 Hw2. assert (Hst : ctx (state w2) = set_step next (ctx (state w)) /\ at_step next (state w2) (saved w2)).
  { case_bool_decide; [|injection Hw2 as <-; by split].
    pose proof (hoare_persist_step next w1 Hat) as Hp. rewrite Hw2 in Hp. split; [|apply Hp].
    pose proof (hoare_persist_with (fun _ _ => True) save_flow (fun s _ => s = state w1) (fun s _ => s = state w1)
      (fun _ _ H => H) (fun _ _ _ => Logic.I) w1 eq_refl) as Hp'. fold (persist_state (E := E)) in Hp'. rewrite Hw2 in Hp'. by rewrite Hp'. }
  destruct Hst as [Hctx Hat2]. apply okay_bind.
  { apply okay_entry; try done. intros Hn. rewrite Hctx. auto. }
  clear Hw2. intros [] w3 _. apply okay_read. case_bool_decide; [apply okay_persist|apply okay_ret].
Qed.

Lemma okay_wait complete next (w : W) :
  next = StepWaitAllOperatorTakeTxidsAdded \/ next = StepConfirmAcceptPeginTransaction ->
  okay (start_step_with verifier complete next) w.
Proof.
  intros Hn. apply okay_set. apply okay_bind; [case_bool_decide; [apply okay_persist|apply okay_ret]|].
  intros _ w1 _. apply okay_bind; [destruct Hn as [->| ->]; apply okay_ret|]. intros _ w2 _.
  apply okay_read. case_bool_decide; [apply okay_persist|apply okay_ret].
Qed.

Lemma okay_complete_upto depth : okay_complete (complete_step_with verifier (start_step_upto verifier depth)).
Proof.
  split; intros w Hs; apply okay_read; rewrite Hs; cbn [process_step_data];
    [change (okay (start_step_upto verifier depth StepWaitAllOperatorTakeTxidsAdded) w)|
     change (okay (start_step_upto verifier depth StepConfirmAcceptPeginTransaction) w)];
    destruct depth; apply okay_wait; auto.
Qed.

(** Data that name what the flow expects. *)
Definition fits (c : FlowContext) (d : StepData) : Prop :=
  match d with
  | DataPeginRequested e => uint 64 (pr_slotId e)
  | DataCommInfo _ => buildable c
  | DataTransactionInfo n _ =>
      exists out i, committee_output c = Some out /\ position_of my_address 0 (members out) = Some i /\
        n = indexed_name (if bool_decide (step c = StepRequestOperatorTakeTransactionInfo)
                          then "OPERATOR_TAKE_TX" else "OPERATOR_WON_TX") i
  | _ => True
  end.

Lemma names_run (w : W) out i :
  committee_output (ctx (state w)) = Some out -> position_of my_address 0 (members out) = Some i ->
  operator_take_transaction_name w = (Ok (indexed_name "OPERATOR_TAKE_TX" i), w) /\
  operator_won_transaction_name w = (Ok (indexed_name "OPERATOR_WON_TX" i), w).
Proof.
  intros Hout Hi. unfold operator_take_transaction_name, operator_won_transaction_name, my_committee_index,
    get_ctx, mbind, SR_bind. cbn. rewrite Hout. cbn. by rewrite Hi.
Qed.

Lemma then_next {A} (m : SR W FlowError A) (n : Steps) w :
  okay m w -> exists w1, (m ≫= fun _ => mret n) w = (Ok n, w1).
Proof. intros (a & w1 & Hm). exists w1. by rewrite (SR_bind_run _ _ _ _ _ Hm). Qed.

Lemma okay_process d next (w : W) :
  let c := ctx (state w) in
  transition c d next -> fits c d ->
  exists n w1, process_step_data verifier (step c) d w = (Ok n, w1) /\
    (n = StepPreparePeginSetup -> buildable (ctx (state w1))).
Proof.
  cbn zeta. intros Ht Hf.
  inversion Ht as [Hs|p Hs|p Hs Hp|e Hs|ci Hs|a Hs Hr|a Hs Hr|n tx Hs|n tx Hs|Hs|Hs|Hs|Hs|st Hs Htx|p Hs|Hs|e Hff Htx];
    subst; try rewrite Hs; cbn [process_step_data]; try (by do 2 eexists).
  - set (w1 := mkWorld (mkState (flow_id (state w)) (set_request_pegin_spv_proof p (ctx (state w)))
      (created_at (state w))) (saved w) (env w) (trace w)).
    rewrite SR_bind_run with (a := tt) (s' := w1) by done. destruct (okay_persist w1) as ([] & w2 & Hw2).
    rewrite (SR_bind_run _ _ _ _ _ Hw2).
    destruct (then_next (request_pegin verifier p) StepWaitPeginRequested w2 (okay_request_pegin _ _)) as [w3 Hw3].
    by exists StepWaitPeginRequested, w3.
  - destruct (then_next (request_pegin verifier p) StepWaitPeginRequested w (okay_request_pegin _ _)) as [w3 Hw3].
    exists StepWaitPeginRequested, w3. split; [|done]. unfold retry_request_pegin_step, get_ctx.
    rewrite SR_bind_run with (a := ctx (state w)) (s' := w) by done. by rewrite Hp.
  - unfold fits, uint in Hf. unfold record_pegin_requested, mbind, SR_bind. cbn.
    rewrite (proj2 (Z.leb_le _ _)), (proj2 (Z.ltb_lt _ _)) by lia. by do 2 eexists.
  - unfold try_get_op_role, get_ctx, mbind, SR_bind. cbn. rewrite Hr. by do 2 eexists.
  - unfold try_get_op_role, get_ctx, mbind, SR_bind. cbn. rewrite Hr. by do 2 eexists.
  - destruct Hf as (out & i & Hout & Hi & ->). rewrite bool_decide_true by done.
    destruct (names_run w out i Hout Hi) as [Hn _]. unfold handle_operator_take_transaction_info.
    rewrite (SR_bind_run _ _ _ _ _ Hn), bool_decide_true by done. by do 2 eexists.
  - destruct Hf as (out & i & Hout & Hi & ->). rewrite bool_decide_false by congruence.
    destruct (names_run w out i Hout Hi) as [_ Hn]. unfold handle_operator_won_transaction_info.
    rewrite (SR_bind_run _ _ _ _ _ Hn), bool_decide_true by done. by do 2 eexists.
  - unfold confirm_accept_pegin_transaction, get_ctx, mbind, SR_bind. cbn. rewrite Htx. cbn.
    rewrite bool_decide_true by done. by do 2 eexists.
  - assert (Hp : process_step_data verifier (step (ctx (state w))) (DataPeginAccepted e) =
      complete_with_confirmed_pegin_acceptance e) by by destruct (step (ctx (state w))).
    rewrite Hp. unfold complete_with_confirmed_pegin_acceptance, get_ctx, mbind, SR_bind. cbn. rewrite Htx. cbn.
    rewrite bool_decide_true by done. by do 2 eexists.
Qed.

Lemma transition_not_initial c d next : transition c d next -> next <> StepPeginTransactionFound.
Proof. by inversion 1. Qed.

Lemma okay_complete_step d next (w : W) :
  flow_ok (state w) (saved w) -> transition (ctx (state w)) d next -> fits (ctx (state w)) d ->
  okay (complete_step verifier d) w.
Proof.
  intros [Hok Hv] Ht Hf. apply okay_read.
  destruct (okay_process d next w Ht Hf) as (n & w1 & Hp & Hb).
  pose proof (process_step_data_hoare verifier (ctx (state w)) d w (conj eq_refl (conj Hok Hv))) as Hh.
  rewrite Hp in Hh. destruct Hh as (Ht' & _ & Hen & Hv1). unfold okay. rewrite (SR_bind_run _ _ _ _ _ Hp).
  change (okay (start_step_with verifier (complete_step_with verifier (start_step_upto verifier 0)) n) w1).
  apply okay_start; [done|done|by eapply transition_not_initial|done|apply okay_complete_upto].
Qed.

End Progress.

(** ** What the flow guarantees *)

(** C22: The context of a peg-in is complete at every step.  In every reachable
    flow, whatever calls failed on the way and however often it was restarted
    from the store, the context holds what the entry actions and the data of its
    step rely on (the proof of the request, the event with the program
    identifier derived from it, the role with the committee it was read from, the
    transaction BitVMX accepted, at the end an acceptance of that very
    transaction), in memory as in the store. *)
Theorem pegin_context_complete `{FlowCodecs, !CommitteeServices E, !PeginServices E, !BridgeNode E, Sha256} verifier (w : World E) :
  reachable verifier w ->
  ctx_ok (ctx (state w)) /\ forall s, saved w = Some s -> ctx_ok (ctx s).
Proof. apply reachable_flow_ok. Qed.

(** The flow follows its transitions.  Data that [complete_step] accepts
    move the flow along the transition relation, past the two steps that
    complete themselves, and the store then holds the new state; data it refuses,
    and failures of an entry action, leave the flow at its step or at the step it
    was entering, never elsewhere. *)
Theorem pegin_follows_transitions `{FlowCodecs, !CommitteeServices E, !PeginServices E, !BridgeNode E, Sha256} verifier (w : World E) d :
  reachable verifier w ->
  let c := ctx (state w) in
  match complete_step verifier d w with
  | (Ok _, w') => saved w' = Some (state w') /\
      exists next, transition c d next /\ step (ctx (state w')) = landing next
  | (Err _, w') => step (ctx (state w')) = step c \/
      exists next, transition c d next /\
        (step (ctx (state w')) = next \/ step (ctx (state w')) = landing next)
  end.
Proof.
  intros Hw. apply reachable_flow_ok in Hw. cbn zeta.
  pose proof (complete_step_with_run verifier _ d w Hw (starts_upto verifier 1)) as Hr. cbn zeta in Hr.
  change (complete_step verifier d w) with (complete_step_with verifier (start_step_upto verifier 1) d w).
  destruct (complete_step_with _ _ d w) as [[u|x] w'].
  - destruct Hr as (next & Ht & Hl & _ & Hs). eauto.
  - destruct Hr as [[Hs _]|(next & Ht & Hs & _)]; eauto.
Qed.

(** C5: A peg-in is done only when its acceptance is confirmed.  A step of a
    reachable flow that ends at [Done], whether or not it succeeds, was given the
    event that the contract accepted exactly the transaction BitVMX had named,
    and found the flow at one of the four steps from the dispatch on. *)
Theorem pegin_done_only_if_accepted `{FlowCodecs, !CommitteeServices E, !PeginServices E, !BridgeNode E, Sha256} verifier (w : World E) d :
  reachable verifier w -> step (ctx (state w)) <> StepDone ->
  step (ctx (state (snd (complete_step verifier d w)))) = StepDone ->
  exists e, d = DataPeginAccepted e /\ allows_fast_forward_to_pegin_accepted (step (ctx (state w))) = true /\
    get_accept_pegin_txid_from_bitvmx_var (ctx (state w)) = Some (fb_32_to_txid (pa_acceptPeginTxid e)).
Proof.
  intros Hw Hne Hdone. apply reachable_flow_ok in Hw.
  pose proof (complete_step_with_run verifier _ d w Hw (starts_upto verifier 1)) as Hr. cbn zeta in Hr.
  change (complete_step verifier d w) with (complete_step_with verifier (start_step_upto verifier 1) d w) in Hdone.
  assert (Hnext : exists next, transition (ctx (state w)) d next /\ (next = StepDone \/ landing next = StepDone)).
  { destruct (complete_step_with _ _ d w) as [[u|x] w']; cbn in Hdone.
    - destruct Hr as (next & Ht & Hl & _). exists next. split; [done|]. right. congruence.
    - destruct Hr as [[Hs _]|(next & Ht & Hs & _)]; [congruence|]. exists next. split; [done|].
      destruct Hs; [left|right]; congruence. }
  destruct Hnext as (next & Ht & Hn). destruct Ht; destruct Hn; try done; eauto.
Qed.

(** A finished peg-in stays finished.  At [Done] and at [Failed] every data
    are refused and nothing changes: neither the flow, nor the store, nor does
    any message or call go out. *)
Theorem finished_pegin_refuses_data `{FlowCodecs, !CommitteeServices E, !PeginServices E, !BridgeNode E, Sha256} verifier (w : World E) d :
  is_terminal (step (ctx (state w))) = true ->
  complete_step verifier d w = (Err (Chain [Msg "Invalid state transition"]), w).
Proof.
  intros Ht. unfold complete_step, complete_step_with.
  rewrite SR_bind_run with (a := ctx (state w)) (s' := w) by done.
  apply SR_bind_err. by destruct (step (ctx (state w))), d.
Qed.

(** A peg-in makes progress.  With services that answer, a reachable flow
    that is handed data of a transition succeeds: no step fails for want of
    something an earlier step should have recorded. *)
Theorem pegin_progress `{FlowCodecs, !CommitteeServices E, !PeginServices E, !BridgeNode E, Sha256} verifier `{!Reliable verifier}
    (w : World E) d next :
  reachable verifier w -> transition (ctx (state w)) d next -> fits (ctx (state w)) d ->
  exists w', complete_step verifier d w = (Ok tt, w').
Proof.
  intros Hw Ht Hf. destruct (okay_complete_step verifier d next w (reachable_flow_ok _ _ Hw) Ht Hf) as ([] & w' & Hr).
  by exists w'.
Qed.

(** ** A run *)

Module Sample.

Export Flow.Sample.

(** Services that always answer. *)
#[export] Instance services : PeginServices unit := {|
  contract_call _ e := (Ok tt, e);
  broker_send _ e := (Ok tt, e);
  save_flow _ e := (Ok tt, e);
  signal_done _ e := (Ok tt, e)
|}.

#[export] Instance reliable : Reliable Dummy.
Proof.
  refine {| committee := sample_committee |}; try by (intros; repeat eexists).
  - eexists. split; [reflexivity|]. by left.
  - intros id e. eexists _, e. split; [reflexivity|]. split; [reflexivity|].
    repeat constructor; by eexists.
Defined.

Definition proof : BtcTxSPVProof := NativeBridge.Sample.spv.
Definition requested : PeginRequested := mkPeginRequested 77 5 [3] [4] [5] [1; 2; 3] [7; 8].
Definition accepted : PeginAcceptedMessage := mkAcceptedMessage [8; 7] [1] [2].

(** A peg-in of a prover, data by data. *)
Definition inputs : list StepData :=
  [DataPeginTransactionFound; DataRequestPeginSpvProof proof; DataPeginRequested requested;
   DataCommInfo (mkCommsAddress _ "10.0.0.1:80" "comm"); DataBitvmxPeginAccepted accepted;
   DataTransactionInfo "OPERATOR_TAKE_TX_1" [6]; DataTransactionInfo "OPERATOR_WON_TX_1" [7];
   DataAllOperatorTakeTxidsAdded; DataAcceptPeginSignaturesReady;
   DataAcceptPeginTransactionConfirmed (mkTransactionStatus [8; 7] 6);
   DataAcceptPeginSpvProof proof].
Definition acceptance : StepData := DataPeginAccepted (mkPeginAccepted [7; 8] [3] 7).

Definition fresh : World unit := new_flow [3; 2; 1] [0] 0 tt.
Definition run (l : list StepData) : World unit :=
  foldl (fun w d => snd (complete_step Dummy d w)) fresh l.

Lemma run_reachable l : reachable Dummy (run l).
Proof.
  unfold run. assert (Hr : reachable Dummy fresh) by constructor. revert Hr. generalize fresh.
  induction l as [|d l IH]; intros w Hw; [done|]. apply IH. by constructor.
Qed.

End Sample.

#[local] Existing Instances NativeBridge.Sample.crates Bitvmx.Sample.tail_hash Flow.Sample.socket_addrs
  Flow.Sample.codecs Flow.Sample.committee_services Flow.Sample.node Sample.services Sample.reliable.

Lemma pegin_context_complete_witness :
  step (ctx (state (Sample.run Sample.inputs))) = StepAcceptPegin /\
  ctx_ok (E := unit) (ctx (state (Sample.run Sample.inputs))).
Proof.
  split; [vm_compute; reflexivity|].
  refine (proj1 (pegin_context_complete Dummy (Sample.run Sample.inputs) _)). apply Sample.run_reachable.
Defined.

Lemma pegin_follows_transitions_witness :
  let w := Sample.run (take 6 Sample.inputs) in
  let '(r, w') := complete_step Dummy (DataTransactionInfo "OPERATOR_WON_TX_1" [7]) w in
  r = Ok tt /\ step (ctx (state w)) = StepRequestOperatorWonTransactionInfo /\
  step (ctx (state w')) = StepWaitAllOperatorTakeTxidsAdded /\ saved w' = Some (state w').
Proof.
  cbn zeta. pose proof (pegin_follows_transitions Dummy (Sample.run (take 6 Sample.inputs))
    (DataTransactionInfo "OPERATOR_WON_TX_1" [7]) (Sample.run_reachable _)) as Ht.
  cbn zeta in Ht. destruct (complete_step _ _ _) as [r w'] eqn:Hr.
  assert (Hr' : (r, step (ctx (state w'))) = (Ok tt, StepWaitAllOperatorTakeTxidsAdded)).
  { change r with (fst (r, w')). change w' with (snd (r, w')) at 2. rewrite <- Hr. vm_compute. reflexivity. }
  injection Hr' as -> Hs. split; [reflexivity|]. split; [vm_compute; reflexivity|]. split; [exact Hs|].
  exact (proj1 Ht).
Defined.

Lemma pegin_done_only_if_accepted_witness :
  let w := Sample.run Sample.inputs in
  step (ctx (state (snd (complete_step Dummy Sample.acceptance w)))) = StepDone /\
  exists e, Sample.acceptance = DataPeginAccepted e /\
    allows_fast_forward_to_pegin_accepted (step (ctx (state w))) = true /\
    get_accept_pegin_txid_from_bitvmx_var (ctx (state w)) = Some (fb_32_to_txid (pa_acceptPeginTxid e)).
Proof.
  cbn zeta. split; [vm_compute; reflexivity|].
  apply (pegin_done_only_if_accepted Dummy (Sample.run Sample.inputs) Sample.acceptance).
  - apply Sample.run_reachable.
  - vm_compute. discriminate.
  - vm_compute. reflexivity.
Defined.

Lemma finished_pegin_refuses_data_witness :
  let w := Sample.run (Sample.inputs ++ [Sample.acceptance]) in
  complete_step Dummy DataRetryAcceptPegin w = (Err (Chain [Msg "Invalid state transition"]), w).
Proof. cbn zeta. apply finished_pegin_refuses_data. vm_compute. reflexivity. Defined.

Lemma pegin_progress_witness :
  let w := Sample.run (take 3 Sample.inputs) in
  exists w', complete_step Dummy (DataCommInfo (mkCommsAddress _ "10.0.0.1:80" "comm")) w = (Ok tt, w').
Proof.
  cbn zeta. apply (pegin_progress Dummy (Sample.run (take 3 Sample.inputs)) _ StepPreparePeginSetup).
  - apply Sample.run_reachable.
  - apply T_comm. vm_compute. reflexivity.
  - split; [exists Sample.proof|exists Sample.requested]; (split; [vm_compute; reflexivity|]).
    + exists 7. reflexivity.
    + split; [exists "Ab"|exists [4]]; reflexivity.
Defined.
