(* ===== verification/PegoutFlow.v ===== *)
(** * The peg-out state machine (crates/coordinator/src/flows/pegout/pegout_flow.rs)

    One peg-out, from the confirmed request on Rootstock.  The committee signs the
    user-take transaction, which is dispatched, confirmed and registered; or the
    signatures do not arrive in time, and the take of an operator is triggered
    instead.  [complete_step] checks the data against the current step and enters
    the next one, [start_step] performs the entry action and stores the state. *)

From stdpp Require Import prelude strings pretty.
From S2P Require Import Prelude Types Events Bitvmx NativeBridge Flow.
Open Scope Z_scope.

(** ** Steps and data *)

Inductive Steps :=
| StepWaitPegoutRequested
| StepGetCommInfoAuthoritativeCheckpoint
| StepPrepareUserTakeSetup
| StepWaitUserTakeSignaturesReady
| StepDispatchUserTakeTransactionAllConvergeCheckpoint
| StepTriggerOperatorTake
| StepConfirmUserTakeTransaction
| StepRequestUserTakeSpvProof
| StepRegisterPegout
| StepDone
| StepFailed.

#[export] Instance Steps_eq_dec : EqDecision Steps.
Proof. solve_decision. Defined.

Definition allows_fast_forward_to_pegout_registered (s : Steps) : bool :=
  match s with
  | StepDispatchUserTakeTransactionAllConvergeCheckpoint | StepConfirmUserTakeTransaction
  | StepRequestUserTakeSpvProof | StepRegisterPegout => true
  | _ => false
  end.

(** The events of the contracts, with the fields in use. *)
Record PegoutRequested := mkPegoutRequested {
  po_committeeId : Z;
  po_slotId : Z;
  po_amount : Z;
  po_userPubKey : bytes;
  po_signature_txid : Hash256;
  po_signature_hash : bytes
}.

Record PegoutRegistered := mkPegoutRegistered {
  pg_txid : Hash256;
  pg_committeeId : Z;
  pg_slotId : Z
}.

Record PegOutAccepted := mkPegOutAccepted {
  poa_committee_id : bytes;
  poa_user_take_txid : bytes;
  poa_user_take_sighash : bytes;
  poa_user_take_nonce : bytes;
  poa_user_take_signature : bytes
}.

Section Types.
Context `{FlowCodecs}.

Record PegOutRequest := mkPegOutRequest {
  por_committee_id : bytes;
  por_slot_index : Z;
  por_amount : Z;
  por_pegout_id : bytes;
  por_user_pubkey : PublicKey;
  por_pegout_sighash : bytes;
  por_take_aggregated_key : PublicKey
}.

Inductive StepData :=
| DataPegoutRequested
| DataCommInfo (comm_info : CommsAddress)
| DataPegoutAccepted (accepted : PegOutAccepted)
| DataUserTakeSignaturesReady
| DataUserTakeTransactionDispatched
| DataTriggerOperatorTakeTimeout
| DataTransactionConfirmed (tx_status : TransactionStatus)
| DataSpvProof (spv_proof : BtcTxSPVProof)
| DataRetryRegisterPegout
| DataPegoutRegistered (e : EventWithBlock PegoutRegistered).

Record FlowContext := mkContext {
  pegout_requested : PegoutRequested;
  pegout_requested_tx_hash : Hash256;
  bitvmx_protocol_id : bytes;
  my_p2p_address : option CommsAddress;
  committee_output : option GetCommitteeOutput;
  peg_out_accepted : option PegOutAccepted;
  spv_proof : option BtcTxSPVProof;
  pegout_registered : option PegoutRegistered;
  pegout_registered_tx : option string;
  transaction_status : option TransactionStatus
}.

Record State := mkState { flow_id : bytes; step : Steps; ctx : FlowContext; created_at : option Z }.

(** The messages to BitVMX in use; a variable carries the value before it is
    printed as JSON. *)
Inductive BitvmxMessage :=
| SetVarPegoutRequest (id : bytes) (value : PegOutRequest)
| SetVarPegoutCompleted (id : bytes) (value : PegoutRegistered)
| GetVarPegoutAccepted (id : bytes)
| Setup (id : bytes) (program_type : string) (addresses : list CommsAddress) (leader : Z)
| GetCommInfo (id : bytes)
| GetTransaction (id txid : bytes)
| GetSPVProof (txid : bytes)
| DispatchTransactionName (id : bytes) (name : string).

Inductive Call :=
| RegisterPegout (spv_proof : BtcTxSPVProof)
| TriggerOperatorTake (pegout_txid : string).

Inductive Effect :=
| Sent (msg : BitvmxMessage)
| Called (c : Call)
| Marked (protocol_id : bytes).

(** Contracts gateway, broker, store and completion markers. *)
Class PegoutServices (E : Type) := {
  contract_call : Call -> SR E DomainErrors unit;
  broker_send : BitvmxMessage -> SR E FlowError unit;
  save_flow : State -> SR E FlowError unit;
  signal_done : bytes -> SR E FlowError unit
}.

End Types.

Abbreviation World E := (Flow.World State E Effect).

(** Updates of a context, one per field that is written. *)

Section Updates.
Context `{FlowCodecs}.

Definition set_my_p2p_address v (c : FlowContext) : FlowContext :=
  mkContext (pegout_requested c) (pegout_requested_tx_hash c) (bitvmx_protocol_id c) (Some v)
    (committee_output c) (peg_out_accepted c) (spv_proof c) (pegout_registered c) (pegout_registered_tx c)
    (transaction_status c).
Definition set_committee_output v (c : FlowContext) : FlowContext :=
  mkContext (pegout_requested c) (pegout_requested_tx_hash c) (bitvmx_protocol_id c) (my_p2p_address c)
    (Some v) (peg_out_accepted c) (spv_proof c) (pegout_registered c) (pegout_registered_tx c)
    (transaction_status c).
Definition set_peg_out_accepted v (c : FlowContext) : FlowContext :=
  mkContext (pegout_requested c) (pegout_requested_tx_hash c) (bitvmx_protocol_id c) (my_p2p_address c)
    (committee_output c) (Some v) (spv_proof c) (pegout_registered c) (pegout_registered_tx c)
    (transaction_status c).
Definition set_spv_proof v (c : FlowContext) : FlowContext :=
  mkContext (pegout_requested c) (pegout_requested_tx_hash c) (bitvmx_protocol_id c) (my_p2p_address c)
    (committee_output c) (peg_out_accepted c) (Some v) (pegout_registered c) (pegout_registered_tx c)
    (transaction_status c).
Definition set_pegout_registered v tx (c : FlowContext) : FlowContext :=
  mkContext (pegout_requested c) (pegout_requested_tx_hash c) (bitvmx_protocol_id c) (my_p2p_address c)
    (committee_output c) (peg_out_accepted c) (spv_proof c) (Some v) (Some tx) (transaction_status c).
Definition set_transaction_status v (c : FlowContext) : FlowContext :=
  mkContext (pegout_requested c) (pegout_requested_tx_hash c) (bitvmx_protocol_id c) (my_p2p_address c)
    (committee_output c) (peg_out_accepted c) (spv_proof c) (pegout_registered c) (pegout_registered_tx c)
    (Some v).

End Updates.

(** ** Operations *)

(** [u128::try_from] and [usize::try_from], with the message of the caller *)
Definition try_u128 {S} (msg : string) (z : Z) : SR S FlowError Z :=
  if (0 <=? z) && (z <? 2 ^ 128) then mret z else flow_bail msg.
Definition try_usize {S} (msg : string) (z : Z) : SR S FlowError Z :=
  if (0 <=? z) && (z <? 2 ^ 64) then mret z else flow_bail msg.

Section Flow.
Context `{FlowCodecs, !CommitteeServices E, !PegoutServices E, !BridgeNode E, Sha256}
  (verifier : NativeBridgeVerifier).
Abbreviation W := (World E).

Definition get_ctx : SR W FlowError FlowContext := w ← sget; mret (ctx (state w)).
Definition get_step : SR W FlowError Steps := w ← sget; mret (step (state w)).

Definition set_ctx (f : FlowContext -> FlowContext) : SR W FlowError unit :=
  smodify (fun w => mkWorld (mkState (flow_id (state w)) (step (state w)) (f (ctx (state w)))
                               (created_at (state w))) (saved w) (env w) (trace w)).
Definition set_step (s : Steps) : SR W FlowError unit :=
  smodify (fun w => mkWorld (mkState (flow_id (state w)) s (ctx (state w)) (created_at (state w)))
                      (saved w) (env w) (trace w)).

Definition flow_id_from_pegout_requested_tx_hash (tx_hash : Hash256) : bytes := from_tx "pegout_flow" tx_hash.

(** [PegoutFlow::new] *)
Definition new_flow (e : EventWithBlock PegoutRequested) (now : Z) : result FlowError State :=
  let inner := ev_inner e in
  if negb ((0 <=? po_committeeId inner) && (po_committeeId inner <? 2 ^ 128))
  then Err (Chain [Msg "committeeId too large for u128"]) else
  if negb ((0 <=? po_slotId inner) && (po_slotId inner <? 2 ^ 64))
  then Err (Chain [Msg "slotId too large for usize"]) else
  Ok (mkState (flow_id_from_pegout_requested_tx_hash (ev_tx_hash e)) StepWaitPegoutRequested
        (mkContext inner (ev_tx_hash e)
           (user_take_protocol_id (uuid_from_u128 (po_committeeId inner)) (po_slotId inner))
           None None None None None None None) (Some now)).

Definition from_saved_state (s : State) (e : E) (t : list Effect) : W := mkWorld s (Some s) e t.

Definition persist_state : SR W FlowError unit := persist_with save_flow.

Definition send_bitvmx_msg (msg : BitvmxMessage) : SR W FlowError unit :=
  send_with (broker_send msg) (Sent msg).
Definition call (c : Call) : SR W DomainErrors unit := call_with (contract_call c) (Called c).

Definition get_user_take_txid (c : FlowContext) : option bytes :=
  poa_user_take_txid <$> peg_out_accepted c.
Definition get_pegout_txid (c : FlowContext) : string := hex_encode (po_signature_txid (pegout_requested c)).

(** *** Requests to BitVMX *)

Definition request_bitvmx_comm_info : SR W FlowError unit :=
  req_id ← on_env id new_v4; send_bitvmx_msg (GetCommInfo req_id).

Definition dispatch_transaction : SR W FlowError unit :=
  c ← get_ctx; send_bitvmx_msg (DispatchTransactionName (bitvmx_protocol_id c) "USER_TAKE_TX").

Definition request_transaction_status : SR W FlowError unit :=
  c ← get_ctx;
  tx_id ← required "Expected user take tx_id not found" (get_user_take_txid c);
  send_bitvmx_msg (GetTransaction (bitvmx_protocol_id c) tx_id).

Definition request_spv_proof : SR W FlowError unit :=
  c ← get_ctx;
  tx_id ← required "Expected user take tx_id not found" (get_user_take_txid c);
  send_bitvmx_msg (GetSPVProof tx_id).

Definition request_pegout_accepted_var : SR W FlowError unit :=
  c ← get_ctx; send_bitvmx_msg (GetVarPegoutAccepted (bitvmx_protocol_id c)).

(** After a restart, the query whose answer the step waits for. *)
Definition redrive_pending_bitvmx_request : SR W FlowError unit :=
  s ← get_step;
  match s with
  | StepPrepareUserTakeSetup => request_pegout_accepted_var
  | StepGetCommInfoAuthoritativeCheckpoint => request_bitvmx_comm_info
  | StepRequestUserTakeSpvProof => request_spv_proof
  | _ => mret tt
  end.

Definition send_pegout_completed_to_bitvmx (r : PegoutRegistered) : SR W FlowError unit :=
  c ← get_ctx; send_bitvmx_msg (SetVarPegoutCompleted (bitvmx_protocol_id c) r).

Definition write_completion_marker : SR W FlowError unit :=
  c ← get_ctx; send_with (signal_done (bitvmx_protocol_id c)) (Marked (bitvmx_protocol_id c)).

(** *** Preparing the setup *)

Definition pegout_requested_to_bitvmx_request (event : PegoutRequested) (out : GetCommitteeOutput)
    : SR W FlowError PegOutRequest :=
  committee_id ← try_u128 "committeeId too large for u128" (po_committeeId event);
  if negb (length (po_userPubKey event) =? 33)%nat then flow_bail "Invalid user public key length" else
  user_pubkey ← required "Failed to parse user public key as compressed public key"
                  (public_key_from_slice (po_userPubKey event));
  take_aggregated_key ← required "Failed to parse aggregated public key from committee"
                          (public_key_from_slice (aggregatedKey out));
  slot_index ← try_usize "slotId too large for usize" (po_slotId event);
  mret (mkPegOutRequest (uuid_from_u128 committee_id) slot_index (po_amount event) (po_signature_txid event)
          user_pubkey (po_signature_hash event) take_aggregated_key).

Definition send_pegout_requested_to_bitvmx (committee_id : Z) : SR W FlowError unit :=
  out ← on_env domain (get_committee committee_id);
  _ ← set_ctx (set_committee_output out);
  c ← get_ctx;
  data_to_send ← pegout_requested_to_bitvmx_request (pegout_requested c) out;
  send_bitvmx_msg (SetVarPegoutRequest (bitvmx_protocol_id c) data_to_send).

Definition send_setup_to_bitvmx (committee_id : Z) : SR W FlowError unit :=
  c ← get_ctx;
  out ← required "Committee output not available for setup" (committee_output c);
  pubkey_hashes ← pubkey_hashes_of (members out);
  addresses ← get_committee_addresses committee_id;
  mine ← required "P2P address not available for setup" (my_p2p_address c);
  comms_addresses ← map_err from_failure
    (build_communication_data (socket_addr_to_string (address mine)) addresses pubkey_hashes);
  send_bitvmx_msg (Setup (bitvmx_protocol_id c) "take" comms_addresses 0).

Definition communicate_pegout_requested_to_bitvmx : SR W FlowError unit :=
  c ← get_ctx;
  committee_id ← try_u128 "Failed to convert to CommitteeId" (po_committeeId (pegout_requested c));
  _ ← send_pegout_requested_to_bitvmx committee_id;
  send_setup_to_bitvmx committee_id.

(** *** Contract calls *)

Definition register_pegout (proof : BtcTxSPVProof) : SR W FlowError unit :=
  map_err (with_context "Failed to register pegout with provided SPV proof")
    (invoke_contract_safe proof verifier (call (RegisterPegout proof))).

(** The error of the gateway becomes text. *)
Definition trigger_operator_take : SR W FlowError unit :=
  c ← get_ctx;
  map_err (fun _ => Chain [Msg "Failed to trigger operator take"]) (call (TriggerOperatorTake (get_pegout_txid c))).

(** *** The state machine *)

Definition complete_with_confirmed_pegout_registration (e : EventWithBlock PegoutRegistered)
    : SR W FlowError Steps :=
  c ← get_ctx;
  expected ← required "Expected user take txid not found" (get_user_take_txid c);
  if negb (bool_decide (fb_32_to_txid (pg_txid (ev_inner e)) = expected))
  then flow_bail "PegoutRegistered txid mismatch" else
  _ ← set_ctx (set_pegout_registered (ev_inner e) (hash_to_string (ev_tx_hash e)));
  _ ← send_pegout_completed_to_bitvmx (ev_inner e);
  mret StepDone.

Definition confirm_user_take_transaction (tx_status : TransactionStatus) : SR W FlowError Steps :=
  c ← get_ctx;
  expected ← required "Expected user take txid not found" (get_user_take_txid c);
  if negb (bool_decide (ts_tx_id tx_status = expected)) then flow_bail "Transaction status txId mismatch" else
  _ ← set_ctx (set_transaction_status tx_status);
  mret StepRequestUserTakeSpvProof.

Definition process_step_data (current_step : Steps) (data : StepData) : SR W FlowError Steps :=
  match current_step, data with
  | StepWaitPegoutRequested, DataPegoutRequested => mret StepGetCommInfoAuthoritativeCheckpoint
  | StepGetCommInfoAuthoritativeCheckpoint, DataCommInfo comm_info =>
      _ ← set_ctx (set_my_p2p_address comm_info);
      mret StepPrepareUserTakeSetup
  | StepPrepareUserTakeSetup, DataPegoutAccepted accepted =>
      _ ← set_ctx (set_peg_out_accepted accepted);
      mret StepWaitUserTakeSignaturesReady
  | StepWaitUserTakeSignaturesReady, DataUserTakeSignaturesReady =>
      mret StepDispatchUserTakeTransactionAllConvergeCheckpoint
  | StepDispatchUserTakeTransactionAllConvergeCheckpoint, DataUserTakeTransactionDispatched =>
      mret StepConfirmUserTakeTransaction
  | StepWaitUserTakeSignaturesReady, DataTriggerOperatorTakeTimeout => mret StepTriggerOperatorTake
  | StepTriggerOperatorTake, DataTriggerOperatorTakeTimeout => mret StepDone
  | StepConfirmUserTakeTransaction, DataTransactionConfirmed tx_status =>
      confirm_user_take_transaction tx_status
  | StepRequestUserTakeSpvProof, DataSpvProof proof =>
      _ ← set_ctx (set_spv_proof proof);
      mret StepRegisterPegout
  | StepRegisterPegout, DataRetryRegisterPegout => mret StepRegisterPegout
  | s, DataPegoutRegistered e =>
      if allows_fast_forward_to_pegout_registered s then complete_with_confirmed_pegout_registration e
      else flow_bail "Invalid state transition"
  | _, _ => flow_bail "Invalid state transition"
  end.

(** The entry action of a step other than triggering the take of an operator. *)
Definition entry_action (complete_step : StepData -> SR W FlowError unit) (next_step : Steps)
    : SR W FlowError unit :=
  match next_step with
  | StepWaitPegoutRequested => sfail (FlowPanic "Init step should not be reached in start_step")
  | StepGetCommInfoAuthoritativeCheckpoint => request_bitvmx_comm_info
  | StepPrepareUserTakeSetup => communicate_pegout_requested_to_bitvmx
  | StepDispatchUserTakeTransactionAllConvergeCheckpoint =>
      _ ← dispatch_transaction; complete_step DataUserTakeTransactionDispatched
  | StepRequestUserTakeSpvProof => request_spv_proof
  | StepRegisterPegout =>
      c ← get_ctx;
      proof ← required "SPV proof not available for pegout registration" (spv_proof c);
      register_pegout proof
  | StepDone =>
      c ← get_ctx;
      match pegout_registered_tx c with Some _ => write_completion_marker | None => mret tt end
  | StepWaitUserTakeSignaturesReady | StepTriggerOperatorTake | StepConfirmUserTakeTransaction
  | StepFailed => mret tt
  end.

(** A take that was triggered ends [start_step] before the state is saved; one
    that could not be triggered does not. *)
Definition start_step_with (complete_step : StepData -> SR W FlowError unit) (next_step : Steps)
    : SR W FlowError unit :=
  _ ← set_step next_step;
  _ ← (if bool_decide (next_step = StepRegisterPegout) then persist_state else mret tt);
  if bool_decide (next_step = StepTriggerOperatorTake) then
    triggered ← catch trigger_operator_take;
    match triggered with Ok _ => mret tt | Err _ => persist_state end
  else
    _ ← entry_action complete_step next_step;
    persist_state.

Definition complete_step_with (start_step : Steps -> SR W FlowError unit) (data : StepData)
    : SR W FlowError unit :=
  s ← get_step;
  next_step ← process_step_data s data;
  start_step next_step.

(** The two call each other; [depth] bounds the nesting. *)
Fixpoint start_step_upto (depth : nat) (next_step : Steps) : SR W FlowError unit :=
  start_step_with
    (match depth with
     | O => fun _ => sfail (FlowPanic "nesting")
     | S depth => complete_step_with (start_step_upto depth)
     end) next_step.

(** The one step that completes itself is followed by one that does not. *)
Definition start_step : Steps -> SR W FlowError unit := start_step_upto 1.
Definition complete_step : StepData -> SR W FlowError unit := complete_step_with start_step.

Definition mark_failed : SR W FlowError unit := start_step StepFailed.

Definition is_terminal (s : Steps) : bool :=
  match s with StepDone | StepFailed => true | _ => false end.

End Flow.

(** ** Computations that leave the flow alone *)

Section Keeping.
Context `{FlowCodecs, !CommitteeServices E, !PegoutServices E, !BridgeNode E, Sha256}
  (verifier : NativeBridgeVerifier).
Abbreviation W := (World E).

Lemma pegout_keeps_get_ctx : keeps (get_ctx (E := E)).
Proof. by split. Qed.
Lemma keeps_get_step : keeps (get_step (E := E)).
Proof. by split. Qed.
Lemma pegout_keeps_send msg : keeps (send_bitvmx_msg (E := E) msg).
Proof. unfold send_bitvmx_msg. keep. Qed.
Lemma pegout_keeps_contract_call c : keeps (call (E := E) c).
Proof. unfold call. keep. Qed.
Hint Resolve pegout_keeps_get_ctx keeps_get_step pegout_keeps_send pegout_keeps_contract_call : keeps.

Lemma keeps_comm_info : keeps (request_bitvmx_comm_info (E := E)).
Proof. unfold request_bitvmx_comm_info. keep. Qed.
Lemma keeps_dispatch : keeps (dispatch_transaction (E := E)).
Proof. unfold dispatch_transaction. keep. Qed.
Lemma keeps_request_status : keeps (request_transaction_status (E := E)).
Proof. unfold request_transaction_status. keep. Qed.
Lemma keeps_request_spv : keeps (request_spv_proof (E := E)).
Proof. unfold request_spv_proof. keep. Qed.
Lemma keeps_accepted_var : keeps (request_pegout_accepted_var (E := E)).
Proof. unfold request_pegout_accepted_var. keep. Qed.
Lemma keeps_completed r : keeps (send_pegout_completed_to_bitvmx (E := E) r).
Proof. unfold send_pegout_completed_to_bitvmx. keep. Qed.
Lemma keeps_marker : keeps (write_completion_marker (E := E)).
Proof. unfold write_completion_marker. keep. Qed.
Lemma keeps_try_u128 msg z : keeps (try_u128 (S := W) msg z).
Proof. unfold try_u128. keep. Qed.
Lemma keeps_try_usize msg z : keeps (try_usize (S := W) msg z).
Proof. unfold try_usize. keep. Qed.
Lemma keeps_register p : keeps (register_pegout (E := E) verifier p).
Proof. unfold register_pegout. keep. Qed.
Lemma keeps_trigger : keeps (trigger_operator_take (E := E)).
Proof. unfold trigger_operator_take. keep. Qed.
Hint Resolve keeps_comm_info keeps_dispatch keeps_request_status keeps_request_spv keeps_accepted_var
  keeps_completed keeps_marker keeps_try_u128 keeps_try_usize keeps_register keeps_trigger : keeps.

Lemma keeps_redrive : keeps (redrive_pending_bitvmx_request (E := E)).
Proof. unfold redrive_pending_bitvmx_request. keep. Qed.

Lemma keeps_build_request e out : keeps (pegout_requested_to_bitvmx_request (E := E) e out).
Proof. unfold pegout_requested_to_bitvmx_request. keep. Qed.

Lemma pegout_keeps_send_setup id : keeps (send_setup_to_bitvmx (E := E) id).
Proof.
  unfold send_setup_to_bitvmx, get_committee_addresses, build_communication_data, bail. keep.
Qed.

(** Every entry action but preparing the setup and completing the dispatch. *)
Lemma pegout_keeps_entry_action complete s :
  s <> StepPrepareUserTakeSetup -> s <> StepDispatchUserTakeTransactionAllConvergeCheckpoint ->
  keeps (entry_action verifier complete s).
Proof. intros ? ?. destruct s; try done; cbn [entry_action]; keep. Qed.

End Keeping.

#[export] Hint Resolve pegout_keeps_send pegout_keeps_get_ctx keeps_get_step keeps_dispatch keeps_completed keeps_trigger
  keeps_build_request pegout_keeps_send_setup keeps_try_u128 keeps_request_status keeps_redrive : keeps.

(** ** The steps of the flow *)

Section Transitions.
Context `{FlowCodecs, !CommitteeServices E, !PegoutServices E, !BridgeNode E, Sha256}
  (verifier : NativeBridgeVerifier).
Abbreviation W := (World E).

(** The transitions of the machine, with what the state must say. *)
Inductive transition (s : State) : StepData -> Steps -> Prop :=
| T_requested : step s = StepWaitPegoutRequested ->
    transition s DataPegoutRequested StepGetCommInfoAuthoritativeCheckpoint
| T_comm i : step s = StepGetCommInfoAuthoritativeCheckpoint ->
    transition s (DataCommInfo i) StepPrepareUserTakeSetup
| T_accepted a : step s = StepPrepareUserTakeSetup ->
    transition s (DataPegoutAccepted a) StepWaitUserTakeSignaturesReady
| T_signed : step s = StepWaitUserTakeSignaturesReady ->
    transition s DataUserTakeSignaturesReady StepDispatchUserTakeTransactionAllConvergeCheckpoint
| T_dispatched : step s = StepDispatchUserTakeTransactionAllConvergeCheckpoint ->
    transition s DataUserTakeTransactionDispatched StepConfirmUserTakeTransaction
| T_timeout : step s = StepWaitUserTakeSignaturesReady ->
    transition s DataTriggerOperatorTakeTimeout StepTriggerOperatorTake
| T_triggered : step s = StepTriggerOperatorTake ->
    transition s DataTriggerOperatorTakeTimeout StepDone
| T_confirmed st : step s = StepConfirmUserTakeTransaction ->
    get_user_take_txid (ctx s) = Some (ts_tx_id st) ->
    transition s (DataTransactionConfirmed st) StepRequestUserTakeSpvProof
| T_proof p : step s = StepRequestUserTakeSpvProof ->
    transition s (DataSpvProof p) StepRegisterPegout
| T_retry : step s = StepRegisterPegout ->
    transition s DataRetryRegisterPegout StepRegisterPegout
| T_registered e : allows_fast_forward_to_pegout_registered (step s) = true ->
    get_user_take_txid (ctx s) = Some (fb_32_to_txid (pg_txid (ev_inner e))) ->
    transition s (DataPegoutRegistered e) StepDone.

(** *** What a state must hold at each step *)

(** The identifier of the program is that of the request. *)
Definition identified (c : FlowContext) : Prop :=
  uint 128 (po_committeeId (pegout_requested c)) /\ uint 64 (po_slotId (pegout_requested c)) /\
  bitvmx_protocol_id c =
    user_take_protocol_id (uuid_from_u128 (po_committeeId (pegout_requested c))) (po_slotId (pegout_requested c)).

Definition unregistered (c : FlowContext) : Prop :=
  pegout_registered c = None /\ pegout_registered_tx c = None.

(** A recorded registration is that of the user-take transaction. *)
Definition registration_ok (c : FlowContext) : Prop :=
  unregistered c \/
  exists r, pegout_registered c = Some r /\ is_Some (pegout_registered_tx c) /\
    get_user_take_txid c = Some (fb_32_to_txid (pg_txid r)).

Definition accepted_ok (c : FlowContext) : Prop := is_Some (peg_out_accepted c).
Definition status_ok (c : FlowContext) : Prop :=
  exists st, transaction_status c = Some st /\ get_user_take_txid c = Some (ts_tx_id st).

Definition step_ok (s : Steps) (c : FlowContext) : Prop :=
  match s with
  | StepWaitPegoutRequested | StepGetCommInfoAuthoritativeCheckpoint => unregistered c
  | StepPrepareUserTakeSetup => unregistered c /\ is_Some (my_p2p_address c)
  | StepWaitUserTakeSignaturesReady | StepTriggerOperatorTake => unregistered c /\ accepted_ok c
  | StepDispatchUserTakeTransactionAllConvergeCheckpoint | StepConfirmUserTakeTransaction =>
      registration_ok c /\ accepted_ok c
  | StepRequestUserTakeSpvProof => registration_ok c /\ accepted_ok c /\ status_ok c
  | StepRegisterPegout => registration_ok c /\ accepted_ok c /\ status_ok c /\ is_Some (spv_proof c)
  | StepDone => registration_ok c /\ accepted_ok c
  | StepFailed => True
  end.

Definition state_ok (s : State) : Prop := identified (ctx s) /\ step_ok (step s) (ctx s).
Definition saved_ok (v : option State) : Prop := forall s, v = Some s -> state_ok s.
Definition flow_ok (s : State) (v : option State) : Prop := state_ok s /\ saved_ok v.

(** *** Processing data *)

Abbreviation triple := (hoare (S := State) (E := E) (X := Effect)).

(** Data accepted in a state, with the step to enter. *)
Definition entering (s0 : State) (d : StepData) (next : Steps) (s : State) (v : option State) : Prop :=
  transition s0 d next /\ step s = step s0 /\ identified (ctx s) /\ step_ok next (ctx s) /\ saved_ok v.

Definition refused (s0 s : State) (v : option State) : Prop := step s = step s0 /\ flow_ok s v.

Definition at_state (s0 s : State) (v : option State) : Prop := s = s0 /\ flow_ok s0 v.

Lemma at_state_refused s0 s v : at_state s0 s v -> refused s0 s v.
Proof. by intros [-> ?]. Qed.
Hint Resolve at_state_refused : core.

Lemma pegout_hoare_bail {A} s0 msg (Q : A -> State -> option State -> Prop) :
  triple (refused s0) (at_state s0) (flow_bail msg) Q.
Proof. apply hoare_fail. auto. Qed.

Lemma pegout_hoare_read {A} s0 (f : FlowContext -> SR W FlowError A) Q :
  triple (refused s0) (at_state s0) (f (ctx s0)) Q -> triple (refused s0) (at_state s0) (c ← get_ctx; f c) Q.
Proof.
  intros Hf w Hw. rewrite SR_bind_run with (a := ctx s0) (s' := w); [by apply Hf|].
  destruct Hw as [Hs _]. unfold get_ctx, mbind, SR_bind. cbn. by rewrite Hs.
Qed.

Lemma pegout_hoare_need {A B} s0 msg (o : option A) (f : A -> SR W FlowError B) Q :
  (forall a, o = Some a -> triple (refused s0) (at_state s0) (f a) Q) ->
  triple (refused s0) (at_state s0) (x ← required msg o; f x) Q.
Proof. intros Hf. destruct o as [a|]; [by apply Hf|]. intros w Hw. by apply at_state_refused. Qed.

(** Recording data in the context. *)
Lemma pegout_hoare_update {A} s0 f (m : SR W FlowError A) Q :
  let s1 := mkState (flow_id s0) (step s0) (f (ctx s0)) (created_at s0) in
  (state_ok s0 -> state_ok s1) -> triple (refused s1) (at_state s1) m Q ->
  triple (refused s0) (at_state s0) (_ ← set_ctx f; m) Q.
Proof.
  intros s1 Hok Hm w [Hs [Hs0 Hv]].
  set (w1 := mkWorld s1 (saved w) (env w) (trace w)).
  rewrite SR_bind_run with (a := tt) (s' := w1); [|unfold set_ctx, smodify, w1, s1; by rewrite Hs].
  specialize (Hm w1 (conj eq_refl (conj (Hok Hs0) Hv))). by destruct (m w1) as [[a|x] w2].
Qed.

(** Naming the next step. *)
Lemma pegout_hoare_next s0 s1 d next :
  step s1 = step s0 -> (state_ok s1 -> transition s0 d next /\ step_ok next (ctx s1)) ->
  triple (refused s1) (at_state s1) (mret next) (entering s0 d).
Proof. intros Hs Hnext w [Hw [Hok Hv]]. destruct (Hnext Hok). cbn. rewrite Hw. destruct Hok. by split_and!. Qed.

(** A field that neither the identity nor the step looks at, or makes right. *)
Lemma state_ok_update s0 f :
  pegout_requested (f (ctx s0)) = pegout_requested (ctx s0) ->
  bitvmx_protocol_id (f (ctx s0)) = bitvmx_protocol_id (ctx s0) ->
  (step_ok (step s0) (ctx s0) -> step_ok (step s0) (f (ctx s0))) ->
  state_ok s0 -> state_ok (mkState (flow_id s0) (step s0) (f (ctx s0)) (created_at s0)).
Proof. intros Hr Hp Hstep [Hid Hok]. split; [|by apply Hstep]. unfold identified in *. cbn. by rewrite Hr, Hp. Qed.

(** Each step at which a registration is accepted has a user-take transaction. *)
Lemma fast_forward_ok s c :
  allows_fast_forward_to_pegout_registered s = true -> step_ok s c -> registration_ok c /\ accepted_ok c.
Proof. destruct s; cbn; intros; destruct_and?; done. Qed.

Lemma registration_hoare s0 e :
  allows_fast_forward_to_pegout_registered (step s0) = true ->
  triple (refused s0) (at_state s0) (complete_with_confirmed_pegout_registration e)
    (entering s0 (DataPegoutRegistered e)).
Proof.
  intros Hff. apply pegout_hoare_read, pegout_hoare_need. intros expected Hexp.
  case_bool_decide as Htx; cbn [negb]; [|apply pegout_hoare_bail]. subst expected.
  assert (Hreg : registration_ok (set_pegout_registered (ev_inner e) (hash_to_string (ev_tx_hash e)) (ctx s0)))
    by (right; cbn; eauto).
  apply pegout_hoare_update.
  { apply state_ok_update; [done|done|]. destruct (step s0); try done; cbn; intros; destruct_and?; done. }
  eapply hoare_bind; [apply hoare_keeps; [apply keeps_completed|auto]|intros []].
  apply pegout_hoare_next; [done|]. intros [_ Hok]. split; [by constructor|].
  split; [done|]. by destruct (fast_forward_ok _ _ Hff Hok).
Qed.

Lemma confirm_hoare s0 st :
  step s0 = StepConfirmUserTakeTransaction ->
  triple (refused s0) (at_state s0) (confirm_user_take_transaction st)
    (entering s0 (DataTransactionConfirmed st)).
Proof.
  intros Hstep. apply pegout_hoare_read, pegout_hoare_need. intros expected Hexp.
  case_bool_decide as Htx; cbn [negb]; [|apply pegout_hoare_bail]. subst expected.
  apply pegout_hoare_update; [apply state_ok_update; [done|done|by rewrite Hstep]|].
  apply pegout_hoare_next; [done|]. intros [_ Hok]. cbn in *. rewrite Hstep in Hok. destruct Hok.
  split; [by constructor|]. split_and!; [done|done|]. by exists st.
Qed.

(** Data that do not fit the step are refused; data that fit are recorded and
    name the step the transition relation gives. *)
Lemma pegout_process_step_data_hoare s0 d :
  triple (refused s0) (at_state s0) (process_step_data (step s0) d) (entering s0 d).
Proof.
  assert (Hcase : forall s, step s0 = s -> triple (refused s0) (at_state s0) (process_step_data s d) (entering s0 d));
    [|by apply Hcase].
  intros s Hstep. destruct s, d; cbn [process_step_data allows_fast_forward_to_pegout_registered];
    try apply pegout_hoare_bail; try (apply registration_hoare; by rewrite Hstep); auto using confirm_hoare;
    try (apply pegout_hoare_update; [apply state_ok_update; [done|done|by rewrite Hstep]|]);
    (apply pegout_hoare_next; [done|]; intros [_ Hok]; cbn in Hok; rewrite Hstep in Hok; split; [by constructor|]);
    cbn in *; unfold registration_ok, accepted_ok in *; cbn; naive_solver.
Qed.

(** *** Entering a step *)

(** Where a step that is entered ends up. *)
Definition landing (s : Steps) : Steps :=
  match s with
  | StepDispatchUserTakeTransactionAllConvergeCheckpoint => StepConfirmUserTakeTransaction
  | s => s
  end.

Definition at_step (next : Steps) (s : State) (v : option State) : Prop := step s = next /\ flow_ok s v.
Definition interrupted (next : Steps) (s : State) (v : option State) : Prop :=
  (step s = next \/ step s = landing next) /\ flow_ok s v.

(** A take that was triggered is not saved. *)
Definition landed (next : Steps) (s : State) (v : option State) : Prop :=
  step s = landing next /\ flow_ok s v /\ (next <> StepTriggerOperatorTake -> v = Some s).

Lemma pegout_at_step_interrupted next s v : at_step next s v -> interrupted next s v.
Proof. intros []. split; auto. Qed.
Lemma landed_interrupted next s v : landed next s v -> interrupted next s v.
Proof. intros (? & ? & _). split; auto. Qed.
Hint Resolve pegout_at_step_interrupted landed_interrupted : core.

Lemma flow_ok_saved s : state_ok s -> flow_ok s (Some s).
Proof. intros Hs. split; [done|]. by intros s' [= <-]. Qed.
Hint Resolve flow_ok_saved : core.

Lemma persist_hoare next s1 :
  s1 = next \/ s1 = landing next ->
  triple (interrupted next) (at_step s1) persist_state (fun _ s v => at_step s1 s v /\ v = Some s).
Proof.
  intros Hs. apply hoare_persist_with.
  - intros s v (Hstep & Hok & _). unfold at_step. auto.
  - intros s v [Hstep Hok]. split; [|done]. rewrite Hstep. naive_solver.
Qed.

Lemma set_committee_hoare out :
  triple (interrupted StepPrepareUserTakeSetup) (at_step StepPrepareUserTakeSetup)
    (set_ctx (set_committee_output out)) (fun _ => at_step StepPrepareUserTakeSetup).
Proof.
  intros w (Hs & Hok & Hv). cbn. split; [done|]. split; [|done].
  by apply state_ok_update.
Qed.

Lemma communicate_hoare :
  triple (interrupted StepPrepareUserTakeSetup) (at_step StepPrepareUserTakeSetup)
    communicate_pegout_requested_to_bitvmx (fun _ => at_step StepPrepareUserTakeSetup).
Proof.
  assert (Hkeep : forall {A} (m : SR W FlowError A), keeps m ->
    triple (interrupted StepPrepareUserTakeSetup) (at_step StepPrepareUserTakeSetup) m
      (fun _ => at_step StepPrepareUserTakeSetup)) by (intros A m Hm; apply hoare_keeps; auto).
  unfold communicate_pegout_requested_to_bitvmx, send_pegout_requested_to_bitvmx.
  eapply hoare_bind; [apply Hkeep, pegout_keeps_get_ctx|intros c].
  eapply hoare_bind; [apply Hkeep, keeps_try_u128|intros id].
  apply (hoare_bind _ _ (fun _ => at_step StepPrepareUserTakeSetup)); [|intros []; apply Hkeep, pegout_keeps_send_setup].
  eapply hoare_bind; [apply Hkeep, keeps_on_env|intros out].
  eapply hoare_bind; [apply set_committee_hoare|intros []]. apply Hkeep. keep.
Qed.

(** The entry actions, for a [complete_step] that takes the dispatch to its landing. *)
Definition completes (complete : StepData -> SR W FlowError unit) : Prop :=
  triple (interrupted StepDispatchUserTakeTransactionAllConvergeCheckpoint)
    (at_step StepDispatchUserTakeTransactionAllConvergeCheckpoint)
    (complete DataUserTakeTransactionDispatched)
    (fun _ => landed StepDispatchUserTakeTransactionAllConvergeCheckpoint).

Lemma pegout_entry_action_hoare complete next :
  completes complete ->
  triple (interrupted next) (at_step next) (entry_action verifier complete next) (fun _ => at_step (landing next)).
Proof.
  intros Hc. destruct (decide (next = StepPrepareUserTakeSetup)) as [->|Hne1].
  { eapply hoare_weaken; [apply communicate_hoare|done|done]. }
  destruct (decide (next = StepDispatchUserTakeTransactionAllConvergeCheckpoint)) as [->|Hne2].
  - cbn [entry_action]. eapply hoare_bind; [apply hoare_keeps; [apply keeps_dispatch|auto]|intros []].
    eapply hoare_weaken; [apply Hc|done|]. intros _ s v (? & ? & _). by split.
  - assert (Hl : landing next = next) by by destruct next. rewrite Hl.
    apply hoare_keeps; [by apply pegout_keeps_entry_action|auto].
Qed.

Lemma trigger_hoare :
  triple (interrupted StepTriggerOperatorTake) (at_step StepTriggerOperatorTake)
    (triggered ← catch trigger_operator_take;
     match triggered with Ok _ => mret tt | Err _ => persist_state end)
    (fun _ => landed StepTriggerOperatorTake).
Proof.
  eapply hoare_bind; [apply hoare_keeps; [apply keeps_catch, keeps_trigger|auto]|].
  intros [[]|causes].
  - by intros w [Hs Hok].
  - eapply hoare_weaken; [apply (persist_hoare StepTriggerOperatorTake StepTriggerOperatorTake); auto|done|].
    intros _ s v [[Hs Hok] ->]. by split_and!.
Qed.

Lemma pegout_start_step_with_hoare complete next :
  completes complete ->
  triple (interrupted next) (fun s v => identified (ctx s) /\ step_ok next (ctx s) /\ saved_ok v)
    (start_step_with verifier complete next) (fun _ => landed next).
Proof.
  intros Hc. unfold start_step_with.
  apply (hoare_bind _ _ (fun _ => at_step next)).
  { intros w (Hid & Hok & Hv). cbn. by split_and!. }
  intros []. apply (hoare_bind _ _ (fun _ => at_step next)).
  { apply hoare_if; intros _; [|by intros w Hw].
    eapply hoare_weaken; [apply (persist_hoare next next); auto|done|]. by intros _ s v []. }
  intros []. case_bool_decide as Ht; [subst next; apply trigger_hoare|].
  eapply hoare_bind; [by apply pegout_entry_action_hoare|intros []].
  eapply hoare_weaken; [apply (persist_hoare next (landing next)); auto|done|].
  intros _ s v [[Hs Hok] ->]. by split_and!.
Qed.

(** Completing a step, with what the nested [start_step] does. *)
Definition starts (start : Steps -> SR W FlowError unit) (next : Steps) : Prop :=
  triple (interrupted next) (fun s v => identified (ctx s) /\ step_ok next (ctx s) /\ saved_ok v)
    (start next) (fun _ => landed next).

Lemma pegout_complete_step_with_run start d w :
  flow_ok (state w) (saved w) -> (forall next, starts start next) ->
  match complete_step_with start d w with
  | (Ok _, w') => exists next, transition (state w) d next /\ landed next (state w') (saved w')
  | (Err _, w') => refused (state w) (state w') (saved w') \/
      exists next, transition (state w) d next /\ interrupted next (state w') (saved w')
  end.
Proof.
  intros Hok Hstart. unfold complete_step_with.
  rewrite SR_bind_run with (a := step (state w)) (s' := w) by done.
  pose proof (pegout_process_step_data_hoare (state w) d w (conj eq_refl Hok)) as Hp.
  destruct (process_step_data (step (state w)) d w) as [[next|x] w1] eqn:Er.
  - rewrite (SR_bind_run _ _ _ _ _ Er). destruct Hp as (Ht & _ & Hen).
    pose proof (Hstart next w1 Hen) as Hs. destruct (start next w1) as [[]]; eauto.
  - rewrite (SR_bind_err _ _ _ _ _ Er). by left.
Qed.

Lemma pegout_completes_with start : (forall next, starts start next) -> completes (complete_step_with start).
Proof.
  intros Hstart w [Hs Hok]. pose proof (pegout_complete_step_with_run start DataUserTakeTransactionDispatched w Hok Hstart) as Hr.
  assert (Hn : forall n, transition (state w) DataUserTakeTransactionDispatched n -> n = StepConfirmUserTakeTransaction)
    by (intros n Ht; by inversion Ht).
  destruct (complete_step_with start _ w) as [[u|x] w'].
  - destruct Hr as (n & Ht & Hl & Hok' & Hv). apply Hn in Ht as ->. split_and!; try done. intros _. by apply Hv.
  - destruct Hr as [[Hs' Hok']|(n & Ht & Hi & Hok')]; (split; [|done]).
    + left. congruence.
    + apply Hn in Ht as ->. right. by destruct Hi.
Qed.

Lemma pegout_starts_upto depth next : starts (start_step_upto verifier depth) next.
Proof.
  revert next. induction depth as [|depth IH]; intros next; apply pegout_start_step_with_hoare.
  - apply hoare_fail. auto.
  - by apply pegout_completes_with.
Qed.

(** *** The nesting of calls *)

Lemma pegout_start_step_with_plain complete complete' next :
  landing next = next -> start_step_with verifier complete next = start_step_with verifier complete' next.
Proof. by destruct next. Qed.

(** The dispatch is followed by a step that does not complete itself. *)
Lemma dispatch_then_plain d w n w' :
  process_step_data (E := E) StepDispatchUserTakeTransactionAllConvergeCheckpoint d w = (Ok n, w') -> landing n = n.
Proof.
  intros Hp. destruct d; cbn in Hp; try discriminate Hp; [by sr_inv Hp|].
  unfold complete_with_confirmed_pegout_registration in Hp. sr_inv Hp.
  destruct (negb _); [discriminate Hp|]. sr_inv Hp. done.
Qed.

Lemma pegout_complete_upto depth depth' d w :
  step (state w) = StepDispatchUserTakeTransactionAllConvergeCheckpoint ->
  complete_step_with (start_step_upto verifier depth) d w =
  complete_step_with (start_step_upto verifier depth') d w.
Proof.
  intros Hs.
  assert (Heq : forall start, complete_step_with start d w = (n ← process_step_data (step (state w)) d; start n) w)
    by done.
  rewrite !Heq, Hs. destruct (process_step_data StepDispatchUserTakeTransactionAllConvergeCheckpoint d w) as [[n|x] w'] eqn:Ep.
  - rewrite !(SR_bind_run _ _ _ _ _ Ep). pose proof (dispatch_then_plain _ _ _ _ Ep) as Hn.
    destruct depth, depth'; cbn [start_step_upto];
      exact (f_equal (fun m => m w') (pegout_start_step_with_plain _ _ _ Hn)).
  - by rewrite !(SR_bind_err _ _ _ _ _ Ep).
Qed.

Lemma pegout_start_step_with_ext complete complete' w :
  (forall d w, step (state w) = StepDispatchUserTakeTransactionAllConvergeCheckpoint ->
     complete d w = complete' d w) ->
  start_step_with verifier complete StepDispatchUserTakeTransactionAllConvergeCheckpoint w =
  start_step_with verifier complete' StepDispatchUserTakeTransactionAllConvergeCheckpoint w.
Proof.
  intros Hc. unfold start_step_with. rewrite !bool_decide_false by done. cbn [entry_action].
  unfold mbind, SR_bind, set_step, smodify, mret, SR_ret. set (w1 := mkWorld _ _ _ _).
  destruct (keeps_dispatch w1) as [Hst _]. destruct (dispatch_transaction w1) as [[[]|x] w2]; [|done].
  rewrite Hc; [done|]. cbn in Hst. by rewrite Hst.
Qed.

(** [start_step] and [complete_step] call each other; cut off after one nested
    call, they still satisfy the equation of the source. *)
Lemma pegout_start_step_eq next w :
  start_step verifier next w = start_step_with verifier (complete_step verifier) next w.
Proof.
  unfold start_step. cbn [start_step_upto].
  destruct (decide (landing next = next)) as [Hl|Hl].
  { exact (f_equal (fun m => m w) (pegout_start_step_with_plain _ _ _ Hl)). }
  assert (next = StepDispatchUserTakeTransactionAllConvergeCheckpoint) as -> by by destruct next.
  apply pegout_start_step_with_ext. intros d w' Hs. by apply (pegout_complete_upto 0 1).
Qed.

End Transitions.

(** ** Reachable flows *)

Section Reachable.
Context `{FlowCodecs, !CommitteeServices E, !PegoutServices E, !BridgeNode E, Sha256}
  (verifier : NativeBridgeVerifier).
Abbreviation W := (World E).

(** A flow is created, handed data, asked for a status, asked to repeat its query
    or marked as failed, with any outcome; a restart continues from what the
    store holds, with a new trace. *)
Inductive reachable : W -> Prop :=
| R_new e now s env : new_flow e now = Ok s -> reachable (mkWorld s None env [])
| R_complete w d : reachable w -> reachable (snd (complete_step verifier d w))
| R_failed w : reachable w -> reachable (snd (mark_failed verifier w))
| R_status w : reachable w -> reachable (snd (request_transaction_status w))
| R_redrive w : reachable w -> reachable (snd (redrive_pending_bitvmx_request w))
| R_restart w s env : reachable w -> saved w = Some s -> reachable (from_saved_state s env []).

Lemma pegout_complete_step_flow_ok d w :
  flow_ok (state w) (saved w) ->
  let w' := snd (complete_step verifier d w) in flow_ok (state w') (saved w').
Proof.
  intros Hok. pose proof (pegout_complete_step_with_run _ d w Hok (pegout_starts_upto verifier 1)) as Hr. cbn zeta in *.
  unfold complete_step, start_step. destruct (complete_step_with _ d w) as [[u|x] w']; cbn.
  - by destruct Hr as (next & _ & _ & Hok' & _).
  - destruct Hr as [[_ Hok']|(next & _ & _ & Hok')]; done.
Qed.

Lemma pegout_mark_failed_run w :
  flow_ok (state w) (saved w) ->
  match mark_failed verifier w with
  | (Ok _, w') => landed StepFailed (state w') (saved w')
  | (Err _, w') => interrupted StepFailed (state w') (saved w')
  end.
Proof. intros [[Hid _] Hv]. apply (pegout_starts_upto verifier 1 StepFailed w). by split_and!. Qed.

Lemma new_flow_ok e now s : new_flow e now = Ok s -> state_ok s.
Proof.
  unfold new_flow. intros Hn.
  destruct (negb _) eqn:Hc in Hn; [discriminate Hn|]. destruct (negb _) eqn:Hs in Hn; [discriminate Hn|].
  injection Hn as <-. apply negb_false_iff, andb_prop in Hc as [Hc1 Hc2], Hs as [Hs1 Hs2].
  split; [|done]. unfold identified, uint. cbn. split_and!; (lia || done).
Qed.

Lemma pegout_reachable_flow_ok w : reachable w -> flow_ok (state w) (saved w).
Proof.
  induction 1 as [e now s env Hn|w d _ IH|w _ IH|w _ IH|w _ IH|w s env _ IH Hs].
  - split; [by eapply new_flow_ok|done].
  - by apply pegout_complete_step_flow_ok.
  - pose proof (pegout_mark_failed_run w IH) as Hr. destruct (mark_failed verifier w) as [[u|x] w']; apply Hr.
  - by destruct (keeps_request_status w) as [-> ->].
  - by destruct (keeps_redrive w) as [-> ->].
  - destruct IH as [_ Hv]. by apply flow_ok_saved, Hv.
Qed.

(** *** Effects *)

(** The effects that settle a peg-out: dispatching the user take, triggering the
    take of an operator, and telling BitVMX that it is completed. *)
Definition notable (x : Effect) : Prop :=
  match x with
  | Sent (DispatchTransactionName _ _) | Sent (SetVarPegoutCompleted _ _) | Called (TriggerOperatorTake _) => True
  | _ => False
  end.

Section Effects.
Context (A : Effect -> Prop) (A_other : forall x, ~ notable x -> A x).
Hint Resolve A_other : adds.

Lemma adds_get_ctx : adds A (get_ctx (E := E)).
Proof. by apply adds_nothing. Qed.
Lemma adds_get_step : adds A (get_step (E := E)).
Proof. by apply adds_nothing. Qed.
Lemma adds_set_ctx f : adds A (set_ctx (E := E) f).
Proof. by apply adds_nothing. Qed.
Lemma adds_set_step s : adds A (set_step (E := E) s).
Proof. by apply adds_nothing. Qed.
Lemma adds_persist_state : adds A (persist_state (E := E)).
Proof. apply adds_persist. Qed.
Lemma adds_send msg : A (Sent msg) -> adds A (send_bitvmx_msg (E := E) msg).
Proof. apply adds_send_with. Qed.
Lemma adds_try_u128 msg z : adds A (try_u128 (S := W) msg z).
Proof. unfold try_u128. be_quiet. Qed.
Lemma adds_try_usize msg z : adds A (try_usize (S := W) msg z).
Proof. unfold try_usize. be_quiet. Qed.
Hint Resolve adds_get_ctx adds_get_step adds_set_ctx adds_set_step adds_persist_state adds_send adds_try_u128
  adds_try_usize : adds.

Lemma adds_build_request e out : adds A (pegout_requested_to_bitvmx_request (E := E) e out).
Proof. unfold pegout_requested_to_bitvmx_request. be_quiet. Qed.
Lemma adds_build_communication me a k : adds A (build_communication_data (St := W) me a k).
Proof. unfold build_communication_data, bail. be_quiet. Qed.
Hint Resolve adds_build_request adds_build_communication : adds.
Lemma adds_send_setup id : adds A (send_setup_to_bitvmx (E := E) id).
Proof. unfold send_setup_to_bitvmx, get_committee_addresses. be_quiet. Qed.
Hint Resolve adds_send_setup : adds.
Lemma adds_setup : adds A (communicate_pegout_requested_to_bitvmx (E := E)).
Proof. unfold communicate_pegout_requested_to_bitvmx, send_pegout_requested_to_bitvmx. be_quiet. Qed.
Lemma adds_request_status : adds A (request_transaction_status (E := E)).
Proof. unfold request_transaction_status. be_quiet. Qed.
Lemma adds_redrive : adds A (redrive_pending_bitvmx_request (E := E)).
Proof.
  unfold redrive_pending_bitvmx_request, request_pegout_accepted_var, request_bitvmx_comm_info, request_spv_proof.
  be_quiet.
Qed.

Lemma adds_entry_action complete s :
  (s = StepDispatchUserTakeTransactionAllConvergeCheckpoint ->
     adds A (dispatch_transaction (E := E)) /\ adds A (complete DataUserTakeTransactionDispatched)) ->
  adds A (entry_action verifier complete s).
Proof.
  pose proof adds_setup. intros Hs. destruct s; cbn [entry_action];
    unfold request_bitvmx_comm_info, request_spv_proof, register_pegout, write_completion_marker,
      send_bitvmx_msg, call; be_quiet.
  destruct (Hs eq_refl). be_quiet.
Qed.

Lemma adds_process_step_data s d :
  (forall e id, d = DataPegoutRegistered e -> A (Sent (SetVarPegoutCompleted id (ev_inner e)))) ->
  adds A (process_step_data (E := E) s d).
Proof.
  intros Hreg.
  assert (Hr : forall e, d = DataPegoutRegistered e -> adds A (complete_with_confirmed_pegout_registration (E := E) e)).
  { intros e ->. specialize (fun id => Hreg e id eq_refl).
    unfold complete_with_confirmed_pegout_registration, send_pegout_completed_to_bitvmx, send_bitvmx_msg. be_quiet. }
  destruct s, d; cbn [process_step_data allows_fast_forward_to_pegout_registered];
    unfold confirm_user_take_transaction; be_quiet.
Qed.

Lemma adds_start complete next :
  (next = StepTriggerOperatorTake -> adds A (trigger_operator_take (E := E))) ->
  (next = StepDispatchUserTakeTransactionAllConvergeCheckpoint ->
     adds A (dispatch_transaction (E := E)) /\ adds A (complete DataUserTakeTransactionDispatched)) ->
  adds A (start_step_with verifier complete next).
Proof.
  intros Ht Hd. pose proof (adds_entry_action complete next Hd). unfold start_step_with.
  destruct (bool_decide_reflect (next = StepTriggerOperatorTake)) as [Hn|Hn]; [specialize (Ht Hn)|]; be_quiet.
Qed.

(** Completing a step tells of a completion only with a registration. *)
Lemma adds_complete_step d :
  (forall x, (forall id r, x <> Sent (SetVarPegoutCompleted id r)) -> A x) ->
  (forall e id, d = DataPegoutRegistered e -> A (Sent (SetVarPegoutCompleted id (ev_inner e)))) ->
  adds A (complete_step (E := E) verifier d).
Proof.
  intros Hsettle Hreg.
  assert (Htrigger : adds A (trigger_operator_take (E := E)))
    by (unfold trigger_operator_take, call; apply adds_bind; [be_quiet|intros c]; apply adds_map_err, adds_call, Hsettle;
        done).
  assert (Hdispatch : adds A (dispatch_transaction (E := E)))
    by (unfold dispatch_transaction; apply adds_bind; [be_quiet|intros c]; apply adds_send, Hsettle; done).
  assert (Hstart : forall depth next, adds A (start_step_upto (E := E) verifier depth next)).
  { induction depth as [|depth IH]; intros next; cbn [start_step_upto]; apply adds_start; auto; intros _;
      (split; [done|]); [be_quiet|]. unfold complete_step_with. apply adds_bind; [be_quiet|intros s].
    apply adds_bind; [by apply adds_process_step_data|auto]. }
  unfold complete_step, complete_step_with, start_step. apply adds_bind; [be_quiet|intros s].
  apply adds_bind; [by apply adds_process_step_data|auto].
Qed.

End Effects.

(** *** Dispatching the user take, or triggering the take of an operator *)

Definition decisive (x : Effect) : Prop :=
  match x with
  | Sent (DispatchTransactionName _ _) | Called (TriggerOperatorTake _) => True
  | _ => False
  end.

#[export] Instance decisive_dec x : Decision (decisive x).
Proof. destruct x as [[]|[]|]; cbn; apply _. Defined.

Abbreviation silent m := (quiet decisive (m : SR W FlowError _)).

Lemma decisive_notable x : ~ notable x -> ~ decisive x.
Proof. by destruct x as [[]|[]|]. Qed.
Hint Resolve decisive_notable : core.

Lemma quiet_process_step_data s d : silent (process_step_data s d).
Proof. apply adds_process_step_data. intros e id _ []. Qed.

Definition decisions (w : W) : list Effect := filter decisive (trace w).

Lemma quiet_decisions {B} (m : SR W FlowError B) w : silent m -> decisions (snd (m w)) = decisions w.
Proof. apply quiet_filter. Qed.

Lemma quiet_start complete next :
  next <> StepDispatchUserTakeTransactionAllConvergeCheckpoint -> next <> StepTriggerOperatorTake ->
  silent (start_step_with verifier complete next).
Proof. intros Hd Ht. apply adds_start; [auto|done|done]. Qed.

Lemma dispatch_decides w :
  exists l, decisions (snd (dispatch_transaction w)) = decisions w ++ l /\ (length l <= 1)%nat.
Proof.
  unfold decisions, dispatch_transaction.
  rewrite SR_bind_run with (a := ctx (state w)) (s' := w) by done. set (msg := DispatchTransactionName _ _).
  unfold send_bitvmx_msg, send_with, on_env, record, mbind, SR_bind. cbn.
  destruct (broker_send msg (env w)) as [[u|x] e]; cbn.
  - rewrite filter_app. eexists. split; [reflexivity|]. apply length_filter.
  - exists []. split; [by rewrite app_nil_r|cbn; lia].
Qed.

Lemma trigger_decides w :
  exists l, decisions (snd (catch trigger_operator_take w)) = decisions w ++ l /\ (length l <= 1)%nat.
Proof.
  unfold decisions, catch, trigger_operator_take.
  rewrite SR_bind_run with (a := ctx (state w)) (s' := w) by done. set (c := TriggerOperatorTake _).
  unfold map_err, call, call_with. destruct (contract_call c (env w)) as [[u|x] e]; cbn; rewrite filter_app;
    (eexists; split; [reflexivity|apply length_filter]).
Qed.

(** Once dispatched, the transaction is waited for without another effect. *)
Lemma quiet_dispatched w :
  step (state w) = StepDispatchUserTakeTransactionAllConvergeCheckpoint ->
  decisions (snd ((_ ← complete_step_with (start_step_upto verifier 0) DataUserTakeTransactionDispatched;
                   persist_state) w)) = decisions w.
Proof.
  intros Hs.
  assert (Hc : complete_step_with (start_step_upto verifier 0) DataUserTakeTransactionDispatched w =
    start_step_upto verifier 0 StepConfirmUserTakeTransaction w).
  { unfold complete_step_with.
    rewrite SR_bind_run with (a := StepDispatchUserTakeTransactionAllConvergeCheckpoint) (s' := w); [done|].
    unfold get_step, mbind, SR_bind. cbn. by rewrite Hs. }
  pose proof (quiet_start (fun _ => sfail (FlowPanic "nesting")) StepConfirmUserTakeTransaction
    ltac:(done) ltac:(done)) as Hq. apply (fun Hm => quiet_decisions _ w Hm) in Hq.
  unfold mbind, SR_bind. rewrite Hc. cbn [start_step_upto].
  destruct (start_step_with _ _ _ w) as [[u|x] w'] eqn:Ew; [|done].
  rewrite (quiet_decisions _ w') by apply adds_persist_state. exact Hq.
Qed.

Lemma start_step_decides next w :
  exists l, decisions (snd (start_step verifier next w)) = decisions w ++ l /\ (length l <= 1)%nat /\
    (l = [] \/ next = StepDispatchUserTakeTransactionAllConvergeCheckpoint \/ next = StepTriggerOperatorTake).
Proof.
  unfold start_step. cbn [start_step_upto].
  destruct (decide (next = StepTriggerOperatorTake)) as [->|Ht].
  { unfold start_step_with. rewrite (bool_decide_false (StepTriggerOperatorTake = StepRegisterPegout)) by done.
    rewrite bool_decide_true by done.
    unfold mbind, SR_bind, set_step, smodify, mret, SR_ret. set (w1 := mkWorld _ _ _ _).
    destruct (trigger_decides w1) as (l & Hl & Hlen). exists l.
    destruct (catch trigger_operator_take w1) as [[[[]|c]|x] w2]; cbn [snd] in *; auto.
    rewrite (quiet_decisions _ w2) by apply adds_persist_state. auto. }
  destruct (decide (next = StepDispatchUserTakeTransactionAllConvergeCheckpoint)) as [->|Hd].
  - unfold start_step_with. rewrite !bool_decide_false by done. cbn [entry_action].
    unfold mbind at 1 2 3 4, SR_bind at 1 2 3 4, set_step, smodify, mret, SR_ret. set (w1 := mkWorld _ _ _ _).
    destruct (dispatch_decides w1) as (l & Hl & Hlen). exists l. destruct (keeps_dispatch w1) as [Hst _].
    destruct (dispatch_transaction w1) as [[[]|x] w2]; cbn [snd] in *; [|auto].
    split; [|auto]. change (decisions w) with (decisions w1). rewrite <- Hl. apply quiet_dispatched. by rewrite Hst.
  - exists []. rewrite app_nil_r. split_and!; [by apply quiet_decisions, quiet_start|cbn; lia|auto].
Qed.

(** The choice between the two takes is still open. *)
Definition undecided (s : Steps) : bool :=
  match s with
  | StepWaitPegoutRequested | StepGetCommInfoAuthoritativeCheckpoint | StepPrepareUserTakeSetup
  | StepWaitUserTakeSignaturesReady => true
  | _ => false
  end.

Definition decided_once (w : W) : Prop :=
  (length (decisions w) <= 1)%nat /\ (undecided (step (state w)) = true -> decisions w = []).

Lemma transition_undecided s d next s' :
  transition s d next -> s' = next \/ s' = landing next -> undecided s' = true -> undecided (step s) = true.
Proof. intros Ht [-> | ->]; destruct Ht as [Hs|i Hs|a Hs|Hs|Hs|Hs|Hs|st Hs|p Hs|Hs|e Hs Htx]; cbn; try done; by rewrite Hs. Qed.

(** A decision is only taken from the step at which it is open. *)
Lemma transition_decides s d next s' :
  transition s d next ->
  next = StepDispatchUserTakeTransactionAllConvergeCheckpoint \/ next = StepTriggerOperatorTake ->
  s' = next \/ s' = landing next -> undecided (step s) = true /\ undecided s' = false.
Proof.
  intros Ht Hn Hs'. destruct Ht as [Hs|i Hs|a Hs|Hs|Hs|Hs|Hs|st Hs|p Hs|Hs|e Hs Htx];
    destruct Hn; try done; rewrite Hs; destruct Hs' as [-> | ->]; done.
Qed.

Lemma complete_step_decides d w :
  flow_ok (state w) (saved w) -> decided_once w -> decided_once (snd (complete_step verifier d w)).
Proof.
  intros Hok [Hlen Hopen]. unfold complete_step, complete_step_with.
  rewrite SR_bind_run with (a := step (state w)) (s' := w) by done.
  pose proof (pegout_process_step_data_hoare (state w) d w (conj eq_refl Hok)) as Hp.
  pose proof (quiet_decisions _ w (quiet_process_step_data (step (state w)) d)) as Hq.
  destruct (process_step_data (step (state w)) d w) as [[next|x] w1] eqn:Er; cbn [snd] in Hq.
  - rewrite (SR_bind_run _ _ _ _ _ Er). destruct Hp as (Ht & _ & Hen).
    pose proof (pegout_starts_upto verifier 1 next w1 Hen) as Hs. fold (start_step verifier) in Hs.
    destruct (start_step_decides next w1) as (l & Hl & Hll & Hnext).
    assert (Hstep : let s' := step (state (snd (start_step verifier next w1))) in s' = next \/ s' = landing next)
      by (destruct (start_step verifier next w1) as [[]]; cbn; [right|]; apply Hs).
    cbn zeta in Hstep. unfold decided_once. rewrite Hl. replace (decisions w1) with (decisions w) by (symmetry; apply Hq).
    destruct Hnext as [->|Hnext].
    + rewrite app_nil_r. split; [done|]. intros Hu. apply Hopen. by eapply transition_undecided.
    + destruct (transition_decides _ _ _ _ Ht Hnext Hstep) as [Hu Hu']. rewrite (Hopen Hu), Hu'. by split.
  - rewrite (SR_bind_err _ _ _ _ _ Er). cbn [snd]. destruct Hp as [Hs _].
    unfold decided_once in *. by rewrite Hq, Hs.
Qed.

Lemma quiet_decided {A} (m : SR W FlowError A) w :
  silent m -> (undecided (step (state (snd (m w)))) = true -> undecided (step (state w)) = true) ->
  decided_once w -> decided_once (snd (m w)).
Proof. intros Hm Hs [Hl Ho]. unfold decided_once. rewrite quiet_decisions by done. auto. Qed.

Lemma reachable_decided w : reachable w -> decided_once w.
Proof.
  intros Hw. induction Hw as [e now s env Hn|w d Hw IH|w Hw IH|w _ IH|w _ IH|w s env _ IH Hs].
  - split; cbn; [lia|done].
  - apply complete_step_decides; [by apply pegout_reachable_flow_ok|done].
  - apply quiet_decided; [by apply quiet_start| |done].
    pose proof (pegout_mark_failed_run w (pegout_reachable_flow_ok w Hw)) as Hr.
    destruct (mark_failed verifier w) as [[u|x] w']; cbn; [destruct Hr as [-> _]|destruct Hr as [[->| ->] _]]; done.
  - apply quiet_decided; [apply adds_request_status; auto| |done].
    by destruct (keeps_request_status w) as [-> _].
  - apply quiet_decided; [apply adds_redrive; auto|by destruct (keeps_redrive w) as [-> _]|done].
  - split; cbn; [lia|done].
Qed.

End Reachable.

(** ** What the flow guarantees *)

(** C21: The state of a peg-out is well formed at every step.  In every reachable flow,
    whatever calls failed on the way and however often it was restarted, the
    identifier of the BitVMX program is the one of the committee and slot of the
    request, these fit in 128 and 64 bits, the context holds what the step relies
    on, and a recorded registration is that of the user-take transaction; in
    memory as in the store. *)
Theorem pegout_state_well_formed `{FlowCodecs, !CommitteeServices E, !PegoutServices E, !BridgeNode E, Sha256} verifier (w : World E) :
  reachable verifier w ->
  state_ok (state w) /\ forall s, saved w = Some s -> state_ok s.
Proof. apply pegout_reachable_flow_ok. Qed.

(** The flow follows its transitions.  Data that [complete_step] accepts move the
    flow along the transition relation, past the dispatch, which completes itself,
    and the store then holds the new state unless the take of an operator was
    triggered; data it refuses, and failures of an entry action, leave the flow at
    its step or at the step it was entering. *)
Theorem pegout_follows_transitions `{FlowCodecs, !CommitteeServices E, !PegoutServices E, !BridgeNode E, Sha256} verifier (w : World E) d :
  reachable verifier w ->
  match complete_step verifier d w with
  | (Ok _, w') => exists next, transition (state w) d next /\ step (state w') = landing next /\
      (next <> StepTriggerOperatorTake -> saved w' = Some (state w'))
  | (Err _, w') => step (state w') = step (state w) \/
      exists next, transition (state w) d next /\ (step (state w') = next \/ step (state w') = landing next)
  end.
Proof.
  intros Hw. apply pegout_reachable_flow_ok in Hw.
  pose proof (pegout_complete_step_with_run _ d w Hw (pegout_starts_upto verifier 1)) as Hr.
  change (complete_step verifier d w) with (complete_step_with (start_step_upto verifier 1) d w).
  destruct (complete_step_with _ d w) as [[u|x] w'].
  - destruct Hr as (next & Ht & Hl & _ & Hs). eauto.
  - destruct Hr as [[Hs _]|(next & Ht & Hs & _)]; eauto.
Qed.

(** C6: A peg-out is done only when its payment is registered or left to an operator.
    A step of a reachable flow that ends at [Done], whether or not it succeeds, was
    given the event that the contract registered exactly the user-take transaction
    of the flow, from one of the four steps from the dispatch on, or the second
    time-out, from the step that triggers the take of an operator. *)
Theorem pegout_done_only_if_paid `{FlowCodecs, !CommitteeServices E, !PegoutServices E, !BridgeNode E, Sha256} verifier (w : World E) d :
  reachable verifier w -> step (state w) <> StepDone ->
  step (state (snd (complete_step verifier d w))) = StepDone ->
  (exists e, d = DataPegoutRegistered e /\ allows_fast_forward_to_pegout_registered (step (state w)) = true /\
     get_user_take_txid (ctx (state w)) = Some (fb_32_to_txid (pg_txid (ev_inner e)))) \/
  d = DataTriggerOperatorTakeTimeout /\ step (state w) = StepTriggerOperatorTake.
Proof.
  intros Hw Hne Hdone. apply pegout_reachable_flow_ok in Hw.
  pose proof (pegout_complete_step_with_run _ d w Hw (pegout_starts_upto verifier 1)) as Hr.
  change (complete_step verifier d w) with (complete_step_with (start_step_upto verifier 1) d w) in Hdone.
  assert (Hnext : exists next, transition (state w) d next /\ (next = StepDone \/ landing next = StepDone)).
  { destruct (complete_step_with _ d w) as [[u|x] w']; cbn in Hdone.
    - destruct Hr as (next & Ht & Hl & _). exists next. split; [done|]. right. congruence.
    - destruct Hr as [[Hs _]|(next & Ht & Hs & _)]; [congruence|]. exists next. split; [done|].
      destruct Hs; [left|right]; congruence. }
  destruct Hnext as (next & Ht & Hn). destruct Ht; destruct Hn; try done; eauto.
Qed.

(** C20: A peg-out is paid one way.  In one run of the process, a flow either sends the
    user-take transaction for dispatch or calls the contract to trigger the take
    of an operator, and that at most once; while the choice is open, it has done
    neither. *)
Theorem pegout_paid_one_way `{FlowCodecs, !CommitteeServices E, !PegoutServices E, !BridgeNode E, Sha256} verifier (w : World E) :
  reachable verifier w ->
  (length (decisions w) <= 1)%nat /\ (undecided (step (state w)) = true -> decisions w = []).
Proof. apply reachable_decided. Qed.

(** ** A peg-out of two members *)

Module Sample.

Export Flow.Sample.

#[export] Instance services : PegoutServices unit := {|
  contract_call _ e := (Ok tt, e);
  broker_send _ e := (Ok tt, e);
  save_flow _ e := (Ok tt, e);
  signal_done _ e := (Ok tt, e)
|}.

Definition proof : BtcTxSPVProof := NativeBridge.Sample.spv.
Definition request : PegoutRequested := mkPegoutRequested 77 5 1000 (replicate 33 2) [1; 2; 3] [4].
Definition event : EventWithBlock PegoutRequested := mkEventWithBlock request 10 [9] false [8].
Definition fresh : World unit :=
  match new_flow event 0 with
  | Ok s => mkWorld s None tt []
  | Err _ => from_saved_state (mkState [] StepFailed (mkContext request [] [] None None None None None None None) None) tt []
  end.

(** Data up to the signatures, then the two ways to go on. *)
Definition inputs : list StepData :=
  [DataPegoutRequested; DataCommInfo (mkCommsAddress _ "10.0.0.1:80" "comm");
   DataPegoutAccepted (mkPegOutAccepted [0] [8; 7] [3] [1] [2])].
Definition signed : list StepData :=
  [DataUserTakeSignaturesReady; DataTransactionConfirmed (mkTransactionStatus [8; 7] 6); DataSpvProof proof].
Definition registration : StepData :=
  DataPegoutRegistered (mkEventWithBlock (mkPegoutRegistered [7; 8] 77 5) 12 [3] false [4]).

Definition run (l : list StepData) : World unit :=
  foldl (fun w d => snd (complete_step Dummy d w)) fresh l.

Lemma pegout_run_reachable l : reachable Dummy (run l).
Proof.
  unfold run. assert (Hr : reachable Dummy fresh) by (by apply (R_new Dummy event 0)). revert Hr. generalize fresh.
  induction l as [|d l IH]; intros w Hw; [done|]. apply IH. by constructor.
Qed.

End Sample.

#[local] Existing Instances NativeBridge.Sample.crates Bitvmx.Sample.tail_hash Flow.Sample.socket_addrs
  Flow.Sample.codecs Flow.Sample.committee_services Flow.Sample.node Sample.services.

Lemma pegout_state_well_formed_witness :
  let w := Sample.run (Sample.inputs ++ Sample.signed) in
  step (state w) = StepRegisterPegout /\ state_ok (state w).
Proof.
  cbn zeta. split; [vm_compute; reflexivity|].
  refine (proj1 (pegout_state_well_formed Dummy (Sample.run (Sample.inputs ++ Sample.signed)) _)).
  apply Sample.pegout_run_reachable.
Defined.

Lemma pegout_follows_transitions_witness :
  let w := Sample.run Sample.inputs in
  let '(r, w') := complete_step Dummy DataUserTakeSignaturesReady w in
  r = Ok tt /\ step (state w) = StepWaitUserTakeSignaturesReady /\
  step (state w') = StepConfirmUserTakeTransaction /\
  exists next, transition (state w) DataUserTakeSignaturesReady next /\ step (state w') = landing next.
Proof.
  cbn zeta. pose proof (pegout_follows_transitions Dummy (Sample.run Sample.inputs)
    DataUserTakeSignaturesReady (Sample.pegout_run_reachable _)) as Ht.
  destruct (complete_step _ _ _) as [r w'] eqn:Hr.
  assert (Hr' : (r, step (state w')) = (Ok tt, StepConfirmUserTakeTransaction)).
  { change r with (fst (r, w')). change w' with (snd (r, w')) at 2. rewrite <- Hr. vm_compute. reflexivity. }
  injection Hr' as -> Hs. split; [reflexivity|]. split; [vm_compute; reflexivity|]. split; [exact Hs|].
  destruct Ht as (next & Ht & Hl & _). exists next. split; [exact Ht|exact Hl].
Defined.

Lemma pegout_done_only_if_paid_witness :
  let w := Sample.run (Sample.inputs ++ Sample.signed) in
  step (state (snd (complete_step Dummy Sample.registration w))) = StepDone /\
  ((exists e, Sample.registration = DataPegoutRegistered e /\
      allows_fast_forward_to_pegout_registered (step (state w)) = true /\
      get_user_take_txid (ctx (state w)) = Some (fb_32_to_txid (pg_txid (ev_inner e)))) \/
   Sample.registration = DataTriggerOperatorTakeTimeout /\ step (state w) = StepTriggerOperatorTake).
Proof.
  cbn zeta. split; [vm_compute; reflexivity|].
  apply (pegout_done_only_if_paid Dummy (Sample.run (Sample.inputs ++ Sample.signed)) Sample.registration).
  - apply Sample.pegout_run_reachable.
  - vm_compute. discriminate.
  - vm_compute. reflexivity.
Defined.

Lemma pegout_paid_one_way_witness :
  let w := Sample.run (Sample.inputs ++ [DataTriggerOperatorTakeTimeout; DataUserTakeSignaturesReady]) in
  step (state w) = StepTriggerOperatorTake /\ length (decisions w) = 1%nat /\ (length (decisions w) <= 1)%nat.
Proof.
  cbn zeta. split; [vm_compute; reflexivity|]. split; [vm_compute; reflexivity|].
  refine (proj1 (pegout_paid_one_way Dummy (Sample.run (Sample.inputs ++ _)) _)).
  apply Sample.pegout_run_reachable.
Defined.
