(* ===== verification/OperatorTakeFlow.v ===== *)
(** * The advance-funds state machine (crates/coordinator/src/flows/operator_take)

    When a peg-out is not paid by the committee, the contract selects one operator
    to advance the funds.  Every operator runs this flow: the selected one sets up
    the program, registers the advance, the kickoff of the reimbursement and the
    take; the others wait for these registrations and may skip the steps of the
    selected one.  [complete_step] checks an event against the current step,
    [start_step] performs the entry action of the next one and stores the state. *)

From stdpp Require Import prelude strings pretty.
From S2P Require Import Prelude Types Events Bitvmx NativeBridge Flow PegoutFlow.
Open Scope Z_scope.

(** ** Steps *)

Inductive Steps :=
| WaitRskOperatorTakeTriggered
| GetBitVmxCommInfo
| RequestBitVmxOperatorTakeTransactionInfo
| SetupBitVmxAdvanceFundsProtocol
| WaitBitVmxAdvanceFundsSpv
| RegisterOrWaitRskAdvanceFunds
| SetVarBitVmxAdvanceFundsRegistered
| RegisterOrWaitRskReimbursementKickoff
| WaitBitVmxOperatorTakeSpv
| RegisterOrWaitRskOperatorTake
| Done
| Failed.

#[export] Instance Steps_eq_dec : EqDecision Steps.
Proof. solve_decision. Defined.

Definition pos (s : Steps) : Z :=
  match s with
  | WaitRskOperatorTakeTriggered => 0
  | GetBitVmxCommInfo => 1
  | RequestBitVmxOperatorTakeTransactionInfo => 2
  | SetupBitVmxAdvanceFundsProtocol => 3
  | WaitBitVmxAdvanceFundsSpv => 4
  | RegisterOrWaitRskAdvanceFunds => 5
  | SetVarBitVmxAdvanceFundsRegistered => 6
  | RegisterOrWaitRskReimbursementKickoff => 7
  | WaitBitVmxOperatorTakeSpv => 8
  | RegisterOrWaitRskOperatorTake => 9
  | Done => 10
  | Failed => 2 ^ 32 - 1
  end.

Definition is_past (self other : Steps) : bool := pos other <? pos self.

Definition is_valid_transition (self target : Steps) (is_selected : bool) : bool :=
  if is_selected then bool_decide (self = target) else
  let first := pos WaitRskOperatorTakeTriggered in
  let checkpoint := pos SetVarBitVmxAdvanceFundsRegistered in
  let max := pos target in
  let current := pos self in
  let min := if max <? checkpoint then first else checkpoint in
  (min <=? current) && (current <=? max).

Definition is_retriable_step (s : Steps) : bool :=
  match s with
  | RegisterOrWaitRskAdvanceFunds | RegisterOrWaitRskReimbursementKickoff | RegisterOrWaitRskOperatorTake => true
  | _ => false
  end.

Inductive StepOutcome := OutcomeDone | OutcomeNoOp | OutcomeRetry (reason : string).

(** ** Events and data *)

(** The events of the contracts, with the fields in use. *)
Record OperatorTakeTriggered := mkOperatorTakeTriggered {
  ot_pegoutTxid : Hash256;
  ot_pegoutId : Hash256;
  ot_committeeId : Z;
  ot_userPubKey : bytes;
  ot_takeOperatorAddress : Address;
  ot_operatorTakePubKey : bytes;
  ot_slotId : Z
}.

Record AdvanceFundsRegisteredEvent := mkAdvanceFundsRegisteredEvent {
  afe_committeeId : Z;
  afe_slotId : Z;
  afe_txid : Hash256;
  afe_pegoutId : Hash256;
  afe_operatorTakePubKey : bytes
}.

Section Types.
Context `{FlowCodecs}.

Record OperatorTakeTriggerData := mkTriggerData {
  td_pegout_txid : Hash256;
  td_pegout_id : Hash256;
  td_committee_id : Z;
  td_slot_id : Z;
  td_slot_index : Z;
  td_request_pegout_tx_hash : option string;
  td_user_pubkey : PublicKey;
  td_take_operator_address : Address;
  td_operator_take_pubkey : PublicKey
}.

Record AdvanceFundsRegistered := mkAdvanceFundsRegistered {
  afr_committee_id : bytes;
  afr_slot_index : Z;
  afr_txid : bytes;
  afr_pegout_id : bytes;
  afr_operator_pubkey : PublicKey
}.

Record AdvanceFundsRequest := mkAdvanceFundsRequest {
  afq_committee_id : bytes;
  afq_slot_index : Z;
  afq_pegout_id : bytes;
  afq_fee : Z;
  afq_user_pubkey : PublicKey;
  afq_my_take_pubkey : PublicKey
}.

Record FundsAdvanceSPV := mkFundsAdvanceSPV {
  fas_txid : bytes;
  fas_committee_id : bytes;
  fas_slot_index : Z;
  fas_pegout_id : bytes;
  fas_spv_proof : BtcTxSPVProof
}.

Inductive StepData :=
| DataOperatorTakeTriggered
| DataCommInfo (comm_info : CommsAddress)
| DataSetupCompleted
| DataOperatorTakeTransactionInfo (txid : bytes)
| DataAdvanceFundsSPV (spv_data : FundsAdvanceSPV)
| DataAdvanceFundsConfirmed (data : AdvanceFundsRegistered)
| DataReimbursementKickoffSPV (spv_proof : BtcTxSPVProof)
| DataReimbursementKickoffConfirmed
| DataOperatorTakeSPV (spv_proof : BtcTxSPVProof)
| DataPegoutRegistered (e : PegoutRegistered)
| DataRetry.

Record FlowContext := mkContext {
  flow_id : bytes;
  bitvmx_protocol_id : bytes;
  step : Steps;
  trigger_data : OperatorTakeTriggerData;
  my_p2p_address : option CommsAddress;
  accept_pegin_txid : option bytes;
  my_committee_index : option nat;
  operator_take_txid : option bytes;
  advance_funds_spv : option FundsAdvanceSPV;
  advance_funds_registered : option AdvanceFundsRegistered;
  reimbursement_kickoff_spv : option BtcTxSPVProof;
  operator_take_spv : option BtcTxSPVProof;
  accept_pegin_pid : option bytes;
  created_at : option Z;
  pending_retry : bool
}.

(** The marker that a finished flow leaves. *)
Record Completion := mkCompletion {
  cm_ancestor_pegout_id : string;
  cm_request_pegout_tx_hash : option string;
  cm_pegout_txid : string;
  cm_pegout_id : string;
  cm_committee_id : string;
  cm_slot_id : Z;
  cm_slot_index : Z;
  cm_selected_operator_address : string;
  cm_was_selected_operator : bool;
  cm_accept_pegin_txid : option string;
  cm_advance_funds_txid : option string
}.

(** The messages to BitVMX in use; a variable carries the value before it is
    printed as JSON. *)
Inductive BitvmxMessage :=
| SetVarAdvanceFundsRequest (id : bytes) (value : AdvanceFundsRequest)
| SetVarAdvanceFundsRegistered (id : bytes) (name : string) (value : AdvanceFundsRegistered)
| Setup (id : bytes) (program_type : string) (addresses : list CommsAddress) (leader : Z)
| GetCommInfo (id : bytes)
| GetTransactionInfoByName (id : bytes) (name : string).

Inductive Call :=
| RegisterAdvanceFunds (accept_pegin_txid : bytes) (proof : BtcTxSPVProof)
| RegisterReimbursementKickoff (accept_pegin_txid : bytes) (proof : BtcTxSPVProof)
| RegisterOperatorTake (proof : BtcTxSPVProof).

Inductive Effect :=
| Sent (msg : BitvmxMessage)
| Called (c : Call)
| Marked (flow_id : bytes) (c : Completion).

(** Contracts gateway, broker, store and completion markers. *)
Class AdvanceFundsServices (E : Type) := {
  contract_call : Call -> SR E DomainErrors unit;
  get_accept_pegin_txid : Hash256 -> SR E DomainErrors bytes;
  broker_send : BitvmxMessage -> SR E FlowError unit;
  save_flow : FlowContext -> SR E FlowError unit;
  signal_done : bytes -> Completion -> SR E FlowError unit
}.

End Types.

Abbreviation World E := (Flow.World FlowContext E Effect).

(** Updates of a context, one per field that is written. *)

Section Updates.
Context `{FlowCodecs}.
Implicit Type c : FlowContext.

Definition set_step v c : FlowContext :=
  mkContext (flow_id c) (bitvmx_protocol_id c) v (trigger_data c) (my_p2p_address c) (accept_pegin_txid c)
    (my_committee_index c) (operator_take_txid c) (advance_funds_spv c) (advance_funds_registered c)
    (reimbursement_kickoff_spv c) (operator_take_spv c) (accept_pegin_pid c) (created_at c) (pending_retry c).
Definition set_my_p2p_address v c : FlowContext :=
  mkContext (flow_id c) (bitvmx_protocol_id c) (step c) (trigger_data c) (Some v) (accept_pegin_txid c)
    (my_committee_index c) (operator_take_txid c) (advance_funds_spv c) (advance_funds_registered c)
    (reimbursement_kickoff_spv c) (operator_take_spv c) (accept_pegin_pid c) (created_at c) (pending_retry c).
Definition set_accept_pegin_txid v c : FlowContext :=
  mkContext (flow_id c) (bitvmx_protocol_id c) (step c) (trigger_data c) (my_p2p_address c) (Some v)
    (my_committee_index c) (operator_take_txid c) (advance_funds_spv c) (advance_funds_registered c)
    (reimbursement_kickoff_spv c) (operator_take_spv c) (accept_pegin_pid c) (created_at c) (pending_retry c).
Definition set_my_committee_index v c : FlowContext :=
  mkContext (flow_id c) (bitvmx_protocol_id c) (step c) (trigger_data c) (my_p2p_address c) (accept_pegin_txid c)
    (Some v) (operator_take_txid c) (advance_funds_spv c) (advance_funds_registered c)
    (reimbursement_kickoff_spv c) (operator_take_spv c) (accept_pegin_pid c) (created_at c) (pending_retry c).
Definition set_operator_take_txid v c : FlowContext :=
  mkContext (flow_id c) (bitvmx_protocol_id c) (step c) (trigger_data c) (my_p2p_address c) (accept_pegin_txid c)
    (my_committee_index c) (Some v) (advance_funds_spv c) (advance_funds_registered c)
    (reimbursement_kickoff_spv c) (operator_take_spv c) (accept_pegin_pid c) (created_at c) (pending_retry c).
Definition set_advance_funds_spv v c : FlowContext :=
  mkContext (flow_id c) (bitvmx_protocol_id c) (step c) (trigger_data c) (my_p2p_address c) (accept_pegin_txid c)
    (my_committee_index c) (operator_take_txid c) (Some v) (advance_funds_registered c)
    (reimbursement_kickoff_spv c) (operator_take_spv c) (accept_pegin_pid c) (created_at c) (pending_retry c).
Definition set_advance_funds_registered v c : FlowContext :=
  mkContext (flow_id c) (bitvmx_protocol_id c) (step c) (trigger_data c) (my_p2p_address c) (accept_pegin_txid c)
    (my_committee_index c) (operator_take_txid c) (advance_funds_spv c) (Some v)
    (reimbursement_kickoff_spv c) (operator_take_spv c) (accept_pegin_pid c) (created_at c) (pending_retry c).
Definition set_reimbursement_kickoff_spv v c : FlowContext :=
  mkContext (flow_id c) (bitvmx_protocol_id c) (step c) (trigger_data c) (my_p2p_address c) (accept_pegin_txid c)
    (my_committee_index c) (operator_take_txid c) (advance_funds_spv c) (advance_funds_registered c)
    (Some v) (operator_take_spv c) (accept_pegin_pid c) (created_at c) (pending_retry c).
Definition set_operator_take_spv v c : FlowContext :=
  mkContext (flow_id c) (bitvmx_protocol_id c) (step c) (trigger_data c) (my_p2p_address c) (accept_pegin_txid c)
    (my_committee_index c) (operator_take_txid c) (advance_funds_spv c) (advance_funds_registered c)
    (reimbursement_kickoff_spv c) (Some v) (accept_pegin_pid c) (created_at c) (pending_retry c).
Definition set_accept_pegin_pid v c : FlowContext :=
  mkContext (flow_id c) (bitvmx_protocol_id c) (step c) (trigger_data c) (my_p2p_address c) (accept_pegin_txid c)
    (my_committee_index c) (operator_take_txid c) (advance_funds_spv c) (advance_funds_registered c)
    (reimbursement_kickoff_spv c) (operator_take_spv c) (Some v) (created_at c) (pending_retry c).
Definition set_pending_retry v c : FlowContext :=
  mkContext (flow_id c) (bitvmx_protocol_id c) (step c) (trigger_data c) (my_p2p_address c) (accept_pegin_txid c)
    (my_committee_index c) (operator_take_txid c) (advance_funds_spv c) (advance_funds_registered c)
    (reimbursement_kickoff_spv c) (operator_take_spv c) (accept_pegin_pid c) (created_at c) v.

End Updates.

(** ** Reading events *)

Section Events.
Context `{FlowCodecs}.

Definition xonly_to_compressed_pubkey (b : bytes) : result FlowError PublicKey :=
  match even_public_key_from_slice b with
  | Some k => Ok k
  | None => Err (Chain [Msg "Failed to parse x-only public key bytes"])
  end.

(** [usize::try_from] on a 64-bit machine *)
Definition usize_try_from (msg : string) (z : Z) : result FlowError Z :=
  if (0 <=? z) && (z <? 2 ^ 64) then Ok z else Err (Chain [Msg msg]).

Definition try_from_event (inner : OperatorTakeTriggered) (request_pegout_tx_hash : option string)
    : result FlowError OperatorTakeTriggerData :=
  slot_index ← usize_try_from "Failed to convert slot id from event into usize for slot index" (ot_slotId inner);
  user_pubkey ← match public_key_from_slice (ot_userPubKey inner) with
                | Some k => Ok k
                | None => Err (Chain [Msg "public key"])
                end;
  operator_take_pubkey ← xonly_to_compressed_pubkey (ot_operatorTakePubKey inner);
  Ok (mkTriggerData (ot_pegoutTxid inner) (ot_pegoutId inner) (ot_committeeId inner) (ot_slotId inner) slot_index
        request_pegout_tx_hash user_pubkey (ot_takeOperatorAddress inner) operator_take_pubkey).

Definition advance_funds_registered_from_event (e : AdvanceFundsRegisteredEvent)
    : result FlowError AdvanceFundsRegistered :=
  slot_index ← usize_try_from "Failed to convert slotId to usize" (afe_slotId e);
  operator_pubkey ← xonly_to_compressed_pubkey (afe_operatorTakePubKey e);
  Ok (mkAdvanceFundsRegistered (uuid_from_u128 (afe_committeeId e)) slot_index (fb_32_to_txid (afe_txid e))
        (afe_pegoutId e) operator_pubkey).

End Events.

(** ** Operations *)

Section Flow.
Context `{FlowCodecs, !CommitteeServices E, !AdvanceFundsServices E, !BridgeNode E, Sha256}
  (verifier : NativeBridgeVerifier).
Abbreviation W := (World E).

Definition flow_id_from_operator_take_triggered_tx_hash (tx_hash : Hash256) : bytes :=
  from_tx "operator_take_flow" tx_hash.

(** [AdvanceFundsFlow::new] *)
Definition new_flow (id : bytes) (data : OperatorTakeTriggerData) (now : Z) (e : E) (t : list Effect) : W :=
  mkWorld (mkContext id (advance_funds_protocol_id (uuid_from_u128 (td_committee_id data)) (td_slot_index data))
             WaitRskOperatorTakeTriggered data None None None None None None None None None (Some now) false)
    None e t.

Definition from_saved_state (s : FlowContext) (e : E) (t : list Effect) : W := mkWorld s (Some s) e t.

Definition persist_state : SR W FlowError unit := persist_with save_flow.

Definition send_bitvmx_msg (msg : BitvmxMessage) : SR W FlowError unit :=
  send_with (broker_send msg) (Sent msg).
Definition call (c : Call) : SR W DomainErrors unit := call_with (contract_call c) (Called c).

Definition was_selected_operator (c : FlowContext) : bool :=
  bool_decide (my_address = td_take_operator_address (trigger_data c)).

Definition committee_id_uuid (c : FlowContext) : bytes := uuid_from_u128 (td_committee_id (trigger_data c)).

(** *** Entry actions *)

Definition enter_request_comm_info : SR W FlowError unit :=
  req_id ← on_env id new_v4; send_bitvmx_msg (GetCommInfo req_id).

Fixpoint member_position (a : Address) (l : list Member) : option nat :=
  match l with
  | [] => None
  | m :: l => if bool_decide (memberAddress m = a) then Some O else S <$> member_position a l
  end.

Definition get_my_committee_index : SR W FlowError nat :=
  cached ← read_state my_committee_index;
  match cached with
  | Some index => mret index
  | None =>
      committee_id ← read_state (fun c => td_committee_id (trigger_data c));
      response ← on_env (with_context "Failed to fetch committee for take operator index lookup")
                   (get_committee committee_id);
      index ← required "Address not found in committee members" (member_position my_address (members response));
      _ ← update_state (set_my_committee_index index);
      mret index
  end.

Definition operator_take_transaction_name : SR W FlowError string :=
  member_index ← get_my_committee_index;
  mret ("OPERATOR_TAKE_TX_" +:+ pretty member_index).

Definition enter_request_transaction_info : SR W FlowError unit :=
  tx_name ← operator_take_transaction_name;
  pid ← read_state (fun c => accept_pegin_protocol_id (committee_id_uuid c) (td_slot_index (trigger_data c)));
  _ ← update_state (set_accept_pegin_pid pid);
  send_bitvmx_msg (GetTransactionInfoByName pid tx_name).

Definition build_advance_funds_request (c : FlowContext) (operator_pubkey : PublicKey) : AdvanceFundsRequest :=
  mkAdvanceFundsRequest (committee_id_uuid c) (td_slot_index (trigger_data c)) (td_pegout_id (trigger_data c)) 335
    (td_user_pubkey (trigger_data c)) operator_pubkey.

Definition enter_setup_protocol : SR W FlowError unit :=
  c ← read_state id;
  if negb (was_selected_operator c)
  then flow_bail "Only the selected operator can set up the advance funds protocol" else
  mine ← required "P2P address not available for advance funds setup" (my_p2p_address c);
  let participants := [mine] in
  let request_payload := build_advance_funds_request c (td_operator_take_pubkey (trigger_data c)) in
  _ ← send_bitvmx_msg (SetVarAdvanceFundsRequest (bitvmx_protocol_id c) request_payload);
  send_bitvmx_msg (Setup (bitvmx_protocol_id c) "advance_funds" participants 0).

Definition resolve_accept_pegin_txid : SR W FlowError bytes :=
  cached ← read_state accept_pegin_txid;
  match cached with
  | Some txid => mret txid
  | None =>
      pegout_txid ← read_state (fun c => td_pegout_txid (trigger_data c));
      txid ← on_env (with_context "Failed to get accept pegin txid for pegout") (get_accept_pegin_txid pegout_txid);
      _ ← update_state (set_accept_pegin_txid txid);
      mret txid
  end.

(** A registration whose proof lacks confirmations on the bridge is to be retried. *)
Definition register_with (proof : BtcTxSPVProof) (c : Call) (reason failed : string) : SR W FlowError StepOutcome :=
  fun w =>
    match invoke_contract_safe proof verifier (call c) w with
    | (Ok _, w) => (Ok OutcomeDone, w)
    | (Err (MissingConfirmationsOnNativeBridge detail), w) => (Ok (OutcomeRetry (reason +:+ detail)), w)
    | (Err other, w) => (Err (with_context failed other), w)
    end.

Definition enter_register_advance_funds : SR W FlowError StepOutcome :=
  stored ← read_state advance_funds_spv;
  spv ← required "Advance funds SPV data not available" stored;
  let proof := fas_spv_proof spv in
  txid ← resolve_accept_pegin_txid;
  register_with proof (RegisterAdvanceFunds txid proof)
    "native bridge missing confirmations for advance-funds registration: "
    "Failed to register advance funds SPV proof".

Definition enter_register_reimbursement_kickoff : SR W FlowError StepOutcome :=
  stored ← read_state reimbursement_kickoff_spv;
  proof ← required "Reimbursement kickoff SPV not available" stored;
  txid ← resolve_accept_pegin_txid;
  register_with proof (RegisterReimbursementKickoff txid proof)
    "native bridge missing confirmations for reimbursement-kickoff registration: "
    "Failed to register reimbursement kickoff SPV proof".

Definition enter_register_operator_take : SR W FlowError StepOutcome :=
  stored ← read_state operator_take_spv;
  proof ← required "Operator take SPV not available" stored;
  register_with proof (RegisterOperatorTake proof)
    "native bridge missing confirmations for operator-take registration: "
    "Failed to register operator take with provided SPV proof".

(** [AdvanceFundsRegistered::name] *)
Definition advance_funds_registered_name (slot_index : Z) : string :=
  "ADVANCED_FUNDS_" +:+ pretty slot_index.

Definition enter_notify_registered : SR W FlowError unit :=
  stored ← read_state advance_funds_registered;
  data ← required "AdvanceFundsRegistered data not available for notification" stored;
  send_bitvmx_msg
    (SetVarAdvanceFundsRegistered (afr_committee_id data) (advance_funds_registered_name (afr_slot_index data)) data).

(** A recorded hash of the wrong length panics. *)
Definition ancestor_pegout_id (c : FlowContext) : result FlowError string :=
  match td_request_pegout_tx_hash (trigger_data c) with
  | None => Ok (uuid_to_string (flow_id c))
  | Some tx_hash =>
      match hash_try_from tx_hash with
      | Ok h => Ok (uuid_to_string (flow_id_from_pegout_requested_tx_hash h))
      | Err (Panic msg) => Err (FlowPanic msg)
      | Err _ => Ok (uuid_to_string (flow_id c))
      end
  end.

Definition completion (c : FlowContext) (ancestor : string) : Completion :=
  let d := trigger_data c in
  mkCompletion ancestor (td_request_pegout_tx_hash d) (hash_to_string (td_pegout_txid d))
    (hash_to_string (td_pegout_id d)) (pretty (td_committee_id d)) (td_slot_id d) (td_slot_index d)
    (hash_to_string (td_take_operator_address d)) (was_selected_operator c)
    (hash_to_string <$> accept_pegin_txid c) ((fun e => txid_to_string (afr_txid e)) <$> advance_funds_registered c).

Definition enter_write_completion_marker : SR W FlowError unit :=
  c ← read_state id;
  match ancestor_pegout_id c with
  | Err e => sfail e
  | Ok ancestor =>
      let payload := completion c ancestor in
      send_with (signal_done (flow_id c) payload) (Marked (flow_id c) payload)
  end.

(** The selected operator registers, the others wait. *)
Definition if_selected (register : SR W FlowError StepOutcome) : SR W FlowError StepOutcome :=
  selected ← read_state was_selected_operator;
  if (selected : bool) then register else mret OutcomeDone.

Definition enter_step (next_step : Steps) : SR W FlowError StepOutcome :=
  match next_step with
  | WaitRskOperatorTakeTriggered =>
      sfail (FlowPanic "OperatorTakeTriggered is the initial step and should not be started explicitly")
  | GetBitVmxCommInfo => _ ← enter_request_comm_info; mret OutcomeDone
  | RequestBitVmxOperatorTakeTransactionInfo => _ ← enter_request_transaction_info; mret OutcomeDone
  | SetupBitVmxAdvanceFundsProtocol => _ ← enter_setup_protocol; mret OutcomeDone
  | WaitBitVmxAdvanceFundsSpv => mret OutcomeDone
  | RegisterOrWaitRskAdvanceFunds => if_selected enter_register_advance_funds
  | SetVarBitVmxAdvanceFundsRegistered => _ ← enter_notify_registered; mret OutcomeDone
  | RegisterOrWaitRskReimbursementKickoff => if_selected enter_register_reimbursement_kickoff
  | WaitBitVmxOperatorTakeSpv => mret OutcomeDone
  | RegisterOrWaitRskOperatorTake => if_selected enter_register_operator_take
  | Done => _ ← enter_write_completion_marker; mret OutcomeDone
  | Failed => mret OutcomeDone
  end.

Definition is_retry (o : StepOutcome) : bool := match o with OutcomeRetry _ => true | _ => false end.

(** An entry action that fails puts the previous state back; saving that fails
    does not. *)
Definition start_step (next_step : Steps) : SR W FlowError StepOutcome :=
  previous_state ← read_state id;
  _ ← update_state (set_step next_step);
  entered ← catch (enter_step next_step);
  match entered with
  | Ok outcome =>
      _ ← update_state (set_pending_retry (is_retry outcome));
      _ ← persist_state;
      mret outcome
  | Err causes =>
      _ ← update_state (fun _ => previous_state);
      sfail (Chain causes)
  end.

(** *** Handlers *)

Definition invalid {A} : SR W FlowError A := flow_bail "Invalid state transition".

Definition on_operator_take_triggered (current_step : Steps) : SR W FlowError (option Steps) :=
  if negb (bool_decide (current_step = WaitRskOperatorTakeTriggered)) then invalid else
  selected ← read_state was_selected_operator;
  if (selected : bool) then mret (Some GetBitVmxCommInfo) else mret (Some RegisterOrWaitRskAdvanceFunds).

Definition on_comm_info (current_step : Steps) (comm_info : CommsAddress) : SR W FlowError (option Steps) :=
  if negb (bool_decide (current_step = GetBitVmxCommInfo)) then invalid else
  _ ← update_state (set_my_p2p_address comm_info);
  mret (Some RequestBitVmxOperatorTakeTransactionInfo).

Definition on_operator_take_transaction_info (current_step : Steps) (txid : bytes) : SR W FlowError (option Steps) :=
  if negb (bool_decide (current_step = RequestBitVmxOperatorTakeTransactionInfo)) then invalid else
  _ ← update_state (set_operator_take_txid txid);
  mret (Some SetupBitVmxAdvanceFundsProtocol).

Definition on_setup_completed (current_step : Steps) : SR W FlowError (option Steps) :=
  if negb (bool_decide (current_step = SetupBitVmxAdvanceFundsProtocol)) then invalid else
  mret (Some WaitBitVmxAdvanceFundsSpv).

Definition on_advance_funds_spv (current_step : Steps) (spv_data : FundsAdvanceSPV) : SR W FlowError (option Steps) :=
  if is_past current_step WaitBitVmxAdvanceFundsSpv then mret None else
  if negb (bool_decide (current_step = WaitBitVmxAdvanceFundsSpv)) then invalid else
  _ ← update_state (set_advance_funds_spv spv_data);
  mret (Some RegisterOrWaitRskAdvanceFunds).

Definition on_advance_funds_confirmed (current_step : Steps) (data : AdvanceFundsRegistered)
    : SR W FlowError (option Steps) :=
  selected ← read_state was_selected_operator;
  if negb (is_valid_transition current_step RegisterOrWaitRskAdvanceFunds selected) then invalid else
  _ ← update_state (set_advance_funds_registered data);
  mret (Some SetVarBitVmxAdvanceFundsRegistered).

Definition on_reimbursement_kickoff_spv (current_step : Steps) (proof : BtcTxSPVProof)
    : SR W FlowError (option Steps) :=
  if is_past current_step SetVarBitVmxAdvanceFundsRegistered then mret None else
  selected ← read_state was_selected_operator;
  if negb (is_valid_transition current_step SetVarBitVmxAdvanceFundsRegistered selected) then invalid else
  _ ← (if (selected : bool) then update_state (set_reimbursement_kickoff_spv proof) else mret tt);
  mret (Some RegisterOrWaitRskReimbursementKickoff).

Definition on_reimbursement_kickoff_confirmed (current_step : Steps) : SR W FlowError (option Steps) :=
  selected ← read_state was_selected_operator;
  if negb (is_valid_transition current_step RegisterOrWaitRskReimbursementKickoff selected) then invalid else
  mret (Some WaitBitVmxOperatorTakeSpv).

Definition on_operator_take_spv (current_step : Steps) (proof : BtcTxSPVProof) : SR W FlowError (option Steps) :=
  if is_past current_step WaitBitVmxOperatorTakeSpv then mret None else
  selected ← read_state was_selected_operator;
  if negb (is_valid_transition current_step WaitBitVmxOperatorTakeSpv selected) then invalid else
  _ ← (if (selected : bool) then update_state (set_operator_take_spv proof) else mret tt);
  mret (Some RegisterOrWaitRskOperatorTake).

Definition on_pegout_registered (current_step : Steps) : SR W FlowError (option Steps) :=
  selected ← read_state was_selected_operator;
  if negb (is_valid_transition current_step RegisterOrWaitRskOperatorTake selected) then invalid else
  mret (Some Done).

Definition on_retry (current_step : Steps) : option Steps :=
  if negb (is_retriable_step current_step) then None else Some current_step.

Definition handle (current_step : Steps) (data : StepData) : SR W FlowError (option Steps) :=
  match data with
  | DataOperatorTakeTriggered => on_operator_take_triggered current_step
  | DataCommInfo comm_info => on_comm_info current_step comm_info
  | DataSetupCompleted => on_setup_completed current_step
  | DataOperatorTakeTransactionInfo txid => on_operator_take_transaction_info current_step txid
  | DataAdvanceFundsSPV spv_data => on_advance_funds_spv current_step spv_data
  | DataAdvanceFundsConfirmed data => on_advance_funds_confirmed current_step data
  | DataReimbursementKickoffSPV proof => on_reimbursement_kickoff_spv current_step proof
  | DataReimbursementKickoffConfirmed => on_reimbursement_kickoff_confirmed current_step
  | DataOperatorTakeSPV proof => on_operator_take_spv current_step proof
  | DataPegoutRegistered _ => on_pegout_registered current_step
  | DataRetry => mret (on_retry current_step)
  end.

Definition complete_step (data : StepData) : SR W FlowError StepOutcome :=
  current_step ← read_state step;
  next_step ← handle current_step data;
  match next_step with
  | Some next => start_step next
  | None => mret OutcomeNoOp
  end.

Definition mark_failed : SR W FlowError unit := _ ← start_step Failed; mret tt.

(** *** What the processor asks of a flow *)

Definition is_terminal (c : FlowContext) : bool :=
  match step c with Done | Failed => true | _ => false end.

Definition is_waiting_comm_info (c : FlowContext) : bool := bool_decide (step c = GetBitVmxCommInfo).

Definition matches_accept_pegin_pid (program_id : bytes) (c : FlowContext) : bool :=
  bool_decide (step c = RequestBitVmxOperatorTakeTransactionInfo) &&
  bool_decide (accept_pegin_pid c = Some program_id).

Definition matches_pegout (pegout_id : Hash256) (c : FlowContext) : bool :=
  bool_decide (td_pegout_id (trigger_data c) = pegout_id).

Definition matches_committee_slot (committee_id slot_id : Z) (c : FlowContext) : bool :=
  bool_decide (td_committee_id (trigger_data c) = committee_id) && bool_decide (td_slot_id (trigger_data c) = slot_id).

End Flow.

(** ** The steps of the flow *)

Section Transitions.
Context `{FlowCodecs, !CommitteeServices E, !AdvanceFundsServices E, !BridgeNode E, Sha256}
  (verifier : NativeBridgeVerifier).
Abbreviation W := (World E).
Abbreviation selected := (was_selected_operator (E := E)).

(** Where an event is expected: at one step by the selected operator, in a range of
    steps by the others. *)
Definition expected (c : FlowContext) (lo hi : Steps) : Prop :=
  if selected c then step c = hi else pos lo <= pos (step c) <= pos hi.

(** The transitions of the machine. *)
Inductive transition (c : FlowContext) : StepData -> Steps -> Prop :=
| T_triggered : step c = WaitRskOperatorTakeTriggered ->
    transition c DataOperatorTakeTriggered
      (if selected c then GetBitVmxCommInfo else RegisterOrWaitRskAdvanceFunds)
| T_comm i : step c = GetBitVmxCommInfo ->
    transition c (DataCommInfo i) RequestBitVmxOperatorTakeTransactionInfo
| T_transaction txid : step c = RequestBitVmxOperatorTakeTransactionInfo ->
    transition c (DataOperatorTakeTransactionInfo txid) SetupBitVmxAdvanceFundsProtocol
| T_setup : step c = SetupBitVmxAdvanceFundsProtocol ->
    transition c DataSetupCompleted WaitBitVmxAdvanceFundsSpv
| T_advance_spv p : step c = WaitBitVmxAdvanceFundsSpv ->
    transition c (DataAdvanceFundsSPV p) RegisterOrWaitRskAdvanceFunds
| T_advance d : expected c WaitRskOperatorTakeTriggered RegisterOrWaitRskAdvanceFunds ->
    transition c (DataAdvanceFundsConfirmed d) SetVarBitVmxAdvanceFundsRegistered
| T_kickoff_spv p : step c = SetVarBitVmxAdvanceFundsRegistered ->
    transition c (DataReimbursementKickoffSPV p) RegisterOrWaitRskReimbursementKickoff
| T_kickoff : expected c SetVarBitVmxAdvanceFundsRegistered RegisterOrWaitRskReimbursementKickoff ->
    transition c DataReimbursementKickoffConfirmed WaitBitVmxOperatorTakeSpv
| T_take_spv p : expected c SetVarBitVmxAdvanceFundsRegistered WaitBitVmxOperatorTakeSpv ->
    transition c (DataOperatorTakeSPV p) RegisterOrWaitRskOperatorTake
| T_registered e : expected c SetVarBitVmxAdvanceFundsRegistered RegisterOrWaitRskOperatorTake ->
    transition c (DataPegoutRegistered e) Done
| T_retry : is_retriable_step (step c) = true ->
    transition c DataRetry (step c).

(** Events that come too late: proofs are sent again with every block, and a retry
    may fire after the registration it was meant for. *)
Inductive absorbed (c : FlowContext) : StepData -> Prop :=
| A_advance_spv p : pos WaitBitVmxAdvanceFundsSpv < pos (step c) -> absorbed c (DataAdvanceFundsSPV p)
| A_kickoff_spv p : pos SetVarBitVmxAdvanceFundsRegistered < pos (step c) ->
    absorbed c (DataReimbursementKickoffSPV p)
| A_take_spv p : pos WaitBitVmxOperatorTakeSpv < pos (step c) -> absorbed c (DataOperatorTakeSPV p)
| A_retry : is_retriable_step (step c) = false -> absorbed c DataRetry.

(** *** What a state must hold at each step *)

Definition trigger_ok (c : FlowContext) : Prop :=
  bitvmx_protocol_id c = advance_funds_protocol_id (committee_id_uuid c) (td_slot_index (trigger_data c)) /\
  forall p, accept_pegin_pid c = Some p ->
    p = accept_pegin_protocol_id (committee_id_uuid c) (td_slot_index (trigger_data c)).

(** What the selected operator has recorded, ... *)
Definition addressed (c : FlowContext) : Prop := is_Some (my_p2p_address c).
Definition informed (c : FlowContext) : Prop := addressed c /\ is_Some (operator_take_txid c).
Definition advanced (c : FlowContext) : Prop := informed c /\ is_Some (advance_funds_spv c).
Definition notified (c : FlowContext) : Prop := is_Some (advance_funds_registered c).
Definition kicked_off (c : FlowContext) : Prop :=
  advanced c /\ notified c /\ is_Some (reimbursement_kickoff_spv c).

Definition selected_ok (s : Steps) (c : FlowContext) : Prop :=
  match s with
  | WaitRskOperatorTakeTriggered | GetBitVmxCommInfo | Failed => True
  | RequestBitVmxOperatorTakeTransactionInfo => addressed c
  | SetupBitVmxAdvanceFundsProtocol | WaitBitVmxAdvanceFundsSpv => informed c
  | RegisterOrWaitRskAdvanceFunds => advanced c
  | SetVarBitVmxAdvanceFundsRegistered => advanced c /\ notified c
  | RegisterOrWaitRskReimbursementKickoff | WaitBitVmxOperatorTakeSpv => kicked_off c
  | RegisterOrWaitRskOperatorTake | Done => kicked_off c /\ is_Some (operator_take_spv c)
  end.

(** ... and another one, which has steps of its own only from the wait for the
    registration of the advance on. *)
Definition waiting_ok (s : Steps) (c : FlowContext) : Prop :=
  match s with
  | WaitRskOperatorTakeTriggered | RegisterOrWaitRskAdvanceFunds | Failed => True
  | SetVarBitVmxAdvanceFundsRegistered | RegisterOrWaitRskReimbursementKickoff | WaitBitVmxOperatorTakeSpv
  | RegisterOrWaitRskOperatorTake | Done => notified c
  | _ => False
  end.

Definition step_ok (s : Steps) (c : FlowContext) : Prop :=
  if selected c then selected_ok s c else waiting_ok s c.

Definition retry_ok (c : FlowContext) : Prop :=
  pending_retry c = true -> selected c = true /\ is_retriable_step (step c) = true.

Definition state_ok (c : FlowContext) : Prop := trigger_ok c /\ step_ok (step c) c /\ retry_ok c.
Definition saved_ok (v : option FlowContext) : Prop := forall s, v = Some s -> state_ok s.
Definition flow_ok (c : FlowContext) (v : option FlowContext) : Prop := state_ok c /\ saved_ok v.

(** *** Handling an event *)

(** The data are recorded, the rest of the state stays. *)
Definition recorded (c c' : FlowContext) : Prop :=
  step c' = step c /\ trigger_data c' = trigger_data c /\ flow_id c' = flow_id c.

Definition with_state (c : FlowContext) (w : W) : W := mkWorld c (saved w) (env w) (trace w).

Lemma valid_transition c hi lo :
  lo = (if pos hi <? 6 then WaitRskOperatorTakeTriggered else SetVarBitVmxAdvanceFundsRegistered) ->
  is_valid_transition (step c) hi (selected c) = true <-> expected c lo hi.
Proof.
  intros ->. unfold is_valid_transition, expected. destruct (selected c).
  - apply bool_decide_eq_true.
  - cbn. destruct (_ <? _); cbn; lia.
Qed.

(** What is known of the recorded state when the next step is entered. *)
Definition ready (next : Steps) (c : FlowContext) : Prop := state_ok c /\ step_ok next c.

Definition handled (c : FlowContext) (d : StepData) (w : W) (r : result FlowError (option Steps) * W) : Prop :=
  (exists causes, r = (Err (Chain causes), w)) \/
  (absorbed c d /\ r = (Ok None, w)) \/
  exists next c', r = (Ok (Some next), with_state c' w) /\ transition c d next /\ recorded c c' /\
    (state_ok c -> ready next c').

Lemma handled_invalid c d w : handled c d w (invalid w).
Proof. left. by eexists. Qed.

Lemma handled_next c d w next c' :
  transition c d next -> recorded c c' -> (state_ok c -> ready next c') ->
  handled c d w (Ok (Some next), with_state c' w).
Proof. intros. right. right. by exists next, c'. Qed.

Ltac evaluate := unfold read_state, update_state, smodify, sget, mbind, SR_bind, mret, SR_ret; cbn.

Lemma selected_same c c' : trigger_data c' = trigger_data c -> selected c' = selected c.
Proof. unfold was_selected_operator. by intros ->. Qed.

(** Recording a field leaves the rest of the state well formed. *)
Lemma ready_update next c c' :
  recorded c c' -> bitvmx_protocol_id c' = bitvmx_protocol_id c -> accept_pegin_pid c' = accept_pegin_pid c ->
  pending_retry c' = pending_retry c ->
  (let ok := if selected c then selected_ok else waiting_ok in ok (step c) c -> ok (step c) c' /\ ok next c') ->
  state_ok c -> ready next c'.
Proof.
  intros (Hs & Ht & _) Hid Hpid Hp Hstep (Htr & Hok & Hr).
  assert (step_ok (step c) c' /\ step_ok next c') as [Hok' Hnext].
  { revert Hstep Hok. unfold step_ok. rewrite (selected_same c c' Ht). destruct (selected c); auto. }
  unfold ready, state_ok, trigger_ok, retry_ok, committee_id_uuid, was_selected_operator in *.
  rewrite Hs, Ht, Hid, Hpid, Hp. destruct Htr. by split_and!.
Qed.

Lemma handle_run d w : handled (state w) d w (handle (step (state w)) d w).
Proof.
  destruct w as [c v e t]. cbn [state].
  assert (Hnext : forall next c', transition c d next -> recorded c c' ->
    bitvmx_protocol_id c' = bitvmx_protocol_id c -> accept_pegin_pid c' = accept_pegin_pid c ->
    pending_retry c' = pending_retry c ->
    (let ok := if selected c then selected_ok else waiting_ok in ok (step c) c -> ok (step c) c' /\ ok next c') ->
    handled c d (mkWorld c v e t) (Ok (Some next), mkWorld c' v e t)).
  { intros. apply (handled_next c d (mkWorld c v e t) next c'); eauto using ready_update. }
  assert (Habs : absorbed c d -> handled c d (mkWorld c v e t) (Ok None, mkWorld c v e t)) by (right; by left).
  assert (Hinv : handled c d (mkWorld c v e t) (Err (Chain [Msg "Invalid state transition"]), mkWorld c v e t))
    by apply handled_invalid.
  destruct d; cbn [handle]; unfold on_operator_take_triggered, on_comm_info, on_setup_completed,
    on_operator_take_transaction_info, on_advance_funds_spv, on_advance_funds_confirmed, on_reimbursement_kickoff_spv,
    on_reimbursement_kickoff_confirmed, on_operator_take_spv, on_pegout_registered, on_retry.
  all: destruct (step c) eqn:Hs; try exact Hinv; evaluate; unfold is_valid_transition;
    destruct (selected c) eqn:Hsel; repeat case_bool_decide; cbn; rewrite ?Hsel; try done;
    first [exact Hinv | apply Habs; constructor; rewrite Hs; done | idtac].
  all: apply Hnext; [|by split_and!|done|done|done|].
  1,3: pose proof (T_triggered c Hs) as Ht; by rewrite Hsel in Ht.
  all: try (constructor; unfold expected; rewrite ?Hsel, ?Hs; cbn; done).
  all: try (rewrite <- Hs; constructor; by rewrite Hs).
  all: cbn; unfold kicked_off, advanced, informed, addressed, notified; cbn; naive_solver.
Qed.

(** Data of a transition are accepted. *)
Lemma handle_accepts d w next :
  transition (state w) d next -> exists w', handle (step (state w)) d w = (Ok (Some next), w').
Proof.
  destruct w as [c v e t]. cbn [state]. intros Ht.
  assert (Hval : forall lo hi, expected c lo hi ->
    lo = (if pos hi <? 6 then WaitRskOperatorTakeTriggered else SetVarBitVmxAdvanceFundsRegistered) ->
    is_valid_transition (step c) hi (selected c) = true /\ is_past (step c) hi = false).
  { intros lo hi He Hlo. split; [by eapply valid_transition|]. unfold expected in He. unfold is_past.
    destruct (selected c); [rewrite He|]; apply Z.ltb_ge; lia. }
  destruct Ht as [Hs|i Hs|txid Hs|Hs|p Hs|x Hs|p Hs|Hs|p Hs|e' Hs|Hs]; cbn [handle];
    unfold on_operator_take_triggered, on_comm_info, on_setup_completed, on_operator_take_transaction_info,
      on_advance_funds_spv, on_advance_funds_confirmed, on_reimbursement_kickoff_spv,
      on_reimbursement_kickoff_confirmed, on_operator_take_spv, on_pegout_registered, on_retry;
    try (destruct (Hval _ _ Hs eq_refl) as [Hv Hp]; rewrite ?Hp; evaluate; rewrite Hv; cbn;
         destruct (selected c); by eexists);
    rewrite Hs; evaluate; unfold is_valid_transition; destruct (selected c) eqn:Hsel; repeat case_bool_decide; cbn;
    rewrite ?Hsel; try done; by eexists.
Qed.

(** *** Entering a step *)

Abbreviation triple := (hoare (S := FlowContext) (E := E) (X := Effect)).

(** While the entry action runs, only what is looked up is added to the context. *)
Definition entering (c0 : FlowContext) (next : Steps) (v0 : option FlowContext) (c : FlowContext)
    (v : option FlowContext) : Prop :=
  trigger_ok c /\ step c = next /\ step_ok next c /\ trigger_data c = trigger_data c0 /\ flow_id c = flow_id c0 /\
  v = v0.

Definition unsaved (v0 : option FlowContext) (c : FlowContext) (v : option FlowContext) : Prop := v = v0.

Lemma entering_unsaved c0 next v0 c v : entering c0 next v0 c v -> unsaved v0 c v.
Proof. intros (_ & _ & _ & _ & _ & ?). done. Qed.

Lemma keeps_register_with p c r f : keeps (register_with verifier p c r f).
Proof.
  intros w. unfold register_with.
  pose proof (keeps_invoke p verifier (call c) ltac:(unfold call; keep) w) as Hk.
  by destruct (invoke_contract_safe p verifier (call c) w) as [[u|[]] w'].
Qed.
Hint Resolve keeps_register_with : keeps.

Lemma keeps_bitvmx_msg msg : keeps (send_bitvmx_msg (E := E) msg).
Proof. unfold send_bitvmx_msg. keep. Qed.
Hint Resolve keeps_bitvmx_msg : keeps.

Lemma entering_keeps {A} c0 next v0 (m : SR W FlowError A) :
  keeps m -> triple (unsaved v0) (entering c0 next v0) m (fun _ => entering c0 next v0).
Proof. intros Hm. apply hoare_keeps; [done|]. apply entering_unsaved. Qed.

(** Caching a field. *)
Lemma entering_update c0 next v0 f :
  (forall c, trigger_ok c -> trigger_ok (f c)) -> (forall c, step (f c) = step c) ->
  (forall c, trigger_data (f c) = trigger_data c) -> (forall c, flow_id (f c) = flow_id c) ->
  (forall s c, step_ok s c -> step_ok s (f c)) ->
  triple (unsaved v0) (entering c0 next v0) (update_state f) (fun _ => entering c0 next v0).
Proof.
  intros Ht Hs Hd Hi Hok. apply hoare_update. intros c v (? & ? & ? & ? & ? & ?).
  unfold entering. rewrite Hs, Hd, Hi. split_and!; auto.
Qed.

Lemma resolve_hoare c0 next v0 :
  triple (unsaved v0) (entering c0 next v0) resolve_accept_pegin_txid (fun _ => entering c0 next v0).
Proof.
  unfold resolve_accept_pegin_txid. eapply hoare_bind; [apply entering_keeps; keep|]. intros [txid|].
  { apply entering_keeps. keep. }
  eapply hoare_bind; [apply entering_keeps; keep|]. intros p.
  eapply hoare_bind; [apply entering_keeps; keep|]. intros txid.
  eapply hoare_bind; [by apply entering_update|]. intros []. apply entering_keeps. keep.
Qed.

Lemma index_hoare c0 next v0 :
  triple (unsaved v0) (entering c0 next v0) get_my_committee_index (fun _ => entering c0 next v0).
Proof.
  unfold get_my_committee_index. eapply hoare_bind; [apply entering_keeps; keep|]. intros [i|].
  { apply entering_keeps. keep. }
  eapply hoare_bind; [apply entering_keeps; keep|]. intros id.
  eapply hoare_bind; [apply entering_keeps; keep|]. intros out.
  eapply hoare_bind; [apply entering_keeps; keep|]. intros i.
  eapply hoare_bind; [by apply entering_update|]. intros []. apply entering_keeps. keep.
Qed.

Lemma transaction_info_hoare c0 next v0 :
  triple (unsaved v0) (entering c0 next v0) enter_request_transaction_info (fun _ => entering c0 next v0).
Proof.
  unfold enter_request_transaction_info, operator_take_transaction_name.
  apply (hoare_bind _ _ (fun _ => entering c0 next v0)).
  { eapply hoare_bind; [apply index_hoare|]. intros i. apply entering_keeps. keep. }
  intros name. eapply hoare_bind; [apply hoare_read|]. intros pid. cbn beta.
  apply (hoare_bind _ _ (fun _ => entering c0 next v0)); [|intros []; apply entering_keeps; keep].
  apply hoare_update. intros c v [([Hid _] & Hs & Hok & Hd & Hi & Hv) ->].
  split_and!; try done. split; [done|]. by intros p [= <-].
Qed.

Definition entered (c0 : FlowContext) (next : Steps) (v0 : option FlowContext) (o : StepOutcome) (c : FlowContext)
    (v : option FlowContext) : Prop :=
  entering c0 next v0 c v /\ o <> OutcomeNoOp /\
  (is_retry o = true -> selected c0 = true /\ is_retriable_step next = true).

Lemma entered_done c0 next v0 (m : SR W FlowError unit) :
  triple (unsaved v0) (entering c0 next v0) m (fun _ => entering c0 next v0) ->
  triple (unsaved v0) (entering c0 next v0) (_ ← m; mret OutcomeDone) (entered c0 next v0).
Proof. intros Hm. eapply hoare_bind; [apply Hm|]. intros [] w Hw. cbn. by split_and!. Qed.

Lemma entered_register c0 next v0 p c r f :
  selected c0 = true -> is_retriable_step next = true ->
  triple (unsaved v0) (entering c0 next v0) (register_with verifier p c r f) (entered c0 next v0).
Proof.
  intros Hsel Hret w Hw. destruct (keeps_register_with p c r f w) as [Hs Hv].
  assert (Ho : fst (register_with verifier p c r f w) <> Ok OutcomeNoOp)
    by (unfold register_with; by destruct (invoke_contract_safe p verifier (call c) w) as [[u|[]] w']).
  destruct (register_with verifier p c r f w) as [[o|x] w']; cbn in *; rewrite Hs, Hv; [|by eapply entering_unsaved].
  split_and!; [done|naive_solver|done].
Qed.

Lemma entered_if_selected c0 next v0 m :
  (selected c0 = true -> triple (unsaved v0) (entering c0 next v0) m (entered c0 next v0)) ->
  triple (unsaved v0) (entering c0 next v0) (if_selected m) (entered c0 next v0).
Proof.
  intros Hm. eapply hoare_bind; [apply hoare_read|]. intros b w [Hw ->].
  destruct Hw as (? & ? & ? & Hd & ?). cbn. rewrite (selected_same c0) by done.
  destruct (selected c0); [by apply Hm|]. cbn. by split_and!.
Qed.

Lemma enter_step_hoare c0 next v0 :
  triple (unsaved v0) (entering c0 next v0) (enter_step verifier next) (entered c0 next v0).
Proof.
  assert (Hret : triple (unsaved v0) (entering c0 next v0) (mret OutcomeDone) (entered c0 next v0))
    by (intros w Hw; by split_and!).
  destruct next; cbn [enter_step]; try exact Hret; try apply entered_done.
  - apply hoare_fail. apply entering_unsaved.
  - apply entering_keeps. unfold enter_request_comm_info. keep.
  - apply transaction_info_hoare.
  - apply entering_keeps. unfold enter_setup_protocol. keep.
  - apply entered_if_selected. intros Hsel. unfold enter_register_advance_funds.
    eapply hoare_bind; [apply entering_keeps; keep|]. intros o.
    eapply hoare_bind; [apply entering_keeps; keep|]. intros spv.
    eapply hoare_bind; [apply resolve_hoare|]. intros txid. by apply entered_register.
  - apply entering_keeps. unfold enter_notify_registered. keep.
  - apply entered_if_selected. intros Hsel. unfold enter_register_reimbursement_kickoff.
    eapply hoare_bind; [apply entering_keeps; keep|]. intros o.
    eapply hoare_bind; [apply entering_keeps; keep|]. intros spv.
    eapply hoare_bind; [apply resolve_hoare|]. intros txid. by apply entered_register.
  - apply entered_if_selected. intros Hsel. unfold enter_register_operator_take.
    eapply hoare_bind; [apply entering_keeps; keep|]. intros o.
    eapply hoare_bind; [apply entering_keeps; keep|]. intros spv. by apply entered_register.
  - apply entering_keeps. unfold enter_write_completion_marker. keep.
Qed.

(** What a call that may fail leaves behind. *)
Definition same_flow (c c' : FlowContext) : Prop := trigger_data c' = trigger_data c /\ flow_id c' = flow_id c.

Definition started (next : Steps) (w : W) (r : result FlowError StepOutcome * W) : Prop :=
  match r with
  | (Ok o, w') => o <> OutcomeNoOp /\ step (state w') = next /\ state_ok (state w') /\
      saved w' = Some (state w') /\ pending_retry (state w') = is_retry o /\ same_flow (state w) (state w')
  | (Err (Chain _), w') => (state w' = state w \/ step (state w') = next /\ state_ok (state w')) /\
      saved w' = saved w /\ same_flow (state w) (state w')
  | (Err (FlowPanic _), w') => saved w' = saved w
  end.

Lemma start_step_run next w : ready next (state w) -> started next w (start_step verifier next w).
Proof.
  intros [(Htr & Hok & Hr) Hnext]. unfold start_step.
  rewrite SR_bind_run with (a := state w) (s' := w) by done.
  set (w1 := mkWorld (set_step next (state w)) (saved w) (env w) (trace w)).
  rewrite SR_bind_run with (a := tt) (s' := w1) by done.
  assert (He : entering (state w) next (saved w) (state w1) (saved w1)) by by split_and!.
  pose proof (enter_step_hoare _ _ _ w1 He) as Hen. unfold catch, mbind, SR_bind.
  destruct (enter_step verifier next w1) as [[o|[causes|msg]] w2].
  - destruct Hen as ((Ht2 & Hs2 & Hok2 & Hd2 & Hi2 & Hv2) & Ho & Hretry).
    assert (Hst : state_ok (set_pending_retry (is_retry o) (state w2))).
    { split_and!; [done|by rewrite <- Hs2 in Hok2|]. intros Hp. destruct (Hretry Hp).
      split; [by rewrite (selected_same (state w))|cbn; by rewrite Hs2]. }
    assert (Hsame : same_flow (state w) (set_pending_retry (is_retry o) (state w2))) by by split.
    cbn. unfold persist_state, persist_with, mbind, SR_bind, sget, smodify, update_state, on_env. cbn.
    destruct (save_flow _ (env w2)) as [[u|[causes|msg]] e]; cbn; auto 10.
  - cbn. split; [by left|]. split; [done|by split].
  - done.
Qed.

Definition completed (d : StepData) (w : W) (r : result FlowError StepOutcome * W) : Prop :=
  match r with
  | (Ok OutcomeNoOp, w') => absorbed (state w) d /\ w' = w
  | (Ok o, w') => exists next, transition (state w) d next /\ step (state w') = next /\ state_ok (state w') /\
      saved w' = Some (state w') /\ pending_retry (state w') = is_retry o /\ same_flow (state w) (state w')
  | (Err (Chain _), w') =>
      (step (state w') = step (state w) \/ exists next, transition (state w) d next /\ step (state w') = next) /\
      state_ok (state w') /\ saved w' = saved w /\ same_flow (state w) (state w')
  | (Err (FlowPanic _), w') => saved w' = saved w
  end.

Lemma complete_step_run d w : state_ok (state w) -> completed d w (complete_step verifier d w).
Proof.
  intros Hok. unfold complete_step. rewrite SR_bind_run with (a := step (state w)) (s' := w) by done.
  destruct (handle_run d w) as [(causes & Hr)|[(Habs & Hr)|(next & c' & Hr & Ht & (Hs & Hd & Hi) & Hready)]].
  - rewrite (SR_bind_err _ _ _ _ _ Hr). cbn. split; [by left|]. split; [done|by split].
  - by rewrite (SR_bind_run _ _ _ _ _ Hr).
  - rewrite (SR_bind_run _ _ _ _ _ Hr). specialize (Hready Hok).
    pose proof (start_step_run next (with_state c' w) Hready) as Hst.
    assert (Hsame : forall c, same_flow c' c -> same_flow (state w) c) by (intros c [? ?]; split; congruence).
    destruct (start_step verifier next (with_state c' w)) as [[o|[causes|msg]] w']; cbn in Hst |- *.
    + destruct Hst as (Ho & Hn & Hok' & Hv & Hp & Hf). destruct o; [|done|]; exists next; auto 10.
    + destruct Hst as ([Hw|[Hn Hok']] & Hv & Hf); (split; [|split]); auto.
      * rewrite Hw. by left.
      * rewrite Hw. apply Hready.
      * eauto.
    + done.
Qed.

Lemma completed_same d w r w' : completed d w (r, w') -> panicked r = false -> same_flow (state w) (state w').
Proof.
  destruct r as [[| |reason]|[causes|msg]]; cbn; [| | | |done]; intros Hc _.
  - by destruct Hc as (? & _ & _ & _ & _ & _ & ?).
  - destruct Hc as [_ ->]. by split.
  - by destruct Hc as (? & _ & _ & _ & _ & _ & ?).
  - by destruct Hc as (_ & _ & _ & ?).
Qed.

(** The selected operator takes one step at a time; nobody goes back. *)
Lemma transition_forward c d next :
  transition c d next -> pos (step c) <= pos next /\ (selected c = true -> pos next <= pos (step c) + 1).
Proof.
  intros Ht. destruct Ht as [Hs|i Hs|txid Hs|Hs|p Hs|x Hs|p Hs|Hs|p Hs|e Hs|Hs];
    try unfold expected in Hs; destruct (selected c); rewrite ?Hs; cbn in *; try lia.
Qed.

End Transitions.

(** ** Effects *)

Section Effects.
Context `{FlowCodecs, !CommitteeServices E, !AdvanceFundsServices E, !BridgeNode E, Sha256}
  (verifier : NativeBridgeVerifier).
Abbreviation W := (World E).

(** The effects that others rely on: telling BitVMX that the advance is registered,
    and the marker of a finished flow. *)
Definition notable (x : Effect) : Prop :=
  match x with Sent (SetVarAdvanceFundsRegistered _ _ _) | Marked _ _ => True | _ => False end.

Context (A : Effect -> Prop) (A_other : forall x, ~ notable x -> A x).
Hint Resolve A_other : adds.

Lemma adds_message msg : A (Sent msg) -> adds A (send_bitvmx_msg (E := E) msg).
Proof. apply adds_send_with. Qed.
Hint Resolve adds_message : adds.

Lemma adds_register_with p c r f : adds A (register_with verifier p c r f).
Proof.
  intros w. unfold register_with.
  assert (Hk : adds A (invoke_contract_safe p verifier (call c) : SR W _ _)) by (unfold call; be_quiet).
  specialize (Hk w). by destruct (invoke_contract_safe p verifier (call c) w) as [[u|[]] w'].
Qed.
Lemma adds_resolve : adds A (resolve_accept_pegin_txid (E := E)).
Proof. unfold resolve_accept_pegin_txid. be_quiet. Qed.
Lemma adds_index : adds A (get_my_committee_index (E := E)).
Proof. unfold get_my_committee_index. be_quiet. Qed.
Hint Resolve adds_register_with adds_resolve adds_index : adds.

Lemma adds_enter_step next :
  (next = SetVarBitVmxAdvanceFundsRegistered -> adds A (enter_notify_registered (E := E))) ->
  (next = Done -> forall id c, A (Marked id c)) -> adds A (enter_step verifier next).
Proof.
  intros Hreg Hdone. destruct next; cbn [enter_step];
    unfold enter_request_comm_info, enter_request_transaction_info, operator_take_transaction_name,
      enter_setup_protocol, if_selected, enter_register_advance_funds, enter_register_reimbursement_kickoff,
      enter_register_operator_take, enter_write_completion_marker; be_quiet.
Qed.

(** An entry action in a given state. *)
Lemma adds_start_step next w :
  (exists l, trace (snd (enter_step verifier next (mkWorld (set_step next (state w)) (saved w) (env w) (trace w)))) =
     trace w ++ l /\ Forall A l) ->
  exists l, trace (snd (start_step verifier next w)) = trace w ++ l /\ Forall A l.
Proof.
  intros Hen. unfold start_step. rewrite SR_bind_run with (a := state w) (s' := w) by done.
  set (w1 := mkWorld (set_step next (state w)) (saved w) (env w) (trace w)) in *.
  rewrite SR_bind_run with (a := tt) (s' := w1) by done. unfold catch, mbind, SR_bind.
  destruct (enter_step verifier next w1) as [[o|[causes|msg]] w2]; cbn in *; [|done|done].
  destruct Hen as (l & Hl & HA). unfold persist_state, persist_with, on_env, mbind, SR_bind. cbn.
  destruct (save_flow _ (env w2)) as [[u|x] e]; cbn; eauto.
Qed.

(** Completing a step has such effects only with the data of the registrations. *)
Lemma take_adds_complete_step d :
  (forall data, d = DataAdvanceFundsConfirmed data ->
     A (Sent (SetVarAdvanceFundsRegistered (afr_committee_id data) (advance_funds_registered_name (afr_slot_index data)) data))) ->
  (forall r id c, d = DataPegoutRegistered r -> A (Marked id c)) ->
  adds A (complete_step verifier d).
Proof.
  intros Hreg Hdone w. unfold complete_step. rewrite SR_bind_run with (a := step (state w)) (s' := w) by done.
  assert (Hnil : exists l, trace w = trace w ++ l /\ Forall A l) by (exists []; by rewrite app_nil_r).
  destruct (handle_run d w) as [(causes & Hr)|[(_ & Hr)|(next & c' & Hr & Ht & _)]].
  - by rewrite (SR_bind_err _ _ _ _ _ Hr).
  - by rewrite (SR_bind_run _ _ _ _ _ Hr).
  - rewrite (SR_bind_run _ _ _ _ _ Hr). apply (adds_start_step next (with_state c' w)).
    destruct (decide (next = SetVarBitVmxAdvanceFundsRegistered)) as [->|Hn].
    + assert (exists data, d = DataAdvanceFundsConfirmed data) as [data ->].
      { inversion Ht; subst; try discriminate; eauto; [destruct (was_selected_operator (state w)); discriminate|].
        match goal with Hret : is_retriable_step _ = true, Heq : step _ = _ |- _ => rewrite Heq in Hret; discriminate Hret end. }
      cbn [handle] in Hr. unfold on_advance_funds_confirmed, read_state, update_state, mbind, SR_bind in Hr. cbn in Hr.
      destruct (negb _); [discriminate Hr|]. injection Hr as Hc'. subst c'. cbn.
      unfold enter_notify_registered, read_state, send_bitvmx_msg, send_with, on_env, record, mbind, SR_bind. cbn.
      destruct (broker_send _ (env w)) as [[u|x] e]; cbn; [|done]. eexists. split; [done|].
      apply Forall_singleton. by apply Hreg.
    + assert (Hen : adds A (enter_step verifier next)); [|exact (Hen (mkWorld _ _ _ (trace w)))].
      apply adds_enter_step; [done|]. intros -> id c.
      inversion Ht; subst; try discriminate; eauto; [destruct (was_selected_operator (state w)); discriminate|].
      match goal with Hret : is_retriable_step _ = true, Heq : step _ = _ |- _ => rewrite Heq in Hret; discriminate Hret end.
Qed.

Lemma adds_mark_failed : adds A (mark_failed (E := E) verifier).
Proof.
  intros w. unfold mark_failed, mbind, SR_bind.
  assert (Hs : exists l, trace (snd (start_step verifier Failed w)) = trace w ++ l /\ Forall A l)
    by (apply adds_start_step; exists []; by rewrite app_nil_r).
  by destruct (start_step verifier Failed w) as [[]].
Qed.

End Effects.

(** ** Reachable flows *)

Section Reachable.
Context `{FlowCodecs, !CommitteeServices E, !AdvanceFundsServices E, !BridgeNode E, Sha256}
  (verifier : NativeBridgeVerifier).
Abbreviation W := (World E).
Abbreviation selected := (was_selected_operator (E := E)).

(** A flow is created, handed events or marked as failed, with any outcome but a
    panic; a restart, after a panic or not, continues from what the store holds. *)
Inductive reachable : W -> Prop :=
| R_new id data now env : reachable (new_flow id data now env [])
| R_complete w d r w' : reachable w -> complete_step verifier d w = (r, w') -> panicked r = false -> reachable w'
| R_failed w r w' : reachable w -> mark_failed verifier w = (r, w') -> panicked r = false -> reachable w'
| R_restart w s env : reachable w -> saved w = Some s -> reachable (from_saved_state s env []).

Lemma mark_failed_started w :
  state_ok (state w) ->
  match mark_failed verifier w with
  | (Ok _, w') => step (state w') = Failed /\ state_ok (state w') /\ saved w' = Some (state w') /\
      same_flow (state w) (state w')
  | (Err (Chain _), w') => (state w' = state w \/ step (state w') = Failed /\ state_ok (state w')) /\
      saved w' = saved w /\ same_flow (state w) (state w')
  | (Err (FlowPanic _), w') => saved w' = saved w
  end.
Proof.
  intros Hok. assert (Hready : ready Failed (state w)).
  { split; [done|]. unfold step_ok. by destruct (selected (state w)). }
  pose proof (start_step_run verifier Failed w Hready) as Hst. unfold mark_failed, mbind, SR_bind.
  destruct (start_step verifier Failed w) as [[o|[causes|msg]] w']; cbn in *; [naive_solver|done|done].
Qed.

(** The store is never ahead of the flow. *)
Definition behind (v : option FlowContext) (c : FlowContext) : Prop :=
  forall s, v = Some s -> pos (step s) <= pos (step c) /\ same_flow s c.

Lemma pos_failed s : pos s <= pos Failed.
Proof. destruct s; cbn; lia. Qed.

Lemma reachable_ok w : reachable w -> flow_ok (state w) (saved w) /\ behind (saved w) (state w).
Proof.
  intros Hw. induction Hw as [id data now env|w d r w' _ [[Hok Hv] Hb] Hr Hp|w r w' _ [[Hok Hv] Hb] Hr Hp|w s env _ [[Hok Hv] Hb] Hs].
  - split; [split; [|done]|done]. split_and!; [by split| |done]. unfold step_ok. cbn. by destruct (was_selected_operator _).
  - pose proof (complete_step_run verifier d w Hok) as Hc. rewrite Hr in Hc.
    destruct r as [o|[causes|msg]]; [|destruct Hc as (Hs & Hok' & Hv' & Hf)|done].
    + assert (Hcase : w' = w \/ saved w' = Some (state w') /\ state_ok (state w')).
      { destruct o; [right|left|right]; [|by destruct Hc|]; destruct Hc as (n & ? & ? & ? & ? & ?); auto. }
      destruct Hcase as [-> |[Hv' Hok']]; [by split_and!|].
      unfold flow_ok, saved_ok, behind. rewrite Hv'. split_and!; [done|by intros s [= <-]|].
      intros s [= <-]. split; [lia|by split].
    + unfold flow_ok, behind. rewrite Hv'. split_and!; [done|done|]. intros s Hs'. destruct (Hb s Hs') as [Hle [Ht Hi]].
      destruct Hf. split; [|split; congruence].
      destruct Hs as [Heq|(next & Htr & Hn)]; [by rewrite Heq|]. destruct (transition_forward _ _ _ Htr). rewrite Hn. lia.
  - pose proof (mark_failed_started w Hok) as Hc. rewrite Hr in Hc. destruct r as [[]|[causes|msg]]; [| |done].
    + destruct Hc as (Hs & Hok' & Hv' & Hf). unfold flow_ok, saved_ok, behind. rewrite Hv'.
      split_and!; [done|by intros s [= <-]|]. intros s [= <-]. split; [lia|by split].
    + destruct Hc as (Hs & Hv' & Hf). unfold flow_ok, behind. rewrite Hv'.
      assert (Hok' : state_ok (state w')) by (destruct Hs as [-> |[_ ?]]; done).
      split_and!; [done|done|]. intros s Hs'. destruct (Hb s Hs') as [Hle [Ht Hi]]. destruct Hf.
      split; [|split; congruence]. destruct Hs as [-> |[-> _]]; [done|apply pos_failed].
  - split; [split; [by apply Hv|]|]; cbn; [by intros s' [= <-]; apply Hv|]. intros s' [= <-]. split; [lia|by split].
Qed.

(** *** The work of the selected operator *)

(** Effects that only the selected operator may have. *)
Definition own (x : Effect) : Prop :=
  match x with
  | Called _ | Sent (SetVarAdvanceFundsRequest _ _) | Sent (Setup _ _ _ _) | Sent (GetCommInfo _)
  | Sent (GetTransactionInfoByName _ _) => True
  | _ => False
  end.

#[export] Instance own_dec x : Decision (own x).
Proof. destruct x as [[]| |]; cbn; apply _. Defined.

Abbreviation passive w w' := (filter own (trace w') = filter own (trace w)).

Lemma passive_enter next w :
  selected (state w) = false -> waiting_ok next (state w) -> passive w (snd (enter_step verifier next w)).
Proof.
  intros Hsel Hn.
  assert (Hif : forall m, if_selected m w = (Ok OutcomeDone, w)).
  { intros m. unfold if_selected, read_state, mbind, SR_bind. cbn. by rewrite Hsel. }
  assert (Hq : forall m : SR W FlowError StepOutcome, quiet own m -> passive w (snd (m w))) by (intros m; apply quiet_filter).
  destruct next; cbn [enter_step]; try done; try (by rewrite Hif); apply Hq;
    unfold enter_notify_registered, enter_write_completion_marker, send_bitvmx_msg; be_quiet.
Qed.

Lemma passive_start next w :
  selected (state w) = false -> waiting_ok next (state w) -> passive w (snd (start_step verifier next w)).
Proof.
  intros Hsel Hn. unfold start_step. rewrite SR_bind_run with (a := state w) (s' := w) by done.
  set (w1 := mkWorld (set_step next (state w)) (saved w) (env w) (trace w)).
  rewrite SR_bind_run with (a := tt) (s' := w1) by done.
  pose proof (passive_enter next w1 Hsel) as Hp. unfold catch, mbind, SR_bind.
  destruct (enter_step verifier next w1) as [[o|[causes|msg]] w2]; cbn [snd] in *; try by apply Hp.
  assert (Hq : quiet own ((_ ← update_state (set_pending_retry (is_retry o)); _ ← persist_state; mret o)
    : SR W FlowError StepOutcome)) by (unfold persist_state; be_quiet).
  transitivity (filter own (trace w2)); [exact (quiet_filter own _ w2 Hq)|by apply Hp].
Qed.

Lemma passive_complete d w :
  state_ok (state w) -> selected (state w) = false -> passive w (snd (complete_step verifier d w)).
Proof.
  intros Hok Hsel. unfold complete_step. rewrite SR_bind_run with (a := step (state w)) (s' := w) by done.
  destruct (handle_run d w) as [(causes & Hr)|[(Habs & Hr)|(next & c' & Hr & Ht & (Hs & Hd & Hi) & Hready)]].
  - by rewrite (SR_bind_err _ _ _ _ _ Hr).
  - by rewrite (SR_bind_run _ _ _ _ _ Hr).
  - rewrite (SR_bind_run _ _ _ _ _ Hr). destruct (Hready Hok) as [_ Hn].
    assert (Hsel' : selected c' = false) by by rewrite (selected_same (state w)).
    unfold step_ok in Hn. rewrite Hsel' in Hn. by apply (passive_start next (with_state c' w)).
Qed.

Lemma reachable_passive w : reachable w -> selected (state w) = false -> filter own (trace w) = [].
Proof.
  intros Hw. induction Hw as [id data now env|w d r w' Hw IH Hr Hp|w r w' Hw IH Hr Hp|w s env Hw IH Hs]; intros Hsel;
    [done| | |done]; apply reachable_ok in Hw as [[Hok _] _].
  - assert (Hsel' : selected (state w) = false).
    { rewrite <- Hsel. symmetry. apply selected_same. pose proof (complete_step_run verifier d w Hok) as Hc.
      rewrite Hr in Hc. by apply completed_same in Hc as [? _]. }
    rewrite <- (IH Hsel'). pose proof (passive_complete d w Hok Hsel') as Hq. by rewrite Hr in Hq.
  - pose proof (mark_failed_started w Hok) as Hc. rewrite Hr in Hc.
    assert (Hsel' : selected (state w) = false).
    { rewrite <- Hsel. symmetry. apply selected_same. destruct r as [[]|[causes|msg]]; [| |done];
      unfold same_flow in Hc; naive_solver. }
    rewrite <- (IH Hsel'). pose proof (passive_start Failed w Hsel' I) as Hq. unfold mark_failed, mbind, SR_bind in Hr.
    destruct (start_step verifier Failed w) as [[o|x] w2]; cbn in Hr; by injection Hr as <- <-.
Qed.

End Reachable.

(** ** Progress *)

(** Services that answer: the committee has this member, and the contracts, the
    broker, the bridge and the store do not fail. *)
Class Reliable `{FlowCodecs, !CommitteeServices E, !AdvanceFundsServices E, !BridgeNode E, Sha256}
    (verifier : NativeBridgeVerifier) := {
  committee_ok id e : exists out e', get_committee id e = (Ok out, e') /\ is_Some (member_position my_address (members out));
  uuid_ok e : exists id e', new_v4 e = (Ok id, e');
  txid_ok h e : exists txid e', get_accept_pegin_txid h e = (Ok txid, e');
  call_ok c e : exists e', contract_call c e = (Ok tt, e');
  send_ok msg e : exists e', broker_send msg e = (Ok tt, e');
  save_ok s e : exists e', save_flow s e = (Ok tt, e');
  marker_ok id c e : exists e', signal_done id c e = (Ok tt, e');
  verified p (w : World E) : exists st w', verify_confirmations verifier p (required_confirmations verifier) w = (Ok st, w')
}.

Section Progress.
Context `{FlowCodecs, !CommitteeServices E, !AdvanceFundsServices E, !BridgeNode E, Sha256}
  (verifier : NativeBridgeVerifier) `{!Reliable verifier}.
Abbreviation W := (World E).
Abbreviation selected := (was_selected_operator (E := E)).

Lemma okay_message msg w : okay (send_bitvmx_msg msg) w.
Proof. apply okay_send_with, send_ok. Qed.

Lemma okay_register p c r f w : okay (register_with verifier p c r f) w.
Proof.
  destruct (verified p w) as (st & w' & Hv). unfold okay, register_with, invoke_contract_safe.
  rewrite (SR_bind_run _ _ _ _ _ Hv). destruct st as [|req act]; [|by cbn; eauto].
  unfold call, call_with. destruct (call_ok c (env w')) as [e' ->]. eauto.
Qed.

Lemma okay_resolve w : okay resolve_accept_pegin_txid w.
Proof.
  unfold resolve_accept_pegin_txid. apply okay_bind; [by repeat eexists|]. intros [txid|] w1 _; [by repeat eexists|].
  apply okay_bind; [by repeat eexists|]. intros h w2 _.
  apply okay_bind; [apply okay_env, txid_ok|]. intros txid w3 _. by repeat eexists.
Qed.

Lemma okay_index w : okay get_my_committee_index w.
Proof.
  unfold get_my_committee_index. apply okay_bind; [by repeat eexists|]. intros [i|] w1 _; [by repeat eexists|].
  apply okay_bind; [by repeat eexists|]. intros id w2 _.
  destruct (committee_ok id (env w2)) as (out & e' & Hg & Hm).
  apply okay_bind; [apply okay_env; eauto|]. intros out' w3 Hr. unfold on_env in Hr. rewrite Hg in Hr.
  injection Hr as <- _. apply okay_need; [done|]. intros i _. by repeat eexists.
Qed.

(** An entry action finds what it needs. *)
Lemma okay_enter next w :
  step_ok next (state w) -> next <> WaitRskOperatorTakeTriggered ->
  (forall x, ancestor_pegout_id (state w) <> Err x) -> okay (enter_step verifier next) w.
Proof.
  intros Hok Hne Ha. unfold step_ok in Hok.
  assert (Hif : forall m, (selected (state w) = true -> okay m w) -> okay (if_selected m) w).
  { intros m Hm. unfold okay, if_selected. rewrite SR_bind_run with (a := selected (state w)) (s' := w) by done.
    destruct (selected (state w)); [by apply Hm|by repeat eexists]. }
  assert (Hdone : forall m : SR W FlowError unit, okay m w -> okay (_ ← m; mret OutcomeDone) w).
  { intros m Hm. apply okay_bind; [done|]. intros u w' _. by repeat eexists. }
  destruct next; cbn [enter_step]; try done; try (by repeat eexists); try apply Hdone; try (apply Hif; intros Hsel; rewrite Hsel in Hok).
  - apply okay_bind; [apply okay_env, uuid_ok|]. intros id w' _. apply okay_message.
  - unfold enter_request_transaction_info, operator_take_transaction_name.
    apply okay_bind; [apply okay_bind; [apply okay_index|intros i w' _; by repeat eexists]|]. intros name w1 _.
    apply okay_bind; [by repeat eexists|]. intros pid w2 _. apply okay_bind; [by repeat eexists|]. intros u w3 _.
    apply okay_message.
  - destruct (selected (state w)) eqn:Hsel; [|done]. destruct Hok as [[mine Hm] _]. unfold enter_setup_protocol.
    unfold okay. rewrite SR_bind_run with (a := state w) (s' := w) by done. rewrite Hsel. cbn [negb].
    apply okay_need; [by rewrite Hm|]. intros a _. cbn zeta.
    apply okay_bind; [apply okay_message|]. intros u w' _. apply okay_message.
  - destruct Hok as [_ Hspv]. unfold enter_register_advance_funds, okay.
    rewrite SR_bind_run with (a := advance_funds_spv (state w)) (s' := w) by done.
    apply okay_need; [done|]. intros spv _. apply okay_bind; [apply okay_resolve|]. intros txid w' _. apply okay_register.
  - assert (Hn : notified (state w)) by (destruct (selected (state w)); [apply Hok|done]).
    unfold enter_notify_registered, okay.
    rewrite SR_bind_run with (a := advance_funds_registered (state w)) (s' := w) by done.
    apply okay_need; [done|]. intros d _. apply okay_message.
  - destruct Hok as (_ & _ & Hspv). unfold enter_register_reimbursement_kickoff, okay.
    rewrite SR_bind_run with (a := reimbursement_kickoff_spv (state w)) (s' := w) by done.
    apply okay_need; [done|]. intros spv _. apply okay_bind; [apply okay_resolve|]. intros txid w' _. apply okay_register.
  - destruct Hok as [_ Hspv]. unfold enter_register_operator_take, okay.
    rewrite SR_bind_run with (a := operator_take_spv (state w)) (s' := w) by done.
    apply okay_need; [done|]. intros spv _. apply okay_register.
  - unfold enter_write_completion_marker, okay. rewrite SR_bind_run with (a := state w) (s' := w) by done.
    destruct (ancestor_pegout_id (state w)) as [a|x]; [|by destruct (Ha x)].
    apply okay_send_with, marker_ok.
Qed.

Lemma take_okay_start next w :
  step_ok next (state w) -> next <> WaitRskOperatorTakeTriggered ->
  (forall x, ancestor_pegout_id (state w) <> Err x) -> okay (start_step verifier next) w.
Proof.
  intros Hok Hne Ha. unfold start_step, okay. rewrite SR_bind_run with (a := state w) (s' := w) by done.
  set (w1 := mkWorld (set_step next (state w)) (saved w) (env w) (trace w)).
  rewrite SR_bind_run with (a := tt) (s' := w1) by done.
  destruct (okay_enter next w1 Hok Hne Ha) as (o & w2 & Ho).
  assert (Hc : catch (enter_step verifier next) w1 = (Ok (Ok o), w2)) by (unfold catch; by rewrite Ho).
  rewrite (SR_bind_run _ _ _ _ _ Hc). apply okay_bind; [by repeat eexists|]. intros u w3 _.
  apply okay_bind; [apply okay_persist_with, save_ok|]. intros u' w4 _. by repeat eexists.
Qed.

End Progress.

(** ** What the flow guarantees *)

(** The state of an advance-funds flow is well formed.  In every reachable
    flow, in memory as in the store, the identifiers are those of the committee and
    slot of the trigger, the selected operator has recorded what its step relies on
    (its address, the take transaction, the proofs of advance, kickoff and take),
    another operator stands only at steps where it waits, the registration is known
    from the notification on, and a retry is pending only for a registration of the
    selected operator.  The store is never ahead of the flow. *)
Theorem take_state_well_formed `{FlowCodecs, !CommitteeServices E, !AdvanceFundsServices E, !BridgeNode E, Sha256} verifier (w : World E) :
  reachable verifier w ->
  state_ok (state w) /\
  forall s, saved w = Some s -> state_ok s /\ pos (step s) <= pos (step (state w)) /\ same_flow s (state w).
Proof. intros Hw. destruct (reachable_ok verifier w Hw) as [[Hok Hv] Hb]. split; [done|]. intros s Hs. auto. Qed.

(** The flow follows its transitions, and forward.  An event is absorbed
    without any change exactly as the late events are; or it moves the flow along
    the transition relation, the store then holds the new state, and a retry is
    pending exactly if the outcome says so; or it fails, the store is unchanged, and
    the flow is at its step or, when only saving failed, at the next one.  The
    position never decreases, and the selected operator skips no step. *)
Theorem take_follows_transitions `{FlowCodecs, !CommitteeServices E, !AdvanceFundsServices E, !BridgeNode E, Sha256} verifier (w : World E) d r w' :
  reachable verifier w -> complete_step verifier d w = (r, w') -> panicked r = false ->
  match r with
  | Ok OutcomeNoOp => absorbed (state w) d /\ w' = w
  | Ok o => transition (state w) d (step (state w')) /\ saved w' = Some (state w') /\
      pending_retry (state w') = is_retry o
  | Err _ => (step (state w') = step (state w) \/ transition (state w) d (step (state w'))) /\ saved w' = saved w
  end /\
  pos (step (state w)) <= pos (step (state w')) /\
  (was_selected_operator (state w) = true -> pos (step (state w')) <= pos (step (state w)) + 1).
Proof.
  intros Hw Hr Hp. destruct (reachable_ok verifier w Hw) as [[Hok _] _].
  pose proof (complete_step_run verifier d w Hok) as Hc. rewrite Hr in Hc.
  destruct r as [[| |reason]|[causes|msg]]; cbn in Hc; [| | | |done].
  - destruct Hc as (n & Ht & <- & _ & Hv & Hpr & _). split; [done|]. by apply transition_forward in Ht.
  - destruct Hc as [Ha ->]. split; [done|lia].
  - destruct Hc as (n & Ht & <- & _ & Hv & Hpr & _). split; [done|]. by apply transition_forward in Ht.
  - destruct Hc as ([Hs|(n & Ht & <-)] & _ & Hv & _); [rewrite Hs; split; [by auto|lia]|].
    split; [by auto|]. by apply transition_forward in Ht.
Qed.

(** C7: Only the selected operator acts.  A flow of an operator that was not
    selected, in one run of the process, calls no contract and neither requests
    nor sets up anything at BitVMX; all it sends is the news of the registration,
    and all it writes is the completion marker. *)
Theorem only_selected_operator_acts `{FlowCodecs, !CommitteeServices E, !AdvanceFundsServices E, !BridgeNode E, Sha256} verifier (w : World E) :
  reachable verifier w -> was_selected_operator (state w) = false -> filter own (trace w) = [].
Proof. apply reachable_passive. Qed.

(** An advance makes progress.  With services that answer, a reachable flow
    handed data of a transition succeeds, possibly with a retry to schedule: no
    step fails for want of something an earlier step should have recorded. *)
Theorem take_progress `{FlowCodecs, !CommitteeServices E, !AdvanceFundsServices E, !BridgeNode E, Sha256} verifier `{!Reliable verifier}
    (w : World E) d next :
  reachable verifier w -> transition (state w) d next ->
  (forall c x, trigger_data c = trigger_data (state w) -> ancestor_pegout_id c <> Err x) ->
  exists o w', complete_step verifier d w = (Ok o, w') /\ step (state w') = next /\ saved w' = Some (state w').
Proof.
  intros Hw Ht Ha. destruct (reachable_ok verifier w Hw) as [[Hok _] _].
  destruct (handle_accepts d w next Ht) as [w1 Hh].
  pose proof (handle_run d w) as Hrun. rewrite Hh in Hrun.
  destruct Hrun as [(causes & Hr)|[(_ & Hr)|(n & c' & Hr & _ & (_ & Hd & _) & Hready)]]; [done|done|].
  injection Hr as <- ->. destruct (Hready Hok) as [_ Hn].
  assert (Hne : next <> WaitRskOperatorTakeTriggered).
  { clear -Ht. destruct Ht as [| | | | | | | | | |Hs]; try done; [by destruct (was_selected_operator _)|].
    by intros Hx; rewrite Hx in Hs. }
  destruct (take_okay_start verifier next (with_state c' w) Hn Hne) as (o & w' & Hst); [intros x; by apply Ha|].
  exists o, w'. unfold complete_step. rewrite SR_bind_run with (a := step (state w)) (s' := w) by done.
  rewrite (SR_bind_run _ _ _ _ _ Hh). split; [done|].
  pose proof (start_step_run verifier next (with_state c' w) (Hready Hok)) as Hs. rewrite Hst in Hs.
  by destruct Hs as (_ & ? & _ & ? & _).
Qed.

(** ** An advance by one operator, watched by another *)

Module Sample.

Export Flow.Sample.

#[export] Instance services : AdvanceFundsServices unit := {|
  contract_call _ e := (Ok tt, e);
  get_accept_pegin_txid _ e := (Ok [5; 5], e);
  broker_send _ e := (Ok tt, e);
  save_flow _ e := (Ok tt, e);
  signal_done _ _ e := (Ok tt, e)
|}.

#[export] Instance reliable : Reliable Dummy.
Proof. constructor; by repeat eexists. Defined.

Definition proof : BtcTxSPVProof := NativeBridge.Sample.spv.

(** The operator at address 1 runs the flow; the trigger names one. *)
Definition trigger (operator : Address) : OperatorTakeTriggerData :=
  mkTriggerData [1] [2] 77 5 5 None [3] operator [4].
Definition registered : AdvanceFundsRegistered := mkAdvanceFundsRegistered [0] 5 [6] [2] [4].

Definition inputs : list StepData :=
  [DataOperatorTakeTriggered; DataCommInfo (mkCommsAddress _ "10.0.0.1:80" "comm");
   DataOperatorTakeTransactionInfo [7]; DataSetupCompleted;
   DataAdvanceFundsSPV (mkFundsAdvanceSPV [6] [0] 5 [2] proof); DataAdvanceFundsConfirmed registered;
   DataReimbursementKickoffSPV proof; DataReimbursementKickoffConfirmed; DataOperatorTakeSPV proof].
Definition watched : list StepData :=
  [DataOperatorTakeTriggered; DataAdvanceFundsConfirmed registered; DataOperatorTakeSPV proof].

Definition run (operator : Address) (l : list StepData) : World unit :=
  foldl (fun w d => snd (complete_step Dummy d w)) (new_flow [9] (trigger operator) 0 tt []) l.

(** No step of a run panics. *)
Definition calm (w : World unit) (l : list StepData) : bool :=
  (fix go (w : World unit) (l : list StepData) : bool :=
     match l with
     | [] => true
     | d :: l => let '(r, w') := complete_step Dummy d w in negb (panicked r) && go w' l
     end) w l.

Lemma calm_reachable w l :
  reachable Dummy w -> calm w l = true -> reachable Dummy (foldl (fun w d => snd (complete_step Dummy d w)) w l).
Proof.
  revert w. induction l as [|d l IH]; intros w Hw Hl; [done|]. cbn in Hl |- *.
  destruct (complete_step Dummy d w) as [r w'] eqn:Hr. apply andb_prop in Hl as [Hp Hl].
  apply IH; [|done]. eapply R_complete; [done|done|]. by apply negb_true_iff.
Qed.

Lemma calm_run operator l :
  calm (new_flow [9] (trigger operator) 0 tt []) l = true -> reachable Dummy (run operator l).
Proof. apply calm_reachable. constructor. Qed.

End Sample.

#[local] Existing Instances NativeBridge.Sample.crates Bitvmx.Sample.tail_hash Flow.Sample.socket_addrs
  Flow.Sample.codecs Flow.Sample.committee_services Flow.Sample.node Sample.services Sample.reliable.

Lemma take_state_well_formed_witness :
  let w := Sample.run [1] Sample.inputs in
  step (state w) = RegisterOrWaitRskOperatorTake /\ state_ok (E := unit) (state w).
Proof.
  cbn zeta. split; [vm_compute; reflexivity|].
  refine (proj1 (take_state_well_formed Dummy (Sample.run [1] Sample.inputs) _)).
  apply Sample.calm_run. vm_compute. reflexivity.
Defined.

Lemma take_follows_transitions_witness :
  let w := Sample.run [1] Sample.inputs in
  let d := DataAdvanceFundsSPV (mkFundsAdvanceSPV [6] [0] 5 [2] Sample.proof) in
  absorbed (state w) d /\ snd (complete_step Dummy d w) = w.
Proof.
  cbn zeta. set (w := Sample.run [1] Sample.inputs). set (d := DataAdvanceFundsSPV _).
  assert (Hw : reachable Dummy w) by (apply Sample.calm_run; vm_compute; reflexivity).
  assert (Hr : fst (complete_step Dummy d w) = Ok OutcomeNoOp) by (vm_compute; reflexivity).
  destruct (complete_step Dummy d w) as [r w'] eqn:Hc. cbn in Hr. subst r.
  exact (proj1 (take_follows_transitions Dummy w d _ w' Hw Hc eq_refl)).
Defined.

Lemma only_selected_operator_acts_witness :
  let w := Sample.run [8] Sample.watched in
  step (state w) = RegisterOrWaitRskOperatorTake /\ length (trace w) = 1%nat /\ filter own (trace w) = [].
Proof.
  cbn zeta. split; [vm_compute; reflexivity|]. split; [vm_compute; reflexivity|].
  apply (only_selected_operator_acts Dummy (Sample.run [8] Sample.watched)).
  - apply Sample.calm_run. vm_compute. reflexivity.
  - vm_compute. reflexivity.
Defined.

Lemma take_progress_witness :
  exists o w', complete_step Dummy (DataPegoutRegistered (mkPegoutRegistered [3] 77 5)) (Sample.run [1] Sample.inputs)
    = (Ok o, w') /\ step (state w') = Done /\ saved w' = Some (state w').
Proof.
  apply (take_progress Dummy (Sample.run [1] Sample.inputs)).
  - apply Sample.calm_run. vm_compute. reflexivity.
  - apply T_registered. vm_compute. reflexivity.
  - intros c x Hc. unfold ancestor_pegout_id. rewrite Hc.
    assert (Hn : td_request_pegout_tx_hash (trigger_data (state (Sample.run [1] Sample.inputs))) = None)
      by (vm_compute; reflexivity).
    rewrite Hn. discriminate.
Defined.
