(* ===== verification/Inputs.v ===== *)
(** * What reaches the processors of the coordinator

    The payloads of the contract events that the peg-in, peg-out and
    advance-funds flows handle (crates/coordinator/src/types.rs), the messages of
    BitVMX (crates/common/bitvmx/src/bitvmx_types.rs) and the requests of users
    and administrators.  The payloads of the committee registry are those of
    [SetupCommitteeFlow]. *)

From Stdlib Require Import Ascii.
From stdpp Require Import prelude strings.
From S2P Require Import Prelude Types Events Bitvmx NativeBridge Flow PeginFlow PegoutFlow OperatorTakeFlow.
Open Scope Z_scope.

(** ** Contract events *)

Record ReimbursementKickoffRegistered := mkKickoffRegistered { kr_pegoutId : Hash256 }.
Record AllOperatorTakeTxidsAdded := mkTakeTxidsAdded { ta_acceptPeginTxid : Hash256 }.

(** The payloads of the events of the committee registry stay parameters. *)
Class CommitteePayloads := {
  NewPendingCommittee : Type;
  NewCommittee : Type;
  AllCommunicationData : Type;
  MemberInfo : Type
}.

#[export] Instance payloads `{CommitteePayloads} : EventPayloads := {|
  PeginRequestedP := PeginFlow.PeginRequested;
  PeginAcceptedP := PeginFlow.PeginAccepted;
  PegoutRegisteredP := PegoutFlow.PegoutRegistered;
  PegoutRequestedP := PegoutFlow.PegoutRequested;
  OperatorTakeTriggeredP := OperatorTakeFlow.OperatorTakeTriggered;
  AdvanceFundsRegisteredP := OperatorTakeFlow.AdvanceFundsRegisteredEvent;
  ReimbursementKickoffRegisteredP := ReimbursementKickoffRegistered;
  AllOperatorTakeTxidsAddedP := AllOperatorTakeTxidsAdded;
  NewPendingCommitteeP := NewPendingCommittee;
  NewCommitteeP := NewCommittee;
  AllCommunicationDataReadyP := AllCommunicationData;
  MemberInfoDepositedP := MemberInfo
|}.

(** ** Messages of BitVMX *)

Inductive UnionTxType := ReimbursementKickoff | OperatorTake | OperatorWon | Challenge | RevealInput.

Section Messages.
Context `{FlowCodecs}.

Record UnionSPVNotification := mkNotification {
  un_txid : bytes;
  un_committee_id : bytes;
  un_slot_index : Z;
  un_spv_proof : option BtcTxSPVProof;
  un_tx_type : UnionTxType
}.

(** The variants in use; the last stands for the others. *)
Inductive OutgoingBitVMXApiMessages :=
| MsgTransaction (id : bytes) (tx_status : TransactionStatus)
| MsgOutputPatternTransactionFound (tx_id tag : bytes)
| MsgPeginTransactionFound (tx_id : bytes)
| MsgSetupCompleted (program_id : bytes)
| MsgTransactionInfo (program_id : bytes) (tx_name : string) (transaction : Transaction)
| MsgCommInfo (req_id : bytes) (comm_info : CommsAddress)
| MsgVariableString (program_id : bytes) (var_name data : string)
| MsgVariableOther (program_id : bytes) (var_name : string)
| MsgSPVProof (tx_id : bytes) (spv_proof : option BtcTxSPVProof)
| MsgAggregatedPubkey (req_id : bytes) (pubkey : PublicKey)
| MsgAggregatedPubkeyNotReady (req_id : bytes)
| MsgPubKey (req_id : bytes) (pubkey : PublicKey)
| MsgSignedMessage (req_id signature_r signature_s : bytes) (recovery_id : Z)
| MsgFundsSent (req_id tx_id : bytes)
| MsgFundingAddress (req_id : bytes) (address : string)
| MsgFundingBalance (req_id : bytes) (balance : Z)
| MsgWalletNotReady (req_id : bytes)
| MsgWalletError (req_id : bytes) (error : string)
| MsgPong (id : bytes)
| MsgOther.

(** [serde_json::from_str] for the variables in use *)
Class JsonCodecs := {
  parse_pegin_accepted : string -> option PeginAcceptedMessage;
  parse_pegout_accepted : string -> option PegOutAccepted;
  parse_funds_advance_spv : string -> option FundsAdvanceSPV;
  parse_union_spv_notification : string -> option UnionSPVNotification
}.

End Messages.

(** ** Requests of users *)

Inductive FlowKind := KindPegin | KindPegout | KindAdvanceFunds | KindCommitteeSetup.

#[export] Instance FlowKind_eq_dec : EqDecision FlowKind.
Proof. solve_decision. Defined.

Inductive AdminRequest := FailFlow (kind : FlowKind) (flow_id : bytes) (reason : string).

(** [Utxo] of the coordinator is its value. *)
Record ApplyToStream := mkApplyToStream {
  stream_id : Z;
  ats_role : ParticipantRole;
  funding_utxo_value : Z;
  speed_up_utxo_value : Z;
  advance_funds_value : Z
}.

Inductive UserRequests :=
| FundingInfo (id : bytes)
| ApplyToStreamRequest (input : ApplyToStream)
| Admin (r : AdminRequest).

(** ** Force flags of test environments (force_flags.rs) *)

Fixpoint map_string (f : ascii -> ascii) (s : string) : string :=
  match s with
  | EmptyString => EmptyString
  | String c s => String (f c) (map_string f s)
  end.

Definition lower_ascii (c : ascii) : ascii :=
  let n := Ascii.nat_of_ascii c in
  if ((65 <=? n) && (n <=? 90))%nat then Ascii.ascii_of_nat (n + 32) else c.

Definition to_lowercase : string -> string := map_string lower_ascii.
Definition eq_ignore_ascii_case (a b : string) : bool := bool_decide (to_lowercase a = to_lowercase b).

(** [str::trim] on ASCII white space *)
Definition is_space (c : ascii) : bool :=
  let n := Ascii.nat_of_ascii c in ((9 <=? n) && (n <=? 13) || (n =? 32))%nat.
Fixpoint trim_start (s : string) : string :=
  match s with
  | String c s' => if is_space c then trim_start s' else s
  | EmptyString => EmptyString
  end.
Fixpoint trim_end (s : string) : string :=
  match s with
  | EmptyString => EmptyString
  | String c s' =>
      match trim_end s' with
      | EmptyString => if is_space c then EmptyString else String c EmptyString
      | t => String c t
      end
  end.
Definition trim (s : string) : string := trim_end (trim_start s).

Definition is_force_flags_allowed (runtime_environment : option string) : bool :=
  match runtime_environment with
  | Some env => eq_ignore_ascii_case env "local-anvil" || eq_ignore_ascii_case env "local-rskj"
  | None => false
  end.

(** The files and the variables, read when a flag is asked for. *)
Class ForceFlags (E : Type) := {
  force_advance_file : E -> option string;
  force_advance_var : E -> option string;
  force_dispute_file : E -> bool;
  force_dispute_var : E -> option string
}.

Definition trimmed (o : option string) : option string :=
  match trim <$> o with Some "" => None | t => t end.

Definition get_force_advance_address `{ForceFlags E} (runtime_environment : option string) (e : E)
    : option string :=
  if negb (is_force_flags_allowed runtime_environment) then None else
  match trimmed (force_advance_file e) with
  | Some a => Some a
  | None => trimmed (force_advance_var e)
  end.

Definition is_force_dispute_enabled `{ForceFlags E} (runtime_environment : option string) (e : E) : bool :=
  if negb (is_force_flags_allowed runtime_environment) then false else
  force_dispute_file e ||
  match force_dispute_var e with
  | Some v => bool_decide (to_lowercase v = "true") || bool_decide (v = "1")
  | None => false
  end.
