(* ===== verification/PegoutProcessor.v ===== *)
(** * The peg-out processor (crates/coordinator/src/flows/pegout/pegout_processor.rs)

    It creates a peg-out flow for every confirmed request of a committee this node
    belongs to, routes the messages of BitVMX and the confirmed events to the
    flows, runs their signature subflows, and keeps the schedules of status
    queries, registration retries and the time-out after which an operator takes
    over.  Every handler first drops the flows that are done or failed, and saves
    the tables at its end. *)

From Stdlib Require Import Ascii.
From stdpp Require Import prelude gmap strings.
From S2P Require Import Prelude Types BlockchainTracker Schedulers Events BtcSignature Bitvmx NativeBridge.
From S2P Require Import Flow Processor Inputs PegoutFlow.
Open Scope Z_scope.

Record Config := mkConfig {
  advance_funds_timeout_secs : Z;
  required_confirmations : Z;
  btc_confirmations : Z;
  btc_status_retry_blocks : Z;
  environment : option string
}.

(** The schedules and retry tables. *)
Record Tables := mkTables {
  tx_status_scheduler : @TickScheduler bytes _ _;
  advance_funds_timeout_scheduler : @TimeBasedScheduler bytes _ _;
  flows_pending_timeout : gset bytes;
  unconfirmed_register_pegout : gmap bytes Z;
  register_pegout_retry_scheduler : @TickScheduler bytes _ _
}.

Definition new_tables : Tables := mkTables (mkTicks ∅) (mkTimes ∅) ∅ ∅ (mkTicks ∅).

Definition set_tx_status (f : TickScheduler -> TickScheduler) (t : Tables) : Tables :=
  mkTables (f (tx_status_scheduler t)) (advance_funds_timeout_scheduler t) (flows_pending_timeout t)
    (unconfirmed_register_pegout t) (register_pegout_retry_scheduler t).
Definition set_timeouts (f : TimeBasedScheduler -> TimeBasedScheduler) (t : Tables) : Tables :=
  mkTables (tx_status_scheduler t) (f (advance_funds_timeout_scheduler t)) (flows_pending_timeout t)
    (unconfirmed_register_pegout t) (register_pegout_retry_scheduler t).
Definition set_pending (f : gset bytes -> gset bytes) (t : Tables) : Tables :=
  mkTables (tx_status_scheduler t) (advance_funds_timeout_scheduler t) (f (flows_pending_timeout t))
    (unconfirmed_register_pegout t) (register_pegout_retry_scheduler t).
Definition set_unconfirmed (f : gmap bytes Z -> gmap bytes Z) (t : Tables) : Tables :=
  mkTables (tx_status_scheduler t) (advance_funds_timeout_scheduler t) (flows_pending_timeout t)
    (f (unconfirmed_register_pegout t)) (register_pegout_retry_scheduler t).
Definition set_retries (f : TickScheduler -> TickScheduler) (t : Tables) : Tables :=
  mkTables (tx_status_scheduler t) (advance_funds_timeout_scheduler t) (flows_pending_timeout t)
    (unconfirmed_register_pegout t) (f (register_pegout_retry_scheduler t)).

Section Processor.
Context `{FlowCodecs, !CommitteeServices E, !PegoutServices E, !BridgeNode E, Sha256, !SignatureContracts E,
  !ForceFlags E, CommitteePayloads, !JsonCodecs, HashOrder}.

Record PegoutProcessorState := mkProcessorState {
  st_events_confirming : gmap string (ConfirmableEventSnapshot * RskPegManagerEvents);
  st_tables : Tables;
  st_signature_flows : gmap bytes BtcSignatureSubFlowSnapshot
}.

(** The committees this node belongs to, the clock, and the store.  Loading gives what
    was saved, or fails. *)
Class PegoutProcessorServices := {
  im_member : Z -> E -> bool;
  utc_now : E -> Z;
  delete_flow : bytes -> SR E FlowError unit;
  save_processor_state : PegoutProcessorState -> SR E FlowError unit;
  load_flows : SR E FlowError unit;
  load_processor_state : SR E FlowError unit
}.

Context `{!PegoutProcessorServices} (verifier : NativeBridgeVerifier) (cfg : Config).

#[export] Instance pegout_filed : Filed State := flow_id.

Abbreviation P := (Processor State RskPegManagerEvents E Effect Tables PegoutProcessorState).

Definition complete_flow_step (k : bytes) (d : StepData) : SR P FlowError unit :=
  with_flow k (complete_step verifier d).

Definition pegout_flow_by_protocol_id (protocol_id : bytes) : SR P FlowError (option bytes) :=
  find_flow (fun s => bool_decide (bitvmx_protocol_id (ctx s) = protocol_id)).

Definition flow_by_user_take_txid (txid : bytes) : SR P FlowError (option bytes) :=
  find_flow (fun s => bool_decide (get_user_take_txid (ctx s) = Some txid)).

(** ** Errors of the gateway *)

Definition is_missing_native_bridge_confirmations (causes : list cause) : bool :=
  existsb (fun c => match c with Domain (MissingConfirmationsOnNativeBridge _) => true | _ => false end) causes.

Definition is_peg_status_completed (causes : list cause) : bool :=
  existsb (fun c => match c with Domain PegStatusAlreadyCompleted => true | _ => false end) causes.

(** ** Terminal flows *)

Definition terminal_flows : SR P FlowError (list (bytes * bytes)) :=
  p ← sget;
  mret ((fun kv => (flow_id kv.2, bitvmx_protocol_id (ctx kv.2))) <$>
        filter (fun kv => is_terminal (step kv.2) = true) (shuffle (map_to_list (flows p)))).

Definition cleanup_terminal_flow_state : SR P FlowError unit :=
  terminal ← terminal_flows;
  for_each terminal (fun '(id, protocol_id) =>
    _ ← set_signature_flows (delete protocol_id);
    set_tables (fun t =>
      set_unconfirmed (delete id) (set_pending (fun s => s ∖ {[id]})
        (set_retries (cancel id) (set_timeouts (cancel_timeout id) (set_tx_status (cancel id) t)))))).

(** Failures to delete are logged. *)
Definition cleanup_terminal_flows : SR P FlowError unit :=
  _ ← cleanup_terminal_flow_state;
  terminal ← terminal_flows;
  _ ← for_each terminal (fun '(id, _) => _ ← catch (delete_stored delete_flow id); mret tt);
  set_flows (filter (fun kv => is_terminal (step kv.2) = false)).

(** ** The store *)

Definition snapshot_processor_state (p : P) : PegoutProcessorState :=
  mkProcessorState (snapshot_confirmable_events (events_confirming (confirmer p)) (blockchain_view (confirmer p)))
    (tables p) (snapshot_signatures p).

Definition persist_processor_state : SR P FlowError unit :=
  save_tables save_processor_state snapshot_processor_state.

(** ** Creating flows *)

Definition create_flow_for_pegout_requested (event : EventWithBlock PegoutRequested) : SR P FlowError unit :=
  committee_id ← try_u128 "Failed to convert to CommitteeId" (po_committeeId (ev_inner event));
  p ← sget;
  if negb (im_member committee_id (penv p)) then mret tt else
  flow ← slift (new_flow event (utc_now (penv p)));
  existing ← pegout_flow_by_protocol_id (bitvmx_protocol_id (ctx flow));
  match existing with
  | Some _ => flow_bail "another flow already holds BitVMX protocol id; refusing to create duplicate"
  | None =>
      created ← with_new_flow flow (complete_step verifier DataPegoutRequested);
      set_flows (<[flow_id flow := created.2]>)
  end.

(** ** Confirmed events *)

Definition handle_pegout_registered (pr : EventWithBlock PegoutRegistered) : SR P FlowError unit :=
  flow ← flow_by_user_take_txid (fb_32_to_txid (pg_txid (ev_inner pr)));
  match flow with
  | Some k => complete_flow_step k (DataPegoutRegistered pr)
  | None => mret tt
  end.

Definition process_confirmed_rsk_event (event : RskPegManagerEvents) : SR P FlowError unit :=
  match event with
  | Events.PegoutRequested pr =>
      committee_id ← try_u128 "Failed to convert to CommitteeId" (po_committeeId (ev_inner pr));
      p ← sget;
      if negb (im_member committee_id (penv p)) then mret tt else
      _ ← create_flow_for_pegout_requested pr;
      cleanup_terminal_flows
  | Events.PegoutRegistered pr =>
      _ ← handle_pegout_registered pr;
      cleanup_terminal_flows
  | _ => cleanup_terminal_flows
  end.

Definition process_block_confirmations (block : RskBlockAndUncles) : SR P FlowError unit :=
  had_events ← confirm_block block process_confirmed_rsk_event;
  if (had_events : bool) then cleanup_terminal_flows else mret tt.

(** ** Signature subflows that are done *)

Definition dispatch_signed (protocol_id : bytes) : SR P FlowError unit :=
  _ ← set_signature_flows (delete protocol_id);
  flow ← pegout_flow_by_protocol_id protocol_id;
  match flow with
  | None => mret tt
  | Some k =>
      s ← lookup_flow k;
      if negb (bool_decide (step <$> s = Some StepWaitUserTakeSignaturesReady)) then mret tt else
      _ ← complete_flow_step k DataUserTakeSignaturesReady;
      set_tables (fun t => if is_scheduled_timeout k (advance_funds_timeout_scheduler t)
                           then set_timeouts (cancel_timeout k) t else t)
  end.

Definition process_unhandled_confirmed_sig_flow_events (block : RskBlockAndUncles) : SR P FlowError unit :=
  keys ← signature_keys;
  flows_to_dispatch ← delegate_blocks block keys;
  for_each flows_to_dispatch dispatch_signed.

(** ** Status of the user-take transaction *)

Definition handle_transaction_status_received (protocol_id : bytes) (tx_status : TransactionStatus)
    : SR P FlowError unit :=
  flow ← pegout_flow_by_protocol_id protocol_id;
  match flow with
  | None => mret tt
  | Some k =>
      found ← lookup_flow k;
      s ← required "flow" found;
      expected_txid ← required "Expected user take tx_id not found" (get_user_take_txid (ctx s));
      if negb (bool_decide (expected_txid = ts_tx_id tx_status))
      then flow_bail "Pegout state does not match received tx_id from tx status message" else
      if negb (bool_decide (step s = StepConfirmUserTakeTransaction))
      then flow_bail "Pegout mismatch current step" else
      if btc_confirmations cfg <=? ts_confirmations tx_status then
        _ ← complete_flow_step k (DataTransactionConfirmed tx_status);
        set_tables (fun t => if is_scheduled k (tx_status_scheduler t) then set_tx_status (cancel k) t else t)
      else set_tables (set_tx_status (schedule k (btc_status_retry_blocks cfg)))
  end.

Definition handle_transaction_status_tick : SR P FlowError unit :=
  s ← read_tables tx_status_scheduler;
  if is_empty s then mret tt else
  let '(ready, s') := tick s in
  _ ← set_tables (set_tx_status (fun _ => s'));
  for_each (shuffle ready) (fun k =>
    found ← lookup_flow k;
    match found with
    | Some s => if bool_decide (step s = StepConfirmUserTakeTransaction)
                then with_flow k request_transaction_status else mret tt
    | None => mret tt
    end).

(** ** The time-out of the signatures *)

Definition schedule_pending_timeouts (block : RskBlockAndUncles) : SR P FlowError unit :=
  pending ← read_tables flows_pending_timeout;
  let current_timestamp := timestamp (Types.block block) in
  for_each (shuffle (elements pending)) (fun id =>
    found ← lookup_flow id;
    _ ← (if bool_decide (step <$> found = Some StepWaitUserTakeSignaturesReady)
         then set_tables (set_timeouts (schedule_timeout id current_timestamp (advance_funds_timeout_secs cfg)))
         else mret tt);
    set_tables (set_pending (fun s => s ∖ {[id]}))).

Definition trigger_operator_take_for_flow (id : bytes) : SR P FlowError unit :=
  found ← lookup_flow id;
  s ← required "Flow not found for flow_id" found;
  if negb (bool_decide (step s = StepWaitUserTakeSignaturesReady)) then mret tt else
  _ ← set_signature_flows (delete (bitvmx_protocol_id (ctx s)));
  _ ← complete_flow_step id DataTriggerOperatorTakeTimeout;
  found ← lookup_flow id;
  if bool_decide (step <$> found = Some StepTriggerOperatorTake)
  then complete_flow_step id DataTriggerOperatorTakeTimeout else mret tt.

Definition handle_advance_funds_timeout_expired (block : RskBlockAndUncles) : SR P FlowError unit :=
  s ← read_tables advance_funds_timeout_scheduler;
  if is_empty_timeouts s then mret tt else
  let '(expired, s') := check_expired (timestamp (Types.block block)) s in
  _ ← set_tables (set_timeouts (fun _ => s'));
  for_each (shuffle expired) trigger_operator_take_for_flow.

(** ** Retries of the registration *)

(** [i16::saturating_add(1)] *)
Definition next_attempt (attempt : Z) : Z := Z.min (attempt + 1) (2 ^ 15 - 1).

Definition schedule_register_pegout_retry (id : bytes) (attempt : Z) : SR P FlowError unit :=
  set_tables (fun t => set_retries (schedule id (btc_status_retry_blocks cfg))
                         (set_unconfirmed (<[id := attempt]>) t)).

Definition retry_register_pegout (k : bytes) : SR P FlowError unit :=
  unconfirmed ← read_tables unconfirmed_register_pegout;
  match unconfirmed !! k with
  | None => mret tt
  | Some attempt =>
      _ ← set_tables (set_unconfirmed (delete k));
      found ← lookup_flow k;
      match found with
      | None => mret tt
      | Some s =>
          if negb (bool_decide (step s = StepRegisterPegout)) then mret tt else
          retried ← catch (complete_flow_step k DataRetryRegisterPegout);
          match retried with
          | Ok _ => mret tt
          | Err causes =>
              if is_peg_status_completed causes then mret tt else
              if negb (is_missing_native_bridge_confirmations causes) then mret tt else
              schedule_register_pegout_retry k (next_attempt attempt)
          end
      end
  end.

Definition handle_register_pegout_retry_tick : SR P FlowError unit :=
  s ← read_tables register_pegout_retry_scheduler;
  if is_empty s then mret tt else
  let '(ready, s') := tick s in
  _ ← set_tables (set_retries (fun _ => s'));
  for_each (shuffle ready) retry_register_pegout.

(** ** Inputs *)

Definition fail_flow (id : bytes) : SR P FlowError unit :=
  found ← lookup_flow id;
  _ ← match found with
      | Some _ => with_flow id (mark_failed verifier)
      | None => mret tt
      end;
  cleanup_terminal_flows.

Definition process_user_request (req : UserRequests) : SR P FlowError unit :=
  _ ← cleanup_terminal_flows;
  _ ← match req with
      | Admin (FailFlow kind id _) => if bool_decide (kind = KindPegout) then fail_flow id else mret tt
      | _ => mret tt
      end;
  persist_processor_state.

Definition build_log_id (s : State) : string :=
  uuid_to_string (flow_id s) +:+ " (" +:+ hash_to_string (pegout_requested_tx_hash (ctx s)) +:+ ")".

(** [FORCE_ADVANCE] names this operator. *)
Definition skip_signatures : SR P FlowError bool :=
  p ← sget;
  mret match get_force_advance_address (environment cfg) (penv p) with
       | Some force_addr =>
           bool_decide (to_lowercase (hash_to_string my_address) = to_lowercase (trim force_addr))
       | None => false
       end.

Definition handle_pegout_accepted (protocol_id : bytes) (data : string) : SR P FlowError unit :=
  flow ← pegout_flow_by_protocol_id protocol_id;
  k ← required "Flow not found for protocol_id" flow;
  found ← lookup_flow k;
  s ← required "flow" found;
  input ← required "json" (parse_pegout_accepted data);
  if negb (bool_decide (step s = StepPrepareUserTakeSetup)) then flow_bail "Mismatch current step" else
  let register_input := mkSignatureData (po_signature_txid (pegout_requested (ctx s)))
                          (poa_user_take_nonce input) (poa_user_take_signature input) in
  _ ← complete_flow_step k (DataPegoutAccepted input);
  skip ← skip_signatures;
  _ ← (if (skip : bool) then mret tt
       else start_signature protocol_id (build_log_id s) (required_confirmations cfg)
              (Some (ParentPegout (uuid_to_string k))) register_input);
  set_tables (set_pending (fun pending => pending ∪ {[k]})).

(** The proof of the user-take transaction; [true] when the handler is to return
    without saving the tables. *)
Definition handle_spv_proof (tx_id : bytes) (spv_proof : option BtcTxSPVProof) : SR P FlowError bool :=
  proof ← required "Received SPVProof event without proof" spv_proof;
  flow ← flow_by_user_take_txid tx_id;
  match flow with
  | None => mret true
  | Some k =>
      found ← lookup_flow k;
      s ← required "Flow not found for flow_id" found;
      if negb (bool_decide (step s = StepRequestUserTakeSpvProof)) then flow_bail "Mismatch current step" else
      completed ← catch (complete_flow_step k (DataSpvProof proof));
      match completed with
      | Ok _ => mret false
      | Err causes =>
          if is_missing_native_bridge_confirmations causes then
            unconfirmed ← read_tables unconfirmed_register_pegout;
            _ ← schedule_register_pegout_retry k (next_attempt (default 0 (unconfirmed !! k)));
            mret false
          else if is_peg_status_completed causes then mret true
          else sfail (Chain causes)
      end
  end.

Definition process_new_bitvmx_event (event : OutgoingBitVMXApiMessages) : SR P FlowError unit :=
  _ ← cleanup_terminal_flows;
  return_early ←
    match event with
    | MsgCommInfo _ comm_info =>
        p ← sget;
        _ ← for_each (shuffle (map_to_list (flows p))).*1 (fun k =>
              found ← lookup_flow k;
              if bool_decide (step <$> found = Some StepGetCommInfoAuthoritativeCheckpoint)
              then complete_flow_step k (DataCommInfo comm_info) else mret tt);
        mret false
    | MsgVariableString protocol_id name data =>
        _ ← (if bool_decide (name = "pegout_accepted") then handle_pegout_accepted protocol_id data else mret tt);
        mret false
    | MsgSPVProof tx_id spv_proof => handle_spv_proof tx_id spv_proof
    | MsgTransaction id tx_status => _ ← handle_transaction_status_received id tx_status; mret false
    | _ => mret false
    end;
  if (return_early : bool) then mret tt else persist_processor_state.

(** The events that need confirmations, with their identifiers. *)
Definition managed_event (event : RskPegManagerEvents) : option (string * bool * BlockNumber) :=
  match event with
  | Events.PegoutRequested e =>
      Some ("pegout-requested-" +:+ hash_to_string (ev_tx_hash e), ev_removed e, ev_block_number e)
  | Events.PegoutRegistered e =>
      Some ("pegout-registered-" +:+ hash_to_string (ev_tx_hash e), ev_removed e, ev_block_number e)
  | _ => None
  end.

Definition process_new_rsk_event (event : RskPegManagerEvents) : SR P FlowError unit :=
  _ ← cleanup_terminal_flows;
  match event with
  | AllNoncesReady _ | AllSignaturesReady _ =>
      _ ← delegate_signature_event event; persist_processor_state
  | _ =>
      if required_confirmations cfg =? 0 then
        _ ← process_confirmed_rsk_event event; persist_processor_state
      else
        match managed_event event with
        | None => mret tt
        | Some (id, is_removal, block_num) =>
            _ ← (if (is_removal : bool) then _ ← on_confirmer (stop_confirming_event id); mret tt
                 else on_confirmer (confirm_event "Starting confirming" id (required_confirmations cfg) block_num event));
            persist_processor_state
        end
  end.

Definition process_new_block (block : RskBlockAndUncles) : SR P FlowError unit :=
  _ ← cleanup_terminal_flows;
  _ ← schedule_pending_timeouts block;
  _ ← handle_advance_funds_timeout_expired block;
  _ ← process_unhandled_confirmed_sig_flow_events block;
  _ ← handle_transaction_status_tick;
  _ ← handle_register_pegout_retry_tick;
  _ ← process_block_confirmations block;
  persist_processor_state.

(** ** Starting *)

(** A processor over what the store holds. *)
Definition new_processor (disk : gmap bytes State) (saved : option PegoutProcessorState) (e : E) : P :=
  mkProcessor ∅ ∅ new_confirmer new_tables disk saved e [] [].

Definition apply_processor_state (st : PegoutProcessorState) : SR P FlowError unit :=
  match restore_confirmable_events (st_events_confirming st) with
  | (Err f, _) => sfail (from_failure f)
  | (Ok events, t) =>
      _ ← smodify (set_confirmer (mkConfirmer events t));
      _ ← set_tables (fun _ => st_tables st);
      match restore_signatures (map_to_list (st_signature_flows st)) (required_confirmations cfg) with
      | Err f => sfail (from_failure f)
      | Ok l => set_signature_flows (fun _ => list_to_map l)
      end
  end.

Definition reconstruct_flow (k : bytes) : SR P FlowError unit :=
  found ← lookup_flow k;
  s ← required "flow" found;
  _ ← match step s with
      | StepWaitUserTakeSignaturesReady =>
          set_tables (fun t => if is_scheduled_timeout k (advance_funds_timeout_scheduler t) then t
                               else set_pending (fun pending => pending ∪ {[k]}) t)
      | StepConfirmUserTakeTransaction =>
          set_tables (fun t => if is_scheduled k (tx_status_scheduler t) then t
                               else set_tx_status (schedule k (btc_status_retry_blocks cfg)) t)
      | StepRegisterPegout =>
          _ ← set_tables (set_unconfirmed (partial_alter (fun o => Some (default 0 o)) k));
          set_tables (fun t => if is_scheduled k (register_pegout_retry_scheduler t) then t
                               else set_retries (schedule k (btc_status_retry_blocks cfg)) t)
      | _ => mret tt
      end;
  with_flow k redrive_pending_bitvmx_request.

Definition reconstruct_runtime_state_from_flows : SR P FlowError unit :=
  p ← sget;
  for_each (shuffle (map_to_list (flows p))).*1 reconstruct_flow.

(** [restored.into_values().map(|flow| (flow.flow_id(), flow)).collect()], then
    [restore_processor_state] *)
Definition restore_or_new : SR P FlowError unit :=
  _ ← on_services id load_flows;
  p ← sget;
  _ ← set_flows (fun _ => list_to_map ((fun s => (flow_id s, s)) <$> (shuffle (map_to_list (disk p))).*2));
  _ ← on_services id load_processor_state;
  _ ← match disk_tables p with
      | Some st => apply_processor_state st
      | None => mret tt
      end;
  reconstruct_runtime_state_from_flows.

Definition shutdown : SR P FlowError unit :=
  _ ← set_flows (fun _ => ∅);
  _ ← set_signature_flows (fun _ => ∅);
  _ ← on_confirmer clear_confirmer;
  set_tables (fun _ => new_tables).

(** The flows in progress, with what is shown of them. *)
Definition active_flows (p : P) : list (bytes * Steps * option Z) :=
  (fun kv => (flow_id kv.2, step kv.2, created_at kv.2)) <$>
  filter (fun kv => is_terminal (step kv.2) = false) (shuffle (map_to_list (flows p))).

(** ** Inputs, one at a time *)

Inductive Input :=
| InBlock (block : RskBlockAndUncles)
| InRskEvent (event : RskPegManagerEvents)
| InBitvmxEvent (event : OutgoingBitVMXApiMessages)
| InUserRequest (req : UserRequests)
| InShutdown.

Definition process (i : Input) : SR P FlowError unit :=
  match i with
  | InBlock block => process_new_block block
  | InRskEvent event => process_new_rsk_event event
  | InBitvmxEvent event => process_new_bitvmx_event event
  | InUserRequest req => process_user_request req
  | InShutdown => shutdown
  end.

End Processor.

(** ** The flows of a processor *)

Section FlowOps.
Context `{FlowCodecs, !CommitteeServices E, !PegoutServices E, !BridgeNode E, Sha256} (verifier : NativeBridgeVerifier).
Abbreviation W := (Flow.World State E Effect).

(** A flow keeps its identity, in memory and in the store. *)
Definition stays (b : bool) (w w' : W) : Prop :=
  flow_id (state w') = flow_id (state w) /\
  bitvmx_protocol_id (ctx (state w')) = bitvmx_protocol_id (ctx (state w)) /\
  (saved w' = saved w \/ exists s, saved w' = Some s /\ flow_id s = flow_id (state w)).

#[export] Instance stays_composes : Composes stays.
Proof.
  split; [unfold stays; auto|]. intros b w1 w2 w3 (Hi & Hp & Hs) (Hi' & Hp' & Hs'). split_and!; [congruence..|].
  destruct Hs' as [->|(s & -> & Hs')]; [done|]. right. exists s. split; congruence.
Qed.

Lemma stays_keeps {A} (m : SR W FlowError A) : keeps m -> every stays m.
Proof. intros Hm w. destruct (Hm w) as [Hs Hv]. unfold stays. rewrite Hs, Hv. auto. Qed.
Lemma stays_set_ctx f : (forall c, bitvmx_protocol_id (f c) = bitvmx_protocol_id c) -> every stays (set_ctx (E := E) f).
Proof. intros Hf w. unfold stays. cbn. auto. Qed.
Lemma stays_set_step s : every stays (set_step (E := E) s).
Proof. intros w. unfold stays. cbn. auto. Qed.
Lemma stays_persist : every stays (persist_state (E := E)).
Proof.
  intros w. unfold persist_state, persist_with, on_env, mbind, SR_bind. cbn.
  destruct (save_flow (state w) (env w)) as [[]]; unfold stays; cbn; eauto 10.
Qed.
Hint Resolve stays_set_step stays_persist : every.
Hint Extern 1 (every _ (set_ctx _)) => apply stays_set_ctx; reflexivity : every.
Hint Extern 4 (every stays _) => apply stays_keeps; solve [keep] : every.

Lemma stays_process_step_data s d : every stays (process_step_data (E := E) s d).
Proof.
  destruct s, d; cbn [process_step_data allows_fast_forward_to_pegout_registered];
    unfold confirm_user_take_transaction, complete_with_confirmed_pegout_registration; prove_every.
Qed.
Hint Resolve stays_process_step_data : every.

Lemma stays_communicate : every stays (communicate_pegout_requested_to_bitvmx (E := E)).
Proof. unfold communicate_pegout_requested_to_bitvmx, send_pegout_requested_to_bitvmx. prove_every. Qed.
Hint Resolve stays_communicate : every.

Lemma stays_entry_action complete s : (forall d, every stays (complete d)) -> every stays (entry_action verifier complete s).
Proof.
  intros Hc. destruct (decide (s = StepPrepareUserTakeSetup)) as [->|]; [prove_every|].
  destruct (decide (s = StepDispatchUserTakeTransactionAllConvergeCheckpoint)) as [->|];
    [cbn [entry_action]; prove_every|]. apply stays_keeps, pegout_keeps_entry_action; done.
Qed.
Hint Resolve stays_entry_action : every.

Lemma stays_start_step_with complete next :
  (forall d, every stays (complete d)) -> every stays (start_step_with verifier complete next).
Proof. intros Hc. unfold start_step_with. prove_every. Qed.
Hint Resolve stays_start_step_with : every.

Lemma stays_start_step_upto depth next : every stays (start_step_upto verifier depth next).
Proof.
  revert next. induction depth as [|depth IH]; intros next; cbn [start_step_upto]; apply stays_start_step_with; intros d;
    unfold complete_step_with; prove_every.
Qed.
Hint Resolve stays_start_step_upto : every.

(** What a processor does with a flow. *)
Record flow_op {A} (m : SR W FlowError A) : Prop := {
  op_stays : every stays m;
  op_ok w : flow_ok (state w) (saved w) -> flow_ok (state (snd (m w))) (saved (snd (m w)))
}.

Lemma flow_op_complete d : flow_op (complete_step verifier d).
Proof.
  split; [unfold complete_step, complete_step_with, start_step; prove_every|].
  intros w. apply pegout_complete_step_flow_ok.
Qed.
Lemma flow_op_failed : flow_op (mark_failed verifier).
Proof.
  split; [unfold mark_failed, start_step; prove_every|]. intros w Hw.
  pose proof (pegout_mark_failed_run verifier w Hw) as Hr. destruct (mark_failed verifier w) as [[]]; apply Hr.
Qed.
Lemma flow_op_keeps {A} (m : SR W FlowError A) : keeps m -> flow_op m.
Proof. intros Hm. split; [by apply stays_keeps|]. intros w. by destruct (Hm w) as [-> ->]. Qed.

Lemma flow_op_behaves {A} (m : SR W FlowError A) : flow_op m -> well_behaved state_ok m.
Proof.
  intros [Hstay Hok] w Hw Hv. specialize (Hstay w). destruct (Hok w (conj Hw Hv)) as [Hw' Hv'].
  destruct Hstay as (Hid & _ & Hs). split; [done|]. destruct Hs as [->|(s & Hs & Hk)]; [by left|right].
  exists s. split_and!; [done|by apply Hv'|done].
Qed.

End FlowOps.

(** ** Relations that every handler respects

    A relation between the processor before and after that the operations on
    flows and store respect is respected by the handlers.  Only creating flows,
    handling a registration and confirming events are left to each relation. *)

Section Handled.
Context `{FlowCodecs, !CommitteeServices E, !PegoutServices E, !BridgeNode E, Sha256, !SignatureContracts E,
  !ForceFlags E, CommitteePayloads, !JsonCodecs, HashOrder, !PegoutProcessorServices (E := E)}
  (verifier : NativeBridgeVerifier) (cfg : Config).
Abbreviation P := (Processor State RskPegManagerEvents E Effect Tables PegoutProcessorState).

Class Handled (R : bool -> P -> P -> Prop) := {
  #[global] handled_frames :: Frames R;
  handled_complete k d : (forall e, d <> DataPegoutRegistered e) -> every R (complete_flow_step verifier k d);
  handled_failed k : every R (with_flow k (mark_failed verifier));
  handled_status k : every R (with_flow k request_transaction_status);
  handled_redrive k : every R (with_flow k redrive_pending_bitvmx_request);
  handled_retain : every R (set_flows (filter (fun kv => is_terminal (step kv.2) = false)));
  handled_delete k : every R (delete_stored delete_flow k);
  handled_persist : every R persist_processor_state
}.

Context (R : bool -> P -> P -> Prop) `{!Handled R}.
Hint Extern 0 (Handled _) => assumption : every.
Hint Extern 1 (forall e, _ <> DataPegoutRegistered e) => discriminate : every.
Hint Resolve handled_complete handled_failed handled_status handled_redrive handled_retain handled_delete
  handled_persist : every.

Lemma every_try_u128 msg z : every R (try_u128 msg z).
Proof. unfold try_u128. prove_every. Qed.
Lemma every_terminal_flows : every R terminal_flows.
Proof. unfold terminal_flows. prove_every. Qed.
Hint Resolve every_try_u128 every_terminal_flows : every.

Lemma every_cleanup : every R cleanup_terminal_flows.
Proof. unfold cleanup_terminal_flows, cleanup_terminal_flow_state. prove_every. Qed.
Hint Resolve every_cleanup : every.

Lemma every_spv tx_id proof : every R (handle_spv_proof verifier cfg tx_id proof).
Proof. unfold handle_spv_proof, flow_by_user_take_txid, schedule_register_pegout_retry. prove_every. Qed.
Lemma every_accepted protocol_id data : every R (handle_pegout_accepted verifier cfg protocol_id data).
Proof. unfold handle_pegout_accepted, pegout_flow_by_protocol_id, skip_signatures. prove_every. Qed.
Lemma every_tx_status protocol_id st : every R (handle_transaction_status_received verifier cfg protocol_id st).
Proof. unfold handle_transaction_status_received, pegout_flow_by_protocol_id. prove_every. Qed.
Hint Resolve every_spv every_accepted every_tx_status : every.

Lemma every_bitvmx event : every R (process_new_bitvmx_event verifier cfg event).
Proof. unfold process_new_bitvmx_event. prove_every. Qed.
Lemma every_user req : every R (process_user_request verifier req).
Proof. unfold process_user_request, fail_flow. prove_every. Qed.

Lemma every_schedule_pending block : every R (schedule_pending_timeouts cfg block).
Proof. unfold schedule_pending_timeouts. prove_every. Qed.
Lemma every_timeouts block : every R (handle_advance_funds_timeout_expired verifier block).
Proof. unfold handle_advance_funds_timeout_expired, trigger_operator_take_for_flow. prove_every. Qed.
Lemma every_signed block : every R (process_unhandled_confirmed_sig_flow_events verifier block).
Proof. unfold process_unhandled_confirmed_sig_flow_events, dispatch_signed, pegout_flow_by_protocol_id. prove_every. Qed.
Lemma every_status_tick : every R handle_transaction_status_tick.
Proof. unfold handle_transaction_status_tick. prove_every. Qed.
Lemma every_retries : every R (handle_register_pegout_retry_tick verifier cfg).
Proof. unfold handle_register_pegout_retry_tick, retry_register_pegout, schedule_register_pegout_retry. prove_every. Qed.
Lemma every_reconstruct : every R (reconstruct_runtime_state_from_flows cfg).
Proof. unfold reconstruct_runtime_state_from_flows, reconstruct_flow. prove_every. Qed.

(** What [process_new_block] does before it confirms events. *)
Definition before_confirmations (block : RskBlockAndUncles) : SR P FlowError unit :=
  _ ← cleanup_terminal_flows;
  _ ← schedule_pending_timeouts cfg block;
  _ ← handle_advance_funds_timeout_expired verifier block;
  _ ← process_unhandled_confirmed_sig_flow_events verifier block;
  _ ← handle_transaction_status_tick;
  handle_register_pegout_retry_tick verifier cfg.

Lemma every_before block : every R (before_confirmations block).
Proof.
  pose proof every_schedule_pending. pose proof every_timeouts. pose proof every_signed.
  pose proof every_status_tick. pose proof every_retries. unfold before_confirmations. prove_every.
Qed.

(** The flow that [create_flow_for_pegout_requested] files, for a member. *)
Definition file_flow (s : State) : SR P FlowError unit :=
  existing ← pegout_flow_by_protocol_id (bitvmx_protocol_id (ctx s));
  match existing with
  | Some _ => flow_bail "another flow already holds BitVMX protocol id; refusing to create duplicate"
  | None => created ← with_new_flow s (complete_step verifier DataPegoutRequested);
            set_flows (<[flow_id s := created.2]>)
  end.

Lemma create_rule e :
  (forall env now s, im_member (po_committeeId (ev_inner e)) env = true -> new_flow e now = Ok s ->
     every R (file_flow s)) ->
  every R (create_flow_for_pegout_requested verifier e).
Proof.
  intros Hf. unfold create_flow_for_pegout_requested, try_u128. destruct (_ && _)%bool; [|prove_every]. intros p.
  rewrite SR_bind_run with (a := po_committeeId (ev_inner e)) (s' := p) by done.
  rewrite SR_bind_run with (a := p) (s' := p) by done.
  destruct (im_member _ (penv p)) eqn:Hmem; cbn [negb]; [|apply composes_refl].
  destruct (new_flow e (utc_now (penv p))) as [s|x] eqn:Hn; [|apply composes_refl].
  rewrite SR_bind_run with (a := s) (s' := p) by done. by eapply Hf.
Qed.

Lemma every_confirmed event :
  (forall e, event = Events.PegoutRequested e -> every R (create_flow_for_pegout_requested verifier e)) ->
  (forall e, event = Events.PegoutRegistered e -> every R (handle_pegout_registered verifier e)) ->
  every R (process_confirmed_rsk_event verifier event).
Proof. intros Hreq Hreg. destruct event; unfold process_confirmed_rsk_event; prove_every. Qed.

Lemma every_rsk event :
  (required_confirmations cfg = 0 -> every R (process_confirmed_rsk_event verifier event)) ->
  (forall id, every R (on_confirmer (stop_confirming_event id))) ->
  (forall id removed n, managed_event event = Some (id, removed, n) ->
     every R (on_confirmer (confirm_event "Starting confirming" id (required_confirmations cfg) n event))) ->
  every R (process_new_rsk_event verifier cfg event).
Proof.
  intros Hnow Hstop Hconfirm. unfold process_new_rsk_event. apply every_bind; [apply _|prove_every|intros []].
  assert (Hrest : every R
    (if required_confirmations cfg =? 0 then
       _ ← process_confirmed_rsk_event verifier event; persist_processor_state
     else
       match managed_event event with
       | None => mret tt
       | Some (id, is_removal, block_num) =>
           _ ← (if (is_removal : bool) then _ ← on_confirmer (stop_confirming_event id); mret tt
                else on_confirmer (confirm_event "Starting confirming" id (required_confirmations cfg) block_num event));
           persist_processor_state
       end)); [|destruct event; prove_every].
  destruct (Z.eqb_spec (required_confirmations cfg) 0) as [Hz|_]; [specialize (Hnow Hz); prove_every|].
  destruct (managed_event event) as [[[id removed] n]|] eqn:Hi; [|prove_every].
  specialize (Hconfirm id removed n eq_refl). prove_every.
Qed.

End Handled.

(** *** The events that are confirmed with a block *)

Section NewBlock.
Context `{FlowCodecs, !CommitteeServices E, !PegoutServices E, !BridgeNode E, Sha256, !SignatureContracts E,
  !ForceFlags E, CommitteePayloads, !JsonCodecs, HashOrder, !PegoutProcessorServices (E := E)}
  (verifier : NativeBridgeVerifier) (cfg : Config).
Abbreviation P := (Processor State RskPegManagerEvents E Effect Tables PegoutProcessorState).

#[export] Instance same_confirmer_handled : Handled verifier (same_confirmer (X := Effect) (E := E)).
Proof. split; intros; unfold complete_flow_step, persist_processor_state; try apply _; auto with every. Qed.

Lemma same_confirmer_registered e : every same_confirmer (handle_pegout_registered (E := E) verifier e).
Proof. unfold handle_pegout_registered, flow_by_user_take_txid, complete_flow_step. prove_every. Qed.
Lemma same_confirmer_create e : every same_confirmer (create_flow_for_pegout_requested (E := E) verifier e).
Proof.
  pose proof (every_try_u128 (E := E) verifier same_confirmer).
  unfold create_flow_for_pegout_requested, pegout_flow_by_protocol_id. prove_every.
Qed.

(** A relation holds from the state before the block to the state after it if the
    events confirmed with this block respect it. *)
Lemma new_block_rule (R : bool -> P -> P -> Prop) `{!Handled verifier R} block p :
  every R (on_confirmer (on_tracker (update block))) ->
  (forall id, every R (on_confirmer (stop_confirming_event id))) ->
  (forall c1 key e, on_tracker (update block) (confirmer p) = (Ok tt, c1) ->
     events_confirming c1 !! key = Some e -> is_confirmed (confirmation e) (blockchain_view c1) = true ->
     every R (process_confirmed_rsk_event verifier (event_data e))) ->
  let m := process_new_block verifier cfg block in R (panicked (fst (m p))) p (snd (m p)).
Proof.
  intros Hupd Hstop Hev m.
  assert (Hm : m p = (_ ← before_confirmations verifier cfg block;
    _ ← process_block_confirmations verifier block; persist_processor_state) p).
  { unfold m, process_new_block, before_confirmations, mbind, SR_bind.
    repeat match goal with
    | |- match ?x with pair _ _ => _ end = _ => destruct x as [[[]|]]; [|reflexivity]
    end. reflexivity. }
  rewrite Hm. clear m Hm.
  pose proof (every_before verifier cfg R block p) as HR.
  pose proof (every_before verifier cfg same_confirmer block p) as Hc. unfold same_confirmer in Hc.
  destruct (before_confirmations verifier cfg block p) as [[[]|x] p1] eqn:Hb; cbn in HR, Hc.
  2: { by rewrite (SR_bind_err _ _ _ _ _ Hb). }
  rewrite (SR_bind_run _ _ _ _ _ Hb). eapply composes_trans; [exact HR|].
  assert (Hconf : R (panicked (fst (confirm_block block (process_confirmed_rsk_event verifier) p1))) p1
    (snd (confirm_block block (process_confirmed_rsk_event verifier) p1))).
  { apply (confirm_block_rule R); [done| |done|by rewrite Hc].
    intros d. apply every_confirmed; [apply _|..]; intros; [apply same_confirmer_create|apply same_confirmer_registered]. }
  assert (Hrest : forall had : bool, every R (_ ← (if had then cleanup_terminal_flows else mret tt); persist_processor_state)).
  { intros had. pose proof (every_cleanup verifier R). pose proof handled_persist. prove_every. }
  unfold process_block_confirmations. rewrite SR_bind_assoc.
  destruct (confirm_block _ _ p1) as [[had|x] p2] eqn:Hcb; cbn in Hconf.
  - rewrite (SR_bind_run _ _ _ _ _ Hcb). eapply composes_trans; [exact Hconf|apply Hrest].
  - by rewrite (SR_bind_err _ _ _ _ _ Hcb).
Qed.

End NewBlock.

(** ** The invariant of the processor *)

Section Invariant.
Context `{FlowCodecs, !CommitteeServices E, !PegoutServices E, !BridgeNode E, Sha256, !SignatureContracts E,
  !ForceFlags E, CommitteePayloads, !JsonCodecs, HashOrder, !PegoutProcessorServices (E := E)}
  (verifier : NativeBridgeVerifier) (cfg : Config).
Abbreviation P := (Processor State RskPegManagerEvents E Effect Tables PegoutProcessorState).
Abbreviation pegout_memory_ok :=
  (memory_ok (N := PegoutProcessorState) state_ok managed_event (required_confirmations cfg)).
Abbreviation pegout_store_ok := (store_ok state_ok managed_event (required_confirmations cfg) st_events_confirming).
Abbreviation inv := (inv state_ok managed_event (required_confirmations cfg) st_events_confirming
  (S := State) (E := E) (X := Effect) (Q := Tables)).

Lemma inv_flow_op {A} k (m : SR (Flow.World State E Effect) FlowError A) : flow_op m -> every inv (with_flow k m).
Proof. intros Hm. by apply inv_with_flow, flow_op_behaves. Qed.

#[export] Instance inv_handled : Handled verifier inv.
Proof.
  split; intros; [apply _|apply inv_flow_op..|apply inv_retain|apply inv_delete_stored|by apply inv_save_tables];
    auto using flow_op_complete, flow_op_failed, flow_op_keeps, keeps_request_status, keeps_redrive.
Qed.

Lemma inv_create event : every inv (create_flow_for_pegout_requested verifier event).
Proof.
  apply (create_rule verifier inv). intros env now s _ Hn. unfold file_flow.
  apply every_bind; [apply _|unfold pegout_flow_by_protocol_id; prove_every|]. intros [|]; [prove_every|].
  exact (inv_with_new_flow state_ok managed_event (required_confirmations cfg) st_events_confirming s _
    (flow_op_behaves _ (flow_op_complete verifier DataPegoutRequested)) (new_flow_ok _ _ _ Hn)).
Qed.

Lemma inv_registered e : every inv (handle_pegout_registered verifier e).
Proof.
  unfold handle_pegout_registered, flow_by_user_take_txid, complete_flow_step.
  pose proof (fun k => inv_flow_op k _ (flow_op_complete verifier (DataPegoutRegistered e))). prove_every.
Qed.
Lemma inv_confirmed event : every inv (process_confirmed_rsk_event verifier event).
Proof. apply every_confirmed; [apply _|auto using inv_create, inv_registered..]. Qed.

Lemma inv_shutdown : every inv shutdown.
Proof.
  pose proof (inv_clear state_ok managed_event (required_confirmations cfg) st_events_confirming
    (S := State) (E := E) (X := Effect) (Q := Tables)).
  unfold shutdown. apply every_bind; [apply _|intros p; apply inv_set_flows; intros _; apply filed_empty|intros []].
  prove_every.
Qed.

(** Blocks have numbers below the last one of 64 bits. *)
Definition input_ok (i : Input) : Prop :=
  match i with InBlock block => 0 <= bu_number block < 2 ^ 64 - 1 | _ => True end.

Lemma inv_process i p : input_ok i -> let m := process verifier cfg i in inv (panicked (fst (m p))) p (snd (m p)).
Proof.
  intros Hi. destruct i as [block|event|event|req|]; cbn [process].
  - apply (new_block_rule verifier cfg inv); [by apply inv_update|apply inv_stop|]. intros. apply inv_confirmed.
  - apply (every_rsk verifier cfg inv); [intros; apply inv_confirmed|apply inv_stop|]. intros id rm n. apply inv_confirm.
  - apply (every_bitvmx verifier cfg inv).
  - apply (every_user verifier inv).
  - apply inv_shutdown.
Qed.

(** *** Starting from the store *)

Lemma inv_apply st p :
  disk_tables p = Some st ->
  let m := apply_processor_state cfg st in inv (panicked (fst (m p))) p (snd (m p)).
Proof.
  intros Hst m [Hfl Hev] [Hd Ht]. destruct (restore_confirmer _ _ _ (Ht _ Hst)) as (es & t & Hr & Hok).
  unfold m, apply_processor_state. rewrite Hr.
  set (p1 := set_confirmer (mkConfirmer es t) p). rewrite SR_bind_run with (a := tt) (s' := p1) by done.
  assert (Hrest : every inv (_ ← set_tables (fun _ => st_tables st);
    match restore_signatures (map_to_list (st_signature_flows st)) (required_confirmations cfg) with
    | Err f => sfail (from_failure f)
    | Ok l => set_signature_flows (fun _ => list_to_map l)
    end)) by prove_every.
  apply (Hrest p1); by split.
Qed.

Lemma inv_restore : every inv (restore_or_new cfg).
Proof.
  unfold restore_or_new. apply every_bind; [apply _|apply (every_on_services inv)|intros _].
  intros p. apply (leads_bind inv); [apply (every_sget inv)|]. intros p' p'' [= <- <-].
  apply (leads_bind inv); [intros Hm Hs; apply inv_set_flows; [intros _; apply (filed_restored state_ok), Hs|done..]|].
  intros _ p1 [= <-]. apply (leads_bind inv); [apply (every_on_services inv)|]. intros u p2 Hl.
  assert (Hd : disk_tables p2 = disk_tables p) by (unfold on_services in Hl; by destruct (load_processor_state _) as [[] ?]; simplify_eq).
  apply (leads_bind inv); [|intros; apply (every_reconstruct verifier cfg inv)].
  destruct (disk_tables p) as [st|]; [by apply inv_apply|apply (every_ret inv)].
Qed.

(** *** Runs of the process

    The process starts with an empty store, handles inputs with any outcome
    while its services change, may stop between them or die in one that panics,
    and starts again from what the store holds.  The flag tells that it is not running;
    the list is its past. *)
Inductive reachable : bool -> list (Past P Input) -> P -> Prop :=
| R_empty e : reachable true [] (new_processor ∅ None e)
| R_start b past p e :
    reachable b past p ->
    let r := restore_or_new cfg (new_processor (disk p) (disk_tables p) e) in
    reachable (negb (is_ok (fst r))) (past ++ [Started]) (snd r)
| R_env past p e : reachable false past p -> reachable false past (set_env e p)
| R_input past p i :
    reachable false past p -> input_ok i ->
    let r := process verifier cfg i p in reachable (panicked (fst r)) (past ++ [Took p i]) (snd r).

Lemma pegout_reachable_ok b past p : reachable b past p -> (b = false -> pegout_memory_ok p) /\ pegout_store_ok p.
Proof.
  induction 1 as [e|b past p e Hp [_ [Hd Ht]]|past p e Hp [Hm Hs]|past p i Hp [Hm Hs] Hi].
  - split; [done|]. split; [apply filed_empty|done].
  - assert (Hnew : pegout_memory_ok (new_processor (disk p) (disk_tables p) e))
      by (split; [apply filed_empty|apply confirmer_ok_new]).
    destruct (inv_restore (new_processor (disk p) (disk_tables p) e)) as [Hm Hs]; [done|by split|].
    split; [|done]. intros Hb. apply Hm. unfold r in *. by destruct (fst _).
  - split; [intros _; destruct (Hm eq_refl); by split|destruct Hs; by split].
  - destruct (inv_process i p Hi) as [Hm' Hs']; auto.
Qed.

End Invariant.

(** ** What the processor does on its own account *)

Section Actions.
Context `{FlowCodecs, !CommitteeServices E, !PegoutServices E, !BridgeNode E, Sha256, !SignatureContracts E,
  !ForceFlags E, CommitteePayloads, !JsonCodecs, HashOrder, !PegoutProcessorServices (E := E)}
  (verifier : NativeBridgeVerifier) (cfg : Config).
Abbreviation P := (Processor State RskPegManagerEvents E Effect Tables PegoutProcessorState).

Section Effects.
Context (A : Effect -> Prop) (B : bytes -> Prop).
Abbreviation acts := (acts A B (S := State) (D := RskPegManagerEvents) (E := E) (Q := Tables) (N := PegoutProcessorState)).
Hypothesis A_other : forall x, (forall id r, x <> Sent (SetVarPegoutCompleted id r)) -> A x.

Lemma A_not_notable x : ~ notable x -> A x.
Proof. intros Hx. apply A_other. intros id r ->. by apply Hx. Qed.
Hint Resolve A_not_notable : core.

#[export] Instance acts_handled : Handled verifier acts.
Proof.
  split; intros; [apply _|apply acts_with_flow..|apply acts_retain|apply acts_delete_stored|apply acts_save_tables].
  - apply adds_complete_step; [auto..|]. intros e id ->. naive_solver.
  - apply (adds_start verifier A); [auto|discriminate|discriminate].
  - apply adds_request_status; auto.
  - apply adds_redrive; auto.
Qed.

Lemma acts_registered e :
  (forall id, A (Sent (SetVarPegoutCompleted id (ev_inner e)))) -> every acts (handle_pegout_registered verifier e).
Proof.
  intros He. unfold handle_pegout_registered, flow_by_user_take_txid, complete_flow_step.
  assert (Hc : adds A (complete_step verifier (DataPegoutRegistered e)))
    by (apply adds_complete_step; [auto..|]; intros e' id [= <-]; auto).
  pose proof (fun k => acts_with_flow A B k _ Hc (D := RskPegManagerEvents) (Q := Tables) (N := PegoutProcessorState)).
  prove_every.
Qed.

Lemma new_flow_id e now s :
  new_flow e now = Ok s -> flow_id s = flow_id_from_pegout_requested_tx_hash (ev_tx_hash e).
Proof. unfold new_flow. intros Hn. repeat case_match; try discriminate Hn. by injection Hn as <-. Qed.

Lemma acts_create e :
  (forall env, im_member (po_committeeId (ev_inner e)) env = true ->
     B (flow_id_from_pegout_requested_tx_hash (ev_tx_hash e))) ->
  every acts (create_flow_for_pegout_requested verifier e).
Proof.
  intros He. apply (create_rule verifier acts). intros env now s Hmem Hn.
  assert (Hc : adds A (complete_step verifier DataPegoutRequested))
    by (apply adds_complete_step; [auto..|discriminate]).
  assert (Hfile : forall s', every acts (set_flows (<[flow_id s := s']>)))
    by (intros s'; apply acts_insert; rewrite (new_flow_id _ _ _ Hn); eauto).
  pose proof (acts_with_new_flow A B s _ Hc (D := RskPegManagerEvents) (Q := Tables) (N := PegoutProcessorState)).
  unfold file_flow, pegout_flow_by_protocol_id. prove_every.
Qed.

Lemma acts_shutdown : every acts shutdown.
Proof.
  unfold shutdown. apply every_bind; [apply _|apply acts_clear|intros []].
  apply every_bind; [apply _|prove_every|intros []]. apply every_bind; [apply _|apply acts_on_confirmer|]. prove_every.
Qed.

End Effects.

(** *** Confirmed events *)

Definition final (p : P) (i : Input) (event : RskPegManagerEvents) : Prop :=
  exists block, i = InBlock block /\ Processor.final managed_event (required_confirmations cfg) p block event.

Lemma acts_process (p : P) i :
  confirmer_ok managed_event (required_confirmations cfg) (confirmer p) -> input_ok i ->
  required_confirmations cfg <> 0 ->
  acts
    (fun x => forall id r, x = Sent (SetVarPegoutCompleted id r) ->
       exists e, final p i (Events.PegoutRegistered e) /\ ev_inner e = r)
    (fun k => exists e env, final p i (Events.PegoutRequested e) /\
       im_member (po_committeeId (ev_inner e)) env = true /\ k = flow_id_from_pegout_requested_tx_hash (ev_tx_hash e))
    (panicked (fst (process verifier cfg i p))) p (snd (process verifier cfg i p)).
Proof.
  intros Hok Hi Hreq. set (A := fun x => _). set (B := fun k => _).
  assert (HA : forall x, (forall id r, x <> Sent (SetVarPegoutCompleted id r)) -> A x)
    by (intros x Hx id r ->; by destruct (Hx id r)).
  pose proof (acts_handled A B HA) as Hh. destruct i as [block|event|event|req|]; cbn [process].
  - apply (new_block_rule verifier cfg (acts A B)); [apply acts_on_confirmer|intros; apply acts_on_confirmer|].
    intros c key e Hu He Hc. pose proof (confirmed_final _ _ p block c key e Hok Hi Hu He Hc) as Hf.
    apply every_confirmed; [done|intros ev Hev; apply acts_create|intros ev Hev; apply acts_registered];
      rewrite Hev in Hf; try done.
    + intros env Hmem. exists ev, env. split; [by exists block|done].
    + intros id id' r [= <- <-]. exists ev. split; [by exists block|done].
  - apply (every_rsk verifier cfg (acts A B)); [done|intros; apply acts_on_confirmer..].
  - apply (every_bitvmx verifier cfg (acts A B)).
  - apply (every_user verifier (acts A B)).
  - apply acts_shutdown.
Qed.

(** *** Programs of their own *)

Definition apart (m : gmap bytes State) : Prop :=
  forall k k' s s', m !! k = Some s -> m !! k' = Some s' ->
    bitvmx_protocol_id (ctx s) = bitvmx_protocol_id (ctx s') -> k = k'.

Definition keeps_apart (b : bool) (p p' : P) : Prop := apart (flows p) -> apart (flows p').

#[export] Instance keeps_apart_frames : Frames keeps_apart.
Proof. split; [split|]; unfold keeps_apart; auto. Qed.

Lemma apart_with_flow {T} k (m : SR (Flow.World State E Effect) FlowError T) :
  flow_op m -> every keeps_apart (with_flow k m).
Proof.
  intros [Hstay _] p Hp. unfold with_flow. destruct (flows p !! k) as [s|] eqn:Hs; [|done].
  set (w := mkWorld s _ _ _). specialize (Hstay w). destruct (m w) as [r w']. destruct Hstay as (_ & Hpid & _). cbn in *.
  assert (Hold : forall k1 s1, <[k := state w']> (flows p) !! k1 = Some s1 ->
    exists s0, flows p !! k1 = Some s0 /\ bitvmx_protocol_id (ctx s0) = bitvmx_protocol_id (ctx s1)).
  { intros k1 s1 [[<- <-]|[_ Hk1]]%lookup_insert_Some; eauto. }
  intros k1 k2 s1 s2 (s1' & Hs1 & He1)%Hold (s2' & Hs2 & He2)%Hold Heq. apply (Hp _ _ _ _ Hs1 Hs2). congruence.
Qed.

Lemma apart_retain f `{!forall kv, Decision (f kv)} : every keeps_apart (set_flows (filter f)).
Proof.
  intros p Hp k1 k2 s1 s2 [Hs1 _]%map_lookup_filter_Some [Hs2 _]%map_lookup_filter_Some. by apply Hp.
Qed.

Lemma apart_same_flows {T} (m : SR P FlowError T) : (forall p, flows (snd (m p)) = flows p) -> every keeps_apart m.
Proof. intros Hm p Hp. by rewrite Hm. Qed.

#[export] Instance keeps_apart_handled : Handled verifier keeps_apart.
Proof.
  split; intros; [apply _|apply apart_with_flow..|apply apart_retain|apply apart_same_flows|apply apart_same_flows];
    auto using flow_op_complete, flow_op_failed, flow_op_keeps, keeps_request_status, keeps_redrive.
  - intros p. unfold delete_stored, on_services, mbind, SR_bind. by destruct (delete_flow _ _) as [[]].
  - intros p. unfold persist_processor_state, save_tables, on_services, mbind, SR_bind. cbn.
    by destruct (save_processor_state _ _) as [[]].
Qed.

(** A program that no flow has is not found. *)
Lemma find_flow_none (pred : State -> bool) (p : P) :
  fst (find_flow pred p) = Ok None -> forall k s, flows p !! k = Some s -> pred s = false.
Proof.
  unfold find_flow, mbind, SR_bind. cbn. intros [= Hnone] k s Hs. destruct (pred s) eqn:Hp; [|done]. exfalso.
  assert (Hin : (k, s) ∈ filter (fun kv : bytes * State => pred kv.2 = true) (shuffle (map_to_list (flows p)))).
  { apply list_elem_of_filter. split; [done|]. rewrite shuffle_perm. by apply elem_of_map_to_list. }
  destruct (filter _ _); [by apply elem_of_nil in Hin|done].
Qed.

Lemma apart_file s : every keeps_apart (file_flow verifier s).
Proof.
  intros p Hp. unfold file_flow, pegout_flow_by_protocol_id.
  set (pred := fun s0 : State => bool_decide (bitvmx_protocol_id (ctx s0) = bitvmx_protocol_id (ctx s))).
  destruct (find_flow pred p) as [[[k|]|x] p1] eqn:Hf; [..|done].
  - rewrite (SR_bind_run _ _ _ _ _ Hf). injection Hf as _ <-. done.
  - rewrite (SR_bind_run _ _ _ _ _ Hf).
    pose proof (find_flow_none pred p) as Hnone. rewrite Hf in Hnone. specialize (Hnone eq_refl).
    injection Hf as _ <-. unfold with_new_flow, mbind, SR_bind. change (filed_under s) with (flow_id s).
    set (w := mkWorld s _ _ _).
    pose proof (op_stays _ (flow_op_complete verifier DataPegoutRequested) w) as (_ & Hpid & _). destruct (complete_step verifier DataPegoutRequested w) as [[u|x] w']; [|done]. cbn in *.
    assert (Hnew : forall k1 s1, flows p !! k1 = Some s1 -> bitvmx_protocol_id (ctx s1) <> bitvmx_protocol_id (ctx (state w'))).
    { intros k1 s1 Hs1 Heq. specialize (Hnone _ _ Hs1). unfold pred in Hnone.
      apply bool_decide_eq_false in Hnone. congruence. }
    intros k1 k2 s1 s2 Hs1 Hs2 Heq.
    apply lookup_insert_Some in Hs1 as [[<- <-]|[_ Hs1]], Hs2 as [[<- <-]|[_ Hs2]]; [done| | |by eapply Hp].
    + by destruct (Hnew _ _ Hs2).
    + by destruct (Hnew _ _ Hs1).
Qed.

Lemma apart_process i : every keeps_apart (process verifier cfg i).
Proof.
  assert (Hc : forall {T} (m : SR _ failure T), every keeps_apart (on_confirmer m))
    by (intros T m; apply apart_same_flows; intros p; by rewrite on_confirmer_run).
  assert (Hev : forall event, every keeps_apart (process_confirmed_rsk_event verifier event)).
  { intros event. apply every_confirmed; [apply _|intros e _..].
    - apply (create_rule verifier keeps_apart). intros env now s _ _. apply apart_file.
    - unfold handle_pegout_registered, flow_by_user_take_txid, complete_flow_step.
      pose proof (fun k => apart_with_flow k _ (flow_op_complete verifier (DataPegoutRegistered e))). prove_every. }
  destruct i as [block|event|event|req|]; cbn [process].
  - intros p. apply (new_block_rule verifier cfg keeps_apart); auto.
  - apply every_rsk; auto. apply _.
  - apply every_bitvmx. apply _.
  - apply every_user. apply _.
  - unfold shutdown. apply every_bind; [apply _|by intros p _ k k' s s' Hs|intros []].
    pose proof (Hc _ clear_confirmer). prove_every.
Qed.

End Actions.

(** ** Clean-up and restart *)

Section Tables.
Context `{FlowCodecs, !CommitteeServices E, !PegoutServices E, !BridgeNode E, Sha256, !SignatureContracts E,
  !ForceFlags E, CommitteePayloads, !JsonCodecs, HashOrder, !PegoutProcessorServices (E := E)}
  (verifier : NativeBridgeVerifier) (cfg : Config).
Abbreviation P := (Processor State RskPegManagerEvents E Effect Tables PegoutProcessorState).

(** What the tables hold for a flow. *)
Definition entries (t : Tables) (k : bytes) : option Z * option Z * bool * option Z * option Z :=
  (pending (tx_status_scheduler t) !! k, expirations (advance_funds_timeout_scheduler t) !! k,
   bool_decide (k ∈ flows_pending_timeout t), unconfirmed_register_pegout t !! k,
   pending (register_pegout_retry_scheduler t) !! k).
Definition nothing : option Z * option Z * bool * option Z * option Z := (None, None, false, None, None).

Definition forget (id : bytes) (t : Tables) : Tables :=
  set_unconfirmed (delete id) (set_pending (fun s => s ∖ {[id]})
    (set_retries (cancel id) (set_timeouts (cancel_timeout id) (set_tx_status (cancel id) t)))).

Lemma forget_entries id t k : entries (forget id t) k = if decide (id = k) then nothing else entries t k.
Proof.
  unfold entries, nothing. cbn. case_decide as Hk.
  - subst. rewrite !lookup_delete_eq, bool_decide_false by set_solver. done.
  - rewrite !lookup_delete_ne by done. repeat f_equal. apply bool_decide_ext. set_solver.
Qed.

(** Everything but the tables and the subflows. *)
Definition rest_same (p p' : P) : Prop :=
  flows p' = flows p /\ confirmer p' = confirmer p /\ disk p' = disk p.

Lemma forget_flows_run (l : list (bytes * bytes)) (p : P) :
  exists p', for_each l (fun '(id, protocol_id) =>
      _ ← set_signature_flows (delete protocol_id); set_tables (forget id)) p = (Ok tt, p') /\ rest_same p p' /\
    (forall k, entries (tables p') k = if decide (k ∈ l.*1) then nothing else entries (tables p) k) /\
    (forall x, signature_flows p' !! x = if decide (x ∈ l.*2) then None else signature_flows p !! x).
Proof.
  revert p. induction l as [|[id x0] l IH]; intros p; cbn [for_each].
  { exists p. by split_and!. }
  set (p1 := snd (set_tables (forget id) (snd (set_signature_flows (delete x0) p)))).
  rewrite SR_bind_run with (a := tt) (s' := p1) by done.
  destruct (IH p1) as (p' & -> & (Hf & Hc & Hd) & He & Hsig). exists p'. split; [done|].
  split; [unfold rest_same; by rewrite Hf, Hc, Hd|]. split.
  - intros k. rewrite He. cbn [fmap list_fmap fst]. destruct (decide (k ∈ l.*1)).
    + by rewrite decide_True by set_solver.
    + cbn. rewrite forget_entries. destruct (decide (id = k)) as [<-|];
        [rewrite decide_True by set_solver|rewrite decide_False by set_solver]; done.
  - intros x. rewrite Hsig. cbn. destruct (decide (x ∈ l.*2)).
    + by rewrite decide_True by set_solver.
    + destruct (decide (x0 = x)) as [<-|].
      * by rewrite lookup_delete_eq, decide_True by set_solver.
      * by rewrite lookup_delete_ne, decide_False by set_solver.
Qed.

Lemma delete_flows_run (l : list (bytes * bytes)) (p p' : P) r :
  for_each l (fun '(id, _) => _ ← catch (delete_stored delete_flow id); mret tt) p = (r, p') -> panicked r = false ->
  r = Ok tt /\ flows p' = flows p /\ tables p' = tables p /\ signature_flows p' = signature_flows p /\
  forall k, k ∉ l.*1 -> disk p' !! k = disk p !! k.
Proof.
  revert p. induction l as [|[id x0] l IH]; intros p Hr Hp; cbn [for_each] in Hr.
  { by injection Hr as <- <-. }
  assert (Hstep : forall p1, flows p1 = flows p -> tables p1 = tables p -> signature_flows p1 = signature_flows p ->
    (forall k, k <> id -> disk p1 !! k = disk p !! k) ->
    for_each l (fun '(id, _) => _ ← catch (delete_stored delete_flow id); mret tt) p1 = (r, p') ->
    r = Ok tt /\ flows p' = flows p /\ tables p' = tables p /\ signature_flows p' = signature_flows p /\
    forall k, k ∉ ((id, x0) :: l).*1 -> disk p' !! k = disk p !! k).
  { intros p1 Hf Ht Hs Hd Hr1. destruct (IH p1 Hr1 Hp) as (-> & Hf' & Ht' & Hs' & Hd').
    split_and!; [done|congruence..|]. intros k Hk. cbn in Hk. rewrite Hd', Hd by set_solver. done. }
  rewrite SR_bind_assoc in Hr.
  destruct (catch (delete_stored delete_flow id) p) as [[res|x] p1] eqn:Hc.
  - rewrite (SR_bind_run _ _ _ _ _ Hc) in Hr. revert Hc. unfold catch, delete_stored, on_services, mbind, SR_bind.
    destruct (delete_flow id (penv p)) as [[u|[causes|msg]] e]; cbn; intros Hc; [..|discriminate Hc];
      injection Hc as <- <-; (eapply Hstep; [..|exact Hr]); try done. intros k Hk. cbn. by rewrite lookup_delete_ne.
  - rewrite (SR_bind_err _ _ _ _ _ Hc) in Hr. injection Hr as <- <-. revert Hc. unfold catch.
    destruct (delete_stored delete_flow id p) as [[u|[causes|msg]] p2]; intros Hc; by simplify_eq.
Qed.

Definition terminal_at (p : P) (k : bytes) : bool := from_option (fun s => is_terminal (step s)) false (flows p !! k).

Lemma terminal_flows_keys (p : P) k :
  filed state_ok (flows p) ->
  k ∈ ((fun kv : bytes * State => (flow_id kv.2, bitvmx_protocol_id (ctx kv.2))) <$>
        filter (fun kv => is_terminal (step kv.2) = true) (shuffle (map_to_list (flows p)))).*1 <-> terminal_at p k = true.
Proof.
  intros Hf. unfold terminal_at. rewrite <- list_fmap_compose, list_elem_of_fmap. split.
  - intros ([k' s] & -> & [Ht Hin]%list_elem_of_filter). rewrite shuffle_perm in Hin.
    apply elem_of_map_to_list in Hin. cbn in *. destruct (Hf _ _ Hin) as [Hk _].
    change (flow_id s = k') in Hk. by rewrite Hk, Hin.
  - destruct (flows p !! k) as [s|] eqn:Hs; [|done]. cbn. intros Ht. exists (k, s). cbn.
    split; [by destruct (Hf _ _ Hs)|]. apply list_elem_of_filter. split; [done|]. rewrite shuffle_perm.
    by apply elem_of_map_to_list.
Qed.

Lemma terminal_flows_programs (p : P) x :
  x ∈ ((fun kv : bytes * State => (flow_id kv.2, bitvmx_protocol_id (ctx kv.2))) <$>
        filter (fun kv => is_terminal (step kv.2) = true) (shuffle (map_to_list (flows p)))).*2 <->
  exists k s, flows p !! k = Some s /\ is_terminal (step s) = true /\ bitvmx_protocol_id (ctx s) = x.
Proof.
  rewrite <- list_fmap_compose, list_elem_of_fmap. split.
  - intros ([k s] & -> & [Ht Hin]%list_elem_of_filter). rewrite shuffle_perm in Hin.
    apply elem_of_map_to_list in Hin. by exists k, s.
  - intros (k & s & Hs & Ht & <-). exists (k, s). split; [done|]. apply list_elem_of_filter. split; [done|].
    rewrite shuffle_perm. by apply elem_of_map_to_list.
Qed.

(** The three phases of the clean-up. *)
Lemma cleanup_run (p p' : P) r :
  cleanup_terminal_flows p = (r, p') -> panicked r = false ->
  let l := (fun kv : bytes * State => (flow_id kv.2, bitvmx_protocol_id (ctx kv.2))) <$>
    filter (fun kv => is_terminal (step kv.2) = true) (shuffle (map_to_list (flows p))) in
  r = Ok tt /\ flows p' = filter (fun kv => is_terminal (step kv.2) = false) (flows p) /\
  (forall k, entries (tables p') k = if decide (k ∈ l.*1) then nothing else entries (tables p) k) /\
  (forall x, signature_flows p' !! x = if decide (x ∈ l.*2) then None else signature_flows p !! x) /\
  (forall k, k ∉ l.*1 -> disk p' !! k = disk p !! k).
Proof.
  intros Hr Hp l. unfold cleanup_terminal_flows, cleanup_terminal_flow_state in Hr. rewrite SR_bind_assoc in Hr.
  rewrite SR_bind_run with (a := l) (s' := p) in Hr by done.
  destruct (forget_flows_run l p) as (p1 & Hr1 & (Hf1 & _ & Hd1) & He & Hsig).
  rewrite (SR_bind_run _ _ _ _ _ Hr1), SR_bind_run with (a := l) (s' := p1) in Hr
    by (unfold l, terminal_flows, mbind, SR_bind; cbn; by rewrite Hf1).
  set (deletes := for_each l (fun '(id, _) => _ ← catch (delete_stored delete_flow id); mret tt)) in Hr.
  destruct (deletes p1) as [r2 p2] eqn:Hr2. destruct r2 as [[]|x].
  - rewrite (SR_bind_run _ _ _ _ _ Hr2) in Hr. injection Hr as <- <-.
    destruct (delete_flows_run l p1 p2 _ Hr2 eq_refl) as (_ & Hf2 & Ht2 & Hs2 & Hd2). cbn.
    rewrite Hf2, Hf1, Ht2, Hs2. split_and!; try done. intros k Hk. by rewrite Hd2, Hd1.
  - rewrite (SR_bind_err _ _ _ _ _ Hr2) in Hr. injection Hr as <- <-.
    by destruct (delete_flows_run l p1 p2 _ Hr2 Hp).
Qed.

(** *** Arming what waits for time *)

Definition armed (t : Tables) (k : bytes) (s : Steps) : Prop :=
  match s with
  | StepWaitUserTakeSignaturesReady =>
      k ∈ flows_pending_timeout t \/ is_scheduled_timeout k (advance_funds_timeout_scheduler t) = true
  | StepConfirmUserTakeTransaction => is_scheduled k (tx_status_scheduler t) = true
  | StepRegisterPegout =>
      is_Some (unconfirmed_register_pegout t !! k) /\ is_scheduled k (register_pegout_retry_scheduler t) = true
  | _ => True
  end.

#[local] Arguments schedule : simpl never.
#[local] Arguments is_scheduled : simpl never.

(** One flow is armed, and nothing is disarmed. *)
Lemma reconstruct_flow_run k (p p' : P) :
  reconstruct_flow cfg k p = (Ok tt, p') ->
  flows p' = flows p /\ (forall s, flows p !! k = Some s -> armed (tables p') k (step s)) /\
  (forall k' s, armed (tables p) k' s -> armed (tables p') k' s).
Proof.
  unfold reconstruct_flow. rewrite SR_bind_run with (a := flows p !! k) (s' := p) by done.
  destruct (flows p !! k) as [s|] eqn:Hs; [|discriminate]. rewrite SR_bind_run with (a := s) (s' := p) by done.
  intros Hr.
  assert (Hrun : exists t, armed t k (step s) /\ (forall k' s, armed (tables p) k' s -> armed t k' s) /\
    with_flow k redrive_pending_bitvmx_request (snd (set_tables (fun _ => t) p)) = (Ok tt, p')).
  { destruct (step s) eqn:Hstep; cbn in Hr; try (exists (tables p); split_and!; [done|done|by destruct p]).
    - eexists. split_and!; [| |exact Hr]; cbn.
      + destruct (is_scheduled_timeout k (advance_funds_timeout_scheduler (tables p))) eqn:Hsch; [by right|left; set_solver].
      + intros k' s' Ha. destruct (is_scheduled_timeout k (advance_funds_timeout_scheduler (tables p))); [done|]. destruct s'; cbn in *; try done. set_solver.
    - eexists. split_and!; [| |exact Hr]; cbn.
      + destruct (is_scheduled k (tx_status_scheduler (tables p))) eqn:Hsch; [done|]. cbn. by rewrite is_scheduled_schedule, bool_decide_true.
      + intros k' s' Ha. destruct (is_scheduled k (tx_status_scheduler (tables p))); [done|]. destruct s'; cbn in *; try done.
        by rewrite is_scheduled_schedule, Ha, orb_true_r.
    - unfold mbind, SR_bind in Hr. cbn in Hr. eexists. split_and!; [| |exact Hr]; cbn.
      + destruct (is_scheduled k (register_pegout_retry_scheduler (tables p))) eqn:Hsch; cbn; rewrite lookup_partial_alter_eq, ?is_scheduled_schedule,
          ?bool_decide_true by done; eauto.
      + intros k' s' Ha. set (f := fun o => _).
        assert (Hu : is_Some (unconfirmed_register_pegout (tables p) !! k') ->
          is_Some (partial_alter f k (unconfirmed_register_pegout (tables p)) !! k')).
        { intros Hu. destruct (decide (k = k')) as [<-|]; [rewrite lookup_partial_alter_eq; by eexists|].
          by rewrite lookup_partial_alter_ne. }
        destruct (is_scheduled k (register_pegout_retry_scheduler (tables p))), s'; cbn in *; try done; destruct Ha as [Ha1 Ha2]; split; auto.
        by rewrite is_scheduled_schedule, Ha2, orb_true_r. }
  clear Hr. destruct Hrun as (t & Ha & Hmono & Hr). unfold with_flow in Hr. cbn in Hr. rewrite Hs in Hr.
  set (w := mkWorld s _ _ _) in Hr. destruct (keeps_redrive w) as [Hst _].
  destruct (redrive_pending_bitvmx_request w) as [r w']. injection Hr as -> <-. cbn in *. rewrite Hst, insert_id by done.
  split_and!; [done| |done]. by intros s' [= <-].
Qed.

Lemma reconstruct_run l (p p' : P) :
  for_each l (reconstruct_flow cfg) p = (Ok tt, p') ->
  flows p' = flows p /\ (forall k s, armed (tables p) k s -> armed (tables p') k s) /\
  forall k s, k ∈ l -> flows p !! k = Some s -> armed (tables p') k (step s).
Proof.
  revert p. induction l as [|k l IH]; intros p Hr; cbn [for_each] in Hr.
  { injection Hr as <-. split_and!; [done|done|]. intros k s []%elem_of_nil. }
  sr_inv Hr. destruct x. destruct (reconstruct_flow_run _ _ _ Hx) as (Hf & Ha & Hm).
  destruct (IH _ Hr) as (Hf' & Hm' & Ha'). rewrite Hf in *.
  split_and!; [done|auto|]. intros k' s' Hk' Hs'. rewrite elem_of_cons in Hk'. destruct Hk' as [->|Hk']; auto.
Qed.

End Tables.

(** ** What the processor guarantees *)

Section Guarantees.
Context `{FlowCodecs, !CommitteeServices E, !PegoutServices E, !BridgeNode E, Sha256, !SignatureContracts E,
  !ForceFlags E, CommitteePayloads, !JsonCodecs, HashOrder, !PegoutProcessorServices (E := E)}.
Abbreviation P := (Processor State RskPegManagerEvents E Effect Tables PegoutProcessorState).

(** C15: The processor keeps its books in order.  Through any number of inputs,
    failures, panics and restarts, every peg-out in memory and in the store is
    filed under its own identifier and in a well-formed state, every event that
    awaits confirmations is filed under its name and counts from its own block in
    a view that is a chain, and so does every event in the stored tables. *)
Theorem pegout_processor_invariant verifier cfg (b : bool) past (p : P) :
  reachable verifier cfg b past p ->
  (b = false -> memory_ok state_ok managed_event (required_confirmations cfg) p) /\
  store_ok state_ok managed_event (required_confirmations cfg) st_events_confirming p.
Proof. apply pegout_reachable_ok. Qed.

(** C4: The processor acts on final events only.  With a required number of
    confirmations other than zero, whatever the processor is handed, it tells
    BitVMX that a peg-out is completed only on the registration, and files a new
    peg-out only for the request of a committee of this node, that were waiting
    and whose block is buried under the required number of blocks of the view
    with this very input. *)
Theorem pegout_acts_on_final_events verifier cfg past (p : P) i :
  reachable verifier cfg false past p -> input_ok i -> required_confirmations cfg <> 0 ->
  let p' := snd (process verifier cfg i p) in
  (exists l, ptrace p' = ptrace p ++ l /\
     forall id r, Sent (SetVarPegoutCompleted id r) ∈ l ->
       exists e, final cfg p i (Events.PegoutRegistered e) /\ ev_inner e = r) /\
  (forall k, is_Some (flows p' !! k) -> is_Some (flows p !! k) \/
     exists e env, final cfg p i (Events.PegoutRequested e) /\ im_member (po_committeeId (ev_inner e)) env = true /\
       k = flow_id_from_pegout_requested_tx_hash (ev_tx_hash e)).
Proof.
  intros Hp Hi Hreq p'. destruct (pegout_reachable_ok _ _ _ _ _ Hp) as [Hm _].
  destruct (acts_process verifier cfg p i (mem_events _ _ _ _ (Hm eq_refl)) Hi Hreq) as [(l & Hl & HA) HB].
  split; [|exact HB]. exists l. split; [done|]. intros id r Hin. rewrite Forall_forall in HA. by apply (HA _ Hin id r).
Qed.

(** No two peg-outs of the processor share a BitVMX program.  If they have
    programs of their own before an input, they have after it, whatever its
    outcome: messages of BitVMX, which name the program, reach one flow. *)
Theorem pegout_programs_stay_apart verifier cfg (p : P) i :
  apart (flows p) -> apart (flows (snd (process verifier cfg i p))).
Proof. apply apart_process. Qed.

(** Clean-up forgets exactly the peg-outs that are over.  It fails only with
    a panic of the store; otherwise the flows that are done or failed are gone,
    with their entries in every schedule and table and their signature subflows,
    and nothing else changes: the other flows, their entries and what the store
    holds of them. *)
Theorem pegout_cleanup_forgets (p p' : P) r :
  filed state_ok (flows p) -> cleanup_terminal_flows p = (r, p') -> panicked r = false ->
  r = Ok tt /\ flows p' = filter (fun kv => is_terminal (step kv.2) = false) (flows p) /\
  (forall k, entries (tables p') k = if terminal_at p k then nothing else entries (tables p) k) /\
  (forall k s, flows p !! k = Some s -> is_terminal (step s) = true ->
     signature_flows p' !! bitvmx_protocol_id (ctx s) = None) /\
  (forall x, (forall k s, flows p !! k = Some s -> is_terminal (step s) = true -> bitvmx_protocol_id (ctx s) <> x) ->
     signature_flows p' !! x = signature_flows p !! x) /\
  (forall k, terminal_at p k = false -> disk p' !! k = disk p !! k).
Proof.
  intros Hf Hr Hp. destruct (cleanup_run _ _ _ Hr Hp) as (-> & Hfl & He & Hsig & Hd).
  split_and!; [done|done|..].
  - intros k. rewrite He. pose proof (terminal_flows_keys p k Hf) as Hk. destruct (terminal_at p k).
    + by rewrite decide_True by by apply Hk.
    + rewrite decide_False; [done|]. by intros ?%Hk.
  - intros k s Hs Ht. rewrite Hsig, decide_True; [done|]. apply terminal_flows_programs. eauto.
  - intros x Hx. rewrite Hsig, decide_False; [done|]. intros (k & s & Hs & Ht & Hpx)%terminal_flows_programs.
    by destruct (Hx k s).
  - intros k Hk. apply Hd. rewrite terminal_flows_keys by done. by rewrite Hk.
Qed.

(** A restart forgets no deadline.  When the processor has started from the
    store, whatever tables were saved with the flows, every peg-out that waits for
    signatures has a time-out scheduled or about to be, every one that waits for
    Bitcoin confirmations asks for them again, and every one to be registered has
    a retry. *)
Theorem pegout_restart_rearms cfg (p p' : P) :
  restore_or_new cfg p = (Ok tt, p') ->
  forall k s, flows p' !! k = Some s -> armed (tables p') k (step s).
Proof.
  intros Hr k s Hs. unfold restore_or_new in Hr. sr_inv Hr.
  unfold reconstruct_runtime_state_from_flows in Hr. sr_inv Hr.
  destruct (reconstruct_run _ _ _ _ Hr) as (Hf & _ & Ha). rewrite Hf in Hs. apply (Ha k s); [|done].
  rewrite shuffle_perm. apply list_elem_of_fmap. exists (k, s). split; [done|]. apply elem_of_map_to_list. by injection Hx4 as -> ->.
Qed.


End Guarantees.

(** ** A run of one peg-out

    The services answer; the contract of the signatures does as long as the flag
    is set. *)

Module Sample.

Export Flow.Sample.

#[export] Instance sample_payloads : CommitteePayloads := Build_CommitteePayloads unit unit unit unit.
#[export] Instance order : HashOrder := {| shuffle A l := l; shuffle_perm A l := Permutation_refl l |}.
#[export] Instance json : JsonCodecs := {|
  parse_pegin_accepted _ := None;
  parse_pegout_accepted _ := Some (mkPegOutAccepted [0] [8; 7] [3] [1] [2]);
  parse_funds_advance_spv _ := None;
  parse_union_spv_notification _ := None
|}.
#[export] Instance flags {E} : ForceFlags E := {|
  force_advance_file _ := None; force_advance_var _ := None;
  force_dispute_file _ := false; force_dispute_var _ := None |}.
#[export] Instance flow_services : PegoutServices bool := {|
  PegoutFlow.contract_call _ e := (Ok tt, e);
  broker_send _ e := (Ok tt, e);
  save_flow _ e := (Ok tt, e);
  signal_done _ e := (Ok tt, e)
|}.
#[export] Instance signature_services : SignatureContracts bool := {|
  BtcSignature.contract_call _ (e : bool) := (if e then Ok tt else Err (Anyhow ["rejected"]), e)
|}.
#[export] Instance processor_services : PegoutProcessorServices (E := bool) := {|
  im_member _ _ := true;
  utc_now _ := 0;
  delete_flow _ e := (Ok tt, e);
  save_processor_state _ e := (Ok tt, e);
  load_flows e := (Ok tt, e);
  load_processor_state e := (Ok tt, e)
|}.

Definition cfg : Config := mkConfig 7200 2 6 3 None.
Abbreviation P := (Processor State RskPegManagerEvents bool Effect Tables PegoutProcessorState).

(** Inputs that are in range and do not panic. *)
Fixpoint run (l : list Input) (p : P) : option P :=
  match l with
  | [] => Some p
  | i :: l =>
      let small := match i with InBlock b => bool_decide (0 <= bu_number b < 2 ^ 64 - 1) | _ => true end in
      if small : bool then
        match process Dummy cfg i p with
        | (r, p') => if panicked r then None else run l p'
        end
      else None
  end.

Definition start (e : bool) : P := snd (restore_or_new cfg (new_processor ∅ None e)).
Definition after (e : bool) (l : list Input) : P := default (start e) (run l (start e)).

Definition requested : Input := InRskEvent (Events.PegoutRequested PegoutFlow.Sample.event).
Definition block (n : Z) : Input := InBlock (BlockchainTracker.Sample.bu 1 n).
Definition program : bytes := user_take_protocol_id (uuid_from_u128 77) 5.
Definition created : list Input := [requested; block 10; block 11].
Definition accepted : list Input :=
  [InBitvmxEvent (MsgCommInfo [0] (mkCommsAddress _ "10.0.0.1:80" "comm"));
   InBitvmxEvent (MsgVariableString program "pegout_accepted" "")].
Definition id : bytes := flow_id_from_pegout_requested_tx_hash [8].

Lemma runs_reachable l past p p' :
  reachable Dummy cfg false past p -> run l p = Some p' -> exists past', reachable Dummy cfg false past' p'.
Proof.
  revert past p. induction l as [|i l IH]; intros past p Hp Hr; [injection Hr as <-; by exists past|]. cbn [run] in Hr.
  destruct (match i with InBlock b => _ | _ => true end) eqn:Hs; [|discriminate Hr].
  assert (Hi : input_ok i) by (destruct i; try done; by apply bool_decide_eq_true in Hs).
  pose proof (R_input Dummy cfg past p i Hp Hi) as Hn. cbn zeta in Hn.
  destruct (process Dummy cfg i p) as [r p1]. cbn in Hn. destruct (panicked r); [discriminate Hr|]. by eapply IH.
Qed.

Lemma start_reachable e : reachable Dummy cfg false [Started] (start e).
Proof. exact (R_start Dummy cfg true _ _ e (R_empty Dummy cfg e)). Qed.

Lemma after_reachable e l : exists past, reachable Dummy cfg false past (after e l).
Proof.
  unfold after. pose proof (start_reachable e) as Hs. destruct (run l (start e)) as [p|] eqn:Hr; [|by eexists].
  by eapply runs_reachable.
Qed.

End Sample.

Section Witnesses.
#[local] Existing Instances NativeBridge.Sample.crates Bitvmx.Sample.tail_hash Flow.Sample.socket_addrs
  Flow.Sample.codecs Flow.Sample.committee_services Flow.Sample.node Sample.sample_payloads Sample.order Sample.json
  Sample.flags Sample.flow_services Sample.signature_services Sample.processor_services.

Lemma pegout_processor_invariant_witness :
  let p := Sample.after true (Sample.created ++ Sample.accepted) in
  step <$> flows p !! Sample.id = Some StepWaitUserTakeSignaturesReady /\
  store_ok state_ok managed_event (required_confirmations Sample.cfg) st_events_confirming p.
Proof.
  cbn zeta. split; [vm_compute; reflexivity|].
  destruct (Sample.after_reachable true (Sample.created ++ Sample.accepted)) as [past Hp].
  exact (proj2 (pegout_processor_invariant Dummy Sample.cfg false past _ Hp)).
Defined.

(** The block that confirms the request files the peg-out. *)
Lemma pegout_acts_on_final_events_witness :
  let p := Sample.after true [Sample.requested; Sample.block 10] in
  let p' := snd (process Dummy Sample.cfg (Sample.block 11) p) in
  size (flows p) = 0%nat /\ is_Some (flows p' !! Sample.id) /\
  (is_Some (flows p !! Sample.id) \/
   exists e env, final Sample.cfg p (Sample.block 11) (Events.PegoutRequested e) /\
     im_member (po_committeeId (ev_inner e)) env = true /\
     Sample.id = flow_id_from_pegout_requested_tx_hash (ev_tx_hash e)).
Proof.
  cbn zeta. assert (Hk : is_Some (flows (snd (process Dummy Sample.cfg (Sample.block 11)
    (Sample.after true [Sample.requested; Sample.block 10]))) !! Sample.id))
    by (apply (bool_decide_unpack _); vm_compute; exact I).
  split; [vm_compute; reflexivity|]. split; [exact Hk|].
  destruct (Sample.after_reachable true [Sample.requested; Sample.block 10]) as [past Hp].
  refine (proj2 (pegout_acts_on_final_events Dummy Sample.cfg past (Sample.after true [Sample.requested; Sample.block 10])
    (Sample.block 11) Hp _ _) Sample.id Hk).
  - vm_compute. split; [discriminate|reflexivity].
  - discriminate.
Defined.

Lemma pegout_programs_stay_apart_witness :
  apart (flows (snd (process Dummy Sample.cfg (Sample.block 11) (Sample.after true [Sample.requested; Sample.block 10])))).
Proof.
  apply (pegout_programs_stay_apart Dummy Sample.cfg).
  assert (Hempty : size (flows (Sample.after true [Sample.requested; Sample.block 10])) = 0%nat)
    by (vm_compute; reflexivity).
  apply map_size_empty_inv in Hempty. rewrite Hempty. intros k k' s s' Hs. rewrite lookup_empty in Hs. discriminate Hs.
Defined.

(** A peg-out that an administrator failed leaves the tables. *)
Definition failed : Sample.P :=
  snd (with_flow Sample.id (mark_failed Dummy) (Sample.after true (Sample.created ++ Sample.accepted))).

Lemma failed_filed : filed state_ok (flows failed).
Proof.
  destruct (Sample.after_reachable true (Sample.created ++ Sample.accepted)) as [past Hr]. unfold failed.
  set (p := Sample.after true _) in *. destruct (pegout_reachable_ok _ _ _ _ _ Hr) as [Hm Hs].
  pose proof (inv_flow_op Sample.cfg Sample.id _ (flow_op_failed Dummy) p (Hm eq_refl) Hs) as [Hm' _].
  eapply mem_flows, Hm'. vm_compute. reflexivity.
Qed.

Lemma pegout_cleanup_forgets_witness :
  let '(r, p') := cleanup_terminal_flows failed in
  entries (tables failed) Sample.id <> nothing /\ entries (tables p') Sample.id = nothing /\
  r = Ok tt /\ flows p' = filter (fun kv => is_terminal (step kv.2) = false) (flows failed).
Proof.
  destruct (cleanup_terminal_flows failed) as [r p'] eqn:Hr.
  assert (Hp : panicked r = false).
  { change r with (fst (r, p')). rewrite <- Hr. vm_compute. reflexivity. }
  destruct (pegout_cleanup_forgets failed p' r failed_filed Hr Hp) as (Hok & Hf & He & _).
  split; [vm_compute; discriminate|]. split; [|split; [exact Hok|exact Hf]].
  rewrite He. vm_compute. reflexivity.
Defined.

(** A restart on what the run has stored. *)
Lemma pegout_restart_rearms_witness :
  let p := Sample.after true (Sample.created ++ Sample.accepted) in
  let r := restore_or_new Sample.cfg (new_processor (disk p) None true) in
  step <$> flows (snd r) !! Sample.id = Some StepWaitUserTakeSignaturesReady /\
  armed (tables (snd r)) Sample.id StepWaitUserTakeSignaturesReady.
Proof.
  cbn zeta. set (p := Sample.after true (Sample.created ++ Sample.accepted)).
  destruct (restore_or_new Sample.cfg (new_processor (disk p) None true)) as [r p'] eqn:Hr.
  assert (Hk : (r, step <$> flows p' !! Sample.id) = (Ok tt, Some StepWaitUserTakeSignaturesReady)).
  { change r with (fst (r, p')). change p' with (snd (r, p')) at 2. rewrite <- Hr. vm_compute. reflexivity. }
  injection Hk as -> Hk. cbn [snd]. split; [exact Hk|].
  destruct (flows p' !! Sample.id) as [s|] eqn:Hs; [|discriminate Hk].
  pose proof (pegout_restart_rearms Sample.cfg _ p' Hr Sample.id s Hs) as Ha. injection Hk as Hk. rewrite Hk in Ha. exact Ha.
Defined.

(** A peg-out whose nonce could not be sent is left without a time-out.  When
    the contract refuses the nonce after BitVMX reported the accepted peg-out, the
    handler fails after the flow has moved on: the flow waits for signatures, but
    there is no subflow that collects them, and no schedule holds an entry for it,
    so that neither signatures nor the time-out will come before a restart. *)
Theorem unsent_nonce_leaves_pegout_unwatched :
  let p := Sample.after false (Sample.created ++ Sample.accepted) in
  step <$> flows p !! Sample.id = Some StepWaitUserTakeSignaturesReady /\
  signature_flows p !! Sample.program = None /\ entries (tables p) Sample.id = nothing /\
  ~ armed (tables p) Sample.id StepWaitUserTakeSignaturesReady.
Proof.
  cbn zeta. split; [vm_compute; reflexivity|]. split; [vm_compute; reflexivity|]. split; [vm_compute; reflexivity|].
  intros [Hk|Hk]; [|vm_compute in Hk; discriminate Hk]. revert Hk. by_decide.
Qed.

End Witnesses.
