(* ===== verification/TakeProcessor.v ===== *)
(** * The advance-funds processor (crates/coordinator/src/flows/operator_take/operator_take_processor.rs)

    It creates an advance-funds flow for every confirmed trigger of a committee
    this node belongs to, routes the messages of BitVMX and the confirmed events
    to the flows, and retries registrations that lack confirmations on the native
    bridge.  It has no signature subflows. *)

From Stdlib Require Import Ascii.
From stdpp Require Import prelude gmap strings sorting.
From S2P Require Import Prelude Types BlockchainTracker Schedulers Events Bitvmx NativeBridge Flow Processor.
From S2P Require Import PegoutFlow OperatorTakeFlow Inputs.
Open Scope Z_scope.

Record Config := mkConfig { required_confirmations : Z; btc_status_retry_blocks : Z }.

(** The hashes of the requests are kept by committee and slot. *)
Record Tables := mkTables {
  retries : @RetryTracker bytes _ _;
  request_pegout_tx_hashes : gmap (Z * Z) string
}.

Definition new_tables : Tables := mkTables (mkRetries ∅ (mkTicks ∅)) ∅.
Definition set_retries (f : RetryTracker -> RetryTracker) (t : Tables) : Tables :=
  mkTables (f (retries t)) (request_pegout_tx_hashes t).
Definition set_hashes (f : gmap (Z * Z) string -> gmap (Z * Z) string) (t : Tables) : Tables :=
  mkTables (retries t) (f (request_pegout_tx_hashes t)).

(** ** The stored form of the hashes *)

Record RequestPegoutTxHashEntry := mkHashEntry {
  he_committee_id : bytes;
  he_slot_id : Z;
  he_tx_hash : string
}.

(** The order of [Uuid]s is that of their bytes, read as a number. *)
Definition entry_le (l r : RequestPegoutTxHashEntry) : Prop :=
  from_be (he_committee_id l) < from_be (he_committee_id r) \/
  from_be (he_committee_id l) = from_be (he_committee_id r) /\ he_slot_id l <= he_slot_id r.

#[export] Instance entry_le_dec : RelDecision entry_le.
Proof. intros l r. unfold entry_le. apply _. Defined.

Definition snapshot_request_pegout_tx_hashes (hashes : gmap (Z * Z) string) : list RequestPegoutTxHashEntry :=
  merge_sort entry_le ((fun kv => mkHashEntry (uuid_from_u128 kv.1.1) kv.1.2 kv.2) <$> map_to_list hashes).

(** [Uuid::as_u128] *)
Definition restore_request_pegout_tx_hashes (entries : list RequestPegoutTxHashEntry) : gmap (Z * Z) string :=
  list_to_map ((fun entry => ((from_be (he_committee_id entry), he_slot_id entry), he_tx_hash entry)) <$> entries).

Section Processor.
Context `{FlowCodecs, !CommitteeServices E, !AdvanceFundsServices E, !BridgeNode E, Sha256,
  CommitteePayloads, !JsonCodecs, HashOrder}.

Record AdvanceFundsProcessorState := mkProcessorState {
  st_events_confirming : gmap string (ConfirmableEventSnapshot * RskPegManagerEvents);
  st_retries : @RetryTracker bytes _ _;
  st_request_pegout_tx_hashes : list RequestPegoutTxHashEntry
}.

(** The committees this node belongs to, the clock, and the store.  Loading gives what
    was saved, or fails. *)
Class TakeProcessorServices := {
  im_member : Z -> E -> bool;
  utc_now : E -> Z;
  delete_flow : bytes -> SR E FlowError unit;
  save_processor_state : AdvanceFundsProcessorState -> SR E FlowError unit;
  load_flows : SR E FlowError unit;
  load_processor_state : SR E FlowError unit
}.

Context `{!TakeProcessorServices} (verifier : NativeBridgeVerifier) (cfg : Config).

#[export] Instance take_filed : Filed FlowContext := flow_id.

Abbreviation P := (Processor FlowContext RskPegManagerEvents E Effect Tables AdvanceFundsProcessorState).

(** ** Retries *)

(** [i16::saturating_add(1)] *)
Definition next_attempt (attempt : Z) : Z := Z.min (attempt + 1) (2 ^ 15 - 1).

Definition schedule_retry (id : bytes) (attempt : Z) : SR P FlowError unit :=
  set_tables (set_retries (Schedulers.schedule_retry id attempt (btc_status_retry_blocks cfg))).

(** The span of a flow names its peg-out. *)
Definition enter_span (s : FlowContext) : SR P FlowError unit :=
  match ancestor_pegout_id s with Ok _ => mret tt | Err e => sfail e end.

Definition retry_flow (id : bytes) (attempt : Z) : SR P FlowError unit :=
  found ← lookup_flow id;
  match found with
  | None => mret tt
  | Some s =>
      _ ← enter_span s;
      outcome ← catch (with_flow id (complete_step verifier DataRetry));
      match outcome with
      | Ok (OutcomeRetry _) => schedule_retry id (next_attempt attempt)
      | Ok _ | Err _ => mret tt
      end
  end.

Definition handle_retry_tick : SR P FlowError unit :=
  r ← read_tables retries;
  if is_empty_retries r then mret tt else
  let '(ready, r') := tick_retries r in
  _ ← set_tables (set_retries (fun _ => r'));
  for_each (shuffle ready) (fun '(id, attempt) => retry_flow id attempt).

Definition rearm_pending_retries : SR P FlowError unit :=
  p ← sget;
  let to_retry := filter (fun id => current_attempt id (retries (tables p)) = 0)
    (flow_id <$> (filter (fun kv => pending_retry kv.2 = true) (shuffle (map_to_list (flows p)))).*2) in
  for_each to_retry (fun id => schedule_retry id 1).

(** ** Finding flows *)

Definition flow_ids (pred : FlowContext -> bool) : SR P FlowError (list bytes) :=
  p ← sget;
  mret (flow_id <$> (filter (fun kv => pred kv.2 = true) (shuffle (map_to_list (flows p)))).*2).

(** Two flows of one program are not routed to. *)
Definition flow_by_program (target : bytes) : SR P FlowError (option bytes) :=
  found ← flow_ids (fun s => bool_decide (bitvmx_protocol_id s = target));
  match found with
  | [] => mret None
  | [id] => mret (Some id)
  | _ => flow_bail "Invariant violation: multiple advance-funds flows hold BitVMX protocol id; refusing to route"
  end.

Definition flow_by_committee_slot (committee_id : bytes) (slot_index : Z) : SR P FlowError (option bytes) :=
  flow_by_program (advance_funds_protocol_id committee_id slot_index).

Definition find_flow_by_committee_slot (committee_id slot_id : Z) : SR P FlowError (option bytes) :=
  l ← flow_ids (matches_committee_slot committee_id slot_id); mret (head l).

Definition find_flow_for_pegout_id (pegout_id : Hash256) : SR P FlowError (option bytes) :=
  l ← flow_ids (matches_pegout pegout_id); mret (head l).

(** ** Steps *)

Definition complete_flow_step (id : bytes) (data : StepData) : SR P FlowError unit :=
  found ← lookup_flow id;
  match found with
  | None => mret tt
  | Some s =>
      _ ← enter_span s;
      outcome ← with_flow id (complete_step verifier data);
      match outcome with
      | OutcomeDone | OutcomeNoOp => mret tt
      | OutcomeRetry _ =>
          r ← read_tables retries;
          schedule_retry id (next_attempt (current_attempt id r))
      end
  end.

Definition complete_step_if (found : option bytes) (data : StepData) : SR P FlowError unit :=
  match found with Some id => complete_flow_step id data | None => mret tt end.

(** ** Terminal flows *)

Definition cleanup_terminal_flow_state : SR P FlowError unit :=
  p ← sget;
  for_each (filter (fun kv => is_terminal kv.2 = true) (shuffle (map_to_list (flows p)))) (fun kv =>
    set_tables (fun t =>
      set_hashes (filter (fun e => matches_committee_slot e.1.1 e.1.2 kv.2 = false))
        (set_retries (cancel_retry (flow_id kv.2)) t))).

(** Failures to delete are logged. *)
Definition cleanup_terminal_flows : SR P FlowError unit :=
  _ ← cleanup_terminal_flow_state;
  terminal ← flow_ids is_terminal;
  _ ← for_each terminal (fun id => _ ← catch (delete_stored delete_flow id); mret tt);
  set_flows (filter (fun kv => is_terminal kv.2 = false)).

Definition fail_flow (id : bytes) : SR P FlowError unit :=
  found ← lookup_flow id;
  _ ← match found with
      | Some s =>
          _ ← enter_span s;
          _ ← with_flow id (mark_failed verifier);
          set_tables (set_retries (cancel_retry id))
      | None => mret tt
      end;
  cleanup_terminal_flows.

(** ** The store *)

Definition snapshot_processor_state (p : P) : AdvanceFundsProcessorState :=
  mkProcessorState (snapshot_confirmable_events (events_confirming (confirmer p)) (blockchain_view (confirmer p)))
    (retries (tables p)) (snapshot_request_pegout_tx_hashes (request_pegout_tx_hashes (tables p))).

Definition persist_processor_state : SR P FlowError unit :=
  save_tables save_processor_state snapshot_processor_state.

(** ** Confirmed events *)

(** The flow is filed before its first step. *)
Definition create_flow_for_operator_take_triggered (event : EventWithBlock OperatorTakeTriggered)
    : SR P FlowError unit :=
  hashes ← read_tables request_pegout_tx_hashes;
  let request_pegout_tx_hash := hashes !! (ot_committeeId (ev_inner event), ot_slotId (ev_inner event)) in
  trigger_data ← slift (try_from_event (ev_inner event) request_pegout_tx_hash);
  p ← sget;
  if negb (im_member (td_committee_id trigger_data) (penv p)) then mret tt else
  let id := flow_id_from_operator_take_triggered_tx_hash (ev_tx_hash event) in
  existing ← lookup_flow id;
  match existing with
  | Some _ => flow_bail "Advance funds flow already exists"
  | None =>
      let s := state (new_flow id trigger_data (utc_now (penv p)) (penv p) []) in
      _ ← enter_span s;
      _ ← set_flows (<[id := s]>);
      complete_flow_step id DataOperatorTakeTriggered
  end.

Definition handle_pegout_registered (e : EventWithBlock PegoutRegistered) : SR P FlowError unit :=
  found ← find_flow_by_committee_slot (pg_committeeId (ev_inner e)) (pg_slotId (ev_inner e));
  complete_step_if found (DataPegoutRegistered (ev_inner e)).

Definition complete_step_by_pegout_id (pegout_id : Hash256) (data : StepData) : SR P FlowError unit :=
  found ← find_flow_for_pegout_id pegout_id; complete_step_if found data.

Definition handle_confirmed (event : RskPegManagerEvents) : SR P FlowError unit :=
  match event with
  | Events.PegoutRequested e =>
      committee_id ← try_u128 "Failed to convert to CommitteeId" (po_committeeId (ev_inner e));
      set_tables (set_hashes (<[(committee_id, po_slotId (ev_inner e)) := hash_to_string (ev_tx_hash e)]>))
  | Events.OperatorTakeTriggered e => create_flow_for_operator_take_triggered e
  | Events.AdvanceFundsRegistered e =>
      data ← slift (advance_funds_registered_from_event (ev_inner e));
      complete_step_by_pegout_id (afe_pegoutId (ev_inner e)) (DataAdvanceFundsConfirmed data)
  | Events.ReimbursementKickoffRegistered e =>
      complete_step_by_pegout_id (kr_pegoutId (ev_inner e)) DataReimbursementKickoffConfirmed
  | Events.PegoutRegistered e => handle_pegout_registered e
  | _ => mret tt
  end.

Definition process_confirmed_rsk_event (event : RskPegManagerEvents) : SR P FlowError unit :=
  _ ← handle_confirmed event; cleanup_terminal_flows.

Definition process_block_confirmations (block : RskBlockAndUncles) : SR P FlowError unit :=
  had_events ← confirm_block block process_confirmed_rsk_event;
  if (had_events : bool) then cleanup_terminal_flows else mret tt.

(** ** Proofs that BitVMX reports *)

Definition handle_advance_funds_spv (spv_data : FundsAdvanceSPV) : SR P FlowError unit :=
  if negb (length (fas_pegout_id spv_data) =? 32)%nat then mret tt else
  found ← find_flow_for_pegout_id (fas_pegout_id spv_data);
  complete_step_if found (DataAdvanceFundsSPV spv_data).

Definition handle_reimbursement_kickoff_spv_notification (n : UnionSPVNotification) : SR P FlowError unit :=
  found ← flow_by_committee_slot (un_committee_id n) (un_slot_index n);
  match found with
  | None => mret tt
  | Some id =>
      proof ← required "ReimbursementKickoff SPV notification missing spv_proof data" (un_spv_proof n);
      complete_flow_step id (DataReimbursementKickoffSPV proof)
  end.

Definition handle_operator_take_spv_notification (n : UnionSPVNotification) : SR P FlowError unit :=
  found ← flow_by_committee_slot (un_committee_id n) (un_slot_index n);
  match found with
  | None => mret tt
  | Some id =>
      proof ← required "OperatorTake SPV notification missing spv_proof data" (un_spv_proof n);
      complete_flow_step id (DataOperatorTakeSPV proof)
  end.

Definition handle_union_spv_notification (n : UnionSPVNotification) : SR P FlowError unit :=
  match un_tx_type n with
  | ReimbursementKickoff => handle_reimbursement_kickoff_spv_notification n
  | OperatorTake => handle_operator_take_spv_notification n
  | _ => mret tt
  end.

(** ** Inputs *)

Definition process_user_request (req : UserRequests) : SR P FlowError unit :=
  _ ← cleanup_terminal_flows;
  _ ← match req with
      | Admin (FailFlow kind id _) => if bool_decide (kind = KindAdvanceFunds) then fail_flow id else mret tt
      | _ => mret tt
      end;
  persist_processor_state.

Definition handle_transaction_info (program_id : bytes) (tx_name : string) (transaction : Transaction)
    : SR P FlowError unit :=
  if String.prefix "OPERATOR_TAKE_TX_" tx_name then
    l ← flow_ids (matches_accept_pegin_pid program_id);
    complete_step_if (head l) (DataOperatorTakeTransactionInfo (compute_txid transaction))
  else mret tt.

Definition handle_variable (var_name data : string) : SR P FlowError unit :=
  if bool_decide (var_name = "funds_advance_spv") then
    spv_data ← required "json" (parse_funds_advance_spv data); handle_advance_funds_spv spv_data
  else if bool_decide (var_name = "union_spv_notification") then
    notification ← required "json" (parse_union_spv_notification data); handle_union_spv_notification notification
  else mret tt.

Definition process_new_bitvmx_event (event : OutgoingBitVMXApiMessages) : SR P FlowError unit :=
  _ ← cleanup_terminal_flows;
  _ ← match event with
      | MsgSetupCompleted program_id =>
          found ← flow_by_program program_id; complete_step_if found DataSetupCompleted
      | MsgCommInfo _ comm_info =>
          waiting ← flow_ids is_waiting_comm_info;
          for_each waiting (fun id => complete_flow_step id (DataCommInfo comm_info))
      | MsgTransactionInfo program_id tx_name transaction => handle_transaction_info program_id tx_name transaction
      | MsgVariableString _ var_name data => handle_variable var_name data
      | _ => mret tt
      end;
  persist_processor_state.

(** The events that need confirmations, with their identifiers. *)
Definition managed_event (event : RskPegManagerEvents) : option (string * bool * BlockNumber) :=
  match event with
  | Events.PegoutRequested e =>
      Some ("advance-funds-pegout-requested-" +:+ hash_to_string (ev_tx_hash e), ev_removed e, ev_block_number e)
  | Events.OperatorTakeTriggered e =>
      Some ("operator-take-triggered-" +:+ hash_to_string (ev_tx_hash e), ev_removed e, ev_block_number e)
  | Events.AdvanceFundsRegistered e =>
      Some ("advance-funds-registered-" +:+ hash_to_string (ev_tx_hash e), ev_removed e, ev_block_number e)
  | Events.ReimbursementKickoffRegistered e =>
      Some ("reimbursement-kickoff-registered-" +:+ hash_to_string (ev_tx_hash e), ev_removed e, ev_block_number e)
  | Events.PegoutRegistered e =>
      Some ("advance-funds-pegout-registered-" +:+ hash_to_string (ev_tx_hash e), ev_removed e, ev_block_number e)
  | _ => None
  end.

(** Registrations that no flow waits for are ignored. *)
Definition concerns_flow (event : RskPegManagerEvents) : SR P FlowError bool :=
  match event with
  | Events.AdvanceFundsRegistered e =>
      found ← find_flow_for_pegout_id (afe_pegoutId (ev_inner e)); mret (bool_decide (is_Some found))
  | Events.ReimbursementKickoffRegistered e =>
      found ← find_flow_for_pegout_id (kr_pegoutId (ev_inner e)); mret (bool_decide (is_Some found))
  | Events.PegoutRegistered e =>
      found ← find_flow_by_committee_slot (pg_committeeId (ev_inner e)) (pg_slotId (ev_inner e));
      mret (bool_decide (is_Some found))
  | _ => mret true
  end.

Definition process_new_rsk_event (event : RskPegManagerEvents) : SR P FlowError unit :=
  _ ← cleanup_terminal_flows;
  if required_confirmations cfg =? 0 then
    _ ← process_confirmed_rsk_event event; persist_processor_state
  else
    concerns ← concerns_flow event;
    if negb concerns then mret tt else
    match managed_event event with
    | None => mret tt
    | Some (id, is_removal, block_num) =>
        _ ← (if (is_removal : bool) then _ ← on_confirmer (stop_confirming_event id); mret tt
             else on_confirmer (confirm_event "Starting confirming advance funds event" id
                                  (required_confirmations cfg) block_num event));
        persist_processor_state
    end.

Definition process_new_block (block : RskBlockAndUncles) : SR P FlowError unit :=
  _ ← cleanup_terminal_flows;
  _ ← process_block_confirmations block;
  _ ← handle_retry_tick;
  persist_processor_state.

(** The hashes stay. *)
Definition shutdown : SR P FlowError unit :=
  _ ← set_flows (fun _ => ∅);
  _ ← on_confirmer clear_confirmer;
  set_tables (set_retries clear_retries).

Definition active_flows (p : P) : list (bytes * Steps * option Z) :=
  (fun kv => (flow_id kv.2, step kv.2, created_at kv.2)) <$>
  filter (fun kv => is_terminal kv.2 = false) (shuffle (map_to_list (flows p))).

(** ** Starting *)

(** A processor over what the store holds. *)
Definition new_processor (disk : gmap bytes FlowContext) (saved : option AdvanceFundsProcessorState) (e : E) : P :=
  mkProcessor ∅ ∅ new_confirmer new_tables disk saved e [] [].

Definition apply_processor_state (st : AdvanceFundsProcessorState) : SR P FlowError unit :=
  match restore_confirmable_events (st_events_confirming st) with
  | (Err f, _) => sfail (from_failure f)
  | (Ok events, t) =>
      _ ← smodify (set_confirmer (mkConfirmer events t));
      set_tables (fun _ => mkTables (st_retries st) (restore_request_pegout_tx_hashes (st_request_pegout_tx_hashes st)))
  end.

Definition restore_processor_state : SR P FlowError unit :=
  _ ← on_services id load_processor_state;
  p ← sget;
  match disk_tables p with
  | Some st => apply_processor_state st
  | None => mret tt
  end.

(** [AdvanceFundsFlowProcessor::new] *)
Definition start : SR P FlowError unit :=
  _ ← expect "Failed to load operator-take flows from store" (on_services id load_flows);
  p ← sget;
  _ ← set_flows (fun _ => list_to_map ((fun s => (flow_id s, s)) <$> (shuffle (map_to_list (disk p))).*2));
  _ ← expect "Failed to load advance funds processor state from store" restore_processor_state;
  rearm_pending_retries.

(** ** Inputs, one at a time *)

Inductive Input :=
| InBlock (block : RskBlockAndUncles)
| InRskEvent (event : RskPegManagerEvents)
| InBitvmxEvent (event : OutgoingBitVMXApiMessages)
| InUserRequest (req : UserRequests)
| InShutdown.

Definition process (i : Input) : SR P FlowError unit :=
  match i with
  | InBlock block => process_new_block block
  | InRskEvent event => process_new_rsk_event event
  | InBitvmxEvent event => process_new_bitvmx_event event
  | InUserRequest req => process_user_request req
  | InShutdown => shutdown
  end.

End Processor.

(** ** Relations that every handler respects *)

Section Handled.
Context `{FlowCodecs, !CommitteeServices E, !AdvanceFundsServices E, !BridgeNode E, Sha256,
  CommitteePayloads, !JsonCodecs, HashOrder, !TakeProcessorServices (E := E)}
  (verifier : NativeBridgeVerifier) (cfg : Config).
Abbreviation P := (Processor FlowContext RskPegManagerEvents E Effect Tables AdvanceFundsProcessorState).

(** Data with which others are told something are left to each relation. *)
Definition ordinary (d : StepData) : bool :=
  match d with DataAdvanceFundsConfirmed _ | DataPegoutRegistered _ => false | _ => true end.

Class Handled (R : bool -> P -> P -> Prop) := {
  #[global] handled_frames :: Frames R;
  handled_complete k d : ordinary d = true -> every R (with_flow k (complete_step verifier d));
  handled_failed k : every R (with_flow k (mark_failed verifier));
  handled_retain : every R (set_flows (filter (fun kv => is_terminal kv.2 = false)));
  handled_delete k : every R (delete_stored delete_flow k);
  handled_persist : every R persist_processor_state
}.

Context (R : bool -> P -> P -> Prop) `{!Handled R}.
Hint Extern 0 (Handled _) => assumption : every.
Hint Resolve handled_complete handled_failed handled_retain handled_delete handled_persist : every.

Lemma every_span s : every R (enter_span s).
Proof. unfold enter_span. prove_every. Qed.
Lemma every_flow_ids pred : every R (flow_ids pred).
Proof. unfold flow_ids. prove_every. Qed.
Lemma take_every_try_u128 msg z : every R (try_u128 msg z).
Proof. unfold try_u128. prove_every. Qed.
Lemma every_schedule_retry id attempt : every R (schedule_retry cfg id attempt).
Proof. unfold schedule_retry. prove_every. Qed.
Hint Resolve every_span every_flow_ids take_every_try_u128 every_schedule_retry : every.

Lemma every_find target committee_id slot_id pegout_id :
  every R (flow_by_program target) /\ every R (find_flow_by_committee_slot committee_id slot_id) /\
  every R (find_flow_for_pegout_id pegout_id).
Proof. unfold flow_by_program, find_flow_by_committee_slot, find_flow_for_pegout_id. split_and!; prove_every. Qed.
Lemma every_by_program target : every R (flow_by_program target).
Proof. by destruct (every_find target 0 0 []). Qed.
Lemma every_by_slot committee_id slot_id : every R (find_flow_by_committee_slot committee_id slot_id).
Proof. by destruct (every_find [] committee_id slot_id []) as (_ & ? & _). Qed.
Lemma every_by_pegout pegout_id : every R (find_flow_for_pegout_id pegout_id).
Proof. by destruct (every_find [] 0 0 pegout_id) as (_ & _ & ?). Qed.
Hint Resolve every_by_program every_by_slot every_by_pegout : every.

(** One flow is handed data that the relation allows. *)
Lemma every_complete id d :
  every R (with_flow id (complete_step verifier d)) -> every R (complete_flow_step verifier cfg id d).
Proof. intros Hd. unfold complete_flow_step. prove_every. Qed.
Lemma every_complete_if found d :
  (forall id, every R (with_flow id (complete_step verifier d))) -> every R (complete_step_if verifier cfg found d).
Proof. intros Hd. pose proof (fun id => every_complete id d (Hd id)). unfold complete_step_if. prove_every. Qed.
Lemma every_ordinary id d : ordinary d = true -> every R (complete_flow_step verifier cfg id d).
Proof. intros Hd. by apply every_complete, handled_complete. Qed.
Lemma every_ordinary_if found d : ordinary d = true -> every R (complete_step_if verifier cfg found d).
Proof. intros Hd. apply every_complete_if. intros id. by apply handled_complete. Qed.
Hint Resolve every_ordinary every_ordinary_if : every.
Hint Extern 1 (ordinary _ = true) => reflexivity : every.

Lemma take_every_cleanup : every R cleanup_terminal_flows.
Proof. unfold cleanup_terminal_flows, cleanup_terminal_flow_state. prove_every. Qed.
Hint Resolve take_every_cleanup : every.

Lemma every_retry_tick : every R (handle_retry_tick verifier cfg).
Proof. unfold handle_retry_tick, retry_flow. prove_every. Qed.
Lemma every_rearm : every R (rearm_pending_retries cfg).
Proof. unfold rearm_pending_retries. prove_every. Qed.

Lemma take_every_user req : every R (process_user_request verifier req).
Proof. unfold process_user_request, fail_flow. prove_every. Qed.

Lemma every_variable name data : every R (handle_variable verifier cfg name data).
Proof.
  unfold handle_variable, handle_advance_funds_spv, handle_union_spv_notification,
    handle_reimbursement_kickoff_spv_notification, handle_operator_take_spv_notification, flow_by_committee_slot.
  prove_every.
Qed.
Hint Resolve every_variable : every.

Lemma take_every_bitvmx event : every R (process_new_bitvmx_event verifier cfg event).
Proof. unfold process_new_bitvmx_event, handle_transaction_info. prove_every. Qed.

Lemma every_concerns event : every R (concerns_flow event).
Proof. unfold concerns_flow. prove_every. Qed.
Hint Resolve every_concerns : every.

(** The flow of a peg-out is found and handed data. *)
Lemma every_found (m : SR P FlowError (option bytes)) d :
  every R m -> (forall id, every R (with_flow id (complete_step verifier d))) ->
  every R (found ← m; complete_step_if verifier cfg found d).
Proof. intros Hm Hd. apply every_bind; [apply _|done|intros found]. by apply every_complete_if. Qed.

Lemma take_every_confirmed event :
  (forall e, event = Events.OperatorTakeTriggered e -> every R (create_flow_for_operator_take_triggered verifier cfg e)) ->
  (forall e data k, event = Events.AdvanceFundsRegistered e -> advance_funds_registered_from_event (ev_inner e) = Ok data ->
     every R (with_flow k (complete_step verifier (DataAdvanceFundsConfirmed data)))) ->
  (forall e k, event = Events.PegoutRegistered e ->
     every R (with_flow k (complete_step verifier (DataPegoutRegistered (ev_inner e))))) ->
  every R (process_confirmed_rsk_event verifier cfg event).
Proof.
  intros Htrig Hadv Hreg. unfold process_confirmed_rsk_event.
  apply every_bind; [apply _| |intros; apply take_every_cleanup].
  destruct event; cbn [handle_confirmed]; try apply every_ret; try apply _.
  - apply every_found; [apply every_by_slot|]. intros. by apply Hreg.
  - apply every_bind; [apply _|apply take_every_try_u128|intros z; apply every_set_tables; apply _].
  - by apply Htrig.
  - destruct (advance_funds_registered_from_event (ev_inner e)) as [data|x] eqn:Hd; [|intros p; apply composes_refl].
    change (every R (found ← find_flow_for_pegout_id (afe_pegoutId (ev_inner e));
      complete_step_if verifier cfg found (DataAdvanceFundsConfirmed data))). apply every_found; [apply every_by_pegout|]. intros. by eapply Hadv.
  - apply every_found; [apply every_by_pegout|]. intros. by apply handled_complete.
Qed.

Lemma take_every_rsk event :
  (required_confirmations cfg = 0 -> every R (process_confirmed_rsk_event verifier cfg event)) ->
  (forall id, every R (on_confirmer (stop_confirming_event id))) ->
  (forall id removed n, managed_event event = Some (id, removed, n) ->
     every R (on_confirmer (confirm_event "Starting confirming advance funds event" id (required_confirmations cfg) n event))) ->
  every R (process_new_rsk_event verifier cfg event).
Proof.
  intros Hnow Hstop Hconfirm. unfold process_new_rsk_event. apply every_bind; [apply _|prove_every|intros []].
  destruct (Z.eqb_spec (required_confirmations cfg) 0) as [Hz|_]; [specialize (Hnow Hz); prove_every|].
  destruct (managed_event event) as [[[id removed] n]|] eqn:Hi; [|prove_every].
  specialize (Hconfirm id removed n eq_refl). prove_every.
Qed.

End Handled.

Section NewBlock.
Context `{FlowCodecs, !CommitteeServices E, !AdvanceFundsServices E, !BridgeNode E, Sha256,
  CommitteePayloads, !JsonCodecs, HashOrder, !TakeProcessorServices (E := E)}
  (verifier : NativeBridgeVerifier) (cfg : Config).
Abbreviation P := (Processor FlowContext RskPegManagerEvents E Effect Tables AdvanceFundsProcessorState).

#[export] Instance take_same_confirmer : Handled verifier (same_confirmer (X := Effect) (E := E)).
Proof. split; intros; unfold persist_processor_state; try apply _; auto with every. Qed.

Lemma create_take_rule (R : bool -> P -> P -> Prop) `{!Handled verifier R} e :
  (forall hash data (env : E) now, im_member (ot_committeeId (ev_inner e)) env = true ->
     try_from_event (ev_inner e) hash = Ok data ->
     let id := flow_id_from_operator_take_triggered_tx_hash (ev_tx_hash e) in
     every R (set_flows (<[id := state (new_flow id data now env [])]>))) ->
  every R (create_flow_for_operator_take_triggered verifier cfg e).
Proof.
  intros Hf. unfold create_flow_for_operator_take_triggered. intros p.
  rewrite SR_bind_run with (a := request_pegout_tx_hashes (tables p)) (s' := p) by done.
  set (hash := request_pegout_tx_hashes (tables p) !! _).
  destruct (try_from_event (ev_inner e) hash) as [data|x] eqn:Hd; [|apply composes_refl].
  rewrite SR_bind_run with (a := data) (s' := p) by done. rewrite SR_bind_run with (a := p) (s' := p) by done.
  assert (Hc : td_committee_id data = ot_committeeId (ev_inner e)).
  { unfold try_from_event in Hd. apply result_bind_ok in Hd as (i & _ & Hd). apply result_bind_ok in Hd as (u & _ & Hd).
    apply result_bind_ok in Hd as (k & _ & Hd). by injection Hd as <-. }
  rewrite Hc. destruct (im_member (ot_committeeId (ev_inner e)) (penv p)) eqn:Hmem; cbn [negb]; [|apply composes_refl].
  specialize (Hf hash data (penv p) (utc_now (penv p)) Hmem Hd). cbn zeta in Hf. cbn zeta.
  set (id := flow_id_from_operator_take_triggered_tx_hash (ev_tx_hash e)) in *.
  assert (Hrest : every R (existing ← lookup_flow id;
    match existing with
    | Some _ => flow_bail "Advance funds flow already exists"
    | None => _ ← enter_span (state (new_flow id data (utc_now (penv p)) (penv p) []));
              _ ← set_flows (<[id := state (new_flow id data (utc_now (penv p)) (penv p) [])]>);
              complete_flow_step verifier cfg id DataOperatorTakeTriggered
    end)); [|apply Hrest].
  pose proof (every_span verifier R). pose proof (every_ordinary verifier cfg R id DataOperatorTakeTriggered eq_refl).
  prove_every.
Qed.

Lemma take_new_block_rule (R : bool -> P -> P -> Prop) `{!Handled verifier R} block p :
  every R (on_confirmer (on_tracker (update block))) ->
  (forall id, every R (on_confirmer (stop_confirming_event id))) ->
  (forall c1 key e, on_tracker (update block) (confirmer p) = (Ok tt, c1) ->
     events_confirming c1 !! key = Some e -> is_confirmed (confirmation e) (blockchain_view c1) = true ->
     every R (process_confirmed_rsk_event verifier cfg (event_data e))) ->
  let m := process_new_block verifier cfg block in R (panicked (fst (m p))) p (snd (m p)).
Proof.
  intros Hupd Hstop Hev m. unfold m, process_new_block.
  pose proof (take_every_cleanup verifier R p) as HR. pose proof (take_every_cleanup verifier same_confirmer p) as Hc.
  unfold same_confirmer in Hc. destruct (cleanup_terminal_flows p) as [[[]|x] p1] eqn:Hb; cbn in HR, Hc.
  2: { by rewrite (SR_bind_err _ _ _ _ _ Hb). }
  rewrite (SR_bind_run _ _ _ _ _ Hb). eapply composes_trans; [exact HR|].
  assert (Hconf : R (panicked (fst (confirm_block block (process_confirmed_rsk_event verifier cfg) p1))) p1
    (snd (confirm_block block (process_confirmed_rsk_event verifier cfg) p1))).
  { apply (confirm_block_rule R); [done| |done|by rewrite Hc].
    intros d. apply (take_every_confirmed verifier cfg same_confirmer); intros; [|auto with every..].
    apply (create_take_rule same_confirmer). intros. auto with every. }
  assert (Hrest : forall had : bool, every R (_ ← (if had then cleanup_terminal_flows else mret tt);
    _ ← handle_retry_tick verifier cfg; persist_processor_state)).
  { intros had. pose proof (take_every_cleanup verifier R). pose proof (every_retry_tick verifier cfg R).
    pose proof handled_persist. prove_every. }
  unfold process_block_confirmations. rewrite SR_bind_assoc.
  destruct (confirm_block _ _ p1) as [[had|x] p2] eqn:Hcb; cbn in Hconf.
  - rewrite (SR_bind_run _ _ _ _ _ Hcb). eapply composes_trans; [exact Hconf|apply Hrest].
  - by rewrite (SR_bind_err _ _ _ _ _ Hcb).
Qed.

End NewBlock.

(** ** The invariant of the processor *)

Section Invariant.
Context `{FlowCodecs, !CommitteeServices E, !AdvanceFundsServices E, !BridgeNode E, Sha256,
  CommitteePayloads, !JsonCodecs, HashOrder, !TakeProcessorServices (E := E)}
  (verifier : NativeBridgeVerifier) (cfg : Config).
Abbreviation P := (Processor FlowContext RskPegManagerEvents E Effect Tables AdvanceFundsProcessorState).
Abbreviation flow_ok := (state_ok (E := E)).
Abbreviation take_memory_ok :=
  (memory_ok (N := AdvanceFundsProcessorState) flow_ok managed_event (required_confirmations cfg)).
Abbreviation take_store_ok := (store_ok flow_ok managed_event (required_confirmations cfg) st_events_confirming).
Abbreviation inv := (inv flow_ok managed_event (required_confirmations cfg) st_events_confirming
  (S := FlowContext) (E := E) (X := Effect) (Q := Tables)).

Lemma complete_step_behaves d : well_behaved flow_ok (complete_step (E := E) verifier d).
Proof.
  intros w Hok Hv. pose proof (complete_step_run verifier d w Hok) as Hc.
  destruct (complete_step verifier d w) as [r w'] eqn:Hr.
  pose proof (completed_same d w r w' Hc) as Hsame. cbn.
  destruct r as [[| |reason]|[causes|msg]]; cbn in *.
  - destruct Hc as (n & _ & _ & Hok' & Hv' & _ & Ht & Hi). split; [done|]. right. by exists (state w').
  - destruct Hc as [_ ->]. split; [done|by left].
  - destruct Hc as (n & _ & _ & Hok' & Hv' & _ & Ht & Hi). split; [done|]. right. by exists (state w').
  - destruct Hc as (_ & Hok' & -> & _ & Hi). split; [done|by left].
  - rewrite Hc. split; [done|by left].
Qed.

Lemma mark_failed_behaves : well_behaved flow_ok (mark_failed (E := E) verifier).
Proof.
  intros w Hok Hv. pose proof (mark_failed_started verifier w Hok) as Hc.
  destruct (mark_failed verifier w) as [[[]|[causes|msg]] w'] eqn:Hr; cbn in *.
  - destruct Hc as (_ & Hok' & Hv' & _ & Hi). split; [done|]. right. by exists (state w').
  - destruct Hc as (Hst & -> & _ & Hi). split; [|by left]. intros _. split; [|done]. by destruct Hst as [-> |[_ ?]].
  - rewrite Hc. split; [done|by left].
Qed.

Lemma new_take_ok id data now (env : E) : flow_ok (state (new_flow id data now env [])).
Proof. split_and!; [by split| |done]. unfold step_ok. cbn. by destruct (was_selected_operator _). Qed.

#[export] Instance take_inv_handled : Handled verifier inv.
Proof.
  split; intros; [apply _|apply inv_with_flow..|apply inv_retain|apply inv_delete_stored|by apply inv_save_tables];
    auto using complete_step_behaves, mark_failed_behaves.
Qed.

Lemma take_inv_create event : every inv (create_flow_for_operator_take_triggered verifier cfg event).
Proof.
  apply (create_take_rule verifier cfg inv). intros hash data env now _ _ id p. apply inv_set_flows.
  intros Hfl. apply filed_insert; [done|done|apply new_take_ok].
Qed.

Lemma take_inv_confirmed event : every inv (process_confirmed_rsk_event verifier cfg event).
Proof.
  apply (take_every_confirmed verifier cfg inv); intros;
    [apply take_inv_create|apply inv_with_flow, complete_step_behaves..].
Qed.

Lemma take_inv_shutdown : every inv shutdown.
Proof.
  unfold shutdown. apply every_bind; [apply _|intros p; apply inv_set_flows; intros _; apply filed_empty|intros []].
  apply every_bind; [apply _|apply inv_clear|]. prove_every.
Qed.

(** Blocks have numbers below the last one of 64 bits. *)
Definition input_ok (i : Input) : Prop :=
  match i with InBlock block => 0 <= bu_number block < 2 ^ 64 - 1 | _ => True end.

Lemma take_inv_process i p :
  input_ok i -> let m := process verifier cfg i in inv (panicked (fst (m p))) p (snd (m p)).
Proof.
  intros Hi. destruct i as [block|event|event|req|]; cbn [process].
  - apply (take_new_block_rule verifier cfg inv); [by apply inv_update|apply inv_stop|].
    intros. apply take_inv_confirmed.
  - apply (take_every_rsk verifier cfg inv); [intros; apply take_inv_confirmed|apply inv_stop|].
    intros id rm n. apply inv_confirm.
  - apply (take_every_bitvmx verifier cfg inv).
  - apply (take_every_user verifier inv).
  - apply take_inv_shutdown.
Qed.

(** *** Starting from the store *)

(** The stored events can be restored, so the stored state applies. *)
Lemma take_apply st (p : P) :
  disk_tables p = Some st -> take_store_ok p ->
  exists p' : P, apply_processor_state st p = (Ok tt, p') /\ flows p' = flows p /\ confirmer_ok managed_event
    (required_confirmations cfg) (confirmer p') /\ disk p' = disk p /\ disk_tables p' = disk_tables p /\
    tables p' = mkTables (st_retries st) (restore_request_pegout_tx_hashes (st_request_pegout_tx_hashes st)).
Proof.
  intros Hst [_ Ht]. destruct (restore_confirmer _ _ _ (Ht _ Hst)) as (es & t & Hr & Hok).
  unfold apply_processor_state. rewrite Hr. eexists. split; [done|]. by cbn.
Qed.

Lemma take_inv_restore : every inv restore_processor_state.
Proof.
  apply every_bind; [apply _|apply (every_on_services inv)|intros _]. apply (every_get_bind inv). intros p Hm Hs.
  destruct (disk_tables p) as [st|] eqn:Hst; [|done].
  destruct (take_apply st p Hst Hs) as (p2 & Hr2 & Hfl & Hc & Hd2 & Ht2 & _). rewrite Hr2. cbn.
  destruct Hm, Hs. split; [intros _; split; [by rewrite Hfl|done]|split; [by rewrite Hd2|by rewrite Ht2]].
Qed.

Lemma take_inv_start : every inv (start cfg).
Proof.
  unfold start. apply every_bind; [apply _|apply (every_expect_services inv)|intros _].
  intros p. apply (leads_bind inv); [apply (every_sget inv)|]. intros p' p'' [= <- <-].
  apply (leads_bind inv); [intros Hm Hs; apply inv_set_flows; [intros _; apply (filed_restored flow_ok), Hs|done..]|].
  intros _ p1 _. apply (leads_bind inv).
  - apply leads_expect; [|apply take_inv_restore]. intros p2 p3 Hi Hm Hs. by destruct (Hi Hm Hs).
  - intros u p2 _. assert (Hrest : every inv (rearm_pending_retries cfg)) by (apply (every_rearm verifier); apply _). apply Hrest.
Qed.

(** *** Runs of the process

    As for peg-outs: the flag tells that the process is not running, the list is its past. *)
Inductive reachable : bool -> list (Past P Input) -> P -> Prop :=
| R_empty e : reachable true [] (new_processor ∅ None e)
| R_start b past p e :
    reachable b past p ->
    let r := start cfg (new_processor (disk p) (disk_tables p) e) in
    reachable (negb (is_ok (fst r))) (past ++ [Started]) (snd r)
| R_env past p e : reachable false past p -> reachable false past (set_env e p)
| R_input past p i :
    reachable false past p -> input_ok i ->
    let r := process verifier cfg i p in reachable (panicked (fst r)) (past ++ [Took p i]) (snd r).

Lemma take_reachable_ok b past p : reachable b past p -> (b = false -> take_memory_ok p) /\ take_store_ok p.
Proof.
  induction 1 as [e|b past p e Hp [_ [Hd Ht]]|past p e Hp [Hm Hs]|past p i Hp [Hm Hs] Hi].
  - split; [done|]. split; [apply filed_empty|done].
  - assert (Hnew : take_memory_ok (new_processor (disk p) (disk_tables p) e))
      by (split; [apply filed_empty|apply confirmer_ok_new]).
    destruct (take_inv_start (new_processor (disk p) (disk_tables p) e)) as [Hm Hs]; [done|by split|].
    split; [|done]. intros Hb. apply Hm. unfold r in *. by destruct (fst _).
  - split; [intros _; destruct (Hm eq_refl); by split|destruct Hs; by split].
  - destruct (take_inv_process i p Hi) as [Hm' Hs']; auto.
Qed.

End Invariant.

(** ** What the processor does on its own account *)

Section Actions.
Context `{FlowCodecs, !CommitteeServices E, !AdvanceFundsServices E, !BridgeNode E, Sha256,
  CommitteePayloads, !JsonCodecs, HashOrder, !TakeProcessorServices (E := E)}
  (verifier : NativeBridgeVerifier) (cfg : Config).
Abbreviation P := (Processor FlowContext RskPegManagerEvents E Effect Tables AdvanceFundsProcessorState).

Lemma take_acts_handled A B :
  (forall x, ~ notable x -> A x) ->
  Handled verifier (acts A B (S := FlowContext) (D := RskPegManagerEvents) (E := E) (Q := Tables)
    (N := AdvanceFundsProcessorState)).
Proof.
  intros HA. split; intros; [apply _|apply acts_with_flow..|apply acts_retain|apply acts_delete_stored|apply acts_save_tables].
  - apply take_adds_complete_step; [done|by intros data ->|by intros r id c ->].
  - by apply adds_mark_failed.
Qed.

Definition final (p : P) (i : Input) (event : RskPegManagerEvents) : Prop :=
  exists block, i = InBlock block /\ Processor.final managed_event (required_confirmations cfg) p block event.

(** What an effect and a new flow need. *)
Definition effect_backed (p : P) (i : Input) (x : Effect) : Prop :=
  match x with
  | Sent (SetVarAdvanceFundsRegistered _ _ data) => exists e, final p i (Events.AdvanceFundsRegistered e) /\
      advance_funds_registered_from_event (ev_inner e) = Ok data
  | Marked _ _ => exists e, final p i (Events.PegoutRegistered e)
  | _ => True
  end.
Definition flow_backed (p : P) (i : Input) (k : bytes) : Prop :=
  exists e (env : E), final p i (Events.OperatorTakeTriggered e) /\ im_member (ot_committeeId (ev_inner e)) env = true /\
    k = flow_id_from_operator_take_triggered_tx_hash (ev_tx_hash e).

Lemma take_acts_process (p : P) i :
  confirmer_ok managed_event (required_confirmations cfg) (confirmer p) -> input_ok i ->
  required_confirmations cfg <> 0 ->
  acts (effect_backed p i) (flow_backed p i) (panicked (fst (process verifier cfg i p))) p
    (snd (process verifier cfg i p)).
Proof.
  intros Hok Hi Hreq. set (A := effect_backed p i). set (B := flow_backed p i).
  assert (HA : forall x, ~ notable x -> A x)
    by (intros [[]| |] Hx; cbn in *; try done; by destruct Hx).
  pose proof (take_acts_handled A B HA) as Hh. destruct i as [block|event|event|req|]; cbn [process].
  - apply (take_new_block_rule verifier cfg (acts A B)); [apply acts_on_confirmer|intros; apply acts_on_confirmer|].
    intros c key e Hu He Hc. pose proof (confirmed_final _ _ p block c key e Hok Hi Hu He Hc) as Hf.
    apply (take_every_confirmed verifier cfg (acts A B)).
    + intros ev Hev. rewrite Hev in Hf. apply (create_take_rule verifier cfg (acts A B)).
      intros hash data env now Hmem _ id. apply acts_insert. exists ev, env. split; [by exists block|done].
    + intros ev data k Hev Hd. rewrite Hev in Hf. apply acts_with_flow, take_adds_complete_step; [done| |done].
      intros data' [= <-]. exists ev. split; [by exists block|done].
    + intros ev k Hev. rewrite Hev in Hf. apply acts_with_flow, take_adds_complete_step; [done|done|].
      intros r id c0 _. exists ev. by exists block.
  - apply (take_every_rsk verifier cfg (acts A B)); [done|intros; apply acts_on_confirmer..].
  - apply (take_every_bitvmx verifier cfg (acts A B)).
  - apply (take_every_user verifier (acts A B)).
  - unfold shutdown. apply (every_bind (acts A B)); [apply acts_clear|intros []].
    apply every_bind; [apply _|apply acts_on_confirmer|]. intros. apply every_set_tables, _.
Qed.

End Actions.

(** ** Restart *)

Section Restart.
Context `{FlowCodecs, !CommitteeServices E, !AdvanceFundsServices E, !BridgeNode E, Sha256,
  CommitteePayloads, !JsonCodecs, HashOrder, !TakeProcessorServices (E := E)} (cfg : Config).
Abbreviation P := (Processor FlowContext RskPegManagerEvents E Effect Tables AdvanceFundsProcessorState).

(** Committee ids have 128 bits. *)
Definition hashes_ok (m : gmap (Z * Z) string) : Prop := forall k h, m !! k = Some h -> uint 128 k.1.

Lemma restore_snapshot_hashes m :
  hashes_ok m -> restore_request_pegout_tx_hashes (snapshot_request_pegout_tx_hashes m) = m.
Proof.
  intros Hm. unfold restore_request_pegout_tx_hashes, snapshot_request_pegout_tx_hashes.
  rewrite <- (list_to_map_to_list m) at 2. set (f := fun entry : RequestPegoutTxHashEntry => _).
  set (g := fun kv : Z * Z * string => _).
  assert (Hfg : f <$> (g <$> map_to_list m) = map_to_list m).
  { rewrite <- list_fmap_compose. apply fmap_id_on.
    intros [[c s] h] Hin. apply elem_of_map_to_list, Hm in Hin. unfold f, g, uuid_from_u128, compose.
    cbn [he_committee_id he_slot_id he_tx_hash fst snd] in *. rewrite from_be_be_bytes, Z.mod_small; [done|]. unfold uint in Hin. lia. }
  assert (Hp : f <$> merge_sort entry_le (g <$> map_to_list m) ≡ₚ map_to_list m)
    by (by rewrite merge_sort_Permutation, Hfg).
  apply list_to_map_proper; [|done]. rewrite Hp. apply NoDup_fst_map_to_list.
Qed.

Lemma rearm_run (l : list bytes) (p : P) :
  exists p', for_each l (fun id => schedule_retry cfg id 1) p = (Ok tt, p') /\ flows p' = flows p /\
    request_pegout_tx_hashes (tables p') = request_pegout_tx_hashes (tables p) /\
    forall k, let t := retries (tables p) in let t' := retries (tables p') in
      attempts t' !! k = (if decide (k ∈ l) then Some 1 else attempts t !! k) /\
      pending (scheduler t') !! k =
        (if decide (k ∈ l) then Some (btc_status_retry_blocks cfg) else pending (scheduler t) !! k).
Proof.
  revert p. induction l as [|id l IH]; intros p; cbn [for_each].
  - exists p. split_and!; [done..|]. intros k. by rewrite decide_False by set_solver.
  - rewrite SR_bind_run with (a := tt) (s' := snd (schedule_retry cfg id 1 p)) by done.
    destruct (IH (snd (schedule_retry cfg id 1 p))) as (p' & Hr & Hf & Hh & Hk). exists p'.
    split_and!; [done..|]. intros k. destruct (Hk k) as [-> ->]. cbn.
    destruct (decide (k ∈ l)); [by rewrite !decide_True by set_solver|]. destruct (decide (k = id)) as [->|].
    + by rewrite !lookup_insert_eq, !decide_True by set_solver.
    + by rewrite !lookup_insert_ne, !decide_False by set_solver.
Qed.

(** The retries that a start adds. *)
Definition rearmed (r : @RetryTracker bytes _ _) (s : FlowContext) : bool :=
  pending_retry s && (current_attempt (flow_id s) r =? 0).

Lemma rearm_flows_run (p : P) :
  filed (state_ok (E := E)) (flows p) ->
  exists p', rearm_pending_retries cfg p = (Ok tt, p') /\ flows p' = flows p /\
    request_pegout_tx_hashes (tables p') = request_pegout_tx_hashes (tables p) /\
    forall k s, flows p !! k = Some s -> let t := retries (tables p) in let t' := retries (tables p') in
      attempts t' !! k = (if rearmed t s then Some 1 else attempts t !! k) /\
      pending (scheduler t') !! k =
        (if rearmed t s then Some (btc_status_retry_blocks cfg) else pending (scheduler t) !! k).
Proof.
  intros Hfl. unfold rearm_pending_retries. rewrite SR_bind_run with (a := p) (s' := p) by done. cbn zeta.
  set (l := filter _ _). destruct (rearm_run l p) as (p' & Hr & Hf & Hh & Hk). exists p'. split_and!; [done..|].
  intros k s Hs. destruct (Hk k) as [-> ->]. destruct (Hfl _ _ Hs) as [Hid _].
  assert (Hl : k ∈ l <-> rearmed (retries (tables p)) s = true).
  { unfold l, rearmed. rewrite list_elem_of_filter, andb_true_iff, Z.eqb_eq. unfold filed_under, take_filed in Hid.
    rewrite Hid. rewrite list_elem_of_fmap. split.
    - intros [Ha (s' & -> & Hin)]. split; [|done]. apply list_elem_of_fmap in Hin as ([k' s0] & -> & Hin).
      apply list_elem_of_filter in Hin as [Hp Hin]. rewrite shuffle_perm in Hin. apply elem_of_map_to_list in Hin.
      destruct (Hfl _ _ Hin) as [Hid' _]. unfold filed_under, take_filed in Hid'. cbn in *. congruence.
    - intros [Hp Ha]. split; [done|]. exists s. split; [done|]. apply list_elem_of_fmap. exists (k, s). split; [done|].
      apply list_elem_of_filter. split; [done|]. rewrite shuffle_perm. by apply elem_of_map_to_list. }
  destruct (rearmed (retries (tables p)) s).
  - by rewrite !decide_True by by apply Hl.
  - by rewrite !decide_False by (intros ?%Hl; done).
Qed.

(** What a start reads *)
Definition load_all : SR E FlowError unit := _ ← load_flows; load_processor_state.

Lemma start_run (p : P) :
  filed (state_ok (E := E)) (disk p) ->
  store_ok (state_ok (E := E)) managed_event (required_confirmations cfg) st_events_confirming p ->
  let t := match disk_tables p with
    | Some st => mkTables (st_retries st) (restore_request_pegout_tx_hashes (st_request_pegout_tx_hashes st))
    | None => tables p
    end in
  if is_ok (load_all (penv p)).1 then
    exists p', start cfg p = (Ok tt, p') /\ flows p' = disk p /\
    request_pegout_tx_hashes (tables p') = request_pegout_tx_hashes t /\
    forall k s, disk p !! k = Some s -> let t' := retries (tables p') in
      attempts t' !! k = (if rearmed (retries t) s then Some 1 else attempts (retries t) !! k) /\
      pending (scheduler t') !! k = (if rearmed (retries t) s then Some (btc_status_retry_blocks cfg)
                                     else pending (scheduler (retries t)) !! k)
  else exists msg p', start cfg p = (Err (FlowPanic msg), p').
Proof.
  intros Hd Hs t. unfold start, load_all.
  pose proof (expect_services "Failed to load operator-take flows from store" load_flows p) as H1'.
  destruct (load_flows (penv p)) as [[u|x] e1] eqn:Hl1.
  2: { rewrite (SR_bind_err _ _ _ _ _ Hl1). cbn. destruct x; rewrite (SR_bind_err _ _ _ _ _ H1'); eauto. }
  rewrite (SR_bind_run _ _ _ _ _ Hl1), (SR_bind_run _ _ _ _ _ H1'). set (p0 := set_env e1 p).
  rewrite SR_bind_run with (a := p0) (s' := p0) by done.
  set (f := fun _ => list_to_map _). set (p1 := snd (set_flows f p0)).
  rewrite SR_bind_run with (a := tt) (s' := p1) by done.
  assert (Hf1 : flows p1 = disk p) by apply (restored_flows (state_ok (E := E)) (disk p) Hd).
  pose proof (on_services_run load_processor_state p1) as H2'. change (penv p1) with e1 in H2'.
  destruct (load_processor_state e1) as [[u'|x] e2].
  2: { cbn. destruct (expect_err "Failed to load advance funds processor state from store" restore_processor_state p1 x
         (set_env e2 p1)) as [msg Hx]; [by unfold restore_processor_state; rewrite (SR_bind_err _ _ _ _ _ H2')|].
       rewrite (SR_bind_err _ _ _ _ _ Hx). eauto. }
  set (p2 := set_env e2 p1) in H2'.
  assert (Hs2 : store_ok (state_ok (E := E)) managed_event (required_confirmations cfg) st_events_confirming p2)
    by (destruct Hs; by split).
  assert (Happ : exists p3, match disk_tables p2 with Some st => apply_processor_state st | None => mret tt end p2 = (Ok tt, p3) /\
    flows p3 = disk p /\ tables p3 = t).
  { unfold t. change (disk_tables p) with (disk_tables p2). destruct (disk_tables p2) as [st|] eqn:Hst; [|by exists p2].
    destruct (take_apply cfg st p2 Hst Hs2) as (p3 & -> & Hfl & _ & _ & _ & Ht). exists p3. by rewrite Hfl. }
  destruct Happ as (p3 & Happ & Hf3 & Ht3). cbn [fst is_ok].
  rewrite SR_bind_run with (a := tt) (s' := p3).
  2: { apply expect_ok. unfold restore_processor_state. by rewrite (SR_bind_run _ _ _ _ _ H2'). }
  destruct (rearm_flows_run p3) as (p' & Hr' & Hf' & Hh & Hk); [by rewrite Hf3|].
  exists p'. rewrite Hf', Hf3, Hh, Ht3. split_and!; [done..|]. intros k s Hks. rewrite <- Ht3. apply Hk. by rewrite Hf3.
Qed.

End Restart.

(** ** What the processor guarantees *)

Section Guarantees.
Context `{FlowCodecs, !CommitteeServices E, !AdvanceFundsServices E, !BridgeNode E, Sha256,
  CommitteePayloads, !JsonCodecs, HashOrder, !TakeProcessorServices (E := E)}.
Abbreviation P := (Processor FlowContext RskPegManagerEvents E Effect Tables AdvanceFundsProcessorState).

(** The advance-funds processor keeps its books in order.  Through any number
    of inputs, failures, panics and restarts, every advance in memory and in the
    store is filed under its own identifier and in a well-formed state, and every
    event that awaits confirmations, in memory or in the store, is filed under its
    name and counts from its own block. *)
Theorem take_processor_invariant verifier cfg (b : bool) past (p : P) :
  reachable verifier cfg b past p ->
  (b = false -> memory_ok (state_ok (E := E)) managed_event (required_confirmations cfg) p) /\
  store_ok (state_ok (E := E)) managed_event (required_confirmations cfg) st_events_confirming p.
Proof. apply take_reachable_ok. Qed.

(** The advance-funds processor acts on final events only.  With a required
    number of confirmations other than zero, it tells BitVMX that an advance is
    registered only with the data of a registration, marks an advance as finished
    only on a registration of the peg-out, and files a new advance only for a
    trigger of a committee of this node; each of these events was waiting and is
    buried under the required number of blocks with this very input. *)
Theorem take_acts_on_final_events verifier cfg past (p : P) i :
  reachable verifier cfg false past p -> input_ok i -> required_confirmations cfg <> 0 ->
  let p' := snd (process verifier cfg i p) in
  (exists l, ptrace p' = ptrace p ++ l /\ Forall (effect_backed cfg p i) l) /\
  (forall k, is_Some (flows p' !! k) -> is_Some (flows p !! k) \/ flow_backed cfg p i k).
Proof.
  intros Hp Hi Hreq. destruct (take_reachable_ok _ _ _ _ _ Hp) as [Hm _].
  exact (take_acts_process verifier cfg p i (mem_events _ _ _ _ (Hm eq_refl)) Hi Hreq).
Qed.

(** C18: A restart takes the advances up where they were saved.  When the state of
    a running processor was saved, a start over its store panics exactly if the flows
    or the state cannot be read.  Otherwise the advances are those of the store, the
    hashes of the requests are the saved ones, a saved retry keeps its attempt and its
    delay, and an advance that is parked without one gets a first attempt; so every
    parked advance will be retried. *)
Theorem take_restart_resumes verifier cfg past (p p1 : P) (e : E) :
  reachable verifier cfg false past p -> hashes_ok (request_pegout_tx_hashes (tables p)) ->
  persist_processor_state p = (Ok tt, p1) ->
  let '(r, p') := start cfg (new_processor (disk p1) (disk_tables p1) e) in
  match r with
  | Err x => (exists msg, x = FlowPanic msg) /\ is_ok (load_all e).1 = false
  | Ok _ => is_ok (load_all e).1 = true /\ flows p' = disk p /\
    request_pegout_tx_hashes (tables p') = request_pegout_tx_hashes (tables p) /\
    forall k s, flows p' !! k = Some s ->
      let t := retries (tables p) in let t' := retries (tables p') in
      attempts t' !! k = (if rearmed t s then Some 1 else attempts t !! k) /\
      pending (scheduler t') !! k = (if rearmed t s then Some (btc_status_retry_blocks cfg)
                                     else pending (scheduler t) !! k) /\
      (pending_retry s = true -> current_attempt k t' <> 0)
  end.
Proof.
  intros Hp Hh Hr. destruct (take_reachable_ok _ _ _ _ _ Hp) as [Hm Hs]. specialize (Hm eq_refl).
  destruct (inv_save_tables (state_ok (E := E)) managed_event (required_confirmations cfg) st_events_confirming
    save_processor_state snapshot_processor_state (fun _ => eq_refl) p Hm Hs) as [_ Hs1].
  change (save_tables _ _) with (persist_processor_state (E := E)) in Hs1. rewrite Hr in Hs1.
  unfold persist_processor_state, save_tables, on_services, mbind, SR_bind in Hr. cbn in Hr.
  destruct (save_processor_state _ (penv p)) as [[u|x] e']; [|discriminate Hr]. injection Hr as <-.
  cbn [disk disk_tables snd] in *.
  pose proof (start_run cfg (new_processor (disk p) (Some (snapshot_processor_state p)) e)) as Hst.
  cbn [penv new_processor] in Hst. destruct (is_ok (load_all e).1).
  2: { destruct Hst as (msg & p' & ->); [apply Hs1|destruct Hs1 as [Hd Ht]; by split|]. split; [by exists msg|done]. }
  destruct Hst as (p' & -> & Hf & Hhs & Hk); [apply Hs1|destruct Hs1 as [Hd Ht]; by split|].
  cbn [disk disk_tables new_processor snapshot_processor_state st_retries st_request_pegout_tx_hashes retries
    request_pegout_tx_hashes] in Hf, Hhs, Hk. rewrite restore_snapshot_hashes in Hhs by done. split_and!; [done..|].
  intros k s Hks. rewrite Hf in Hks. specialize (Hk k s Hks) as [Ha Hp']. split_and!; [done..|]. intros Hpr.
  destruct (store_flows _ _ _ _ _ Hs1 _ _ Hks) as [Hid _]. unfold current_attempt. rewrite Ha. unfold rearmed.
  unfold filed_under, take_filed in Hid. rewrite Hpr, Hid. cbn. unfold current_attempt.
  by destruct (Z.eqb_spec (default 0 (attempts (retries (tables p)) !! k)) 0).
Qed.

End Guarantees.

(** ** A run of one advance

    The services answer; the node answers as long as it is given answers. *)

Module Sample.

Export Flow.Sample.
#[export] Existing Instance NativeBridge.Sample.node.

#[export] Instance sample_payloads : CommitteePayloads := Build_CommitteePayloads unit unit unit unit.
#[export] Instance order : HashOrder := {| shuffle A l := l; shuffle_perm A l := Permutation_refl l |}.
#[export] Instance json : JsonCodecs := {|
  parse_pegin_accepted _ := None;
  parse_pegout_accepted _ := None;
  parse_funds_advance_spv _ :=
    Some (mkFundsAdvanceSPV [6] (uuid_from_u128 77) 5 (replicate 32 2) OperatorTakeFlow.Sample.proof);
  parse_union_spv_notification _ := None
|}.
#[export] Instance flow_services : AdvanceFundsServices (list bytes) := {|
  contract_call _ e := (Ok tt, e);
  get_accept_pegin_txid _ e := (Ok [5; 5], e);
  broker_send _ e := (Ok tt, e);
  save_flow _ e := (Ok tt, e);
  signal_done _ _ e := (Ok tt, e)
|}.
#[export] Instance processor_services : TakeProcessorServices (E := list bytes) := {|
  im_member _ _ := true;
  utc_now _ := 0;
  delete_flow _ e := (Ok tt, e);
  save_processor_state _ e := (Ok tt, e);
  load_flows e := (Ok tt, e);
  load_processor_state e := (Ok tt, e)
|}.

Definition cfg : Config := mkConfig 2 1.
Definition verifier : NativeBridgeVerifier := Real 6.
Abbreviation P := (Processor FlowContext RskPegManagerEvents (list bytes) Effect Tables AdvanceFundsProcessorState).

(** Inputs that are in range and do not panic. *)
Fixpoint run (l : list Input) (p : P) : option P :=
  match l with
  | [] => Some p
  | i :: l =>
      let small := match i with InBlock b => bool_decide (0 <= bu_number b < 2 ^ 64 - 1) | _ => true end in
      if small : bool then
        match process verifier cfg i p with
        | (r, p') => if panicked r then None else run l p'
        end
      else None
  end.

Definition begin (e : list bytes) : P := snd (start cfg (new_processor ∅ None e)).
Definition after (e : list bytes) (l : list Input) : P := default (begin e) (run l (begin e)).

Definition event {T} (inner : T) : EventWithBlock T := mkEventWithBlock inner 10 [1] false [8].
Definition requested : Input :=
  InRskEvent (Events.PegoutRequested (event (ev_inner PegoutFlow.Sample.event))).
Definition triggered : Input :=
  InRskEvent (Events.OperatorTakeTriggered
    (event (mkOperatorTakeTriggered [1] (replicate 32 2) 77 [3] [1] (replicate 32 4) 5))).
Definition block (n : Z) : Input := InBlock (BlockchainTracker.Sample.bu 1 n).
Definition created : list Input := [requested; triggered; block 10; block 11].
Definition program : bytes := advance_funds_protocol_id (uuid_from_u128 77) 5.
Definition proved : list Input :=
  [InBitvmxEvent (MsgCommInfo [0] (mkCommsAddress _ "10.0.0.1:80" "comm"));
   InBitvmxEvent (MsgTransactionInfo (accept_pegin_protocol_id (uuid_from_u128 77) 5) "OPERATOR_TAKE_TX_1" [1]);
   InBitvmxEvent (MsgSetupCompleted program);
   InBitvmxEvent (MsgVariableString program "funds_advance_spv" "")].
Definition id : bytes := flow_id_from_operator_take_triggered_tx_hash [8].

(** One confirmation of six. *)
Definition one : bytes := be_bytes 32 1.

Lemma take_run_reachable l past p p' :
  reachable verifier cfg false past p -> run l p = Some p' -> exists past', reachable verifier cfg false past' p'.
Proof.
  revert past p. induction l as [|i l IH]; intros past p Hp Hr; [injection Hr as <-; by exists past|]. cbn [run] in Hr.
  destruct (match i with InBlock b => _ | _ => true end) eqn:Hs; [|discriminate Hr].
  assert (Hi : input_ok i) by (destruct i; try done; by apply bool_decide_eq_true in Hs).
  pose proof (R_input verifier cfg past p i Hp Hi) as Hn. cbn zeta in Hn.
  destruct (process verifier cfg i p) as [r p1]. cbn in Hn. destruct (panicked r); [discriminate Hr|]. by eapply IH.
Qed.

Lemma take_after_reachable e l : exists past, reachable verifier cfg false past (after e l).
Proof.
  unfold after. pose proof (R_start verifier cfg true _ _ e (R_empty verifier cfg e)) as Hs.
  destruct (run l (begin e)) as [p|] eqn:Hr; [|by eexists]. by eapply take_run_reachable.
Qed.

End Sample.

Section Witnesses.
#[local] Existing Instances NativeBridge.Sample.crates Bitvmx.Sample.tail_hash Flow.Sample.socket_addrs
  Flow.Sample.codecs Flow.Sample.committee_services NativeBridge.Sample.node Sample.sample_payloads Sample.order
  Sample.json Sample.flow_services Sample.processor_services.

Lemma take_processor_invariant_witness :
  let p := Sample.after [Sample.one] (Sample.created ++ Sample.proved) in
  step <$> flows p !! Sample.id = Some RegisterOrWaitRskAdvanceFunds /\
  store_ok (state_ok (E := list bytes)) managed_event (required_confirmations Sample.cfg) st_events_confirming p.
Proof.
  cbn zeta. split; [vm_compute; reflexivity|].
  destruct (Sample.take_after_reachable [Sample.one] (Sample.created ++ Sample.proved)) as [past Hp].
  exact (proj2 (take_processor_invariant Sample.verifier Sample.cfg false past _ Hp)).
Defined.

(** The block that confirms the trigger files the advance. *)
Lemma take_acts_on_final_events_witness :
  let p := Sample.after [] (firstn 3 Sample.created) in
  let p' := snd (process Sample.verifier Sample.cfg (Sample.block 11) p) in
  size (flows p) = 0%nat /\ is_Some (flows p' !! Sample.id) /\
  (is_Some (flows p !! Sample.id) \/ flow_backed Sample.cfg p (Sample.block 11) Sample.id).
Proof.
  cbn zeta. assert (Hk : is_Some (flows (snd (process Sample.verifier Sample.cfg (Sample.block 11)
    (Sample.after [] (firstn 3 Sample.created)))) !! Sample.id))
    by (apply (bool_decide_unpack _); vm_compute; exact I).
  split; [vm_compute; reflexivity|]. split; [exact Hk|].
  destruct (Sample.take_after_reachable [] (firstn 3 Sample.created)) as [past Hp].
  refine (proj2 (take_acts_on_final_events Sample.verifier Sample.cfg past (Sample.after [] (firstn 3 Sample.created))
    (Sample.block 11) Hp _ _) Sample.id Hk).
  - vm_compute. split; [discriminate|reflexivity].
  - discriminate.
Defined.

(** An advance that is parked when the process stops. *)
Lemma take_restart_resumes_witness :
  let p := Sample.after [Sample.one] (Sample.created ++ Sample.proved) in
  exists p', start Sample.cfg (new_processor (disk (snd (persist_processor_state p)))
      (disk_tables (snd (persist_processor_state p))) (@nil bytes)) = (Ok tt, p') /\
    request_pegout_tx_hashes (tables p') = request_pegout_tx_hashes (tables p) /\
    request_pegout_tx_hashes (tables p) !! (77, 5) = Some "0x08".
Proof.
  cbn zeta. destruct (Sample.take_after_reachable [Sample.one] (Sample.created ++ Sample.proved)) as [past Hp].
  set (p := Sample.after [Sample.one] (Sample.created ++ Sample.proved)) in *.
  assert (Hh : hashes_ok (request_pegout_tx_hashes (tables p))).
  { assert (Hall : map_Forall (fun k _ => uint 128 k.1) (request_pegout_tx_hashes (tables p)))
      by (apply map_Forall_to_list, (bool_decide_unpack _); vm_compute; exact I).
    intros k h Hk. exact (Hall k h Hk). }
  assert (Hr : persist_processor_state p = (Ok tt, snd (persist_processor_state p))) by reflexivity.
  pose proof (take_restart_resumes Sample.verifier Sample.cfg past p _ [] Hp Hh Hr) as Hres.
  destruct (start Sample.cfg _) as [[[]|x] p'].
  - destruct Hres as (_ & _ & Hhs & _). exists p'. split; [reflexivity|]. split; [exact Hhs|]. vm_compute. reflexivity.
  - destruct Hres as [_ Hno]. discriminate Hno.
Defined.

(** A retry that fails is never repeated.  An advance is parked because the
    native bridge lacks confirmations, and a retry is due with the next block.  If
    the node does not answer then, the handler logs the error and reports success:
    the advance stays parked, with no retry scheduled, and ticks do nothing more
    for it; only a restart would take it up again. *)
Theorem failed_retry_is_not_repeated :
  let p := Sample.after [Sample.one] (Sample.created ++ Sample.proved) in
  let '(r, p') := process Sample.verifier Sample.cfg (Sample.block 12) p in
  current_attempt Sample.id (retries (tables p)) = 1 /\ r = Ok tt /\
  step <$> flows p' !! Sample.id = Some RegisterOrWaitRskAdvanceFunds /\
  pending_retry <$> flows p' !! Sample.id = Some true /\
  is_scheduled Sample.id (scheduler (retries (tables p'))) = false /\
  handle_retry_tick Sample.verifier Sample.cfg p' = (Ok tt, p').
Proof.
  cbn zeta. set (p := Sample.after [Sample.one] (Sample.created ++ Sample.proved)).
  destruct (process Sample.verifier Sample.cfg (Sample.block 12) p) as [r p'] eqn:Hr.
  assert (Hall : (r, step <$> flows p' !! Sample.id, pending_retry <$> flows p' !! Sample.id,
    is_scheduled Sample.id (scheduler (retries (tables p'))), is_empty_retries (retries (tables p'))) =
    (Ok tt, Some RegisterOrWaitRskAdvanceFunds, Some true, false, true)).
  { change r with (fst (r, p')). change p' with (snd (r, p')) at 2 3 4 5. rewrite <- Hr. vm_compute. reflexivity. }
  injection Hall as -> -> -> -> He. split; [vm_compute; reflexivity|]. split_and!; [done..|].
  unfold handle_retry_tick. rewrite SR_bind_run with (a := retries (tables p')) (s' := p') by done. by rewrite He.
Qed.

End Witnesses.
