(* ===== verification/PeginProcessor.v ===== *)
(** * The peg-in processor (crates/coordinator/src/flows/pegin/pegin_processor.rs)

    It creates a peg-in flow for every peg-in transaction that BitVMX finds,
    routes the proofs and messages of BitVMX and the confirmed events to the
    flows, keeps back the events that come too early, starts the signature
    subflows, and retries the calls that lack confirmations on the native bridge. *)

From stdpp Require Import prelude gmap strings.
From S2P Require Import Prelude Types BlockchainTracker Schedulers Events BtcSignature Bitvmx NativeBridge.
From S2P Require Import Flow Processor Inputs PeginFlow.
Open Scope Z_scope.

Record Config := mkConfig {
  required_confirmations : Z;
  btc_confirmations : Z;
  btc_status_retry_blocks : Z
}.

Section Tables.
Context `{Bitcoin}.

(** Requests wait for their transaction, the other events for the transaction of
    the acceptance; retries of requests are kept by the hash of a Bitcoin block. *)
Record Tables := mkTables {
  tx_status_scheduler : @TickScheduler bytes _ _;
  pegin_request_tracker : gset bytes;
  pending_pegin_requested : gmap bytes (EventWithBlock PeginRequested);
  pending_all_operator_take_txids_added : gmap bytes (EventWithBlock AllOperatorTakeTxidsAdded);
  pending_pegin_accepted : gmap bytes (EventWithBlock PeginAccepted);
  unconfirmed_pegin_requests : gmap string (BtcTxSPVProof * Z);
  pegin_retry_scheduler : @TickScheduler string _ _;
  unconfirmed_accept_pegin : gmap bytes Z;
  accept_pegin_retry_scheduler : @TickScheduler bytes _ _
}.

Definition new_tables : Tables := mkTables (mkTicks ∅) ∅ ∅ ∅ ∅ ∅ (mkTicks ∅) ∅ (mkTicks ∅).

Definition set_tx_status f (t : Tables) : Tables :=
  mkTables (f (tx_status_scheduler t)) (pegin_request_tracker t) (pending_pegin_requested t)
    (pending_all_operator_take_txids_added t) (pending_pegin_accepted t) (unconfirmed_pegin_requests t)
    (pegin_retry_scheduler t) (unconfirmed_accept_pegin t) (accept_pegin_retry_scheduler t).
Definition set_tracker f (t : Tables) : Tables :=
  mkTables (tx_status_scheduler t) (f (pegin_request_tracker t)) (pending_pegin_requested t)
    (pending_all_operator_take_txids_added t) (pending_pegin_accepted t) (unconfirmed_pegin_requests t)
    (pegin_retry_scheduler t) (unconfirmed_accept_pegin t) (accept_pegin_retry_scheduler t).
Definition set_pending_requested f (t : Tables) : Tables :=
  mkTables (tx_status_scheduler t) (pegin_request_tracker t) (f (pending_pegin_requested t))
    (pending_all_operator_take_txids_added t) (pending_pegin_accepted t) (unconfirmed_pegin_requests t)
    (pegin_retry_scheduler t) (unconfirmed_accept_pegin t) (accept_pegin_retry_scheduler t).
Definition set_pending_added f (t : Tables) : Tables :=
  mkTables (tx_status_scheduler t) (pegin_request_tracker t) (pending_pegin_requested t)
    (f (pending_all_operator_take_txids_added t)) (pending_pegin_accepted t) (unconfirmed_pegin_requests t)
    (pegin_retry_scheduler t) (unconfirmed_accept_pegin t) (accept_pegin_retry_scheduler t).
Definition set_pending_accepted f (t : Tables) : Tables :=
  mkTables (tx_status_scheduler t) (pegin_request_tracker t) (pending_pegin_requested t)
    (pending_all_operator_take_txids_added t) (f (pending_pegin_accepted t)) (unconfirmed_pegin_requests t)
    (pegin_retry_scheduler t) (unconfirmed_accept_pegin t) (accept_pegin_retry_scheduler t).
Definition set_unconfirmed_requests f (t : Tables) : Tables :=
  mkTables (tx_status_scheduler t) (pegin_request_tracker t) (pending_pegin_requested t)
    (pending_all_operator_take_txids_added t) (pending_pegin_accepted t) (f (unconfirmed_pegin_requests t))
    (pegin_retry_scheduler t) (unconfirmed_accept_pegin t) (accept_pegin_retry_scheduler t).
Definition set_request_retries f (t : Tables) : Tables :=
  mkTables (tx_status_scheduler t) (pegin_request_tracker t) (pending_pegin_requested t)
    (pending_all_operator_take_txids_added t) (pending_pegin_accepted t) (unconfirmed_pegin_requests t)
    (f (pegin_retry_scheduler t)) (unconfirmed_accept_pegin t) (accept_pegin_retry_scheduler t).
Definition set_unconfirmed_accepts f (t : Tables) : Tables :=
  mkTables (tx_status_scheduler t) (pegin_request_tracker t) (pending_pegin_requested t)
    (pending_all_operator_take_txids_added t) (pending_pegin_accepted t) (unconfirmed_pegin_requests t)
    (pegin_retry_scheduler t) (f (unconfirmed_accept_pegin t)) (accept_pegin_retry_scheduler t).
Definition set_accept_retries f (t : Tables) : Tables :=
  mkTables (tx_status_scheduler t) (pegin_request_tracker t) (pending_pegin_requested t)
    (pending_all_operator_take_txids_added t) (pending_pegin_accepted t) (unconfirmed_pegin_requests t)
    (pegin_retry_scheduler t) (unconfirmed_accept_pegin t) (f (accept_pegin_retry_scheduler t)).

End Tables.

Section Processor.
Context `{FlowCodecs, !CommitteeServices E, !PeginServices E, !BridgeNode E, Sha256, !SignatureContracts E,
  CommitteePayloads, !JsonCodecs, HashOrder}.

Record PeginProcessorState := mkProcessorState {
  st_events_confirming : gmap string (ConfirmableEventSnapshot * RskPegManagerEvents);
  st_tables : Tables;
  st_signature_flows : gmap bytes BtcSignatureSubFlowSnapshot
}.

(** The committees this node belongs to, the clock, the store, and the
    subscription to the peg-ins that BitVMX finds.  Loading gives what was saved, or
    fails. *)
Class PeginProcessorServices := {
  im_member : Z -> E -> bool;
  utc_now : E -> Z;
  delete_flow : bytes -> SR E FlowError unit;
  save_processor_state : PeginProcessorState -> SR E FlowError unit;
  load_flows : SR E FlowError unit;
  load_processor_state : SR E FlowError unit;
  subscribe_to_rsk_pegin : Z -> SR E FlowError unit
}.

Context `{!PeginProcessorServices} (verifier : NativeBridgeVerifier) (cfg : Config).

#[export] Instance pegin_filed : Filed State := flow_id.

Abbreviation P := (Processor State RskPegManagerEvents E Effect Tables PeginProcessorState).

Definition complete_flow_step (k : bytes) (d : StepData) : SR P FlowError unit :=
  with_flow k (complete_step verifier d).

Definition pegin_flow_by_protocol_id (protocol_id : bytes) : SR P FlowError (option bytes) :=
  find_flow (fun s => bool_decide (bitvmx_protocol_id (ctx s) = Some protocol_id)).

Definition flow_by_accept_pegin_txid (txid : bytes) : SR P FlowError (option bytes) :=
  find_flow (fun s => bool_decide (get_accept_pegin_txid_from_bitvmx_var (ctx s) = Some txid)).

(** ** Errors of the gateway *)

Definition is_missing_native_bridge_confirmations (causes : list cause) : bool :=
  existsb (fun c => match c with Domain (MissingConfirmationsOnNativeBridge _) => true | _ => false end) causes.

Definition is_pegin_already_accepted (causes : list cause) : bool :=
  existsb (fun c => match c with Domain (PeginAlreadyAccepted _) => true | _ => false end) causes.

(** ** Terminal flows *)

Definition terminal_flows : SR P FlowError (list (bytes * option bytes * bytes)) :=
  p ← sget;
  mret ((fun kv => (flow_id kv.2, bitvmx_protocol_id (ctx kv.2), request_pegin_btc_tx_id (ctx kv.2))) <$>
        filter (fun kv => is_terminal (step (ctx kv.2)) = true) (shuffle (map_to_list (flows p)))).

(** The retries of the requests of a transaction. *)
Definition retry_keys (txid : bytes) (t : Tables) : list string :=
  (filter (fun kv => compute_txid (tx kv.2.1) = txid) (map_to_list (unconfirmed_pegin_requests t))).*1.

Definition forget_requests (txid : bytes) (t : Tables) : Tables :=
  foldr (fun key t => set_unconfirmed_requests (delete key) (set_request_retries (cancel key) t)) t (retry_keys txid t).

Definition cleanup_terminal_flow_state : SR P FlowError unit :=
  terminal ← terminal_flows;
  for_each terminal (fun '(id, protocol_id, request_txid) =>
    _ ← match protocol_id with
        | Some protocol_id => set_signature_flows (delete protocol_id)
        | None => mret tt
        end;
    set_tables (fun t =>
      forget_requests request_txid
        (set_pending_requested (delete request_txid) (set_tracker (fun s => s ∖ {[request_txid]})
          (set_unconfirmed_accepts (delete id) (set_accept_retries (cancel id) (set_tx_status (cancel id) t))))))).

(** Failures to delete are logged. *)
Definition cleanup_terminal_flows : SR P FlowError unit :=
  _ ← cleanup_terminal_flow_state;
  terminal ← terminal_flows;
  _ ← for_each terminal (fun x => _ ← catch (delete_stored delete_flow x.1.1); mret tt);
  set_flows (filter (fun kv => is_terminal (step (ctx kv.2)) = false)).

(** ** The store *)

Definition snapshot_processor_state (p : P) : PeginProcessorState :=
  mkProcessorState (snapshot_confirmable_events (events_confirming (confirmer p)) (blockchain_view (confirmer p)))
    (tables p) (snapshot_signatures p).

Definition persist_processor_state : SR P FlowError unit :=
  save_tables save_processor_state snapshot_processor_state.

(** ** Confirmed events *)

(** No other flow has the program of the request. *)
Definition create_flow_for_pegin_requested (event : PeginRequested) : SR P FlowError unit :=
  p ← sget;
  if negb (im_member (pr_committeeId event) (penv p)) then mret tt else
  let id := flow_id_from_request_pegin_txid (fb_32_to_txid (pr_requestPeginTxid event)) in
  if negb ((0 <=? pr_slotId event) && (pr_slotId event <? 2 ^ 64)) then flow_bail "Slot ID too large for usize" else
  let expected_pid := accept_pegin_protocol_id (uuid_from_u128 (pr_committeeId event)) (pr_slotId event) in
  if existsb (fun kv => negb (bool_decide (kv.1 = id)) && bool_decide (bitvmx_protocol_id (ctx kv.2) = Some expected_pid))
       (shuffle (map_to_list (flows p)))
  then flow_bail "another flow already holds BitVMX protocol id; refusing PeginRequested" else
  existing ← lookup_flow id;
  match existing with
  | Some _ => complete_flow_step id (DataPeginRequested event)
  | None => mret tt
  end.

Definition handle_pegin_accepted (pa : EventWithBlock PeginAccepted) : SR P FlowError unit :=
  let txid := fb_32_to_txid (pa_acceptPeginTxid (ev_inner pa)) in
  flow ← flow_by_accept_pegin_txid txid;
  k ← required "No matching pegin flow found for PeginAccepted event" flow;
  found ← lookup_flow k;
  s ← required "flow" found;
  if bool_decide (step (ctx s) = StepDone) then mret tt else
  if negb (allows_fast_forward_to_pegin_accepted (step (ctx s)))
  then set_tables (set_pending_accepted (<[txid := pa]>))
  else complete_flow_step k (DataPeginAccepted (ev_inner pa)).

Definition has_flow_for_accept_pegin (accept_pegin_txid : Hash256) (p : P) : bool :=
  existsb (fun kv => bool_decide (pr_acceptPeginTxid <$> pegin_requested (ctx kv.2) = Some accept_pegin_txid))
    (shuffle (map_to_list (flows p))).

Definition build_log_id (s : State) : string :=
  uuid_to_string (flow_id s) +:+ " (" +:+ txid_to_string (request_pegin_btc_tx_id (ctx s)) +:+ ")".

(** The signature subflow starts before the flow is told. *)
Definition handle_all_operator_take_tx_hashes_added (event : EventWithBlock AllOperatorTakeTxidsAdded)
    : SR P FlowError unit :=
  let txid := fb_32_to_txid (ta_acceptPeginTxid (ev_inner event)) in
  flow ← flow_by_accept_pegin_txid txid;
  p ← sget;
  match flow with
  | Some k =>
      found ← lookup_flow k;
      s ← required "flow" found;
      protocol_id ← required "bitvmx_protocol_id not set for flow" (bitvmx_protocol_id (ctx s));
      if bool_decide (is_Some (signature_flows p !! protocol_id)) then mret tt else
      accepted ← required "PeginAcceptedMessage not found for flow_id" (bitvmx_pegin_accepted (ctx s));
      let register_input := mkSignatureData (txid_to_fb_32 txid) (am_accept_pegin_nonce accepted)
                              (am_accept_pegin_signature accepted) in
      _ ← start_signature protocol_id (build_log_id s) (required_confirmations cfg)
            (Some (ParentPegin (uuid_to_string k))) register_input;
      complete_flow_step k DataAllOperatorTakeTxidsAdded
  | None =>
      if has_flow_for_accept_pegin (ta_acceptPeginTxid (ev_inner event)) p
      then set_tables (set_pending_added (<[txid := event]>)) else mret tt
  end.

(** A request that comes before the flow waits for it is kept back. *)
Definition handle_pegin_requested (pr : EventWithBlock PeginRequested) : SR P FlowError unit :=
  let btc_tx_id := fb_32_to_txid (pr_requestPeginTxid (ev_inner pr)) in
  found ← lookup_flow (flow_id_from_request_pegin_txid btc_tx_id);
  if bool_decide (step ∘ ctx <$> found = Some StepWaitPeginRequested)
  then create_flow_for_pegin_requested (ev_inner pr)
  else set_tables (set_pending_requested (<[btc_tx_id := pr]>)).

Definition process_confirmed_rsk_event (event : RskPegManagerEvents) : SR P FlowError unit :=
  match event with
  | Events.PeginRequested pr =>
      p ← sget;
      if negb (im_member (pr_committeeId (ev_inner pr)) (penv p)) then mret tt else
      _ ← handle_pegin_requested pr;
      cleanup_terminal_flows
  | Events.PeginAccepted pa =>
      _ ← handle_pegin_accepted pa;
      cleanup_terminal_flows
  | Events.AllOperatorTakeTxidsAdded added =>
      _ ← handle_all_operator_take_tx_hashes_added added;
      cleanup_terminal_flows
  | _ => cleanup_terminal_flows
  end.

Definition process_block_confirmations (block : RskBlockAndUncles) : SR P FlowError unit :=
  had_events ← confirm_block block process_confirmed_rsk_event;
  if (had_events : bool) then cleanup_terminal_flows else mret tt.

(** ** Events that came too early *)

Definition replay_pending_pegin_requested (tx_id : bytes) : SR P FlowError unit :=
  pending ← read_tables pending_pegin_requested;
  match pending !! tx_id with
  | Some e =>
      _ ← set_tables (set_pending_requested (delete tx_id));
      process_confirmed_rsk_event (Events.PeginRequested e)
  | None => mret tt
  end.

Definition replay_pending_all_operator_take_txids_added (accept_pegin_txid : bytes) : SR P FlowError unit :=
  flow ← flow_by_accept_pegin_txid accept_pegin_txid;
  p ← sget;
  if negb (bool_decide ((k ← flow; step ∘ ctx <$> flows p !! k) = Some StepWaitAllOperatorTakeTxidsAdded))
  then mret tt else
  match pending_all_operator_take_txids_added (tables p) !! accept_pegin_txid with
  | Some e =>
      _ ← set_tables (set_pending_added (delete accept_pegin_txid));
      process_confirmed_rsk_event (Events.AllOperatorTakeTxidsAdded e)
  | None => mret tt
  end.

Definition replay_pending_pegin_accepted (accept_pegin_txid : bytes) : SR P FlowError unit :=
  pending ← read_tables pending_pegin_accepted;
  match pending !! accept_pegin_txid with
  | Some e =>
      _ ← set_tables (set_pending_accepted (delete accept_pegin_txid));
      process_confirmed_rsk_event (Events.PeginAccepted e)
  | None => mret tt
  end.

(** ** Signature subflows that are done *)

Definition dispatch_signed (protocol_id : bytes) : SR P FlowError unit :=
  _ ← set_signature_flows (delete protocol_id);
  flow ← pegin_flow_by_protocol_id protocol_id;
  match flow with
  | None => mret tt
  | Some k =>
      found ← lookup_flow k;
      s ← required "flow" found;
      if negb (bool_decide (step (ctx s) = StepWaitAcceptPeginSignaturesReadyAllConvergeCheckpoint)) then mret tt else
      _ ← complete_flow_step k DataAcceptPeginSignaturesReady;
      match get_accept_pegin_txid_from_bitvmx_var (ctx s) with
      | Some txid => replay_pending_pegin_accepted txid
      | None => mret tt
      end
  end.

Definition process_unhandled_confirmed_sig_flow_events (block : RskBlockAndUncles) : SR P FlowError unit :=
  keys ← signature_keys;
  flows_to_dispatch ← delegate_blocks block keys;
  for_each flows_to_dispatch dispatch_signed.

(** ** Status of the accept-pegin transaction *)

Definition handle_transaction_status_received (protocol_id : bytes) (tx_status : TransactionStatus)
    : SR P FlowError unit :=
  flow ← pegin_flow_by_protocol_id protocol_id;
  match flow with
  | None => mret tt
  | Some k =>
      found ← lookup_flow k;
      s ← required "flow" found;
      expected_txid ← required "Expected accept pegin tx_id not found" (get_accept_pegin_txid_from_bitvmx_var (ctx s));
      if negb (bool_decide (expected_txid = ts_tx_id tx_status))
      then flow_bail "Pegin state does not match received tx_id from tx status message" else
      if negb (bool_decide (step (ctx s) = StepConfirmAcceptPeginTransaction))
      then flow_bail "Mismatch current step" else
      if btc_confirmations cfg <=? ts_confirmations tx_status then
        _ ← complete_flow_step k (DataAcceptPeginTransactionConfirmed tx_status);
        set_tables (fun t => if is_scheduled k (tx_status_scheduler t) then set_tx_status (cancel k) t else t)
      else set_tables (set_tx_status (schedule k (btc_status_retry_blocks cfg)))
  end.

Definition handle_transaction_status_tick : SR P FlowError unit :=
  s ← read_tables tx_status_scheduler;
  if is_empty s then mret tt else
  let '(ready, s') := tick s in
  _ ← set_tables (set_tx_status (fun _ => s'));
  for_each (shuffle ready) (fun k =>
    found ← lookup_flow k;
    match found with
    | Some s => if bool_decide (step (ctx s) = StepConfirmAcceptPeginTransaction)
                then with_flow k request_transaction_status else mret tt
    | None => mret tt
    end).

(** ** Retries *)

(** [i16::saturating_add(1)] *)
Definition next_attempt (attempt : Z) : Z := Z.min (attempt + 1) (2 ^ 15 - 1).

Definition schedule_request_pegin_retry (spv_proof : BtcTxSPVProof) (attempt : Z) : SR P FlowError unit :=
  set_tables (fun t => set_request_retries (schedule (block_hash spv_proof) (btc_status_retry_blocks cfg))
                         (set_unconfirmed_requests (<[block_hash spv_proof := (spv_proof, attempt)]>) t)).

Definition schedule_accept_pegin_retry (id : bytes) (attempt : Z) : SR P FlowError unit :=
  set_tables (fun t => set_accept_retries (schedule id (btc_status_retry_blocks cfg))
                         (set_unconfirmed_accepts (<[id := attempt]>) t)).

Definition request_pegin_flow_id (tx_id : bytes) : SR P FlowError (option bytes) :=
  let id := flow_id_from_request_pegin_txid tx_id in
  found ← lookup_flow id;
  mret (if bool_decide (step ∘ ctx <$> found = Some StepRequestPeginSpvProof) then Some id else None).

Definition retry_request_pegin (hash : string) : SR P FlowError unit :=
  unconfirmed ← read_tables unconfirmed_pegin_requests;
  match unconfirmed !! hash with
  | None => mret tt
  | Some (spv_proof, attempt) =>
      _ ← set_tables (set_unconfirmed_requests (delete hash));
      let tx_id := compute_txid (tx spv_proof) in
      flow ← request_pegin_flow_id tx_id;
      match flow with
      | None => mret tt
      | Some id =>
          retried ← catch (complete_flow_step id DataRetryRequestPegin);
          match retried with
          | Ok _ =>
              _ ← set_tables (set_tracker (fun s => s ∖ {[tx_id]}));
              replay_pending_pegin_requested tx_id
          | Err causes =>
              if negb (is_missing_native_bridge_confirmations causes)
              then set_tables (set_tracker (fun s => s ∖ {[tx_id]}))
              else schedule_request_pegin_retry spv_proof (next_attempt attempt)
          end
      end
  end.

Definition retry_accept_pegin (id : bytes) : SR P FlowError unit :=
  unconfirmed ← read_tables unconfirmed_accept_pegin;
  match unconfirmed !! id with
  | None => mret tt
  | Some attempt =>
      _ ← set_tables (set_unconfirmed_accepts (delete id));
      found ← lookup_flow id;
      match found with
      | None => mret tt
      | Some s =>
          if negb (bool_decide (step (ctx s) = StepAcceptPegin)) then mret tt else
          retried ← catch (complete_flow_step id DataRetryAcceptPegin);
          match retried with
          | Ok _ => mret tt
          | Err causes =>
              if is_pegin_already_accepted causes then mret tt else
              if negb (is_missing_native_bridge_confirmations causes) then mret tt else
              schedule_accept_pegin_retry id (next_attempt attempt)
          end
      end
  end.

Definition handle_pegin_retry_tick : SR P FlowError unit :=
  t ← read_tables id;
  if is_empty (pegin_retry_scheduler t) && is_empty (accept_pegin_retry_scheduler t) then mret tt else
  let '(ready, s) := tick (pegin_retry_scheduler t) in
  _ ← set_tables (set_request_retries (fun _ => s));
  _ ← for_each (shuffle ready) retry_request_pegin;
  accepts ← read_tables accept_pegin_retry_scheduler;
  let '(ready, s) := tick accepts in
  _ ← set_tables (set_accept_retries (fun _ => s));
  for_each (shuffle ready) retry_accept_pegin.

(** ** Messages of BitVMX *)

(** The flow is filed once its first step succeeds. *)
Definition handle_pegin_transaction_found (tx_id : bytes) : SR P FlowError unit :=
  let id := flow_id_from_request_pegin_txid tx_id in
  p ← sget;
  if bool_decide (tx_id ∈ pegin_request_tracker (tables p)) || bool_decide (is_Some (flows p !! id)) then mret tt else
  let flow := state (new_flow tx_id id (utc_now (penv p)) (penv p)) in
  created ← with_new_flow flow (complete_step verifier DataPeginTransactionFound);
  _ ← set_flows (<[flow_id flow := created.2]>);
  set_tables (set_tracker (fun s => s ∪ {[tx_id]})).

Definition handle_spv_proof_for_request_pegin (tx_id : bytes) (spv_proof : BtcTxSPVProof) : SR P FlowError unit :=
  tracker ← read_tables pegin_request_tracker;
  if negb (bool_decide (tx_id ∈ tracker)) then mret tt else
  flow ← request_pegin_flow_id tx_id;
  match flow with
  | None => mret tt
  | Some id =>
      completed ← catch (complete_flow_step id (DataRequestPeginSpvProof spv_proof));
      match completed with
      | Ok _ =>
          _ ← set_tables (set_tracker (fun s => s ∖ {[tx_id]}));
          replay_pending_pegin_requested tx_id
      | Err causes =>
          if is_missing_native_bridge_confirmations causes then schedule_request_pegin_retry spv_proof 1
          else sfail (Chain causes)
      end
  end.

Definition handle_spv_proof_for_accept_pegin (tx_id : bytes) (spv_proof : BtcTxSPVProof) : SR P FlowError unit :=
  flow ← flow_by_accept_pegin_txid tx_id;
  match flow with
  | None => mret tt
  | Some id =>
      completed ← catch (complete_flow_step id (DataAcceptPeginSpvProof spv_proof));
      match completed with
      | Ok _ => mret tt
      | Err causes =>
          if is_missing_native_bridge_confirmations causes then
            unconfirmed ← read_tables unconfirmed_accept_pegin;
            schedule_accept_pegin_retry id (next_attempt (default 0 (unconfirmed !! id)))
          else if is_pegin_already_accepted causes then mret tt
          else sfail (Chain causes)
      end
  end.

Definition has_flow_waiting_for_accept_pegin_spv (tx_id : bytes) : SR P FlowError bool :=
  flow ← flow_by_accept_pegin_txid tx_id; mret (bool_decide (is_Some flow)).

Definition handle_spv_proof (tx_id : bytes) (spv_proof : option BtcTxSPVProof) : SR P FlowError unit :=
  proof ← required "Received BitVMX SPVProof event, but no SPV proof was included." spv_proof;
  tracker ← read_tables pegin_request_tracker;
  if bool_decide (tx_id ∈ tracker) then handle_spv_proof_for_request_pegin tx_id proof else
  waiting ← has_flow_waiting_for_accept_pegin_spv tx_id;
  if (waiting : bool) then handle_spv_proof_for_accept_pegin tx_id proof else mret tt.

Definition handle_bitvmx_pegin_accepted (protocol_id : bytes) (data : string) : SR P FlowError unit :=
  accepted ← required "json" (parse_pegin_accepted data);
  flow ← pegin_flow_by_protocol_id protocol_id;
  k ← required "Flow not found for protocol_id" flow;
  found ← lookup_flow k;
  s ← required "flow" found;
  if negb (bool_decide (step (ctx s) = StepPreparePeginSetup)) then flow_bail "Mismatch current step" else
  _ ← complete_flow_step k (DataBitvmxPeginAccepted accepted);
  found ← lookup_flow k;
  match s ← found; get_accept_pegin_txid_from_bitvmx_var (ctx s) with
  | Some txid => replay_pending_all_operator_take_txids_added txid
  | None => mret tt
  end.

(** [true] when the handler is to return without saving the tables. *)
Definition handle_transaction_info (protocol_id : bytes) (tx_name : string) (transaction : Transaction)
    : SR P FlowError bool :=
  flow ← pegin_flow_by_protocol_id protocol_id;
  match flow with
  | None => mret true
  | Some k =>
      found ← lookup_flow k;
      s ← required "flow" found;
      _ ← match step (ctx s) with
          | StepRequestOperatorTakeTransactionInfo =>
              if String.prefix "OPERATOR_TAKE_TX" tx_name
              then complete_flow_step k (DataTransactionInfo tx_name (compute_txid transaction)) else mret tt
          | StepRequestOperatorWonTransactionInfo =>
              if String.prefix "OPERATOR_WON_TX" tx_name
              then complete_flow_step k (DataTransactionInfo tx_name (compute_txid transaction)) else mret tt
          | _ => mret tt
          end;
      mret false
  end.

Definition process_new_bitvmx_event (event : OutgoingBitVMXApiMessages) : SR P FlowError unit :=
  _ ← cleanup_terminal_flows;
  return_early ←
    match event with
    | MsgPeginTransactionFound tx_id => _ ← handle_pegin_transaction_found tx_id; mret false
    | MsgSPVProof tx_id spv_proof => _ ← handle_spv_proof tx_id spv_proof; mret false
    | MsgCommInfo _ comm_info =>
        p ← sget;
        _ ← for_each (shuffle (map_to_list (flows p))).*1 (fun k =>
              found ← lookup_flow k;
              if bool_decide (step ∘ ctx <$> found = Some StepGetCommInfoAuthoritativeCheckpoint)
              then complete_flow_step k (DataCommInfo comm_info) else mret tt);
        mret false
    | MsgVariableString protocol_id name data =>
        _ ← (if bool_decide (name = "pegin_accepted") then handle_bitvmx_pegin_accepted protocol_id data else mret tt);
        mret false
    | MsgTransactionInfo protocol_id tx_name transaction => handle_transaction_info protocol_id tx_name transaction
    | MsgTransaction id tx_status => _ ← handle_transaction_status_received id tx_status; mret false
    | _ => mret false
    end;
  if (return_early : bool) then mret tt else persist_processor_state.

(** ** Other inputs *)

Definition fail_flow (id : bytes) : SR P FlowError unit :=
  found ← lookup_flow id;
  _ ← match found with
      | Some _ => with_flow id (mark_failed verifier)
      | None => mret tt
      end;
  cleanup_terminal_flows.

Definition process_user_request (req : UserRequests) : SR P FlowError unit :=
  _ ← cleanup_terminal_flows;
  _ ← match req with
      | Admin (FailFlow kind id _) => if bool_decide (kind = KindPegin) then fail_flow id else mret tt
      | _ => mret tt
      end;
  persist_processor_state.

(** The events that need confirmations, with their identifiers. *)
Definition managed_event (event : RskPegManagerEvents) : option (string * bool * BlockNumber) :=
  match event with
  | Events.PeginRequested e =>
      Some ("pegin-requested-" +:+ hash_to_string (ev_tx_hash e), ev_removed e, ev_block_number e)
  | Events.PeginAccepted e =>
      Some ("pegin-accepted-" +:+ hash_to_string (ev_tx_hash e), ev_removed e, ev_block_number e)
  | Events.AllOperatorTakeTxidsAdded e =>
      Some ("all-operator-take-tx-hashes-added-" +:+ hash_to_string (ev_tx_hash e), ev_removed e, ev_block_number e)
  | _ => None
  end.

Definition process_new_rsk_event (event : RskPegManagerEvents) : SR P FlowError unit :=
  _ ← cleanup_terminal_flows;
  match event with
  | AllNoncesReady _ | AllSignaturesReady _ =>
      _ ← delegate_signature_event event; persist_processor_state
  | _ =>
      if required_confirmations cfg =? 0 then
        _ ← process_confirmed_rsk_event event; persist_processor_state
      else
        match managed_event event with
        | None => mret tt
        | Some (id, is_removal, block_num) =>
            _ ← (if (is_removal : bool) then _ ← on_confirmer (stop_confirming_event id); mret tt
                 else on_confirmer (confirm_event "Starting confirming" id (required_confirmations cfg) block_num event));
            persist_processor_state
        end
  end.

Definition process_new_block (block : RskBlockAndUncles) : SR P FlowError unit :=
  _ ← cleanup_terminal_flows;
  _ ← process_unhandled_confirmed_sig_flow_events block;
  _ ← handle_transaction_status_tick;
  _ ← handle_pegin_retry_tick;
  _ ← process_block_confirmations block;
  persist_processor_state.

(** ** Starting *)

(** A processor over what the store holds. *)
Definition new_processor (disk : gmap bytes State) (saved : option PeginProcessorState) (e : E) : P :=
  mkProcessor ∅ ∅ new_confirmer new_tables disk saved e [] [].

Definition apply_processor_state (st : PeginProcessorState) : SR P FlowError unit :=
  match restore_confirmable_events (st_events_confirming st) with
  | (Err f, _) => sfail (from_failure f)
  | (Ok events, t) =>
      _ ← smodify (set_confirmer (mkConfirmer events t));
      _ ← set_tables (fun _ => st_tables st);
      match restore_signatures (map_to_list (st_signature_flows st)) (required_confirmations cfg) with
      | Err f => sfail (from_failure f)
      | Ok l => set_signature_flows (fun _ => list_to_map l)
      end
  end.

Definition reconstruct_flow (k : bytes) : SR P FlowError unit :=
  found ← lookup_flow k;
  s ← required "flow" found;
  match step (ctx s) with
  | StepRequestPeginSpvProof =>
      _ ← set_tables (set_tracker (fun tracked => tracked ∪ {[request_pegin_btc_tx_id (ctx s)]}));
      match request_pegin_spv_proof (ctx s) with
      | Some proof =>
          _ ← set_tables (set_unconfirmed_requests
                (partial_alter (fun o => Some (default (proof, 0) o)) (block_hash proof)));
          set_tables (fun t => if is_scheduled (block_hash proof) (pegin_retry_scheduler t) then t
                               else set_request_retries (schedule (block_hash proof) (btc_status_retry_blocks cfg)) t)
      | None => mret tt
      end
  | StepConfirmAcceptPeginTransaction =>
      set_tables (fun t => if is_scheduled k (tx_status_scheduler t) then t
                           else set_tx_status (schedule k (btc_status_retry_blocks cfg)) t)
  | StepAcceptPegin =>
      _ ← set_tables (set_unconfirmed_accepts (partial_alter (fun o => Some (default 0 o)) k));
      set_tables (fun t => if is_scheduled k (accept_pegin_retry_scheduler t) then t
                           else set_accept_retries (schedule k (btc_status_retry_blocks cfg)) t)
  | _ => mret tt
  end.

Definition reconstruct_runtime_state_from_flows : SR P FlowError unit :=
  p ← sget;
  for_each (shuffle (map_to_list (flows p))).*1 reconstruct_flow.

Definition restore_processor_state : SR P FlowError unit :=
  _ ← on_services id load_processor_state;
  p ← sget;
  _ ← match disk_tables p with
      | Some st => apply_processor_state st
      | None => mret tt
      end;
  reconstruct_runtime_state_from_flows.

(** [PeginFlowProcessor::new] *)
Definition start : SR P FlowError unit :=
  _ ← expect "Failed to subscribe to BitVMX pegin events"
        (on_services id (subscribe_to_rsk_pegin (btc_confirmations cfg)));
  _ ← expect "Failed to load flows from store" (on_services id load_flows);
  p ← sget;
  _ ← set_flows (fun _ => list_to_map ((fun s => (flow_id s, s)) <$> (shuffle (map_to_list (disk p))).*2));
  expect "Failed to load pegin processor state from store" restore_processor_state.

Definition shutdown : SR P FlowError unit :=
  _ ← set_flows (fun _ => ∅);
  _ ← on_confirmer clear_confirmer;
  _ ← set_tables (fun _ => new_tables);
  set_signature_flows (fun _ => ∅).

(** The flows in progress, with what is shown of them. *)
Definition active_flows (p : P) : list (bytes * Steps * option Z) :=
  (fun kv => (flow_id kv.2, step (ctx kv.2), created_at kv.2)) <$>
  filter (fun kv => is_terminal (step (ctx kv.2)) = false) (shuffle (map_to_list (flows p))).

(** ** Inputs, one at a time *)

Inductive Input :=
| InBlock (block : RskBlockAndUncles)
| InRskEvent (event : RskPegManagerEvents)
| InBitvmxEvent (event : OutgoingBitVMXApiMessages)
| InUserRequest (req : UserRequests)
| InShutdown.

Definition process (i : Input) : SR P FlowError unit :=
  match i with
  | InBlock block => process_new_block block
  | InRskEvent event => process_new_rsk_event event
  | InBitvmxEvent event => process_new_bitvmx_event event
  | InUserRequest req => process_user_request req
  | InShutdown => shutdown
  end.

End Processor.

(** ** The flows of a processor *)

Section FlowOps.
Context `{FlowCodecs, !CommitteeServices E, !PeginServices E, !BridgeNode E, Sha256} (verifier : NativeBridgeVerifier).
Abbreviation W := (Flow.World State E Effect).

(** The request and the acceptance that a flow records. *)
Context (requested : PeginRequested -> Prop) (accepted : PeginAccepted -> Prop).

Definition backed (c : FlowContext) : Prop :=
  (forall e, pegin_requested c = Some e -> requested e) /\ (forall e, pegin_accepted c = Some e -> accepted e).

Definition data_backed (d : StepData) : Prop :=
  match d with DataPeginRequested e => requested e | DataPeginAccepted e => accepted e | _ => True end.

(** BitVMX is told of backed acceptances only. *)
Definition effect_backed (x : Effect) : Prop :=
  match x with Sent (SetVarPeginAccepted _ e) => accepted e | _ => True end.

(** A flow keeps its identity, in memory and in the store, and what it records and
    reports is backed. *)
Definition stays (b : bool) (w w' : W) : Prop :=
  flow_id (state w') = flow_id (state w) /\
  request_pegin_btc_tx_id (ctx (state w')) = request_pegin_btc_tx_id (ctx (state w)) /\
  (backed (ctx (state w)) -> backed (ctx (state w'))) /\
  (backed (ctx (state w)) -> Forall effect_backed (trace w) -> Forall effect_backed (trace w')) /\
  (saved w' = saved w \/ exists s, saved w' = Some s /\ flow_id s = flow_id (state w) /\
     request_pegin_btc_tx_id (ctx s) = request_pegin_btc_tx_id (ctx (state w)) /\
     (backed (ctx (state w)) -> backed (ctx s))).

#[export] Instance pegin_stays_composes : Composes stays.
Proof.
  split; [unfold stays; auto 10|]. intros b w1 w2 w3 (Hi & Ht & Hb & Hx & Hs) (Hi' & Ht' & Hb' & Hx' & Hs').
  split_and!; [congruence|congruence|auto|auto|].
  destruct Hs' as [->|(s & -> & Hs' & Hts' & Hbs')]; [done|]. right. exists s. split_and!; [done|congruence|congruence|auto].
Qed.

Lemma pegin_stays_keeps {A} (m : SR W FlowError A) : keeps m -> adds effect_backed m -> every stays m.
Proof.
  intros Hm Ha w. destruct (Hm w) as [Hs Hv]. destruct (Ha w) as (l & Hl & HA). unfold stays. rewrite Hs, Hv, Hl.
  split_and!; auto. intros Hb Ht. by apply Forall_app.
Qed.
Lemma pegin_stays_set_ctx f :
  (forall c, request_pegin_btc_tx_id (f c) = request_pegin_btc_tx_id c) -> (forall c, backed c -> backed (f c)) ->
  every stays (set_ctx (E := E) f).
Proof. intros Hf Hb w. unfold stays. cbn. auto 10. Qed.
Lemma pegin_stays_persist : every stays (persist_state (E := E)).
Proof.
  intros w. unfold persist_state, persist_with, on_env, mbind, SR_bind. cbn.
  destruct (save_flow (state w) (env w)) as [[]]; unfold stays; cbn; eauto 10.
Qed.
Lemma pegin_stays_send msg :
  (forall id e, msg <> SetVarPeginAccepted id e) -> every stays (send_bitvmx_msg (E := E) msg).
Proof.
  intros Hm. apply pegin_stays_keeps; [apply keeps_send|]. apply adds_send_with. destruct msg; try done. by destruct (Hm id value).
Qed.
Lemma pegin_stays_marked id : every stays (send_with (signal_done (E := E) id) (Marked id)).
Proof. apply pegin_stays_keeps; [keep|]. by apply adds_send_with. Qed.
Lemma pegin_stays_call c : every stays (map_err domain (call (E := E) c)).
Proof. apply pegin_stays_keeps; unfold call; [keep|]. apply adds_map_err. by apply adds_call. Qed.
Hint Resolve pegin_stays_persist pegin_stays_marked pegin_stays_call : every.
Hint Extern 1 (every _ (set_ctx _)) => apply pegin_stays_set_ctx; [reflexivity|by intros ? []] : every.
Hint Extern 1 (every _ (send_bitvmx_msg _)) => apply pegin_stays_send; discriminate : every.
Hint Resolve keeps_send keeps_protocol_id keeps_op_role keeps_contract_call keeps_take_name keeps_won_name
  keeps_get_ctx : keeps.
Hint Extern 1 (effect_backed _) => exact I : adds.

Lemma pegin_stays_get_ctx : every stays (get_ctx (E := E)).
Proof. apply pegin_stays_keeps; [apply keeps_get_ctx|by apply adds_nothing]. Qed.
Lemma pegin_stays_on_env {Y A} conv (m : SR E Y A) : every stays (on_env conv m).
Proof. apply pegin_stays_keeps; [keep|be_quiet]. Qed.
Hint Resolve pegin_stays_get_ctx pegin_stays_on_env : every.

Lemma pegin_stays_invoke {A} conv p (c : SR W DomainErrors A) :
  keeps c -> adds effect_backed c -> every stays (map_err conv (invoke_contract_safe p verifier c)).
Proof. intros Hk Ha. apply pegin_stays_keeps; [keep|be_quiet]. Qed.
Lemma pegin_stays_accept p : every stays (accept_pegin verifier p).
Proof. apply pegin_stays_invoke; unfold call; [keep|by apply adds_call]. Qed.
Lemma pegin_stays_request p : every stays (request_pegin verifier p).
Proof.
  apply pegin_stays_keeps; [apply keeps_request_pegin|]. unfold request_pegin. apply adds_map_err.
  assert (Hc : adds effect_backed (invoke_contract_safe p verifier (call (E := E) (RequestPegin p))))
    by (unfold call; be_quiet).
  intros w. specialize (Hc w). unfold already_requested. by destruct (invoke_contract_safe _ _ _ w) as [[|[]]].
Qed.
Hint Resolve pegin_stays_accept pegin_stays_request : every.

Lemma pegin_stays_names :
  every stays (get_protocol_id (E := E)) /\ every stays (my_committee_index (E := E)) /\
  every stays (operator_take_transaction_name (E := E)) /\ every stays (operator_won_transaction_name (E := E)).
Proof.
  unfold operator_take_transaction_name, operator_won_transaction_name, my_committee_index, get_protocol_id.
  split_and!; prove_every.
Qed.
Hint Extern 1 (every _ get_protocol_id) => apply pegin_stays_names : every.
Hint Extern 1 (every _ my_committee_index) => apply pegin_stays_names : every.
Hint Extern 1 (every _ operator_take_transaction_name) => apply pegin_stays_names : every.
Hint Extern 1 (every _ operator_won_transaction_name) => apply pegin_stays_names : every.

Lemma pegin_stays_process_step_data s d : data_backed d -> every stays (process_step_data verifier s d).
Proof.
  intros Hd.
  assert (Hacc : forall e, accepted e -> every stays (complete_with_confirmed_pegin_acceptance (E := E) e)).
  { intros e He. unfold complete_with_confirmed_pegin_acceptance.
    assert (every stays (set_ctx (E := E) (set_pegin_accepted e))).
    { apply pegin_stays_set_ctx; [done|]. intros c [Hr Ha]. split; [done|]. by intros e' [= <-]. }
    prove_every. }
  destruct s, d; cbn [process_step_data allows_fast_forward_to_pegin_accepted];
    unfold retry_request_pegin_step, handle_operator_take_transaction_info, handle_operator_won_transaction_info,
      confirm_accept_pegin_transaction, try_get_op_role; try solve [auto|prove_every].
  unfold record_pegin_requested. assert (every stays (set_ctx (E := E) (set_pegin_requested e))).
  { apply pegin_stays_set_ctx; [done|]. intros c [Hr Ha]. split; [|done]. by intros e' [= <-]. }
  prove_every.
Qed.

(** The report of an acceptance. *)
Lemma pegin_stays_report : every stays (send_pegin_accepted_to_bitvmx (E := E)).
Proof.
  intros w. unfold send_pegin_accepted_to_bitvmx. rewrite SR_bind_run with (a := ctx (state w)) (s' := w) by done.
  destruct (pegin_accepted (ctx (state w))) as [e|] eqn:He; [|apply composes_refl].
  rewrite SR_bind_run with (a := e) (s' := w) by done. unfold get_protocol_id.
  destruct (bitvmx_protocol_id (ctx (state w))) as [id|] eqn:Hid.
  2: { rewrite SR_bind_err with (e := Chain [Msg "bitvmx_protocol_id not yet set"]) (s' := w); [apply composes_refl|].
       rewrite SR_bind_run with (a := ctx (state w)) (s' := w) by done. by rewrite Hid. }
  rewrite SR_bind_run with (a := id) (s' := w)
    by (rewrite SR_bind_run with (a := ctx (state w)) (s' := w) by done; by rewrite Hid).
  pose proof (keeps_send (SetVarPeginAccepted id e) w) as [Hs Hv].
  unfold stays. rewrite Hs, Hv. split_and!; auto. intros [Hr Ha] Ht.
  unfold send_bitvmx_msg, send_with, on_env, record, mbind, SR_bind.
  destruct (broker_send _ (env w)) as [[u|x] e']; cbn; [|done]. apply Forall_app. split; [done|]. apply Forall_singleton. by apply Ha.
Qed.

Lemma pegin_stays_setup id : every stays (send_setup_to_bitvmx (E := E) id).
Proof.
  apply pegin_stays_keeps; [apply keeps_send_setup|].
  unfold send_setup_to_bitvmx, get_committee_addresses, get_committee_pubkey_hashes, build_communication_data, bail,
    send_bitvmx_msg, get_protocol_id, get_ctx. be_quiet.
Qed.
Hint Resolve pegin_stays_process_step_data pegin_stays_report pegin_stays_setup : every.

Lemma pegin_stays_build e out amount : every stays (build_pegin_request_message (E := E) e out amount).
Proof. unfold build_pegin_request_message. prove_every. Qed.
Lemma pegin_stays_role : every stays (calc_op_role (E := E)).
Proof. unfold calc_op_role. prove_every. Qed.
Lemma pegin_stays_amount : every stays (extract_pegin_amount (E := E)).
Proof. unfold extract_pegin_amount. prove_every. Qed.
Lemma pegin_stays_hash : every stays (add_operator_take_hash (E := E)).
Proof. unfold add_operator_take_hash, try_get_op_role. prove_every. Qed.
Hint Resolve pegin_stays_build pegin_stays_role pegin_stays_amount pegin_stays_hash : every.
Lemma pegin_stays_prepare : every stays (prepare_pegin_setup (E := E)).
Proof. unfold prepare_pegin_setup, send_pegin_request_to_bitvmx. prove_every. Qed.
Hint Resolve pegin_stays_prepare : every.

Lemma pegin_stays_entry_action complete s :
  (forall d, data_backed d -> every stays (complete d)) -> every stays (entry_action verifier complete s).
Proof.
  intros Hc. pose proof (Hc DataOperatorTakeHashAdded I). pose proof (Hc DataAcceptPeginTransactionDispatched I).
  clear Hc. destruct s; cbn [entry_action];
    unfold request_pegin_spv_proof_msg, request_bitvmx_comm_info, request_operator_take_transaction_info,
      request_operator_won_transaction_info, request_spv_proof, write_completion_marker, dispatch_transaction; prove_every.
Qed.
Hint Resolve pegin_stays_entry_action : every.

Lemma pegin_stays_start_step_with complete next :
  (forall d, data_backed d -> every stays (complete d)) -> every stays (start_step_with verifier complete next).
Proof. intros Hc. unfold start_step_with. prove_every. Qed.

Lemma pegin_stays_start_step_upto depth next : every stays (start_step_upto verifier depth next).
Proof.
  revert next. induction depth as [|depth IH]; intros next; cbn [start_step_upto]; apply pegin_stays_start_step_with;
    intros d Hd; unfold complete_step_with; prove_every.
Qed.
Hint Resolve pegin_stays_start_step_upto : every.

(** *** What a processor does with a flow *)

Definition pegin_ok (s : State) : Prop :=
  ctx_ok (ctx s) /\ flow_id s = flow_id_from_request_pegin_txid (request_pegin_btc_tx_id (ctx s)) /\ backed (ctx s).

Record flow_op {A} (m : SR W FlowError A) : Prop := {
  op_stays : every stays m;
  op_ok w : flow_ok (state w) (saved w) -> flow_ok (state (snd (m w))) (saved (snd (m w)))
}.

Lemma pegin_op_complete d : data_backed d -> flow_op (complete_step verifier d).
Proof.
  intros Hd. split; [unfold complete_step, complete_step_with, start_step; prove_every|].
  intros w. apply complete_step_flow_ok.
Qed.
Lemma pegin_op_failed : flow_op (mark_failed verifier).
Proof.
  split; [unfold mark_failed, start_step; prove_every|]. intros w Hw.
  pose proof (mark_failed_run verifier w Hw) as Hr. destruct (mark_failed verifier w) as [[]]; apply Hr.
Qed.
Lemma pegin_op_status : flow_op (request_transaction_status (E := E)).
Proof.
  split; [unfold request_transaction_status; prove_every|]. intros w.
  assert (Hk : keeps (request_transaction_status (E := E))) by (unfold request_transaction_status; keep).
  by destruct (Hk w) as [-> ->].
Qed.

Lemma pegin_op_behaves {A} (m : SR W FlowError A) : flow_op m -> well_behaved pegin_ok m.
Proof.
  intros [Hstay Hok] w (Hc & Hid & Hb) Hv. specialize (Hstay w).
  destruct (Hok w) as [Hc' Hv']; [split; [done|]; intros s Hs; by apply Hv|].
  destruct Hstay as (Hi & Ht & Hb' & _ & Hs). split.
  - intros _. split; [|done]. split_and!; [done|by rewrite Hi, Ht|auto].
  - destruct Hs as [->|(s & Hs & Hk & Hts & Hbs)]; [by left|right]. exists s.
    split_and!; [done| |done]. split_and!; [by apply Hv'|by rewrite Hk, Hts|auto].
Qed.

End FlowOps.

(** ** Relations that every handler respects *)

Section Handled.
Context `{FlowCodecs, !CommitteeServices E, !PeginServices E, !BridgeNode E, Sha256, !SignatureContracts E,
  CommitteePayloads, !JsonCodecs, HashOrder, !PeginProcessorServices (E := E)}
  (verifier : NativeBridgeVerifier) (cfg : Config).
Abbreviation P := (Processor State RskPegManagerEvents E Effect Tables PeginProcessorState).

(** Nothing new is kept back. *)
Definition safe (f : Tables -> Tables) : Prop :=
  forall t, pending_pegin_requested (f t) ⊆ pending_pegin_requested t /\
    pending_all_operator_take_txids_added (f t) ⊆ pending_all_operator_take_txids_added t /\
    pending_pegin_accepted (f t) ⊆ pending_pegin_accepted t.

Definition plain (d : StepData) : bool :=
  match d with DataPeginRequested _ | DataPeginAccepted _ => false | _ => true end.

(** The flow that [handle_pegin_transaction_found] files. *)
Definition file_found (tx_id : bytes) (now : Z) (e : E) : SR P FlowError unit :=
  let flow := state (new_flow tx_id (flow_id_from_request_pegin_txid tx_id) now e) in
  created ← with_new_flow flow (complete_step verifier DataPeginTransactionFound);
  set_flows (<[flow_id flow := created.2]>).

Class Handled (R : bool -> P -> P -> Prop) := {
  #[global] handled_frames :: FramesServices R;
  handled_tables f : safe f -> every R (set_tables f);
  handled_complete k d : plain d = true -> every R (complete_flow_step verifier k d);
  handled_found tx_id now e : every R (file_found tx_id now e);
  handled_failed k : every R (with_flow k (mark_failed verifier));
  handled_status k : every R (with_flow k request_transaction_status);
  handled_retain : every R (set_flows (filter (fun kv => is_terminal (step (ctx kv.2)) = false)));
  handled_delete k : every R (delete_stored delete_flow k);
  handled_persist : every R persist_processor_state
}.

Context (R : bool -> P -> P -> Prop) `{!Handled R}.
Hint Extern 0 (Handled _) => assumption : every.
Hint Extern 1 (plain _ = true) => reflexivity : every.
Hint Resolve handled_tables handled_complete handled_found handled_failed handled_status handled_retain handled_delete
  handled_persist : every.

Lemma safe_same f :
  (forall t, pending_pegin_requested (f t) = pending_pegin_requested t) ->
  (forall t, pending_all_operator_take_txids_added (f t) = pending_all_operator_take_txids_added t) ->
  (forall t, pending_pegin_accepted (f t) = pending_pegin_accepted t) -> safe f.
Proof. intros H1' H2' H3' t. by rewrite H1', H2', H3'. Qed.
Lemma safe_compose f g : safe f -> safe g -> safe (fun t => f (g t)).
Proof.
  intros Hf Hg t. destruct (Hf (g t)) as (? & ? & ?), (Hg t) as (? & ? & ?).
  split_and!; by etransitivity.
Qed.
Lemma safe_if (b : Tables -> bool) f g : safe f -> safe g -> safe (fun t => if b t then f t else g t).
Proof. intros Hf Hg t. destruct (b t); auto. Qed.
Lemma safe_delete_requested k : safe (set_pending_requested (delete k)).
Proof. intros t. cbn. split_and!; [apply delete_subseteq|done|done]. Qed.
Lemma safe_delete_added k : safe (set_pending_added (delete k)).
Proof. intros t. cbn. split_and!; [done|apply delete_subseteq|done]. Qed.
Lemma safe_delete_accepted k : safe (set_pending_accepted (delete k)).
Proof. intros t. cbn. split_and!; [done|done|apply delete_subseteq]. Qed.
Lemma safe_id : safe (fun t => t).
Proof. by intros t. Qed.
Lemma safe_forget txid : safe (forget_requests txid).
Proof.
  intros t. unfold forget_requests. induction (retry_keys txid t) as [|key l IH]; [done|exact IH].
Qed.
Lemma safe_empty : safe (fun _ => new_tables).
Proof. intros t. cbn. split_and!; apply map_empty_subseteq. Qed.
Hint Resolve safe_delete_requested safe_delete_added safe_delete_accepted safe_id safe_forget safe_if safe_empty : every.
Hint Extern 1 (safe _) => apply safe_same; reflexivity : every.

Lemma pegin_every_terminal_flows : every R terminal_flows.
Proof. unfold terminal_flows. prove_every. Qed.
Hint Resolve pegin_every_terminal_flows : every.

Lemma safe_cleanup id request_txid : safe (fun t =>
  forget_requests request_txid
    (set_pending_requested (delete request_txid) (set_tracker (fun s => s ∖ {[request_txid]})
      (set_unconfirmed_accepts (delete id) (set_accept_retries (cancel id) (set_tx_status (cancel id) t)))))).
Proof.
  apply (safe_compose (forget_requests request_txid)); [apply safe_forget|].
  apply (safe_compose (set_pending_requested _)); [apply safe_delete_requested|by apply safe_same].
Qed.
Hint Resolve safe_cleanup : every.

Lemma pegin_every_cleanup : every R cleanup_terminal_flows.
Proof. unfold cleanup_terminal_flows, cleanup_terminal_flow_state. prove_every. Qed.
Hint Resolve pegin_every_cleanup : every.

(** *** Confirmed events *)

(** What a confirmed event may do: be kept back or be handed to a flow. *)
Definition takes (event : RskPegManagerEvents) : Prop :=
  match event with
  | Events.PeginRequested e =>
      every R (set_tables (set_pending_requested (<[fb_32_to_txid (pr_requestPeginTxid (ev_inner e)) := e]>))) /\
      forall k, every R (complete_flow_step verifier k (DataPeginRequested (ev_inner e)))
  | Events.PeginAccepted e =>
      every R (set_tables (set_pending_accepted (<[fb_32_to_txid (pa_acceptPeginTxid (ev_inner e)) := e]>))) /\
      forall k, every R (complete_flow_step verifier k (DataPeginAccepted (ev_inner e)))
  | Events.AllOperatorTakeTxidsAdded e =>
      every R (set_tables (set_pending_added (<[fb_32_to_txid (ta_acceptPeginTxid (ev_inner e)) := e]>)))
  | _ => True
  end.

Lemma every_pegin_requested e : takes (Events.PeginRequested e) -> every R (handle_pegin_requested verifier e).
Proof. intros [Hb Hc]. unfold handle_pegin_requested, create_flow_for_pegin_requested. prove_every. Qed.
Lemma every_pegin_accepted e : takes (Events.PeginAccepted e) -> every R (handle_pegin_accepted verifier e).
Proof. intros [Hb Hc]. unfold handle_pegin_accepted, flow_by_accept_pegin_txid. prove_every. Qed.
Lemma every_all_added e :
  takes (Events.AllOperatorTakeTxidsAdded e) -> every R (handle_all_operator_take_tx_hashes_added verifier cfg e).
Proof. cbn. intros Hb. unfold handle_all_operator_take_tx_hashes_added, flow_by_accept_pegin_txid. prove_every. Qed.

Lemma pegin_every_confirmed event : takes event -> every R (process_confirmed_rsk_event verifier cfg event).
Proof.
  intros Ht. destruct event; cbn [process_confirmed_rsk_event]; try apply pegin_every_cleanup.
  - pose proof (every_pegin_requested e Ht). clear Ht. prove_every.
  - pose proof (every_pegin_accepted e Ht). clear Ht. prove_every.
  - pose proof (every_all_added e Ht). clear Ht. prove_every.
Qed.

(** *** Handlers that take up events that were kept back *)

Class Replays := {
  replays_requested tx_id : every R (replay_pending_pegin_requested verifier cfg tx_id);
  replays_added txid : every R (replay_pending_all_operator_take_txids_added verifier cfg txid);
  replays_accepted txid : every R (replay_pending_pegin_accepted verifier cfg txid)
}.

Lemma takes_replays : (forall event, takes event) -> Replays.
Proof.
  intros Ht. assert (forall event, every R (process_confirmed_rsk_event verifier cfg event))
    by (intros event; by apply pegin_every_confirmed).
  split; intros; unfold replay_pending_pegin_requested, replay_pending_all_operator_take_txids_added,
    replay_pending_pegin_accepted, flow_by_accept_pegin_txid; prove_every.
Qed.

Context `{!Replays}.
Hint Extern 0 Replays => assumption : every.
Hint Resolve replays_requested replays_added replays_accepted : every.

Lemma pegin_every_signed block : every R (process_unhandled_confirmed_sig_flow_events verifier cfg block).
Proof. unfold process_unhandled_confirmed_sig_flow_events, dispatch_signed, pegin_flow_by_protocol_id. prove_every. Qed.
Lemma pegin_every_status_tick : every R handle_transaction_status_tick.
Proof. unfold handle_transaction_status_tick. prove_every. Qed.
Lemma every_flow_id tx_id : every R (request_pegin_flow_id tx_id).
Proof. unfold request_pegin_flow_id. prove_every. Qed.
Lemma every_request_retry proof attempt : every R (schedule_request_pegin_retry cfg proof attempt).
Proof. unfold schedule_request_pegin_retry. prove_every. Qed.
Lemma every_accept_retry id attempt : every R (schedule_accept_pegin_retry cfg id attempt).
Proof. unfold schedule_accept_pegin_retry. prove_every. Qed.
Hint Resolve every_flow_id every_request_retry every_accept_retry : every.
Lemma every_retry_request hash : every R (retry_request_pegin verifier cfg hash).
Proof. unfold retry_request_pegin. prove_every. Qed.
Lemma every_retry_accept id : every R (retry_accept_pegin verifier cfg id).
Proof. unfold retry_accept_pegin. prove_every. Qed.
Hint Resolve every_retry_request every_retry_accept : every.
Lemma pegin_every_retry_tick : every R (handle_pegin_retry_tick verifier cfg).
Proof. unfold handle_pegin_retry_tick. prove_every. Qed.

Lemma pegin_every_found tx_id : every R (handle_pegin_transaction_found verifier tx_id).
Proof.
  unfold handle_pegin_transaction_found. cbn zeta. apply every_get_bind. intros p.
  destruct (_ || _); [apply composes_refl|].
  pose proof (handled_found tx_id (utc_now (penv p)) (penv p)) as Hf. unfold file_found in Hf. cbn zeta in Hf.
  assert (Ht : every R (set_tables (set_tracker (fun s => s ∪ {[tx_id]})))) by prove_every.
  pose proof (every_bind R _ _ Hf (fun _ => Ht) p) as Hd. rewrite SR_bind_assoc in Hd. exact Hd.
Qed.
Lemma every_spv_request tx_id proof : every R (handle_spv_proof_for_request_pegin verifier cfg tx_id proof).
Proof. unfold handle_spv_proof_for_request_pegin. prove_every. Qed.
Lemma every_spv_accept tx_id proof : every R (handle_spv_proof_for_accept_pegin verifier cfg tx_id proof).
Proof. unfold handle_spv_proof_for_accept_pegin, flow_by_accept_pegin_txid. prove_every. Qed.
Hint Resolve pegin_every_found every_spv_request every_spv_accept : every.
Lemma pegin_every_spv tx_id proof : every R (handle_spv_proof verifier cfg tx_id proof).
Proof. unfold handle_spv_proof, has_flow_waiting_for_accept_pegin_spv, flow_by_accept_pegin_txid. prove_every. Qed.
Lemma every_bitvmx_accepted protocol_id data : every R (handle_bitvmx_pegin_accepted verifier cfg protocol_id data).
Proof. unfold handle_bitvmx_pegin_accepted, pegin_flow_by_protocol_id. prove_every. Qed.
Lemma every_transaction_info protocol_id name transaction :
  every R (handle_transaction_info verifier protocol_id name transaction).
Proof. unfold handle_transaction_info, pegin_flow_by_protocol_id. prove_every. Qed.
Lemma pegin_every_tx_status protocol_id st : every R (handle_transaction_status_received verifier cfg protocol_id st).
Proof. unfold handle_transaction_status_received, pegin_flow_by_protocol_id. prove_every. Qed.
Hint Resolve pegin_every_spv every_bitvmx_accepted every_transaction_info pegin_every_tx_status : every.

Lemma pegin_every_bitvmx event : every R (process_new_bitvmx_event verifier cfg event).
Proof. unfold process_new_bitvmx_event. prove_every. Qed.
Lemma pegin_every_user req : every R (process_user_request verifier req).
Proof. unfold process_user_request, fail_flow. prove_every. Qed.
Lemma pegin_every_reconstruct : every R (reconstruct_runtime_state_from_flows cfg).
Proof. unfold reconstruct_runtime_state_from_flows, reconstruct_flow. prove_every. Qed.

(** What [process_new_block] does before it confirms events. *)
Definition before_confirmations (block : RskBlockAndUncles) : SR P FlowError unit :=
  _ ← cleanup_terminal_flows;
  _ ← process_unhandled_confirmed_sig_flow_events verifier cfg block;
  _ ← handle_transaction_status_tick;
  handle_pegin_retry_tick verifier cfg.

Lemma pegin_every_before block : every R (before_confirmations block).
Proof.
  pose proof pegin_every_signed. pose proof pegin_every_status_tick. pose proof pegin_every_retry_tick.
  unfold before_confirmations. prove_every.
Qed.

Lemma pegin_every_rsk event :
  (required_confirmations cfg = 0 -> takes event) ->
  (forall id, every R (on_confirmer (stop_confirming_event id))) ->
  (forall id removed n, managed_event event = Some (id, removed, n) ->
     every R (on_confirmer (confirm_event "Starting confirming" id (required_confirmations cfg) n event))) ->
  every R (process_new_rsk_event verifier cfg event).
Proof.
  intros Hnow Hstop Hconfirm. unfold process_new_rsk_event.
  apply every_bind; [apply _|apply pegin_every_cleanup|intros []].
  assert (Hrest : every R
    (if required_confirmations cfg =? 0 then
       _ ← process_confirmed_rsk_event verifier cfg event; persist_processor_state
     else
       match managed_event event with
       | None => mret tt
       | Some (id, is_removal, block_num) =>
           _ ← (if (is_removal : bool) then _ ← on_confirmer (stop_confirming_event id); mret tt
                else on_confirmer (confirm_event "Starting confirming" id (required_confirmations cfg) block_num event));
           persist_processor_state
       end)).
  { destruct (Z.eqb_spec (required_confirmations cfg) 0) as [Hz|_].
    - pose proof (pegin_every_confirmed event (Hnow Hz)). clear Hnow Hconfirm Hstop. prove_every.
    - clear Hnow. destruct (managed_event event) as [[[id removed] n]|] eqn:Hi; [|prove_every].
      specialize (Hconfirm id removed n eq_refl). prove_every. }
  assert (Hsig : every R (_ ← delegate_signature_event event; persist_processor_state))
    by (clear Hnow Hstop Hconfirm Hrest; prove_every).
  destruct event; first [exact Hrest|exact Hsig].
Qed.

End Handled.

Section NewBlock.
Context `{FlowCodecs, !CommitteeServices E, !PeginServices E, !BridgeNode E, Sha256, !SignatureContracts E,
  CommitteePayloads, !JsonCodecs, HashOrder, !PeginProcessorServices (E := E)}
  (verifier : NativeBridgeVerifier) (cfg : Config).
Abbreviation P := (Processor State RskPegManagerEvents E Effect Tables PeginProcessorState).

#[export] Instance pegin_same_confirmer : Handled verifier (same_confirmer (X := Effect) (E := E)).
Proof.
  split; intros; unfold complete_flow_step, file_found, persist_processor_state; cbn zeta; try apply _; prove_every.
Qed.

Lemma same_confirmer_takes event : takes verifier (same_confirmer (X := Effect) (E := E)) event.
Proof. destruct event; cbn; try done; unfold complete_flow_step; split_and?; auto with every. Qed.

Lemma pegin_new_block_rule (R : bool -> P -> P -> Prop) `{!Handled verifier R, !Replays verifier cfg R} block p :
  every R (on_confirmer (on_tracker (update block))) ->
  (forall id, every R (on_confirmer (stop_confirming_event id))) ->
  (forall c1 key e, on_tracker (update block) (confirmer p) = (Ok tt, c1) ->
     events_confirming c1 !! key = Some e -> is_confirmed (confirmation e) (blockchain_view c1) = true ->
     takes verifier R (event_data e)) ->
  let m := process_new_block verifier cfg block in R (panicked (fst (m p))) p (snd (m p)).
Proof.
  intros Hupd Hstop Hev m.
  assert (Hm : m p = (_ ← before_confirmations verifier cfg block; _ ← process_block_confirmations verifier cfg block;
    persist_processor_state) p).
  { unfold m, process_new_block, before_confirmations. rewrite !SR_bind_assoc. unfold mbind, SR_bind.
    repeat (case_match; try done). }
  rewrite Hm. clear Hm m.
  pose proof (pegin_every_before verifier cfg R block p) as HR.
  assert (Hrep : Replays verifier cfg (same_confirmer (X := Effect) (E := E)))
    by (apply takes_replays; [apply _|apply same_confirmer_takes]).
  pose proof (pegin_every_before verifier cfg same_confirmer block p) as Hc.
  unfold same_confirmer in Hc. destruct (before_confirmations verifier cfg block p) as [[[]|x] p1] eqn:Hb; cbn in HR, Hc.
  2: { by rewrite (SR_bind_err _ _ _ _ _ Hb). }
  rewrite (SR_bind_run _ _ _ _ _ Hb). eapply composes_trans; [exact HR|].
  assert (Hconf : R (panicked (fst (confirm_block block (process_confirmed_rsk_event verifier cfg) p1))) p1
    (snd (confirm_block block (process_confirmed_rsk_event verifier cfg) p1))).
  { apply (confirm_block_rule R); [done| |done|].
    - intros d. apply pegin_every_confirmed; [apply _|apply same_confirmer_takes].
    - rewrite Hc. intros c1 key e Hu He Hcf. apply pegin_every_confirmed; [done|by eapply Hev]. }
  assert (Hrest : forall had : bool, every R (_ ← (if had then cleanup_terminal_flows else mret tt);
    persist_processor_state)).
  { intros had. pose proof (pegin_every_cleanup verifier R). pose proof handled_persist. prove_every. }
  unfold process_block_confirmations. rewrite SR_bind_assoc.
  destruct (confirm_block _ _ p1) as [[had|x] p2] eqn:Hcb; cbn in Hconf.
  - rewrite (SR_bind_run _ _ _ _ _ Hcb). eapply composes_trans; [exact Hconf|apply Hrest].
  - by rewrite (SR_bind_err _ _ _ _ _ Hcb).
Qed.

End NewBlock.

(** ** What the processor holds and reports *)

Section Invariant.
Context `{FlowCodecs, !CommitteeServices E, !PeginServices E, !BridgeNode E, Sha256, !SignatureContracts E,
  CommitteePayloads, !JsonCodecs, HashOrder, !PeginProcessorServices (E := E)}
  (verifier : NativeBridgeVerifier) (cfg : Config).
Abbreviation P := (Processor State RskPegManagerEvents E Effect Tables PeginProcessorState).

Section History.
(** The events that the processor took for settled. *)
Context (settled : RskPegManagerEvents -> Prop).

Definition requested (e : PeginRequested) : Prop := exists ev, settled (Events.PeginRequested ev) /\ ev_inner ev = e.
Definition accepted (e : PeginAccepted) : Prop := exists ev, settled (Events.PeginAccepted ev) /\ ev_inner ev = e.

Definition tables_backed (t : Tables) : Prop :=
  (forall k ev, pending_pegin_requested t !! k = Some ev -> settled (Events.PeginRequested ev)) /\
  (forall k ev, pending_all_operator_take_txids_added t !! k = Some ev -> settled (Events.AllOperatorTakeTxidsAdded ev)) /\
  (forall k ev, pending_pegin_accepted t !! k = Some ev -> settled (Events.PeginAccepted ev)).

Record books (p : P) : Prop := {
  books_tables : tables_backed (tables p);
  books_trace : Forall (effect_backed accepted) (ptrace p);
  books_stored st : disk_tables p = Some st -> tables_backed (st_tables st)
}.

Abbreviation ok := (pegin_ok requested accepted).
Abbreviation pegin_memory_ok := (memory_ok (N := PeginProcessorState) ok managed_event (required_confirmations cfg)).
Abbreviation pegin_store_ok := (store_ok ok managed_event (required_confirmations cfg) st_events_confirming).
Abbreviation inv := (inv ok managed_event (required_confirmations cfg) st_events_confirming
  (S := State) (E := E) (X := Effect) (Q := Tables)).

Definition kept (b : bool) (p p' : P) : Prop :=
  books p -> pegin_memory_ok p -> pegin_store_ok p -> books p' /\ (b = false -> pegin_memory_ok p') /\ pegin_store_ok p'.

Lemma kept_inv {T} (m : SR P FlowError T) :
  every inv m -> (forall p, books p -> pegin_memory_ok p -> books (snd (m p))) -> every kept m.
Proof. intros Hm Hb p Hp Hmem Hst. destruct (Hm p Hmem Hst). auto. Qed.

Lemma kept_when b (p p' : P) : (books p -> kept b p p') -> kept b p p'.
Proof. intros Hk Hb. by apply Hk. Qed.

Lemma books_same (p p' : P) :
  tables p' = tables p -> ptrace p' = ptrace p -> disk_tables p' = disk_tables p -> books p -> books p'.
Proof. intros Ht Hx Hd []. by split; rewrite ?Ht, ?Hx, ?Hd. Qed.

#[export] Instance kept_frames : FramesServices kept.
Proof.
  split; [split|].
  - by intros b p ?.
  - intros b p1 p2 p3 H12 H23 Hb Hm Hs. destruct (H12 Hb Hm Hs) as (Hb2 & Hm2 & Hs2). by apply H23; auto.
  - intros b p sf e sc Hb [] []. split_and!; [by apply (books_same p)|by split|by split].
Qed.

Lemma kept_tables f : (forall t, tables_backed t -> tables_backed (f t)) -> every kept (set_tables f).
Proof.
  intros Hf. apply kept_inv; [prove_every|]. intros p [Ht Hx Hd] _. by split; [apply Hf|..].
Qed.
Lemma safe_backed f t : safe f -> tables_backed t -> tables_backed (f t).
Proof.
  intros Hf (Hr & Ha & Hc). destruct (Hf t) as (Hr' & Ha' & Hc').
  split_and!; intros k ev Hev; (eapply Hr || eapply Ha || eapply Hc); by eapply lookup_weaken.
Qed.

Lemma kept_with_flow {T} k (m : SR (Flow.World State E Effect) FlowError T) :
  flow_op requested accepted m -> every kept (with_flow k m).
Proof.
  intros Hm. apply kept_inv; [by apply inv_with_flow, pegin_op_behaves|].
  intros p [Ht Hx Hd] [Hfl _]. unfold with_flow. destruct (flows p !! k) as [s|] eqn:Hs; [|done].
  destruct (Hfl _ _ Hs) as (_ & _ & _ & Hback). set (w := mkWorld s _ _ _).
  pose proof (op_stays _ _ _ Hm w) as (_ & _ & _ & Hx' & _). destruct (m w) as [r w']. cbn in *. split; [done|auto|done].
Qed.

Lemma new_flow_fresh tx_id now (e : E) : ok (state (new_flow tx_id (flow_id_from_request_pegin_txid tx_id) now e)).
Proof. by split_and!. Qed.

Lemma kept_found tx_id now e : every kept (file_found verifier tx_id now e).
Proof.
  pose proof (pegin_op_complete verifier requested accepted DataPeginTransactionFound I) as Hop.
  apply kept_inv.
  - apply (inv_with_new_flow ok managed_event _ st_events_confirming _ _ (pegin_op_behaves _ _ _ Hop)), new_flow_fresh.
  - intros p [Ht Hx Hd] _. unfold file_found, with_new_flow, mbind, SR_bind. set (w := mkWorld _ _ _ _).
    pose proof (op_stays _ _ _ Hop w) as (_ & _ & _ & Hx' & _). 
    destruct (complete_step verifier DataPeginTransactionFound w) as [[] w']; cbn in *;
      (split; [done|apply Hx'; [done|done]|done]).
Qed.

#[export] Instance kept_handled : Handled verifier kept.
Proof.
  split; intros.
  - apply _.
  - apply kept_tables. intros t. by apply safe_backed.
  - apply kept_with_flow, pegin_op_complete. by destruct d.
  - apply kept_found.
  - apply kept_with_flow, pegin_op_failed.
  - apply kept_with_flow, pegin_op_status.
  - apply kept_inv; [apply inv_retain|]. intros p Hb _. by apply (books_same p).
  - apply kept_inv; [apply inv_delete_stored|]. intros p Hb _. apply (books_same p); [..|done];
      unfold delete_stored, on_services, mbind, SR_bind; by destruct (delete_flow _ _) as [[]].
  - apply kept_inv; [by apply inv_save_tables|]. intros p [Ht Hx Hd] _.
    unfold persist_processor_state, save_tables, on_services, mbind, SR_bind. cbn.
    destruct (save_processor_state _ _) as [[]]; cbn; split; try done. by intros st [= <-].
Qed.

Lemma kept_takes event : settled event -> takes verifier kept event.
Proof.
  intros He. destruct event; cbn; try done; [split..|]; intros;
    try (apply kept_with_flow, pegin_op_complete; by exists e);
    apply kept_tables; intros t (Hr & Ha & Hc); split_and!; cbn; auto; intros k' ev [[_ <-]|[_ Hk]]%lookup_insert_Some; eauto.
Qed.

#[export] Instance kept_replays : Replays verifier cfg kept.
Proof.
  assert (Hgo : forall f event, safe f -> settled event ->
    every kept (_ ← set_tables f; process_confirmed_rsk_event verifier cfg event)).
  { intros f event Hf He. apply every_bind; [apply _|by apply (handled_tables verifier)|intros []].
    apply pegin_every_confirmed; [apply _|by apply kept_takes]. }
  split; intros txid p; apply kept_when; intros [(Hr & Ha & Hc) _ _].
  - unfold replay_pending_pegin_requested. rewrite SR_bind_run with (a := pending_pegin_requested (tables p)) (s' := p) by done.
    destruct (_ !! txid) as [ev|] eqn:Hev; [|apply composes_refl]. apply Hgo; [apply safe_delete_requested|eauto].
  - unfold replay_pending_all_operator_take_txids_added.
    destruct (flow_by_accept_pegin_txid txid p) as [[flow|x] p1] eqn:Hf; [|done].
    rewrite (SR_bind_run _ _ _ _ _ Hf), SR_bind_run with (a := p1) (s' := p1) by done. injection Hf as _ <-.
    destruct (negb _); [apply composes_refl|].
    destruct (_ !! txid) as [ev|] eqn:Hev; [|apply composes_refl]. apply Hgo; [apply safe_delete_added|eauto].
  - unfold replay_pending_pegin_accepted. rewrite SR_bind_run with (a := pending_pegin_accepted (tables p)) (s' := p) by done.
    destruct (_ !! txid) as [ev|] eqn:Hev; [|apply composes_refl]. apply Hgo; [apply safe_delete_accepted|eauto].
Qed.

Lemma kept_on_confirmer {T} (m : SR _ failure T) : every inv (on_confirmer m) -> every kept (on_confirmer m).
Proof. intros Hm. apply kept_inv; [done|]. intros p Hb _. rewrite on_confirmer_run. by apply (books_same p). Qed.

Lemma kept_shutdown : every kept shutdown.
Proof.
  assert (Hf : every kept (set_flows (fun _ => ∅))).
  { apply kept_inv; [intros p; apply inv_set_flows; intros _; apply filed_empty|]. intros p Hb _. by apply (books_same p). }
  pose proof (kept_on_confirmer _ (inv_clear ok managed_event (required_confirmations cfg) st_events_confirming
    (S := State) (E := E) (X := Effect) (Q := Tables))).
  pose proof (handled_tables verifier (R := kept) _ safe_empty). unfold shutdown. prove_every.
Qed.

(** Blocks have numbers below the last one of 64 bits. *)
Definition input_ok (i : Input) : Prop :=
  match i with InBlock block => 0 <= bu_number block < 2 ^ 64 - 1 | _ => True end.

(** The events that an input settles: those that have their confirmations with a
    block, or all at once if none are required. *)
Definition settles (p : P) (i : Input) (event : RskPegManagerEvents) : Prop :=
  match i with
  | InBlock block => Processor.final managed_event (required_confirmations cfg) p block event
  | InRskEvent e => required_confirmations cfg = 0 /\ event = e
  | _ => False
  end.

Lemma kept_process i p :
  input_ok i -> confirmer_ok managed_event (required_confirmations cfg) (confirmer p) ->
  (forall event, settles p i event -> settled event) ->
  let m := process verifier cfg i in kept (panicked (fst (m p))) p (snd (m p)).
Proof.
  intros Hi Hok Hev. destruct i as [block|event|event|req|]; cbn [process].
  - apply (pegin_new_block_rule verifier cfg kept).
    + by apply kept_on_confirmer, inv_update.
    + intros id. apply kept_on_confirmer, inv_stop.
    + intros c1 key e Hu He Hc. apply kept_takes, Hev. by eapply confirmed_final.
  - apply (pegin_every_rsk verifier cfg kept).
    + intros Hz. apply kept_takes, Hev. done.
    + intros id. apply kept_on_confirmer, inv_stop.
    + intros id removed n He. by eapply kept_on_confirmer, inv_confirm.
  - apply (pegin_every_bitvmx verifier cfg kept).
  - apply (pegin_every_user verifier kept).
  - apply kept_shutdown.
Qed.

(** *** Starting from the store *)

Lemma kept_apply st p :
  disk_tables p = Some st ->
  let m := apply_processor_state cfg st in kept (panicked (fst (m p))) p (snd (m p)).
Proof.
  intros Hst m Hb [Hfl Hev] [Hd Ht]. destruct (restore_confirmer _ _ _ (Ht _ Hst)) as (es & t & Hr & Hok).
  unfold m, apply_processor_state. rewrite Hr.
  set (p1 := set_confirmer (mkConfirmer es t) p). rewrite SR_bind_run with (a := tt) (s' := p1) by done.
  assert (Hrest : every kept (_ ← set_tables (fun _ => st_tables st);
    match restore_signatures (map_to_list (st_signature_flows st)) (required_confirmations cfg) with
    | Err f => sfail (from_failure f)
    | Ok l => set_signature_flows (fun _ => list_to_map l)
    end)).
  { pose proof (kept_tables (fun _ => st_tables st) (fun _ _ => books_stored p Hb st Hst)). prove_every. }
  apply (Hrest p1); [by apply (books_same p)|by split..].
Qed.

Lemma kept_restore : every kept (restore_processor_state cfg).
Proof.
  apply every_bind; [apply _|apply (every_on_services kept)|intros _]. apply (every_get_bind kept). intros p.
  apply (leads_bind kept); [|intros; apply (pegin_every_reconstruct verifier cfg kept)].
  destruct (disk_tables p) as [st|] eqn:Hst; [by apply kept_apply|apply (every_ret kept)].
Qed.

Lemma kept_start : every kept (start cfg).
Proof.
  unfold start. apply every_bind; [apply _|apply (every_expect_services kept)|intros _].
  apply every_bind; [apply _|apply (every_expect_services kept)|intros _].
  intros p. apply (leads_bind kept); [apply (every_sget kept)|]. intros p' p'' [= <- <-]. apply (leads_bind kept).
  - intros Hb Hm Hs. split; [by apply (books_same p)|].
    apply inv_set_flows; [intros _; apply (filed_restored ok), Hs|done..].
  - intros _ p1 _. apply leads_expect; [|apply kept_restore]. intros p2 p3 Hk Hb Hm Hs. by destruct (Hk Hb Hm Hs) as (? & _ & ?).
Qed.

End History.

(** *** Runs of the process

    The process starts with an empty store, handles inputs with any outcome
    while its services change, may stop between them or die in one that panics,
    and starts again from what the store holds.  The flag tells that it is not running;
    the list is its past. *)
Inductive reachable : bool -> list (Past P Input) -> P -> Prop :=
| R_empty e : reachable true [] (new_processor ∅ None e)
| R_start b past p e :
    reachable b past p ->
    let r := start cfg (new_processor (disk p) (disk_tables p) e) in
    reachable (negb (is_ok (fst r))) (past ++ [Started]) (snd r)
| R_env past p e : reachable false past p -> reachable false past (set_env e p)
| R_input past p i :
    reachable false past p -> input_ok i ->
    let r := process verifier cfg i p in reachable (panicked (fst r)) (past ++ [Took p i]) (snd r).

(** The events that the process took for settled in its past. *)
Definition settled_in (past : list (Past P Input)) (event : RskPegManagerEvents) : Prop :=
  exists p i, Took p i ∈ past /\ settles p i event.

Lemma settled_in_app past past' event : settled_in past event -> settled_in (past ++ past') event.
Proof. intros (p & i & Hin & Hs). exists p, i. split; [|done]. apply elem_of_app. by left. Qed.

Abbreviation pegin_memory_ok settled := (memory_ok (N := PeginProcessorState)
  (pegin_ok (requested settled) (accepted settled)) managed_event (required_confirmations cfg)).
Abbreviation pegin_store_ok settled := (store_ok
  (pegin_ok (requested settled) (accepted settled)) managed_event (required_confirmations cfg) st_events_confirming).

Section Mono.
Context (before after : RskPegManagerEvents -> Prop) (Hmono : forall event, before event -> after event).

Lemma ok_mono s : pegin_ok (requested before) (accepted before) s -> pegin_ok (requested after) (accepted after) s.
Proof.
  intros (Hc & Hid & Hr & Ha). split_and!; [done|done|split]; intros e He;
    [destruct (Hr e He) as (ev & Hev & <-)|destruct (Ha e He) as (ev & Hev & <-)]; exists ev; auto.
Qed.
Lemma filed_mono (m : gmap bytes State) :
  filed (pegin_ok (requested before) (accepted before)) m -> filed (pegin_ok (requested after) (accepted after)) m.
Proof. intros Hm k s Hs. destruct (Hm k s Hs). auto using ok_mono. Qed.
Lemma tables_backed_mono t : tables_backed before t -> tables_backed after t.
Proof. intros (Hr & Ha & Hc). split_and!; eauto. Qed.
Lemma books_mono (p : P) : books before p -> books after p.
Proof.
  intros [Ht Hx Hd]. split; [by apply tables_backed_mono| |intros; by apply tables_backed_mono; auto].
  eapply Forall_impl; [exact Hx|]. intros [[]| |]; cbn; try done. intros (ev & Hev & <-). exists ev. auto.
Qed.
Lemma memory_mono (p : P) : pegin_memory_ok before p -> pegin_memory_ok after p.
Proof. intros [Hf He]. split; [by apply filed_mono|done]. Qed.
Lemma store_mono (p : P) : pegin_store_ok before p -> pegin_store_ok after p.
Proof. intros [Hf He]. split; [by apply filed_mono|done]. Qed.
End Mono.

Lemma pegin_reachable_ok b past p :
  reachable b past p ->
  let settled := settled_in past in
  books settled p /\ (b = false -> pegin_memory_ok settled p) /\ pegin_store_ok settled p.
Proof.
  induction 1 as [e|b past p e Hp (Hb & _ & Hs)|past p e Hp (Hb & Hm & Hs)|past p i Hp (Hb & Hm & Hs) Hi]; cbn zeta.
  - split_and!; [|done|split; [apply filed_empty|done]]. split; [by split_and!|constructor|done].
  - pose proof (settled_in_app past [Started]) as Hmono.
    destruct (kept_start (settled_in (past ++ [Started])) (new_processor (disk p) (disk_tables p) e)) as (Hb' & Hm' & Hs').
    + split; [by split_and!|constructor|apply (books_stored _ p (books_mono _ _ Hmono p Hb))].
    + split; [apply filed_empty|apply confirmer_ok_new].
    + destruct (store_mono _ _ Hmono p Hs). by split.
    + split_and!; [done| |done]. intros Hr. apply Hm'. unfold r in *. by destruct (fst _).
  - split_and!; [by apply (books_same _ p)|intros _; destruct (Hm eq_refl); by split|destruct Hs; by split].
  - pose proof (settled_in_app past [Took p i]) as Hmono. specialize (Hm eq_refl).
    apply (kept_process (settled_in (past ++ [Took p i])) i p Hi (mem_events _ _ _ _ Hm));
      eauto using books_mono, memory_mono, store_mono.
    intros event Hev. exists p, i. split; [|done]. apply elem_of_app. right. by apply list_elem_of_singleton.
Qed.

End Invariant.

(** ** Starting again *)

Section Restart.
Context `{FlowCodecs, !CommitteeServices E, !PeginServices E, !BridgeNode E, Sha256, !SignatureContracts E,
  CommitteePayloads, !JsonCodecs, HashOrder, !PeginProcessorServices (E := E)} (cfg : Config).
Abbreviation P := (Processor State RskPegManagerEvents E Effect Tables PeginProcessorState).


#[local] Arguments schedule : simpl never.
#[local] Arguments is_scheduled : simpl never.















End Restart.

(** ** Guarantees *)

Section Guarantees.
Context `{FlowCodecs, !CommitteeServices E, !PeginServices E, !BridgeNode E, Sha256, !SignatureContracts E,
  CommitteePayloads, !JsonCodecs, HashOrder, !PeginProcessorServices (E := E)}.
Abbreviation P := (Processor State RskPegManagerEvents E Effect Tables PeginProcessorState).

(** An event that had its confirmations in the past of the process: it was waiting
    when the process took a block, and with that block its own block lay deep
    enough. *)
Definition final_in (cfg : Config) (past : list (Past P Input)) (event : RskPegManagerEvents) : Prop :=
  exists p block, Took p (InBlock block) ∈ past /\
    Processor.final managed_event (required_confirmations cfg) p block event.

Lemma settled_final cfg past event :
  required_confirmations cfg <> 0 -> settled_in cfg past event -> final_in cfg past event.
Proof.
  intros Hreq (p & i & Hin & Hs). destruct i as [block| | | |]; cbn in Hs; try done; [|by destruct Hs].
  by exists p, block.
Qed.

(** C3: The peg-in processor acts on final events only, however long it keeps them
    back.  With a required number of confirmations other than zero, and through
    any number of inputs, failures, panics and restarts: every acceptance that
    BitVMX is told of, every request and acceptance that a flow of the store
    records, and every event that is kept back in memory or in the store for a
    flow that is not ready was waiting in this very process when it took some block
    of its past, and was buried under the required number of blocks with it. *)
Theorem pegin_acts_on_final_events verifier cfg (b : bool) past (p : P) :
  reachable verifier cfg b past p -> required_confirmations cfg <> 0 ->
  let requested := requested (final_in cfg past) in
  let accepted := accepted (final_in cfg past) in
  (forall id e, Sent (SetVarPeginAccepted id e) ∈ ptrace p -> accepted e) /\
  (forall k s, disk p !! k = Some s ->
     (forall e, pegin_requested (ctx s) = Some e -> requested e) /\
     (forall e, pegin_accepted (ctx s) = Some e -> accepted e)) /\
  tables_backed (final_in cfg past) (tables p) /\
  (forall st, disk_tables p = Some st -> tables_backed (final_in cfg past) (st_tables st)).
Proof.
  intros Hp Hreq requested accepted. destruct (pegin_reachable_ok _ _ _ _ _ Hp) as (Hb & _ & Hs).
  pose proof (fun event => settled_final cfg past event Hreq) as Hmono.
  destruct (books_mono _ _ Hmono p Hb) as [Ht Hx Hd]. split_and!; try done; [|].
  - intros id e He. rewrite Forall_forall in Hx. exact (Hx _ He).
  - intros k s Hk. destruct (filed_mono _ _ Hmono _ (store_flows _ _ _ _ _ Hs) k s Hk) as (_ & _ & _ & Hback). exact Hback.
Qed.

(** C16: The peg-in processor keeps its books in order.  Through any number of
    inputs, failures, panics and restarts, every peg-in in memory and in the store
    is filed under the identifier derived from its Bitcoin transaction and has the
    data its step needs, and every event that awaits confirmations is filed under
    its name and counts from its own block. *)
Theorem pegin_processor_invariant verifier cfg (b : bool) past (p : P) :
  reachable verifier cfg b past p ->
  let ok s := ctx_ok (ctx s) /\ flow_id s = flow_id_from_request_pegin_txid (request_pegin_btc_tx_id (ctx s)) in
  (b = false -> memory_ok ok managed_event (required_confirmations cfg) p) /\
  store_ok ok managed_event (required_confirmations cfg) st_events_confirming p.
Proof.
  intros Hp ok. destruct (pegin_reachable_ok _ _ _ _ _ Hp) as (_ & Hm & Hs).
  assert (Hok : forall m, filed (pegin_ok (requested (settled_in cfg past)) (accepted (settled_in cfg past))) m -> filed ok m).
  { intros m Hf k s Hk. destruct (Hf k s Hk) as (Hid & Hc & Hi & _). done. }
  split; [intros Hb; destruct (Hm Hb)|destruct Hs]; split; auto.
Qed.


End Guarantees.

(** ** Sample runs *)

Module Sample.

Export Flow.Sample.
#[export] Existing Instance NativeBridge.Sample.node.

#[export] Instance sample_payloads : CommitteePayloads := Build_CommitteePayloads unit unit unit unit.
#[export] Instance order : HashOrder := {| shuffle A l := l; shuffle_perm A l := Permutation_refl l |}.
#[export] Instance json : JsonCodecs := {|
  parse_pegin_accepted _ := Some PeginFlow.Sample.accepted;
  parse_pegout_accepted _ := None;
  parse_funds_advance_spv _ := None;
  parse_union_spv_notification _ := None
|}.
#[export] Instance flow_services : PeginServices (list bytes) := {|
  PeginFlow.contract_call _ e := (Ok tt, e);
  broker_send _ e := (Ok tt, e);
  save_flow _ e := (Ok tt, e);
  signal_done _ e := (Ok tt, e)
|}.
#[export] Instance signature_services : SignatureContracts (list bytes) := {|
  BtcSignature.contract_call _ e := (Ok tt, e)
|}.
#[export] Instance processor_services : PeginProcessorServices (E := list bytes) := {|
  im_member _ _ := true;
  utc_now _ := 0;
  delete_flow _ e := (Ok tt, e);
  save_processor_state _ e := (Ok tt, e);
  load_flows e := (Ok tt, e);
  load_processor_state e := (Ok tt, e);
  subscribe_to_rsk_pegin _ e := (Ok tt, e)
|}.

Definition cfg : Config := mkConfig 2 6 1.
Definition verifier : NativeBridgeVerifier := Real 6.
Abbreviation P := (Processor State RskPegManagerEvents (list bytes) Effect Tables PeginProcessorState).

(** Inputs that are in range and do not panic. *)
Fixpoint run (l : list Input) (p : P) : option P :=
  match l with
  | [] => Some p
  | i :: l =>
      let small := match i with InBlock b => bool_decide (0 <= bu_number b < 2 ^ 64 - 1) | _ => true end in
      if small : bool then
        match process verifier cfg i p with
        | (r, p') => if panicked r then None else run l p'
        end
      else None
  end.

Definition begin (e : list bytes) : P := snd (start cfg (new_processor ∅ None e)).
Definition after (e : list bytes) (l : list Input) : P := default (begin e) (run l (begin e)).

(** Two transactions of one Bitcoin block. *)
Definition txid (n : Z) : bytes := replicate 32 n.
Definition proof (n : Z) : BtcTxSPVProof := mkProof _ "00" [n] "5" [replicate 32 3; replicate 32 4].
Definition id (n : Z) : bytes := flow_id_from_request_pegin_txid (txid n).
Definition found (n : Z) : Input := InBitvmxEvent (MsgPeginTransactionFound (txid n)).
Definition proved (n : Z) : Input := InBitvmxEvent (MsgSPVProof (txid n) (Some (proof n))).
Definition event {T} (inner : T) : EventWithBlock T := mkEventWithBlock inner 10 [1] false [8].
Definition request (n : Z) : PeginRequested := mkPeginRequested 77 5 [3] [4] [5] (txid n) [7; 8].
Definition requested (n : Z) : Input := InRskEvent (Events.PeginRequested (event (request n))).
Definition block (n : Z) : Input := InBlock (BlockchainTracker.Sample.bu 1 n).

(** Confirmations of the bridge: one, and twelve. *)
Definition one : bytes := be_bytes 32 1.
Definition twelve : bytes := be_bytes 32 12.

Definition recorded : list Input := [found 1; proved 1; requested 1; block 10; block 11].
Definition shared : list Input := [found 1; found 2; proved 1; proved 2; block 10].

(** The past of a run, and what it leads to *)
Fixpoint past_of (l : list Input) (p : P) : list (Past P Input) :=
  match l with [] => [] | i :: l => Took p i :: past_of l (snd (process verifier cfg i p)) end.

Lemma pegin_run_reachable l past p p' :
  reachable verifier cfg false past p -> run l p = Some p' -> reachable verifier cfg false (past ++ past_of l p) p'.
Proof.
  revert past p. induction l as [|i l IH]; intros past p Hp Hr; [injection Hr as <-; cbn; by rewrite app_nil_r|]. cbn [run] in Hr.
  destruct (match i with InBlock b => _ | _ => true end) eqn:Hs; [|discriminate Hr].
  assert (Hi : input_ok i) by (destruct i; try done; by apply bool_decide_eq_true in Hs).
  pose proof (R_input verifier cfg past p i Hp Hi) as Hn. cbn zeta in Hn. cbn [past_of].
  destruct (process verifier cfg i p) as [r p1]. cbn in Hn. destruct (panicked r); [discriminate Hr|].
  cbn [snd]. rewrite cons_middle, app_assoc. by apply IH.
Qed.

Lemma pegin_begin_reachable e : reachable verifier cfg false [Started] (begin e).
Proof. exact (R_start verifier cfg true _ _ e (R_empty verifier cfg e)). Qed.

Lemma pegin_after_reachable e l : exists past, reachable verifier cfg false past (after e l).
Proof.
  unfold after. pose proof (pegin_begin_reachable e) as Hs.
  destruct (run l (begin e)) as [p|] eqn:Hr; [|by eexists]. eexists. by eapply pegin_run_reachable.
Qed.

End Sample.

Section Witnesses.
#[local] Existing Instances NativeBridge.Sample.crates Bitvmx.Sample.tail_hash Flow.Sample.socket_addrs
  Flow.Sample.codecs Flow.Sample.committee_services NativeBridge.Sample.node Sample.sample_payloads Sample.order
  Sample.json Sample.flow_services Sample.signature_services Sample.processor_services.

(** The request that the sample flow records was final in the past of this run: the
    only blocks that the run took are 10 and 11. *)
Lemma pegin_acts_on_final_events_witness :
  let p := Sample.after [Sample.twelve] Sample.recorded in
  let past := Started :: Sample.past_of Sample.recorded (Sample.begin [Sample.twelve]) in
  (s ← disk p !! Sample.id 1; pegin_requested (ctx s)) = Some (Sample.request 1) /\
  requested (final_in Sample.cfg past) (Sample.request 1).
Proof.
  cbn zeta. set (past := Started :: _).
  assert (Hr : (s ← disk (Sample.after [Sample.twelve] Sample.recorded) !! Sample.id 1; pegin_requested (ctx s)) =
    Some (Sample.request 1)) by (vm_compute; reflexivity).
  split; [exact Hr|]. apply bind_Some in Hr as (s & Hs & Hr).
  assert (Hp : reachable Sample.verifier Sample.cfg false past (Sample.after [Sample.twelve] Sample.recorded)).
  { unfold Sample.after. destruct (Sample.run Sample.recorded (Sample.begin [Sample.twelve])) as [p|] eqn:Hrun.
    - exact (Sample.pegin_run_reachable _ _ _ p (Sample.pegin_begin_reachable [Sample.twelve]) Hrun).
    - exfalso. assert (Hsome : match Sample.run Sample.recorded (Sample.begin [Sample.twelve]) with Some _ => true | None => false end
        = true) by (vm_compute; reflexivity). rewrite Hrun in Hsome. discriminate Hsome. }
  refine (proj1 (proj1 (proj2 (pegin_acts_on_final_events Sample.verifier Sample.cfg false past _ Hp _)) _ _ Hs) _ Hr).
  discriminate.
Defined.

Lemma pegin_processor_invariant_witness :
  let p := Sample.after [Sample.twelve] Sample.recorded in
  step ∘ ctx <$> flows p !! Sample.id 1 = Some StepGetCommInfoAuthoritativeCheckpoint /\
  forall s, flows p !! Sample.id 1 = Some s -> ctx_ok (E := list bytes) (ctx s).
Proof.
  cbn zeta. split; [vm_compute; reflexivity|]. intros s Hs.
  destruct (Sample.pegin_after_reachable [Sample.twelve] Sample.recorded) as [past Hp].
  destruct (proj1 (pegin_processor_invariant Sample.verifier Sample.cfg false past _ Hp) eq_refl) as [Hf _].
  exact (proj1 (proj2 (Hf _ _ Hs))).
Defined.


(** Two peg-ins of one Bitcoin block share a retry.  The proofs of both come
    before the native bridge has enough confirmations, and each is to be retried,
    but the retries are kept by the hash of the Bitcoin block, so the second
    replaces the first.  When the bridge has the confirmations, only the second
    peg-in is requested; the first stays where it is, with no retry recorded or
    scheduled, and ticks do nothing more for it. *)
Theorem pegins_of_a_block_share_a_retry :
  let p := Sample.after [Sample.one; Sample.one; Sample.twelve] (firstn 4 Sample.shared) in
  let '(r, p') := process Sample.verifier Sample.cfg (Sample.block 10) p in
  size (unconfirmed_pegin_requests (tables p)) = 1%nat /\ r = Ok tt /\
  step ∘ ctx <$> flows p' !! Sample.id 2 = Some StepWaitPeginRequested /\
  step ∘ ctx <$> flows p' !! Sample.id 1 = Some StepRequestPeginSpvProof /\
  unconfirmed_pegin_requests (tables p') = ∅ /\
  handle_pegin_retry_tick Sample.verifier Sample.cfg p' = (Ok tt, p').
Proof.
  cbn zeta. set (p := Sample.after _ _).
  destruct (process Sample.verifier Sample.cfg (Sample.block 10) p) as [r p'] eqn:Hr.
  assert (Hall : (r, step ∘ ctx <$> flows p' !! Sample.id 2, step ∘ ctx <$> flows p' !! Sample.id 1,
    unconfirmed_pegin_requests (tables p'),
    is_empty (pegin_retry_scheduler (tables p')) && is_empty (accept_pegin_retry_scheduler (tables p'))) =
    (Ok tt, Some StepWaitPeginRequested, Some StepRequestPeginSpvProof, ∅, true)).
  { change r with (fst (r, p')). change p' with (snd (r, p')) at 2 3 4 5 6. rewrite <- Hr. vm_compute. reflexivity. }
  injection Hall as -> -> -> -> He. split; [vm_compute; reflexivity|]. split_and!; [done..|].
  unfold handle_pegin_retry_tick. rewrite SR_bind_run with (a := tables p') (s' := p') by done. by rewrite He.
Qed.

End Witnesses.
