(* ===== verification/CoordinatorStore.v ===== *)
(** * The store of the coordinator (crates/coordinator/src/store.rs) and the
      context it saves (crates/coordinator/src/flows/common/context.rs)

    One key-value database holds the context of the coordinator, the states of
    the flows of each kind under a common prefix, and the states of the
    processors.  The database keeps JSON texts and finds the keys with a prefix;
    it and the parsers are parameters. *)

From Stdlib Require Import Ascii.
From stdpp Require Import prelude gmap strings.
From S2P Require Import Prelude Types Bitvmx Flow Processor.
Open Scope Z_scope.

(** ** The context *)

Abbreviation CommitteeId := Z.

(** The keys of this member and its committees; the handles to them are shared, so
    that every processor reads what one of them writes. *)
Record GlobalContext (K : Type) := mkContext {
  committees : gmap CommitteeId ParticipantRole;
  take_key : option K;
  dispute_key : option K;
  comm_key : option K
}.
Arguments mkContext {K}.
Arguments committees {K}.
Arguments take_key {K}.
Arguments dispute_key {K}.
Arguments comm_key {K}.

Section Context.
Context {K : Type}.

Definition new_context : GlobalContext K := mkContext ∅ None None None.
Definition set_take_key (k : K) (c : GlobalContext K) : GlobalContext K :=
  mkContext (committees c) (Some k) (dispute_key c) (comm_key c).
Definition set_dispute_key (k : K) (c : GlobalContext K) : GlobalContext K :=
  mkContext (committees c) (take_key c) (Some k) (comm_key c).
Definition set_comm_key (k : K) (c : GlobalContext K) : GlobalContext K :=
  mkContext (committees c) (take_key c) (dispute_key c) (Some k).
Definition is_set (c : GlobalContext K) : bool :=
  bool_decide (is_Some (take_key c)) && bool_decide (is_Some (dispute_key c)) && bool_decide (is_Some (comm_key c)).
Definition add_committee (id : CommitteeId) (r : ParticipantRole) (c : GlobalContext K) : GlobalContext K :=
  mkContext (<[id := r]> (committees c)) (take_key c) (dispute_key c) (comm_key c).
Definition im_member (id : CommitteeId) (c : GlobalContext K) : bool := bool_decide (is_Some (committees c !! id)).
Definition my_role (id : CommitteeId) (c : GlobalContext K) : option ParticipantRole := committees c !! id.

(** What is saved of it *)
Record PersistentGlobalContext := mkPersistent {
  p_committees : gmap CommitteeId ParticipantRole;
  p_take_key : option K;
  p_dispute_key : option K;
  p_comm_key : option K
}.

Definition from_memory (c : GlobalContext K) : PersistentGlobalContext :=
  mkPersistent (committees c) (take_key c) (dispute_key c) (comm_key c).

Context `{HashOrder}.

(** [PersistentGlobalContext::load] *)
Definition load (p : PersistentGlobalContext) : GlobalContext K :=
  let c := foldl (fun c '(id, r) => add_committee id r c) new_context (shuffle (map_to_list (p_committees p))) in
  let c := match p_take_key p with Some k => set_take_key k c | None => c end in
  let c := match p_dispute_key p with Some k => set_dispute_key k c | None => c end in
  match p_comm_key p with Some k => set_comm_key k c | None => c end.

Lemma foldl_add_committee l c :
  NoDup l.*1 ->
  foldl (fun c '(id, r) => add_committee id r c) c l =
  mkContext (list_to_map l ∪ committees c) (take_key c) (dispute_key c) (comm_key c).
Proof.
  revert c. induction l as [|[id r] l IH]; intros c Hl; cbn [foldl].
  - cbn. rewrite map_empty_union. by destruct c.
  - apply NoDup_cons in Hl as [Hid Hl]. rewrite IH by done. cbn. f_equal.
    rewrite <- insert_union_r by (by apply not_elem_of_list_to_map_1). apply insert_union_l.
Qed.

Lemma load_from_memory c : load (from_memory c) = c.
Proof.
  unfold load, from_memory. cbn [p_committees p_take_key p_dispute_key p_comm_key].
  rewrite foldl_add_committee by (rewrite shuffle_perm; apply NoDup_fst_map_to_list). cbn [committees new_context].
  rewrite map_union_empty.
  assert (Hl : list_to_map (shuffle (map_to_list (committees c))) = committees c).
  { rewrite <- (list_to_map_to_list (committees c)) at 2. apply list_to_map_proper; [|apply shuffle_perm].
    rewrite shuffle_perm. apply NoDup_fst_map_to_list. }
  rewrite Hl. destruct c as [m [t|] [d|] [k|]]; done.
Qed.

End Context.
Arguments PersistentGlobalContext : clear implicits.

(** ** Keys *)

Inductive StoreKey :=
| KeyGlobalContext
| KeySetupCommitteeFlow (id : bytes)
| KeyPeginFlow (id : bytes)
| KeyPeginProcessorState
| KeyPegoutFlow (id : bytes)
| KeyPegoutProcessorState
| KeyOperatorTakeFlow (id : bytes)
| KeyAdvanceFundsProcessorState.

Inductive StorePrefix := SetupCommitteeFlow | PeginFlow | PegoutFlow | OperatorTakeFlow.

#[export] Instance StoreKey_eq_dec : EqDecision StoreKey.
Proof. solve_decision. Defined.

Definition prefix_value (p : StorePrefix) : string :=
  match p with
  | SetupCommitteeFlow => "setup_committee_flows"
  | PeginFlow => "pegin_flows"
  | PegoutFlow => "pegout_flows"
  | OperatorTakeFlow => "operator_take_flows"
  end.

Definition value (k : StoreKey) : string :=
  match k with
  | KeyGlobalContext => "global_context"
  | KeySetupCommitteeFlow id => prefix_value SetupCommitteeFlow +:+ "/" +:+ uuid_to_string id
  | KeyPeginFlow id => prefix_value PeginFlow +:+ "/" +:+ uuid_to_string id
  | KeyPeginProcessorState => "pegin_processor_state"
  | KeyPegoutFlow id => prefix_value PegoutFlow +:+ "/" +:+ uuid_to_string id
  | KeyPegoutProcessorState => "pegout_processor_state"
  | KeyOperatorTakeFlow id => prefix_value OperatorTakeFlow +:+ "/" +:+ uuid_to_string id
  | KeyAdvanceFundsProcessorState => "advance_funds_processor_state"
  end.

Definition as_store_key (p : StorePrefix) (flow_id : bytes) : StoreKey :=
  match p with
  | SetupCommitteeFlow => KeySetupCommitteeFlow flow_id
  | PeginFlow => KeyPeginFlow flow_id
  | PegoutFlow => KeyPegoutFlow flow_id
  | OperatorTakeFlow => KeyOperatorTakeFlow flow_id
  end.

(** [str::starts_with], with what comes after *)
Fixpoint strip_prefix (p s : string) : option string :=
  match p, s with
  | EmptyString, _ => Some s
  | String a p, String b s => if decide (a = b) then strip_prefix p s else None
  | String _ _, EmptyString => None
  end.
Definition starts_with (p s : string) : bool := bool_decide (is_Some (strip_prefix p s)).

(** The Uuid, JSON and database crates: [Uuid::parse_str] reads the hyphenated
    form; a text that was written is read back. *)
Class UuidParser := {
  parse_uuid : string -> option bytes;
  parse_uuid_display u : length u = 16%nat -> bytes_ok u -> parse_uuid (uuid_to_string u) = Some u
}.

Class Json (T : Type) := {
  to_json : T -> string;
  from_json : string -> option T;
  from_to_json t : from_json (to_json t) = Some t
}.

Class Database (D : Type) := {
  db_set : string -> string -> SR D failure unit;
  db_get : string -> SR D failure (option string);
  db_delete : string -> SR D failure unit;
  partial_compare : string -> SR D failure (list (string * string))
}.

(** The database is a map; an operation that fails changes nothing. *)
Class DatabaseLaws (D : Type) `{Database D} := {
  contents : D -> gmap string string;
  db_set_spec k v d : contents (snd (db_set k v d)) = if is_ok (fst (db_set k v d)) then <[k := v]> (contents d) else contents d;
  db_get_spec k d : contents (snd (db_get k d)) = contents d /\ forall o, fst (db_get k d) = Ok o -> o = contents d !! k;
  db_delete_spec k d : contents (snd (db_delete k d)) = if is_ok (fst (db_delete k d)) then delete k (contents d) else contents d;
  partial_compare_spec p d : contents (snd (partial_compare p d)) = contents d /\
    forall l, fst (partial_compare p d) = Ok l ->
      l ≡ₚ filter (fun kv => starts_with p kv.1 = true) (map_to_list (contents d))
}.

(** ** The store *)

Section Store.
Context `{UuidParser} {D : Type} `{!Database D} {K : Type} `{!Json (PersistentGlobalContext K), HashOrder}.

Definition extract_id (p : StorePrefix) (key : string) : SR D failure bytes :=
  match strip_prefix (prefix_value p +:+ "/") key with
  | None => bail "Key does not start with expected prefix"
  | Some uuid_str =>
      match parse_uuid uuid_str with
      | Some flow_id => mret flow_id
      | None => bail "invalid uuid"
      end
  end.

Definition set {T} `{!Json T} (key : string) (v : T) : SR D failure unit := db_set key (to_json v).
Definition get {T} `{!Json T} (key : string) : SR D failure (option T) :=
  raw ← db_get key;
  match raw with
  | None => mret None
  | Some text =>
      match from_json text with
      | Some v => mret (Some v)
      | None => bail "deserialization"
      end
  end.

Definition load_context : SR D failure (option (GlobalContext K)) :=
  maybe ← get (T := PersistentGlobalContext K) (value KeyGlobalContext); mret (load <$> maybe).
Definition save_context (c : GlobalContext K) : SR D failure unit := set (value KeyGlobalContext) (from_memory c).
Definition save_flow {T} `{!Json T} (key : StoreKey) (flow_state : T) : SR D failure unit := set (value key) flow_state.
Definition load_flow {T} `{!Json T} (key : StoreKey) : SR D failure (option T) := get (value key).
Definition delete_flow (key : StoreKey) : SR D failure unit := db_delete (value key).

(** The first entry that cannot be read stops the loading. *)
Fixpoint read_entries {T} `{!Json T} (p : StorePrefix) (l : list (string * string)) : SR D failure (list (bytes * T)) :=
  match l with
  | [] => mret []
  | (k, v) :: l =>
      flow_id ← extract_id p k;
      match from_json v with
      | None => bail "deserialization"
      | Some state => rest ← read_entries p l; mret ((flow_id, state) :: rest)
      end
  end.

(** Entries are inserted in their order; of two with one identifier the last stays. *)
Definition load_all_flows {T} `{!Json T} (p : StorePrefix) : SR D failure (gmap bytes T) :=
  l ← partial_compare (prefix_value p);
  entries ← read_entries p l;
  mret (list_to_map (reverse entries)).

Definition restore_flows {T F} `{!Json T} (p : StorePrefix) (flow_factory : T -> F) : SR D failure (gmap bytes F) :=
  saved_flows ← load_all_flows p; mret (flow_factory <$> saved_flows).

(** Failures to delete are logged. *)
Fixpoint delete_all (p : StorePrefix) (ids : list bytes) : SR D failure unit :=
  match ids with
  | [] => mret tt
  | id :: ids => fun d =>
      match delete_flow (as_store_key p id) d with
      | (Err (Panic msg), d) => (Err (Panic msg), d)
      | (_, d) => delete_all p ids d
      end
  end.

Definition cleanup_flows_matching {F} (p : StorePrefix) (condition : F -> bool) (flows : gmap bytes F)
    : SR D failure (gmap bytes F) :=
  let matching_flow_ids := (filter (fun kv => condition kv.2 = true) (shuffle (map_to_list flows))).*1 in
  _ ← delete_all p matching_flow_ids;
  mret (filter (fun kv => kv.1 ∉ matching_flow_ids) flows).

End Store.

(** ** Keys do not meet *)

Definition uuid_ok (u : bytes) : Prop := length u = 16%nat /\ bytes_ok u.

#[export] Instance uuid_ok_dec u : Decision (uuid_ok u).
Proof. unfold uuid_ok, bytes_ok, byte_ok. apply _. Defined.

Definition key_ok (k : StoreKey) : Prop :=
  match k with
  | KeySetupCommitteeFlow id | KeyPeginFlow id | KeyPegoutFlow id | KeyOperatorTakeFlow id => uuid_ok id
  | _ => True
  end.

Lemma strip_prefix_append p s : strip_prefix p (p +:+ s) = Some s.
Proof.
  induction p as [|a p IH]; [done|]. change (String a p +:+ s) with (String a (p +:+ s)). cbn [strip_prefix].
  by rewrite decide_True.
Qed.

Lemma uuid_to_string_inj `{UuidParser} u u' :
  uuid_ok u -> uuid_ok u' -> uuid_to_string u = uuid_to_string u' -> u = u'.
Proof.
  intros [Hl Hb] [Hl' Hb'] Heq. pose proof (parse_uuid_display u Hl Hb) as Hu.
  rewrite Heq, parse_uuid_display in Hu by done. by injection Hu.
Qed.

(** A key starts with a prefix exactly if it is one of the prefix. *)
Lemma starts_with_prefix p k : starts_with (prefix_value p) (value k) = true <-> exists id, k = as_store_key p id.
Proof.
  unfold starts_with. rewrite bool_decide_eq_true. split.
  - destruct k, p; cbv -[uuid_to_string as_store_key]; intros [? Hs]; first [discriminate Hs|eexists; reflexivity].
  - intros [id ->]. destruct p; cbn [as_store_key value]; rewrite strip_prefix_append; eauto.
Qed.

Lemma value_as_store_key p id : value (as_store_key p id) = prefix_value p +:+ ("/" +:+ uuid_to_string id).
Proof. by destruct p. Qed.

Lemma app_string_inj p s s' : p +:+ s = p +:+ s' -> s = s'.
Proof. induction p as [|a p IH]; [done|]. cbn. intros [= Heq]. auto. Qed.

Lemma store_key_value_inj `{UuidParser} k k' : key_ok k -> key_ok k' -> value k = value k' -> k = k'.
Proof.
  intros Hk Hk' Heq.
  assert (Hflow : forall p id, k = as_store_key p id -> k = k').
  { intros p id ->. assert (Hs : starts_with (prefix_value p) (value k') = true)
      by (rewrite <- Heq; apply starts_with_prefix; eauto).
    apply starts_with_prefix in Hs as [id' ->]. rewrite !value_as_store_key in Heq. apply app_string_inj, (app_string_inj "/") in Heq.
    assert (id = id') as ->; [|done]. destruct p; by apply uuid_to_string_inj. }
  destruct k as [|id|id| |id| |id| ];
    try (by apply (Hflow SetupCommitteeFlow id)); try (by apply (Hflow PeginFlow id));
    try (by apply (Hflow PegoutFlow id)); try (by apply (Hflow OperatorTakeFlow id)); clear Hflow;
    destruct k'; try done; cbn [value] in Heq; discriminate Heq.
Qed.

(** ** The contract of the store *)

Inductive StateKey := PeginState | PegoutState | AdvanceFundsState.
Definition state_key (s : StateKey) : StoreKey :=
  match s with
  | PeginState => KeyPeginProcessorState
  | PegoutState => KeyPegoutProcessorState
  | AdvanceFundsState => KeyAdvanceFundsProcessorState
  end.

#[export] Instance StorePrefix_eq_dec : EqDecision StorePrefix.
Proof. solve_decision. Defined.
#[export] Instance StateKey_eq_dec : EqDecision StateKey.
Proof. solve_decision. Defined.

Section Contract.
Context {T : StorePrefix -> Type} {Q : StateKey -> Type} {K : Type}.

(** A context, the flows of each kind and the state of each processor. *)
Record Model := mkModel {
  m_context : option (GlobalContext K);
  m_flows : forall p, gmap bytes (T p);
  m_states : forall s, option (Q s)
}.

Inductive Op :=
| SaveContext (c : GlobalContext K)
| SaveFlow (p : StorePrefix) (id : bytes) (t : T p)
| DeleteFlow (p : StorePrefix) (id : bytes)
| SaveState (s : StateKey) (q : Q s).

Definition empty_model : Model := mkModel None (fun _ => ∅) (fun _ => None).

Definition at_key {A} `{EqDecision A} {B : A -> Type} (a : A) (f : B a -> B a) (g : forall x, B x) : forall x, B x :=
  fun x => match decide (a = x) with left e => eq_rect a B (f (g a)) x e | right _ => g x end.

Definition model_op (op : Op) (m : Model) : Model :=
  match op with
  | SaveContext c => mkModel (Some c) (m_flows m) (m_states m)
  | SaveFlow p id t => mkModel (m_context m) (at_key (B := fun p => gmap bytes (T p)) p (<[id := t]>) (m_flows m)) (m_states m)
  | DeleteFlow p id => mkModel (m_context m) (at_key (B := fun p => gmap bytes (T p)) p (delete id) (m_flows m)) (m_states m)
  | SaveState s q => mkModel (m_context m) (m_flows m) (at_key (B := fun s => option (Q s)) s (fun _ => Some q) (m_states m))
  end.

Definition op_ok (op : Op) : Prop :=
  match op with SaveFlow _ id _ | DeleteFlow _ id => uuid_ok id | _ => True end.
#[export] Instance op_ok_dec op : Decision (op_ok op).
Proof. destruct op; apply _. Defined.

Context `{UuidParser} {D : Type} `{!Database D, !Json (PersistentGlobalContext K), HashOrder}
  `{!forall p, Json (T p), !forall s, Json (Q s)}.

Definition run_op (op : Op) : SR D failure unit :=
  match op with
  | SaveContext c => save_context c
  | SaveFlow p id t => save_flow (as_store_key p id) t
  | DeleteFlow p id => delete_flow (as_store_key p id)
  | SaveState s q => save_flow (state_key s) q
  end.

(** The operations that succeed count. *)
Fixpoint run_ops (ops : list Op) (d : D) (m : Model) : D * Model :=
  match ops with
  | [] => (d, m)
  | op :: ops =>
      let '(r, d') := run_op op d in run_ops ops d' (if is_ok r then model_op op m else m)
  end.

Context `{!DatabaseLaws D}.

Record represents (m : Model) (d : D) : Prop := {
  rep_context : contents d !! value KeyGlobalContext = to_json ∘ from_memory <$> m_context m;
  rep_flows p id : uuid_ok id -> contents d !! value (as_store_key p id) = to_json <$> m_flows m p !! id;
  rep_ids p id : is_Some (m_flows m p !! id) -> uuid_ok id;
  rep_states s : contents d !! value (state_key s) = to_json <$> m_states m s;
  rep_keys raw : is_Some (contents d !! raw) -> exists k, key_ok k /\ raw = value k
}.

Lemma represents_same m d d' : contents d' = contents d -> represents m d -> represents m d'.
Proof. intros Hc []. split; rewrite ?Hc; auto. Qed.

Lemma at_key_eq {A} `{EqDecision A} {B : A -> Type} a f (g : forall x, B x) : at_key a f g a = f (g a).
Proof. unfold at_key. destruct (decide (a = a)) as [e|]; [|done]. by rewrite (proof_irrel e eq_refl). Qed.
Lemma at_key_ne {A} `{EqDecision A} {B : A -> Type} a x f (g : forall x, B x) : a <> x -> at_key a f g x = g x.
Proof. intros Hne. unfold at_key. by destruct (decide (a = x)). Qed.

(** What a write to a key leaves of the others *)
Lemma lookup_alter_key k k' f (m : gmap string string) :
  key_ok k -> key_ok k' ->
  partial_alter f (value k) m !! value k' = if decide (k = k') then f (m !! value k) else m !! value k'.
Proof.
  intros Hk Hk'. case_decide as Heq; [subst; apply lookup_partial_alter_eq|].
  apply lookup_partial_alter_ne. intros Hv. by apply Heq, store_key_value_inj.
Qed.

Lemma as_store_key_inj p p' id id' : as_store_key p id = as_store_key p' id' -> p = p' /\ id = id'.
Proof. destruct p, p'; intros [= ->]; done. Qed.

Lemma represents_write k f m m' d d' :
  key_ok k -> represents m d -> contents d' = partial_alter f (value k) (contents d) ->
  (to_json ∘ from_memory <$> m_context m' =
     if decide (k = KeyGlobalContext) then f (contents d !! value k) else to_json ∘ from_memory <$> m_context m) ->
  (forall p id, uuid_ok id -> to_json <$> m_flows m' p !! id =
     if decide (k = as_store_key p id) then f (contents d !! value k) else to_json <$> m_flows m p !! id) ->
  (forall p id, is_Some (m_flows m' p !! id) -> k = as_store_key p id \/ is_Some (m_flows m p !! id)) ->
  (forall s, to_json <$> m_states m' s =
     if decide (k = state_key s) then f (contents d !! value k) else to_json <$> m_states m s) ->
  represents m' d'.
Proof.
  intros Hk [Hrc Hrf Hri Hrs Hrk] Hd Hc Hf Hi Hs.
  assert (Hids : forall p id, uuid_ok id -> key_ok (as_store_key p id)) by (by intros []).
  assert (Hst : forall s, key_ok (state_key s)) by (by intros []).
  split; rewrite ?Hd.
  - rewrite lookup_alter_key, Hc by done. destruct (decide (k = KeyGlobalContext)); [done|exact Hrc].
  - intros p id Hid. rewrite lookup_alter_key, Hf by auto. destruct (decide (k = as_store_key p id)); [done|by apply Hrf].
  - intros p id [->|Hm]%Hi; [|eauto]. by destruct p.
  - intros s. rewrite lookup_alter_key, Hs by auto. destruct (decide (k = state_key s)); [done|apply Hrs].
  - intros raw Hraw. destruct (decide (raw = value k)) as [->|Hne]; [eauto|].
    rewrite lookup_partial_alter_ne in Hraw by done. auto.
Qed.

Lemma run_op_ok op m d :
  represents m d -> op_ok op ->
  let r := run_op op d in represents (if is_ok (fst r) then model_op op m else m) (snd r).
Proof.
  intros Hrep Hop r. unfold r.
  assert (Hset : forall k text m', key_ok k ->
    (contents (snd (db_set (value k) text d)) = <[value k := text]> (contents d) -> represents m' (snd (db_set (value k) text d))) ->
    represents (if is_ok (fst (db_set (value k) text d)) then m' else m) (snd (db_set (value k) text d))).
  { intros k text m' Hk Hm. pose proof (db_set_spec (value k) text d) as Hs.
    destruct (is_ok _); [auto|by eapply represents_same]. }
  destruct op as [c|p id t|p id|s q]; cbn [run_op model_op op_ok] in *.
  - apply (Hset KeyGlobalContext); [done|]. intros Hd.
    apply (represents_write KeyGlobalContext (fun _ => Some (to_json (from_memory c))) m _ d); try done; cbn.
    + intros p id Hid. by rewrite decide_False by (by destruct p).
    + auto.
    + intros s. by rewrite decide_False by (by destruct s).
  - apply (Hset (as_store_key p id)); [by destruct p|]. intros Hd.
    apply (represents_write (as_store_key p id) (fun _ => Some (to_json t)) m _ d); try done; cbn.
    + by destruct p.
    + by rewrite decide_False by (by destruct p).
    + intros p' id' Hid'. case_decide as Hk.
      * apply as_store_key_inj in Hk as [<- <-]. by rewrite at_key_eq, lookup_insert_eq.
      * destruct (decide (p = p')) as [<-|]; [|by rewrite at_key_ne]. rewrite at_key_eq, lookup_insert_ne by congruence. done.
    + intros p' id'. destruct (decide (p = p')) as [<-|]; [|rewrite at_key_ne by done; auto].
      rewrite at_key_eq. destruct (decide (id = id')) as [<-|]; [by left|]. rewrite lookup_insert_ne by done. auto.
    + intros s. by rewrite decide_False by (by destruct p, s).
  - pose proof (db_delete_spec (value (as_store_key p id)) d) as Hs. unfold delete_flow.
    destruct (is_ok _); [|by eapply represents_same].
    apply (represents_write (as_store_key p id) (fun _ => None) m _ d); try done; cbn.
    + by destruct p.
    + by rewrite decide_False by (by destruct p).
    + intros p' id' Hid'. case_decide as Hk.
      * apply as_store_key_inj in Hk as [<- <-]. by rewrite at_key_eq, lookup_delete_eq.
      * destruct (decide (p = p')) as [<-|]; [|by rewrite at_key_ne]. rewrite at_key_eq, lookup_delete_ne by congruence. done.
    + intros p' id'. destruct (decide (p = p')) as [<-|]; [|rewrite at_key_ne by done; auto].
      rewrite at_key_eq. intros [? [_ ?]%lookup_delete_Some]. eauto.
    + intros s. by rewrite decide_False by (by destruct p, s).
  - apply (Hset (state_key s)); [by destruct s|]. intros Hd.
    apply (represents_write (state_key s) (fun _ => Some (to_json q)) m _ d); try done; cbn.
    + by destruct s.
    + by rewrite decide_False by (by destruct s).
    + intros p' id' Hid'. by rewrite decide_False by (by destruct p', s).
    + auto.
    + intros s'. destruct (decide (s = s')) as [<-|Hne]; [by rewrite decide_True, at_key_eq|].
      rewrite at_key_ne, decide_False; [done| |done]. by destruct s, s'.
Qed.

Lemma run_ops_ok ops m d :
  represents m d -> Forall op_ok ops -> let '(d', m') := run_ops ops d m in represents m' d'.
Proof.
  revert m d. induction ops as [|op ops IH]; intros m d Hrep Hops; cbn [run_ops]; [done|].
  apply Forall_cons in Hops as [Hop Hops]. pose proof (run_op_ok op m d Hrep Hop) as Hr. cbn zeta in Hr.
  destruct (run_op op d) as [r d']. by apply IH.
Qed.

(** *** Reading *)

Definition entry (p : StorePrefix) (x : bytes * T p) : string * string := (value (as_store_key p x.1), to_json x.2).

Lemma read_entries_run p (es : list (bytes * T p)) (d : D) :
  Forall (fun x => uuid_ok x.1) es -> read_entries p (entry p <$> es) d = (Ok es, d).
Proof.
  induction es as [|[id t] es IH]; intros Hes; [done|]. apply Forall_cons in Hes as [[Hl Hb] Hes].
  cbn [fmap list_fmap entry fst snd read_entries].
  rewrite SR_bind_run with (a := id) (s' := d).
  - rewrite from_to_json, SR_bind_run with (a := es) (s' := d); [done|by apply IH].
  - unfold extract_id. rewrite value_as_store_key.
    assert (Hp : prefix_value p +:+ ("/" +:+ uuid_to_string id) = (prefix_value p +:+ "/") +:+ uuid_to_string id)
      by (by destruct p).
    by rewrite Hp, strip_prefix_append, parse_uuid_display.
Qed.

Lemma entries_of m d p :
  represents m d ->
  filter (fun kv => starts_with (prefix_value p) kv.1 = true) (map_to_list (contents d)) ≡ₚ
  entry p <$> map_to_list (m_flows m p).
Proof.
  intros [_ Hf Hi _ Hk]. apply NoDup_Permutation.
  - apply NoDup_filter, NoDup_map_to_list.
  - apply NoDup_fmap_2_strong; [|apply NoDup_map_to_list].
    intros [id t] [id' t'] Hin Hin' Heq. apply elem_of_map_to_list in Hin, Hin'. injection Heq as Hv _.
    assert (id = id') as ->; [|congruence]. eapply as_store_key_inj, store_key_value_inj; [..|exact Hv]; destruct p; eapply Hi; eauto.
  - intros [raw v]. rewrite list_elem_of_filter, elem_of_map_to_list, list_elem_of_fmap. cbn [fst]. split.
    + intros [Hs Hraw]. destruct (Hk raw) as (k & Hok & ->); [eauto|]. apply starts_with_prefix in Hs as [id ->].
      assert (Hid : uuid_ok id) by (by destruct p). rewrite Hf in Hraw by done.
      apply fmap_Some in Hraw as (t & Ht & ->). exists (id, t). split; [done|]. by apply elem_of_map_to_list.
    + intros ([id t] & Heq & Hin). apply elem_of_map_to_list in Hin. injection Heq as -> ->. cbn [fst snd].
      split; [apply starts_with_prefix; eauto|]. rewrite Hf, Hin by eauto. done.
Qed.

Lemma load_all_flows_ok m (d : D) p l :
  represents m d -> fst (partial_compare (prefix_value p) d) = Ok l ->
  load_all_flows p d = (Ok (m_flows m p), snd (partial_compare (prefix_value p) d)) /\
  represents m (snd (partial_compare (prefix_value p) d)).
Proof.
  intros Hrep Hl. destruct (partial_compare_spec (prefix_value p) d) as [Hc Hs]. specialize (Hs l Hl).
  split; [|by eapply represents_same]. rewrite (entries_of m d p Hrep) in Hs.
  apply Permutation_map_inv in Hs as (es & -> & Hes). unfold load_all_flows.
  destruct (partial_compare (prefix_value p) d) as [r d'] eqn:Hr. cbn in Hl. subst r.
  rewrite (SR_bind_run _ _ _ _ _ Hr), SR_bind_run with (a := es) (s' := d').
  - unfold mret, SR_ret. do 2 f_equal. rewrite <- (list_to_map_to_list (m_flows m p)).
    apply list_to_map_proper; [|by rewrite reverse_Permutation, <- Hes].
    rewrite reverse_Permutation, <- Hes. apply NoDup_fst_map_to_list.
  - apply read_entries_run. rewrite Forall_forall. intros [id t] Hin. rewrite <- Hes in Hin.
    apply elem_of_map_to_list in Hin. apply (rep_ids m d Hrep p). eauto.
Qed.

Lemma get_ok {V} `{!Json V} (o : option V) (d : D) key :
  contents d !! key = to_json <$> o -> is_ok (fst (db_get key d)) = true -> fst (get (T := V) key d) = Ok o.
Proof.
  intros Ho Hok. destruct (db_get_spec key d) as [_ Hs]. unfold get, mbind, SR_bind.
  destruct (db_get key d) as [[raw|f] d']; [|discriminate Hok]. cbn in Hs. rewrite (Hs raw eq_refl), Ho.
  destruct o; cbn; [by rewrite from_to_json|done].
Qed.

(** C35: The store keeps what it was given.  Through any sequence of saves and
    deletes, each of which may fail, the store holds the context last saved, the
    flows of each kind last saved and not deleted since, and the state last saved
    of each processor; whenever the database answers, loading returns exactly
    these, and flows of one kind never show up among those of another. *)
Theorem coordinator_store_refines ops (d : D) :
  represents empty_model d -> Forall op_ok ops ->
  let '(d', m) := run_ops ops d empty_model in
  (forall p l, fst (partial_compare (prefix_value p) d') = Ok l ->
     fst (load_all_flows (T := T p) p d') = Ok (m_flows m p)) /\
  (forall s, is_ok (fst (db_get (value (state_key s)) d')) = true ->
     fst (load_flow (T := Q s) (state_key s) d') = Ok (m_states m s)) /\
  (is_ok (fst (db_get (value KeyGlobalContext) d')) = true -> fst (load_context d') = Ok (m_context m)).
Proof.
  intros Hrep Hops. pose proof (run_ops_ok ops empty_model d Hrep Hops) as Hr.
  destruct (run_ops ops d empty_model) as [d' m]. split_and!.
  - intros p l Hl. by rewrite (proj1 (load_all_flows_ok m d' p l Hr Hl)).
  - intros s Hs. by apply get_ok; [apply Hr|].
  - intros Hc. unfold load_context.
    pose proof (get_ok (from_memory <$> m_context m) d' (value KeyGlobalContext)) as Hg.
    rewrite <- option_fmap_compose in Hg. specialize (Hg (rep_context m d' Hr) Hc).
    unfold mbind, SR_bind. destruct (get _ d') as [r d2]. cbn in Hg. subst r. cbn.
    destruct (m_context m); cbn; [|done]. by rewrite load_from_memory.
Qed.

End Contract.

(** ** A concrete database, in memory *)

Module Sample.

Fixpoint without_hyphens (s : string) : string :=
  match s with
  | EmptyString => EmptyString
  | String c s => if decide (c = "-"%char) then without_hyphens s else String c (without_hyphens s)
  end.

Lemma without_hyphens_app s s' : without_hyphens (s +:+ s') = without_hyphens s +:+ without_hyphens s'.
Proof.
  induction s as [|c s IH]; [done|]. change (String c s +:+ s') with (String c (s +:+ s')). cbn [without_hyphens].
  rewrite IH. by case_decide.
Qed.
Lemma hex_digit_not_hyphen d : 0 <= d < 16 -> hex_digit d <> "-"%char.
Proof. intros Hd Heq. pose proof (hex_val_digit d Hd) as Hv. rewrite Heq in Hv. discriminate Hv. Qed.
Lemma without_hyphens_hex l : bytes_ok l -> without_hyphens (hex_encode l) = hex_encode l.
Proof.
  induction l as [|b l IH]; intros Hl; [done|]. apply Forall_cons in Hl as [Hb Hl]. cbn [hex_encode without_hyphens].
  unfold byte_ok in Hb. pose proof (Z.div_mod b 16). pose proof (Z.mod_pos_bound b 16).
  rewrite !decide_False, IH; [done|done|..]; apply hex_digit_not_hyphen; lia.
Qed.

Lemma hex_encode_app l l' : hex_encode (l ++ l') = hex_encode l +:+ hex_encode l'.
Proof. induction l as [|b l IH]; [done|]. cbn [app hex_encode]. by rewrite IH. Qed.

#[export] Instance uuid_parser : UuidParser.
Proof.
  refine {| parse_uuid s := match hex_decode (without_hyphens s) with Ok l => Some l | Err _ => None end |}.
  intros u _ Hu. unfold uuid_to_string. rewrite !without_hyphens_app.
  rewrite !without_hyphens_hex by (repeat (apply Forall_take || apply Forall_drop); done).
  change (without_hyphens "-") with "". assert (He : forall s, "" +:+ s = s) by done. rewrite !He.
  assert (Hs : forall n k, hex_encode (take n (drop k u)) +:+ hex_encode (drop (k + n) u) = hex_encode (drop k u)).
  { intros n k. by rewrite <- hex_encode_app, <- drop_drop, take_drop. }
  rewrite (Hs 2%nat 8%nat : _ +:+ hex_encode (drop 10 u) = _), (Hs 2%nat 6%nat : _ +:+ hex_encode (drop 8 u) = _),
    (Hs 2%nat 4%nat : _ +:+ hex_encode (drop 6 u) = _), (Hs 4%nat 0%nat : hex_encode (take 4 u) +:+ hex_encode (drop 4 u) = _).
  by rewrite drop_0, hex_decode_encode.
Defined.

(** Any countable type has a text. *)
Fixpoint bits (n : positive) : string :=
  match n with
  | xH => EmptyString
  | xO n => String "0" (bits n)
  | xI n => String "1" (bits n)
  end.
Fixpoint unbits (s : string) : positive :=
  match s with
  | EmptyString => xH
  | String c s => if decide (c = "0"%char) then xO (unbits s) else xI (unbits s)
  end.
Lemma unbits_bits n : unbits (bits n) = n.
Proof. induction n as [n IH|n IH|]; cbn; by rewrite ?IH. Qed.

#[export] Instance json_countable `{Countable A} : Json A.
Proof.
  refine {| to_json a := bits (encode a); from_json s := decode (unbits s) |}.
  intros a. by rewrite unbits_bits, decode_encode.
Defined.

#[export] Instance role_countable : Countable ParticipantRole.
Proof.
  apply (inj_countable' (fun r => bool_decide (r = Prover)) (fun b : bool => if b then Prover else Verifier)).
  by intros [].
Defined.
#[export] Instance context_eq_dec `{EqDecision K} : EqDecision (PersistentGlobalContext K).
Proof. solve_decision. Defined.
#[export] Instance context_countable `{Countable K} : Countable (PersistentGlobalContext K).
Proof.
  apply (inj_countable' (fun p => (p_committees p, p_take_key p, p_dispute_key p, p_comm_key p))
    (fun '(c, t, d, k) => mkPersistent c t d k)). by intros [].
Defined.

Abbreviation Db := (gmap string string).
#[export] Instance database : Database Db := {|
  db_set k v d := (Ok tt, <[k := v]> d);
  db_get k d := (Ok (d !! k), d);
  db_delete k d := (Ok tt, delete k d);
  partial_compare p d := (Ok (filter (fun kv => starts_with p kv.1 = true) (map_to_list d)), d)
|}.
#[export] Instance database_laws : DatabaseLaws Db.
Proof. refine {| contents d := d |}; try done; intros; (split; [done|]); by intros ? [= <-]. Defined.

#[export] Instance order : HashOrder := {| shuffle A l := l; shuffle_perm A l := Permutation_refl l |}.

(** Flows and states are strings here. *)
Abbreviation Op := (@Op (fun _ => string) (fun _ => string) unit).
Definition id (n : Z) : bytes := be_bytes 16 n.
Definition ops : list Op :=
  [SaveFlow PeginFlow (id 1) "found"; SaveFlow PegoutFlow (id 1) "requested"; SaveFlow PeginFlow (id 2) "found";
   SaveContext (mkContext {[77 := Prover]} (Some tt) None None); SaveState PeginState "tables";
   SaveFlow PeginFlow (id 1) "done"; DeleteFlow PeginFlow (id 2)].

End Sample.

Section Witness.
#[local] Existing Instances Sample.uuid_parser Sample.json_countable Sample.role_countable Sample.context_eq_dec
  Sample.context_countable Sample.database Sample.database_laws Sample.order.

Lemma coordinator_store_refines_witness :
  let '(d, m) := run_ops Sample.ops (∅ : Sample.Db) empty_model in
  fst (load_all_flows (T := string) PeginFlow d) = Ok {[Sample.id 1 := "done"]} /\
  fst (load_context (K := unit) d) = Ok (m_context m).
Proof.
  pose proof (coordinator_store_refines Sample.ops (∅ : Sample.Db)) as Hr. cbn zeta in Hr.
  assert (Hm : m_flows (snd (run_ops Sample.ops (∅ : Sample.Db) empty_model)) PeginFlow = {[Sample.id 1 := "done"]})
    by (vm_compute; reflexivity).
  destruct (run_ops Sample.ops (∅ : Sample.Db) empty_model) as [d m]. cbn [snd] in Hm. destruct Hr as (Hf & _ & Hc).
  - split; try reflexivity.
    + intros p id [t Ht]. discriminate Ht.
    + intros raw [v Hv]. discriminate Hv.
  - apply (bool_decide_unpack (Forall op_ok Sample.ops)). vm_compute. exact I.
  - split; [|by apply Hc]. rewrite <- Hm. by eapply (Hf PeginFlow).
Defined.

End Witness.
