(* ===== verification/CommitteeSetup.v ===== *)
(** * What the setup of a committee tells BitVMX
    (crates/coordinator/src/flows/committee: common.rs, params.rs, dispute_core_setup.rs,
    dispute_channel_setup.rs, full_penalization_setup.rs; crates/protocol-params/src/lib.rs)

    A committee runs one dispute core per member, one dispute channel per operator
    and watchtower, and one full-penalisation program.  Every member configures its
    own side; the programs start only if both sides sent the same configuration.
    The theorem of this file is that they do. *)

From Stdlib Require Import Ascii.
From stdpp Require Import prelude gmap strings pretty.
From S2P Require Import Prelude BlockHeader Types Events Bitvmx NativeBridge Flow.
From S2P Require Import Inputs CoordinatorStore.
Open Scope Z_scope.

(** ** Sizes of the protocol (protocol-params) *)

(** [std::env::var] *)
Inductive EnvVar := VarValue (value : string) | VarNotPresent | VarNotUnicode.

Class EnvVars (G : Type) := { env_var : string -> G -> EnvVar }.

(** [str::parse::<u64>] *)
Definition parse_u64 (s : string) : option Z :=
  let in_range z := if z <? 2 ^ 64 then Some z else None in
  match s with
  | EmptyString => None
  | String c rest =>
      if decide (c = "+"%char) then if decide (rest = "") then None else parse_digits 0 rest ≫= in_range
      else parse_digits 0 s ≫= in_range
  end.

Definition env_u64_or_default (name : string) (v : EnvVar) (default : Z) : result FlowError Z :=
  match v with
  | VarValue value =>
      let trimmed := trim value in
      if decide (trimmed = "") then Ok default
      else ok_or (parse_u64 trimmed) (Chain [Msg (name +:+ " must be a valid u64")])
  | VarNotPresent => Ok default
  | VarNotUnicode => Err (Chain [Msg ("failed to read " +:+ name)])
  end.

Definition committee_member_count `{EnvVars G} (g : G) : result FlowError Z :=
  env_u64_or_default "COMMITTEE_MEMBER_COUNT" (env_var "COMMITTEE_MEMBER_COUNT" g) 4.
Definition prover_count `{EnvVars G} (g : G) : result FlowError Z :=
  env_u64_or_default "COMMITTEE_PROVER_COUNT" (env_var "COMMITTEE_PROVER_COUNT" g) 2.
Definition slots_per_package `{EnvVars G} (g : G) : result FlowError Z :=
  env_u64_or_default "SLOTS_PER_PACKAGE" (env_var "SLOTS_PER_PACKAGE" g) 100.

Definition bitvmx_slots_per_package `{EnvVars G} (g : G) : result FlowError Z :=
  n ← slots_per_package g;
  if n <? 2 ^ 32 then Ok n else Err (Chain [Msg "SLOTS_PER_PACKAGE must fit in u32 for BitVMX"]).

(** ** Data *)

Record RegistryUtxo := mkRegistryUtxo { ru_txid : Hash256; ru_outputIndex : Z; ru_amount : Z }.

(** [CommitteeRegistry::Committee], with the fields in use *)
Record RegistryCommittee := mkRegistryCommittee {
  rc_members : list Member;
  rc_fundingUTXOs : list RegistryUtxo;
  rc_streamId : Z
}.

Section Data.
Context `{FlowCodecs}.

(** The output types that are built here; the others come from BitVMX and go
    back to it as they were read. *)
Inductive OutputType :=
| SegwitPublicKey (value : Z) (script_pubkey : bytes) (public_key : PublicKey)
| OtherOutput (json : string).

Record PartialUtxo := mkPartialUtxo {
  pu_txid : bytes;
  pu_vout : Z;
  pu_amount : option Z;
  pu_output : option OutputType
}.

Record Utxo := mkUtxo { u_txid : bytes; u_vout : Z; u_amount : Z; u_pub_key : PublicKey }.

Record SignedPublicKey := mkSignedPublicKey {
  spk_public_key : PublicKey;
  signature_r : bytes;
  signature_s : bytes;
  recovery_id : Z
}.

Record FundingUtxos := mkFundingUtxos {
  speedup : PartialUtxo;
  protocol_funding : PartialUtxo;
  advance_funds : PartialUtxo
}.

Record MemberOfCommittee := mkMemberOfCommittee {
  mc_address : Address;
  mc_role : ParticipantRole;
  take_key : PublicKey;
  dispute_key : PublicKey;
  funding_utxo : PartialUtxo;
  committee_idx : nat
}.

Record CommitteeData := mkCommitteeData {
  committee_id : Z;
  committee : RegistryCommittee;
  cd_members : list MemberOfCommittee
}.

Record WtInitChallengeUtxos := mkChallengeUtxos { wt_stopper : PartialUtxo; op_stopper : PartialUtxo }.

Record DisputeChannelSetupRequest := mkChannelRequest {
  dispute_core_pid : bytes;
  member_index : nat;
  op_cosign_utxos : option (list (option PartialUtxo));
  wt_init_challenge_utxos : option (list (option WtInitChallengeUtxos))
}.

(** Structures that BitVMX receives *)
Record MemberData := mkMemberData { md_role : ParticipantRole; md_take_key : PublicKey; md_dispute_key : PublicKey }.
Record BitvmxCommittee := mkBitvmxCommittee {
  bc_members : list MemberData;
  take_aggregated_key : PublicKey;
  dispute_aggregated_key : PublicKey;
  packet_size : Z;
  stream_denomination : Z;
  pegin_confirmations : Z;
  pegout_confirmations : Z;
  reject_pegin_confirmations : Z
}.
Record DisputeCoreData := mkDisputeCoreData {
  dcd_committee_id : bytes;
  dcd_member_index : Z;
  dcd_funding_utxo : PartialUtxo
}.

(** The variants of the emulator's enums in use; no failure is ever configured. *)
Inductive ForceChallenge := ChallengeNo.
Inductive ForceCondition := ConditionAlways | ConditionNo.
Record ConfigResult := mkConfigResult {
  fail_config_prover : option Empty_set;
  fail_config_verifier : option Empty_set;
  force_challenge : ForceChallenge;
  force_condition : ForceCondition
}.
Record ForceFailConfiguration := mkForceFail {
  prover_force_second_nary : bool;
  fail_input_tx : option string;
  fail_main : ConfigResult;
  fail_read : ConfigResult
}.
Record DisputeConfiguration := mkDisputeConfiguration {
  dc_id : bytes;
  operators_aggregated_pub : PublicKey;
  protocol_connection : PartialUtxo * Z;
  prover_actions : list (PartialUtxo * list Z);
  prover_enablers : list OutputType;
  verifier_actions : list (PartialUtxo * list Z);
  verifier_enablers : list OutputType;
  timelock_blocks : Z;
  program_definition : string;
  fail_force_config : option ForceFailConfiguration;
  notify_protocol : list (string * bytes);
  auto_dispatch_input : option Z
}.

Record StreamSettings := mkStreamSettings {
  short_timelock : Z;
  long_timelock : Z;
  op_won_timelock : Z;
  claim_gate_timelock : Z;
  input_not_revealed_timelock : Z;
  op_no_cosign_timelock : Z;
  wt_no_challenge_timelock : Z;
  request_pegin_timelock : Z
}.

(** A variable that is sent as JSON carries the structure that is printed. *)
Inductive VariableTypes :=
| VarPubKey (key : PublicKey)
| VarUtxo (utxo : PartialUtxo)
| VarInput (data : bytes)
| VarCommittee (committee : BitvmxCommittee)
| VarDisputeCoreData (data : DisputeCoreData)
| VarDisputeConfiguration (configuration : DisputeConfiguration)
| VarFullPenalizationData (committee_id : bytes)
| VarUnionSettings (settings : gmap Z StreamSettings).

Inductive Destination :=
| P2WPKH (key : PublicKey) (amount : Z)
| Batch (destinations : list Destination).

Inductive BitvmxMessage :=
| SetVar (id : bytes) (name : string) (value : VariableTypes)
| SetFundingUtxo (utxo : Utxo)
| GetVar (id : bytes) (name : string)
| GetCommInfo (id : bytes)
| Setup (id : bytes) (program_type : string) (addresses : list CommsAddress) (leader : Z)
| SetupKey (id : bytes) (addresses : list CommsAddress) (keys : option (list PublicKey)) (leader : Z)
| GetEvenPubKey (id : bytes)
| SignMessage (id payload : bytes) (key : PublicKey)
| GetFundingBalance (id : bytes)
| SendFunds (id : bytes) (destination : Destination) (fee_rate : option Z).

Record CommitteeECDSA := mkECDSA { ec_x : string; ec_y : string; ec_r : string; ec_s : string; ec_v : Z }.
Record ApplyToStreamInput := mkApplyInput {
  ai_stream_id : Z;
  ai_role : Z;
  ai_take_key : CommitteeECDSA;
  ai_dispute_key : CommitteeECDSA;
  ai_pubkey_hash : string;
  ai_funding_utxo : RegistryUtxo
}.

Inductive Call :=
| CallApplyToStream (input : ApplyToStreamInput)
| CallDepositCommunicationData (committee_id : Z) (data : list CommunicationData)
| CallDepositAggregatedKey (committee_id : Z) (aggregated_key : bytes).

Inductive Effect :=
| Sent (msg : BitvmxMessage)
| Called (c : Call)
| Marked (flow_id : bytes) (stream_id committee_id : option Z).

(** The crates in use: keys and scripts, the contracts' form of addresses, JSON. *)
Class CommitteeCodecs := {
  public_key_to_bytes : PublicKey -> bytes;
  serialize_uncompressed : PublicKey -> bytes;
  (** [ScriptBuf::new_p2wpkh] of [PublicKey::wpubkey_hash] *)
  p2wpkh_script : PublicKey -> option bytes;
  (** [P2PAddressParser::socket_addr_to_contracts], [CommunicationData::default] *)
  socket_addr_to_contracts : SocketAddr -> option CommunicationData;
  zeroed_communication_data : CommunicationData;
  comms_to_json : CommsAddress -> string;
  comms_from_json : string -> option CommsAddress;
  parse_op_cosign_utxos : string -> option (list (option PartialUtxo));
  parse_wt_init_challenge_utxos : string -> option (list (option WtInitChallengeUtxos))
}.

(** What is printed as JSON is read back. *)
Class CommitteeCodecsLaws `{CommitteeCodecs} := {
  comms_json_roundtrip a : comms_from_json (comms_to_json a) = Some a
}.

(** An error of the broker is a text to the flows. *)
Class BitvmxBroker (G : Type) := { broker_send : BitvmxMessage -> SR G string unit }.

End Data.

(** ** The environment

    The context of the coordinator is shared by all flows; gateway, broker and
    store do not touch it. *)

Abbreviation Env G := (GlobalContext SignedPublicKey * G)%type.

Definition on_gateway {S X K G Y A} (conv : Y -> FlowError) (m : SR G Y A) : SR (World S (K * G)%type X) FlowError A :=
  on_env conv (zoom snd (fun g e => (e.1, g)) m).

(** Services whose errors are texts *)
Definition with_message {G A} (m : SR G string A) : SR G FlowError A :=
  fun g => match m g with (Ok a, g) => (Ok a, g) | (Err e, g) => (Err (Chain [Msg e]), g) end.

#[export] Instance shared_committee_services {K G} `{CommitteeServices G} : CommitteeServices (K * G)%type := {|
  my_address := my_address (E := G);
  get_committee i := zoom snd (fun g e => (e.1, g)) (get_committee i);
  get_committee_communication_data i := zoom snd (fun g e => (e.1, g)) (get_committee_communication_data i);
  get_member_public_keys a := zoom snd (fun g e => (e.1, g)) (get_member_public_keys a);
  new_v4 := zoom snd (fun g e => (e.1, g)) new_v4
|}.

(** ** Constants *)

Definition NO_LEADER_IDX : Z := 0.
Definition PROGRAM_TYPE_DISPUTE_CORE : string := "dispute_core".
Definition PROGRAM_TYPE_DRP : string := "drp".
Definition PROGRAM_TYPE_FULL_PENALIZATION : string := "full_penalization".
Definition OP_COSIGN_UTXOS : string := "OP_COSIGN_UTXOS".
Definition WT_INIT_CHALLENGE_UTXOS : string := "WT_INIT_CHALLENGE_UTXOS".
Definition ADVANCE_FUNDS_INPUT : string := "ADVANCE_FUNDS_INPUT".

Definition DRP_TIMELOCK_BLOCKS : Z := 15.
Definition UNION_DRP_AUTO_DISPATCH_INPUT : Z := 2.
Definition UNION_DRP_TIMELOCK_MULTIPLIER : Z := 4.
Definition UNION_DRP_JOURNAL_SIZE_WORDS : Z := 76 / 4.
Definition UNION_DRP_ELF_ID_HEX : string := "589837bb0123b9d5854e0807a8b3ed2b15a848c19e2287ac585a31ec93d711b5".
Definition UNION_DRP_OPERATOR_ID : bytes := replicate 36 1.
Definition UNION_DRP_FLAGS : bytes := [1; 0; 1; 0].

(** [StreamSettings::default] and [UnionSettings::with_defaults] *)
Definition default_stream_settings : StreamSettings := mkStreamSettings 6 12 150 6 8 12 12 12.
Definition union_settings_with_defaults : gmap Z StreamSettings :=
  list_to_map ((fun i => (i, default_stream_settings)) <$> [0; 1; 2; 3; 4]).

(** ** Setting up *)

Section Setup.
Context `{FlowCodecs, !CommitteeCodecs, !EnvVars G, !BitvmxBroker G, Sha256} {S : Type}.
Abbreviation W := (World S (Env G) Effect).

Definition committee_uuid (d : CommitteeData) : bytes := uuid_from_u128 (committee_id d).
Definition get_dispute_core_pid_for_key (d : CommitteeData) (key : PublicKey) : bytes :=
  dispute_core_protocol_id (committee_uuid d) (public_key_to_bytes key).
Definition get_dispute_core_pid_for_index (d : CommitteeData) (i : nat) : SR W FlowError bytes :=
  m ← required "Member index out of bounds" (cd_members d !! i);
  mret (get_dispute_core_pid_for_key d (take_key m)).

(** The message is recorded once the broker has it. *)
Definition send_msg (msg : BitvmxMessage) : SR W FlowError unit :=
  send_with (zoom snd (fun g e => (e.1, g)) (with_message (broker_send msg))) (Sent msg).
Definition send_bitvmx_msg (msg : BitvmxMessage) : SR W FlowError unit :=
  in_context "Failed to send message to BitVMX broker" (send_msg msg).

(** *** Dispute cores *)

Record AggregatedKeys := mkAggregatedKeys { ak_take : PublicKey; ak_dispute : PublicKey }.
Record CommitteeConfirmations := mkConfirmations { cc_pegin : Z; cc_pegout : Z; cc_reject_pegin : Z }.

Fixpoint setup_dispute_cores (d : CommitteeData) (p2p_addresses : list CommsAddress) (l : list MemberOfCommittee)
    : SR W FlowError (list bytes) :=
  match l with
  | [] => mret []
  | member :: l =>
      let protocol_id := get_dispute_core_pid_for_key d (take_key member) in
      _ ← in_context "Failed to send SetVar(DisputeCoreData) to BitVMX"
            (send_bitvmx_msg (SetVar protocol_id "dispute_core_data"
               (VarDisputeCoreData (mkDisputeCoreData (committee_uuid d) (Z.of_nat (committee_idx member))
                                      (funding_utxo member)))));
      _ ← in_context "Failed to send Setup(DisputeCoreData) to BitVMX"
            (send_bitvmx_msg (Setup protocol_id PROGRAM_TYPE_DISPUTE_CORE p2p_addresses NO_LEADER_IDX));
      rest ← setup_dispute_cores d p2p_addresses l;
      mret (protocol_id :: rest)
  end.

(** [DisputeCoreSetup::setup] *)
Definition dispute_core_setup (d : CommitteeData) (p2p_addresses : list CommsAddress) (keys : AggregatedKeys)
    (my_speedup_funding_utxo : Utxo) (stream_denomination : Z) (advance_funds_utxo : PartialUtxo)
    (confirmations : CommitteeConfirmations) : SR W FlowError (list bytes) :=
  w ← sget;
  packet_size ← slift (bitvmx_slots_per_package (env w).2);
  let members := (fun m => mkMemberData (mc_role m) (take_key m) (dispute_key m)) <$> cd_members d in
  let committee := mkBitvmxCommittee members (ak_take keys) (ak_dispute keys) packet_size stream_denomination
                     (cc_pegin confirmations) (cc_pegout confirmations) (cc_reject_pegin confirmations) in
  let committee_id := committee_uuid d in
  _ ← in_context "Failed to send SetVar(ADVANCE_FUNDS_INPUT) to BitVMX"
        (send_bitvmx_msg (SetVar committee_id ADVANCE_FUNDS_INPUT (VarUtxo advance_funds_utxo)));
  _ ← in_context "Failed to send SetFundingUtxo to BitVMX"
        (send_bitvmx_msg (SetFundingUtxo my_speedup_funding_utxo));
  _ ← in_context "Failed to send SetVar(Committee) to BitVMX"
        (send_bitvmx_msg (SetVar committee_id "committee" (VarCommittee committee)));
  setup_dispute_cores d p2p_addresses (cd_members d).

(** *** Full penalisation *)

(** [FullPenalizationSetup::setup] *)
Definition full_penalization_setup (committee_id : bytes) (addresses : list CommsAddress) : SR W FlowError bytes :=
  let protocol_id := full_penalization_protocol_id committee_id in
  _ ← in_context "Failed to send SetVar(FullPenalizationData) to BitVMX"
        (send_bitvmx_msg (SetVar protocol_id "full_penalization_data" (VarFullPenalizationData committee_id)));
  _ ← in_context "Failed to send Setup(FullPenalization) to BitVMX"
        (send_bitvmx_msg (Setup protocol_id PROGRAM_TYPE_FULL_PENALIZATION addresses 0));
  mret protocol_id.

(** *** Dispute channels *)

Definition request_dispute_core_variables (pid : bytes) : SR W FlowError unit :=
  _ ← send_bitvmx_msg (GetVar pid OP_COSIGN_UTXOS);
  send_bitvmx_msg (GetVar pid WT_INIT_CHALLENGE_UTXOS).

Definition request_and_create_setup_request (pid : bytes) (index : nat) : SR W FlowError DisputeChannelSetupRequest :=
  _ ← request_dispute_core_variables pid; mret (mkChannelRequest pid index None None).

Definition is_prover (m : MemberOfCommittee) : bool := bool_decide (mc_role m = Prover).

Fixpoint request_partner_vars (d : CommitteeData) (my_index : nat) (prover : bool) (l : list MemberOfCommittee)
    : SR W FlowError (list DisputeChannelSetupRequest) :=
  match l with
  | [] => mret []
  | member :: l =>
      let partner_index := committee_idx member in
      if bool_decide (partner_index = my_index) then request_partner_vars d my_index prover l else
      if negb prover && negb (is_prover member) then request_partner_vars d my_index prover l else
      pid ← get_dispute_core_pid_for_index d partner_index;
      request ← request_and_create_setup_request pid partner_index;
      rest ← request_partner_vars d my_index prover l;
      mret (request :: rest)
  end.

Definition request_dispute_core_var (d : CommitteeData) (my_index : nat)
    : SR W FlowError (list DisputeChannelSetupRequest) :=
  my_member ← required "my_index is out of bounds for members array" (cd_members d !! my_index);
  my_pid ← get_dispute_core_pid_for_index d my_index;
  my_request ← request_and_create_setup_request my_pid my_index;
  rest ← request_partner_vars d my_index (is_prover my_member) (cd_members d);
  mret (my_request :: rest).

(** [get_stoppers_for_index] and [get_cosign_for_index] are the same code. *)
Definition get_for_index {A} (l : list (option A)) (index : nat) (msg : string) : SR W FlowError A :=
  item ← required msg (l !! index); required (msg +:+ ": value is None") item.

Definition set_program_input (drp_id : bytes) (input_index : nat) (data : bytes) : SR W FlowError unit :=
  send_bitvmx_msg (SetVar drp_id ("program_input_" +:+ pretty input_index) (VarInput data)).

Definition set_union_verifier_inputs (drp_id : bytes) : SR W FlowError unit :=
  _ ← set_program_input drp_id 0 (reverse (be_bytes 4 UNION_DRP_JOURNAL_SIZE_WORDS));
  elf_id ← match hex_decode UNION_DRP_ELF_ID_HEX with
           | Ok b => mret b
           | Err _ => flow_bail "Invalid union verifier ELF id hex"
           end;
  _ ← set_program_input drp_id 1 elf_id;
  _ ← set_program_input drp_id 3 UNION_DRP_OPERATOR_ID;
  set_program_input drp_id 6 UNION_DRP_FLAGS.

(** What is known of a channel: [SetupOneInput] *)
Record SetupOneInput := mkSetupOne {
  op_index : nat;
  wt_index : nat;
  operator : CommsAddress;
  watchtower : CommsAddress;
  pair_key : PublicKey;
  so_wt_stopper : PartialUtxo;
  so_op_stopper : PartialUtxo;
  so_op_cosign : PartialUtxo;
  wt_takekey : PublicKey
}.

Context (drp_program_definition : string).

Definition dispute_configuration (d : CommitteeData) (i : SetupOneInput) (drp_id : bytes) : DisputeConfiguration :=
  mkDisputeConfiguration drp_id (pair_key i) (so_op_cosign i, 1) [(so_op_stopper i, [1])] []
    [(so_wt_stopper i, [1])] [] (saturating_mul 16 DRP_TIMELOCK_BLOCKS UNION_DRP_TIMELOCK_MULTIPLIER)
    drp_program_definition
    (Some (mkForceFail false None (mkConfigResult None None ChallengeNo ConditionAlways)
             (mkConfigResult None None ChallengeNo ConditionNo)))
    [("dispute_core", get_dispute_core_pid_for_key d (wt_takekey i))] (Some UNION_DRP_AUTO_DISPATCH_INPUT).

Definition setup_one (d : CommitteeData) (i : SetupOneInput) : SR W FlowError bytes :=
  let drp_id := dispute_channel_protocol_id (committee_uuid d) (Z.of_nat (op_index i)) (Z.of_nat (wt_index i)) in
  let participants := [operator i; watchtower i] in
  _ ← set_union_verifier_inputs drp_id;
  _ ← send_bitvmx_msg (SetVar drp_id "dispute_configuration"
                         (VarDisputeConfiguration (dispute_configuration d i drp_id)));
  _ ← send_bitvmx_msg (Setup drp_id PROGRAM_TYPE_DRP participants NO_LEADER_IDX);
  mret drp_id.

Definition core_data_of (index : nat) (l : list DisputeChannelSetupRequest) : option DisputeChannelSetupRequest :=
  List.find (fun r => bool_decide (member_index r = index)) l.

Definition setup_channel_as_operator (d : CommitteeData) (my_index partner_index : nat)
    (my_addr partner_addr : CommsAddress) (key : PublicKey) (dispute_core_data : list DisputeChannelSetupRequest)
    (partner : MemberOfCommittee) : SR W FlowError bytes :=
  core ← required "Missing DisputeCore data for partner" (core_data_of partner_index dispute_core_data);
  stoppers ← required "Missing WT_INIT_CHALLENGE_UTXOS for partner" (wt_init_challenge_utxos core);
  cosigns ← required "Missing OP_COSIGN_UTXOS for partner" (op_cosign_utxos core);
  stopper ← get_for_index stoppers my_index "Missing partner stoppers for my index in partner data";
  cosign ← get_for_index cosigns my_index "Missing partner cosign for my index in partner data";
  setup_one d (mkSetupOne my_index partner_index my_addr partner_addr key (wt_stopper stopper) (op_stopper stopper)
                 cosign (take_key partner)).

Definition setup_channel_as_watchtower (d : CommitteeData) (my_index partner_index : nat)
    (my_addr partner_addr : CommsAddress) (key : PublicKey) (my_cosigns : list (option PartialUtxo))
    (my_stoppers : list (option WtInitChallengeUtxos)) (my_takekey : PublicKey) : SR W FlowError bytes :=
  stopper ← get_for_index my_stoppers partner_index "Missing my stoppers for partner index in my data";
  cosign ← get_for_index my_cosigns partner_index "Missing my cosign for partner index in my data";
  setup_one d (mkSetupOne partner_index my_index partner_addr my_addr key (wt_stopper stopper) (op_stopper stopper)
                 cosign my_takekey).

(** One round of the loop over the partners: the identifiers it adds *)
Definition setup_partner (d : CommitteeData) (my_index : nat) (my_member : MemberOfCommittee)
    (my_addr : CommsAddress) (my_cosigns : list (option PartialUtxo)) (my_stoppers : list (option WtInitChallengeUtxos))
    (p2p_addresses : list CommsAddress) (pairwise_keys : gmap string PublicKey)
    (dispute_core_data : list DisputeChannelSetupRequest) (partner_index : nat) (partner : MemberOfCommittee)
    : SR W FlowError (list bytes) :=
  if bool_decide (partner_index = my_index) then mret [] else
  if negb (is_prover my_member) && negb (is_prover partner) then mret [] else
  partner_addr ← required "partner_index is out of bounds for p2p_addresses array" (p2p_addresses !! partner_index);
  key ← required "Pairwise key missing for partner address" (pairwise_keys !! comms_to_json partner_addr);
  as_operator ← (if is_prover my_member
                 then id ← setup_channel_as_operator d my_index partner_index my_addr partner_addr key
                             dispute_core_data partner; mret [id]
                 else mret []);
  as_watchtower ← (if is_prover partner
                   then id ← setup_channel_as_watchtower d my_index partner_index my_addr partner_addr key
                               my_cosigns my_stoppers (take_key my_member); mret [id]
                   else mret []);
  mret (as_operator ++ as_watchtower).

Fixpoint setup_partners (round : nat -> MemberOfCommittee -> SR W FlowError (list bytes)) (index : nat)
    (l : list MemberOfCommittee) : SR W FlowError (list bytes) :=
  match l with
  | [] => mret []
  | partner :: l =>
      ids ← round index partner;
      rest ← setup_partners round (Datatypes.S index) l;
      mret (ids ++ rest)
  end.

(** [DisputeChannelSetup::complete_setup] *)
Definition complete_setup (d : CommitteeData) (my_index : nat) (p2p_addresses : list CommsAddress)
    (pairwise_keys : gmap string PublicKey) (dispute_core_data : list DisputeChannelSetupRequest)
    : SR W FlowError (list bytes) :=
  my_member ← required "my_index is out of bounds for members array" (cd_members d !! my_index);
  my_addr ← required "my_index is out of bounds for p2p_addresses array" (p2p_addresses !! my_index);
  core ← required "Missing DisputeCore data for my index" (core_data_of my_index dispute_core_data);
  my_cosigns ← required "Missing OP_COSIGN_UTXOS for my index" (op_cosign_utxos core);
  my_stoppers ← required "Missing WT_INIT_CHALLENGE_UTXOS for my index" (wt_init_challenge_utxos core);
  setup_partners (setup_partner d my_index my_member my_addr my_cosigns my_stoppers p2p_addresses pairwise_keys
                    dispute_core_data) 0 (cd_members d).

End Setup.

(** ** Computations that only send

    [sends m a l]: with a broker that accepts, [m] succeeds with [a], sends the
    messages [l] and changes nothing else. *)

Lemma list_bind_assoc {A B C} (l : list A) (f : A -> list B) (g : B -> list C) : (l ≫= f) ≫= g = l ≫= fun a => f a ≫= g.
Proof. induction l as [|a l IH]; [done|]. by rewrite !bind_cons, bind_app, IH. Qed.
Lemma list_bind_fmap {A B C} (l : list A) (f : A -> list B) (g : B -> C) : g <$> (l ≫= f) = l ≫= fun a => g <$> f a.
Proof. induction l as [|a l IH]; [done|]. by rewrite !bind_cons, fmap_app, IH. Qed.

Class BrokerAccepts `{FlowCodecs} (G : Type) `{!BitvmxBroker G} :=
  broker_accepts msg g : exists g', broker_send msg g = (Ok tt, g').

Create HintDb sends.

Section Sends.
Context `{FlowCodecs, !CommitteeCodecs, !EnvVars G, !BitvmxBroker G, !BrokerAccepts G, Sha256} {S : Type}.
Abbreviation W := (World S (Env G) Effect).

Definition sends {A} (m : SR W FlowError A) (a : A) (l : list BitvmxMessage) : Prop :=
  forall w, exists w', m w = (Ok a, w') /\ trace w' = trace w ++ (Sent <$> l) /\
    state w' = state w /\ saved w' = saved w /\ (env w').1 = (env w).1.

Lemma sends_ret {A} (a : A) : sends (mret a) a [].
Proof. intros w. exists w. by rewrite app_nil_r. Qed.

Lemma sends_bind {A B} (m : SR W FlowError A) (f : A -> SR W FlowError B) a b l l' :
  sends m a l -> sends (f a) b l' -> sends (m ≫= f) b (l ++ l').
Proof.
  intros Hm Hf w. destruct (Hm w) as (w1 & Hr & Ht & Hs & Hv & He).
  destruct (Hf w1) as (w2 & Hr' & Ht' & Hs' & Hv' & He').
  exists w2. rewrite (SR_bind_run _ _ _ _ _ Hr). split_and!; [done| |congruence..].
  rewrite Ht', Ht, fmap_app. by rewrite (assoc_L (++)).
Qed.

Lemma sends_after {A B} (m : SR W FlowError A) (f : A -> SR W FlowError B) a b l :
  sends m a [] -> sends (f a) b l -> sends (m ≫= f) b l.
Proof. apply sends_bind. Qed.

Lemma sends_msg msg : sends (send_msg msg) tt [msg].
Proof.
  intros w. destruct (broker_accepts msg (env w).2) as [g' Hg].
  exists (mkWorld (state w) (saved w) ((env w).1, g') (trace w ++ [Sent msg])).
  unfold send_msg, send_with, on_env, zoom, with_message, mbind, SR_bind. rewrite Hg. by split_and!.
Qed.

Lemma sends_in_context {A} c (m : SR W FlowError A) a l : sends m a l -> sends (in_context c m) a l.
Proof. intros Hm w. destruct (Hm w) as (w' & Hr & ?). exists w'. unfold in_context. by rewrite Hr. Qed.

Lemma sends_bitvmx_msg msg : sends (send_bitvmx_msg msg) tt [msg].
Proof. apply sends_in_context, sends_msg. Qed.

Lemma sends_required {A} msg (o : option A) a : o = Some a -> sends (required msg o) a [].
Proof. intros ->. apply sends_ret. Qed.

Lemma sends_get_for_index {A} (l : list (option A)) i msg a : l !! i ≫= id = Some a -> sends (get_for_index l i msg) a [].
Proof.
  intros Hl. destruct (l !! i) as [o|] eqn:Hi; [|done]. cbn in Hl. unfold id in Hl. subst o.
  apply (sends_bind _ _ (Some a) a [] []); by apply sends_required.
Qed.

Lemma sends_if {A} (b : bool) (m n : SR W FlowError A) a a' l l' :
  (b = true -> sends m a l) -> (b = false -> sends n a' l') ->
  sends (if b then m else n) (if b then a else a') (if b then l else l').
Proof. destruct b; auto. Qed.

(** *** A channel *)

Definition channel_id (d : CommitteeData) (op wt : nat) : bytes :=
  dispute_channel_protocol_id (committee_uuid d) (Z.of_nat op) (Z.of_nat wt).

Definition program_inputs : list (nat * bytes) :=
  [(0%nat, reverse (be_bytes 4 UNION_DRP_JOURNAL_SIZE_WORDS));
   (1%nat, match hex_decode UNION_DRP_ELF_ID_HEX with Ok b => b | Err _ => [] end);
   (3%nat, UNION_DRP_OPERATOR_ID); (6%nat, UNION_DRP_FLAGS)].

(** The configuration of a channel, as a list of messages *)
Definition channel_messages (definition : string) (d : CommitteeData) (i : SetupOneInput) : list BitvmxMessage :=
  let drp_id := channel_id d (op_index i) (wt_index i) in
  ((fun '(n, b) => SetVar drp_id ("program_input_" +:+ pretty n) (VarInput b)) <$> program_inputs) ++
  [SetVar drp_id "dispute_configuration" (VarDisputeConfiguration (dispute_configuration definition d i drp_id));
   Setup drp_id PROGRAM_TYPE_DRP [operator i; watchtower i] NO_LEADER_IDX].

Lemma sends_setup_one definition d i :
  sends (setup_one definition d i) (channel_id d (op_index i) (wt_index i)) (channel_messages definition d i).
Proof.
  unfold setup_one, channel_messages. cbn zeta. fold (channel_id d (op_index i) (wt_index i)).
  set (drp_id := channel_id d (op_index i) (wt_index i)).
  eapply sends_bind with (a := tt).
  { unfold set_union_verifier_inputs. destruct (hex_decode UNION_DRP_ELF_ID_HEX) as [elf|] eqn:He; [|done].
    unfold program_inputs. rewrite He. cbn [fmap list_fmap].
    apply (sends_bind _ _ tt tt [_]); [apply sends_bitvmx_msg|].
    apply (sends_after _ _ elf); [apply sends_ret|].
    apply (sends_bind _ _ tt tt [_]); [apply sends_bitvmx_msg|].
    apply (sends_bind _ _ tt tt [_]); apply sends_bitvmx_msg. }
  apply (sends_bind _ _ tt _ [_]); [apply sends_bitvmx_msg|].
  apply (sends_bind _ _ tt _ [_] []); [apply sends_bitvmx_msg|apply sends_ret].
Qed.

(** *** What the members know

    [cores] are the variables that the dispute core of each member published, and
    [keys] the aggregated key of each pair. *)

Context (definition : string) (d : CommitteeData) (addrs : list CommsAddress)
  (cores : nat -> list (option PartialUtxo) * list (option WtInitChallengeUtxos)) (keys : nat -> nat -> PublicKey).

Definition prover_at (i : nat) : bool := from_option is_prover false (cd_members d !! i).

(** The configuration of a channel in terms of what is known to all. *)
Definition channel_plan (op wt : nat) : option SetupOneInput :=
  a_op ← addrs !! op;
  a_wt ← addrs !! wt;
  m_wt ← cd_members d !! wt;
  cosign ← (cores wt).1 !! op ≫= id;
  stopper ← (cores wt).2 !! op ≫= id;
  Some (mkSetupOne op wt a_op a_wt (keys (Nat.min op wt) (Nat.max op wt)) (wt_stopper stopper) (op_stopper stopper)
          cosign (take_key m_wt)).

Definition channels_with (me partner : nat) : list (nat * nat) :=
  if bool_decide (partner = me) then [] else
  (if prover_at me then [(me, partner)] else []) ++ (if prover_at partner then [(partner, me)] else []).

(** The channels of a member, in the order it sets them up. *)
Definition channels_of (me : nat) : list (nat * nat) := seq 0 (length (cd_members d)) ≫= channels_with me.

Definition planned (l : list (nat * nat)) : list BitvmxMessage :=
  l ≫= fun c => from_option (channel_messages definition d) [] (channel_plan c.1 c.2).

(** A member knows what it needs: the keys and the core data of its partners. *)
Record knows (me : nat) (pairwise_keys : gmap string PublicKey) (data : list DisputeChannelSetupRequest) : Prop := {
  knows_key partner a : addrs !! partner = Some a -> channels_with me partner <> [] ->
    pairwise_keys !! comms_to_json a = Some (keys (Nat.min me partner) (Nat.max me partner));
  knows_core i : i = me \/ (prover_at me = true /\ channels_with me i <> []) -> exists r, core_data_of i data = Some r /\
    op_cosign_utxos r = Some (cores i).1 /\ wt_init_challenge_utxos r = Some (cores i).2
}.

Lemma planned_app l l' : planned (l ++ l') = planned l ++ planned l'.
Proof. apply bind_app. Qed.
Lemma planned_singleton c : planned [c] = from_option (channel_messages definition d) [] (channel_plan c.1 c.2).
Proof. unfold planned. by rewrite bind_singleton. Qed.

Lemma channels_of_spec me op wt :
  (me < length (cd_members d))%nat ->
  (op, wt) ∈ channels_of me <->
  op <> wt /\ (op = me \/ wt = me) /\ prover_at op = true /\ (wt < length (cd_members d))%nat.
Proof.
  intros Hme. unfold channels_of, channels_with. rewrite list_elem_of_bind. setoid_rewrite elem_of_seq.
  assert (Hin : forall i, prover_at i = true -> (i < length (cd_members d))%nat).
  { intros i Hi. unfold prover_at in Hi. destruct (cd_members d !! i) eqn:Hl; [|done]. by apply lookup_lt_Some in Hl. }
  split.
  - intros (partner & Hc & Hp). case_bool_decide as Hne; [by apply elem_of_nil in Hc|].
    apply elem_of_app in Hc as [Hc|Hc].
    + destruct (prover_at me) eqn:Hpr; [|by apply elem_of_nil in Hc]. apply list_elem_of_singleton in Hc. simplify_eq.
      split_and!; auto; lia.
    + destruct (prover_at partner) eqn:Hpr; [|by apply elem_of_nil in Hc]. apply list_elem_of_singleton in Hc.
      simplify_eq. split_and!; auto.
  - intros (Hne & [-> | ->] & Hpr & Hlt); [exists wt|exists op]; rewrite bool_decide_eq_false_2 by congruence;
      rewrite Hpr, elem_of_app, list_elem_of_singleton; split; auto; [lia|]. specialize (Hin _ Hpr). lia.
Qed.

(** The rounds of the loop over the partners. *)
Lemma sends_setup_partners round (ids : nat -> list bytes) (msgs : nat -> list BitvmxMessage) l k :
  (forall j partner, l !! j = Some partner -> sends (round (k + j)%nat partner) (ids (k + j)%nat) (msgs (k + j)%nat)) ->
  sends (setup_partners round k l) (seq k (length l) ≫= ids) (seq k (length l) ≫= msgs).
Proof.
  revert k. induction l as [|partner l IH]; intros k Hr; cbn [setup_partners length seq]; [apply sends_ret|].
  rewrite !bind_cons. eapply sends_bind with (a := ids k).
  { specialize (Hr 0%nat partner eq_refl). by rewrite Nat.add_0_r in Hr. }
  rewrite <- (app_nil_r (seq _ _ ≫= msgs)). eapply sends_bind; [|apply sends_ret]. apply IH.
  intros j p Hj. specialize (Hr (Datatypes.S j) p Hj). by rewrite Nat.add_succ_r in Hr.
Qed.

Context (me : nat) (pairwise_keys : gmap string PublicKey) (data : list DisputeChannelSetupRequest)
  (Hknows : knows me pairwise_keys data)
  (Hplan : forall c, c ∈ channels_of me -> is_Some (channel_plan c.1 c.2)).

Lemma channel_plan_inv op wt i :
  channel_plan op wt = Some i ->
  exists a_op a_wt m_wt cosign stopper, addrs !! op = Some a_op /\ addrs !! wt = Some a_wt /\
    cd_members d !! wt = Some m_wt /\ (cores wt).1 !! op ≫= id = Some cosign /\
    (cores wt).2 !! op ≫= id = Some stopper /\
    i = mkSetupOne op wt a_op a_wt (keys (Nat.min op wt) (Nat.max op wt)) (wt_stopper stopper) (op_stopper stopper)
          cosign (take_key m_wt).
Proof.
  unfold channel_plan. intros Hi. destruct (addrs !! op) as [a_op|]; [|done]. destruct (addrs !! wt) as [a_wt|]; [|done].
  destruct (cd_members d !! wt) as [m_wt|]; [|done]. cbn [mbind option_bind] in Hi.
  destruct ((cores wt).1 !! op ≫= id) as [cosign|] eqn:Hc; [|done]. cbn [mbind option_bind] in Hi.
  destruct ((cores wt).2 !! op ≫= id) as [stopper|] eqn:Hs; [|done]. cbn [mbind option_bind] in Hi. injection Hi as <-.
  by exists a_op, a_wt, m_wt, cosign, stopper.
Qed.

Lemma sends_as_operator partner_index partner my_addr a i :
  prover_at me = true -> partner_index <> me -> cd_members d !! partner_index = Some partner ->
  addrs !! me = Some my_addr -> addrs !! partner_index = Some a -> channel_plan me partner_index = Some i ->
  sends (setup_channel_as_operator definition d me partner_index my_addr a
           (keys (Nat.min me partner_index) (Nat.max me partner_index)) data partner)
    (channel_id d me partner_index) (channel_messages definition d i).
Proof.
  intros Hpr Hne Hp Hmy Ha Hi. apply channel_plan_inv in Hi as (?&?&?& cosign & stopper & ?&?&?& Hc & Hs & ->).
  simplify_eq. destruct (knows_core _ _ _ Hknows partner_index) as (r & Hr & Hcs & Hst).
  { right. split; [done|]. unfold channels_with. rewrite bool_decide_eq_false_2 by done. by rewrite Hpr. }
  unfold setup_channel_as_operator. apply (sends_after _ _ r); [by apply sends_required|].
  apply (sends_after _ _ (cores partner_index).2); [by apply sends_required|].
  apply (sends_after _ _ (cores partner_index).1); [by apply sends_required|].
  apply (sends_after _ _ stopper); [by apply sends_get_for_index|].
  apply (sends_after _ _ cosign); [by apply sends_get_for_index|]. apply sends_setup_one.
Qed.

Lemma sends_as_watchtower partner_index my_member my_addr a i :
  cd_members d !! me = Some my_member -> addrs !! me = Some my_addr -> addrs !! partner_index = Some a ->
  channel_plan partner_index me = Some i ->
  sends (setup_channel_as_watchtower definition d me partner_index my_addr a
           (keys (Nat.min me partner_index) (Nat.max me partner_index)) (cores me).1 (cores me).2 (take_key my_member))
    (channel_id d partner_index me) (channel_messages definition d i).
Proof.
  intros Hm Hmy Ha Hi. apply channel_plan_inv in Hi as (?&?&?& cosign & stopper & ?&?&?& Hc & Hs & ->). simplify_eq.
  unfold setup_channel_as_watchtower. apply (sends_after _ _ stopper); [by apply sends_get_for_index|].
  apply (sends_after _ _ cosign); [by apply sends_get_for_index|].
  rewrite (Nat.min_comm partner_index), (Nat.max_comm partner_index). apply sends_setup_one.
Qed.

Lemma sends_setup_partner my_member my_addr partner_index partner :
  cd_members d !! me = Some my_member -> addrs !! me = Some my_addr ->
  cd_members d !! partner_index = Some partner ->
  sends (setup_partner definition d me my_member my_addr (cores me).1 (cores me).2 addrs pairwise_keys data
           partner_index partner)
    (uncurry (channel_id d) <$> channels_with me partner_index) (planned (channels_with me partner_index)).
Proof.
  intros Hmy Haddr Hp. unfold setup_partner.
  destruct (decide (partner_index = me)) as [->|Hne].
  { unfold channels_with. rewrite bool_decide_eq_true_2 by done. apply sends_ret. }
  rewrite (bool_decide_eq_false_2 _ Hne).
  assert (Hpm : prover_at me = is_prover my_member) by (unfold prover_at; by rewrite Hmy).
  assert (Hpp : prover_at partner_index = is_prover partner) by (unfold prover_at; by rewrite Hp).
  assert (Hcw : channels_with me partner_index =
    (if prover_at me then [(me, partner_index)] else []) ++ (if prover_at partner_index then [(partner_index, me)] else []))
    by (unfold channels_with; by rewrite bool_decide_eq_false_2).
  assert (Hch : forall op wt, (op, wt) ∈ channels_with me partner_index -> is_Some (channel_plan op wt)).
  { intros op wt Hc. apply (Hplan (op, wt)). unfold channels_of. apply list_elem_of_bind. exists partner_index.
    split; [done|]. apply elem_of_seq. apply lookup_lt_Some in Hp. lia. }
  rewrite <- Hpm, <- Hpp. destruct (negb (prover_at me) && negb (prover_at partner_index)) eqn:Hskip.
  { rewrite Hcw. destruct (prover_at me), (prover_at partner_index); try done. apply sends_ret. }
  assert (Hsome : channels_with me partner_index <> [])
    by (rewrite Hcw; by destruct (prover_at me), (prover_at partner_index)).
  assert (Ha : exists a, addrs !! partner_index = Some a).
  { destruct (channels_with me partner_index) as [|[op wt] l] eqn:Hl; [done|].
    destruct (Hch op wt) as [i Hi]; [left|]. apply channel_plan_inv in Hi as (a1 & a2 & _ & _ & _ & Ha1 & Ha2 & _).
    rewrite Hcw in Hl. destruct (prover_at me), (prover_at partner_index); simplify_eq/=; eauto. }
  destruct Ha as [a Ha]. pose proof (knows_key _ _ _ Hknows _ _ Ha Hsome) as Hkey.
  apply (sends_after _ _ a); [by apply sends_required|].
  apply (sends_after _ _ (keys (Nat.min me partner_index) (Nat.max me partner_index))); [by apply sends_required|].
  rewrite Hcw, planned_app, fmap_app.
  eapply sends_bind; [|rewrite <- (app_nil_r (planned _)); eapply sends_bind; [|apply sends_ret]].
  - destruct (prover_at me) eqn:Hpr; [|apply sends_ret].
    destruct (Hch me partner_index) as [i Hi]; [rewrite Hcw; left|]. rewrite planned_singleton. cbn [fst snd]. rewrite Hi. cbn [from_option].
    rewrite <- (app_nil_r (channel_messages _ _ _)). eapply sends_bind; [by apply sends_as_operator|apply sends_ret].
  - destruct (prover_at partner_index) eqn:Hpr; [|apply sends_ret].
    destruct (Hch partner_index me) as [i Hi]; [rewrite Hcw; apply elem_of_app; right; left|].
    rewrite planned_singleton. cbn [fst snd]. rewrite Hi. cbn [from_option].
    rewrite <- (app_nil_r (channel_messages _ _ _)). eapply sends_bind; [by apply sends_as_watchtower|apply sends_ret].
Qed.

Lemma sends_complete_setup my_member my_addr :
  cd_members d !! me = Some my_member -> addrs !! me = Some my_addr ->
  sends (complete_setup definition d me addrs pairwise_keys data)
    (uncurry (channel_id d) <$> channels_of me) (planned (channels_of me)).
Proof.
  intros Hmy Haddr. destruct (knows_core _ _ _ Hknows me) as (r & Hr & Hcs & Hst); [by left|]. unfold complete_setup.
  apply (sends_after _ _ my_member); [by apply sends_required|].
  apply (sends_after _ _ my_addr); [by apply sends_required|].
  apply (sends_after _ _ r); [by apply sends_required|].
  apply (sends_after _ _ (cores me).1); [by apply sends_required|].
  apply (sends_after _ _ (cores me).2); [by apply sends_required|].
  unfold channels_of, planned. rewrite list_bind_assoc, list_bind_fmap.
  apply (sends_setup_partners _ (fun i => uncurry (channel_id d) <$> channels_with me i)
           (fun i => planned (channels_with me i)) (cd_members d) 0).
  intros j partner Hj. by eapply sends_setup_partner.
Qed.

End Sends.

(** C13: The members of a committee set up the same dispute channels.  Let every
    member hold the core variables that its partners published and the aggregated
    keys of its pairs.  With a broker that accepts messages the setup of a member
    succeeds; it sends, channel by channel, exactly the configuration that the
    common knowledge of the committee determines, whichever side the member is on,
    and returns the identifiers of these channels; nothing else of the flow
    changes.  The channels of a member are exactly those between a prover and
    another member in which it takes part, so each channel is configured by its
    operator and by its watchtower with the same messages, participants in the
    same order. *)
Theorem channel_setups_agree `{FlowCodecs, !CommitteeCodecs, !BitvmxBroker G, !BrokerAccepts G, Sha256} {S : Type}
    definition (d : CommitteeData) addrs cores keys me pairwise_keys data (w : World S (Env G) Effect) :
  length addrs = length (cd_members d) -> (me < length (cd_members d))%nat ->
  knows d addrs cores keys me pairwise_keys data ->
  (forall c, c ∈ channels_of d me -> is_Some (channel_plan d addrs cores keys c.1 c.2)) ->
  (exists w', complete_setup definition d me addrs pairwise_keys data w =
       (Ok (uncurry (channel_id d) <$> channels_of d me), w') /\
     trace w' = trace w ++ (Sent <$> planned definition d addrs cores keys (channels_of d me)) /\
     state w' = state w /\ saved w' = saved w) /\
  (forall op wt, (op, wt) ∈ channels_of d me <->
     op <> wt /\ (op = me \/ wt = me) /\ prover_at d op = true /\ (wt < length (cd_members d))%nat).
Proof.
  intros Hlen Hme Hk Hp. split; [|intros op wt; by apply channels_of_spec].
  destruct (lookup_lt_is_Some_2 _ _ Hme) as [m Hm]. rewrite <- Hlen in Hme.
  destruct (lookup_lt_is_Some_2 _ _ Hme) as [a Ha].
  destruct (sends_complete_setup definition d addrs cores keys me pairwise_keys data Hk Hp m a Hm Ha w)
    as (w' & Hr & Ht & Hs & Hv & _). eauto 10.
Qed.

(** ** A committee of two provers and a verifier *)

Module Sample.

#[export] Existing Instances Flow.Sample.codecs Flow.Sample.socket_addrs NativeBridge.Sample.crates
  Bitvmx.Sample.tail_hash.

#[export] Instance committee_codecs : CommitteeCodecs := {|
  public_key_to_bytes k := k;
  serialize_uncompressed k := 4 :: replicate 64 (hd 0 k);
  p2wpkh_script k := Some (0 :: 20 :: k);
  socket_addr_to_contracts a := Some (Some a);
  zeroed_communication_data := None;
  comms_to_json a := CoordinatorStore.Sample.bits (countable.encode (address a, pubkey_hash a));
  comms_from_json s := '(a, h) ← countable.decode (CoordinatorStore.Sample.unbits s); Some (mkCommsAddress _ a h);
  parse_op_cosign_utxos _ := None;
  parse_wt_init_challenge_utxos _ := None
|}.

#[export] Instance committee_codecs_laws : CommitteeCodecsLaws.
Proof. split. intros [a h]. cbn. by rewrite CoordinatorStore.Sample.unbits_bits, decode_encode. Qed.

#[export] Instance env_vars : EnvVars unit := {| env_var _ _ := VarNotPresent |}.
#[export] Instance broker : BitvmxBroker unit := {| broker_send _ g := (Ok tt, g) |}.
#[export] Instance broker_ok : BrokerAccepts unit.
Proof. intros msg g. by exists g. Qed.

Definition utxo (n : Z) : PartialUtxo := mkPartialUtxo [n] 0 (Some n) None.
Definition member (i : nat) (r : ParticipantRole) : MemberOfCommittee :=
  mkMemberOfCommittee [Z.of_nat i] r [Z.of_nat i; 1] [Z.of_nat i; 2] (utxo (Z.of_nat i)) i.
Definition committee_data : CommitteeData :=
  mkCommitteeData 7 (mkRegistryCommittee [] [] 0) [member 0 Prover; member 1 Verifier; member 2 Prover].
Definition addrs : list CommsAddress :=
  [mkCommsAddress _ "10.0.0.1:80" "h0"; mkCommsAddress _ "10.0.0.2:80" "h1"; mkCommsAddress _ "10.0.0.3:80" "h2"].
Definition cores (i : nat) : list (option PartialUtxo) * list (option WtInitChallengeUtxos) :=
  ((fun n => Some (utxo (10 + Z.of_nat i + n))) <$> [0; 1; 2],
   (fun n => Some (mkChallengeUtxos (utxo (20 + Z.of_nat i + n)) (utxo (30 + Z.of_nat i + n)))) <$> [0; 1; 2]).
Definition keys (i j : nat) : PublicKey := [Z.of_nat i; Z.of_nat j].
Definition pairwise_keys (me : nat) : gmap string PublicKey :=
  list_to_map (imap (fun i a => (comms_to_json a, keys (Nat.min me i) (Nat.max me i))) addrs).
Definition data : list DisputeChannelSetupRequest :=
  (fun i => mkChannelRequest [Z.of_nat i] i (Some (cores i).1) (Some (cores i).2)) <$> [0; 1; 2]%nat.
Definition world : World unit (Env unit) Effect := mkWorld tt None (new_context, tt) [].

End Sample.

Section Witness.
#[local] Existing Instances Sample.committee_codecs Sample.broker Sample.broker_ok Bitvmx.Sample.tail_hash.

(** The verifier configures the channels of both provers as their watchtower. *)
Lemma channel_setups_agree_witness :
  exists w', complete_setup "drp.yaml" Sample.committee_data 1 Sample.addrs (Sample.pairwise_keys 1) Sample.data
      Sample.world = (Ok [channel_id Sample.committee_data 0 1; channel_id Sample.committee_data 2 1], w').
Proof.
  destruct (channel_setups_agree "drp.yaml" Sample.committee_data Sample.addrs Sample.cores Sample.keys 1
    (Sample.pairwise_keys 1) Sample.data Sample.world) as [(w' & Hr & _) _].
  - reflexivity.
  - cbn. lia.
  - split.
    + intros [|[|[|]]] a Ha Hc; cbn in Ha; simplify_eq; vm_compute; reflexivity.
    + intros i [->|[Hp _]]; [|done]. by eexists.
  - intros c Hc.
    assert (Hall : Forall (fun c => is_Some (channel_plan Sample.committee_data Sample.addrs Sample.cores Sample.keys c.1 c.2))
      (channels_of Sample.committee_data 1)) by (repeat constructor; by eexists).
    rewrite Forall_forall in Hall. by apply Hall.
  - exists w'. exact Hr.
Defined.

End Witness.
