(* ===== verification/SetupCommitteeFlow.v ===== *)
(** * The setup of a committee
    (crates/coordinator/src/flows/committee/setup_committee_flow.rs)

    One application of this node to a stream.  The flow checks balances, obtains
    and signs its keys, funds its Bitcoin account and applies; once the contracts
    select it, it publishes its address, aggregates the committee's keys, sets up
    the dispute programs and deposits the aggregated key.  [complete_step] handles
    the data a step waits for and starts the next step, [start_step] performs its
    entry action and stores the state; [continue_flow] (of the processor) decides
    what an error does to the flow. *)

From stdpp Require Import prelude gmap strings pretty.
From S2P Require Import Prelude BlockHeader OpFunding Types Events Bitvmx NativeBridge Flow Inputs CoordinatorStore.
From S2P Require Import CommitteeSetup.
Open Scope Z_scope.

(** ** Steps and data *)

Inductive Steps :=
| StepInit
| StepValidateBalances
| StepGetMyCommInfo
| StepGetMyTakeKey
| StepSignMyTakeKey
| StepGetMyDisputeKey
| StepSignMyDisputeKey
| StepGetMyCommKey
| StepSignMyCommKey
| StepFundMyBitVmxAccount
| StepApplyToStream
| StepDepositP2PDataAuthoritativeCheckpoint
| StepSetupTakeAggregatedKeyAllConvergeCheckpoint
| StepSetupDisputeAggregatedKey
| StepSetupPairwiseKeys
| StepSetupDisputeCore
| StepRequestDisputeChannelVars
| StepDisputeChannelSetup
| StepFullPenalizationSetup
| StepDepositAggregatedKey
| StepDone
| StepFailed.

#[export] Instance Steps_eq_dec : EqDecision Steps.
Proof. solve_decision. Defined.

(** Events of the committee registry, with the fields in use *)
Record NewCommitteePayload := mkNewCommittee { nc_committeeId : Z; nc_committee : RegistryCommittee }.
Record CommunicationDataReadyPayload := mkDataReady { cr_committeeId : Z }.

#[export] Instance committee_payloads : CommitteePayloads := {|
  NewPendingCommittee := NewCommitteePayload;
  NewCommittee := NewCommitteePayload;
  AllCommunicationData := CommunicationDataReadyPayload;
  MemberInfo := bytes
|}.

Section Types.
Context `{FlowCodecs}.

(** Request for a key, the key, request for its signature, the signed key *)
Record PubKeyReq := mkPubKeyReq {
  pk_req_id : bytes;
  pk_key : option PublicKey;
  pk_sign_req_id : option bytes;
  pk_signed : option SignedPublicKey
}.

Record PairwiseKeyReq := mkPairwiseKeyReq {
  pw_id : bytes;
  pw_my_index : nat;
  pw_partner_index : nat;
  pw_participants : list Address;
  pw_key : option PublicKey
}.

Record FlowContext := mkContext {
  user_input : option ApplyToStream;
  funding_balance_req : option (bytes * option Z);
  my_comm_info : option CommsAddress;
  comm_info_req_id : option bytes;
  my_take_key_req : option PubKeyReq;
  my_dispute_key_req : option PubKeyReq;
  my_comm_key_req : option PubKeyReq;
  send_funds_req : option (bytes * option bytes);
  agg_take_key_req : option (bytes * option PublicKey);
  agg_dispute_key_req : option (bytes * option PublicKey);
  pairwise_keys_req : list PairwiseKeyReq;
  pairwise_keys : gmap string PublicKey;
  setup_core_req : list (bytes * Z * bool);
  setup_channel_req : list DisputeChannelSetupRequest;
  setup_channel_setup_req : list (bytes * bool);
  setup_full_penalization_req : list (bytes * bool);
  committee_data : option CommitteeData;
  committee_pending_ev : option (EventWithBlock NewCommitteePayload);
  communication_data_ready_ev : option (list CommsAddress);
  committee_ready_req : option (EventWithBlock NewCommitteePayload)
}.

(** [FlowContext::default] *)
Definition default_context : FlowContext :=
  mkContext None None None None None None None None None None [] ∅ [] [] [] [] None None None None.

(** Updates, one per field *)
Definition set_user_input (v : option ApplyToStream) (c : FlowContext) : FlowContext :=
  mkContext v (funding_balance_req c) (my_comm_info c) (comm_info_req_id c) (my_take_key_req c)
    (my_dispute_key_req c) (my_comm_key_req c) (send_funds_req c) (agg_take_key_req c) (agg_dispute_key_req c)
    (pairwise_keys_req c) (pairwise_keys c) (setup_core_req c) (setup_channel_req c) (setup_channel_setup_req c)
    (setup_full_penalization_req c) (committee_data c) (committee_pending_ev c) (communication_data_ready_ev c)
    (committee_ready_req c).
Definition set_funding_balance_req (v : option (bytes * option Z)) (c : FlowContext) : FlowContext :=
  mkContext (user_input c) v (my_comm_info c) (comm_info_req_id c) (my_take_key_req c) (my_dispute_key_req c)
    (my_comm_key_req c) (send_funds_req c) (agg_take_key_req c) (agg_dispute_key_req c) (pairwise_keys_req c)
    (pairwise_keys c) (setup_core_req c) (setup_channel_req c) (setup_channel_setup_req c)
    (setup_full_penalization_req c) (committee_data c) (committee_pending_ev c) (communication_data_ready_ev c)
    (committee_ready_req c).
Definition set_my_comm_info (v : option CommsAddress) (c : FlowContext) : FlowContext :=
  mkContext (user_input c) (funding_balance_req c) v (comm_info_req_id c) (my_take_key_req c)
    (my_dispute_key_req c) (my_comm_key_req c) (send_funds_req c) (agg_take_key_req c) (agg_dispute_key_req c)
    (pairwise_keys_req c) (pairwise_keys c) (setup_core_req c) (setup_channel_req c) (setup_channel_setup_req c)
    (setup_full_penalization_req c) (committee_data c) (committee_pending_ev c) (communication_data_ready_ev c)
    (committee_ready_req c).
Definition set_comm_info_req_id (v : option bytes) (c : FlowContext) : FlowContext :=
  mkContext (user_input c) (funding_balance_req c) (my_comm_info c) v (my_take_key_req c) (my_dispute_key_req c)
    (my_comm_key_req c) (send_funds_req c) (agg_take_key_req c) (agg_dispute_key_req c) (pairwise_keys_req c)
    (pairwise_keys c) (setup_core_req c) (setup_channel_req c) (setup_channel_setup_req c)
    (setup_full_penalization_req c) (committee_data c) (committee_pending_ev c) (communication_data_ready_ev c)
    (committee_ready_req c).
Definition set_my_take_key_req (v : option PubKeyReq) (c : FlowContext) : FlowContext :=
  mkContext (user_input c) (funding_balance_req c) (my_comm_info c) (comm_info_req_id c) v
    (my_dispute_key_req c) (my_comm_key_req c) (send_funds_req c) (agg_take_key_req c) (agg_dispute_key_req c)
    (pairwise_keys_req c) (pairwise_keys c) (setup_core_req c) (setup_channel_req c) (setup_channel_setup_req c)
    (setup_full_penalization_req c) (committee_data c) (committee_pending_ev c) (communication_data_ready_ev c)
    (committee_ready_req c).
Definition set_my_dispute_key_req (v : option PubKeyReq) (c : FlowContext) : FlowContext :=
  mkContext (user_input c) (funding_balance_req c) (my_comm_info c) (comm_info_req_id c) (my_take_key_req c) v
    (my_comm_key_req c) (send_funds_req c) (agg_take_key_req c) (agg_dispute_key_req c) (pairwise_keys_req c)
    (pairwise_keys c) (setup_core_req c) (setup_channel_req c) (setup_channel_setup_req c)
    (setup_full_penalization_req c) (committee_data c) (committee_pending_ev c) (communication_data_ready_ev c)
    (committee_ready_req c).
Definition set_my_comm_key_req (v : option PubKeyReq) (c : FlowContext) : FlowContext :=
  mkContext (user_input c) (funding_balance_req c) (my_comm_info c) (comm_info_req_id c) (my_take_key_req c)
    (my_dispute_key_req c) v (send_funds_req c) (agg_take_key_req c) (agg_dispute_key_req c)
    (pairwise_keys_req c) (pairwise_keys c) (setup_core_req c) (setup_channel_req c) (setup_channel_setup_req c)
    (setup_full_penalization_req c) (committee_data c) (committee_pending_ev c) (communication_data_ready_ev c)
    (committee_ready_req c).
Definition set_send_funds_req (v : option (bytes * option bytes)) (c : FlowContext) : FlowContext :=
  mkContext (user_input c) (funding_balance_req c) (my_comm_info c) (comm_info_req_id c) (my_take_key_req c)
    (my_dispute_key_req c) (my_comm_key_req c) v (agg_take_key_req c) (agg_dispute_key_req c)
    (pairwise_keys_req c) (pairwise_keys c) (setup_core_req c) (setup_channel_req c) (setup_channel_setup_req c)
    (setup_full_penalization_req c) (committee_data c) (committee_pending_ev c) (communication_data_ready_ev c)
    (committee_ready_req c).
Definition set_agg_take_key_req (v : option (bytes * option PublicKey)) (c : FlowContext) : FlowContext :=
  mkContext (user_input c) (funding_balance_req c) (my_comm_info c) (comm_info_req_id c) (my_take_key_req c)
    (my_dispute_key_req c) (my_comm_key_req c) (send_funds_req c) v (agg_dispute_key_req c)
    (pairwise_keys_req c) (pairwise_keys c) (setup_core_req c) (setup_channel_req c) (setup_channel_setup_req c)
    (setup_full_penalization_req c) (committee_data c) (committee_pending_ev c) (communication_data_ready_ev c)
    (committee_ready_req c).
Definition set_agg_dispute_key_req (v : option (bytes * option PublicKey)) (c : FlowContext) : FlowContext :=
  mkContext (user_input c) (funding_balance_req c) (my_comm_info c) (comm_info_req_id c) (my_take_key_req c)
    (my_dispute_key_req c) (my_comm_key_req c) (send_funds_req c) (agg_take_key_req c) v (pairwise_keys_req c)
    (pairwise_keys c) (setup_core_req c) (setup_channel_req c) (setup_channel_setup_req c)
    (setup_full_penalization_req c) (committee_data c) (committee_pending_ev c) (communication_data_ready_ev c)
    (committee_ready_req c).
Definition set_pairwise_keys_req (v : list PairwiseKeyReq) (c : FlowContext) : FlowContext :=
  mkContext (user_input c) (funding_balance_req c) (my_comm_info c) (comm_info_req_id c) (my_take_key_req c)
    (my_dispute_key_req c) (my_comm_key_req c) (send_funds_req c) (agg_take_key_req c) (agg_dispute_key_req c) v
    (pairwise_keys c) (setup_core_req c) (setup_channel_req c) (setup_channel_setup_req c)
    (setup_full_penalization_req c) (committee_data c) (committee_pending_ev c) (communication_data_ready_ev c)
    (committee_ready_req c).
Definition set_pairwise_keys (v : gmap string PublicKey) (c : FlowContext) : FlowContext :=
  mkContext (user_input c) (funding_balance_req c) (my_comm_info c) (comm_info_req_id c) (my_take_key_req c)
    (my_dispute_key_req c) (my_comm_key_req c) (send_funds_req c) (agg_take_key_req c) (agg_dispute_key_req c)
    (pairwise_keys_req c) v (setup_core_req c) (setup_channel_req c) (setup_channel_setup_req c)
    (setup_full_penalization_req c) (committee_data c) (committee_pending_ev c) (communication_data_ready_ev c)
    (committee_ready_req c).
Definition set_setup_core_req (v : list (bytes * Z * bool)) (c : FlowContext) : FlowContext :=
  mkContext (user_input c) (funding_balance_req c) (my_comm_info c) (comm_info_req_id c) (my_take_key_req c)
    (my_dispute_key_req c) (my_comm_key_req c) (send_funds_req c) (agg_take_key_req c) (agg_dispute_key_req c)
    (pairwise_keys_req c) (pairwise_keys c) v (setup_channel_req c) (setup_channel_setup_req c)
    (setup_full_penalization_req c) (committee_data c) (committee_pending_ev c) (communication_data_ready_ev c)
    (committee_ready_req c).
Definition set_setup_channel_req (v : list DisputeChannelSetupRequest) (c : FlowContext) : FlowContext :=
  mkContext (user_input c) (funding_balance_req c) (my_comm_info c) (comm_info_req_id c) (my_take_key_req c)
    (my_dispute_key_req c) (my_comm_key_req c) (send_funds_req c) (agg_take_key_req c) (agg_dispute_key_req c)
    (pairwise_keys_req c) (pairwise_keys c) (setup_core_req c) v (setup_channel_setup_req c)
    (setup_full_penalization_req c) (committee_data c) (committee_pending_ev c) (communication_data_ready_ev c)
    (committee_ready_req c).
Definition set_setup_channel_setup_req (v : list (bytes * bool)) (c : FlowContext) : FlowContext :=
  mkContext (user_input c) (funding_balance_req c) (my_comm_info c) (comm_info_req_id c) (my_take_key_req c)
    (my_dispute_key_req c) (my_comm_key_req c) (send_funds_req c) (agg_take_key_req c) (agg_dispute_key_req c)
    (pairwise_keys_req c) (pairwise_keys c) (setup_core_req c) (setup_channel_req c) v
    (setup_full_penalization_req c) (committee_data c) (committee_pending_ev c) (communication_data_ready_ev c)
    (committee_ready_req c).
Definition set_setup_full_penalization_req (v : list (bytes * bool)) (c : FlowContext) : FlowContext :=
  mkContext (user_input c) (funding_balance_req c) (my_comm_info c) (comm_info_req_id c) (my_take_key_req c)
    (my_dispute_key_req c) (my_comm_key_req c) (send_funds_req c) (agg_take_key_req c) (agg_dispute_key_req c)
    (pairwise_keys_req c) (pairwise_keys c) (setup_core_req c) (setup_channel_req c) (setup_channel_setup_req c)
    v (committee_data c) (committee_pending_ev c) (communication_data_ready_ev c) (committee_ready_req c).
Definition set_committee_data (v : option CommitteeData) (c : FlowContext) : FlowContext :=
  mkContext (user_input c) (funding_balance_req c) (my_comm_info c) (comm_info_req_id c) (my_take_key_req c)
    (my_dispute_key_req c) (my_comm_key_req c) (send_funds_req c) (agg_take_key_req c) (agg_dispute_key_req c)
    (pairwise_keys_req c) (pairwise_keys c) (setup_core_req c) (setup_channel_req c) (setup_channel_setup_req c)
    (setup_full_penalization_req c) v (committee_pending_ev c) (communication_data_ready_ev c)
    (committee_ready_req c).
Definition set_committee_pending_ev (v : option (EventWithBlock NewCommitteePayload)) (c : FlowContext) : FlowContext :=
  mkContext (user_input c) (funding_balance_req c) (my_comm_info c) (comm_info_req_id c) (my_take_key_req c)
    (my_dispute_key_req c) (my_comm_key_req c) (send_funds_req c) (agg_take_key_req c) (agg_dispute_key_req c)
    (pairwise_keys_req c) (pairwise_keys c) (setup_core_req c) (setup_channel_req c) (setup_channel_setup_req c)
    (setup_full_penalization_req c) (committee_data c) v (communication_data_ready_ev c) (committee_ready_req c).
Definition set_communication_data_ready_ev (v : option (list CommsAddress)) (c : FlowContext) : FlowContext :=
  mkContext (user_input c) (funding_balance_req c) (my_comm_info c) (comm_info_req_id c) (my_take_key_req c)
    (my_dispute_key_req c) (my_comm_key_req c) (send_funds_req c) (agg_take_key_req c) (agg_dispute_key_req c)
    (pairwise_keys_req c) (pairwise_keys c) (setup_core_req c) (setup_channel_req c) (setup_channel_setup_req c)
    (setup_full_penalization_req c) (committee_data c) (committee_pending_ev c) v (committee_ready_req c).
Definition set_committee_ready_req (v : option (EventWithBlock NewCommitteePayload)) (c : FlowContext) : FlowContext :=
  mkContext (user_input c) (funding_balance_req c) (my_comm_info c) (comm_info_req_id c) (my_take_key_req c)
    (my_dispute_key_req c) (my_comm_key_req c) (send_funds_req c) (agg_take_key_req c) (agg_dispute_key_req c)
    (pairwise_keys_req c) (pairwise_keys c) (setup_core_req c) (setup_channel_req c) (setup_channel_setup_req c)
    (setup_full_penalization_req c) (committee_data c) (committee_pending_ev c) (communication_data_ready_ev c)
    v.

Inductive StepData :=
| DataUserRequest (input : ApplyToStream)
| DataBitVmxFundingBalance (balance : Z)
| DataCommInfo (addr : CommsAddress)
| DataPublicKey (pk : PublicKey)
| DataPairwiseAggregatedKey (req_id : bytes) (pk : PublicKey)
| DataSignedMessage (r s : bytes) (recovery_id : Z)
| DataSetupCompleted (id : bytes)
| DataFundsSent (txid : bytes)
| DataDisputeCoreVariable (pid : bytes) (name data : string)
| DataPendingCommittee (e : EventWithBlock NewCommitteePayload)
| DataReadyCommunicationData (e : EventWithBlock CommunicationDataReadyPayload)
| DataReadyCommittee (e : EventWithBlock NewCommitteePayload).

Record State := mkState { flow_id : bytes; step : Steps; ctx : FlowContext; created_at : option Z }.

(** Contracts gateway, store and completion markers *)
Class SetupServices (G : Type) := {
  is_whitelisted : SR G DomainErrors bool;
  get_balance : SR G DomainErrors Z;
  get_minimum_deposit : Z -> Z -> SR G DomainErrors Z;
  contract_call : Call -> SR G DomainErrors unit;
  save_flow : State -> SR G string unit;
  signal_done : bytes -> option Z -> option Z -> SR G string unit
}.

End Types.

Definition is_terminal (s : Steps) : bool := bool_decide (s = StepDone) || bool_decide (s = StepFailed).

(** ** Keys and amounts *)

Definition REGTEST_FEE_RATE : Z := 10.
Definition DEFAULT_FEE_RATE : Z := 1.
Definition TAKE_KEY_INDEX : nat := 0.
Definition DISPUTE_KEY_INDEX : nat := 1.

(** [u64] arithmetic wraps, as in the release profile the images are built with. *)
Definition calculate_advance_funds_value (advance_funds_user_input : Z) : Z :=
  (advance_funds_user_input * 12) mod 2 ^ 64 / 10.

Definition get_dispute_pair_key_name (idx_a idx_b : nat) : string :=
  let '(min_i, max_i) := if (idx_a <=? idx_b)%nat then (idx_a, idx_b) else (idx_b, idx_a) in
  "PAIRWISE_DISPUTE_KEY_" +:+ pretty min_i +:+ "_" +:+ pretty max_i.

Section Keys.
Context `{FlowCodecs, !CommitteeCodecs, Keccak}.

Definition signed_to_committee_public_key {S} (spk : SignedPublicKey) : SR S FlowError CommitteeECDSA :=
  let pubkey_bytes := serialize_uncompressed (spk_public_key spk) in
  if negb ((length pubkey_bytes =? 65)%nat && bool_decide (pubkey_bytes !! 0%nat = Some 4))
  then flow_bail "invalid uncompressed pubkey" else
  let coordinates := drop 1 pubkey_bytes in
  if negb ((length (signature_r spk) =? 32)%nat && (length (signature_s spk) =? 32)%nat)
  then flow_bail "invalid signature length" else
  v ← (if (recovery_id spk =? 0) || (recovery_id spk =? 1) then mret (27 + recovery_id spk)
       else if (recovery_id spk =? 27) || (recovery_id spk =? 28) then mret (recovery_id spk)
       else flow_bail "invalid recovery_id (expected 0/1 or 27/28)");
  mret (mkECDSA (hex_encode (take 32 coordinates)) (hex_encode (drop 32 coordinates))
          (hex_encode (signature_r spk)) (hex_encode (signature_s spk)) v).

(** Keccak of the uncompressed key without its prefix *)
Definition create_pubkey_hash (key : PublicKey) : bytes := keccak256 (drop 1 (serialize_uncompressed key)).

End Keys.

(** ** Requests a flow waits for *)

Section Requests.
Context `{FlowCodecs}.

Definition pubkey_request_matches (r : option PubKeyReq) (req_id : bytes) : bool :=
  match r with
  | Some r => bool_decide (pk_req_id r = req_id) || bool_decide (pk_sign_req_id r = Some req_id)
  | None => false
  end.

(** [funding_balance_request_matches], [aggregated_key_request_matches] and
    [fund_bitvmx_request_matches] *)
Definition request_matches {A} (r : option (bytes * A)) (req_id : bytes) : bool :=
  match r with Some (id, _) => bool_decide (id = req_id) | None => false end.

Definition request_id_matches (stored : option bytes) (req_id : bytes) : bool := bool_decide (stored = Some req_id).

Fixpoint setup_core_request_matches (setup_core : list (bytes * Z * bool)) (req_id : bytes) (flow_committee : option Z)
    : bool :=
  match setup_core with
  | [] => false
  | (protocol_id, committee_id, _) :: l =>
      match flow_committee with
      | None => false
      | Some id => if bool_decide (protocol_id = req_id) then bool_decide (id = committee_id)
                   else setup_core_request_matches l req_id flow_committee
      end
  end.

Definition setup_channel_request_matches (l : list (bytes * bool)) (req_id : bytes) : bool :=
  existsb (fun r => bool_decide (r.1 = req_id)) l.

Definition pairwise_key_request_matches (l : list PairwiseKeyReq) (req_id : bytes) : bool :=
  existsb (fun r => bool_decide (pw_id r = req_id)) l.

Definition is_waiting_for_bitvmx_request (s : State) (req_id : bytes) : bool :=
  let c := ctx s in
  request_matches (funding_balance_req c) req_id ||
  request_id_matches (comm_info_req_id c) req_id ||
  pubkey_request_matches (my_take_key_req c) req_id ||
  pubkey_request_matches (my_dispute_key_req c) req_id ||
  pubkey_request_matches (my_comm_key_req c) req_id ||
  request_matches (agg_take_key_req c) req_id ||
  request_matches (agg_dispute_key_req c) req_id ||
  pairwise_key_request_matches (pairwise_keys_req c) req_id ||
  request_matches (send_funds_req c) req_id ||
  setup_core_request_matches (setup_core_req c) req_id (committee_id <$> committee_data c) ||
  setup_channel_request_matches (setup_channel_setup_req c) req_id ||
  setup_channel_request_matches (setup_full_penalization_req c) req_id.

Definition is_pairwise_aggregated_key_request (s : State) (req_id : bytes) : bool :=
  pairwise_key_request_matches (pairwise_keys_req (ctx s)) req_id.

Definition is_for_stream (s : State) (id : Z) : bool := bool_decide (stream_id <$> user_input (ctx s) = Some id).

Definition is_for_committee (s : State) (id : Z) : bool :=
  bool_decide ((fun e => nc_committeeId (ev_inner e)) <$> committee_pending_ev (ctx s) = Some id).

Definition is_waiting_for_dispute_core_variable (s : State) (program_id : bytes) : bool :=
  bool_decide (step s = StepRequestDisputeChannelVars) &&
  existsb (fun r => bool_decide (dispute_core_pid r = program_id)) (setup_channel_req (ctx s)).

End Requests.

(** ** Operations *)

Section Flow.
Context `{FlowCodecs, !CommitteeCodecs, Keccak, Sha256, !EnvVars G, !BitvmxBroker G, !CommitteeServices G,
  !SetupServices G} (bitcoin_network : Network) (drp_program_definition : string) (btc_confirmations : Z).
Abbreviation W := (Flow.World State (Env G) Effect).

Definition get_ctx : SR W FlowError FlowContext := w ← sget; mret (ctx (state w)).
Definition global_context : SR W FlowError (GlobalContext SignedPublicKey) := w ← sget; mret (env w).1.
Definition set_global (f : GlobalContext SignedPublicKey -> GlobalContext SignedPublicKey) : SR W FlowError unit :=
  smodify (fun w => mkWorld (state w) (saved w) (f (env w).1, (env w).2) (trace w)).
Definition set_ctx (f : FlowContext -> FlowContext) : SR W FlowError unit :=
  update_state (fun s => mkState (flow_id s) (step s) (f (ctx s)) (created_at s)).
Definition set_step (next : Steps) : SR W FlowError unit :=
  update_state (fun s => mkState (flow_id s) next (ctx s) (created_at s)).
Definition read_env {A} (f : G -> result FlowError A) : SR W FlowError A := w ← sget; slift (f (env w).2).

Definition persist_state : SR W FlowError unit :=
  in_context "Failed to persist state" (persist_with (fun s => zoom snd (fun g e => (e.1, g)) (with_message (save_flow s)))).

Definition call (c : Call) : SR W DomainErrors unit :=
  call_with (zoom snd (fun g e => (e.1, g)) (contract_call c)) (Called c).

(** Failures to send are logged. *)
Definition send_bitvmx_msg (msg : BitvmxMessage) : SR W FlowError unit := _ ← catch (send_msg msg); mret tt.

(** [Uuid::new_v4] panics without randomness. *)
Definition new_uuid : SR W FlowError bytes := on_gateway (fun _ => FlowPanic "getrandom") new_v4.

(** [SetupCommitteeFlow::new] and [from_saved_state] *)
Definition new_flow (id : bytes) (now : Z) : State := mkState id StepInit default_context (Some now).
Definition from_saved_state (s : State) : result FlowError State :=
  match user_input (ctx s) with
  | Some _ => Ok s
  | None => Err (FlowPanic "Persisted SetupCommitteeFlow must have user_input set")
  end.

(** *** Reading the context *)

Definition get_user_input : SR W FlowError ApplyToStream :=
  c ← get_ctx; required "Missing User Input in context" (user_input c).
Definition get_stream_id : SR W FlowError Z :=
  c ← get_ctx; input ← required "Missing stream_id" (user_input c); mret (stream_id input).
Definition get_committee_data : SR W FlowError CommitteeData :=
  c ← get_ctx; required "CommitteeData not yet initialized (NewCommitteePending not received)" (committee_data c).
Definition get_my_comm_info : SR W FlowError CommsAddress :=
  c ← get_ctx; required "My Comm Info missing in context" (my_comm_info c).
Definition get_aggregated_take_key : SR W FlowError PublicKey :=
  c ← get_ctx;
  r ← required "Aggregated Take Key request missing in context" (agg_take_key_req c);
  required "Aggregated Take Key missing in context" r.2.
Definition get_aggregated_dispute_key : SR W FlowError PublicKey :=
  c ← get_ctx;
  r ← required "Aggregated Dispute Key request missing in context" (agg_dispute_key_req c);
  required "Aggregated Dispute Key missing in context" r.2.
Definition get_my_communication_data : SR W FlowError (list CommsAddress) :=
  c ← get_ctx; required "Missing Communication Data in context" (communication_data_ready_ev c).

(** A key that is set for the whole process goes first. *)
Definition my_key (shared : GlobalContext SignedPublicKey -> option SignedPublicKey)
    (own : FlowContext -> option PubKeyReq) : SR W FlowError SignedPublicKey :=
  k ← global_context;
  match shared k with
  | Some key => mret key
  | None =>
      c ← get_ctx;
      r ← required "Missing request for My Key" (own c);
      required "Missing My Signed Key in context" (pk_signed r)
  end.
Definition get_my_take_key : SR W FlowError SignedPublicKey := my_key CoordinatorStore.take_key my_take_key_req.
Definition get_my_dispute_key : SR W FlowError SignedPublicKey := my_key CoordinatorStore.dispute_key my_dispute_key_req.
Definition get_my_comm_key : SR W FlowError SignedPublicKey := my_key CoordinatorStore.comm_key my_comm_key_req.

(** The outputs of the funding transaction, in the order of [fund_protocol] *)
Definition get_my_protocol_utxos : SR W FlowError FundingUtxos :=
  c ← get_ctx;
  r ← required "Missing Send Funds Request" (send_funds_req c);
  txid ← required "Missing Send Funds Request TxId" r.2;
  key ← get_my_dispute_key;
  input ← get_user_input;
  let public_key := spk_public_key key in
  script ← required "Failed to get wpubkey_hash from dispute public key" (p2wpkh_script public_key);
  let output n v := mkPartialUtxo txid n (Some v) (Some (SegwitPublicKey v script public_key)) in
  mret (mkFundingUtxos (output 0 (speed_up_utxo_value input)) (output 1 (funding_utxo_value input))
          (output 2 (calculate_advance_funds_value (advance_funds_value input)))).

Definition build_funding_utxo : SR W FlowError RegistryUtxo :=
  utxos ← get_my_protocol_utxos;
  let u := CommitteeSetup.protocol_funding utxos in
  amount ← required "Missing funding UTXO amount" (pu_amount u);
  mret (mkRegistryUtxo (txid_to_fb_32 (pu_txid u)) (pu_vout u) amount).

(** *** Requests to BitVMX *)

Definition request_bitvmx_funding_balance : SR W FlowError unit :=
  req_id ← new_uuid;
  _ ← set_ctx (set_funding_balance_req (Some (req_id, None)));
  send_bitvmx_msg (GetFundingBalance req_id).

Definition request_bitvmx_comm_info : SR W FlowError unit :=
  req_id ← new_uuid;
  _ ← set_ctx (set_comm_info_req_id (Some req_id));
  send_bitvmx_msg (GetCommInfo req_id).

(** [request_bitvmx_{take,dispute,comm}_pub_key] *)
Definition request_pub_key (set : option PubKeyReq -> FlowContext -> FlowContext) : SR W FlowError unit :=
  req_id ← new_uuid;
  _ ← set_ctx (set (Some (mkPubKeyReq req_id None None None)));
  send_bitvmx_msg (GetEvenPubKey req_id).

(** [request_bitvmx_key_signing] *)
Definition request_bitvmx_key_signing (own : FlowContext -> option PubKeyReq)
    (set : option PubKeyReq -> FlowContext -> FlowContext) : SR W FlowError unit :=
  c ← get_ctx;
  r ← required "Missing Public Key request" (own c);
  key ← required "Missing Sign Public Key request" (pk_key r);
  req_id ← new_uuid;
  _ ← set_ctx (set (Some (mkPubKeyReq (pk_req_id r) (pk_key r) (Some req_id) (pk_signed r))));
  send_bitvmx_msg (SignMessage req_id (create_pubkey_hash key) key).

Definition fund_protocol : SR W FlowError unit :=
  req_id ← new_uuid;
  let fee_rate := match bitcoin_network with Regtest => REGTEST_FEE_RATE | _ => DEFAULT_FEE_RATE end in
  key ← get_my_dispute_key;
  input ← get_user_input;
  let public_key := spk_public_key key in
  _ ← set_ctx (set_send_funds_req (Some (req_id, None)));
  send_msg (SendFunds req_id
    (Batch [P2WPKH public_key (speed_up_utxo_value input); P2WPKH public_key (funding_utxo_value input);
            P2WPKH public_key (calculate_advance_funds_value (advance_funds_value input))]) (Some fee_rate)).

(** *** Checks *)

Definition validate_bitvmx_balance (data : StepData) : SR W FlowError unit :=
  match data with
  | DataBitVmxFundingBalance balance =>
      stream_id ← get_stream_id;
      slots ← read_env slots_per_package;
      count ← read_env committee_member_count;
      provers ← read_env prover_count;
      profile ← match derive_stream_funding_profile stream_id (match bitcoin_network with Regtest => true | _ => false end)
                        slots count provers with
                | Ok p => mret p
                | Err _ => flow_bail "funding profile"
                end;
      c ← get_ctx;
      r ← required "Funding balance request missing in context" (funding_balance_req c);
      _ ← set_ctx (set_funding_balance_req (Some (r.1, Some balance)));
      if balance <? operator_fund_amount profile then flow_bail "Insufficient funding balance" else mret tt
  | _ => flow_bail "Expected FundingBalance data"
  end.

Definition ensure_member_whitelisted : SR W FlowError unit :=
  whitelisted ← on_gateway domain is_whitelisted;
  if (whitelisted : bool) then mret tt else flow_bail "Member address is not whitelisted in the CommitteeRegistry contract".

Definition validate_rsk_balance : SR W FlowError unit :=
  balance_wei ← on_gateway domain get_balance;
  stream_id ← get_stream_id;
  input ← get_user_input;
  let role := role_to_u8 (ats_role input) in
  stream_id_u8 ← (if stream_id <? 2 ^ 8 then mret stream_id else flow_bail "Failed to convert StreamId to u8");
  min_deposit ← on_gateway domain (get_minimum_deposit stream_id_u8 role);
  slots ← read_env slots_per_package;
  count ← read_env committee_member_count;
  min_rsk_balance ← match required_member_rsk_balance min_deposit slots count with
                    | Some b => mret b
                    | None => sfail (FlowPanic "slot budget overflow")
                    end;
  if balance_wei <? min_rsk_balance then flow_bail "Insufficient RSK balance" else mret tt.

(** *** Answers *)

Definition close_pub_key_req (own : FlowContext -> option PubKeyReq)
    (set : option PubKeyReq -> FlowContext -> FlowContext) (data : StepData) : SR W FlowError unit :=
  c ← get_ctx;
  match own c with
  | Some r =>
      match data with
      | DataPublicKey pk => set_ctx (set (Some (mkPubKeyReq (pk_req_id r) (Some pk) (pk_sign_req_id r) (pk_signed r))))
      | _ => flow_bail "Expected PublicKey data"
      end
  | None => flow_bail "Public Key request missing in context"
  end.

Definition close_pub_key_signing_req (own : FlowContext -> option PubKeyReq)
    (set : option PubKeyReq -> FlowContext -> FlowContext) (data : StepData) : SR W FlowError unit :=
  match data with
  | DataSignedMessage sig_r sig_s rec_id =>
      c ← get_ctx;
      match own c with
      | Some r =>
          public_key ← required "Missing Public Key to sign" (pk_key r);
          set_ctx (set (Some (mkPubKeyReq (pk_req_id r) (pk_key r) (pk_sign_req_id r)
                                (Some (mkSignedPublicKey public_key sig_r sig_s rec_id)))))
      | None => flow_bail "Public Key request missing in context"
      end
  | _ => flow_bail "Expected SignedMessage data"
  end.

Definition close_agg_key_req (own : FlowContext -> option (bytes * option PublicKey))
    (set : option (bytes * option PublicKey) -> FlowContext -> FlowContext) (data : StepData) : SR W FlowError unit :=
  c ← get_ctx;
  match own c with
  | Some r =>
      match data with
      | DataPublicKey pk => set_ctx (set (Some (r.1, Some pk)))
      | _ => flow_bail "Expected PublicKey data"
      end
  | None => flow_bail "Aggregated Key request missing in context"
  end.

Definition close_send_funds_req (data : StepData) : SR W FlowError unit :=
  match data with
  | DataFundsSent tx_id =>
      c ← get_ctx;
      match send_funds_req c with
      | Some r => set_ctx (set_send_funds_req (Some (r.1, Some tx_id)))
      | None => flow_bail "Send Funds request missing in context"
      end
  | _ => flow_bail "Expected FundsSent data"
  end.

(** They tell whether an answer is still missing. *)
Definition close_setup_core_req (data : StepData) : SR W FlowError bool :=
  match data with
  | DataSetupCompleted id =>
      c ← get_ctx;
      let reqs := (fun r : bytes * Z * bool => if bool_decide (r.1.1 = id) then (r.1, true) else r) <$> setup_core_req c in
      _ ← set_ctx (set_setup_core_req reqs);
      mret (existsb (fun r => negb r.2) reqs)
  | _ => flow_bail "Expected SetupCompleted data"
  end.

Definition close_setup_channel_req (own : FlowContext -> list (bytes * bool))
    (set : list (bytes * bool) -> FlowContext -> FlowContext) (data : StepData) : SR W FlowError bool :=
  match data with
  | DataSetupCompleted id =>
      c ← get_ctx;
      let reqs := (fun r : bytes * bool => if bool_decide (r.1 = id) then (r.1, true) else r) <$> own c in
      _ ← set_ctx (set reqs);
      mret (existsb (fun r => negb r.2) reqs)
  | _ => flow_bail "Expected SetupCompleted data"
  end.

(** The last request that matches names the indices. *)
Definition close_pairwise_key_req (req_id : bytes) (aggregated_key : PublicKey) : SR W FlowError (bool * nat * nat) :=
  c ← get_ctx;
  let reqs := (fun r => if bool_decide (pw_id r = req_id)
                        then mkPairwiseKeyReq (pw_id r) (pw_my_index r) (pw_partner_index r) (pw_participants r)
                               (Some aggregated_key) else r) <$> pairwise_keys_req c in
  _ ← set_ctx (set_pairwise_keys_req reqs);
  matched ← required "No matching pairwise key request found"
              (last (filter (fun r => pw_id r = req_id) reqs));
  mret (existsb (fun r => bool_decide (pw_key r = None)) reqs, pw_my_index matched, pw_partner_index matched).

Definition process_pairwise_key_response (data : StepData) : SR W FlowError bool :=
  match data with
  | DataPairwiseAggregatedKey req_id pubkey =>
      '(missing, my_index, partner_index) ← close_pairwise_key_req req_id pubkey;
      comm_data ← get_my_communication_data;
      partner ← required "Partner address not found" (comm_data !! partner_index);
      c ← get_ctx;
      _ ← set_ctx (set_pairwise_keys (<[comms_to_json partner := pubkey]> (pairwise_keys c)));
      d ← get_committee_data;
      _ ← in_context "Failed to send pairwise key to BitVMX"
            (send_msg (SetVar (committee_uuid d) (get_dispute_pair_key_name my_index partner_index) (VarPubKey pubkey)));
      mret missing
  | _ => flow_bail "Expected PairwiseAggregatedKey data"
  end.

(** The first request for the core is filled. *)
Fixpoint fill_request (pid : bytes) (f : DisputeChannelSetupRequest -> DisputeChannelSetupRequest)
    (l : list DisputeChannelSetupRequest) : list DisputeChannelSetupRequest :=
  match l with
  | [] => []
  | r :: l => if bool_decide (dispute_core_pid r = pid) then f r :: l else r :: fill_request pid f l
  end.

Definition process_dispute_core_variable (pid : bytes) (var_name var_data : string) : SR W FlowError bool :=
  c ← get_ctx;
  if negb (existsb (fun r => bool_decide (dispute_core_pid r = pid)) (setup_channel_req c))
  then flow_bail "No DisputeChannelSetupRequest found for this dispute_core_pid" else
  _ ← (if bool_decide (var_name = OP_COSIGN_UTXOS) then
         utxos ← required "Failed to deserialize OP_COSIGN_UTXOS" (parse_op_cosign_utxos var_data);
         set_ctx (set_setup_channel_req (fill_request pid (fun r =>
           mkChannelRequest (dispute_core_pid r) (member_index r) (Some utxos) (wt_init_challenge_utxos r))
           (setup_channel_req c)))
       else if bool_decide (var_name = WT_INIT_CHALLENGE_UTXOS) then
         utxos ← required "Failed to deserialize WT_INIT_CHALLENGE_UTXOS" (parse_wt_init_challenge_utxos var_data);
         set_ctx (set_setup_channel_req (fill_request pid (fun r =>
           mkChannelRequest (dispute_core_pid r) (member_index r) (op_cosign_utxos r) (Some utxos))
           (setup_channel_req c)))
       else mret tt);
  c ← get_ctx;
  mret (existsb (fun r => bool_decide (op_cosign_utxos r = None) || bool_decide (wt_init_challenge_utxos r = None))
          (setup_channel_req c)).

(** *** The committee *)

Definition im_selected_to_new_committee (e : NewCommitteePayload) : SR W FlowError bool :=
  k ← global_context;
  if im_member (nc_committeeId e) k then flow_bail "Already part of committee" else
  mret (existsb (fun m => bool_decide (memberAddress m = my_address (E := G))) (rc_members (nc_committee e))).

Definition update_my_committees (e : EventWithBlock NewCommitteePayload) : SR W FlowError unit :=
  _ ← set_ctx (set_committee_pending_ev (Some e));
  _ ← set_ctx (set_committee_data None);
  input ← get_user_input;
  set_global (add_committee (nc_committeeId (ev_inner e)) (ats_role input)).

Definition get_member_public_keys_from_contracts (member : Address) : SR W FlowError (list string) :=
  on_gateway (fun _ => Chain [Msg "Failed to get member public keys"]) (get_member_public_keys member).

(** BitVMX makes the parity of keys even. *)
Definition parse_member_key (key_str : string) : SR W FlowError PublicKey :=
  key_bytes ← required "Failed to parse key to FixedBytes<32>" (parse_fixed_bytes key_str);
  required "Failed to parse x-only key" (even_public_key_from_slice key_bytes).

Definition build_member_funding_utxo (member_dispute_key : PublicKey) (utxo : RegistryUtxo) : SR W FlowError PartialUtxo :=
  script ← required "Failed to get wpubkey_hash from dispute public key" (p2wpkh_script member_dispute_key);
  mret (mkPartialUtxo (fb_32_to_txid (ru_txid utxo)) (ru_outputIndex utxo) (Some (ru_amount utxo))
          (Some (SegwitPublicKey (ru_amount utxo) script member_dispute_key))).

Definition build_member (utxos : list RegistryUtxo) (idx : nat) (cm : Member) : SR W FlowError MemberOfCommittee :=
  role ← map_err from_failure (role_try_from (role cm));
  keys ← in_context "Failed to get keys for member" (get_member_public_keys_from_contracts (memberAddress cm));
  take_key_str ← required "Take key not found on Committee" (keys !! TAKE_KEY_INDEX);
  dispute_key_str ← required "Dispute key not found on Committee" (keys !! DISPUTE_KEY_INDEX);
  take_key ← in_context "Failed to parse take key for member" (parse_member_key take_key_str);
  dispute_key ← in_context "Failed to parse dispute key for member" (parse_member_key dispute_key_str);
  contracts_utxo ← required "Missing utxo for committee member" (utxos !! idx);
  funding_utxo ← in_context "Failed to build funding utxo for member" (build_member_funding_utxo dispute_key contracts_utxo);
  mret (mkMemberOfCommittee (memberAddress cm) role take_key dispute_key funding_utxo idx).

Fixpoint build_members_of_committee (utxos : list RegistryUtxo) (idx : nat) (l : list Member)
    : SR W FlowError (list MemberOfCommittee) :=
  match l with
  | [] => mret []
  | cm :: l =>
      m ← build_member utxos idx cm;
      rest ← build_members_of_committee utxos (S idx) l;
      mret (m :: rest)
  end.

Definition build_committee_data : SR W FlowError unit :=
  c ← get_ctx;
  e ← required "Missing committee pending event" (committee_pending_ev c);
  let committee := nc_committee (ev_inner e) in
  members ← build_members_of_committee (rc_fundingUTXOs committee) 0 (rc_members committee);
  set_ctx (set_committee_data (Some (mkCommitteeData (nc_committeeId (ev_inner e)) committee members))).

(** The same members in the same order, with the same roles *)
Definition same_member (pending ready : Member) : bool :=
  bool_decide (memberAddress pending = memberAddress ready) && bool_decide (role pending = role ready).

Definition committee_matches (d : CommitteeData) (e : NewCommitteePayload) : bool :=
  let pending := rc_members (committee d) in
  let ready := rc_members (nc_committee e) in
  bool_decide (committee_id d = nc_committeeId e) && (length pending =? length ready)%nat &&
  forallb (fun '(p, r) => same_member p r) (zip pending ready).

Definition validate_committee_ready : SR W FlowError unit :=
  c ← get_ctx;
  e ← required "Missing committee ready event" (committee_ready_req c);
  d ← get_committee_data;
  if committee_matches d (ev_inner e) then mret tt else flow_bail "Committee mismatch between pending and ready".

(** *** Communication data *)

Fixpoint committee_pubkey_hashes (l : list MemberOfCommittee) : SR W FlowError (list string) :=
  match l with
  | [] => mret []
  | m :: l =>
      keys ← get_member_public_keys_from_contracts (mc_address m);
      key ← required "Communication key not found on Committee" (keys !! COMM_KEY_INDEX);
      rest ← committee_pubkey_hashes l;
      mret (key :: rest)
  end.

Definition get_committee_pubkey_hashes : SR W FlowError (list string) :=
  d ← get_committee_data; committee_pubkey_hashes (cd_members d).

Definition build_my_communication_data : SR W FlowError (list CommsAddress) :=
  d ← in_context "Get Communication Data" get_committee_data;
  committee_addresses ← get_committee_addresses (committee_id d);
  mine ← get_my_comm_info;
  hashes ← get_committee_pubkey_hashes;
  map_err from_failure (build_communication_data (socket_addr_to_string (address mine)) committee_addresses hashes).

Definition close_communication_data_step : SR W FlowError unit :=
  data ← build_my_communication_data; set_ctx (set_communication_data_ready_ev (Some data)).

Fixpoint communication_data_for (mine : CommsAddress) (l : list MemberOfCommittee) : SR W FlowError (list CommunicationData) :=
  match l with
  | [] => mret []
  | m :: l =>
      data ← (if bool_decide (mc_address m = my_address (E := G)) then mret zeroed_communication_data
              else required "P2P address" (socket_addr_to_contracts (address mine)));
      rest ← communication_data_for mine l;
      mret (data :: rest)
  end.

(** *** Contract calls *)

(** An error that says the work was done before counts as success; one without a
    revert, such as missing funds, is transient. *)
Definition tolerate (done_before : DomainErrors -> bool) (m : SR W DomainErrors unit) : SR W FlowError unit :=
  map_err (fun e => match e with NoRevertError msg => Chain [TransientError msg] | e => domain e end)
    (fun w => match m w with
              | (Err e, w) => if done_before e then (Ok tt, w) else (Err e, w)
              | r => r
              end).

Definition apply_to_stream : SR W FlowError unit :=
  utxo ← build_funding_utxo;
  stream_id ← get_stream_id;
  my_take_key ← get_my_take_key;
  my_dispute_key ← get_my_dispute_key;
  user_input ← get_user_input;
  take_key ← signed_to_committee_public_key my_take_key;
  dispute_key ← signed_to_committee_public_key my_dispute_key;
  comm_info ← get_my_comm_info;
  _ ← tolerate (fun e => match e with MemberAlreadyRegisteredForStream _ => true | _ => false end)
        (call (CallApplyToStream (mkApplyInput stream_id (role_to_u8 (ats_role user_input)) take_key dispute_key
                                    (pubkey_hash comm_info) utxo)));
  _ ← set_global (set_take_key my_take_key);
  _ ← set_global (set_dispute_key my_dispute_key);
  my_comm_key ← get_my_comm_key;
  set_global (set_comm_key my_comm_key).

Definition deposit_communication_data : SR W FlowError unit :=
  d ← in_context "Deposit Communication Data" get_committee_data;
  mine ← get_my_comm_info;
  data ← communication_data_for mine (cd_members d);
  tolerate (fun e => match e with MemberAlreadyDepositedCommunicationData _ => true | _ => false end)
    (call (CallDepositCommunicationData (committee_id d) data)).

Definition deposit_aggregated_key : SR W FlowError unit :=
  key ← in_context "Deposit Aggregated Key" get_aggregated_take_key;
  d ← get_committee_data;
  tolerate (fun e => match e with MemberInfoAlreadyDeposited _ => true | _ => false end)
    (call (CallDepositAggregatedKey (committee_id d) (public_key_to_bytes key))).

(** *** Aggregated keys *)

(** [setup_bitvmx_aggregated_{take,dispute}_pubkey] *)
Definition setup_aggregated_pubkey (key_id : bytes -> bytes) (key_of : MemberOfCommittee -> PublicKey)
    (set : option (bytes * option PublicKey) -> FlowContext -> FlowContext) : SR W FlowError unit :=
  d ← get_committee_data;
  let id := key_id (committee_uuid d) in
  _ ← set_ctx (set (Some (id, None)));
  data ← get_my_communication_data;
  send_bitvmx_msg (SetupKey id data (Some (key_of <$> cd_members d)) NO_LEADER_IDX).

Definition my_index_in (d : CommitteeData) : SR W FlowError nat :=
  i ← required "My address not found in committee members"
        (list_find (fun m => mc_address m = my_address (E := G)) (cd_members d));
  mret i.1.

(** The request for the key of a pair; both members send the same one. *)
Definition pairwise_request (d : CommitteeData) (data : list CommsAddress) (my_index : nat) (my_role : ParticipantRole)
    (partner_index : nat) (partner : MemberOfCommittee) : SR W FlowError (list PairwiseKeyReq) :=
  if bool_decide (partner_index = my_index) then mret [] else
  if negb (bool_decide (my_role = Prover)) && negb (bool_decide (mc_role partner = Prover)) then mret [] else
  let '(idx_first, idx_second) :=
    if (my_index <? partner_index)%nat then (my_index, partner_index) else (partner_index, my_index) in
  let participants := if (my_index <? partner_index)%nat then [my_address (E := G); mc_address partner]
                      else [mc_address partner; my_address (E := G)] in
  let aggregation_id :=
    pairwise_aggregated_key_protocol_id (committee_uuid d) (Z.of_nat my_index) (Z.of_nat partner_index) in
  match data !! idx_first, data !! idx_second with
  | Some first, Some second =>
      _ ← send_bitvmx_msg (SetupKey aggregation_id [first; second] None NO_LEADER_IDX);
      mret [mkPairwiseKeyReq aggregation_id my_index partner_index participants None]
  | _, _ => sfail (FlowPanic "index out of bounds")
  end.

Fixpoint pairwise_requests (d : CommitteeData) (data : list CommsAddress) (my_index : nat) (my_role : ParticipantRole)
    (index : nat) (l : list MemberOfCommittee) : SR W FlowError (list PairwiseKeyReq) :=
  match l with
  | [] => mret []
  | partner :: l =>
      r ← pairwise_request d data my_index my_role index partner;
      rest ← pairwise_requests d data my_index my_role (S index) l;
      mret (r ++ rest)
  end.

Definition setup_pairwise_keys : SR W FlowError unit :=
  d ← get_committee_data;
  data ← get_my_communication_data;
  my_index ← my_index_in d;
  me ← required "my_index" (cd_members d !! my_index);
  requests ← pairwise_requests d data my_index (mc_role me) 0 (cd_members d);
  set_ctx (set_pairwise_keys_req requests).

(** *** Dispute programs *)

Definition setup_dispute_core_protocol : SR W FlowError unit :=
  d ← get_committee_data;
  utxos ← get_my_protocol_utxos;
  amount ← required "Missing speedup UTXO amount" (pu_amount (speedup utxos));
  key ← get_my_dispute_key;
  let my_speedup_utxo := mkUtxo (pu_txid (speedup utxos)) (pu_vout (speedup utxos)) amount (spk_public_key key) in
  p2p_addrs ← get_my_communication_data;
  stream_id ← get_stream_id;
  utxos ← get_my_protocol_utxos;
  agg_take ← get_aggregated_take_key;
  agg_dispute ← get_aggregated_dispute_key;
  protocol_ids ← dispute_core_setup d p2p_addrs (mkAggregatedKeys agg_take agg_dispute) my_speedup_utxo stream_id
                   (CommitteeSetup.advance_funds utxos)
                   (mkConfirmations btc_confirmations btc_confirmations btc_confirmations);
  c ← get_ctx;
  set_ctx (set_setup_core_req (setup_core_req c ++ ((fun pid => (pid, committee_id d, false)) <$> protocol_ids))).

Definition request_dispute_core_vars : SR W FlowError unit :=
  d ← get_committee_data;
  my_index ← my_index_in d;
  requests ← request_dispute_core_var d my_index;
  set_ctx (set_setup_channel_req requests).

Definition complete_dispute_channel_setup : SR W FlowError unit :=
  d ← get_committee_data;
  p2p_addrs ← get_my_communication_data;
  my_index ← my_index_in d;
  c ← get_ctx;
  protocol_ids ← complete_setup drp_program_definition d my_index p2p_addrs (pairwise_keys c) (setup_channel_req c);
  set_ctx (set_setup_channel_setup_req ((fun id => (id, false)) <$> protocol_ids)).

Definition complete_full_penalization_setup : SR W FlowError unit :=
  d ← get_committee_data;
  p2p_addrs ← get_my_communication_data;
  _ ← my_index_in d;
  protocol_id ← full_penalization_setup (committee_uuid d) p2p_addrs;
  set_ctx (set_setup_full_penalization_req [(protocol_id, false)]).

Definition write_completion_marker : SR W FlowError unit :=
  w ← sget;
  let stream := stream_id <$> user_input (ctx (state w)) in
  let committee := (fun e => nc_committeeId (ev_inner e)) <$> committee_pending_ev (ctx (state w)) in
  send_with (zoom snd (fun g e => (e.1, g)) (with_message (signal_done (flow_id (state w)) stream committee)))
    (Marked (flow_id (state w)) stream committee).

(** *** The state machine *)

(** Keys are requested only while the process has none. *)
Definition without_keys (m : SR W FlowError unit) : SR W FlowError unit :=
  k ← global_context;
  if is_set k then sfail (FlowPanic "Running a key step when MyKeys are already set") else m.

Definition entry_action (next_step : Steps) : SR W FlowError unit :=
  match next_step with
  | StepInit => sfail (FlowPanic "Init step should not be reached in start_step")
  | StepValidateBalances => _ ← or_transient validate_rsk_balance; request_bitvmx_funding_balance
  | StepGetMyCommInfo => request_bitvmx_comm_info
  | StepGetMyTakeKey => without_keys (request_pub_key set_my_take_key_req)
  | StepSignMyTakeKey => without_keys (request_bitvmx_key_signing my_take_key_req set_my_take_key_req)
  | StepGetMyDisputeKey => without_keys (request_pub_key set_my_dispute_key_req)
  | StepSignMyDisputeKey => without_keys (request_bitvmx_key_signing my_dispute_key_req set_my_dispute_key_req)
  | StepGetMyCommKey => without_keys (request_pub_key set_my_comm_key_req)
  | StepSignMyCommKey => without_keys (request_bitvmx_key_signing my_comm_key_req set_my_comm_key_req)
  | StepFundMyBitVmxAccount => fund_protocol
  | StepApplyToStream => apply_to_stream
  | StepDepositP2PDataAuthoritativeCheckpoint => deposit_communication_data
  | StepSetupTakeAggregatedKeyAllConvergeCheckpoint =>
      setup_aggregated_pubkey take_aggregated_key_protocol_id take_key set_agg_take_key_req
  | StepSetupDisputeAggregatedKey =>
      setup_aggregated_pubkey dispute_aggregated_key_protocol_id dispute_key set_agg_dispute_key_req
  | StepSetupPairwiseKeys => setup_pairwise_keys
  | StepSetupDisputeCore => setup_dispute_core_protocol
  | StepRequestDisputeChannelVars => request_dispute_core_vars
  | StepDisputeChannelSetup => complete_dispute_channel_setup
  | StepFullPenalizationSetup => complete_full_penalization_setup
  | StepDepositAggregatedKey => deposit_aggregated_key
  | StepDone => write_completion_marker
  | StepFailed => sfail (FlowPanic "Failed step should not be reached in start_step")
  end.

Definition start_step (next_step : Steps) : SR W FlowError unit :=
  _ ← set_step next_step;
  _ ← entry_action next_step;
  persist_state.

(** A step with several answers goes on with the last one. *)
Definition when_complete (missing : bool) (current next : Steps) : SR W FlowError unit :=
  if missing then set_step current else start_step next.

Definition complete_step (data : StepData) : SR W FlowError unit :=
  w ← sget;
  match step (state w) with
  | StepInit =>
      match data with
      | DataUserRequest input =>
          _ ← set_ctx (set_user_input (Some input));
          _ ← ensure_member_whitelisted;
          start_step StepValidateBalances
      | _ => flow_bail "Expected UserRequest data"
      end
  | StepValidateBalances => _ ← validate_bitvmx_balance data; start_step StepGetMyCommInfo
  | StepGetMyCommInfo =>
      match data with
      | DataCommInfo addr =>
          _ ← set_ctx (set_my_comm_info (Some addr));
          _ ← set_ctx (set_comm_info_req_id None);
          k ← global_context;
          if is_set k then start_step StepFundMyBitVmxAccount else start_step StepGetMyTakeKey
      | _ => flow_bail "Expected CommsAddress data"
      end
  | StepGetMyTakeKey => _ ← close_pub_key_req my_take_key_req set_my_take_key_req data; start_step StepSignMyTakeKey
  | StepSignMyTakeKey =>
      _ ← close_pub_key_signing_req my_take_key_req set_my_take_key_req data; start_step StepGetMyDisputeKey
  | StepGetMyDisputeKey =>
      _ ← close_pub_key_req my_dispute_key_req set_my_dispute_key_req data; start_step StepSignMyDisputeKey
  | StepSignMyDisputeKey =>
      _ ← close_pub_key_signing_req my_dispute_key_req set_my_dispute_key_req data; start_step StepGetMyCommKey
  | StepGetMyCommKey => _ ← close_pub_key_req my_comm_key_req set_my_comm_key_req data; start_step StepSignMyCommKey
  | StepSignMyCommKey =>
      _ ← close_pub_key_signing_req my_comm_key_req set_my_comm_key_req data; start_step StepFundMyBitVmxAccount
  | StepFundMyBitVmxAccount => _ ← close_send_funds_req data; start_step StepApplyToStream
  | StepApplyToStream =>
      match data with
      | DataPendingCommittee e =>
          im_selected ← im_selected_to_new_committee (ev_inner e);
          if (im_selected : bool) then
            _ ← update_my_committees e;
            _ ← build_committee_data;
            start_step StepDepositP2PDataAuthoritativeCheckpoint
          else start_step StepDone
      | _ => flow_bail "Expected PendingCommittee data"
      end
  | StepDepositP2PDataAuthoritativeCheckpoint =>
      match data with
      | DataReadyCommunicationData _ =>
          _ ← close_communication_data_step; start_step StepSetupTakeAggregatedKeyAllConvergeCheckpoint
      | _ => flow_bail "Expected ReadyCommunicationData data"
      end
  | StepSetupTakeAggregatedKeyAllConvergeCheckpoint =>
      _ ← close_agg_key_req agg_take_key_req set_agg_take_key_req data; start_step StepSetupDisputeAggregatedKey
  | StepSetupDisputeAggregatedKey =>
      _ ← close_agg_key_req agg_dispute_key_req set_agg_dispute_key_req data; start_step StepSetupPairwiseKeys
  | StepSetupPairwiseKeys =>
      missing ← process_pairwise_key_response data; when_complete missing StepSetupPairwiseKeys StepSetupDisputeCore
  | StepSetupDisputeCore =>
      missing ← close_setup_core_req data; when_complete missing StepSetupDisputeCore StepRequestDisputeChannelVars
  | StepRequestDisputeChannelVars =>
      match data with
      | DataDisputeCoreVariable pid name json =>
          missing ← process_dispute_core_variable pid name json;
          when_complete missing StepRequestDisputeChannelVars StepDisputeChannelSetup
      | _ => flow_bail "Expected DisputeCoreVariable data"
      end
  | StepDisputeChannelSetup =>
      missing ← close_setup_channel_req setup_channel_setup_req set_setup_channel_setup_req data;
      when_complete missing StepDisputeChannelSetup StepFullPenalizationSetup
  | StepFullPenalizationSetup =>
      missing ← close_setup_channel_req setup_full_penalization_req set_setup_full_penalization_req data;
      when_complete missing StepFullPenalizationSetup StepDepositAggregatedKey
  | StepDepositAggregatedKey =>
      match data with
      | DataReadyCommittee e =>
          _ ← set_ctx (set_committee_ready_req (Some e));
          _ ← validate_committee_ready;
          start_step StepDone
      | _ => flow_bail "Expected ReadyCommittee data"
      end
  | StepDone => sfail (FlowPanic "Done step should not be reached in complete_step")
  | StepFailed => sfail (FlowPanic "Failed step should not be reached in complete_step")
  end.

Definition mark_failed : SR W FlowError unit := _ ← set_step StepFailed; persist_state.

(** [FailableFlow::fail] logs an error of the store. *)
Definition fail : SR W FlowError unit := _ ← catch mark_failed; mret tt.

(** [SetupCommitteeProcessor::continue_flow] *)
Definition continue_flow (data : StepData) : SR W FlowError unit :=
  r ← catch (complete_step data);
  match r with
  | Ok _ => mret tt
  | Err causes => if is_transient causes then mret tt else fail
  end.

End Flow.

(** ** Reasoning about the three ways to fail

    A fatal error makes the flow [Failed], a transient one leaves it as it is, and
    after a panic only the store counts.  [spec T F N P m Q]: from [P], [m] ends in
    [Q], or with an error in [T], [F] or [N]. *)

Create HintDb firm.

Section Spec.
Context `{FlowCodecs} {S E : Type}.
Abbreviation X := Effect.
Abbreviation W := (Flow.World S E X).
Abbreviation assertion := (S -> option S -> Prop).

Definition uncalled (x : Effect) : Prop := match x with Called _ => False | _ => True end.

(** Computations that leave state and store alone, call no contract and have no
    transient error. *)
Record firm {A} (m : SR W FlowError A) : Prop := {
  firm_keeps : keeps m;
  firm_errors : forall w causes w', m w = (Err (Chain causes), w') -> is_transient causes = false;
  firm_calls : adds uncalled m
}.

Lemma firm_ret {A} (a : A) : firm (mret a).
Proof. split; [keep|done|be_quiet]. Qed.
Lemma firm_sget : firm sget.
Proof. split; [keep|done|be_quiet]. Qed.
Lemma firm_bail {A} msg : firm (flow_bail msg : SR W FlowError A).
Proof. split; [unfold flow_bail; keep| |unfold flow_bail; be_quiet]. by intros w causes w' [= <- <-]. Qed.
Lemma firm_panic {A} msg : firm (sfail (FlowPanic msg) : SR W FlowError A).
Proof. split; [keep|done|be_quiet]. Qed.
Lemma firm_required {A} msg (o : option A) : firm (required msg o).
Proof. destruct o; [apply firm_ret|apply firm_bail]. Qed.
Lemma firm_bind {A B} (m : SR W FlowError A) (f : A -> SR W FlowError B) :
  firm m -> (forall a, firm (f a)) -> firm (m ≫= f).
Proof.
  intros [Hk Hm Ha] Hf. split.
  - apply keeps_bind; [done|]. intros a. by destruct (Hf a).
  - intros w causes w'. unfold mbind, SR_bind. destruct (m w) as [[a|x] w1] eqn:E1; [apply Hf|].
    intros [= -> ->]. by eapply Hm.
  - apply adds_bind; [done|]. intros a. by destruct (Hf a).
Qed.
Lemma firm_if {A} (b : bool) (m n : SR W FlowError A) : firm m -> firm n -> firm (if b then m else n).
Proof. by destruct b. Qed.
Lemma firm_catch {A} (m : SR W FlowError A) : firm m -> firm (catch m).
Proof.
  intros [Hk _ Ha]. split; [by apply keeps_catch| |by apply adds_catch].
  intros w causes w'. unfold catch. by destruct (m w) as [[|[]]].
Qed.
Lemma firm_in_context {A} c (m : SR W FlowError A) : firm m -> firm (in_context c m).
Proof.
  intros [Hk Hm Ha]. split; [by apply keeps_in_context| |by apply adds_in_context]. intros w causes w'. unfold in_context.
  destruct (m w) as [[a|[cs|msg]] w1] eqn:E1; try done. intros [= <- <-]. cbn. by eapply Hm.
Qed.
Lemma firm_on_env {Y A} conv (m : SR E Y A) :
  (forall y causes, conv y = Chain causes -> is_transient causes = false) -> firm (on_env conv m : SR W FlowError A).
Proof.
  intros Hc. split; [keep| |be_quiet]. intros w causes w'. unfold on_env. destruct (m (env w)) as [[a|y] e]; [done|].
  intros [= Hy <-]. by eapply Hc.
Qed.
Lemma firm_slift {A} (r : result FlowError A) :
  (forall causes, r = Err (Chain causes) -> is_transient causes = false) -> firm (slift r : SR W FlowError A).
Proof. intros Hr. split; [by intros w| |by apply adds_nothing]. intros w causes w' [= ? _]. by apply Hr. Qed.
Lemma firm_send_with send (x : X) :
  (forall e causes e', send e = (Err (Chain causes), e') -> is_transient causes = false) -> uncalled x ->
  firm (send_with send x : SR W FlowError unit).
Proof.
  intros Hs Hx. split; [keep| |by apply adds_send_with]. intros w causes w'. unfold send_with, on_env, mbind, SR_bind, id.
  destruct (send (env w)) as [[a|y] e] eqn:E1; [done|]. intros [= -> <-]. by eapply Hs.
Qed.

Context (T F N : assertion).

Definition spec {A} (P : assertion) (m : SR W FlowError A) (Q : A -> assertion) : Prop :=
  forall w, P (state w) (saved w) ->
    match m w with
    | (Ok a, w') => Q a (state w') (saved w')
    | (Err (Chain causes), w') => (if is_transient causes then T else F) (state w') (saved w')
    | (Err (FlowPanic _), w') => N (state w') (saved w')
    end.

Lemma spec_bind {A B} P Q R (m : SR W FlowError A) (f : A -> SR W FlowError B) :
  spec P m Q -> (forall a, spec (Q a) (f a) R) -> spec P (m ≫= f) R.
Proof.
  intros Hm Hf w HP. specialize (Hm w HP). destruct (m w) as [[a|x] w1] eqn:E1.
  - rewrite (SR_bind_run _ _ _ _ _ E1). by apply Hf.
  - by rewrite (SR_bind_err _ _ _ _ _ E1).
Qed.

Lemma spec_weaken {A} (P P' : assertion) Q Q' (m : SR W FlowError A) :
  spec P m Q -> (forall s v, P' s v -> P s v) -> (forall a s v, Q a s v -> Q' a s v) -> spec P' m Q'.
Proof. intros Hm HP HQ w HP'. specialize (Hm w (HP _ _ HP')). destruct (m w) as [[|[]]]; auto. Qed.

Lemma spec_pre {A} (P P' : assertion) Q (m : SR W FlowError A) :
  (forall s v, P' s v -> P s v) -> spec P m Q -> spec P' m Q.
Proof. intros HP Hm. by eapply spec_weaken. Qed.

Lemma spec_ret {A} (a : A) (Q : A -> assertion) : spec (Q a) (mret a) Q.
Proof. by intros w. Qed.

Lemma spec_firm {A} (m : SR W FlowError A) (P : assertion) :
  firm m -> (forall s v, P s v -> F s v) -> (forall s v, P s v -> N s v) -> spec P m (fun _ => P).
Proof.
  intros [Hk Hm _] HF HN w Hw. specialize (Hk w) as [Hs Hv].
  destruct (m w) as [[a|[causes|msg]] w1] eqn:E1; cbn in Hs, Hv; rewrite Hs, Hv; auto.
  rewrite (Hm _ _ _ E1). auto.
Qed.

Lemma spec_update f (P Q : assertion) : (forall s v, P s v -> Q (f s) v) -> spec P (update_state f) (fun _ => Q).
Proof. intros HQ w Hw. cbn. by apply HQ. Qed.

(** The state at the start, by name. *)
Lemma spec_state {A} P Q (m : SR W FlowError A) :
  (forall s0, spec (fun s v => P s v /\ s = s0) m Q) -> spec P m Q.
Proof. intros Hm w Hw. by apply (Hm (state w)). Qed.

Lemma spec_read {A B} (f : S -> A) (k : A -> SR W FlowError B) P Q :
  (forall a, spec (fun s v => P s v /\ a = f s) (k a) Q) -> spec P (w ← sget; k (f (state w))) Q.
Proof. intros Hk w Hw. by apply (Hk (f (state w))). Qed.

Lemma spec_required {A} msg (o : option A) (P : assertion) :
  (forall s v, P s v -> F s v) -> spec P (required msg o) (fun a s v => P s v /\ o = Some a).
Proof. intros HF w Hw. destruct o; cbn; auto. Qed.

Lemma spec_bail {A} msg (P : assertion) (Q : A -> assertion) :
  (forall s v, P s v -> F s v) -> spec P (flow_bail msg) Q.
Proof. intros HF w Hw. cbn. auto. Qed.

Lemma spec_panic {A} msg (P : assertion) (Q : A -> assertion) :
  (forall s v, P s v -> N s v) -> spec P (sfail (FlowPanic msg)) Q.
Proof. intros HN w Hw. cbn. auto. Qed.

Lemma spec_if {A} (b : bool) (m n : SR W FlowError A) P Q :
  (b = true -> spec P m Q) -> (b = false -> spec P n Q) -> spec P (if b then m else n) Q.
Proof. destruct b; auto. Qed.

End Spec.

#[export] Hint Resolve firm_ret firm_sget firm_bail firm_panic firm_required firm_bind firm_if firm_catch firm_in_context
  : firm.
#[export] Hint Extern 1 (firm (match ?x with _ => _ end)) => destruct x : firm.
#[export] Hint Extern 5 (firm _) => progress cbn zeta : firm.
#[export] Hint Extern 2 (keeps _) => solve [keep] : firm.

(** Proves [firm] for an operation built of such computations. *)
Ltac be_firm := intros; cbn zeta; eauto 30 with firm.

Section Firm.
Context `{FlowCodecs, !CommitteeCodecs, Keccak, Sha256, !EnvVars G, !BitvmxBroker G, !CommitteeServices G,
  !SetupServices G} (bitcoin_network : Network) (drp_program_definition : string) (btc_confirmations : Z).
Abbreviation W := (Flow.World State (Env G) Effect).
#[local] Abbreviation firm := (firm (S := State) (E := Env G)).

Lemma firm_on_gateway {Y A} conv (m : SR G Y A) :
  (forall y causes, conv y = Chain causes -> is_transient causes = false) -> firm (on_gateway conv m : SR W FlowError A).
Proof. apply firm_on_env. Qed.
Lemma firm_on_domain {A} (m : SR G DomainErrors A) : firm (on_gateway domain m : SR W FlowError A).
Proof. apply firm_on_gateway. by intros y causes [= <-]. Qed.
Lemma firm_send_msg msg : firm (send_msg msg : SR W FlowError unit).
Proof.
  apply firm_send_with; [|done]. intros e causes e'. unfold zoom, with_message.
  destruct (broker_send msg e.2) as [[a|x] g]; [done|]. by intros [= <- <-].
Qed.
Lemma firm_setup_msg msg : firm (CommitteeSetup.send_bitvmx_msg msg : SR W FlowError unit).
Proof. apply firm_in_context, firm_send_msg. Qed.
Lemma firm_flow_msg msg : firm (send_bitvmx_msg msg).
Proof. unfold send_bitvmx_msg. apply firm_bind; [|be_firm]. apply firm_catch, firm_send_msg. Qed.
Lemma firm_new_uuid : firm new_uuid.
Proof. by apply firm_on_gateway. Qed.
Lemma firm_set_global f : firm (set_global f).
Proof. split; [by intros w|done|by apply adds_nothing]. Qed.
Lemma firm_get_ctx : firm get_ctx.
Proof. unfold get_ctx. be_firm. Qed.
Lemma firm_global_context : firm global_context.
Proof. unfold global_context. be_firm. Qed.

Lemma firm_env_u64 name v d causes : env_u64_or_default name v d = Err (Chain causes) -> is_transient causes = false.
Proof.
  unfold env_u64_or_default. destruct v as [s| |]; [case_decide; [done|]; destruct (parse_u64 _)|..]; cbn; naive_solver.
Qed.
Lemma firm_read_env {A} (f : G -> result FlowError A) :
  (forall g causes, f g = Err (Chain causes) -> is_transient causes = false) -> firm (read_env f).
Proof. intros Hf. apply firm_bind; [apply firm_sget|]. intros w. apply firm_slift. intros causes. apply Hf. Qed.
Lemma firm_read_slots : firm (read_env slots_per_package).
Proof. apply firm_read_env. intros g causes. apply firm_env_u64. Qed.
Lemma firm_read_members : firm (read_env committee_member_count).
Proof. apply firm_read_env. intros g causes. apply firm_env_u64. Qed.
Lemma firm_read_provers : firm (read_env prover_count).
Proof. apply firm_read_env. intros g causes. apply firm_env_u64. Qed.

#[local] Hint Resolve firm_on_domain firm_send_msg firm_setup_msg firm_flow_msg firm_new_uuid firm_set_global firm_get_ctx
  firm_global_context firm_read_slots firm_read_members firm_read_provers : firm.

Lemma firm_get_user_input : firm get_user_input.
Proof. unfold get_user_input. be_firm. Qed.
Lemma firm_get_stream_id : firm get_stream_id.
Proof. unfold get_stream_id. be_firm. Qed.
Lemma firm_get_committee_data : firm get_committee_data.
Proof. unfold get_committee_data. be_firm. Qed.
Lemma firm_get_my_comm_info : firm get_my_comm_info.
Proof. unfold get_my_comm_info. be_firm. Qed.
Lemma firm_get_aggregated_take_key : firm get_aggregated_take_key.
Proof. unfold get_aggregated_take_key. be_firm. Qed.
Lemma firm_get_aggregated_dispute_key : firm get_aggregated_dispute_key.
Proof. unfold get_aggregated_dispute_key. be_firm. Qed.
Lemma firm_get_my_communication_data : firm get_my_communication_data.
Proof. unfold get_my_communication_data. be_firm. Qed.
Lemma firm_my_key shared own : firm (my_key shared own).
Proof. unfold my_key. be_firm. Qed.
Lemma firm_get_my_dispute_key : firm get_my_dispute_key.
Proof. apply firm_my_key. Qed.
Lemma firm_get_my_take_key : firm get_my_take_key.
Proof. apply firm_my_key. Qed.
Lemma firm_get_my_comm_key : firm get_my_comm_key.
Proof. apply firm_my_key. Qed.

#[local] Hint Resolve firm_get_user_input firm_get_stream_id firm_get_committee_data firm_get_my_comm_info
  firm_get_aggregated_take_key firm_get_aggregated_dispute_key firm_get_my_communication_data firm_get_my_dispute_key
  firm_get_my_take_key firm_get_my_comm_key : firm.

Lemma firm_get_my_protocol_utxos : firm get_my_protocol_utxos.
Proof. unfold get_my_protocol_utxos. be_firm. Qed.
#[local] Hint Resolve firm_get_my_protocol_utxos : firm.
Lemma firm_build_funding_utxo : firm build_funding_utxo.
Proof. unfold build_funding_utxo. be_firm. Qed.
Lemma firm_ensure_member_whitelisted : firm ensure_member_whitelisted.
Proof. unfold ensure_member_whitelisted. be_firm. Qed.
Lemma firm_im_selected e : firm (im_selected_to_new_committee e).
Proof. unfold im_selected_to_new_committee. be_firm. Qed.
Lemma firm_public_keys a : firm (get_member_public_keys_from_contracts a).
Proof. apply firm_on_gateway. by intros y causes [= <-]. Qed.
Lemma firm_parse_member_key s : firm (parse_member_key s).
Proof. unfold parse_member_key. be_firm. Qed.
Lemma firm_build_member_funding_utxo k u : firm (build_member_funding_utxo k u).
Proof. unfold build_member_funding_utxo. be_firm. Qed.
Lemma firm_from_failure {A} (m : SR W failure A) :
  keeps m -> adds uncalled m -> firm (map_err from_failure m).
Proof.
  intros Hm Ha. split; [by apply keeps_map_err| |by apply adds_map_err]. intros w causes w'. unfold map_err.
  destruct (m w) as [[a|[chain| |]] w1]; try done. intros [= <- <-]. cbn. by induction chain.
Qed.
Lemma firm_role_try_from r : firm (map_err from_failure (role_try_from r) : SR W FlowError _).
Proof. apply firm_from_failure; unfold role_try_from, bail; [keep|be_quiet]. Qed.
#[local] Hint Resolve firm_build_funding_utxo firm_ensure_member_whitelisted firm_im_selected firm_public_keys
  firm_parse_member_key firm_build_member_funding_utxo firm_role_try_from : firm.

Lemma firm_build_member utxos i cm : firm (build_member utxos i cm).
Proof. unfold build_member. be_firm. Qed.
#[local] Hint Resolve firm_build_member : firm.
Lemma firm_build_members utxos i l : firm (build_members_of_committee utxos i l).
Proof. revert i. induction l; intros i; cbn [build_members_of_committee]; be_firm. Qed.
Lemma firm_validate_committee_ready : firm validate_committee_ready.
Proof. unfold validate_committee_ready. be_firm. Qed.
Lemma firm_committee_pubkey_hashes l : firm (committee_pubkey_hashes l).
Proof. induction l; cbn [committee_pubkey_hashes]; be_firm. Qed.
Lemma firm_get_committee_addresses i : firm (get_committee_addresses i : SR W FlowError _).
Proof.
  unfold get_committee_addresses. apply firm_bind; [apply firm_on_env; by intros y causes [= <-]|].
  intros l. induction l; cbn [to_addresses]; be_firm.
Qed.
Lemma firm_build_communication_data me a h : firm (map_err from_failure (build_communication_data me a h) : SR W FlowError _).
Proof. apply firm_from_failure; unfold build_communication_data, bail; [keep|be_quiet]. Qed.
#[local] Hint Resolve firm_build_members firm_validate_committee_ready firm_committee_pubkey_hashes
  firm_get_committee_addresses firm_build_communication_data : firm.
Lemma firm_build_my_communication_data : firm build_my_communication_data.
Proof. unfold build_my_communication_data, get_committee_pubkey_hashes. be_firm. Qed.
Lemma firm_communication_data_for mine l : firm (communication_data_for mine l).
Proof. induction l; cbn [communication_data_for]; be_firm. Qed.
Lemma firm_my_index_in d : firm (my_index_in d).
Proof. unfold my_index_in. be_firm. Qed.
Lemma firm_pairwise_requests d data i r k l : firm (pairwise_requests d data i r k l).
Proof.
  revert k. induction l; intros k; cbn [pairwise_requests]; [be_firm|].
  apply firm_bind; [unfold pairwise_request; destruct (i <? k)%nat; be_firm|be_firm].
Qed.
Lemma firm_signed_key spk : firm (signed_to_committee_public_key spk : SR W FlowError _).
Proof. unfold signed_to_committee_public_key. be_firm. Qed.
Lemma firm_write_completion_marker : firm write_completion_marker.
Proof.
  apply firm_bind; [be_firm|]. intros w. apply firm_send_with; [|done]. intros e causes e'. unfold zoom, with_message.
  destruct (signal_done _ _ _ e.2) as [[a|x] g]; [done|]. by intros [= <- <-].
Qed.

(** *** Setting up the programs *)

Lemma firm_dispute_core_setup d l keys u n utxo conf : firm (dispute_core_setup d l keys u n utxo conf : SR W FlowError _).
Proof.
  unfold dispute_core_setup. apply firm_bind; [be_firm|]. intros w. apply firm_bind.
  { apply firm_slift. unfold bitvmx_slots_per_package. intros causes.
    destruct (slots_per_package _) as [z|x] eqn:Hs; cbn.
    - case_match; [done|]. by intros [= <-].
    - intros [= ->]. by eapply firm_env_u64. }
  intros z. cbn zeta. assert (Hc : forall l', firm (setup_dispute_cores d l l' : SR W FlowError _))
    by (intros l'; induction l'; cbn [setup_dispute_cores]; be_firm). be_firm.
Qed.
Lemma firm_full_penalization_setup i l : firm (full_penalization_setup i l : SR W FlowError _).
Proof. unfold full_penalization_setup. be_firm. Qed.
Lemma firm_pid_for_index d i : firm (get_dispute_core_pid_for_index d i : SR W FlowError _).
Proof. unfold get_dispute_core_pid_for_index. be_firm. Qed.
Lemma firm_setup_request pid i : firm (request_and_create_setup_request pid i : SR W FlowError _).
Proof. unfold request_and_create_setup_request, request_dispute_core_variables. be_firm. Qed.
#[local] Hint Resolve firm_pid_for_index firm_setup_request : firm.
Lemma firm_request_dispute_core_var d i : firm (request_dispute_core_var d i : SR W FlowError _).
Proof.
  unfold request_dispute_core_var. assert (Hr : forall p l, firm (request_partner_vars d i p l : SR W FlowError _))
    by (intros p l; induction l; cbn [request_partner_vars]; be_firm). be_firm.
Qed.
Lemma firm_setup_one def d i : firm (setup_one def d i : SR W FlowError _).
Proof. unfold setup_one, set_union_verifier_inputs, set_program_input. be_firm. Qed.
#[local] Hint Resolve firm_setup_one : firm.
Lemma firm_complete_setup def d i l keys data : firm (complete_setup def d i l keys data : SR W FlowError _).
Proof.
  unfold complete_setup. do 5 (apply firm_bind; [be_firm|intros ?]).
  assert (Hr : forall (round : nat -> MemberOfCommittee -> SR W FlowError (list bytes)) k ms,
    (forall k m, firm (round k m)) -> firm (setup_partners round k ms)).
  { intros round k ms Hround. revert k. induction ms; intros k; cbn [setup_partners]; be_firm. }
  apply Hr. intros k m. unfold setup_partner, setup_channel_as_operator, setup_channel_as_watchtower, get_for_index. be_firm.
Qed.

End Firm.

#[export] Hint Resolve firm_on_domain firm_send_msg firm_setup_msg firm_flow_msg firm_new_uuid firm_set_global firm_get_ctx
  firm_global_context firm_read_slots firm_read_members firm_read_provers firm_get_user_input firm_get_stream_id
  firm_get_committee_data firm_get_my_comm_info firm_get_aggregated_take_key firm_get_aggregated_dispute_key
  firm_get_my_communication_data firm_get_my_dispute_key firm_get_my_take_key firm_get_my_comm_key
  firm_get_my_protocol_utxos firm_build_funding_utxo firm_ensure_member_whitelisted firm_im_selected firm_build_members
  firm_validate_committee_ready firm_build_my_communication_data firm_communication_data_for firm_my_index_in
  firm_pairwise_requests firm_signed_key firm_write_completion_marker firm_dispute_core_setup firm_full_penalization_setup
  firm_request_dispute_core_var firm_complete_setup : firm.

(** ** What a flow has achieved

    [stages] lists what the steps establish one after the other; [level] tells how
    many of them a step can rely on, [entered] what its entry action left. *)

Section Invariant.
Context `{FlowCodecs, !CommitteeCodecs, Sha256} (me : Address).

(** The data of a selected committee come from the event that announced it. *)
Record committee_of (e : NewCommitteePayload) (d : CommitteeData) : Prop := {
  co_id : committee_id d = nc_committeeId e;
  co_committee : committee d = nc_committee e;
  co_members : mc_address <$> cd_members d = memberAddress <$> rc_members (nc_committee e);
  co_roles : Forall2 (fun m cm => role_to_u8 (mc_role m) = role cm) (cd_members d) (rc_members (nc_committee e));
  co_indices : committee_idx <$> cd_members d = seq 0 (length (cd_members d));
  co_mine : me ∈ mc_address <$> cd_members d
}.

Definition my_position (d : CommitteeData) : nat :=
  from_option fst 0%nat (list_find (fun m => mc_address m = me) (cd_members d)).

(** The members with whom a key and a channel are set up *)
Definition partners (d : CommitteeData) (i : nat) : list nat :=
  filter (fun j => j <> i /\ (prover_at d i || prover_at d j) = true) (seq 0 (length (cd_members d))).

Definition pair_skeleton (r : PairwiseKeyReq) : bytes * nat * nat := (pw_id r, pw_my_index r, pw_partner_index r).
Definition expected_pairs (d : CommitteeData) : list (bytes * nat * nat) :=
  let i := my_position d in
  (fun j => (pairwise_aggregated_key_protocol_id (committee_uuid d) (Z.of_nat i) (Z.of_nat j), i, j)) <$> partners d i.

Definition core_pid_at (d : CommitteeData) (i : nat) : bytes :=
  from_option (fun m => get_dispute_core_pid_for_key d (take_key m)) [] (cd_members d !! i).
Definition var_skeleton (r : DisputeChannelSetupRequest) : bytes * nat := (dispute_core_pid r, member_index r).
Definition expected_vars (d : CommitteeData) : list (bytes * nat) :=
  let i := my_position d in (fun j => (core_pid_at d j, j)) <$> (i :: partners d i).

Definition expected_cores (d : CommitteeData) : list (bytes * Z) :=
  (fun m => (get_dispute_core_pid_for_key d (take_key m), committee_id d)) <$> cd_members d.

Definition expected_channels (d : CommitteeData) : list bytes :=
  uncurry (channel_id d) <$> channels_of d (my_position d).

(** The answer to a request is filed under the address of a partner it was for. *)
Definition filed_keys (c : FlowContext) : Prop :=
  forall r, r ∈ pairwise_keys_req c -> pw_key r <> None ->
    exists r' l a, r' ∈ pairwise_keys_req c /\ pw_id r' = pw_id r /\ communication_data_ready_ev c = Some l /\
      l !! pw_partner_index r' = Some a /\ is_Some (pairwise_keys c !! comms_to_json a).

Definition for_committee (P : CommitteeData -> FlowContext -> Prop) (c : FlowContext) : Prop :=
  forall d, committee_data c = Some d -> P d c.

Definition has_input (c : FlowContext) : Prop := is_Some (user_input c).
Definition has_comm_info (c : FlowContext) : Prop := is_Some (my_comm_info c).
Definition has_funds (c : FlowContext) : Prop := exists id txid, send_funds_req c = Some (id, Some txid).
Definition selected (c : FlowContext) : Prop :=
  exists e d, committee_pending_ev c = Some e /\ committee_data c = Some d /\ committee_of (ev_inner e) d.
Definition has_addresses : FlowContext -> Prop := for_committee (fun d c =>
  exists l, communication_data_ready_ev c = Some l /\ length l = length (cd_members d)).
Definition has_take_key : FlowContext -> Prop := for_committee (fun d c =>
  exists k, agg_take_key_req c = Some (take_aggregated_key_protocol_id (committee_uuid d), Some k)).
Definition has_dispute_key : FlowContext -> Prop := for_committee (fun d c =>
  exists k, agg_dispute_key_req c = Some (dispute_aggregated_key_protocol_id (committee_uuid d), Some k)).
Definition pairs_done : FlowContext -> Prop := for_committee (fun d c =>
  pair_skeleton <$> pairwise_keys_req c = expected_pairs d /\ filed_keys c /\
  Forall (fun r => pw_key r <> None) (pairwise_keys_req c)).
Definition cores_done : FlowContext -> Prop := for_committee (fun d c =>
  setup_core_req c = (fun x => (x, true)) <$> expected_cores d).
Definition vars_done : FlowContext -> Prop := for_committee (fun d c =>
  var_skeleton <$> setup_channel_req c = expected_vars d /\
  Forall (fun r => op_cosign_utxos r <> None /\ wt_init_challenge_utxos r <> None) (setup_channel_req c)).
Definition channels_done : FlowContext -> Prop := for_committee (fun d c =>
  setup_channel_setup_req c = (fun x => (x, true)) <$> expected_channels d).
Definition penalization_done : FlowContext -> Prop := for_committee (fun d c =>
  setup_full_penalization_req c = [(full_penalization_protocol_id (committee_uuid d), true)]).

Definition stages : list (FlowContext -> Prop) :=
  [has_input; has_comm_info; has_funds; selected; has_addresses; has_take_key; has_dispute_key; pairs_done; cores_done;
   vars_done; channels_done; penalization_done].

Fixpoint all_of (l : list (FlowContext -> Prop)) (c : FlowContext) : Prop :=
  match l with
  | [] => True
  | P :: l => P c /\ all_of l c
  end.
Definition upto (n : nat) (c : FlowContext) : Prop := all_of (take n stages) c.

Definition level (s : Steps) : nat :=
  match s with
  | StepInit => 0
  | StepValidateBalances | StepGetMyCommInfo | StepFailed => 1
  | StepGetMyTakeKey | StepSignMyTakeKey | StepGetMyDisputeKey | StepSignMyDisputeKey | StepGetMyCommKey
  | StepSignMyCommKey | StepFundMyBitVmxAccount => 2
  | StepApplyToStream | StepDone => 3
  | StepDepositP2PDataAuthoritativeCheckpoint => 4
  | StepSetupTakeAggregatedKeyAllConvergeCheckpoint => 5
  | StepSetupDisputeAggregatedKey => 6
  | StepSetupPairwiseKeys => 7
  | StepSetupDisputeCore => 8
  | StepRequestDisputeChannelVars => 9
  | StepDisputeChannelSetup => 10
  | StepFullPenalizationSetup => 11
  | StepDepositAggregatedKey => 12
  end.

Definition signed (r : option PubKeyReq) : Prop := exists r' k, r = Some r' /\ pk_signed r' = Some k.
Definition has_key (r : option PubKeyReq) : Prop := exists r' k, r = Some r' /\ pk_key r' = Some k.

(** A committee whose setup is complete and announced *)
Definition complete (c : FlowContext) : Prop :=
  upto 12 c /\ exists d e, committee_data c = Some d /\ committee_ready_req c = Some e /\
    committee_matches d (ev_inner e) = true.

Definition entered (s : Steps) (c : FlowContext) : Prop :=
  match s with
  | StepInit => False
  | StepValidateBalances | StepApplyToStream | StepDepositP2PDataAuthoritativeCheckpoint | StepDepositAggregatedKey
  | StepFailed => True
  | StepGetMyCommInfo => is_Some (comm_info_req_id c)
  | StepGetMyTakeKey => is_Some (my_take_key_req c)
  | StepSignMyTakeKey => has_key (my_take_key_req c)
  | StepGetMyDisputeKey => signed (my_take_key_req c) /\ is_Some (my_dispute_key_req c)
  | StepSignMyDisputeKey => signed (my_take_key_req c) /\ has_key (my_dispute_key_req c)
  | StepGetMyCommKey => signed (my_take_key_req c) /\ signed (my_dispute_key_req c) /\ is_Some (my_comm_key_req c)
  | StepSignMyCommKey => signed (my_take_key_req c) /\ signed (my_dispute_key_req c) /\ has_key (my_comm_key_req c)
  | StepFundMyBitVmxAccount => is_Some (send_funds_req c)
  | StepSetupTakeAggregatedKeyAllConvergeCheckpoint => for_committee (fun d c =>
      exists o, agg_take_key_req c = Some (take_aggregated_key_protocol_id (committee_uuid d), o)) c
  | StepSetupDisputeAggregatedKey => for_committee (fun d c =>
      exists o, agg_dispute_key_req c = Some (dispute_aggregated_key_protocol_id (committee_uuid d), o)) c
  | StepSetupPairwiseKeys => for_committee (fun d c =>
      pair_skeleton <$> pairwise_keys_req c = expected_pairs d /\ filed_keys c) c
  | StepSetupDisputeCore => for_committee (fun d c => (setup_core_req c).*1 = expected_cores d) c
  | StepRequestDisputeChannelVars => for_committee (fun d c => var_skeleton <$> setup_channel_req c = expected_vars d) c
  | StepDisputeChannelSetup => for_committee (fun d c => (setup_channel_setup_req c).*1 = expected_channels d) c
  | StepFullPenalizationSetup => for_committee (fun d c =>
      (setup_full_penalization_req c).*1 = [full_penalization_protocol_id (committee_uuid d)]) c
  | StepDone => committee_data c = None \/ complete c
  end.

(** Before the committee is known, and before its cores are set up *)
Definition not_selected_yet (s : Steps) (c : FlowContext) : Prop := (level s <= 3)%nat -> s <> StepDone -> committee_data c = None.
Definition no_cores_yet (n : nat) (c : FlowContext) : Prop := (n <= 7)%nat -> setup_core_req c = [].

(** A state between two inputs *)
Record state_ok (s : State) : Prop := {
  so_input : has_input (ctx s);
  so_upto : step s <> StepFailed -> upto (level (step s)) (ctx s);
  so_unselected : step s <> StepFailed -> not_selected_yet (step s) (ctx s);
  so_no_cores : step s <> StepFailed -> step s <> StepDone -> no_cores_yet (level (step s)) (ctx s);
  so_entered : entered (step s) (ctx s)
}.

End Invariant.

(** ** Results of the setups

    What a successful run returns, whatever the services did. *)

Section Results.
Context `{FlowCodecs, !CommitteeCodecs, Keccak, Sha256, !EnvVars G, !BitvmxBroker G, !CommitteeServices G,
  !SetupServices G}.
Abbreviation W := (Flow.World State (Env G) Effect).
Implicit Types (w : W).

Lemma my_index_in_result d w i w' : my_index_in d w = (Ok i, w') -> i = my_position (my_address (E := G)) d /\ is_Some (cd_members d !! i).
Proof.
  unfold my_index_in, my_position. destruct (list_find _ _) as [[j m]|] eqn:Hf; [|done]. intros [= <- <-].
  split; [done|]. apply list_find_Some in Hf as [Hm _]. by exists m.
Qed.

Lemma setup_dispute_cores_result d l ms w ids w' :
  setup_dispute_cores d l ms w = (Ok ids, w') -> ids = (fun m => get_dispute_core_pid_for_key d (take_key m)) <$> ms.
Proof.
  revert w ids w'. induction ms as [|m ms IH]; intros w ids w'; cbn [setup_dispute_cores]; [by intros [= <- <-]|].
  cbn zeta. intros Hr. apply SR_bind_ok in Hr as (? & ? & _ & Hr). apply SR_bind_ok in Hr as (? & ? & _ & Hr).
  apply SR_bind_ok in Hr as (rest & ? & Hrest & Hr). apply IH in Hrest. injection Hr as <- <-. by rewrite Hrest.
Qed.

Lemma dispute_core_setup_result d l keys u n utxo conf w ids w' :
  dispute_core_setup d l keys u n utxo conf w = (Ok ids, w') ->
  ids = (fun m => get_dispute_core_pid_for_key d (take_key m)) <$> cd_members d.
Proof.
  unfold dispute_core_setup. cbn zeta. intros Hr. do 5 (apply SR_bind_ok in Hr as (? & ? & _ & Hr)).
  by eapply setup_dispute_cores_result.
Qed.

Lemma filter_seq_S (P : nat -> Prop) `{!forall j, Decision (P j)} (k n : nat) :
  filter P (seq k (S n)) = (if decide (P k) then [k] else []) ++ filter P (seq (S k) n).
Proof. cbn [seq]. rewrite filter_cons. by case_decide. Qed.

Lemma prover_at_lookup d i m : cd_members d !! i = Some m -> prover_at d i = is_prover m.
Proof. intros Hm. unfold prover_at. by rewrite Hm. Qed.

Lemma pairwise_requests_result d data i k l w rs w' :
  (forall j m, l !! j = Some m -> cd_members d !! (k + j)%nat = Some m) ->
  forall role, bool_decide (role = Prover) = prover_at d i ->
  pairwise_requests d data i role k l w = (Ok rs, w') ->
  pair_skeleton <$> rs =
    (fun j => (pairwise_aggregated_key_protocol_id (committee_uuid d) (Z.of_nat i) (Z.of_nat j), i, j)) <$>
    filter (fun j => j <> i /\ (prover_at d i || prover_at d j) = true) (seq k (length l)) /\
  Forall (fun r => pw_key r = None) rs.
Proof.
  intros Hl role Hrole. revert k rs w w' Hl. induction l as [|m l IH]; intros k rs w w' Hl; cbn [pairwise_requests length].
  { intros [= <- <-]. done. }
  intros Hr. apply SR_bind_ok in Hr as (r & w1 & Hr & Hrest). apply SR_bind_ok in Hrest as (rest & w2 & Hrest & [= <- <-]).
  apply IH in Hrest as [Hs Hn]. 2: { intros j m' Hj. rewrite Nat.add_succ_l, <- Nat.add_succ_r. by apply (Hl (S j)). }
  rewrite filter_seq_S, !fmap_app, Hs. clear IH.
  assert (Hm : prover_at d k = is_prover m). { apply prover_at_lookup. specialize (Hl 0%nat m eq_refl). by rewrite Nat.add_0_r in Hl. }
  unfold pairwise_request in Hr. rewrite Hrole in Hr. fold (is_prover m) in Hr. rewrite <- Hm in Hr.
  destruct (decide (k = i)) as [->|Hne].
  { rewrite bool_decide_eq_true_2 in Hr by done. injection Hr as <- <-. rewrite decide_False by naive_solver. done. }
  rewrite bool_decide_eq_false_2 in Hr by done.
  destruct (prover_at d i || prover_at d k) eqn:Hp.
  2: { apply orb_false_iff in Hp as [Hp1 Hp2]. rewrite Hp1, Hp2 in Hr. cbn in Hr. injection Hr as <- <-.
       rewrite decide_False by naive_solver. done. }
  assert (negb (prover_at d i) && negb (prover_at d k) = false) as Hq by (by destruct (prover_at d i), (prover_at d k)).
  rewrite Hq in Hr. rewrite decide_True by done.
  destruct (i <? k)%nat; [destruct (data !! i), (data !! k)|destruct (data !! k), (data !! i)]; try done;
    apply SR_bind_ok in Hr as (? & ? & _ & [= <- <-]); (split; [done|]); by constructor.
Qed.

Lemma request_partner_vars_result d i k l w rs w' :
  (forall j m, l !! j = Some m -> cd_members d !! (k + j)%nat = Some m /\ committee_idx m = (k + j)%nat) ->
  request_partner_vars d i (prover_at d i) l w = (Ok rs, w') ->
  var_skeleton <$> rs = (fun j => (core_pid_at d j, j)) <$>
    filter (fun j => j <> i /\ (prover_at d i || prover_at d j) = true) (seq k (length l)).
Proof.
  revert k rs w w'. induction l as [|m l IH]; intros k rs w w' Hl; cbn [request_partner_vars length]; [by intros [= <- <-]|].
  destruct (Hl 0%nat m eq_refl) as [Hm Hidx]. rewrite Nat.add_0_r in Hm, Hidx. rewrite Hidx.
  assert (Hl' : forall j m, l !! j = Some m -> cd_members d !! (S k + j)%nat = Some m /\ committee_idx m = (S k + j)%nat).
  { intros j m' Hj. rewrite Nat.add_succ_l, <- Nat.add_succ_r. by apply (Hl (S j)). }
  rewrite filter_seq_S, fmap_app, <- (prover_at_lookup _ _ _ Hm).
  destruct (decide (k = i)) as [->|Hne].
  { rewrite bool_decide_eq_true_2 by done. rewrite decide_False by naive_solver. by apply IH. }
  rewrite bool_decide_eq_false_2 by done.
  destruct (prover_at d i || prover_at d k) eqn:Hp.
  2: { assert (negb (prover_at d i) && negb (prover_at d k) = true) as ->
         by (by destruct (prover_at d i), (prover_at d k)).
       rewrite decide_False by naive_solver. by apply IH. }
  assert (negb (prover_at d i) && negb (prover_at d k) = false) as -> by (by destruct (prover_at d i), (prover_at d k)).
  rewrite decide_True by done. intros Hr. apply SR_bind_ok in Hr as (pid & w1 & Hpid & Hr).
  unfold get_dispute_core_pid_for_index in Hpid. rewrite Hm in Hpid. injection Hpid as <- <-.
  apply SR_bind_ok in Hr as (r & w2 & Hreq & Hr). apply SR_bind_ok in Hr as (rest & w3 & Hrest & [= <- <-]).
  apply SR_bind_ok in Hreq as (? & ? & _ & [= <- <-]).
  cbn. unfold var_skeleton at 1. cbn. f_equal; [unfold core_pid_at; by rewrite Hm|]. by eapply IH.
Qed.

Lemma request_dispute_core_var_result d w rs w' :
  let i := my_position (my_address (E := G)) d in
  committee_idx <$> cd_members d = seq 0 (length (cd_members d)) ->
  request_dispute_core_var d i w = (Ok rs, w') -> var_skeleton <$> rs = expected_vars (my_address (E := G)) d.
Proof.
  intros i Hidx Hr. unfold request_dispute_core_var in Hr. destruct (cd_members d !! i) as [m|] eqn:Hm; [|done].
  apply SR_bind_ok in Hr as (m' & w1 & [= <- <-] & Hr). apply SR_bind_ok in Hr as (pid & w2 & Hpid & Hr).
  unfold get_dispute_core_pid_for_index in Hpid. rewrite Hm in Hpid. injection Hpid as <- <-.
  apply SR_bind_ok in Hr as (r & w3 & Hreq & Hr). apply SR_bind_ok in Hr as (rest & w4 & Hrest & [= <- <-]).
  apply SR_bind_ok in Hreq as (? & ? & _ & [= <- <-]). rewrite <- (prover_at_lookup _ _ _ Hm) in Hrest.
  apply (request_partner_vars_result _ _ 0) in Hrest.
  2: { intros j m' Hj. split; [done|]. assert (Hx : (committee_idx <$> cd_members d) !! j = Some (committee_idx m'))
         by (by rewrite list_lookup_fmap, Hj). rewrite Hidx in Hx. apply lookup_seq in Hx. lia. }
  unfold expected_vars. fold i. cbn zeta. rewrite !fmap_cons. f_equal; [|exact Hrest]. unfold var_skeleton, core_pid_at. cbn.
  by rewrite Hm.
Qed.

Lemma setup_one_result def d i w id w' : setup_one def d i w = (Ok id, w') -> id = channel_id d (op_index i) (wt_index i).
Proof.
  unfold setup_one. cbn zeta. intros Hr. do 3 (apply SR_bind_ok in Hr as (? & ? & _ & Hr)). by injection Hr as <- <-.
Qed.

Lemma setup_partner_result def d i m my_addr cs ss addrs keys data k p w ids w' :
  cd_members d !! i = Some m -> cd_members d !! k = Some p ->
  setup_partner def d i m my_addr cs ss addrs keys data k p w = (Ok ids, w') ->
  ids = uncurry (channel_id d) <$> channels_with d i k.
Proof.
  intros Hm Hp. unfold setup_partner, channels_with.
  rewrite <- (prover_at_lookup _ _ _ Hm), <- (prover_at_lookup _ _ _ Hp).
  case_bool_decide; [by intros [= <- <-]|].
  destruct (negb (prover_at d i) && negb (prover_at d k)) eqn:Hq.
  { destruct (prover_at d i), (prover_at d k); try done. by intros [= <- <-]. }
  intros Hr. do 2 (apply SR_bind_ok in Hr as (? & ? & _ & Hr)). apply SR_bind_ok in Hr as (op & w1 & Hop & Hr).
  apply SR_bind_ok in Hr as (wt & w2 & Hwt & [= <- <-]). rewrite fmap_app. f_equal.
  - destruct (prover_at d i); [|by injection Hop as <- <-]. apply SR_bind_ok in Hop as (id & w3 & Hop & [= <- <-]).
    unfold setup_channel_as_operator in Hop. do 5 (apply SR_bind_ok in Hop as (? & ? & _ & Hop)).
    by apply setup_one_result in Hop as ->.
  - destruct (prover_at d k); [|by injection Hwt as <- <-]. apply SR_bind_ok in Hwt as (id & w3 & Hwt & [= <- <-]).
    unfold setup_channel_as_watchtower in Hwt. do 2 (apply SR_bind_ok in Hwt as (? & ? & _ & Hwt)).
    by apply setup_one_result in Hwt as ->.
Qed.

Lemma complete_setup_result def d i addrs keys data w ids w' :
  complete_setup def d i addrs keys data w = (Ok ids, w') -> ids = uncurry (channel_id d) <$> channels_of d i.
Proof.
  unfold complete_setup. intros Hr. apply SR_bind_ok in Hr as (m & ? & Hm & Hr).
  destruct (cd_members d !! i) as [m'|] eqn:Hi; [|done]. injection Hm as -> <-.
  do 4 (apply SR_bind_ok in Hr as (? & ? & _ & Hr)). unfold channels_of. rewrite list_bind_fmap.
  match type of Hr with setup_partners ?round _ _ _ = _ => set (f := round) in Hr end.
  assert (Hloop : forall k l w ids w', (forall j p, l !! j = Some p -> cd_members d !! (k + j)%nat = Some p) ->
    setup_partners f k l w = (Ok ids, w') ->
    ids = seq k (length l) ≫= fun j => uncurry (channel_id d) <$> channels_with d i j).
  { clear Hr. intros k l. revert k. induction l as [|p l IH]; intros k w0 ids0 w'0 Hl; cbn [setup_partners length seq];
      [by intros [= <- <-]|].
    intros Hr. apply SR_bind_ok in Hr as (a & w1 & Ha & Hr). apply SR_bind_ok in Hr as (rest & w2 & Hrest & [= <- <-]).
    rewrite bind_cons. f_equal.
    - unfold f in Ha. eapply setup_partner_result; [exact Hi| |exact Ha]. specialize (Hl 0%nat p eq_refl).
      by rewrite Nat.add_0_r in Hl.
    - eapply IH; [|exact Hrest]. intros j p' Hj. rewrite Nat.add_succ_l, <- Nat.add_succ_r. by apply (Hl (S j)). }
  by apply Hloop in Hr.
Qed.

Lemma build_members_result utxos k l w ms w' :
  build_members_of_committee utxos k l w = (Ok ms, w') ->
  mc_address <$> ms = memberAddress <$> l /\ Forall2 (fun m cm => role_to_u8 (mc_role m) = role cm) ms l /\
  committee_idx <$> ms = seq k (length ms).
Proof.
  revert k w ms w'. induction l as [|cm l IH]; intros k w ms w'; cbn [build_members_of_committee].
  { intros [= <- <-]. by repeat split. }
  intros Hr. apply SR_bind_ok in Hr as (m & w1 & Hm & Hr). apply SR_bind_ok in Hr as (rest & w2 & Hrest & [= <- <-]).
  apply IH in Hrest as (Ha & Hrole & Hidx). unfold build_member in Hm.
  apply SR_bind_ok in Hm as (r & ? & Hr & Hm). do 7 (apply SR_bind_ok in Hm as (? & ? & _ & Hm)). injection Hm as <- <-.
  cbn. rewrite Ha, Hidx. split_and!; [done| |done]. constructor; [|done]. cbn.
  unfold map_err, role_try_from, bail in Hr. destruct (Z.eqb_spec (role cm) 1) as [->|]; [by injection Hr as <- <-|].
  destruct (Z.eqb_spec (role cm) 2) as [->|]; [by injection Hr as <- <-|done].
Qed.

Lemma get_committee_data_run w d : committee_data (ctx (state w)) = Some d -> get_committee_data w = (Ok d, w).
Proof. intros Hd. unfold get_committee_data, get_ctx, mbind, SR_bind. cbn. by rewrite Hd. Qed.

Lemma build_my_communication_data_result w l w' d :
  committee_data (ctx (state w)) = Some d -> build_my_communication_data w = (Ok l, w') -> length l = length (cd_members d).
Proof.
  intros Hd Hr. unfold build_my_communication_data in Hr.
  rewrite SR_bind_run with (a := d) (s' := w) in Hr by (unfold in_context; by rewrite (get_committee_data_run _ _ Hd)).
  apply SR_bind_ok in Hr as (addrs & w1 & Ha & Hr).
  assert (Hs1 : state w1 = state w).
  { destruct (firm_get_committee_addresses (committee_id d)) as [Hk _ _]. destruct (Hk w) as [Hk' _]. by rewrite Ha in Hk'. }
  apply SR_bind_ok in Hr as (mine & w2 & Hmine & Hr).
  assert (Hs2 : state w2 = state w).
  { destruct (firm_get_my_comm_info (G := G)) as [Hk _ _]. destruct (Hk w1) as [Hk' _]. rewrite Hmine in Hk'. cbn in Hk'. congruence. }
  apply SR_bind_ok in Hr as (hashes & w3 & Hh & Hr).
  assert (Hlen : length hashes = length (cd_members d)).
  { unfold get_committee_pubkey_hashes in Hh.
    rewrite SR_bind_run with (a := d) (s' := w2) in Hh by (apply get_committee_data_run; congruence). clear -Hh. revert hashes Hh. generalize w2 w3. induction (cd_members d) as [|m ms IH]; intros w w1 hs Hh.
    - by injection Hh as <- <-.
    - cbn [committee_pubkey_hashes] in Hh. do 2 (apply SR_bind_ok in Hh as (? & ? & _ & Hh)).
      apply SR_bind_ok in Hh as (rest & ? & Hrest & [= <- <-]). cbn. f_equal. by eapply IH. }
  rewrite <- Hlen. clear -Hr. unfold map_err, build_communication_data in Hr.
  destruct (negb _) eqn:Hl; [done|]. apply negb_false_iff, Nat.eqb_eq in Hl.
  assert (Hz : length (zip addrs hashes) = length hashes) by (rewrite length_zip_with; lia). rewrite <- Hz. clear -Hr.
  revert l Hr. generalize w3 w'. induction (zip addrs hashes) as [|[a h] z IH]; intros w w'0 l Hr; cbn [comms_addresses] in Hr.
  - by injection Hr as <- <-.
  - destruct (parse_socket_addr _); [|done]. unfold mbind, SR_bind in Hr.
    destruct (comms_addresses _ z w) as [[rest|x] w1] eqn:Hrest; [|done]. injection Hr as <- <-. cbn. f_equal.
    apply (IH w w1). by rewrite Hrest.
Qed.

End Results.

(** ** The invariant is kept *)

Section Kept.
Context `{FlowCodecs, !CommitteeCodecs, Keccak, Sha256, !EnvVars G, !BitvmxBroker G, !CommitteeServices G,
  !SetupServices G} (bitcoin_network : Network) (drp_program_definition : string) (btc_confirmations : Z) (fid : bytes).
Abbreviation W := (Flow.World State (Env G) Effect).
Abbreviation me := (my_address (E := G)).
Abbreviation assertion := (State -> option State -> Prop).

Definition saved_ok (v : option State) : Prop := forall s, v = Some s -> state_ok me s /\ flow_id s = fid.
Definition flow_ok (s : State) (v : option State) : Prop := state_ok me s /\ flow_id s = fid /\ saved_ok v.
Definition failing (s : State) (v : option State) : Prop := has_input (ctx s) /\ flow_id s = fid /\ saved_ok v.
Definition panicking (s : State) (v : option State) : Prop := saved_ok v.

#[local] Abbreviation spec := (spec (E := Env G) flow_ok failing panicking).

(** What the entry action of a step finds *)
Definition before (next : Steps) (c : FlowContext) : Prop :=
  match next with
  | StepSignMyTakeKey => has_key (my_take_key_req c)
  | StepGetMyDisputeKey => signed (my_take_key_req c)
  | StepSignMyDisputeKey => signed (my_take_key_req c) /\ has_key (my_dispute_key_req c)
  | StepGetMyCommKey => signed (my_take_key_req c) /\ signed (my_dispute_key_req c)
  | StepSignMyCommKey => signed (my_take_key_req c) /\ signed (my_dispute_key_req c) /\ has_key (my_comm_key_req c)
  | StepDone => committee_data c = None \/ complete me c
  | _ => True
  end.

Record can_enter (next : Steps) (c : FlowContext) : Prop := {
  ce_input : has_input c;
  ce_upto : upto me (level next) c;
  ce_unselected : not_selected_yet next c;
  ce_no_cores : next <> StepDone -> (level next <= 8)%nat -> setup_core_req c = [];
  ce_before : before next c
}.

Definition staged (next : Steps) (s : State) (v : option State) : Prop :=
  step s = next /\ can_enter next (ctx s) /\ flow_id s = fid /\ saved_ok v.

Lemma staged_failing next s v : staged next s v -> failing s v.
Proof. intros (_ & Hc & ? & ?). split_and!; [apply Hc|done..]. Qed.
Lemma staged_panicking next s v : staged next s v -> panicking s v.
Proof. by intros (_ & _ & _ & ?). Qed.
Lemma staged_ok next s v : staged next s v -> entered me next (ctx s) -> flow_ok s v.
Proof.
  intros (<- & [] & ? & ?) He. split_and!; [|done..]. split; try done. intros _ Hd Hl. apply ce_no_cores0; [done|lia].
Qed.

Lemma flow_ok_failing s v : flow_ok s v -> failing s v.
Proof. intros ([] & ? & ?). by split_and!. Qed.
Lemma flow_ok_panicking s v : flow_ok s v -> panicking s v.
Proof. by intros (_ & _ & ?). Qed.

#[local] Hint Resolve staged_failing staged_panicking flow_ok_failing flow_ok_panicking : core.

Lemma spec_keeps {A} (m : SR W FlowError A) (P : assertion) :
  keeps m -> (forall s v, P s v -> flow_ok s v) -> spec P m (fun _ => P).
Proof.
  intros Hk HP w Hw. specialize (Hk w) as [Hs Hv].
  destruct (m w) as [[a|[causes|msg]] w1] eqn:E1; cbn in Hs, Hv; rewrite Hs, Hv; auto. case_match; auto.
Qed.

(** A firm computation, with what its success tells *)
Lemma spec_run {A} (m : SR W FlowError A) (P : assertion) :
  firm m -> (forall s v, P s v -> failing s v) ->
  spec P m (fun a s v => P s v /\ exists w w', state w = s /\ m w = (Ok a, w')).
Proof.
  intros [Hk Hm _] HF w Hw. specialize (Hk w) as [Hs Hv].
  destruct (m w) as [[a|[causes|msg]] w1] eqn:E1; cbn in Hs, Hv; rewrite Hs, Hv; [eauto 10|rewrite (Hm _ _ _ E1); auto|].
  by apply HF in Hw as (_ & _ & ?).
Qed.

Lemma spec_set_ctx f (P : assertion) (Q : unit -> assertion) :
  (forall s v, P s v -> Q tt (mkState (flow_id s) (step s) (f (ctx s)) (created_at s)) v) -> spec P (set_ctx f) Q.
Proof. intros HQ w Hw. cbn. by apply HQ. Qed.

Lemma spec_get_ctx {B} (k : FlowContext -> SR W FlowError B) P Q :
  (forall c, spec (fun s v => P s v /\ ctx s = c) (k c) Q) -> spec P (get_ctx ≫= k) Q.
Proof. intros Hk w Hw. by apply (Hk (ctx (state w)) w). Qed.

Lemma spec_need {A B} msg (o : option A) (k : A -> SR W FlowError B) P Q :
  (forall s v, P s v -> failing s v) -> (forall a, o = Some a -> spec P (k a) Q) -> spec P (a ← required msg o; k a) Q.
Proof. intros HF Hk w Hw. destruct o as [a|]; [by apply (Hk a eq_refl w)|]. cbn. by apply HF. Qed.

Lemma spec_committee {B} (k : CommitteeData -> SR W FlowError B) P Q :
  (forall s v, P s v -> failing s v) ->
  (forall d, spec (fun s v => P s v /\ committee_data (ctx s) = Some d) (k d) Q) -> spec P (get_committee_data ≫= k) Q.
Proof.
  intros HF Hk w Hw. destruct (committee_data (ctx (state w))) as [d|] eqn:Hd.
  - rewrite (SR_bind_run _ _ _ _ _ (get_committee_data_run _ _ Hd)). by apply Hk.
  - unfold get_committee_data, get_ctx, mbind, SR_bind. cbn. rewrite Hd. cbn. by apply HF.
Qed.

Lemma spec_persist (P : assertion) :
  (forall s v, P s v -> state_ok me s /\ flow_id s = fid) -> (forall s v, P s v -> saved_ok v) ->
  spec P persist_state (fun _ => flow_ok).
Proof.
  intros Hs Hv w Hw. unfold persist_state, in_context, persist_with.
  rewrite SR_bind_run with (a := w) (s' := w) by done.
  unfold on_env, zoom, with_message, mbind, SR_bind, smodify, id. destruct (Hs _ _ Hw) as [Hok Hid]. specialize (Hv _ _ Hw).
  destruct (save_flow (state w) (env w).2) as [[a|y] g]; cbn; (split_and!; [try done; try apply Hok|done|]); [|done].
  by intros s [= <-].
Qed.

Lemma firm_pre {A B} (m : SR W FlowError A) (k : A -> SR W FlowError B) (P : assertion) Q :
  firm m -> (forall s v, P s v -> failing s v) -> (forall a, spec P (k a) Q) -> spec P (m ≫= k) Q.
Proof.
  intros Hm HF Hk. eapply spec_bind; [apply spec_firm; [done|done|]|exact Hk]. intros s v HP. by apply HF in HP as (_ & _ & ?).
Qed.

(** Entering the steps *)

Lemma can_enter_ok next c : can_enter next c -> entered me next c -> forall s, step s = next -> ctx s = c -> state_ok me s.
Proof.
  intros Hc He s Hs Hctx. rewrite <- Hctx in Hc, He. rewrite <- Hs in Hc, He. destruct Hc. split; try done.
  intros _ Hd Hl. apply ce_no_cores0; [done|lia].
Qed.

Lemma entry_set next f :
  (forall c, can_enter next c -> can_enter next (f c) /\ entered me next (f c)) ->
  spec (staged next) (set_ctx f) (fun _ => flow_ok).
Proof.
  intros Hf. apply spec_set_ctx. intros s v (Hs & Hc & Hid & Hv). destruct (Hf _ Hc) as [Hc' He].
  split_and!; [|done..]. by eapply can_enter_ok.
Qed.

Lemma flow_ok_firm {A} (m : SR W FlowError A) : firm m -> spec flow_ok m (fun _ => flow_ok).
Proof. intros Hm. apply spec_firm; auto. Qed.

Ltac enter := let c := fresh "c" in let Hc := fresh "Hc" in intros c Hc; destruct Hc; split; [by split|].

Lemma entry_request_pub_key next set :
  (forall r c, can_enter next c -> can_enter next (set (Some r) c) /\ entered me next (set (Some r) c)) ->
  spec (staged next) (without_keys (request_pub_key set)) (fun _ => flow_ok).
Proof.
  intros Hf. unfold without_keys, request_pub_key. apply firm_pre; [be_firm|eauto|intros k].
  apply spec_if; intros _; [apply spec_panic; eauto|]. apply firm_pre; [be_firm|eauto|intros req].
  eapply spec_bind; [apply entry_set; intros c; apply Hf|]. intros []. apply flow_ok_firm. be_firm.
Qed.

Lemma entry_key_signing next own set :
  (forall r o c, can_enter next c -> own c = Some r ->
     can_enter next (set (Some (mkPubKeyReq (pk_req_id r) (pk_key r) o (pk_signed r))) c) /\
     entered me next (set (Some (mkPubKeyReq (pk_req_id r) (pk_key r) o (pk_signed r))) c)) ->
  spec (staged next) (without_keys (request_bitvmx_key_signing own set)) (fun _ => flow_ok).
Proof.
  intros Hf. unfold without_keys, request_bitvmx_key_signing. apply firm_pre; [be_firm|eauto|intros k].
  apply spec_if; intros _; [apply spec_panic; eauto|]. apply spec_get_ctx. intros c.
  assert (HF : forall s v, staged next s v /\ ctx s = c -> failing s v) by (intros s v [? _]; eauto).
  apply spec_need; [done|intros r Hr]. apply spec_need; [done|intros key Hkey]. apply firm_pre; [be_firm|done|intros req].
  eapply spec_bind.
  - apply spec_set_ctx with (Q := fun _ => flow_ok). intros s v [(Hs & Hc & Hid & Hv) <-].
    destruct (Hf r (Some req) _ Hc Hr) as [Hc' He]. split_and!; [|done..]. by eapply can_enter_ok.
  - intros []. apply flow_ok_firm. be_firm.
Qed.

Lemma entry_aggregated next key_id key_of set :
  (forall d r c, committee_data c = Some d -> can_enter next c ->
     can_enter next (set (Some (key_id (committee_uuid d), r)) c) /\
     entered me next (set (Some (key_id (committee_uuid d), r)) c)) ->
  spec (staged next) (setup_aggregated_pubkey key_id key_of set) (fun _ => flow_ok).
Proof.
  intros Hf. unfold setup_aggregated_pubkey. apply spec_committee; [eauto|]. intros d. cbn zeta.
  eapply spec_bind.
  - apply spec_set_ctx with (Q := fun _ => flow_ok). intros s v [(Hs & Hc & Hid & Hv) Hd].
    destruct (Hf d None _ Hd Hc) as [Hc' He]. split_and!; [|done..]. by eapply can_enter_ok.
  - intros []. apply flow_ok_firm. be_firm.
Qed.

Lemma firm_bind_ok {A} (m : SR W FlowError A) (k : A -> SR W FlowError unit) (P : assertion) (R : A -> W -> Prop) :
  firm m -> (forall s v, P s v -> failing s v) ->
  (forall w a w', m w = (Ok a, w') -> R a w) ->
  (forall a, spec (fun s v => P s v /\ exists w, state w = s /\ R a w) (k a) (fun _ => flow_ok)) ->
  spec P (m ≫= k) (fun _ => flow_ok).
Proof.
  intros Hm HF HR Hk. eapply spec_bind; [by apply spec_run|]. intros a. eapply spec_pre; [|apply Hk].
  intros s v (HP & w & w' & Hs & Hr). split; [done|]. exists w. split; [done|]. by eapply HR.
Qed.

Lemma entry_pairwise : spec (staged StepSetupPairwiseKeys) setup_pairwise_keys (fun _ => flow_ok).
Proof.
  unfold setup_pairwise_keys. apply spec_committee; [eauto|]. intros d.
  assert (HF : forall s v, staged StepSetupPairwiseKeys s v /\ committee_data (ctx s) = Some d -> failing s v)
    by (intros s v [? _]; eauto).
  apply firm_pre; [be_firm|done|intros data].
  apply firm_bind_ok with (R := fun i _ => i = my_position me d); [be_firm|done|by intros w i w' [??]%my_index_in_result|].
  intros i. apply spec_need; [by intros s v [? _]; auto|]. intros m Hm.
  apply firm_bind_ok with (R := fun rs _ => i = my_position me d -> pair_skeleton <$> rs = expected_pairs me d /\
    Forall (fun r => pw_key r = None) rs).
  - be_firm.
  - intros s v [? _]. auto.
  - intros w rs w' Hrs Hi. unfold expected_pairs. rewrite <- Hi.
    apply (pairwise_requests_result d data i 0) with (role := mc_role m) in Hrs; [done|done|].
    by rewrite (prover_at_lookup _ _ _ Hm).
  - intros rs. apply spec_set_ctx. intros s v ((((Hs & [] & Hid & Hv) & Hd) & (w1 & _ & Hi)) & (w2 & _ & Hrs)).
    destruct (Hrs Hi) as [Hsk Hnone]. split_and!; [|done..].
    eapply can_enter_ok; [| |exact Hs|reflexivity]; [by split|]. intros d' Hd'. cbn in Hd'. simplify_eq.
    split; [exact Hsk|]. intros r Hr Hkey. cbn in Hr. rewrite Forall_forall in Hnone. by apply Hnone in Hr.
Qed.

Lemma entry_cores : spec (staged StepSetupDisputeCore) (setup_dispute_core_protocol btc_confirmations) (fun _ => flow_ok).
Proof.
  unfold setup_dispute_core_protocol. apply spec_committee; [eauto|]. intros d.
  assert (HF : forall s v, staged StepSetupDisputeCore s v /\ committee_data (ctx s) = Some d -> failing s v)
    by (intros s v [? _]; eauto).
  do 8 (first [apply spec_need; [done|intros ? _]|apply firm_pre; [be_firm|done|intros ?]]; cbn zeta).
  apply firm_bind_ok with (R := fun ids _ => ids = (fun m => get_dispute_core_pid_for_key d (take_key m)) <$> cd_members d).
  - be_firm.
  - done.
  - intros w ids w' Hr. by eapply dispute_core_setup_result.
  - intros ids. apply spec_get_ctx. intros c. apply spec_set_ctx.
    intros s v ((((Hs & [] & Hid & Hv) & Hd) & (w1 & _ & ->)) & <-). split_and!; [|done..].
    rewrite ce_no_cores0 by (done || cbn; lia). split; cbn; rewrite ?Hs; try done; [by intros _ _ ?; cbn in *; lia|].
    intros d' Hd'. cbn in Hd'. simplify_eq. cbn. unfold expected_cores. by rewrite <- !list_fmap_compose.
Qed.

Lemma entry_vars : spec (staged StepRequestDisputeChannelVars) request_dispute_core_vars (fun _ => flow_ok).
Proof.
  unfold request_dispute_core_vars. apply spec_committee; [eauto|]. intros d.
  assert (HF : forall s v, staged StepRequestDisputeChannelVars s v /\ committee_data (ctx s) = Some d -> failing s v)
    by (intros s v [? _]; eauto).
  apply firm_bind_ok with (R := fun i _ => i = my_position me d); [be_firm|done|by intros w i w' [??]%my_index_in_result|].
  intros i. apply firm_bind_ok with (R := fun rs _ => i = my_position me d ->
    committee_idx <$> cd_members d = seq 0 (length (cd_members d)) -> var_skeleton <$> rs = expected_vars me d).
  - be_firm.
  - intros s v [? _]. auto.
  - intros w rs w' Hr -> Hidx. by eapply request_dispute_core_var_result.
  - intros rs. apply spec_set_ctx. intros s v ((((Hs & [] & Hid & Hv) & Hd) & (w1 & _ & Hi)) & (w2 & _ & Hrs)).
    split_and!; [|done..]. eapply can_enter_ok; [| |exact Hs|reflexivity]; [by split|].
    intros d' Hd'. cbn in Hd'. simplify_eq. apply Hrs; [done|].
    destruct ce_upto0 as (_ & _ & _ & (e & d' & _ & Hd' & Hco) & _). simplify_eq. by destruct Hco.
Qed.

Lemma entry_channels :
  spec (staged StepDisputeChannelSetup) (complete_dispute_channel_setup drp_program_definition) (fun _ => flow_ok).
Proof.
  unfold complete_dispute_channel_setup. apply spec_committee; [eauto|]. intros d.
  assert (HF : forall s v, staged StepDisputeChannelSetup s v /\ committee_data (ctx s) = Some d -> failing s v)
    by (intros s v [? _]; eauto).
  apply firm_pre; [be_firm|done|intros addrs].
  apply firm_bind_ok with (R := fun i _ => i = my_position me d); [be_firm|done|by intros w i w' [??]%my_index_in_result|].
  intros i. apply spec_get_ctx. intros c.
  apply firm_bind_ok with (R := fun ids _ => ids = uncurry (channel_id d) <$> channels_of d i).
  - be_firm.
  - intros s v [[? _] _]. auto.
  - intros w ids w' Hr. by eapply complete_setup_result.
  - intros ids. apply spec_set_ctx.
    intros s v (((((Hs & [] & Hid & Hv) & Hd) & (w1 & _ & ->)) & _) & (w2 & _ & ->)).
    split_and!; [|done..]. eapply can_enter_ok; [| |exact Hs|reflexivity]; [by split|].
    intros d' Hd'. cbn in Hd'. simplify_eq. cbn. rewrite <- !list_fmap_compose. done.
Qed.

Lemma entry_penalization : spec (staged StepFullPenalizationSetup) complete_full_penalization_setup (fun _ => flow_ok).
Proof.
  unfold complete_full_penalization_setup. apply spec_committee; [eauto|]. intros d.
  assert (HF : forall s v, staged StepFullPenalizationSetup s v /\ committee_data (ctx s) = Some d -> failing s v)
    by (intros s v [? _]; eauto).
  do 2 (apply firm_pre; [be_firm|done|intros ?]).
  apply firm_bind_ok with (R := fun i _ => i = full_penalization_protocol_id (committee_uuid d)).
  - be_firm.
  - done.
  - intros w i w' Hr. unfold full_penalization_setup in Hr. cbn zeta in Hr.
    do 2 (apply SR_bind_ok in Hr as (? & ? & _ & Hr)). by injection Hr as <- <-.
  - intros i. apply spec_set_ctx. intros s v (((Hs & [] & Hid & Hv) & Hd) & (w2 & _ & ->)).
    split_and!; [|done..]. eapply can_enter_ok; [| |exact Hs|reflexivity]; [by split|].
    intros d' Hd'. cbn in Hd'. by simplify_eq.
Qed.

Lemma keeps_tolerate f (m : SR W DomainErrors unit) : keeps m -> keeps (tolerate f m).
Proof.
  intros Hm. apply keeps_map_err. intros w. specialize (Hm w). destruct (m w) as [[a|e] w']; [done|]. by destruct (f e).
Qed.
Lemma keeps_call_contract c : keeps (call c : SR W DomainErrors unit).
Proof. apply keeps_call. Qed.
Lemma keeps_firm {A} (m : SR W FlowError A) : firm m -> keeps m.
Proof. apply firm_keeps. Qed.

Lemma keeps_apply_to_stream : keeps (apply_to_stream : SR W FlowError unit).
Proof.
  unfold apply_to_stream. do 8 (apply keeps_bind; [apply keeps_firm; be_firm|intros ?]).
  apply keeps_bind; [apply keeps_tolerate, keeps_call_contract|intros _]. apply keeps_firm. be_firm.
Qed.
Lemma keeps_deposit_communication_data : keeps (deposit_communication_data : SR W FlowError unit).
Proof.
  unfold deposit_communication_data. do 3 (apply keeps_bind; [apply keeps_firm; be_firm|intros ?]).
  apply keeps_tolerate, keeps_call_contract.
Qed.
Lemma keeps_deposit_aggregated_key : keeps (deposit_aggregated_key : SR W FlowError unit).
Proof.
  unfold deposit_aggregated_key. do 2 (apply keeps_bind; [apply keeps_firm; be_firm|intros ?]).
  apply keeps_tolerate, keeps_call_contract.
Qed.
Lemma keeps_validate_rsk_balance : keeps (validate_rsk_balance : SR W FlowError unit).
Proof. apply keeps_firm. unfold validate_rsk_balance. be_firm. Qed.

(** Entry actions that leave the state as it is *)
Lemma entry_keeps next (m : SR W FlowError unit) :
  entered me next = (fun _ => True) -> keeps m -> spec (staged next) m (fun _ => staged next).
Proof. intros He Hm. apply spec_keeps; [done|]. intros s v Hs. eapply staged_ok; [done|]. by rewrite He. Qed.

Lemma entry_keeps_ok next (m : SR W FlowError unit) :
  entered me next = (fun _ => True) -> keeps m -> spec (staged next) m (fun _ => flow_ok).
Proof.
  intros He Hm. eapply spec_weaken; [exact (entry_keeps next m He Hm)|done|]. intros [] s v Hs. eapply staged_ok; [done|].
  by rewrite He.
Qed.

Lemma entry_ok next :
  next <> StepInit -> next <> StepFailed ->
  spec (staged next) (entry_action bitcoin_network drp_program_definition btc_confirmations next) (fun _ => flow_ok).
Proof.
  intros Hinit Hfailed. destruct next; try done; cbn [entry_action];
    [| |apply entry_request_pub_key; intros r|apply entry_key_signing; intros r o|apply entry_request_pub_key; intros r
     |apply entry_key_signing; intros r o|apply entry_request_pub_key; intros r|apply entry_key_signing; intros r o| | |
     |apply entry_aggregated; intros d r c Hd|apply entry_aggregated; intros d r c Hd|apply entry_pairwise|apply entry_cores
     |apply entry_vars|apply entry_channels|apply entry_penalization| |].
  - eapply spec_bind; [apply entry_keeps; [done|apply keeps_or_transient, keeps_validate_rsk_balance]|]. intros [].
    unfold request_bitvmx_funding_balance. apply firm_pre; [be_firm|eauto|intros req].
    eapply spec_bind; [apply entry_set; by enter|]. intros []. apply flow_ok_firm. be_firm.
  - unfold request_bitvmx_comm_info. apply firm_pre; [be_firm|eauto|intros req].
    eapply spec_bind; [apply entry_set; enter; by eexists|]. intros []. apply flow_ok_firm. be_firm.
  - enter. by eexists.
  - intros c [] Hr. cbn in ce_before0. destruct ce_before0 as (r' & k & Hr' & Hk). simplify_eq. split; [split; try done|]; by eexists _, _.
  - enter. cbn in ce_before0. split; [done|]. by eexists.
  - intros c [] Hr. cbn in ce_before0. destruct ce_before0 as (Ht & r' & k & Hr' & Hk). simplify_eq.
    split; [split; try done|]; (split; [done|]); by eexists _, _.
  - enter. cbn in ce_before0. destruct ce_before0. split_and!; [done|done|]. by eexists.
  - intros c [] Hr. cbn in ce_before0. destruct ce_before0 as (Ht & Hd & r' & k & Hr' & Hk). simplify_eq.
    split; [split; try done|]; (split_and!; [done|done|]); by eexists _, _.
  - unfold fund_protocol. apply firm_pre; [be_firm|eauto|intros req]. cbn zeta.
    do 2 (apply firm_pre; [be_firm|eauto|intros ?]).
    eapply spec_bind; [apply entry_set; enter; by eexists|]. intros []. apply flow_ok_firm. be_firm.
  - apply entry_keeps_ok; [done|apply keeps_apply_to_stream].
  - apply entry_keeps_ok; [done|apply keeps_deposit_communication_data].
  - intros []. split; [by split|]. intros d' Hd'. cbn in Hd'. simplify_eq. by eexists.
  - intros []. split; [by split|]. intros d' Hd'. cbn in Hd'. simplify_eq. by eexists.
  - apply entry_keeps_ok; [done|apply keeps_deposit_aggregated_key].
  - eapply spec_weaken; [apply spec_firm with (P := staged StepDone); [be_firm|eauto..]|done|].
    intros [] s v Hs. eapply staged_ok; [done|]. destruct Hs as (_ & [] & _). exact ce_before0.
Qed.

(** A state from which a step can be started *)
Definition enabled (next : Steps) (s : State) (v : option State) : Prop :=
  can_enter next (ctx s) /\ flow_id s = fid /\ saved_ok v.

Abbreviation starting := (start_step bitcoin_network drp_program_definition btc_confirmations).
Abbreviation completing := (complete_step bitcoin_network drp_program_definition btc_confirmations).

Lemma start_ok next :
  next <> StepInit -> next <> StepFailed -> spec (enabled next) (starting next) (fun _ => flow_ok).
Proof.
  intros Hinit Hfailed. unfold start_step.
  eapply spec_bind; [apply (spec_update _ _ _ _ _ (staged next)); by intros s v (Hc & Hid & Hv)|]. intros [].
  eapply spec_bind; [by apply entry_ok|]. intros []. apply spec_persist; by intros s v (Hok & Hid & Hv).
Qed.

(** Answers *)

Definition at_step (st : Steps) (s : State) (v : option State) : Prop := flow_ok s v /\ step s = st.

Lemma at_failing st s v : at_step st s v -> failing s v.
Proof. intros [? _]. auto. Qed.
Lemma enabled_failing next s v : enabled next s v -> failing s v.
Proof. intros (Hc & ? & ?). split_and!; [apply Hc|done..]. Qed.
#[local] Hint Resolve at_failing enabled_failing : core.

Lemma upto_S n P c : stages me !! n = Some P -> upto me n c -> P c -> upto me (S n) c.
Proof.
  intros HP Hn Hc. unfold upto in *. rewrite (take_S_r _ _ _ HP). revert Hn. generalize (take n (stages me)).
  induction l as [|Q l IH]; cbn; tauto.
Qed.

(** What a state at [st] gives to the next step *)
Record reached (st : Steps) (c : FlowContext) : Prop := {
  rc_input : has_input c;
  rc_upto : upto me (level st) c;
  rc_unselected : not_selected_yet st c;
  rc_no_cores : st <> StepDone -> no_cores_yet (level st) c;
  rc_entered : entered me st c
}.

Lemma at_reached st s : st <> StepFailed -> state_ok me s -> step s = st -> reached st (ctx s).
Proof. intros Hf [] <-. by split; auto. Qed.

Lemma reached_ok st s : st <> StepDone -> reached st (ctx s) -> step s = st -> state_ok me s.
Proof. intros Hd [] <-. by split; auto. Qed.

Lemma answer st next f (P : FlowContext -> Prop) :
  st <> StepFailed -> (forall c, reached st c -> P c -> can_enter next (f c)) ->
  spec (fun s v => at_step st s v /\ P (ctx s)) (set_ctx f) (fun _ => enabled next).
Proof.
  intros Hne Hf. apply spec_set_ctx. intros s v [[(Hok & Hid & Hv) Hst] HP]. split_and!; [|done..].
  apply Hf; [|done]. by eapply at_reached.
Qed.

Lemma answered st next (m : SR W FlowError unit) :
  next <> StepInit -> next <> StepFailed ->
  spec (at_step st) m (fun _ => enabled next) -> spec (at_step st) (_ ← m; starting next) (fun _ => flow_ok).
Proof. intros Hi Hf Hm. eapply spec_bind; [exact Hm|]. intros []. by apply start_ok. Qed.

Lemma answer_pub_key st next own set data :
  st <> StepFailed ->
  (forall r k c, reached st c -> own c = Some r ->
     can_enter next (set (Some (mkPubKeyReq (pk_req_id r) (Some k) (pk_sign_req_id r) (pk_signed r))) c)) ->
  spec (at_step st) (close_pub_key_req own set data) (fun _ => enabled next).
Proof.
  intros Hne Hf. unfold close_pub_key_req. apply spec_get_ctx. intros c.
  assert (HF : forall s v, at_step st s v /\ ctx s = c -> failing s v) by (intros s v [? _]; eauto).
  destruct (own c) as [r|] eqn:Hr; [|by apply spec_bail]. destruct data; try by apply spec_bail.
  apply answer with (P := fun c' => c' = c); [done|]. intros c' Hc ->. auto.
Qed.

Lemma answer_pub_key_signing st next own set data :
  st <> StepFailed ->
  (forall r k c, reached st c -> own c = Some r ->
     can_enter next (set (Some (mkPubKeyReq (pk_req_id r) (pk_key r) (pk_sign_req_id r) (Some k))) c)) ->
  spec (at_step st) (close_pub_key_signing_req own set data) (fun _ => enabled next).
Proof.
  intros Hne Hf. unfold close_pub_key_signing_req. destruct data; try by (apply spec_bail; eauto).
  apply spec_get_ctx. intros c.
  assert (HF : forall s v, at_step st s v /\ ctx s = c -> failing s v) by (intros s1 v1 [? _]; eauto).
  destruct (own c) as [pr|] eqn:Hr; [|by apply spec_bail]. apply spec_need; [done|]. intros k Hk.
  apply answer with (P := fun c' => c' = c); [done|]. intros c' Hc ->. auto.
Qed.

Lemma answer_agg_key st next own set data :
  st <> StepFailed ->
  (forall r k c, reached st c -> own c = Some r -> can_enter next (set (Some (r.1, Some k)) c)) ->
  spec (at_step st) (close_agg_key_req own set data) (fun _ => enabled next).
Proof.
  intros Hne Hf. unfold close_agg_key_req. apply spec_get_ctx. intros c.
  assert (HF : forall s v, at_step st s v /\ ctx s = c -> failing s v) by (intros s v [? _]; eauto).
  destruct (own c) as [r|] eqn:Hr; [|by apply spec_bail]. destruct data; try by apply spec_bail.
  apply answer with (P := fun c' => c' = c); [done|]. intros c' Hc ->. auto.
Qed.

(** Steps with several answers *)
Lemma several cur next missing :
  next <> StepInit -> next <> StepFailed ->
  spec (fun s v => at_step cur s v /\ (missing = false -> can_enter next (ctx s)))
    (when_complete bitcoin_network drp_program_definition btc_confirmations missing cur next) (fun _ => flow_ok).
Proof.
  intros Hi Hf. unfold when_complete. destruct missing.
  - apply (spec_update _ _ _ _ _ flow_ok). intros [id st c t] v [[Hok Hst] _]. cbn in Hst. by subst.
  - eapply spec_pre; [|by apply start_ok]. intros s v [[(_ & Hid & Hv) _] Hc]. by split_and!; auto.
Qed.

Lemma all_answered {A} (l : list (A * bool)) e :
  l.*1 = e -> existsb (fun r => negb r.2) l = false -> l = (fun x => (x, true)) <$> e.
Proof.
  intros <-. induction l as [|[a []] l IH]; cbn; [done| |done]. intros Hl. f_equal. by apply IH.
Qed.
Lemma closed_fst {A} (p : A -> bool) (l : list (A * bool)) : ((fun r => if p r.1 then (r.1, true) else r) <$> l).*1 = l.*1.
Proof. induction l as [|[a b] l IH]; cbn; [done|]. f_equal; [by destruct (p a)|done]. Qed.

Abbreviation several_post st next := (fun (missing : bool) s v => at_step st s v /\ (missing = false -> can_enter next (ctx s))).

(** Answers that keep what the step entered with *)
Lemma answer_some st next f (missing : bool) c :
  st <> StepFailed -> st <> StepDone ->
  (reached st c -> reached st (f c) /\ (missing = false -> can_enter next (f c))) ->
  spec (fun s v => at_step st s v /\ ctx s = c) (_ ← set_ctx f; mret missing) (several_post st next).
Proof.
  intros Hne Hnd Hf w [[(Hok & Hid & Hv) Hst] <-]. cbn.
  destruct Hf as [Hr Hc]; [by apply at_reached|]. split; [|done]. split; [|done]. split_and!; [|done..].
  by apply (reached_ok st).
Qed.

(** Going on within a level, and to the next one *)
Lemma can_enter_same st next c :
  level next = level st -> st <> StepDone -> next <> StepDone -> (level st <= 7)%nat ->
  has_input c -> upto me (level st) c -> not_selected_yet st c -> (st <> StepDone -> no_cores_yet (level st) c) ->
  before next c -> can_enter next c.
Proof.
  intros Hl Hst Hd H7 Hin Hup Hun Hnc Hb. split; [done| | | |done].
  - by rewrite Hl.
  - intros Hle _. apply Hun; [by rewrite <- Hl|done].
  - intros _ Hle. by apply Hnc.
Qed.

Lemma can_enter_next st next c P :
  stages me !! level st = Some P -> level next = S (level st) -> st <> StepDone -> next <> StepDone ->
  has_input c -> upto me (level st) c -> not_selected_yet st c -> (st <> StepDone -> no_cores_yet (level st) c) ->
  P c -> before next c -> can_enter next c.
Proof.
  intros HP Hl Hst Hd Hin Hup Hun Hnc HPc Hb. split; [done| | | |done].
  - rewrite Hl. by eapply upto_S.
  - intros Hle _. rewrite Hl in Hle. apply Hun; [lia|done].
  - intros _ Hle. apply Hnc; [done|]. lia.
Qed.

Lemma answer_core data :
  spec (at_step StepSetupDisputeCore) (close_setup_core_req data) (several_post StepSetupDisputeCore StepRequestDisputeChannelVars).
Proof.
  unfold close_setup_core_req. destruct data; try by (apply spec_bail; eauto). apply spec_get_ctx. intros c. cbn zeta.
  apply answer_some; [done..|]. intros Hc. match goal with |- context [set_setup_core_req ?l] => set (reqs := l) end.
  assert (He : for_committee (fun d c => (setup_core_req c).*1 = expected_cores d) (set_setup_core_req reqs c)).
  { intros d Hd. etrans; [exact (closed_fst (fun x : bytes * Z => bool_decide (x.1 = id)) _)|by apply Hc]. }
  assert (Hr : reached StepSetupDisputeCore (set_setup_core_req reqs c)).
  { destruct Hc. split; try done. intros _ Hle. cbn in Hle. lia. }
  split; [done|]. intros Hmiss. destruct Hr. apply (can_enter_next StepSetupDisputeCore _ _ cores_done); [done..| |done]. intros d Hd. apply all_answered; [by apply He|done].
Qed.

Lemma answer_channels data :
  spec (at_step StepDisputeChannelSetup) (close_setup_channel_req setup_channel_setup_req set_setup_channel_setup_req data)
    (several_post StepDisputeChannelSetup StepFullPenalizationSetup).
Proof.
  unfold close_setup_channel_req. destruct data; try by (apply spec_bail; eauto). apply spec_get_ctx. intros c. cbn zeta.
  apply answer_some; [done..|]. intros Hc. match goal with |- context [set_setup_channel_setup_req ?l] => set (reqs := l) end.
  assert (He : for_committee (fun d c => (setup_channel_setup_req c).*1 = expected_channels me d) (set_setup_channel_setup_req reqs c)).
  { intros d Hd. etrans; [exact (closed_fst (fun x : bytes => bool_decide (x = id)) _)|by apply Hc]. }
  assert (Hr : reached StepDisputeChannelSetup (set_setup_channel_setup_req reqs c)) by (destruct Hc; by split).
  split; [done|]. intros Hmiss. destruct Hr. apply (can_enter_next StepDisputeChannelSetup _ _ (channels_done me)); [done..| |done]. intros d Hd. apply all_answered; [by apply He|done].
Qed.

Lemma answer_penalization data :
  spec (at_step StepFullPenalizationSetup)
    (close_setup_channel_req setup_full_penalization_req set_setup_full_penalization_req data)
    (several_post StepFullPenalizationSetup StepDepositAggregatedKey).
Proof.
  unfold close_setup_channel_req. destruct data; try by (apply spec_bail; eauto). apply spec_get_ctx. intros c. cbn zeta.
  apply answer_some; [done..|]. intros Hc. match goal with |- context [set_setup_full_penalization_req ?l] => set (reqs := l) end.
  assert (He : for_committee (fun d c => (setup_full_penalization_req c).*1 = [full_penalization_protocol_id (committee_uuid d)])
                 (set_setup_full_penalization_req reqs c)).
  { intros d Hd. etrans; [exact (closed_fst (fun x : bytes => bool_decide (x = id)) _)|by apply Hc]. }
  assert (Hr : reached StepFullPenalizationSetup (set_setup_full_penalization_req reqs c)) by (destruct Hc; by split).
  split; [done|]. intros Hmiss. destruct Hr. apply (can_enter_next StepFullPenalizationSetup _ _ penalization_done); [done..| |done]. intros d Hd. cbn.
  apply (all_answered _ [_]); [by apply He|done].
Qed.

Lemma fill_request_skeleton pid f l :
  (forall r, var_skeleton (f r) = var_skeleton r) -> var_skeleton <$> fill_request pid f l = var_skeleton <$> l.
Proof. intros Hf. induction l as [|r l IH]; cbn; [done|]. case_bool_decide; cbn; [by rewrite Hf|by rewrite IH]. Qed.

Lemma fill_vars pid f c :
  (forall r, var_skeleton (f r) = var_skeleton r) ->
  spec (fun s v => at_step StepRequestDisputeChannelVars s v /\ ctx s = c)
    (set_ctx (set_setup_channel_req (fill_request pid f (setup_channel_req c)))) (fun _ => at_step StepRequestDisputeChannelVars).
Proof.
  intros Hf. apply spec_set_ctx. intros s v [[(Hok & Hid & Hv) Hst] <-]. split; [|done]. split_and!; [|done..].
  destruct (at_reached StepRequestDisputeChannelVars s ltac:(done) Hok Hst).
  apply (reached_ok StepRequestDisputeChannelVars); [done| |done]. split; try done.
  intros d Hd. cbn. rewrite (fill_request_skeleton _ _ _ Hf). by apply rc_entered0.
Qed.

Lemma answer_vars pid name json :
  spec (at_step StepRequestDisputeChannelVars) (process_dispute_core_variable pid name json)
    (several_post StepRequestDisputeChannelVars StepDisputeChannelSetup).
Proof.
  unfold process_dispute_core_variable. apply spec_get_ctx. intros c.
  assert (HF : forall s v, at_step StepRequestDisputeChannelVars s v /\ ctx s = c -> failing s v) by (intros s1 v1 [? _]; eauto).
  apply spec_if; intros _; [by apply spec_bail|].
  eapply spec_bind with (Q := fun _ => at_step StepRequestDisputeChannelVars).
  { apply spec_if; intros _; [apply spec_need; [done|intros u _]; by apply fill_vars|].
    apply spec_if; intros _; [apply spec_need; [done|intros u _]; by apply fill_vars|].
    by intros w []. }
  intros []. apply spec_get_ctx. intros c1. eapply spec_pre; [|apply spec_ret].
  intros s v [Hs <-]. split; [done|]. intros Hmiss. destruct Hs as [(Hok & Hid & Hv) Hst].
  pose proof (at_reached StepRequestDisputeChannelVars s ltac:(done) Hok Hst) as [].
  apply (can_enter_next StepRequestDisputeChannelVars _ _ (vars_done me)); [done..| |done]. intros d Hd.
  split; [by apply rc_entered0|].
  clear -Hmiss. induction (setup_channel_req (ctx s)) as [|r l IH]; [done|]. cbn in Hmiss.
  apply orb_false_iff in Hmiss as [[Ho Hw]%orb_false_iff Hl]. apply bool_decide_eq_false in Ho, Hw. constructor; auto.
Qed.

(** The key of a pair, closed and then filed *)
Definition with_pair_key (id : bytes) (key : PublicKey) (r : PairwiseKeyReq) : PairwiseKeyReq :=
  if bool_decide (pw_id r = id)
  then mkPairwiseKeyReq (pw_id r) (pw_my_index r) (pw_partner_index r) (pw_participants r) (Some key) else r.

Definition closing (c : FlowContext) (s : State) (v : option State) : Prop :=
  reached StepSetupPairwiseKeys c /\ step s = StepSetupPairwiseKeys /\ flow_id s = fid /\ saved_ok v.

Lemma with_pair_key_same id key r : pair_skeleton (with_pair_key id key r) = pair_skeleton r /\ pw_id (with_pair_key id key r) = pw_id r.
Proof. unfold with_pair_key. by case_bool_decide. Qed.

Lemma filed_after c id key m l a :
  filed_keys c -> m ∈ with_pair_key id key <$> pairwise_keys_req c -> pw_id m = id ->
  communication_data_ready_ev c = Some l -> l !! pw_partner_index m = Some a ->
  filed_keys (set_pairwise_keys (<[comms_to_json a := key]> (pairwise_keys c))
                (set_pairwise_keys_req (with_pair_key id key <$> pairwise_keys_req c) c)).
Proof.
  intros Hfiled Hm Hid Hl Ha r Hr Hkey. cbn in Hr. apply list_elem_of_fmap in Hr as (r0 & -> & Hr0).
  destruct (decide (pw_id r0 = id)) as [Heq|Hne].
  - exists m, l, a. split_and!; [done| |done|done|].
    + by rewrite (proj2 (with_pair_key_same _ _ _)), Heq.
    + cbn. rewrite lookup_insert_eq. by eexists.
  - assert (Hw : with_pair_key id key r0 = r0) by (unfold with_pair_key; by rewrite bool_decide_false).
    rewrite Hw in Hkey |- *. destruct (Hfiled r0 Hr0 Hkey) as (r' & l' & a' & Hr' & Hid' & Hl' & Ha' & Hk').
    exists r', l', a'. split_and!; [|done..|].
    + cbn. apply list_elem_of_fmap. exists r'. split; [|done]. unfold with_pair_key. by rewrite bool_decide_false by congruence.
    + cbn. destruct (decide (comms_to_json a' = comms_to_json a)) as [->|].
      * rewrite lookup_insert_eq. by eexists.
      * by rewrite lookup_insert_ne.
Qed.

Definition pair_closed (id : bytes) (key : PublicKey) (missing : bool) (pidx : nat) (s : State) (v : option State) : Prop :=
  exists c m, closing c s v /\
    ctx s = set_pairwise_keys_req (with_pair_key id key <$> pairwise_keys_req c) c /\
    m ∈ with_pair_key id key <$> pairwise_keys_req c /\ pw_id m = id /\ pw_partner_index m = pidx /\
    missing = existsb (fun r => bool_decide (pw_key r = None)) (with_pair_key id key <$> pairwise_keys_req c).

Lemma pair_closed_failing id key missing pidx s v : pair_closed id key missing pidx s v -> failing s v.
Proof. intros (c & m & (Hc & _ & Hid & Hv) & Hs & _). split_and!; [|done..]. rewrite Hs. apply Hc. Qed.

Lemma close_pairwise_spec id key :
  spec (at_step StepSetupPairwiseKeys) (close_pairwise_key_req id key)
    (fun r => pair_closed id key r.1.1 r.2).
Proof.
  intros w [(Hok & Hid & Hv) Hst]. unfold close_pairwise_key_req, get_ctx, mbind, SR_bind. cbn.
  fold (with_pair_key id key). destruct (last _) as [m|] eqn:Hm; cbn.
  - exists (ctx (state w)), m. apply last_Some_elem_of, list_elem_of_filter in Hm as [Hmid Hm].
    split_and!; try done. split_and!; [by apply at_reached|done..].
  - split_and!; [apply Hok|done..].
Qed.

Lemma pair_filed id key missing pidx l a c s v :
  pair_closed id key missing pidx s v -> ctx s = c -> communication_data_ready_ev c = Some l -> l !! pidx = Some a ->
  several_post StepSetupPairwiseKeys StepSetupDisputeCore missing
    (mkState (flow_id s) (step s) (set_pairwise_keys (<[comms_to_json a := key]> (pairwise_keys c)) c) (created_at s)) v.
Proof.
  intros (c0 & m & (Hc & Hst & Hid & Hv) & Hs & Hm & Hmid & Hidx & Hmiss) <- Hl Ha. rewrite Hs in Hl |- *. cbn in Hl.
  match goal with |- context [set_pairwise_keys ?k ?x] => set (c' := set_pairwise_keys k x) end.
  assert (He : for_committee (fun d c => pair_skeleton <$> pairwise_keys_req c = expected_pairs me d /\ filed_keys c) c').
  { intros d' Hd'. destruct (rc_entered _ _ Hc d' Hd') as [Hsk Hf]. split.
    - rewrite <- Hsk. cbn. rewrite <- list_fmap_compose. apply list_fmap_ext. intros _ r _. apply with_pair_key_same.
    - apply (filed_after c0 id key m l a); [done..|]. by rewrite Hidx. }
  assert (Hr : reached StepSetupPairwiseKeys c') by (destruct Hc; by split).
  split; [split; [|done]; split_and!; [by apply (reached_ok StepSetupPairwiseKeys)|done..]|].
  intros Hnone. destruct Hr. apply (can_enter_next StepSetupPairwiseKeys _ _ (pairs_done me)); [done..| |done].
  intros d' Hd'. destruct (He d' Hd'). split_and!; [done..|]. cbn. rewrite Hnone in Hmiss. clear -Hmiss.
  induction (with_pair_key id key <$> pairwise_keys_req c0) as [|r rs IH]; [done|]. cbn in Hmiss.
  symmetry in Hmiss. apply orb_false_iff in Hmiss as [Hk%bool_decide_eq_false Hrs]. constructor; auto.
Qed.

Lemma answer_pairs data :
  spec (at_step StepSetupPairwiseKeys) (process_pairwise_key_response data)
    (several_post StepSetupPairwiseKeys StepSetupDisputeCore).
Proof.
  unfold process_pairwise_key_response. destruct data as [| | | |id key| | | | | | |]; try by (apply spec_bail; eauto).
  eapply spec_bind; [apply close_pairwise_spec|]. intros [[missing i] pidx]. cbn [fst snd].
  pose proof (pair_closed_failing id key missing pidx) as HF.
  eapply spec_bind with (Q := fun l s v => pair_closed id key missing pidx s v /\ communication_data_ready_ev (ctx s) = Some l).
  { unfold get_my_communication_data. apply spec_get_ctx. intros c w [Hw Hc].
    destruct (communication_data_ready_ev c) as [l|] eqn:Hl; [|by apply HF in Hw]. cbn. by rewrite Hc. }
  intros l. apply spec_need; [intros s v [? _]; eauto|]. intros a Ha. apply spec_get_ctx. intros c.
  eapply spec_bind with (Q := fun _ => several_post StepSetupPairwiseKeys StepSetupDisputeCore missing).
  { apply spec_set_ctx. intros s v [[Hp Hl] <-]. by eapply pair_filed. }
  intros []. apply spec_committee; [intros s v [? _]; eauto|]. intros d.
  apply firm_pre; [be_firm|intros s v [[? _] _]; eauto|]. intros []. by intros w [].
Qed.

(** The committee that was announced *)
Lemma im_selected_result e w b w' :
  im_selected_to_new_committee e w = (Ok b, w') ->
  b = existsb (fun m => bool_decide (memberAddress m = me)) (rc_members (nc_committee e)).
Proof.
  unfold im_selected_to_new_committee, global_context, mbind, SR_bind. cbn. destruct (im_member _ _); [done|].
  by intros [= <- <-].
Qed.

Definition announced (e : EventWithBlock NewCommitteePayload) (s : State) (v : option State) : Prop :=
  reached StepApplyToStream (ctx s) /\ committee_pending_ev (ctx s) = Some e /\ flow_id s = fid /\ saved_ok v.

Lemma announced_failing e s v : announced e s v -> failing s v.
Proof. intros (Hr & _ & ? & ?). split_and!; [apply Hr|done..]. Qed.

Lemma update_my_committees_spec e : spec (at_step StepApplyToStream) (update_my_committees e) (fun _ => announced e).
Proof.
  unfold update_my_committees. pose proof (announced_failing e) as HF.
  eapply spec_bind with (Q := fun _ s v => reached StepApplyToStream (set_committee_data None (ctx s)) /\
    committee_pending_ev (ctx s) = Some e /\ flow_id s = fid /\ saved_ok v).
  { apply spec_set_ctx. intros s v [(Hok & Hid & Hv) Hst]. split_and!; [|done..].
    destruct (at_reached StepApplyToStream s ltac:(done) Hok Hst). by split. }
  intros []. eapply spec_bind with (Q := fun _ => announced e); [by apply spec_set_ctx|].
  intros []. apply firm_pre; [be_firm|done|]. intros input. eapply spec_weaken; [apply spec_firm with (P := announced e)|done..].
  - be_firm.
  - done.
  - by intros s v (_ & _ & _ & ?).
Qed.

Lemma build_committee_data_spec e :
  existsb (fun m => bool_decide (memberAddress m = me)) (rc_members (nc_committee (ev_inner e))) = true ->
  spec (announced e) build_committee_data (fun _ => enabled StepDepositP2PDataAuthoritativeCheckpoint).
Proof.
  intros Hmine. unfold build_committee_data. pose proof (announced_failing e) as HF. apply spec_get_ctx. intros c.
  apply spec_need; [intros s v [? _]; eauto|]. intros e' He'. cbn zeta.
  eapply spec_bind; [apply spec_run; [be_firm|intros s v [? _]; eauto]|]. intros ms. apply spec_set_ctx.
  intros s v [[(Hr & He & Hid & Hv) <-] (w & w' & Hw & Hms)]. simplify_eq. split_and!; [|done..].
  apply build_members_result in Hms as (Ha & Hroles & Hidx). destruct Hr. split; [done| |intros Hle; cbn in Hle; lia| |done].
  - cbn [level]. apply (upto_S 3 (selected me)); [done..|]. eexists _, _. split; [done|]. split; [done|].
    split; try done. cbn. rewrite Ha. apply existsb_exists in Hmine as (m & Hm & <-%bool_decide_eq_true).
    apply list_elem_of_In in Hm. by apply (list_elem_of_fmap_2 memberAddress).
  - intros _ _. apply rc_no_cores0; [done|]. cbn. lia.
Qed.

(** The answers one by one *)
Lemma answer_balance data :
  spec (at_step StepValidateBalances) (validate_bitvmx_balance bitcoin_network data) (fun _ => enabled StepGetMyCommInfo).
Proof.
  unfold validate_bitvmx_balance. destruct data as [|balance| | | | | | | | | |]; try by (apply spec_bail; eauto).
  do 5 (apply firm_pre; [be_firm|eauto|intros ?]).
  apply spec_get_ctx. intros c. apply spec_need; [intros s v [? _]; eauto|]. intros r Hr.
  eapply spec_bind with (Q := fun _ => enabled StepGetMyCommInfo).
  - eapply spec_pre; [|apply (answer StepValidateBalances) with (P := fun _ => True)]; [by intros s v []|done|].
    intros c' [] _. apply (can_enter_same StepValidateBalances); try done. cbn. lia.
  - intros []. apply spec_if; intros _; [apply spec_bail; eauto|]. by intros w.
Qed.

Lemma answer_funds data :
  spec (at_step StepFundMyBitVmxAccount) (close_send_funds_req data) (fun _ => enabled StepApplyToStream).
Proof.
  unfold close_send_funds_req. destruct data as [| | | | | | |txid| | | |]; try by (apply spec_bail; eauto).
  apply spec_get_ctx. intros c. destruct (send_funds_req c) as [r|] eqn:Hr; [|apply spec_bail; intros s v [? _]; eauto].
  apply answer with (P := fun c' => c' = c); [done|]. intros c' [] _.
  apply (can_enter_next StepFundMyBitVmxAccount _ _ has_funds); [done..|by eexists _, _|done].
Qed.

Lemma answer_addresses :
  spec (at_step StepDepositP2PDataAuthoritativeCheckpoint) close_communication_data_step
    (fun _ => enabled StepSetupTakeAggregatedKeyAllConvergeCheckpoint).
Proof.
  unfold close_communication_data_step. eapply spec_bind; [apply spec_run; [be_firm|eauto]|]. intros l.
  apply spec_set_ctx. intros s v [[(Hok & Hid & Hv) Hst] (w & w' & Hw & Hl)]. split_and!; [|done..].
  destruct (at_reached StepDepositP2PDataAuthoritativeCheckpoint s ltac:(done) Hok Hst).
  apply (can_enter_next StepDepositP2PDataAuthoritativeCheckpoint _ _ has_addresses); try done.
  intros d Hd. exists l. split; [done|]. eapply build_my_communication_data_result; [|done]. by rewrite Hw.
Qed.

Lemma ready_noted e :
  spec (at_step StepDepositAggregatedKey) (set_ctx (set_committee_ready_req (Some e))) (fun _ => at_step StepDepositAggregatedKey).
Proof.
  apply spec_set_ctx. intros s v [(Hok & Hid & Hv) Hst]. split; [|done]. split_and!; [|done..].
  destruct (at_reached StepDepositAggregatedKey s ltac:(done) Hok Hst). by apply (reached_ok StepDepositAggregatedKey).
Qed.

Lemma answer_ready : spec (at_step StepDepositAggregatedKey) validate_committee_ready (fun _ => enabled StepDone).
Proof.
  eapply spec_weaken; [apply spec_run with (P := at_step StepDepositAggregatedKey); [be_firm|eauto]|done|].
  intros [] s v [[(Hok & Hid & Hv) Hst] (w & w' & <- & Hw)]. split_and!; [|done..].
  destruct (at_reached StepDepositAggregatedKey (state w) ltac:(done) Hok Hst). split; [done| |by intros _ ?|by intros ?|].
  - destruct rc_upto0 as (? & ? & ? & _). by split_and!.
  - right. split; [done|]. unfold validate_committee_ready in Hw. apply SR_bind_ok in Hw as (c & w1 & Hc & Hw).
    injection Hc as <- <-. apply SR_bind_ok in Hw as (e' & w2 & He & Hw).
    destruct (committee_ready_req (ctx (state w))) as [e''|] eqn:Hre; [|done]. injection He as -> <-.
    apply SR_bind_ok in Hw as (d & w3 & Hd & Hw).
    destruct (committee_data (ctx (state w))) as [d'|] eqn:Hcd.
    + rewrite (get_committee_data_run _ _ Hcd) in Hd. injection Hd as -> <-. exists d, e'. split_and!; [done..|].
      by destruct (committee_matches d (ev_inner e')).
    + unfold get_committee_data, get_ctx, mbind, SR_bind in Hd. cbn in Hd. by rewrite Hcd in Hd.
Qed.

Lemma answer_comm_info addr :
  spec (at_step StepGetMyCommInfo)
    (_ ← set_ctx (set_my_comm_info (Some addr));
     _ ← set_ctx (set_comm_info_req_id None);
     k ← global_context;
     if is_set k then starting StepFundMyBitVmxAccount else starting StepGetMyTakeKey) (fun _ => flow_ok).
Proof.
  set (both := fun s v => enabled StepFundMyBitVmxAccount s v /\ enabled StepGetMyTakeKey s v).
  eapply spec_bind with (Q := fun _ => both).
  { apply spec_set_ctx. intros s v [(Hok & Hid & Hv) Hst].
    destruct (at_reached StepGetMyCommInfo s ltac:(done) Hok Hst).
    split; (split_and!; [|done..]); (apply (can_enter_next StepGetMyCommInfo _ _ has_comm_info); try done; by eexists). }
  intros []. eapply spec_bind with (Q := fun _ => both).
  { apply spec_set_ctx. intros s v [([] & Hid & Hv) ([] & _ & _)]. by split; (split_and!; [|done..]); split. }
  intros []. apply firm_pre; [be_firm|intros s v [? _]; eauto|]. intros k.
  apply spec_if; intros _; (eapply spec_pre; [|by apply start_ok]); by intros s v [].
Qed.

Lemma answer_pending e :
  spec (at_step StepApplyToStream)
    (im_selected ← im_selected_to_new_committee (ev_inner e);
     if (im_selected : bool) then
       _ ← update_my_committees e;
       _ ← build_committee_data;
       starting StepDepositP2PDataAuthoritativeCheckpoint
     else starting StepDone) (fun _ => flow_ok).
Proof.
  eapply spec_bind; [apply spec_run; [be_firm|eauto]|]. intros b.
  apply spec_state. intros s0. apply spec_if; intros ->.
  - intros w [[Hat (w0 & w1 & _ & Hr)] _]. apply im_selected_result in Hr. revert w Hat.
    change (spec (at_step StepApplyToStream) (_ ← update_my_committees e; _ ← build_committee_data;
      starting StepDepositP2PDataAuthoritativeCheckpoint) (fun _ => flow_ok)).
    eapply spec_bind; [apply update_my_committees_spec|]. intros [].
    eapply spec_bind; [by apply build_committee_data_spec|]. intros []. by apply start_ok.
  - eapply spec_pre; [|by apply start_ok]. intros s v [[[(Hok & Hid & Hv) Hst] _] _]. split_and!; [|done..].
    destruct (at_reached StepApplyToStream s ltac:(done) Hok Hst). split; try done; [by intros _ ?|].
    left. by apply rc_unselected0.
Qed.

Ltac next_key st := let Hc := fresh "Hc" in let He := fresh "He" in
  intros ??? Hc ?; pose proof (rc_entered _ _ Hc) as He; cbn in He; destruct_and?; destruct Hc;
  apply (can_enter_same st); [done..|cbn; lia|done|done|done|done|cbn; split_and?; try done; by eexists _, _].

Lemma complete_ok data st : st <> StepInit -> spec (at_step st) (completing data) (fun _ => flow_ok).
Proof.
  intros Hinit.
  assert (Hbail : forall msg, spec (at_step st) (flow_bail msg) (fun _ : unit => flow_ok)) by (intros; apply spec_bail; eauto).
  assert (Hpanic : forall msg, spec (at_step st) (sfail (FlowPanic msg)) (fun _ : unit => flow_ok)).
  { intros; apply spec_panic. intros s v [? _]. auto. }
  intros w Hw. pose proof Hw as [_ Hst]. unfold complete_step.
  rewrite SR_bind_run with (a := w) (s' := w) by done. rewrite Hst. clear Hst. revert w Hw.
  match goal with |- forall w, _ -> match (?m w) with _ => _ end => change (spec (at_step st) m (fun _ => flow_ok)) end.
  destruct st; try done; try apply Hpanic.
  - apply answered; [done..|apply answer_balance].
  - destruct data; try apply Hbail. apply answer_comm_info.
  - apply answered; [done..|apply answer_pub_key; [done|]]. next_key StepGetMyTakeKey.
  - apply answered; [done..|apply answer_pub_key_signing; [done|]]. next_key StepSignMyTakeKey.
  - apply answered; [done..|apply answer_pub_key; [done|]]. next_key StepGetMyDisputeKey.
  - apply answered; [done..|apply answer_pub_key_signing; [done|]]. next_key StepSignMyDisputeKey.
  - apply answered; [done..|apply answer_pub_key; [done|]]. next_key StepGetMyCommKey.
  - apply answered; [done..|apply answer_pub_key_signing; [done|]]. next_key StepSignMyCommKey.
  - apply answered; [done..|apply answer_funds].
  - destruct data; try apply Hbail. apply answer_pending.
  - destruct data; try apply Hbail. apply answered; [done..|apply answer_addresses].
  - apply answered; [done..|apply answer_agg_key; [done|]]. intros r k c [] Hr.
    apply (can_enter_next StepSetupTakeAggregatedKeyAllConvergeCheckpoint _ _ has_take_key); [done..| |done].
    intros d Hd. destruct (rc_entered0 d Hd) as [o Ho]. rewrite Hr in Ho. injection Ho as ->. by eexists.
  - apply answered; [done..|apply answer_agg_key; [done|]]. intros r k c [] Hr.
    apply (can_enter_next StepSetupDisputeAggregatedKey _ _ has_dispute_key); [done..| |done].
    intros d Hd. destruct (rc_entered0 d Hd) as [o Ho]. rewrite Hr in Ho. injection Ho as ->. by eexists.
  - eapply spec_bind; [apply answer_pairs|]. intros missing. by apply several.
  - eapply spec_bind; [apply answer_core|]. intros missing. by apply several.
  - destruct data; try apply Hbail. eapply spec_bind; [apply answer_vars|]. intros missing. by apply several.
  - eapply spec_bind; [apply answer_channels|]. intros missing. by apply several.
  - eapply spec_bind; [apply answer_penalization|]. intros missing. by apply several.
  - destruct data; try apply Hbail. eapply spec_bind; [apply ready_noted|]. intros [].
    eapply spec_bind; [apply answer_ready|]. intros []. by apply start_ok.
Qed.

Definition holds (P : assertion) (w : W) : Prop := P (state w) (saved w).

(** A failed flow is saved as such; an error of the store is only logged. *)
Lemma mark_failed_ok w : holds failing w -> holds flow_ok (mark_failed w).2 /\ forall msg, (mark_failed w).1 <> Err (FlowPanic msg).
Proof.
  intros (Hin & Hid & Hv). unfold mark_failed, set_step, update_state, persist_state, in_context, persist_with.
  unfold on_env, zoom, with_message, mbind, SR_bind, sget, smodify, id. cbn.
  set (s := mkState _ _ _ _). assert (Hok : state_ok me s) by (by split).
  destruct (save_flow s (env w).2) as [[a|y] g]; cbn; (split; [|done]); split_and!; try done. by intros s' [= <-].
Qed.

Lemma fail_ok w : holds failing w -> fail w = (Ok tt, (fail w).2) /\ holds flow_ok (fail w).2.
Proof.
  intros Hw. destruct (mark_failed_ok w Hw) as [Hok Hno]. unfold fail, catch, mbind, SR_bind, mret, SR_ret.
  destruct (mark_failed w) as [[a|[causes|msg]] w']; cbn in *; [done..|]. by destruct (Hno msg).
Qed.

(** The first answer is the user's request. *)
Definition fresh_flow (s : State) (v : option State) : Prop :=
  step s = StepInit /\ ctx s = default_context /\ flow_id s = fid /\ saved_ok v.

Lemma begin_spec input : spec fresh_flow (completing (DataUserRequest input)) (fun _ => flow_ok).
Proof.
  intros w Hw. pose proof Hw as (Hst & _). unfold complete_step.
  rewrite SR_bind_run with (a := w) (s' := w) by done. rewrite Hst. clear Hst. revert w Hw.
  match goal with |- forall w, _ -> match (?m w) with _ => _ end => change (spec fresh_flow m (fun _ => flow_ok)) end.
  eapply spec_bind with (Q := fun _ => enabled StepValidateBalances).
  - apply spec_set_ctx. intros s v (_ & Hc & Hid & Hv). rewrite Hc. split_and!; [|done..].
    split; [by eexists|split; [by eexists|done]|done..].
  - intros []. apply firm_pre; [be_firm|eauto|]. intros []. by apply start_ok.
Qed.

(** A step of a flow comes to rest, unless the process panics. *)
Definition lands (r : result FlowError unit * W) : Prop :=
  match r.1 with
  | Ok _ => holds flow_ok r.2
  | Err (FlowPanic _) => saved_ok (saved r.2)
  | Err (Chain _) => False
  end.

Lemma continue_lands data P w :
  spec P (completing data) (fun _ => flow_ok) -> holds P w ->
  lands (continue_flow bitcoin_network drp_program_definition btc_confirmations data w).
Proof.
  intros Hspec Hw. specialize (Hspec w Hw). unfold lands, continue_flow, catch. unfold mbind, SR_bind.
  destruct (completing data w) as [[a|[causes|msg]] w'] eqn:Hr; [done| |done].
  destruct (is_transient causes); [done|]. destruct (fail_ok w' Hspec) as [-> Hok]. done.
Qed.

Lemma continue_ok data w :
  holds flow_ok w -> lands (continue_flow bitcoin_network drp_program_definition btc_confirmations data w).
Proof.
  intros Hw. apply (continue_lands _ (at_step (step (state w)))); [|done]. apply complete_ok.
  intros Hi. destruct Hw as ([] & _). by rewrite Hi in so_entered0.
Qed.

Lemma begin_ok input now w :
  state w = new_flow fid now -> saved_ok (saved w) ->
  lands (continue_flow bitcoin_network drp_program_definition btc_confirmations (DataUserRequest input) w).
Proof.
  intros Hs Hv. apply (continue_lands _ fresh_flow); [apply begin_spec|]. unfold holds, fresh_flow. by rewrite Hs.
Qed.

End Kept.

(** ** Calls of contracts

    [A] is what is allowed to happen; whatever is no call of a contract is. *)

Section Calls.
Context `{FlowCodecs, !CommitteeCodecs, Keccak, Sha256, !EnvVars G, !BitvmxBroker G, !CommitteeServices G,
  !SetupServices G} (bitcoin_network : Network) (drp_program_definition : string) (btc_confirmations : Z)
  (A : Effect -> Prop) (A_uncalled : forall x, uncalled x -> A x).
Abbreviation W := (Flow.World State (Env G) Effect).
Abbreviation starting := (start_step bitcoin_network drp_program_definition btc_confirmations).
Abbreviation completing := (complete_step bitcoin_network drp_program_definition btc_confirmations).
#[local] Abbreviation calm := (adds (S := State) (E := Env G) A).

(** The calls of a step *)
Definition allowed (next : Steps) : Prop :=
  match next with
  | StepApplyToStream => forall i, A (Called (CallApplyToStream i))
  | StepDepositP2PDataAuthoritativeCheckpoint => forall i d, A (Called (CallDepositCommunicationData i d))
  | StepDepositAggregatedKey => forall i k, A (Called (CallDepositAggregatedKey i k))
  | _ => True
  end.

Lemma calm_firm {B} (m : SR W FlowError B) : firm m -> calm m.
Proof.
  intros [_ _ Hm] w. destruct (Hm w) as (l & Hl & Hf). exists l. split; [done|].
  eapply Forall_impl; [exact Hf|]. apply A_uncalled.
Qed.
Lemma calm_set_ctx f : calm (set_ctx f : SR W FlowError unit).
Proof. by apply adds_nothing. Qed.
Lemma calm_set_step st : calm (set_step st : SR W FlowError unit).
Proof. by apply adds_nothing. Qed.
Lemma calm_persist : calm (persist_state : SR W FlowError unit).
Proof. apply adds_in_context, adds_persist. Qed.
Lemma calm_tolerate f c : A (Called c) -> calm (tolerate f (call c) : SR W FlowError unit).
Proof.
  intros Hc. apply adds_map_err. assert (Hk : calm (call c)) by (by apply adds_call).
  intros w. specialize (Hk w). destruct (call c w) as [[a|e] w']; [done|]. by destruct (f e).
Qed.

Ltac calm :=
  lazymatch goal with
  | |- adds _ (_ ≫= _) => apply adds_bind; [calm|intros ?; calm]
  | |- adds _ (or_transient _) => apply adds_or_transient; calm
  | |- adds _ (set_ctx _) => apply calm_set_ctx
  | |- adds _ (set_step _) => apply calm_set_step
  | |- adds _ persist_state => apply calm_persist
  | |- adds _ (tolerate _ _) => apply calm_tolerate; auto
  | |- adds _ (if _ then _ else _) => apply adds_if; calm
  | |- adds _ (match ?x with _ => _ end) => destruct x; calm
  | |- adds _ (start_step _ _ _ _) => match goal with H : _ |- _ => apply H; solve [done|eauto] end
  | |- adds _ (when_complete _ _ _ _ _ _) => match goal with H : _ |- _ => apply H; solve [done|eauto] end
  | |- _ => apply calm_firm; be_firm
  end.

Lemma calm_entry next : allowed next -> calm (entry_action bitcoin_network drp_program_definition btc_confirmations next).
Proof.
  intros Hne. destruct next; cbn [entry_action]; cbn in Hne;
    unfold request_bitvmx_funding_balance, request_bitvmx_comm_info, without_keys, request_pub_key,
      request_bitvmx_key_signing, fund_protocol, apply_to_stream, deposit_communication_data, deposit_aggregated_key,
      setup_aggregated_pubkey, setup_pairwise_keys, setup_dispute_core_protocol, request_dispute_core_vars,
      complete_dispute_channel_setup, complete_full_penalization_setup, validate_rsk_balance; cbn zeta; calm.
Qed.

Lemma calm_start next : allowed next -> calm (starting next).
Proof.
  intros Hne. apply adds_bind; [apply calm_set_step|intros _].
  apply adds_bind; [by apply calm_entry|intros _; apply calm_persist].
Qed.

Lemma calm_complete data w :
  (step (state w) = StepFundMyBitVmxAccount -> allowed StepApplyToStream) ->
  (step (state w) = StepApplyToStream -> (exists e, data = DataPendingCommittee e) ->
   allowed StepDepositP2PDataAuthoritativeCheckpoint) ->
  (step (state w) = StepFullPenalizationSetup -> allowed StepDepositAggregatedKey) ->
  exists l, trace (completing data w).2 = trace w ++ l /\ Forall A l.
Proof.
  intros Happly Hdata Hkey. unfold complete_step. rewrite SR_bind_run with (a := w) (s' := w) by done.
  assert (Hstart : forall next, allowed next -> calm (starting next)) by apply calm_start.
  match goal with |- exists l, trace (snd (?m w)) = _ /\ _ => assert (Hm : calm m); [|apply Hm] end.
  assert (Hseveral : forall b cur next, allowed next ->
    calm (when_complete bitcoin_network drp_program_definition btc_confirmations b cur next)).
  { intros b cur next Hn. unfold when_complete. apply adds_if; [apply calm_set_step|by apply Hstart]. }
  unfold validate_bitvmx_balance, close_pub_key_req, close_pub_key_signing_req, close_send_funds_req, update_my_committees,
    build_committee_data, close_communication_data_step, close_agg_key_req, process_pairwise_key_response,
    close_pairwise_key_req, close_setup_core_req, process_dispute_core_variable, close_setup_channel_req.
  destruct (step (state w)); cbn zeta; calm.
Qed.

End Calls.

(** ** The deposit of the aggregated key *)

Section Deposit.
Context `{FlowCodecs, !CommitteeCodecs, Keccak, Sha256, !EnvVars G, !BitvmxBroker G, !CommitteeServices G,
  !SetupServices G} (bitcoin_network : Network) (drp_program_definition : string) (btc_confirmations : Z) (fid : bytes).
Abbreviation W := (Flow.World State (Env G) Effect).
Abbreviation me := (my_address (E := G)).
Abbreviation starting := (start_step bitcoin_network drp_program_definition btc_confirmations).
Abbreviation completing := (complete_step bitcoin_network drp_program_definition btc_confirmations).

Definition undeposited (x : Effect) : Prop := match x with Called (CallDepositAggregatedKey _ _) => False | _ => True end.

Lemma uncalled_undeposited x : uncalled x -> undeposited x.
Proof. by destruct x. Qed.

(** What the deposit is made of *)
Definition deposit_of (c : FlowContext) (x : Effect) : Prop :=
  undeposited x \/
  exists d id k, committee_data c = Some d /\ agg_take_key_req c = Some (id, Some k) /\
    x = Called (CallDepositAggregatedKey (committee_id d) (public_key_to_bytes k)).

Lemma deposit_run w :
  ctx (state (deposit_aggregated_key w).2) = ctx (state w) /\
  exists l, trace (deposit_aggregated_key w).2 = trace w ++ l /\ Forall (deposit_of (ctx (state w))) l.
Proof.
  split; [by destruct (keeps_deposit_aggregated_key w) as [-> _]|].
  unfold deposit_aggregated_key, get_aggregated_take_key, get_committee_data, get_ctx, in_context, tolerate, map_err, call, call_with.
  unfold mbind, SR_bind, sget, mret, SR_ret. cbn.
  destruct (agg_take_key_req (ctx (state w))) as [[id [k|]]|] eqn:Hk; cbn; [|exists []; by rewrite app_nil_r..].
  destruct (committee_data (ctx (state w))) as [d|] eqn:Hd; cbn; [|exists []; by rewrite app_nil_r].
  destruct (zoom _ _ _ (env w)) as [[a|e] e']; cbn; [|destruct e; cbn];
    (eexists; split; [reflexivity|]; apply Forall_singleton; right; by eexists _, _, _).
Qed.

Lemma calm_deposit_of c l : Forall undeposited l -> Forall (deposit_of c) l.
Proof. intros Hl. eapply Forall_impl; [exact Hl|]. by left. Qed.

Lemma persist_ctx w : ctx (state (persist_state w).2) = ctx (state w) /\ trace (persist_state w).2 = trace w.
Proof.
  unfold persist_state, in_context, persist_with, on_env, mbind, SR_bind, sget, smodify. cbn.
  by destruct (zoom _ _ _ (env w)) as [[a|[causes|msg]] e'].
Qed.

Lemma deposit_start w :
  ctx (state (starting StepDepositAggregatedKey w).2) = ctx (state w) /\
  exists l, trace (starting StepDepositAggregatedKey w).2 = trace w ++ l /\ Forall (deposit_of (ctx (state w))) l.
Proof.
  unfold start_step, set_step, update_state. unfold mbind, SR_bind, smodify. cbn [entry_action].
  match goal with |- context [deposit_aggregated_key ?w1] => destruct (deposit_run w1) as [Hc Hl];
    destruct (deposit_aggregated_key w1) as [[a|x] w2]; cbn in Hc, Hl; [|done] end.
  destruct (persist_ctx w2) as [Hp Ht]. rewrite Ht. split; [by rewrite Hp|done].
Qed.

Lemma fail_ctx w : ctx (state (fail w).2) = ctx (state w) /\ trace (fail w).2 = trace w.
Proof.
  unfold fail, mark_failed, set_step, update_state, catch. unfold mbind, SR_bind, smodify, mret, SR_ret.
  match goal with |- context [persist_state ?w1] => destruct (persist_ctx w1) as [Hp Ht];
    destruct (persist_state w1) as [[a|[causes|msg]] w2] end; by cbn in *; rewrite Hp, Ht.
Qed.

(** A step of the flow that deposits the key *)
Lemma deposit_complete data w :
  holds (flow_ok fid) w -> 
  exists l, trace (completing data w).2 = trace w ++ l /\
    (Forall undeposited l \/
     step (state w) = StepFullPenalizationSetup /\ can_enter StepDepositAggregatedKey (ctx (state (completing data w).2)) /\
     Forall (deposit_of (ctx (state (completing data w).2))) l).
Proof.
  intros Hw. destruct (decide (step (state w) = StepFullPenalizationSetup)) as [Hst|Hne].
  2: { destruct (calm_complete bitcoin_network drp_program_definition btc_confirmations undeposited uncalled_undeposited data w)
         as (l & Hl & Hf); [done..|]. eauto. }
  unfold complete_step. rewrite SR_bind_run with (a := w) (s' := w) by done. rewrite Hst.
  pose proof (answer_penalization fid data w (conj Hw Hst)) as Ha.
  assert (Hc : adds undeposited (close_setup_channel_req setup_full_penalization_req set_setup_full_penalization_req data
    : SR W FlowError bool)).
  { unfold close_setup_channel_req. destruct data; try (apply calm_firm; [apply uncalled_undeposited|solve [be_firm]]). cbn zeta.
    apply adds_bind; [apply calm_firm; [apply uncalled_undeposited|be_firm]|intros c].
    apply adds_bind; [by apply adds_nothing|intros _; by apply adds_nothing]. }
  destruct (Hc w) as (l & Hl & Hf). unfold mbind, SR_bind.
  destruct (close_setup_channel_req _ _ data w) as [[missing|x] w1]; cbn in Hl; [|eauto].
  destruct Ha as [_ Hen]. unfold when_complete. destruct missing; [cbn; eauto|].
  destruct (deposit_start w1) as [Hctx (l' & Hl' & Hf')]. exists (l ++ l').
  rewrite Hl', Hl, app_assoc. split; [done|]. right. rewrite Hctx. split_and!; [done|by apply Hen|].
  apply Forall_app. split; [by apply calm_deposit_of|done].
Qed.

End Deposit.

(** ** Where the aggregated take key comes from

    [K] is what is known of the keys that the flow took for it. *)

Section Source.
Context `{FlowCodecs, !CommitteeCodecs, Keccak, Sha256, !EnvVars G, !BitvmxBroker G, !CommitteeServices G,
  !SetupServices G} (bitcoin_network : Network) (drp_program_definition : string) (btc_confirmations : Z)
  (K : PublicKey -> Prop).
Abbreviation W := (Flow.World State (Env G) Effect).
Abbreviation starting := (start_step bitcoin_network drp_program_definition btc_confirmations).
Abbreviation completing := (complete_step bitcoin_network drp_program_definition btc_confirmations).

Definition sourced (c : FlowContext) : Prop := forall id k, agg_take_key_req c = Some (id, Some k) -> K k.
Definition sourced_world (w : W) : Prop := sourced (ctx (state w)) /\ forall s, saved w = Some s -> sourced (ctx s).
Definition sourcing {A} (m : SR W FlowError A) : Prop := forall w, sourced_world w -> sourced_world (snd (m w)).

Lemma sourcing_bind {A B} (m : SR W FlowError A) (f : A -> SR W FlowError B) :
  sourcing m -> (forall a, sourcing (f a)) -> sourcing (m ≫= f).
Proof.
  intros Hm Hf w Hw. specialize (Hm w Hw). unfold mbind, SR_bind. destruct (m w) as [[a|x] w1]; [by apply Hf|done].
Qed.
Lemma sourcing_if {A} (b : bool) (m n : SR W FlowError A) : sourcing m -> sourcing n -> sourcing (if b then m else n).
Proof. by destruct b. Qed.
Lemma sourcing_keeps {Y A} (m : SR W Y A) conv : keeps m -> sourcing (map_err conv m).
Proof.
  intros Hm w Hw. destruct (Hm w) as [Hs Hv]. unfold map_err, sourced_world in *.
  destruct (m w) as [[] w']; cbn in *; by rewrite Hs, Hv.
Qed.
Lemma sourcing_firm {A} (m : SR W FlowError A) : firm m -> sourcing m.
Proof. intros [Hm _ _] w Hw. destruct (Hm w) as [Hs Hv]. unfold sourced_world. by rewrite Hs, Hv. Qed.
Lemma sourcing_set_ctx f : (forall c, sourced c -> sourced (f c)) -> sourcing (set_ctx f : SR W FlowError unit).
Proof. intros Hf w [Hs Hv]. split; [by apply Hf|done]. Qed.
Lemma sourcing_set_step st : sourcing (set_step st : SR W FlowError unit).
Proof. by intros w Hw. Qed.
Lemma sourcing_catch {A} (m : SR W FlowError A) : sourcing m -> sourcing (catch m).
Proof. intros Hm w Hw. specialize (Hm w Hw). unfold catch. by destruct (m w) as [[|[]]]. Qed.
Lemma sourcing_or_transient {A} (m : SR W FlowError A) : sourcing m -> sourcing (or_transient m).
Proof. intros Hm w Hw. specialize (Hm w Hw). unfold or_transient. by destruct (m w) as [[|[]]]. Qed.
Lemma sourcing_persist : sourcing (persist_state : SR W FlowError unit).
Proof.
  intros w [Hs Hv]. unfold persist_state, in_context, persist_with, on_env, mbind, SR_bind, sget, smodify. cbn.
  destruct (zoom _ _ _ (env w)) as [[a|[causes|msg]] e']; (split; [done|]); cbn; [by intros s [= <-]|done..].
Qed.
Lemma sourcing_tolerate f c : sourcing (tolerate f (call c) : SR W FlowError unit).
Proof.
  apply sourcing_keeps. intros w. assert (Hk : keeps (call c : SR W DomainErrors unit)) by (unfold call; keep).
  destruct (Hk w) as [Hs Hv]. destruct (call c w) as [[a|e] w']; [done|]. by destruct (f e).
Qed.

Ltac source :=
  lazymatch goal with
  | |- sourcing (_ ≫= _) => apply sourcing_bind; [source|intros ?; source]
  | |- sourcing (or_transient _) => apply sourcing_or_transient; source
  | |- sourcing (set_ctx _) => apply sourcing_set_ctx; solve [by intros c Hc|intros c _ ? ? Heq; cbn in Heq; simplify_eq; by eauto]
  | |- sourcing (set_step _) => apply sourcing_set_step
  | |- sourcing persist_state => apply sourcing_persist
  | |- sourcing (tolerate _ _) => apply sourcing_tolerate
  | |- sourcing (if _ then _ else _) => apply sourcing_if; source
  | |- sourcing (match ?x with _ => _ end) => destruct x; source
  | |- sourcing (start_step _ _ _ _) => match goal with H : _ |- _ => apply H end
  | |- sourcing (when_complete _ _ _ _ _ _) => match goal with H : _ |- _ => apply H end
  | |- _ => apply sourcing_firm; be_firm
  end.

Lemma sourcing_entry next : sourcing (entry_action bitcoin_network drp_program_definition btc_confirmations next).
Proof.
  destruct next; cbn [entry_action];
    unfold request_bitvmx_funding_balance, request_bitvmx_comm_info, without_keys, request_pub_key,
      request_bitvmx_key_signing, fund_protocol, apply_to_stream, deposit_communication_data, deposit_aggregated_key,
      setup_aggregated_pubkey, setup_pairwise_keys, setup_dispute_core_protocol, request_dispute_core_vars,
      complete_dispute_channel_setup, complete_full_penalization_setup, validate_rsk_balance; cbn zeta; source.
Qed.

Lemma sourcing_start next : sourcing (starting next).
Proof.
  apply sourcing_bind; [apply sourcing_set_step|intros _].
  apply sourcing_bind; [apply sourcing_entry|intros _; apply sourcing_persist].
Qed.

(** The flow takes any public key for the aggregated one in the step that waits for
    it. *)
Lemma sourcing_complete data w :
  (forall k, step (state w) = StepSetupTakeAggregatedKeyAllConvergeCheckpoint -> data = DataPublicKey k -> K k) ->
  sourced_world w -> sourced_world (completing data w).2.
Proof.
  intros Hk Hw. unfold complete_step. rewrite SR_bind_run with (a := w) (s' := w) by done.
  pose proof sourcing_start as Hstart.
  match goal with |- sourced_world (snd (?m w)) => assert (Hm : sourcing m); [|by apply Hm] end.
  assert (Hseveral : forall b cur next,
    sourcing (when_complete bitcoin_network drp_program_definition btc_confirmations b cur next)).
  { intros b cur next. unfold when_complete. apply sourcing_if; [apply sourcing_set_step|apply Hstart]. }
  unfold validate_bitvmx_balance, close_pub_key_req, close_pub_key_signing_req, close_send_funds_req, update_my_committees,
    build_committee_data, close_communication_data_step, close_agg_key_req, process_pairwise_key_response,
    close_pairwise_key_req, close_setup_core_req, process_dispute_core_variable, close_setup_channel_req.
  destruct (step (state w)); cbn zeta; source.
Qed.

Lemma sourcing_fail : sourcing (fail : SR W FlowError unit).
Proof.
  apply sourcing_bind; [|intros ?; by intros w Hw]. apply sourcing_catch.
  apply sourcing_bind; [apply sourcing_set_step|intros _; apply sourcing_persist].
Qed.

Lemma sourcing_continue data w :
  (forall k, step (state w) = StepSetupTakeAggregatedKeyAllConvergeCheckpoint -> data = DataPublicKey k -> K k) ->
  sourced_world w -> sourced_world (continue_flow bitcoin_network drp_program_definition btc_confirmations data w).2.
Proof.
  intros Hk Hw. pose proof (sourcing_complete data w Hk Hw) as Hc. unfold continue_flow, catch. unfold mbind, SR_bind.
  destruct (completing data w) as [[a|[causes|msg]] w1]; [done| |done].
  destruct (is_transient causes); [done|by apply sourcing_fail].
Qed.

End Source.

(** ** Theorems *)

Section Theorems.
Context `{FlowCodecs, !CommitteeCodecs, Keccak, Sha256, !EnvVars G, !BitvmxBroker G, !CommitteeServices G,
  !SetupServices G} (bitcoin_network : Network) (drp_program_definition : string) (btc_confirmations : Z) (fid : bytes).
Abbreviation W := (Flow.World State (Env G) Effect).
Abbreviation me := (my_address (E := G)).
Abbreviation continuing := (continue_flow bitcoin_network drp_program_definition btc_confirmations).

(** A flow between two inputs: it starts with the user's request, takes any data in
    any order, and a new process goes on from what was saved.  Meanwhile other flows
    use the services and set the keys of the process.  The list holds the data that it
    took, each with its step. *)
Inductive reachable : list (Steps * StepData) -> W -> Prop :=
| reach_new input now w w' :
    state w = new_flow fid now -> saved w = None -> continuing (DataUserRequest input) w = (Ok tt, w') ->
    reachable [(StepInit, DataUserRequest input)] w'
| reach_continue taken data w w' :
    reachable taken w -> continuing data w = (Ok tt, w') -> reachable (taken ++ [(step (state w), data)]) w'
| reach_fail taken w w' : reachable taken w -> fail w = (Ok tt, w') -> reachable taken w'
| reach_environment taken w e : reachable taken w -> reachable taken (mkWorld (state w) (saved w) e (trace w))
| reach_restart taken w s s' e :
    reachable taken w -> saved w = Some s -> from_saved_state s = Ok s' -> reachable taken (mkWorld s' (Some s) e (trace w))
| reach_panic taken data w msg w' s s' e :
    reachable taken w -> continuing data w = (Err (FlowPanic msg), w') -> saved w' = Some s -> from_saved_state s = Ok s' ->
    reachable (taken ++ [(step (state w), data)]) (mkWorld s' (Some s) e (trace w')).

Lemma from_saved_same s s' : from_saved_state s = Ok s' -> s' = s.
Proof. intros Hs. unfold from_saved_state in Hs. by destruct (user_input _); simplify_eq. Qed.

Lemma from_saved_ok v s s' e t :
  saved_ok fid v -> v = Some s -> from_saved_state s = Ok s' -> holds (flow_ok fid) (mkWorld s' (Some s) e t : W).
Proof.
  intros Hv -> Hs. apply from_saved_same in Hs as ->.
  destruct (Hv s eq_refl) as [Hok Hid]. by split_and!.
Qed.

Lemma setup_reachable_ok taken w : reachable taken w -> holds (flow_ok fid) w.
Proof.
  induction 1 as [input now w w' Hs Hv Hc|taken data w w' _ IH Hc|taken w w' _ IH Hf|taken w e _ IH|taken w s s' e _ IH Hv Hs
    |taken data w msg w' s s' e _ IH Hc Hv Hs].
  - pose proof (begin_ok bitcoin_network drp_program_definition btc_confirmations fid input now w Hs) as Hl.
    rewrite Hc in Hl. apply Hl. by rewrite Hv.
  - pose proof (continue_ok bitcoin_network drp_program_definition btc_confirmations fid data w IH) as Hl. by rewrite Hc in Hl.
  - destruct (fail_ok fid w) as [_ Hok]; [by apply flow_ok_failing|]. by rewrite Hf in Hok.
  - done.
  - eapply from_saved_ok; [apply IH|done..].
  - pose proof (continue_ok bitcoin_network drp_program_definition btc_confirmations fid data w IH) as Hl. rewrite Hc in Hl.
    eapply from_saved_ok; [exact Hl|done..].
Qed.

(** C10: at every step of a setup the context holds what the earlier steps have
    achieved and the requests of this one; a finished setup of a selected member has
    the aggregated keys, every pairwise key, core, variable and channel and the
    penalization of its committee, and the event that announces this committee.  So
    does what is saved, from which a new process always goes on. *)
Theorem setup_context_complete taken w :
  reachable taken w ->
  state_ok me (state w) /\ flow_id (state w) = fid /\
  (step (state w) = StepDone -> committee_data (ctx (state w)) = None \/ complete me (ctx (state w))) /\
  (forall s, saved w = Some s -> state_ok me s /\ from_saved_state s = Ok s).
Proof.
  intros Hw. destruct (setup_reachable_ok taken w Hw) as (Hok & Hid & Hv). split_and!; [done..| |].
  - intros Hst. pose proof (so_entered _ _ Hok) as He. by rewrite Hst in He.
  - intros s Hs. destruct (Hv s Hs) as [Hok' _]. split; [done|]. unfold from_saved_state.
    by destruct (so_input _ _ Hok') as [? ->].
Qed.

Lemma continue_as_complete data w :
  ctx (state (continuing data w).2) =
    ctx (state (complete_step bitcoin_network drp_program_definition btc_confirmations data w).2) /\
  trace (continuing data w).2 = trace (complete_step bitcoin_network drp_program_definition btc_confirmations data w).2.
Proof.
  unfold continue_flow, catch. unfold mbind, SR_bind.
  destruct (complete_step _ _ _ data w) as [[a|[causes|msg]] w1]; [done| |done].
  destruct (is_transient causes); [done|apply fail_ctx].
Qed.

(** The key was taken in the step that waits for the aggregated take key. *)
Definition taken_for_aggregated (taken : list (Steps * StepData)) (k : PublicKey) : Prop :=
  (StepSetupTakeAggregatedKeyAllConvergeCheckpoint, DataPublicKey k) ∈ taken.

Lemma sourced_mono (K K' : PublicKey -> Prop) w :
  (forall k, K k -> K' k) -> sourced_world K w -> sourced_world K' (w : W).
Proof. intros HK [Hs Hv]. split; [intros id k Hk|intros s Hsv id k Hk]; apply HK; [by eapply Hs|by eapply Hv]. Qed.

Lemma sourced_took taken data w :
  sourced_world (taken_for_aggregated taken) w ->
  sourced_world (taken_for_aggregated (taken ++ [(step (state w), data)])) (continuing data w).2.
Proof.
  intros Hw. apply sourcing_continue.
  - intros k Hst ->. unfold taken_for_aggregated. apply elem_of_app. right. rewrite Hst. by apply list_elem_of_singleton.
  - eapply sourced_mono; [|exact Hw]. intros k Hk. apply elem_of_app. by left.
Qed.

Lemma setup_reachable_sourced taken w : reachable taken w -> sourced_world (taken_for_aggregated taken) w.
Proof.
  induction 1 as [input now w w' Hs Hv Hc|taken data w w' _ IH Hc|taken w w' _ IH Hf|taken w e _ IH|taken w s s' e _ IH Hv Hs
    |taken data w msg w' s s' e _ IH Hc Hv Hs].
  - assert (Hi : sourced_world (taken_for_aggregated []) w) by (split; rewrite ?Hs, ?Hv; done).
    pose proof (sourced_took [] (DataUserRequest input) w Hi) as Hn. rewrite Hc, Hs in Hn. exact Hn.
  - pose proof (sourced_took taken data w IH) as Hn. by rewrite Hc in Hn.
  - pose proof (sourcing_fail _ w IH) as Hn. by rewrite Hf in Hn.
  - done.
  - apply from_saved_same in Hs as ->. destruct IH as [_ IH]. split; [by apply IH|]. intros s' [= <-]. by apply IH.
  - pose proof (sourced_took taken data w IH) as Hn. rewrite Hc in Hn. destruct Hn as [_ Hn].
    apply from_saved_same in Hs as ->. split; [by apply Hn|]. intros s' [= <-]. by apply Hn.
Qed.

(** C9: the aggregated key is deposited in the contracts only by the step that
    completes the last setup, when everything before it is done, and for the committee
    of the flow.  It is the key on record for the aggregation of the committee's take
    keys, and a public key that the flow took from BitVMX in the step that waits for
    that aggregation.  That the message answered this very request is not checked. *)
Theorem aggregated_key_deposited_last taken data w r w' l id key :
  reachable taken w -> continuing data w = (r, w') -> trace w' = trace w ++ l ->
  Called (CallDepositAggregatedKey id key) ∈ l ->
  step (state w) = StepFullPenalizationSetup /\ upto me 12 (ctx (state w')) /\
  exists d k, committee_data (ctx (state w')) = Some d /\ id = committee_id d /\ key = public_key_to_bytes k /\
    agg_take_key_req (ctx (state w')) = Some (take_aggregated_key_protocol_id (committee_uuid d), Some k) /\
    taken_for_aggregated taken k.
Proof.
  intros Hw Hc Hl Hin. destruct (deposit_complete bitcoin_network drp_program_definition btc_confirmations fid data w
    (setup_reachable_ok taken w Hw)) as (l' & Hl' & Hcase).
  destruct (continue_as_complete data w) as [Hctx Ht]. pose proof (setup_reachable_sourced taken w Hw) as Hsrc.
  apply (sourcing_continue bitcoin_network drp_program_definition btc_confirmations _ data) in Hsrc.
  2: { intros k Hst _. destruct Hcase as [Hf|(Hst' & _)]; [|congruence]. rewrite Hc in Ht. cbn in Ht. rewrite Ht, Hl' in Hl.
       apply app_inv_head in Hl as <-. rewrite Forall_forall in Hf. by apply Hf in Hin. }
  rewrite Hc in Hctx, Ht, Hsrc. cbn in Hctx, Ht, Hsrc. rewrite Ht, Hl' in Hl. apply app_inv_head in Hl as <-.
  destruct Hsrc as [Hsrc _]. rewrite Hctx in *.
  destruct Hcase as [Hf|(Hst & Hen & Hf)]; rewrite Forall_forall in Hf; apply Hf in Hin; [done|].
  destruct Hin as [Hin|(d & i & k & Hd & Hk & Heq)]; [done|]. simplify_eq.
  split_and!; [done|apply Hen|]. exists d, k. split_and!; [done..| |by eapply Hsrc].
  pose proof (ce_upto _ _ Hen) as (_ & _ & _ & _ & _ & Htake & _). destruct (Htake d Hd) as [k' Hk']. congruence.
Qed.

(** The outputs of a batch, by position *)
Definition pays (txid : bytes) (n : Z) (dest : Destination) (u : PartialUtxo) : Prop :=
  match dest with
  | P2WPKH key amount => exists script, p2wpkh_script key = Some script /\
      u = mkPartialUtxo txid n (Some amount) (Some (SegwitPublicKey amount script key))
  | _ => False
  end.

(** What a flow reads to fund itself and to use the funds *)
Definition my_dispute_key_of (w : W) : option SignedPublicKey :=
  match CoordinatorStore.dispute_key (env w).1 with
  | Some key => Some key
  | None => my_dispute_key_req (ctx (state w)) ≫= pk_signed
  end.
Definition same_funding (w w' : W) : Prop :=
  my_dispute_key_of w' = my_dispute_key_of w /\ user_input (ctx (state w')) = user_input (ctx (state w)).

Lemma get_my_dispute_key_run (w w1 : W) key : get_my_dispute_key w = (Ok key, w1) -> w1 = w /\ my_dispute_key_of w = Some key.
Proof.
  unfold my_dispute_key_of, get_my_dispute_key, my_key, global_context, get_ctx. unfold mbind, SR_bind, sget, mret, SR_ret. cbn.
  destruct (CoordinatorStore.dispute_key (env w).1); cbn; [by intros [= -> ->]|].
  destruct (my_dispute_key_req _) as [r|]; [|done]. cbn. destruct (pk_signed r); [|done]. cbn. by intros [= -> ->].
Qed.

Lemma user_input_run (w w1 : W) input : get_user_input w = (Ok input, w1) -> user_input (ctx (state w)) = Some input /\ w1 = w.
Proof.
  unfold get_user_input, get_ctx. unfold mbind, SR_bind, sget, mret, SR_ret. cbn.
  destruct (user_input _); [|done]. cbn. intros [= -> ->]. done.
Qed.

Lemma new_uuid_same (w w1 : W) r : new_uuid w = (r, w1) -> same_funding w w1 /\ trace w1 = trace w /\ state w1 = state w.
Proof.
  unfold new_uuid, on_gateway, on_env, zoom, same_funding, my_dispute_key_of. destruct (new_v4 _) as [[a|e] g]; cbn; by intros [= <- <-].
Qed.

Lemma send_msg_run msg (w w1 : W) : send_msg msg w = (Ok tt, w1) -> trace w1 = trace w ++ [Sent msg].
Proof.
  unfold send_msg, send_with, on_env, zoom, record. unfold mbind, SR_bind, smodify.
  destruct (with_message _ _) as [[a|e] g]; [|done]. cbn. by intros [= <-].
Qed.

Lemma fund_protocol_run (w w1 : W) :
  fund_protocol bitcoin_network w = (Ok tt, w1) ->
  exists req key input fee w0, same_funding w w0 /\ get_my_dispute_key w0 = (Ok key, w0) /\ user_input (ctx (state w)) = Some input /\
    trace w1 = trace w ++ [Sent (SendFunds req (Batch
      [P2WPKH (spk_public_key key) (speed_up_utxo_value input); P2WPKH (spk_public_key key) (funding_utxo_value input);
       P2WPKH (spk_public_key key) (calculate_advance_funds_value (advance_funds_value input))]) (Some fee))].
Proof.
  unfold fund_protocol. intros Hf. apply SR_bind_ok in Hf as (req & w0 & Hreq & Hf). cbn zeta in Hf.
  apply new_uuid_same in Hreq as (Hsame & Ht & Hs). apply SR_bind_ok in Hf as (key & w2 & Hkey & Hf).
  pose proof (get_my_dispute_key_run _ _ _ Hkey) as [-> _]. apply SR_bind_ok in Hf as (input & w2 & Hin & Hf).
  apply user_input_run in Hin as [Hin ->]. apply SR_bind_ok in Hf as (u & w2 & Hset & Hf). injection Hset as _ <-.
  apply send_msg_run in Hf. cbn in Hf. rewrite Ht in Hf. rewrite Hs in Hin. by eexists _, _, _, _, _.
Qed.

(** The three outputs that the flow later uses as its speed-up, funding and
    advance-funds outputs are those that it had BitVMX pay, in this order: same
    position, same amount, same key. *)
Theorem funding_outputs_match w w1 w2 w3 id txid utxos :
  fund_protocol bitcoin_network w = (Ok tt, w1) -> same_funding w w2 ->
  send_funds_req (ctx (state w2)) = Some (id, Some txid) -> get_my_protocol_utxos w2 = (Ok utxos, w3) ->
  exists req a b c fee, trace w1 = trace w ++ [Sent (SendFunds req (Batch [a; b; c]) (Some fee))] /\
    pays txid 0 a (speedup utxos) /\ pays txid 1 b (CommitteeSetup.protocol_funding utxos) /\
    pays txid 2 c (CommitteeSetup.advance_funds utxos).
Proof.
  intros Hfund Hsame Hreq Hu. apply fund_protocol_run in Hfund as (req & key & input & fee & w0 & Hsame0 & Hkey & Hin & Ht).
  eexists req, _, _, _, fee. split; [exact Ht|]. unfold get_my_protocol_utxos in Hu.
  apply SR_bind_ok in Hu as (c & w4 & Hc & Hu). injection Hc as <- <-. apply SR_bind_ok in Hu as (r & w4 & Hr & Hu).
  rewrite Hreq in Hr. injection Hr as <- <-. apply SR_bind_ok in Hu as (tx & w4 & Htx & Hu). injection Htx as <- <-.
  apply SR_bind_ok in Hu as (key2 & w4 & Hkey2 & Hu). pose proof (get_my_dispute_key_run _ _ _ Hkey2) as [-> _].
  assert (key2 = key) as ->.
  { apply get_my_dispute_key_run in Hkey as [_ Hkey], Hkey2 as [_ Hkey2]. destruct Hsame, Hsame0. congruence. }
  apply SR_bind_ok in Hu as (input2 & w4 & Hin2 & Hu). apply user_input_run in Hin2 as [Hin2 ->].
  destruct Hsame as [_ Hi]. rewrite Hi, Hin in Hin2. simplify_eq. cbn zeta in Hu.
  apply SR_bind_ok in Hu as (script & w4 & Hscript & Hu). injection Hu as <- <-.
  destruct (p2wpkh_script (spk_public_key key)) as [sc|] eqn:Hsc; [|done]. injection Hscript as -> <-.
  cbn. split_and!; by exists script.
Qed.

End Theorems.

(** ** The deposit of communication data

    It joins the committee that a pending event announces. *)

Section Joining.
Context `{FlowCodecs, !CommitteeCodecs, Keccak, Sha256, !EnvVars G, !BitvmxBroker G, !CommitteeServices G,
  !SetupServices G} (bitcoin_network : Network) (drp_program_definition : string) (btc_confirmations : Z).
Abbreviation W := (Flow.World State (Env G) Effect).
Abbreviation starting := (start_step bitcoin_network drp_program_definition btc_confirmations).
Abbreviation continuing := (continue_flow bitcoin_network drp_program_definition btc_confirmations).

(** Deposits for the committees of [C] only *)
Definition joins (C : Z -> Prop) (x : Effect) : Prop :=
  match x with Called (CallDepositCommunicationData id _) => C id | _ => True end.

Lemma uncalled_joins C x : uncalled x -> joins C x.
Proof. by destruct x. Qed.

Context (C : Z -> Prop).
Abbreviation joined w := (forall d, committee_data (ctx (state w)) = Some d -> C (committee_id d)).
Abbreviation adding w w' := (exists l, trace w' = trace w ++ l /\ Forall (joins C) l).

Lemma adding_trans (w w' w'' : W) : adding w w' -> adding w' w'' -> adding w w''.
Proof.
  intros (l & Hl & Hf) (l' & Hl' & Hf'). exists (l ++ l'). rewrite Hl', Hl, app_assoc. split; [done|by apply Forall_app].
Qed.

Lemma joins_deposit (w : W) : joined w -> adding w (deposit_communication_data w).2.
Proof.
  intros Hj. unfold deposit_communication_data.
  assert (Hfirm : forall T (m : SR W FlowError T), firm m -> adding w (m w).2)
    by (intros T m Hm; apply (calm_firm _ (uncalled_joins C) m Hm)).
  destruct (committee_data (ctx (state w))) as [d|] eqn:Hd.
  2: { unfold in_context, get_committee_data, get_ctx, mbind, SR_bind. cbn. rewrite Hd. exists []. by rewrite app_nil_r. }
  assert (Hg : in_context "Deposit Communication Data" get_committee_data w = (Ok d, w))
    by (unfold in_context, map_err; by rewrite (get_committee_data_run w d Hd)).
  rewrite (SR_bind_run _ _ _ _ _ Hg).
  match goal with |- adding w (snd (?m w)) => assert (Hm : adds (joins C) m); [|apply Hm] end.
  apply adds_bind; [apply calm_firm; [apply uncalled_joins|be_firm]|intros mine].
  apply adds_bind; [apply calm_firm; [apply uncalled_joins|be_firm]|intros data].
  apply calm_tolerate. by apply Hj.
Qed.

Lemma joins_start (w : W) : joined w -> adding w (starting StepDepositP2PDataAuthoritativeCheckpoint w).2.
Proof.
  intros Hj. unfold start_step, set_step, update_state. unfold mbind, SR_bind, smodify. cbn [entry_action].
  match goal with |- context [deposit_communication_data ?w1] => pose proof (joins_deposit w1 Hj) as Hl;
    destruct (deposit_communication_data w1) as [[a|x] w2]; cbn in Hl; [|done] end.
  destruct (persist_ctx w2) as [_ Ht]. by rewrite Ht.
Qed.

Lemma built_committee (w : W) e w' :
  committee_pending_ev (ctx (state w)) = Some e -> build_committee_data w = (Ok tt, w') ->
  exists d, committee_data (ctx (state w')) = Some d /\ committee_id d = nc_committeeId (ev_inner e).
Proof.
  intros He. unfold build_committee_data, get_ctx, required, set_ctx, update_state. unfold mbind, SR_bind, sget, smodify. cbn.
  rewrite He. cbn. destruct (build_members_of_committee _ _ _ w) as [[ms|x] w1]; cbn; [|done].
  intros [= <-]. by eexists.
Qed.

Lemma noted_committee e (w w' : W) :
  update_my_committees e w = (Ok tt, w') -> committee_pending_ev (ctx (state w')) = Some e.
Proof.
  unfold update_my_committees, set_ctx, update_state, set_global, on_env. unfold mbind, SR_bind, smodify. cbn.
  destruct (get_user_input _) as [[input|x] w1] eqn:Hu; cbn; [|done].
  apply user_input_run in Hu as [_ ->]. by intros [= <-].
Qed.

(** Data that announce no committee, or one of [C] *)
Definition announces (data : StepData) : Prop :=
  match data with DataPendingCommittee e => C (nc_committeeId (ev_inner e)) | _ => True end.

Lemma joins_complete data (w : W) :
  announces data -> adding w (complete_step bitcoin_network drp_program_definition btc_confirmations data w).2.
Proof.
  intros Ha. destruct (decide (step (state w) = StepApplyToStream)) as [Hst|Hne].
  2: { by apply calm_complete; [apply uncalled_joins|..]. }
  destruct data as [| | | | | | | | |e| |]; try (apply calm_complete; [apply uncalled_joins|done|by intros _ [? ?]|done]).
  unfold complete_step. rewrite SR_bind_run with (a := w) (s' := w) by done. rewrite Hst.
  assert (Hsel : adds (joins C) (im_selected_to_new_committee (ev_inner e) : SR W FlowError bool))
    by (apply calm_firm; [apply uncalled_joins|be_firm]).
  specialize (Hsel w). unfold mbind, SR_bind.
  destruct (im_selected_to_new_committee (ev_inner e) w) as [[[]|x] w1]; cbn in Hsel; [|eapply adding_trans;
    [exact Hsel|by apply calm_start; [apply uncalled_joins|]]|done].
  eapply adding_trans; [exact Hsel|].
  assert (Hupd : adds (joins C) (update_my_committees e : SR W FlowError unit)).
  { unfold update_my_committees. repeat (apply adds_bind; [first [apply calm_set_ctx|apply calm_firm;
      [apply uncalled_joins|be_firm]]|intros ?]). apply calm_firm; [apply uncalled_joins|be_firm]. }
  specialize (Hupd w1). destruct (update_my_committees e w1) as [[[]|x] w2] eqn:Hr; cbn in Hupd; [|done].
  apply noted_committee in Hr. eapply adding_trans; [exact Hupd|].
  assert (Hbuild : adds (joins C) (build_committee_data : SR W FlowError unit)).
  { unfold build_committee_data. repeat (apply adds_bind; [apply calm_firm; [apply uncalled_joins|be_firm]|intros ?; cbn zeta]).
    apply calm_set_ctx. }
  specialize (Hbuild w2). destruct (build_committee_data w2) as [[[]|x] w3] eqn:Hb; cbn in Hbuild; [|done].
  eapply adding_trans; [exact Hbuild|]. apply joins_start. destruct (built_committee _ _ _ Hr Hb) as (d & -> & Hd).
  intros d' [= <-]. by rewrite Hd.
Qed.

Lemma joins_continue data : announces data -> adds (joins C) (continuing data).
Proof.
  intros Ha w. destruct (continue_as_complete bitcoin_network drp_program_definition btc_confirmations data w) as [_ ->].
  by apply joins_complete.
Qed.

Lemma joins_mark_failed : adds (joins C) (mark_failed : SR W FlowError unit).
Proof. apply adds_bind; [apply calm_set_step|intros _; apply calm_persist]. Qed.

End Joining.

(** ** The keys of pairs *)

Section Pairs.
Context `{FlowCodecs, !CommitteeCodecs, Sha256, !BitvmxBroker G, !BrokerAccepts G}.
Abbreviation W := (Flow.World State (Env G) Effect).

Definition pair_message (d : CommitteeData) (data : list CommsAddress) (i j : nat) : option BitvmxMessage :=
  first ← data !! Nat.min i j;
  second ← data !! Nat.max i j;
  Some (SetupKey (pairwise_aggregated_key_protocol_id (committee_uuid d) (Z.of_nat i) (Z.of_nat j)) [first; second] None
          NO_LEADER_IDX).

Lemma pair_id_sym c i j : pairwise_aggregated_key_protocol_id c i j = pairwise_aggregated_key_protocol_id c j i.
Proof.
  unfold pairwise_aggregated_key_protocol_id. destruct (Z.leb_spec i j), (Z.leb_spec j i); try done; [|lia].
  by replace j with i by lia.
Qed.

Lemma pair_message_sym d data i j : pair_message d data i j = pair_message d data j i.
Proof. unfold pair_message. by rewrite Nat.min_comm, Nat.max_comm, pair_id_sym. Qed.

Lemma pairwise_request_sends {me : CommitteeServices G} d data i j mi mj msg (w : W) :
  cd_members d !! i = Some mi -> cd_members d !! j = Some mj -> my_address (E := G) = mc_address mi ->
  i <> j -> mc_role mi = Prover \/ mc_role mj = Prover -> pair_message d data i j = Some msg ->
  exists w', pairwise_request d data i (mc_role mi) j mj w =
      (Ok [mkPairwiseKeyReq (pairwise_aggregated_key_protocol_id (committee_uuid d) (Z.of_nat i) (Z.of_nat j)) i j
             (if (i <? j)%nat then [mc_address mi; mc_address mj] else [mc_address mj; mc_address mi]) None], w') /\
    trace w' = trace w ++ [Sent msg].
Proof.
  intros Hi Hj Hme Hne Hrole Hmsg. unfold pairwise_request. rewrite bool_decide_false by congruence.
  replace (negb _ && negb _) with false by (symmetry; destruct Hrole as [-> | ->]; by destruct (mc_role _)).
  unfold pair_message in Hmsg. destruct (data !! Nat.min i j) as [a|] eqn:Ha; [|done]. cbn in Hmsg.
  destruct (data !! Nat.max i j) as [b|] eqn:Hb; [|done]. cbn in Hmsg. injection Hmsg as <-.
  assert (Hsend : forall m (w : W), exists w', send_bitvmx_msg m w = (Ok tt, w') /\ trace w' = trace w ++ [Sent m]).
  { intros m w0. unfold send_bitvmx_msg, send_msg, send_with, on_env, zoom, with_message, record, catch.
    unfold mbind, SR_bind, smodify, mret, SR_ret. destruct (broker_accepts m (env w0).2) as [g ->]. by eexists. }
  rewrite Hme. destruct (Nat.ltb_spec i j).
  - rewrite Nat.min_l in Ha by lia. rewrite Nat.max_r in Hb by lia. rewrite Ha, Hb.
    destruct (Hsend (SetupKey (pairwise_aggregated_key_protocol_id (committee_uuid d) (Z.of_nat i) (Z.of_nat j)) [a; b] None
      NO_LEADER_IDX) w) as (w' & Hr & Ht). rewrite (SR_bind_run _ _ _ _ _ Hr). by exists w'.
  - rewrite Nat.min_r in Ha by lia. rewrite Nat.max_l in Hb by lia. rewrite Ha, Hb.
    destruct (Hsend (SetupKey (pairwise_aggregated_key_protocol_id (committee_uuid d) (Z.of_nat i) (Z.of_nat j)) [a; b] None
      NO_LEADER_IDX) w) as (w' & Hr & Ht). rewrite (SR_bind_run _ _ _ _ _ Hr). by exists w'.
Qed.

(** Two members of a committee, one of them a prover, ask BitVMX for the key of
    their pair with the very same message, and note the same participants in the
    same order. *)
Theorem pair_requests_agree {me me' : CommitteeServices G} d data i j mi mj msg (w w' : W) :
  cd_members d !! i = Some mi -> cd_members d !! j = Some mj ->
  my_address (CommitteeServices := me) = mc_address mi -> my_address (CommitteeServices := me') = mc_address mj ->
  i <> j -> mc_role mi = Prover \/ mc_role mj = Prover -> pair_message d data i j = Some msg ->
  exists r r' w1 w1',
    pairwise_request (CommitteeServices0 := me) d data i (mc_role mi) j mj w = (Ok [r], w1) /\ trace w1 = trace w ++ [Sent msg] /\
    pairwise_request (CommitteeServices0 := me') d data j (mc_role mj) i mi w' = (Ok [r'], w1') /\ trace w1' = trace w' ++ [Sent msg] /\
    pw_id r = pw_id r' /\ pw_participants r = pw_participants r'.
Proof.
  intros Hi Hj Hme Hme' Hne Hrole Hmsg.
  destruct (pairwise_request_sends (me := me) d data i j mi mj msg w) as (w1 & Hr & Ht); [done..|].
  destruct (pairwise_request_sends (me := me') d data j i mj mi msg w') as (w1' & Hr' & Ht'); [done..|naive_solver| |].
  { by rewrite pair_message_sym. }
  eexists _, _, w1, w1'. split_and!; [exact Hr|done|exact Hr'|done|apply pair_id_sym|]. cbn [pw_participants].
  destruct (Nat.ltb_spec i j), (Nat.ltb_spec j i); try done; lia.
Qed.

End Pairs.

(** ** Samples *)

Module Sample.

#[export] Existing Instances Flow.Sample.codecs Flow.Sample.socket_addrs NativeBridge.Sample.crates
  CommitteeSetup.Sample.env_vars CommitteeSetup.Sample.broker CommitteeSetup.Sample.broker_ok.

#[export] Instance keccak : Keccak := {| keccak256 _ := replicate 32 0 |}.
#[export] Instance mix_hash : Sha256 := {|
  sha256 m := be_bytes 16 (fold_left (fun h b => (h * 257 + b + 1) mod 2 ^ 128) m 7) ++ replicate 16 0 |}.

Definition utxo : PartialUtxo := mkPartialUtxo [5] 0 (Some 1000) None.
#[export] Instance codecs : CommitteeCodecs := {|
  public_key_to_bytes k := k;
  serialize_uncompressed k := 4 :: replicate 64 (hd 0 k);
  p2wpkh_script k := Some (0 :: 20 :: k);
  socket_addr_to_contracts a := Some (Some a);
  zeroed_communication_data := None;
  comms_to_json a := address a;
  comms_from_json s := Some (mkCommsAddress _ s "comm");
  parse_op_cosign_utxos _ := Some [Some utxo; Some utxo];
  parse_wt_init_challenge_utxos _ := Some [Some (mkChallengeUtxos utxo utxo); Some (mkChallengeUtxos utxo utxo)]
|}.

(** A committee of the verifier [2] and the prover [1], which is this member *)
Definition services (address : Address) : CommitteeServices unit := {|
  my_address := address;
  get_committee _ e := (Ok (mkCommittee [mkMember [2] 2; mkMember [1] 1] [9]), e);
  get_committee_communication_data _ e := (Ok [Some "10.0.0.2:80"; None], e);
  get_member_public_keys a e := (Ok [hex_encode (1 :: a); hex_encode (2 :: a); "comm"], e);
  new_v4 e := (Ok [0], e)
|}.
#[export] Instance mine : CommitteeServices unit := services [1].

#[export] Instance setup_services : SetupServices unit := {|
  is_whitelisted g := (Ok true, g);
  get_balance g := (Ok (10 ^ 30), g);
  get_minimum_deposit _ _ g := (Ok 1, g);
  contract_call _ g := (Ok tt, g);
  save_flow _ g := (Ok tt, g);
  signal_done _ _ _ g := (Ok tt, g)
|}.

Definition event : EventWithBlock NewCommitteePayload :=
  mkEventWithBlock (mkNewCommittee 7 (mkRegistryCommittee [mkMember [2] 2; mkMember [1] 1]
    [mkRegistryUtxo [3] 0 100; mkRegistryUtxo [4] 0 100] 1)) 10 [10] false [11].

(** What BitVMX and the contracts answer *)
Definition answer (s : State) : option StepData :=
  let c := ctx s in
  let first_open {A} (l : list (A * bool)) := fst <$> List.find (fun r => negb r.2) l in
  match step s with
  | StepInit => Some (DataUserRequest (mkApplyToStream 1 Prover 100 200 300))
  | StepValidateBalances => Some (DataBitVmxFundingBalance (10 ^ 15))
  | StepGetMyCommInfo => Some (DataCommInfo (mkCommsAddress _ "10.0.0.1:80" "comm"))
  | StepGetMyTakeKey => Some (DataPublicKey [1; 1])
  | StepGetMyDisputeKey => Some (DataPublicKey [2; 1])
  | StepGetMyCommKey => Some (DataPublicKey [3; 1])
  | StepSignMyTakeKey | StepSignMyDisputeKey | StepSignMyCommKey =>
      Some (DataSignedMessage (replicate 32 1) (replicate 32 2) 0)
  | StepFundMyBitVmxAccount => Some (DataFundsSent (replicate 32 8))
  | StepApplyToStream => Some (DataPendingCommittee event)
  | StepDepositP2PDataAuthoritativeCheckpoint =>
      Some (DataReadyCommunicationData (mkEventWithBlock (mkDataReady 7) 11 [11] false [11]))
  | StepSetupTakeAggregatedKeyAllConvergeCheckpoint => Some (DataPublicKey [42])
  | StepSetupDisputeAggregatedKey => Some (DataPublicKey [43])
  | StepSetupPairwiseKeys =>
      (fun r => DataPairwiseAggregatedKey (pw_id r) [44]) <$> List.find (fun r => bool_decide (pw_key r = None)) (pairwise_keys_req c)
  | StepSetupDisputeCore => (fun r => DataSetupCompleted r.1) <$> first_open (setup_core_req c)
  | StepRequestDisputeChannelVars =>
      r ← List.find (fun r => bool_decide (op_cosign_utxos r = None) || bool_decide (wt_init_challenge_utxos r = None))
            (setup_channel_req c);
      Some (DataDisputeCoreVariable (dispute_core_pid r)
        (if bool_decide (op_cosign_utxos r = None) then OP_COSIGN_UTXOS else WT_INIT_CHALLENGE_UTXOS) "")
  | StepDisputeChannelSetup => DataSetupCompleted <$> first_open (setup_channel_setup_req c)
  | StepFullPenalizationSetup => DataSetupCompleted <$> first_open (setup_full_penalization_req c)
  | StepDepositAggregatedKey => Some (DataReadyCommittee event)
  | StepDone | StepFailed => None
  end.

Definition penalization_done : StepData := DataSetupCompleted (full_penalization_protocol_id (uuid_from_u128 7)).

Abbreviation W := (Flow.World State (Env unit) Effect).
Definition start : W := mkWorld (new_flow [6] 0) None (new_context, tt) [].

(** A flow that funds itself, and the same with the transaction *)
Definition funding : W :=
  mkWorld (mkState [6] StepFundMyBitVmxAccount
    (set_my_dispute_key_req (Some (mkPubKeyReq [0] (Some [2; 1]) (Some [0]) (Some (mkSignedPublicKey [2; 1] [1] [2] 0))))
      (set_user_input (Some (mkApplyToStream 1 Prover 100 200 300)) default_context)) None) None (new_context, tt) [].
Definition funded : W :=
  mkWorld (mkState [6] StepApplyToStream
    (set_send_funds_req (Some ([0], Some (replicate 32 8))) (ctx (state funding))) None) None (new_context, tt) [].
Definition funding_utxos : FundingUtxos :=
  let output n v := mkPartialUtxo (replicate 32 8) n (Some v) (Some (SegwitPublicKey v [0; 20; 2; 1] [2; 1])) in
  mkFundingUtxos (output 0 200) (output 1 100) (output 2 360).

Fixpoint drive (n : nat) (w : W) : option W :=
  match n with
  | O => Some w
  | S n =>
      data ← answer (state w);
      match continue_flow Regtest "drp.yaml" 1 data w with
      | (Ok tt, w') => drive n w'
      | _ => None
      end
  end.

End Sample.

Section Witness.
#[local] Existing Instances Flow.Sample.codecs Flow.Sample.socket_addrs NativeBridge.Sample.crates Sample.codecs
  Sample.keccak Sample.mix_hash Sample.mine Sample.setup_services CommitteeSetup.Sample.env_vars
  CommitteeSetup.Sample.broker CommitteeSetup.Sample.broker_ok.
Abbreviation reachable := (reachable Regtest "drp.yaml" 1 [6]).

Lemma drive_continues n taken w w' : reachable taken w -> Sample.drive n w = Some w' -> exists taken', reachable taken' w'.
Proof.
  revert taken w. induction n as [|n IH]; intros taken w Hw; cbn [Sample.drive]; [intros [= <-]; by exists taken|].
  destruct (Sample.answer (state w)) as [data|]; [|done]. cbn.
  destruct (continue_flow _ _ _ data w) as [[[]|x] w1] eqn:Hc; [|done]. eapply IH. by eapply reach_continue.
Qed.

Lemma drive_reachable n w : Sample.drive (S n) Sample.start = Some w -> exists taken, reachable taken w.
Proof.
  cbn [Sample.drive]. cbn [Sample.answer Sample.start state step new_flow]. cbn [mbind option_bind].
  destruct (continue_flow _ _ _ _ Sample.start) as [[[]|x] w1] eqn:Hc; [|done]. eapply drive_continues.
  eapply reach_new; [| |exact Hc]; reflexivity.
Qed.

Lemma drive_result {A} (f : Sample.W -> A) n a :
  f <$> Sample.drive n Sample.start = Some a -> exists w, Sample.drive n Sample.start = Some w /\ f w = a.
Proof. destruct (Sample.drive n Sample.start) as [w|]; [|done]. intros [= <-]. by exists w. Qed.

(** The setup of a committee of two, to the end. *)
Lemma setup_context_complete_witness :
  exists w, Sample.drive 24 Sample.start = Some w /\ step (state w) = StepDone /\ complete [1] (ctx (state w)).
Proof.
  destruct (drive_result (fun w => (step (state w), bool_decide (committee_data (ctx (state w)) = None))) 24 (StepDone, false))
    as (w & Hd & Hs); [vm_compute; reflexivity|].
  injection Hs as Hs Hc. apply bool_decide_eq_false in Hc.
  destruct (drive_reachable 23 w Hd) as [taken Hw].
  destruct (setup_context_complete Regtest "drp.yaml" 1 [6] taken w Hw) as (_ & _ & Hdone & _).
  exists w. split; [exact Hd|]. split; [exact Hs|]. destruct (Hdone Hs) as [Hn|Hcomplete]; [|exact Hcomplete].
  destruct (Hc Hn).
Defined.

Abbreviation continuing := (continue_flow Regtest "drp.yaml" 1).

Lemma continue_adds data taken w :
  reachable taken w -> trace (continuing data w).2 = trace w ++ drop (length (trace w)) (trace (continuing data w).2).
Proof.
  intros Hw. destruct (continue_as_complete Regtest "drp.yaml" 1 data w) as [_ ->].
  destruct (deposit_complete Regtest "drp.yaml" 1 [6] data w (setup_reachable_ok _ _ _ _ taken w Hw)) as (l & -> & _).
  by rewrite drop_app_length.
Qed.

Definition deposits (id : Z) (key : bytes) (x : Effect) : bool :=
  match x with Called (CallDepositAggregatedKey i k) => (i =? id) && bool_decide (k = key) | _ => false end.

Lemma aggregated_key_deposited_last_witness :
  exists w taken k, Sample.drive 22 Sample.start = Some w /\ step (state w) = StepFullPenalizationSetup /\
    upto [1] 12 (ctx (state (continuing Sample.penalization_done w).2)) /\ reachable taken w /\ taken_for_aggregated taken k.
Proof.
  destruct (drive_result (fun w => existsb (deposits 7 [42])
    (drop (length (trace w)) (trace (continuing Sample.penalization_done w).2))) 22 true)
    as (w & Hd & Hf); [vm_compute; reflexivity|].
  destruct (drive_reachable 21 w Hd) as [taken Hw]. pose proof (continue_adds Sample.penalization_done taken w Hw) as Ht.
  apply existsb_exists in Hf as (x & Hx & Hdep). apply list_elem_of_In in Hx.
  destruct x as [|[| |id key]|]; [discriminate|discriminate|discriminate| |discriminate].
  destruct (aggregated_key_deposited_last Regtest "drp.yaml" 1 [6] taken Sample.penalization_done w _ _ _ id key Hw
    (surjective_pairing (continuing Sample.penalization_done w)) Ht Hx) as (Hs & Hu & d & k & _ & _ & _ & _ & Hk).
  exists w, taken, k. split; [exact Hd|]. split; [exact Hs|]. split; [exact Hu|]. split; [exact Hw|exact Hk].
Defined.

Lemma funding_outputs_match_witness :
  exists req a b c fee,
    trace (fund_protocol Regtest Sample.funding).2 = [Sent (SendFunds req (Batch [a; b; c]) (Some fee))] /\
    pays (replicate 32 8) 1 b (mkPartialUtxo (replicate 32 8) 1 (Some 100) (Some (SegwitPublicKey 100 [0; 20; 2; 1] [2; 1]))).
Proof.
  destruct (funding_outputs_match Regtest Sample.funding (fund_protocol Regtest Sample.funding).2 Sample.funded Sample.funded
    [0] (replicate 32 8) Sample.funding_utxos) as (req & a & b & c & fee & Ht & _ & Hb & _).
  - reflexivity.
  - split; reflexivity.
  - reflexivity.
  - reflexivity.
  - exists req, a, b, c, fee. split; [exact Ht|exact Hb].
Defined.

Lemma pair_requests_agree_witness :
  exists r r' : PairwiseKeyReq, pw_id r = pw_id r' /\ pw_participants r = pw_participants r'.
Proof.
  destruct (pair_requests_agree (me := Sample.services [0]) (me' := Sample.services [1]) CommitteeSetup.Sample.committee_data
    CommitteeSetup.Sample.addrs 0 1 (CommitteeSetup.Sample.member 0 Prover) (CommitteeSetup.Sample.member 1 Verifier)
    (SetupKey (pairwise_aggregated_key_protocol_id (committee_uuid CommitteeSetup.Sample.committee_data) 0 1)
       (take 2 CommitteeSetup.Sample.addrs) None NO_LEADER_IDX) Sample.start Sample.start)
    as (r & r' & w1 & w1' & _ & _ & _ & _ & Hid & Hp).
  - reflexivity.
  - reflexivity.
  - reflexivity.
  - reflexivity.
  - lia.
  - left. reflexivity.
  - reflexivity.
  - exists r, r'. split; [exact Hid|exact Hp].
Defined.

End Witness.
