(* ===== verification/SetupProcessor.v ===== *)
(** * The committee setup processor (crates/coordinator/src/flows/committee/setup_committee_processor.rs)

    It starts a setup for every request to join a stream, routes the answers of
    BitVMX and the confirmed events of the committee registry to the setups, and
    tells BitVMX the settings of the bridge when it starts. *)

From Stdlib Require Import Ascii.
From stdpp Require Import prelude gmap strings pretty.
From S2P Require Import Prelude BlockHeader Types BlockchainTracker Events Bitvmx NativeBridge Flow Processor CoordinatorStore Inputs.
From S2P Require Import CommitteeSetup SetupCommitteeFlow.
Open Scope Z_scope.

(** [Uuid::from_bytes(b"UNION_BRIDGE-000")] *)
Definition GLOBAL_SETTINGS_UUID : bytes := str_bytes "UNION_BRIDGE-000".

#[export] Instance setup_filed `{FlowCodecs} : Filed State := flow_id.

Section Processor.
Context `{FlowCodecs, !CommitteeCodecs, Keccak, Sha256, !EnvVars G, !BitvmxBroker G, !CommitteeServices G,
  !SetupServices G, HashOrder}.

(** The clock, the deletion of a stored setup, and loading all of them, which gives
    what was saved, or fails *)
Class SetupProcessorServices := {
  setup_now : G -> Z;
  delete_setup : bytes -> SR G string unit;
  load_setups : SR G string unit
}.

Context `{!SetupProcessorServices} (bitcoin_network : Network) (drp_program_definition : string) (btc_confirmations : Z)
  (required_confirmations : Z).

(** There are no tables besides the events, and none is stored. *)
Abbreviation P := (Processor State RskPegManagerEvents (Env G) Effect unit unit).
Abbreviation continuing := (continue_flow bitcoin_network drp_program_definition btc_confirmations).

(** ** Terminal setups *)

Definition delete_stored_setup (k : bytes) : SR P FlowError unit :=
  delete_stored (fun k => zoom snd (fun g e => (e.1, g)) (with_message (delete_setup k))) k.

(** Failures to delete are logged. *)
Definition cleanup_terminal_flows : SR P FlowError unit :=
  p ← sget;
  let terminal := (filter (fun kv => is_terminal (step kv.2) = true) (shuffle (map_to_list (flows p)))).*1 in
  for_each terminal (fun id =>
    found ← lookup_flow id;
    match found with
    | Some s =>
        _ ← set_flows (base.delete id);
        _ ← catch (delete_stored_setup (flow_id s));
        mret tt
    | None => mret tt
    end).

Definition fail_flow (id : bytes) : SR P FlowError unit :=
  found ← lookup_flow id;
  _ ← match found with
      | Some _ => with_flow id mark_failed
      | None => mret tt
      end;
  cleanup_terminal_flows.

(** ** Routing *)

Definition continue_found (found : option bytes) (data : StepData) : SR P FlowError unit :=
  match found with
  | Some id => with_flow id (continuing data)
  | None => mret tt
  end.

Definition get_flow_for_bitvmx_response (req_id : bytes) : SR P FlowError (option bytes) :=
  find_flow (fun s => is_waiting_for_bitvmx_request s req_id).

Definition dispatch_to_flow (req_id : bytes) (data : StepData) : SR P FlowError unit :=
  found ← get_flow_for_bitvmx_response req_id; continue_found found data.

Definition dispatch_to_flow_by_program_id (program_id : bytes) (data : StepData) : SR P FlowError unit :=
  found ← find_flow (fun s => is_waiting_for_dispute_core_variable s program_id); continue_found found data.

Definition get_flow_for_stream_id (stream_id : Z) (expected_step : Steps) : SR P FlowError (option bytes) :=
  find_flow (fun s => bool_decide (step s = expected_step) && is_for_stream s stream_id).

(** Two setups of one committee are not routed to. *)
Definition get_flow_for_committee_pending (committee_id : Z) (expected_step : Steps) : SR P FlowError (option bytes) :=
  p ← sget;
  if negb (im_member committee_id (penv p).1) then mret None else
  match (filter (fun kv => bool_decide (step kv.2 = expected_step) && is_for_committee kv.2 committee_id = true)
           (shuffle (map_to_list (flows p)))).*1 with
  | [id] => mret (Some id)
  | _ => mret None
  end.

(** ** Confirmed events *)

Definition process_confirmed_rsk_event (event : RskPegManagerEvents) : SR P FlowError unit :=
  match event with
  | NewCommitteePending e =>
      found ← get_flow_for_stream_id (rc_streamId (nc_committee (ev_inner e))) StepApplyToStream;
      continue_found found (DataPendingCommittee e)
  | AllCommunicationDataReady e =>
      found ← get_flow_for_committee_pending (cr_committeeId (ev_inner e)) StepDepositP2PDataAuthoritativeCheckpoint;
      continue_found found (DataReadyCommunicationData e)
  | NewCommitteeReady e =>
      found ← get_flow_for_committee_pending (nc_committeeId (ev_inner e)) StepDepositAggregatedKey;
      continue_found found (DataReadyCommittee e)
  | _ => mret tt
  end.

(** The events that need confirmations, with their identifiers *)
Definition managed_event (event : RskPegManagerEvents) : option (string * bool * BlockNumber) :=
  match event with
  | NewCommitteePending e =>
      Some (pretty (nc_committeeId (ev_inner e)) +:+ "-pending", ev_removed e, ev_block_number e)
  | AllCommunicationDataReady e =>
      Some (pretty (cr_committeeId (ev_inner e)) +:+ "-data-ready", ev_removed e, ev_block_number e)
  | NewCommitteeReady e =>
      Some (pretty (nc_committeeId (ev_inner e)) +:+ "-ready", ev_removed e, ev_block_number e)
  | _ => None
  end.

(** ** Inputs *)

Definition process_user_request (req : UserRequests) : SR P FlowError unit :=
  _ ← cleanup_terminal_flows;
  match req with
  | ApplyToStreamRequest input =>
      id ← on_services (fun _ => FlowPanic "getrandom") (zoom snd (fun g e => (e.1, g)) new_v4);
      p ← sget;
      created ← with_new_flow (new_flow id (setup_now (penv p).2)) (continuing (DataUserRequest input));
      set_flows (<[id := created.2]>)
  | Admin (FailFlow kind id _) => if bool_decide (kind = KindCommitteeSetup) then fail_flow id else mret tt
  | _ => mret tt
  end.

Definition process_new_bitvmx_event (event : OutgoingBitVMXApiMessages) : SR P FlowError unit :=
  _ ← cleanup_terminal_flows;
  match event with
  | MsgCommInfo req_id comm_info => dispatch_to_flow req_id (DataCommInfo comm_info)
  | MsgAggregatedPubkey req_id pubkey =>
      found ← get_flow_for_bitvmx_response req_id;
      match found with
      | Some id =>
          s ← lookup_flow id;
          let is_pairwise := from_option (fun s => is_pairwise_aggregated_key_request s req_id) false s in
          with_flow id (continuing (if is_pairwise then DataPairwiseAggregatedKey req_id pubkey else DataPublicKey pubkey))
      | None => mret tt
      end
  | MsgVariableString program_id var_name json =>
      if bool_decide (var_name = OP_COSIGN_UTXOS) || bool_decide (var_name = WT_INIT_CHALLENGE_UTXOS)
      then dispatch_to_flow_by_program_id program_id (DataDisputeCoreVariable program_id var_name json)
      else mret tt
  | MsgAggregatedPubkeyNotReady _ => flow_bail "BitVMX cannot aggregate dispute keys for request"
  | MsgWalletError _ _ => flow_bail "BitVMX WalletError"
  | MsgWalletNotReady _ => flow_bail "BitVMX WalletNotReady"
  | MsgFundingBalance req_id balance => dispatch_to_flow req_id (DataBitVmxFundingBalance balance)
  | MsgPubKey req_id public_key => dispatch_to_flow req_id (DataPublicKey public_key)
  | MsgSignedMessage sign_req_id r s rec_id => dispatch_to_flow sign_req_id (DataSignedMessage r s rec_id)
  | MsgSetupCompleted req_id => dispatch_to_flow req_id (DataSetupCompleted req_id)
  | MsgFundsSent req_id tx_id => dispatch_to_flow req_id (DataFundsSent tx_id)
  | _ => mret tt
  end.

Definition process_new_rsk_event (event : RskPegManagerEvents) : SR P FlowError unit :=
  _ ← cleanup_terminal_flows;
  if required_confirmations =? 0 then process_confirmed_rsk_event event else
  match managed_event event with
  | None => mret tt
  | Some (id, is_removal, block_num) =>
      if (is_removal : bool) then _ ← on_confirmer (stop_confirming_event id); mret tt
      else on_confirmer (confirm_event "Starting confirming" id required_confirmations block_num event)
  end.

Definition process_new_block (block : RskBlockAndUncles) : SR P FlowError unit :=
  _ ← cleanup_terminal_flows;
  had_events ← confirm_block block process_confirmed_rsk_event;
  if (had_events : bool) then cleanup_terminal_flows else mret tt.

(** The view keeps its blocks. *)
Definition shutdown : SR P FlowError unit := on_confirmer (set_events (fun _ => ∅)).

Definition active_flows (p : P) : list (bytes * Steps * option Z) :=
  (fun kv => (flow_id kv.2, step kv.2, created_at kv.2)) <$>
  filter (fun kv => is_terminal (step kv.2) = false) (shuffle (map_to_list (flows p))).

(** ** Starting *)

Definition new_processor (disk : gmap bytes State) (e : Env G) : P :=
  mkProcessor ∅ ∅ new_confirmer tt disk None e [] [].

Definition settings_message : BitvmxMessage :=
  SetVar GLOBAL_SETTINGS_UUID "union_settings" (VarUnionSettings union_settings_with_defaults).

(** The message is recorded when it is sent. *)
Definition send_union_settings : SR P FlowError unit :=
  _ ← on_services id (zoom snd (fun g e => (e.1, g)) (with_message (broker_send settings_message)));
  smodify (fun p => mkProcessor (flows p) (signature_flows p) (confirmer p) (tables p) (disk p) (disk_tables p)
                      (penv p) (ptrace p ++ [Sent settings_message]) (sig_calls p)).

Definition load_stored_setups : SR P FlowError unit :=
  on_services id (zoom snd (fun g e => (e.1, g)) (with_message load_setups)).

(** Every stored setup is built before one is filed. *)
Fixpoint restore_all (l : list State) : result FlowError (list State) :=
  match l with
  | [] => Ok []
  | s :: l => s ← from_saved_state s; rest ← restore_all l; Ok (s :: rest)
  end.

(** [SetupCommitteeProcessor::new] *)
Definition start : SR P FlowError unit :=
  _ ← expect "Failed to send UnionSettings to BitVMX" send_union_settings;
  _ ← expect "Failed to load flows from store" load_stored_setups;
  p ← sget;
  restored ← slift (restore_all (shuffle (map_to_list (disk p))).*2);
  set_flows (fun _ => list_to_map ((fun s => (filed_under s, s)) <$> restored)).

(** ** Inputs, one at a time *)

Inductive Input :=
| InBlock (block : RskBlockAndUncles)
| InRskEvent (event : RskPegManagerEvents)
| InBitvmxEvent (event : OutgoingBitVMXApiMessages)
| InUserRequest (req : UserRequests)
| InShutdown.

Definition process (i : Input) : SR P FlowError unit :=
  match i with
  | InBlock block => process_new_block block
  | InRskEvent event => process_new_rsk_event event
  | InBitvmxEvent event => process_new_bitvmx_event event
  | InUserRequest req => process_user_request req
  | InShutdown => shutdown
  end.

End Processor.

(** ** Relations that every handler respects *)

Section Handled.
Context `{FlowCodecs, !CommitteeCodecs, Keccak, Sha256, !EnvVars G, !BitvmxBroker G, !CommitteeServices G,
  !SetupServices G, HashOrder, !SetupProcessorServices (G := G)} (bitcoin_network : Network) (drp_program_definition : string)
  (btc_confirmations : Z) (required_confirmations : Z).
Abbreviation P := (Processor State RskPegManagerEvents (Env G) Effect unit unit).
Abbreviation continuing := (continue_flow bitcoin_network drp_program_definition btc_confirmations).

(** Data that announce a committee are left to each relation. *)
Definition ordinary (d : StepData) : bool :=
  match d with DataPendingCommittee _ | DataUserRequest _ => false | _ => true end.

Class Handled (R : bool -> P -> P -> Prop) := {
  #[global] handled_frames :: Frames R;
  handled_continue k d : ordinary d = true -> every R (with_flow k (continuing d));
  handled_failed k : every R (with_flow k mark_failed);
  handled_remove k : every R (set_flows (base.delete k));
  handled_delete k : every R (delete_stored_setup k);
  handled_create id now input : every R (
    created ← with_new_flow (new_flow id now) (continuing (DataUserRequest input)); set_flows (<[id := created.2]>))
}.

Context (R : bool -> P -> P -> Prop) `{!Handled R}.
Hint Extern 0 (Handled _) => assumption : every.
Hint Resolve handled_continue handled_failed handled_remove handled_delete handled_create : every.
Hint Extern 1 (ordinary _ = true) => reflexivity : every.

Lemma setup_every_cleanup : every R cleanup_terminal_flows.
Proof. unfold cleanup_terminal_flows. prove_every. Qed.
Hint Resolve setup_every_cleanup : every.

Lemma setup_every_found found d :
  (forall id, every R (with_flow id (continuing d))) ->
  every R (continue_found bitcoin_network drp_program_definition btc_confirmations found d).
Proof. intros Hd. unfold continue_found. prove_every. Qed.

Lemma setup_every_dispatch req_id d :
  ordinary d = true -> every R (dispatch_to_flow bitcoin_network drp_program_definition btc_confirmations req_id d).
Proof.
  intros Hd. unfold dispatch_to_flow, get_flow_for_bitvmx_response. apply every_bind; [apply _|prove_every|intros found].
  apply setup_every_found. intros. by apply handled_continue.
Qed.

Lemma setup_every_program pid d :
  ordinary d = true -> every R (dispatch_to_flow_by_program_id bitcoin_network drp_program_definition btc_confirmations pid d).
Proof.
  intros Hd. unfold dispatch_to_flow_by_program_id. apply every_bind; [apply _|prove_every|intros found].
  apply setup_every_found. intros. by apply handled_continue.
Qed.
Hint Resolve setup_every_dispatch setup_every_program : every.

Lemma setup_every_pending i st : every R (get_flow_for_committee_pending i st).
Proof. unfold get_flow_for_committee_pending. prove_every. Qed.

Lemma setup_every_confirmed event :
  (forall e k, event = NewCommitteePending e -> every R (with_flow k (continuing (DataPendingCommittee e)))) ->
  every R (process_confirmed_rsk_event bitcoin_network drp_program_definition btc_confirmations event).
Proof.
  intros Hp. unfold process_confirmed_rsk_event. destruct event; try (apply every_ret; apply _).
  - apply every_bind; [apply _|unfold get_flow_for_stream_id; prove_every|]. intros found. apply setup_every_found.
    intros id. by apply Hp.
  - apply every_bind; [apply _|apply setup_every_pending|]. intros found. apply setup_every_found.
    intros id. by apply handled_continue.
  - apply every_bind; [apply _|apply setup_every_pending|]. intros found. apply setup_every_found.
    intros id. by apply handled_continue.
Qed.

Lemma setup_every_user req : every R (process_user_request bitcoin_network drp_program_definition btc_confirmations req).
Proof.
  unfold process_user_request, fail_flow. apply every_bind; [apply _|prove_every|intros _].
  destruct req as [|input|[kind id reason]]; [prove_every| |prove_every].
  apply every_bind; [apply _|prove_every|intros id]. apply every_bind; [apply _|prove_every|intros p].
  apply handled_create.
Qed.

Lemma setup_every_bitvmx event : every R (process_new_bitvmx_event bitcoin_network drp_program_definition btc_confirmations event).
Proof.
  unfold process_new_bitvmx_event, get_flow_for_bitvmx_response. apply every_bind; [apply _|prove_every|intros _].
  destruct event; lazymatch goal with |- context [is_pairwise_aggregated_key_request] => idtac | |- _ => solve [prove_every] end.
  apply every_bind; [apply _|prove_every|intros found].
  destruct found as [id|]; [|prove_every]. apply every_bind; [apply _|prove_every|intros s]. cbn zeta.
  apply handled_continue. by destruct (from_option _ _ _).
Qed.

Lemma setup_every_rsk event :
  (required_confirmations = 0 ->
   every R (process_confirmed_rsk_event bitcoin_network drp_program_definition btc_confirmations event)) ->
  (forall id, every R (on_confirmer (stop_confirming_event id))) ->
  (forall id removed n, managed_event event = Some (id, removed, n) ->
     every R (on_confirmer (confirm_event "Starting confirming" id required_confirmations n event))) ->
  every R (process_new_rsk_event bitcoin_network drp_program_definition btc_confirmations required_confirmations event).
Proof.
  intros Hnow Hstop Hconfirm. unfold process_new_rsk_event. apply every_bind; [apply _|prove_every|intros []].
  destruct (Z.eqb_spec required_confirmations 0) as [Hz|_]; [by apply Hnow|].
  destruct (managed_event event) as [[[id removed] n]|] eqn:Hi; [|prove_every].
  specialize (Hconfirm id removed n eq_refl). prove_every.
Qed.

End Handled.

Section NewBlock.
Context `{FlowCodecs, !CommitteeCodecs, Keccak, Sha256, !EnvVars G, !BitvmxBroker G, !CommitteeServices G,
  !SetupServices G, HashOrder, !SetupProcessorServices (G := G)} (bitcoin_network : Network) (drp_program_definition : string)
  (btc_confirmations : Z).
Abbreviation P := (Processor State RskPegManagerEvents (Env G) Effect unit unit).
Abbreviation confirmed := (process_confirmed_rsk_event bitcoin_network drp_program_definition btc_confirmations).
Abbreviation Handled := (Handled bitcoin_network drp_program_definition btc_confirmations).

#[export] Instance setup_same_confirmer : Handled (same_confirmer (X := Effect) (E := Env G)).
Proof.
  split; intros; [apply _|auto with every..|unfold delete_stored_setup; apply same_confirmer_delete_stored|].
  apply every_bind; [apply _|auto with every..].
Qed.

Lemma setup_new_block_rule (R : bool -> P -> P -> Prop) `{!Handled R} block p :
  every R (on_confirmer (on_tracker (update block))) ->
  (forall id, every R (on_confirmer (stop_confirming_event id))) ->
  (forall c1 key e, on_tracker (update block) (confirmer p) = (Ok tt, c1) ->
     events_confirming c1 !! key = Some e -> is_confirmed (confirmation e) (blockchain_view c1) = true ->
     every R (confirmed (event_data e))) ->
  let m := process_new_block bitcoin_network drp_program_definition btc_confirmations block in
  R (panicked (fst (m p))) p (snd (m p)).
Proof.
  intros Hupd Hstop Hev m. unfold m, process_new_block.
  pose proof (setup_every_cleanup bitcoin_network drp_program_definition btc_confirmations R p) as HR.
  pose proof (setup_every_cleanup bitcoin_network drp_program_definition btc_confirmations same_confirmer p) as Hc.
  unfold same_confirmer in Hc. destruct (cleanup_terminal_flows p) as [[[]|x] p1] eqn:Hb; cbn in HR, Hc.
  2: { by rewrite (SR_bind_err _ _ _ _ _ Hb). }
  rewrite (SR_bind_run _ _ _ _ _ Hb). eapply composes_trans; [exact HR|].
  assert (Hconf : R (panicked (fst (confirm_block block confirmed p1))) p1 (snd (confirm_block block confirmed p1))).
  { apply (confirm_block_rule R); [done| |done|by rewrite Hc].
    intros d. apply (setup_every_confirmed bitcoin_network drp_program_definition btc_confirmations same_confirmer).
    intros. auto with every. }
  assert (Hrest : forall had : bool, every R (if had then cleanup_terminal_flows else mret tt)).
  { intros []; [apply (setup_every_cleanup bitcoin_network drp_program_definition btc_confirmations R)|prove_every]. }
  destruct (confirm_block _ _ p1) as [[had|x] p2] eqn:Hcb; cbn in Hconf.
  - rewrite (SR_bind_run _ _ _ _ _ Hcb). eapply composes_trans; [exact Hconf|apply Hrest].
  - by rewrite (SR_bind_err _ _ _ _ _ Hcb).
Qed.

(** Without terminal setups and waiting events a block changes nothing. *)
Lemma idle_block block (p : P) :
  (filter (fun kv => is_terminal (step kv.2) = true) (shuffle (map_to_list (flows p)))).*1 = [] ->
  no_events (confirmer p) = true ->
  process_new_block bitcoin_network drp_program_definition btc_confirmations block p = (Ok tt, p).
Proof.
  intros Hterm Hev. unfold process_new_block, cleanup_terminal_flows, confirm_block.
  unfold mbind, SR_bind, sget. rewrite Hterm. cbn. by rewrite Hev.
Qed.

End NewBlock.

(** ** The invariant of the processor *)

Section Invariant.
Context `{FlowCodecs, !CommitteeCodecs, Keccak, Sha256, !EnvVars G, !BitvmxBroker G, !CommitteeServices G,
  !SetupServices G, HashOrder, !SetupProcessorServices (G := G)} (bitcoin_network : Network) (drp_program_definition : string)
  (btc_confirmations : Z) (required_confirmations : Z).
Abbreviation P := (Processor State RskPegManagerEvents (Env G) Effect unit unit).
Abbreviation me := (my_address (E := G)).
Abbreviation continuing := (continue_flow bitcoin_network drp_program_definition btc_confirmations).
Abbreviation Handled := (Handled bitcoin_network drp_program_definition btc_confirmations).

(** No events are stored. *)
Definition no_stored_events (_ : unit) : gmap string (ConfirmableEventSnapshot * RskPegManagerEvents) := ∅.

Abbreviation setup_memory_ok := (memory_ok (N := unit) (state_ok me) managed_event required_confirmations).
Abbreviation setup_store_ok := (store_ok (state_ok me) managed_event required_confirmations no_stored_events).
Abbreviation inv := (inv (state_ok me) managed_event required_confirmations no_stored_events
  (S := State) (E := Env G) (X := Effect) (Q := unit)).

Lemma lands_kept s (m : SR (World State (Env G) Effect) FlowError unit) :
  (forall w, state w = s -> saved_ok (flow_id s) (saved w) -> lands (flow_id s) (m w)) -> kept (state_ok me) s m.
Proof.
  intros Hm w Hs Hv. specialize (Hm w Hs Hv). unfold lands in Hm.
  destruct (m w) as [[a|[causes|msg]] w']; cbn in *; [by destruct Hm as (? & ? & ?)|done|done].
Qed.

Lemma continue_kept s d : state_ok me s -> kept (state_ok me) s (continuing d).
Proof. intros Hok. apply lands_kept. intros w Hs Hv. apply continue_ok. unfold holds. by rewrite Hs. Qed.

Lemma begin_kept id now input : kept (state_ok me) (new_flow id now) (continuing (DataUserRequest input)).
Proof. apply lands_kept. intros w Hs Hv. by apply (begin_ok _ _ _ _ input now). Qed.

Lemma mark_failed_kept s : state_ok me s -> kept (state_ok me) s (mark_failed : SR (World State (Env G) Effect) FlowError unit).
Proof.
  intros Hok w Hs Hv. destruct (mark_failed_ok (flow_id s) w) as [(Hok' & Hid & Hv') _].
  { apply flow_ok_failing. unfold flow_ok. by rewrite Hs. }
  split; [done|exact Hv'].
Qed.

#[export] Instance setup_inv_handled : Handled inv.
Proof.
  split; intros; [apply _|apply inv_with_kept_flow; intros; by apply continue_kept|
    apply inv_with_kept_flow; intros; by apply mark_failed_kept| |apply inv_delete_stored|].
  - intros p. apply inv_set_flows. intros Hfl k' s [_ Hs]%lookup_delete_Some. auto.
  - change (every inv (created ← with_new_flow (new_flow id now) (continuing (DataUserRequest input));
      set_flows (<[filed_under (new_flow id now) := created.2]>))). apply inv_with_kept_new_flow, begin_kept.
Qed.

Lemma setup_inv_confirmed event :
  every inv (process_confirmed_rsk_event bitcoin_network drp_program_definition btc_confirmations event).
Proof. apply setup_every_confirmed; [apply _|]. intros. apply inv_with_kept_flow. intros. by apply continue_kept. Qed.

(** The events are forgotten, the view is kept. *)
Lemma setup_inv_shutdown : every inv shutdown.
Proof.
  intros p [Hfl [Hv Hc Hev]] [Hd Ht]. unfold shutdown. rewrite on_confirmer_run. split; [intros _|by split].
  split; [done|]. by split.
Qed.

(** Blocks have numbers below the last one of 64 bits. *)
Definition input_ok (i : Input) : Prop :=
  match i with InBlock block => 0 <= bu_number block < 2 ^ 64 - 1 | _ => True end.

Abbreviation process := (process bitcoin_network drp_program_definition btc_confirmations required_confirmations).

Lemma setup_inv_process i p : input_ok i -> inv (panicked (fst (process i p))) p (snd (process i p)).
Proof.
  intros Hi. destruct i as [block|event|event|req|]; cbn [SetupProcessor.process].
  - apply (setup_new_block_rule _ _ _ inv); [by apply inv_update|apply inv_stop|]. intros. apply setup_inv_confirmed.
  - apply setup_every_rsk with (R := inv); [apply _|intros; apply setup_inv_confirmed|apply inv_stop|].
    intros id rm n. apply inv_confirm.
  - apply (setup_every_bitvmx bitcoin_network drp_program_definition btc_confirmations inv).
  - apply (setup_every_user bitcoin_network drp_program_definition btc_confirmations inv).
  - apply setup_inv_shutdown.
Qed.

(** *** Starting from the store *)

Lemma restore_all_run l : Forall (state_ok me) l -> restore_all l = Ok l.
Proof.
  induction 1 as [|s l Hs Hl IH]; [done|]. cbn. unfold from_saved_state.
  destruct (so_input _ _ Hs) as [input ->]. cbn. by rewrite IH.
Qed.

(** The broker takes the settings and the store gives the setups, or the process
    panics. *)
Lemma setup_start_run (p : P) :
  setup_store_ok p ->
  let after fl g l := mkProcessor fl (signature_flows p) (confirmer p) (tables p) (disk p) (disk_tables p)
                        ((penv p).1, g) (ptrace p ++ l) (sig_calls p) in
  start p =
  match broker_send settings_message (penv p).2 with
  | (Err _, g) => (Err (FlowPanic "Failed to send UnionSettings to BitVMX"), after (flows p) g [])
  | (Ok _, g) =>
      match load_setups g with
      | (Err _, g) => (Err (FlowPanic "Failed to load flows from store"), after (flows p) g [Sent settings_message])
      | (Ok _, g) => (Ok tt, after (disk p) g [Sent settings_message])
      end
  end.
Proof.
  intros Hs after. unfold after, start, expect, send_union_settings, load_stored_setups, on_services, zoom, with_message, set_flows.
  unfold mbind, SR_bind, smodify, sget.
  destruct (broker_send settings_message (penv p).2) as [[[]|y] g]; [|cbn; by rewrite app_nil_r]. cbn [penv snd fst id].
  destruct (load_setups g) as [[[]|y] g2]; [|done]. cbn [disk].
  rewrite (restore_all_run (shuffle (map_to_list (disk p))).*2).
  2: { apply Forall_forall. intros s Hin. apply list_elem_of_fmap in Hin as ([k s'] & -> & Hin). rewrite shuffle_perm in Hin.
       apply elem_of_map_to_list in Hin. by destruct (store_flows _ _ _ _ _ Hs _ _ Hin). }
  cbn. by rewrite (restored_flows (state_ok me)) by apply Hs.
Qed.

(** *** Runs of the process

    The flag tells that the process is not running; the list is its past. *)
Inductive reachable : bool -> list (Past P Input) -> P -> Prop :=
| R_empty e : reachable true [] (new_processor ∅ e)
| R_start b past p e :
    reachable b past p ->
    let r := start (new_processor (disk p) e) in reachable (negb (is_ok (fst r))) (past ++ [Started]) (snd r)
| R_env past p e : reachable false past p -> reachable false past (set_env e p)
| R_input past p i :
    reachable false past p -> input_ok i ->
    let r := process i p in reachable (panicked (fst r)) (past ++ [Took p i]) (snd r).

Lemma setup_processor_ok b past p : reachable b past p -> (b = false -> setup_memory_ok p) /\ setup_store_ok p.
Proof.
  induction 1 as [e|b past p e Hp [_ [Hd Ht]]|past p e Hp [Hm Hs]|past p i Hp [Hm Hs] Hi].
  - split; [done|]. split; [apply filed_empty|done].
  - assert (Hnew : setup_store_ok (new_processor (disk p) e)) by (by split).
    unfold r. rewrite (setup_start_run _ Hnew). destruct (broker_send _ _) as [[a|y] g]; cbn; [|by split].
    destruct (load_setups g) as [[a'|y] g2]; cbn; [|by split].
    split; [intros _; split; [done|apply confirmer_ok_new]|by split].
  - split; [intros _; destruct (Hm eq_refl); by split|destruct Hs; by split].
  - destruct (setup_inv_process i p Hi) as [Hm' Hs']; auto.
Qed.

End Invariant.

(** ** The committees that are joined *)

Section Actions.
Context `{FlowCodecs, !CommitteeCodecs, Keccak, Sha256, !EnvVars G, !BitvmxBroker G, !CommitteeServices G,
  !SetupServices G, HashOrder, !SetupProcessorServices (G := G)} (bitcoin_network : Network) (drp_program_definition : string)
  (btc_confirmations : Z) (required_confirmations : Z).
Abbreviation P := (Processor State RskPegManagerEvents (Env G) Effect unit unit).
Abbreviation process := (process bitcoin_network drp_program_definition btc_confirmations required_confirmations).
Abbreviation confirmed := (process_confirmed_rsk_event bitcoin_network drp_program_definition btc_confirmations).
Abbreviation acts C := (acts (joins C) (fun _ => True) (S := State) (D := RskPegManagerEvents) (E := Env G) (Q := unit)
  (N := unit)).

Lemma setup_acts_handled C : Handled bitcoin_network drp_program_definition btc_confirmations (acts C).
Proof.
  split; intros; [apply _|apply acts_with_flow..| |apply acts_delete_stored|].
  - apply joins_continue. by destruct d.
  - apply joins_mark_failed.
  - intros p. apply acts_set_flows. auto.
  - apply every_bind; [apply _|by apply acts_with_new_flow, joins_continue|]. intros created. by apply acts_insert.
Qed.

Lemma setup_acts_confirmed (C : Z -> Prop) event :
  (forall e, event = NewCommitteePending e -> C (nc_committeeId (ev_inner e))) -> every (acts C) (confirmed event).
Proof.
  intros HC. pose proof (setup_acts_handled C). apply setup_every_confirmed; [done|]. intros e k He.
  apply acts_with_flow, joins_continue. by apply HC.
Qed.

(** The committee of a pending event that this input makes final, or of the input
    itself if no confirmations are required *)
Definition announced_finally (p : P) (i : Input) (committee : Z) : Prop :=
  exists e, committee = nc_committeeId (ev_inner e) /\
    match i with
    | InBlock block => final managed_event required_confirmations p block (NewCommitteePending e)
    | InRskEvent event => required_confirmations = 0 /\ event = NewCommitteePending e
    | _ => False
    end.

Lemma setup_acts_process (p : P) i :
  confirmer_ok managed_event required_confirmations (confirmer p) -> input_ok i ->
  acts (announced_finally p i) (panicked (fst (process i p))) p (snd (process i p)).
Proof.
  intros Hok Hi. set (C := announced_finally p i). pose proof (setup_acts_handled C) as Hh.
  destruct i as [block|event|event|req|]; cbn [SetupProcessor.process].
  - apply (setup_new_block_rule _ _ _ (acts C)); [apply acts_on_confirmer|intros; apply acts_on_confirmer|].
    intros c key e Hu He Hc. pose proof (confirmed_final _ _ p block c key e Hok Hi Hu He Hc) as Hf.
    apply setup_acts_confirmed. intros e' He'. exists e'. split; [done|]. by rewrite <- He'.
  - apply setup_every_rsk with (R := acts C); [done| |intros; apply acts_on_confirmer..].
    intros Hz. apply setup_acts_confirmed. intros e ->. by exists e.
  - apply (setup_every_bitvmx _ _ _ (acts C)).
  - apply (setup_every_user _ _ _ (acts C)).
  - apply acts_on_confirmer.
Qed.

End Actions.

(** ** What the processor guarantees *)

Section Guarantees.
Context `{FlowCodecs, !CommitteeCodecs, Keccak, Sha256, !EnvVars G, !BitvmxBroker G, !CommitteeServices G,
  !SetupServices G, HashOrder, !SetupProcessorServices (G := G)} (bitcoin_network : Network) (drp_program_definition : string)
  (btc_confirmations : Z) (required_confirmations : Z).
Abbreviation P := (Processor State RskPegManagerEvents (Env G) Effect unit unit).
Abbreviation me := (my_address (E := G)).
Abbreviation process := (process bitcoin_network drp_program_definition btc_confirmations required_confirmations).
Abbreviation reachable := (reachable bitcoin_network drp_program_definition btc_confirmations required_confirmations).

(** The committee processor keeps its books in order.  Through any number of
    inputs, failures, panics and restarts, every setup in memory and in the store is
    filed under its own identifier and holds what its step needs, and every event
    that awaits confirmations is filed under its name and counts from its own
    block. *)
Theorem setup_processor_invariant (b : bool) past (p : P) :
  reachable b past p ->
  (b = false -> memory_ok (state_ok me) managed_event required_confirmations p) /\ filed (state_ok me) (disk p).
Proof. intros Hp. destruct (setup_processor_ok _ _ _ _ _ _ _ Hp) as [Hm [Hd _]]. by split. Qed.

(** C11: a member joins final committees only.  Whatever arrives, communication data
    are deposited only for a committee whose pending event was waiting and is buried
    under the required number of blocks with this very block, or, if no
    confirmations are required, has just arrived. *)
Theorem setup_joins_final_committees past (p : P) i r p' l id data :
  reachable false past p -> input_ok i -> process i p = (r, p') -> ptrace p' = ptrace p ++ l ->
  Called (CallDepositCommunicationData id data) ∈ l -> announced_finally required_confirmations p i id.
Proof.
  intros Hp Hi Hr Hl Hin. destruct (setup_processor_ok _ _ _ _ _ _ _ Hp) as [Hm _].
  destruct (setup_acts_process bitcoin_network drp_program_definition btc_confirmations required_confirmations p i
    (mem_events _ _ _ _ (Hm eq_refl)) Hi) as [(l' & Hl' & Hf) _].
  rewrite Hr in Hl'. cbn in Hl'. rewrite Hl in Hl'. apply app_inv_head in Hl' as <-.
  rewrite Forall_forall in Hf. exact (Hf _ Hin).
Qed.

(** C19: a restart takes the setups up where they were saved.  A process that starts
    over what any other left behind never fails on what it finds there: it panics only
    if BitVMX does not take the settings, or if the store cannot be read; otherwise
    its setups are exactly the stored ones.  No event waits for confirmations any
    more. *)
Theorem setup_restart_resumes (b : bool) past (p : P) (e : Env G) :
  reachable b past p ->
  let '(r, p') := start (new_processor (disk p) e) in
  disk p' = disk p /\
  match r with
  | Ok _ => reachable false (past ++ [Started]) p' /\ flows p' = disk p /\ events_confirming (confirmer p') = ∅ /\
      ptrace p' = [Sent settings_message]
  | Err x =>
      x = FlowPanic "Failed to send UnionSettings to BitVMX" /\ is_ok (broker_send settings_message e.2).1 = false \/
      x = FlowPanic "Failed to load flows from store" /\
        exists u g, broker_send settings_message e.2 = (Ok u, g) /\ is_ok (load_setups g).1 = false
  end.
Proof.
  intros Hp. pose proof (R_start _ _ _ _ b past p e Hp) as Hr. cbn zeta in Hr.
  destruct (setup_processor_ok _ _ _ _ _ _ _ Hp) as [_ [Hd _]].
  rewrite setup_start_run with (required_confirmations := required_confirmations) in * by (by split).
  cbn [penv new_processor] in *. destruct (broker_send settings_message e.2) as [[[]|y] g]; [|split; [done|by left]].
  destruct (load_setups g) as [[[]|y] g2] eqn:Hl; [done|]. split; [done|]. right. split; [done|]. exists tt, g. by rewrite Hl.
Qed.

End Guarantees.

(** ** A run of one setup *)

Module Sample.

Export SetupCommitteeFlow.Sample.
#[export] Instance order : HashOrder := {| shuffle A l := l; shuffle_perm A l := Permutation_refl l |}.
#[export] Instance processor_services : SetupProcessorServices (G := unit) := {|
  setup_now _ := 0;
  delete_setup _ e := (Ok tt, e);
  load_setups e := (Ok tt, e)
|}.

Abbreviation P := (Processor State RskPegManagerEvents (Env unit) Effect unit unit).
Abbreviation processing := (process Regtest "drp.yaml" 1 2).

(** Inputs that are in range and do not panic *)
Fixpoint run (l : list Input) (p : P) : option P :=
  match l with
  | [] => Some p
  | i :: l =>
      let small := match i with InBlock b => bool_decide (0 <= bu_number b < 2 ^ 64 - 1) | _ => true end in
      if small : bool then
        match processing i p with
        | (r, p') => if panicked r then None else run l p'
        end
      else None
  end.

Definition begin : P := snd (SetupProcessor.start (new_processor ∅ (new_context, tt))).
Definition after (l : list Input) : P := default begin (run l begin).

(** Every request has the identifier [0], as the flow itself. *)
Definition keys (k : Z) : list Input :=
  [InBitvmxEvent (MsgPubKey [0] [k; 1]); InBitvmxEvent (MsgSignedMessage [0] (replicate 32 1) (replicate 32 2) 0)].
Definition applied : list Input :=
  [InUserRequest (ApplyToStreamRequest (mkApplyToStream 1 Prover 100 200 300));
   InBitvmxEvent (MsgFundingBalance [0] (10 ^ 15));
   InBitvmxEvent (MsgCommInfo [0] (mkCommsAddress _ "10.0.0.1:80" "comm"))] ++ keys 1 ++ keys 2 ++ keys 3 ++
  [InBitvmxEvent (MsgFundsSent [0] (replicate 32 8))].
Definition block (n : Z) : Input := InBlock (BlockchainTracker.Sample.bu 1 n).
Definition pending : list Input := [InRskEvent (NewCommitteePending event); block 10].

Lemma setup_run_reachable l past p p' :
  reachable Regtest "drp.yaml" 1 2 false past p -> run l p = Some p' ->
  exists past', reachable Regtest "drp.yaml" 1 2 false past' p'.
Proof.
  revert past p. induction l as [|i l IH]; intros past p Hp Hr; [injection Hr as <-; by exists past|]. cbn [run] in Hr.
  destruct (match i with InBlock b => _ | _ => true end) eqn:Hs; [|discriminate Hr].
  assert (Hi : input_ok i) by (destruct i; try done; by apply bool_decide_eq_true in Hs).
  pose proof (R_input Regtest "drp.yaml" 1 2 past p i Hp Hi) as Hn. cbn zeta in Hn.
  destruct (processing i p) as [r p1]. cbn in Hn. destruct (panicked r); [discriminate Hr|]. by eapply IH.
Qed.

Lemma setup_after_reachable l : exists past, reachable Regtest "drp.yaml" 1 2 false past (after l).
Proof.
  unfold after. pose proof (R_start Regtest "drp.yaml" 1 2 true _ _ (new_context, tt) (R_empty _ _ _ _ (new_context, tt))) as Hs.
  destruct (run l begin) as [p|] eqn:Hr; [|by eexists]. by eapply setup_run_reachable.
Qed.

End Sample.

Section Witnesses.
#[local] Existing Instances Flow.Sample.codecs Flow.Sample.socket_addrs NativeBridge.Sample.crates
  SetupCommitteeFlow.Sample.codecs SetupCommitteeFlow.Sample.keccak SetupCommitteeFlow.Sample.mix_hash
  SetupCommitteeFlow.Sample.mine SetupCommitteeFlow.Sample.setup_services CommitteeSetup.Sample.env_vars
  CommitteeSetup.Sample.broker Sample.order Sample.processor_services.

Lemma setup_processor_invariant_witness :
  let p := Sample.after (Sample.applied ++ Sample.pending) in
  step <$> flows p !! [0] = Some StepApplyToStream /\ filed (state_ok (my_address (E := unit))) (disk p).
Proof.
  cbn zeta. split; [vm_compute; reflexivity|].
  destruct (Sample.setup_after_reachable (Sample.applied ++ Sample.pending)) as [past Hp].
  exact (proj2 (setup_processor_invariant Regtest "drp.yaml" 1 2 false past _ Hp)).
Defined.

(** The block that confirms the pending event makes the member join. *)
Definition joined (id : Z) (x : Effect) : bool :=
  match x with Called (CallDepositCommunicationData i _) => i =? id | _ => false end.

Lemma setup_joins_final_committees_witness :
  announced_finally 2 (Sample.after (Sample.applied ++ Sample.pending)) (Sample.block 11) 7.
Proof.
  set (p := Sample.after (Sample.applied ++ Sample.pending)).
  destruct (Sample.setup_after_reachable (Sample.applied ++ Sample.pending)) as [past Hp]. fold p in Hp.
  set (p' := snd (Sample.processing (Sample.block 11) p)).
  set (l := drop (length (ptrace p)) (ptrace p')).
  assert (Hl : ptrace p' = ptrace p ++ l).
  { destruct (setup_acts_process Regtest "drp.yaml" 1 2 p (Sample.block 11)) as [(l' & Hl' & _) _].
    - apply (setup_processor_ok Regtest "drp.yaml" 1 2 false past p Hp). reflexivity.
    - vm_compute. split; [discriminate|reflexivity].
    - unfold l. fold p' in Hl'. rewrite Hl'. by rewrite drop_app_length. }
  assert (Hin : existsb (joined 7) l = true) by (vm_compute; reflexivity).
  apply existsb_exists in Hin as (x & Hx & Hj). apply list_elem_of_In in Hx.
  destruct x as [|[| i data|]|]; try discriminate Hj. apply Z.eqb_eq in Hj as ->.
  eapply (setup_joins_final_committees Regtest "drp.yaml" 1 2 past p (Sample.block 11) _ p' l 7 data).
  - exact Hp.
  - vm_compute. split; [discriminate|reflexivity].
  - unfold p'. apply surjective_pairing.
  - exact Hl.
  - exact Hx.
Defined.

(** A setup that applied is found again. *)
Lemma setup_restart_resumes_witness :
  let p := Sample.after Sample.applied in
  let '(r, p') := start (new_processor (disk p) (new_context, tt)) in
  r = Ok tt /\ flows p' = disk p /\ step <$> disk p !! [0] = Some StepApplyToStream.
Proof.
  cbn zeta. set (p := Sample.after Sample.applied).
  destruct (Sample.setup_after_reachable Sample.applied) as [past Hp].
  pose proof (setup_restart_resumes Regtest "drp.yaml" 1 2 false past p (new_context, tt) Hp) as Hr.
  assert (Hok : is_ok (fst (start (new_processor (disk p) (new_context, tt)))) = true) by (vm_compute; reflexivity).
  assert (Hstep : step <$> disk p !! [0] = Some StepApplyToStream) by (vm_compute; reflexivity).
  destruct (start (new_processor (disk p) (new_context, tt))) as [[[]|x] p']; [|discriminate Hok].
  split; [reflexivity|]. split; [apply Hr|exact Hstep].
Defined.

(** A restart forgets the events that wait for confirmations.  The pending event
    of a committee waits for its second block.  Without a restart the next block makes
    the member join; after a restart no block ever does, and the setup stays where it
    applied to the stream. *)
Theorem restart_forgets_pending_committee :
  let p := Sample.after (Sample.applied ++ Sample.pending) in
  let resumed := snd (start (new_processor (disk p) (penv p))) in
  step <$> flows (snd (Sample.processing (Sample.block 11) p)) !! [0] = Some StepDepositP2PDataAuthoritativeCheckpoint /\
  step <$> flows resumed !! [0] = Some StepApplyToStream /\
  forall block, Sample.processing (InBlock block) resumed = (Ok tt, resumed).
Proof.
  split; [vm_compute; reflexivity|]. split; [vm_compute; reflexivity|].
  intros block. apply idle_block; vm_compute; reflexivity.
Qed.

(** An answer that comes twice can be taken for the aggregated key.  The flow is asked
    whether it waits for a request; it says so also of requests that were answered
    long ago.  While the setup waits for the aggregated take key of the committee,
    BitVMX repeats its answer to the request for the member's own take key, and no
    other message comes: the member's key is recorded as the aggregated one, and the
    setup goes on. *)
Theorem member_key_taken_as_aggregated :
  let ready := InRskEvent (AllCommunicationDataReady (mkEventWithBlock (mkDataReady 7) 11 [1] false [8])) in
  let p := Sample.after (Sample.applied ++ Sample.pending ++ [Sample.block 11; ready; Sample.block 12; Sample.block 13]) in
  let p' := snd (Sample.processing (InBitvmxEvent (MsgPubKey [0] [1; 1])) p) in
  step <$> flows p !! [0] = Some StepSetupTakeAggregatedKeyAllConvergeCheckpoint /\
  (s ← flows p !! [0]; snd <$> agg_take_key_req (ctx s)) = Some None /\
  (s ← flows p !! [0]; r ← my_take_key_req (ctx s); pk_key r) = Some [1; 1] /\
  step <$> flows p' !! [0] = Some StepSetupDisputeAggregatedKey /\
  (s ← flows p' !! [0]; snd <$> agg_take_key_req (ctx s)) = Some (Some [1; 1]).
Proof. cbn zeta. split_and!; vm_compute; reflexivity. Qed.

End Witnesses.
