(* ===== verification/Broker.v ===== *)
(** * Messages between the processes (crates/common/broker/src/types.rs, broker.rs)

    The indexers, the user API and the coordinator exchange messages through
    brokers, a third-party crate: sending and receiving are interfaces whose
    operations may fail.  Errors keep their chain of causes, because the
    coordinator goes on after some of them. *)

From stdpp Require Import prelude gmap strings.
From S2P Require Import Prelude Types.
Open Scope Z_scope.

(** ** Messages *)

(** The hash of a public key, and a number of 8 bits *)
Definition Identifier : Type := string * Z.

#[export] Instance Identifier_eq_dec : EqDecision Identifier := _.
#[export] Instance Identifier_countable : Countable Identifier := _.

Record MemberFundingInfo := mkMemberFundingInfo { bitcoin_address : string; rsk_address : string }.

Inductive ToServer :=
| SubscribeBlocks
| UnsubscribeBlocks
| SubscribeLogs (a : Address)
| UnsubscribeLogs (a : Address)
| ToMemberFundingInfo (req_id : bytes) (info : MemberFundingInfo)
| ToBitVmxWalletError (req_id : bytes) (message : string).

(** [serde_json::Value] *)
Class JsonValue := { Value : Type }.

Inductive FromServer `{JsonValue} :=
| FromBlock (b : RskBlockAndUncles)
| FromLog (log : RskLog)
| FromUserRequest (v : Value)
| FromMemberRequest (req_id : bytes)
| FromRegisterPegout (v : Value).

(** ** Errors *)

(** The errors of the broker's crate that are told apart *)
Inductive RpcBrokerError := Disconnected | IoError (msg : string) | RpcError (msg : string) | ClosedChannel | OtherRpcError (msg : string).

Inductive BrokerError :=
| BrokerServerError (e : RpcBrokerError)
| SerializationError (msg : string)
| UnknownError (msg : string).

Definition is_recoverable_rpc_broker_error (e : RpcBrokerError) : bool :=
  match e with Disconnected | IoError _ | RpcError _ | ClosedChannel => true | OtherRpcError _ => false end.

(** What an [anyhow::Error] is made of, outermost first *)
Inductive fault_cause := FaultMsg (msg : string) | FaultBroker (e : BrokerError) | FaultRpc (e : RpcBrokerError).

Inductive Fault := FaultChain (causes : list fault_cause) | FaultPanic (msg : string) | FaultFuel.

Definition from_broker (e : BrokerError) : Fault :=
  FaultChain (FaultBroker e :: match e with BrokerServerError r => [FaultRpc r] | _ => [] end).

(** Downcasts to [BrokerError] and to the error of the broker's crate *)
Definition is_recoverable_transport_error (c : fault_cause) : bool :=
  match c with
  | FaultBroker (BrokerServerError e) | FaultRpc e => is_recoverable_rpc_broker_error e
  | _ => false
  end.

Definition fault {S A} (msg : string) : SR S Fault A := sfail (FaultChain [FaultMsg msg]).

Definition fault_context {S A} (c : string) (m : SR S Fault A) : SR S Fault A :=
  fun s => match m s with
           | (Err (FaultChain causes), s') => (Err (FaultChain (FaultMsg c :: causes)), s')
           | r => r
           end.

(** The [?] that converts an error *)
Definition or_fault {S Y A} (conv : Y -> Fault) (m : SR S Y A) : SR S Fault A :=
  fun s => match m s with (Ok a, s') => (Ok a, s') | (Err y, s') => (Err (conv y), s') end.

(** ** Interfaces *)

(** [UnionBrokerServerApi] *)
Class BrokerServer `{JsonValue} (E : Type) := {
  server_recv : SR E BrokerError (option (ToServer * Identifier));
  server_send : FromServer -> Identifier -> SR E BrokerError unit
}.

(** A client of a broker: sending tells whether the message was taken. *)
Class BrokerClient (S C E : Type) := {
  client_send : S -> SR E BrokerError bool;
  client_recv : SR E BrokerError (option C)
}.

(** [mpsc::Receiver::recv_timeout] *)
Inductive RecvTimeoutError := Timeout | ChannelDisconnected.

Class Channel (M E : Type) := { recv_timeout : SR E RecvTimeoutError M }.

(** [ShutdownFlag::is_on]; a signal may come at any time. *)
Class ShutdownFlag (E : Type) := { flag_on : E -> bool * E }.
