(* ===== verification/Notifiers.v ===== *)
(** * The notifiers of the indexers (crates/block-indexer/src/notifier.rs, crates/log-indexer/src/notifier.rs)

    A notifier keeps the consumers that asked for blocks, or for the logs of a
    contract, and sends them what the indexer announces.  The loops of the two
    crates are the same code over different tables of consumers. *)

From stdpp Require Import prelude gmap strings.
From S2P Require Import Prelude Types Broker Processor.
Open Scope Z_scope.

(** ** The loop *)

(** What a notifier does, in order: a request it took, a message of the indexer
    it took, and a message it sent to a consumer. *)
Inductive Step (M : Type) := Requested (r : ToServer) (c : Identifier) | Announced (m : M) | Delivered (m : M) (c : Identifier).
Arguments Requested {M}. Arguments Announced {M}. Arguments Delivered {M}.

(** The table of consumers: how a request changes it, and whom a message concerns.
    [sending] is the context of an error, which the code completes with the message
    and the consumer. *)
Class Consumers `{JsonValue} (T M : Type) := {
  request : ToServer -> Identifier -> T -> T;
  consumers_of : T -> M -> gset Identifier;
  response : M -> FromServer;
  sending : string
}.

Record Notifier (T M E : Type) := mkNotifier { table : T; nenv : E; steps : list (Step M) }.
Arguments mkNotifier {T M E}. Arguments table {T M E}. Arguments nenv {T M E}. Arguments steps {T M E}.

Section Loop.
Context `{JsonValue, !Consumers T M, !BrokerServer E, !Channel M E, !ShutdownFlag E, HashOrder}.
Abbreviation N := (Notifier T M E).

Definition on_nenv {Y A} (m : SR E Y A) : SR N Y A := zoom nenv (fun e n => mkNotifier (table n) e (steps n)) m.
Definition note_step (x : Step M) : SR N Fault unit := smodify (fun n => mkNotifier (table n) (nenv n) (steps n ++ [x])).

Definition shutdown_on : SR N Fault bool :=
  fun n => let '(b, e) := flag_on (nenv n) in (Ok b, mkNotifier (table n) e (steps n)).

Definition update_consumers : SR N Fault unit :=
  received ← or_fault from_broker (on_nenv server_recv);
  match received with
  | Some (r, c) =>
      _ ← note_step (Requested r c);
      smodify (fun n => mkNotifier (request r c (table n)) (nenv n) (steps n))
  | None => mret tt
  end.

Definition wait_for_message : SR N Fault (option M) :=
  fun n =>
    match on_nenv recv_timeout n with
    | (Ok m, n) => (Ok (Some m), mkNotifier (table n) (nenv n) (steps n ++ [Announced m]))
    | (Err Timeout, n) => (Ok None, n)
    | (Err ChannelDisconnected, n) =>
        (on ← shutdown_on; if (on : bool) then mret None else fault "Indexer channel disconnected") n
    end.

Fixpoint notify_each (m : M) (l : list Identifier) : SR N Fault unit :=
  match l with
  | [] => mret tt
  | c :: l =>
      _ ← fault_context (sending (M := M)) (or_fault from_broker (on_nenv (server_send (response m) c)));
      _ ← note_step (Delivered m c);
      notify_each m l
  end.

Definition notify_consumers (m : M) : SR N Fault unit :=
  n ← sget; notify_each m (shuffle (elements (consumers_of (table n) m))).

(** A loop that ends with the shutdown; [fuel] bounds its rounds. *)
Fixpoint run (fuel : nat) : SR N Fault unit :=
  match fuel with
  | O => sfail FaultFuel
  | S fuel =>
      on ← shutdown_on;
      if (on : bool) then mret tt else
      _ ← update_consumers;
      message ← wait_for_message;
      _ ← match message with Some m => notify_consumers m | None => mret tt end;
      run fuel
  end.

End Loop.

(** ** Blocks *)

Definition update_block_consumers (r : ToServer) (c : Identifier) (t : gset Identifier) : gset Identifier :=
  match r with
  | SubscribeBlocks => {[c]} ∪ t
  | _ => t ∖ {[c]}
  end.

#[export] Instance block_consumers `{JsonValue} : Consumers (gset Identifier) RskBlockAndUncles := {|
  request := update_block_consumers;
  consumers_of t _ := t;
  response := FromBlock;
  sending := "Sending block"
|}.

Definition new_block_notifier {E : Type} (e : E) : Notifier (gset Identifier) RskBlockAndUncles E := mkNotifier ∅ e [].

(** ** Logs *)

Record LogTable := mkLogTable {
  monitored_contracts : gset Address;
  contracts_with_consumers : gmap Address (gset Identifier)
}.

Definition set_contracts (f : gmap Address (gset Identifier) -> gmap Address (gset Identifier)) (t : LogTable) : LogTable :=
  mkLogTable (monitored_contracts t) (f (contracts_with_consumers t)).

Definition subscribe_consumer_to_contract (a : Address) (c : Identifier) (t : LogTable) : LogTable :=
  if negb (bool_decide (a ∈ monitored_contracts t)) then t else
  match contracts_with_consumers t !! a with
  | Some consumers => if bool_decide (c ∈ consumers) then t else set_contracts (<[a := {[c]} ∪ consumers]>) t
  | None => set_contracts (<[a := {[c]}]>) t
  end.

Definition unsubscribe_consumer_from_contract (a : Address) (c : Identifier) (t : LogTable) : LogTable :=
  match contracts_with_consumers t !! a with
  | Some consumers =>
      let rest := consumers ∖ {[c]} in
      set_contracts (if bool_decide (rest = ∅) then base.delete a else <[a := rest]>) t
  | None => t
  end.

Definition unsubscribe_consumer_from_all_contracts (c : Identifier) (t : LogTable) : LogTable :=
  set_contracts (fun m => filter (fun kv => kv.2 <> ∅) ((fun consumers => consumers ∖ {[c]}) <$> m)) t.

Definition update_log_consumers (r : ToServer) (c : Identifier) (t : LogTable) : LogTable :=
  match r with
  | SubscribeLogs a => subscribe_consumer_to_contract a c t
  | UnsubscribeLogs a => unsubscribe_consumer_from_contract a c t
  | _ => unsubscribe_consumer_from_all_contracts c t
  end.

#[export] Instance log_consumers `{JsonValue} : Consumers LogTable RskLog := {|
  request := update_log_consumers;
  consumers_of t log := default ∅ (contracts_with_consumers t !! address (info log));
  response := FromLog;
  sending := "Sending log"
|}.

Definition new_log_notifier {E : Type} (monitored : gset Address) (e : E) : Notifier LogTable RskLog E :=
  mkNotifier (mkLogTable monitored ∅) e [].

(** ** What consumers get

    [wants past m]: a consumer that made the requests [past], the last one first,
    wants the message [m].  This is what the tables implement. *)

Class Subscription `{JsonValue, !Consumers T M} (empty : T) := {
  wants : list ToServer -> M -> bool;
  represents (t : T) (past : Identifier -> list ToServer) : Prop;
  represents_ext t past past' : represents t past -> (forall c, past' c = past c) -> represents t past';
  represents_empty : represents empty (fun _ => []);
  represents_request t past r d :
    represents t past -> represents (request r d t) (fun c => if bool_decide (c = d) then r :: past c else past c);
  represents_wants t past c m : represents t past -> c ∈ consumers_of t m <-> wants (past c) m = true
}.

Section Delivery.
Context `{JsonValue, !Consumers T M, !BrokerServer E, !Channel M E, !ShutdownFlag E, HashOrder}
  (empty : T) `{!Subscription empty}.
Abbreviation N := (Notifier T M E).

(** The messages that a consumer asked for, and those it was sent *)
Fixpoint due (c : Identifier) (past : list ToServer) (l : list (Step M)) : list M :=
  match l with
  | [] => []
  | Requested r d :: l => due c (if bool_decide (c = d) then r :: past else past) l
  | Announced m :: l => if wants past m then m :: due c past l else due c past l
  | Delivered _ _ :: l => due c past l
  end.

Fixpoint delivered (c : Identifier) (l : list (Step M)) : list M :=
  match l with
  | [] => []
  | Delivered m d :: l => if bool_decide (c = d) then m :: delivered c l else delivered c l
  | _ :: l => delivered c l
  end.

Fixpoint requests_of (c : Identifier) (past : list ToServer) (l : list (Step M)) : list ToServer :=
  match l with
  | [] => past
  | Requested r d :: l => requests_of c (if bool_decide (c = d) then r :: past else past) l
  | _ :: l => requests_of c past l
  end.

Lemma due_app c past l l' : due c past (l ++ l') = due c past l ++ due c (requests_of c past l) l'.
Proof.
  revert past. induction l as [|[r d|m|m d] l IH]; intros past; cbn; [done|by rewrite IH| |by rewrite IH].
  rewrite IH. by destruct (wants past m).
Qed.
Lemma received_app c l l' : delivered c (l ++ l') = delivered c l ++ delivered c l'.
Proof. induction l as [|[r d|m|m d] l IH]; cbn; [done..|]. rewrite IH. by case_bool_decide. Qed.
Lemma requests_app c past l l' : requests_of c past (l ++ l') = requests_of c (requests_of c past l) l'.
Proof. revert past. induction l as [|[] l IH]; intros past; cbn; [done|by rewrite IH..]. Qed.

Lemma requests_delivered c past m l : requests_of c past (Delivered m <$> l) = past.
Proof. by induction l. Qed.
Lemma due_delivered c past m l : due c past (Delivered m <$> l) = [].
Proof. by induction l. Qed.

(** Between two rounds every consumer has what it asked for. *)
Record settled (n : N) : Prop := {
  st_table : represents (table n) (fun c => requests_of c [] (steps n));
  st_delivered c : delivered c (steps n) = due c [] (steps n)
}.

(** In a round that ends early, a consumer may lack the last message. *)
Definition behind (n : N) : Prop := forall c, delivered c (steps n) `prefix_of` due c [] (steps n).

Lemma settled_behind n : settled n -> behind n.
Proof. intros Hn c. by rewrite (st_delivered _ Hn c). Qed.

Lemma settled_same (n n' : N) : table n' = table n -> steps n' = steps n -> settled n -> settled n'.
Proof. intros Ht Hs []. split; by rewrite ?Ht, Hs. Qed.

Lemma settled_request (n : N) r d e :
  settled n -> settled (mkNotifier (request r d (table n)) e (steps n ++ [Requested r d])).
Proof.
  intros [Ht Hd]. split; cbn.
  - pose proof (represents_request _ _ r d Ht) as Hr. eapply represents_ext; [exact Hr|]. intros c.
    rewrite requests_app. done.
  - intros c. rewrite received_app, due_app, Hd. cbn. done.
Qed.

Lemma settled_announce (n : N) m e :
  settled n -> forall l,
  NoDup l -> (forall c, c ∈ l -> c ∈ consumers_of (table n) m) ->
  let n' := mkNotifier (table n) e (steps n ++ Announced m :: (Delivered m <$> l)) in
  behind n' /\ (l ≡ₚ elements (consumers_of (table n) m) -> settled n').
Proof.
  intros [Ht Hd] l Hdup Hin n'.
  assert (Hreq : forall c, requests_of c [] (steps n') = requests_of c [] (steps n)).
  { intros c. unfold n'. cbn. rewrite requests_app. cbn. apply requests_delivered. }
  assert (Hdel : forall c, delivered c (Delivered m <$> l) = if bool_decide (c ∈ l) then [m] else []).
  { clear -Hdup. intros c. induction Hdup as [|d l Hd Hdup IH]; cbn; [done|]. rewrite IH.
    destruct (bool_decide_reflect (c = d)) as [->|Hne].
    - by rewrite (bool_decide_false (d ∈ l)), bool_decide_true by set_solver.
    - by rewrite (bool_decide_ext (c ∈ d :: l) (c ∈ l)) by set_solver. }
  assert (Hboth : forall c, delivered c (steps n') = due c [] (steps n) ++ (if bool_decide (c ∈ l) then [m] else []) /\
    due c [] (steps n') = due c [] (steps n) ++ (if wants (requests_of c [] (steps n)) m then [m] else [])).
  { intros c. unfold n'. cbn. rewrite received_app, due_app, Hd. cbn. rewrite Hdel, due_delivered. split; [done|].
    by destruct (wants _ _). }
  assert (Hw : forall c, c ∈ l -> wants (requests_of c [] (steps n)) m = true).
  { intros c Hc. apply (represents_wants _ _ c m Ht), Hin, Hc. }
  split.
  - intros c. destruct (Hboth c) as [-> ->]. case_bool_decide as Hc; [by rewrite (Hw c Hc)|].
    rewrite app_nil_r. by apply prefix_app_r.
  - intros Hl. split; [eapply represents_ext; [exact Ht|exact Hreq]|]. intros c. destruct (Hboth c) as [-> ->]. f_equal.
    case_bool_decide as Hc; [by rewrite (Hw c Hc)|]. destruct (wants _ _) eqn:Hc'; [|done]. destruct Hc.
    rewrite Hl. apply elem_of_elements, (represents_wants _ _ c m Ht), Hc'.
Qed.

(** Sending goes on from the consumers in [done] to those in [l]. *)
Lemma notify_each_ok (n0 n : N) m done l :
  settled n0 -> table n = table n0 -> steps n = steps n0 ++ Announced m :: (Delivered m <$> done) ->
  NoDup (done ++ l) -> (forall c, c ∈ done ++ l -> c ∈ consumers_of (table n0) m) ->
  let '(r, n') := notify_each m l n in
  behind n' /\ r <> Err FaultFuel /\ (is_ok r = true -> done ++ l ≡ₚ elements (consumers_of (table n0) m) -> settled n').
Proof.
  intros Hn0. revert n done. induction l as [|c l IH]; intros n done Ht Hs Hdup Hin; cbn [notify_each].
  - rewrite app_nil_r in *. destruct (settled_announce n0 m (nenv n) Hn0 done Hdup Hin) as [Hb Hset].
    destruct n as [t e st]. cbn in *. rewrite Ht, Hs. split_and!; [done..|auto].
  - unfold fault_context, or_fault, on_nenv, note_step, zoom. unfold mbind, SR_bind.
    destruct (server_send (response m) c (nenv n)) as [[[]|y] e].
    + specialize (IH (mkNotifier (table n) e (steps n ++ [Delivered m c])) (done ++ [c])). cbn in IH.
      rewrite <- app_assoc in IH. apply IH; [done| |done|done]. rewrite Hs, <- app_assoc. cbn. by rewrite fmap_app.
    + split_and!; [|done..]. destruct (settled_announce n0 m e Hn0 done) as [Hb _].
      * by apply NoDup_app in Hdup as (? & _ & _).
      * intros d Hd. apply Hin. set_solver.
      * cbn. by rewrite Ht, Hs.
Qed.

Lemma run_ok fuel n : settled n -> let '(r, n') := run fuel n in
  behind n' /\ (r = Ok tt \/ r = Err FaultFuel -> settled n').
Proof.
  revert n. induction fuel as [|fuel IH]; intros n Hn; cbn [run]; [split; [by apply settled_behind|done]|].
  assert (Hstop : forall (r : result Fault unit) (n' : N), settled n' ->
    behind n' /\ (r = Ok tt \/ r = Err FaultFuel -> settled n')) by (intros; split; [by apply settled_behind|done]).
  unfold shutdown_on at 1. unfold mbind, SR_bind. destruct (flag_on (nenv n)) as [[] e]; [by apply Hstop, (settled_same n)|].
  set (n1 := mkNotifier (table n) e (steps n)). assert (Hn1 : settled n1) by by apply (settled_same n).
  unfold update_consumers, or_fault, on_nenv, zoom, note_step. unfold mbind, SR_bind, smodify.
  destruct (server_recv (nenv n1)) as [[received|y] e2]; cbn; [|by apply Hstop, (settled_same n)].
  assert (Hgo : forall n2 : N, settled n2 -> let '(r, n') := (message ← wait_for_message;
      _ ← match message with Some m => notify_consumers m | None => mret tt end; run fuel) n2 in
    behind n' /\ (r = Ok tt \/ r = Err FaultFuel -> settled n')).
  { intros n2 Hn2. unfold wait_for_message, on_nenv, zoom. unfold mbind, SR_bind.
    destruct (recv_timeout (nenv n2)) as [[m|[|]] e3]; cbn.
    - unfold notify_consumers. unfold mbind, SR_bind. cbn. set (l := shuffle _).
      assert (Hl : l ≡ₚ elements (consumers_of (table n2) m)) by apply shuffle_perm.
      pose proof (notify_each_ok n2 (mkNotifier (table n2) e3 (steps n2 ++ [Announced m])) m [] l Hn2 eq_refl eq_refl) as Hk.
      destruct (notify_each m l _) as [[[]|x] n3]; destruct Hk as (Hb & Hne & Hset);
        try (rewrite Hl; apply NoDup_elements); try (intros c; cbn; rewrite Hl; apply elem_of_elements).
      + by apply IH, Hset.
      + split; [done|]. by intros [?|?].
    - apply IH. by apply (settled_same n2).
    - unfold shutdown_on. cbn. destruct (flag_on e3) as [[] e4]; [apply IH; by apply (settled_same n2)|].
      by apply Hstop, (settled_same n2). }
  destruct received as [[r d]|]; apply Hgo; [by apply (settled_request n1)|by apply (settled_same n)].
Qed.

End Delivery.

(** ** The two tables *)

#[local] Obligation Tactic := idtac.

(** A consumer wants blocks if this was its last request. *)
Definition wants_blocks (past : list ToServer) : bool := match past with SubscribeBlocks :: _ => true | _ => false end.

#[export] Program Instance block_subscription `{JsonValue} : Subscription (T := gset Identifier) (M := RskBlockAndUncles) ∅ := {|
  wants past _ := wants_blocks past;
  represents t past := forall c, c ∈ t <-> hd_error (past c) = Some SubscribeBlocks
|}.
Next Obligation. intros ? t past past' Ht Hp c. rewrite Hp. apply Ht. Qed.
Next Obligation. intros ? c. cbn. set_solver. Qed.
Next Obligation.
  cbn. intros ? t past r d Ht c. unfold update_block_consumers. destruct (bool_decide_reflect (c = d)) as [->|Hne].
  - destruct r; cbn; set_solver.
  - rewrite <- Ht. destruct r; set_solver.
Qed.
Next Obligation. cbn. intros ? t past c m Ht. rewrite Ht. by destruct (past c) as [|[] l]. Qed.

(** A consumer wants the logs of a contract if its last request on this contract was
    to get them, and it sent no foreign request since. *)
Fixpoint subscribed_to (a : Address) (past : list ToServer) : bool :=
  match past with
  | [] => false
  | SubscribeLogs b :: past => if bool_decide (a = b) then true else subscribed_to a past
  | UnsubscribeLogs b :: past => if bool_decide (a = b) then false else subscribed_to a past
  | _ => false
  end.

Section LogSubscription.
Context `{JsonValue} (monitored : gset Address).

Definition log_represents (t : LogTable) (past : Identifier -> list ToServer) : Prop :=
  monitored_contracts t = monitored /\
  forall a c, c ∈ default ∅ (contracts_with_consumers t !! a) <-> a ∈ monitored /\ subscribed_to a (past c) = true.

Lemma log_represents_subscribe t past a d :
  log_represents t past ->
  log_represents (subscribe_consumer_to_contract a d t)
    (fun c => if bool_decide (c = d) then SubscribeLogs a :: past c else past c).
Proof.
  intros [Hm Ht]. unfold subscribe_consumer_to_contract. rewrite Hm. split.
  { repeat case_match; cbn; done. }
  intros b c. specialize (Ht b c). destruct (bool_decide_reflect (a ∈ monitored)) as [Ha|Ha]; cbn.
  2: { rewrite Ht. case_bool_decide; [|done]. cbn. case_bool_decide; [|done]. naive_solver. }
  assert (Hnew : forall consumers, default ∅ (contracts_with_consumers t !! a) = consumers ->
    c ∈ default ∅ (<[a := {[d]} ∪ consumers]> (contracts_with_consumers t) !! b) <->
    b ∈ monitored /\ subscribed_to b (if bool_decide (c = d) then SubscribeLogs a :: past c else past c) = true).
  { intros consumers Hc. destruct (decide (a = b)) as [<-|Hne].
    - rewrite lookup_insert_eq. cbn. rewrite elem_of_union, elem_of_singleton, <- Hc, Ht.
      destruct (bool_decide_reflect (c = d)) as [->|]; cbn; [rewrite bool_decide_true by done|]; naive_solver.
    - rewrite lookup_insert_ne by done. rewrite Ht. case_bool_decide; [|done]. cbn. by rewrite bool_decide_false. }
  destruct (contracts_with_consumers t !! a) as [consumers|] eqn:Hl.
  - destruct (bool_decide_reflect (d ∈ consumers)) as [Hd|Hd]; cbn.
    + rewrite <- (Hnew consumers eq_refl). rewrite insert_id; [done|]. rewrite Hl. f_equal. set_solver.
    + by apply Hnew.
  - rewrite <- (Hnew ∅ eq_refl). cbn. by rewrite union_empty_r_L.
Qed.

Lemma log_represents_unsubscribe t past a d :
  log_represents t past ->
  log_represents (unsubscribe_consumer_from_contract a d t)
    (fun c => if bool_decide (c = d) then UnsubscribeLogs a :: past c else past c).
Proof.
  intros [Hm Ht]. unfold unsubscribe_consumer_from_contract. split.
  { by case_match. }
  intros b c. specialize (Ht b c).
  assert (Hsub : subscribed_to b (if bool_decide (c = d) then UnsubscribeLogs a :: past c else past c) =
    subscribed_to b (past c) && negb (bool_decide (c = d /\ b = a))).
  { destruct (bool_decide_reflect (c = d)) as [->|]; cbn.
    - destruct (bool_decide_reflect (b = a)) as [->|]; [rewrite bool_decide_true by done|rewrite bool_decide_false by naive_solver];
        by rewrite ?andb_false_r, ?andb_true_r.
    - rewrite bool_decide_false by naive_solver. by rewrite andb_true_r. }
  rewrite Hsub, andb_true_iff, negb_true_iff, bool_decide_eq_false, <- Logic.and_assoc, <- Ht. clear Hsub.
  destruct (contracts_with_consumers t !! a) as [consumers|] eqn:Hl.
  - cbn zeta. unfold set_contracts. cbn [contracts_with_consumers]. destruct (decide (a = b)) as [<-|Hne].
    + rewrite Hl. cbn. case_bool_decide as He; [rewrite lookup_delete_eq|rewrite lookup_insert_eq]; cbn; set_solver.
    + case_bool_decide as He; [rewrite lookup_delete_ne by done|rewrite lookup_insert_ne by done]; naive_solver.
  - split; [|naive_solver]. intros Hc. split; [done|]. intros [-> ->]. rewrite Hl in Hc. set_solver.
Qed.

Lemma log_represents_all t past r d :
  log_represents t past -> (forall a past, subscribed_to a (r :: past) = false) ->
  log_represents (unsubscribe_consumer_from_all_contracts d t)
    (fun c => if bool_decide (c = d) then r :: past c else past c).
Proof.
  intros [Hm Ht] Hr. split; [done|]. intros b c. specialize (Ht b c). cbn. rewrite map_lookup_filter, lookup_fmap.
  assert (Hsub : subscribed_to b (if bool_decide (c = d) then r :: past c else past c) =
    subscribed_to b (past c) && negb (bool_decide (c = d))).
  { case_bool_decide; [by rewrite Hr, andb_false_r|by rewrite andb_true_r]. }
  rewrite Hsub, andb_true_iff, negb_true_iff, bool_decide_eq_false, <- Logic.and_assoc, <- Ht. clear Hsub.
  destruct (contracts_with_consumers t !! b) as [consumers|]; cbn; [|set_solver].
  case_guard as He; cbn; set_solver.
Qed.

#[export] Program Instance log_subscription : Subscription (T := LogTable) (M := RskLog) (mkLogTable monitored ∅) := {|
  wants past log := bool_decide (address (info log) ∈ monitored) && subscribed_to (address (info log)) past;
  represents := log_represents
|}.
Next Obligation. intros t past past' [Hm Ht] Hp. split; [done|]. intros a c. by rewrite Hp, Ht. Qed.
Next Obligation. split; [done|]. intros a c. cbn. rewrite lookup_empty. set_solver. Qed.
Next Obligation.
  intros t past r d Ht. destruct r; cbn; try (by apply log_represents_all).
  - by apply log_represents_subscribe.
  - by apply log_represents_unsubscribe.
Qed.
Next Obligation. intros t past c m [_ Ht]. cbn. rewrite Ht, andb_true_iff, bool_decide_eq_true. done. Qed.

End LogSubscription.

(** ** What the notifiers guarantee *)

Section Guarantees.
Context `{JsonValue, HashOrder}.

(** The block notifier sends every consumer exactly the blocks that are announced
    while its last request was to get blocks, each once and in order.  This holds
    after any number of rounds, whatever the broker, the channel and the shutdown
    do; when a failure stops it in the middle of a round, a consumer has got a
    beginning of them. *)
Theorem block_notifier_delivers `{!BrokerServer E, !Channel RskBlockAndUncles E, !ShutdownFlag E} (fuel : nat) (e : E) (c : Identifier) :
  let '(r, n) := run fuel (new_block_notifier e) in
  match r with
  | Ok _ | Err FaultFuel => delivered c (steps n) = due ∅ c [] (steps n)
  | Err _ => delivered c (steps n) `prefix_of` due ∅ c [] (steps n)
  end.
Proof.
  pose proof (run_ok ∅ fuel (new_block_notifier e)) as Hr.
  destruct (run fuel (new_block_notifier e)) as [r n]. destruct Hr as [Hb Hs]; [split; [apply represents_empty|done]|].
  destruct r as [[]|[causes|msg|]]; [apply Hs; auto|apply Hb..|apply Hs; auto].
Qed.

(** C29: the log notifier sends every consumer exactly the logs of the monitored
    contracts that it is subscribed to when they are announced, each once and in
    order; a request of another kind ends all its subscriptions.  When a failure
    stops it in the middle of a round, a consumer has got a beginning of them. *)
Theorem log_notifier_delivers `{!BrokerServer E, !Channel RskLog E, !ShutdownFlag E} (monitored : gset Address) (fuel : nat) (e : E)
    (c : Identifier) :
  let '(r, n) := run fuel (new_log_notifier monitored e) in
  let wanted := due (mkLogTable monitored ∅) c [] (steps n) in
  match r with
  | Ok _ | Err FaultFuel => delivered c (steps n) = wanted
  | Err _ => delivered c (steps n) `prefix_of` wanted
  end.
Proof.
  pose proof (run_ok (mkLogTable monitored ∅) fuel (new_log_notifier monitored e)) as Hr.
  destruct (run fuel (new_log_notifier monitored e)) as [r n]. destruct Hr as [Hb Hs]; [split; [apply represents_empty|done]|].
  cbn zeta. destruct r as [[]|[causes|msg|]]; [apply Hs; auto|apply Hb..|apply Hs; auto].
Qed.

End Guarantees.
