(* ===== verification/FundingInfo.v ===== *)
(** * Funding information for users (crates/coordinator/src/flows/funding_info_flow.rs)

    A user asks for the addresses to fund: the processor asks BitVMX for the Bitcoin
    address and replies with both addresses, or with the error of the wallet. *)

From stdpp Require Import prelude gmap strings.
From S2P Require Import Prelude Types Bitvmx NativeBridge Flow Inputs Broker SetupCommitteeFlow.
Open Scope Z_scope.

(** Instants and durations in nanoseconds *)
Definition PENDING_REQUEST_TTL : Z := 60 * 10 ^ 9.

(** [Address::require_network], with the text of the address *)
Class FundingAddresses := { require_network : Network -> string -> option string }.

(** The clock never runs back; the broker may fail. *)
Class FundingServices (E : Type) := {
  instant_now : E -> Z * E;
  send_get_funding_address : bytes -> SR E FlowError unit
}.

(** [replies] is the channel to the coordinator, whose receiver lives as long as the
    processor. *)
Record Funding (E : Type) := mkFunding { pending_requests : gmap bytes Z; replies : list ToServer; fenv : E }.
Arguments mkFunding {E}. Arguments pending_requests {E}. Arguments replies {E}. Arguments fenv {E}.

Section Processor.
Context `{FlowCodecs, !FundingAddresses, !FundingServices E} (my_address : Address) (bitcoin_network : Network).
Abbreviation F := (Funding E).

Definition set_pending (f : gmap bytes Z -> gmap bytes Z) : SR F FlowError unit :=
  smodify (fun w => mkFunding (f (pending_requests w)) (replies w) (fenv w)).

Definition clock : SR F FlowError Z :=
  fun w => let '(t, e) := instant_now (fenv w) in (Ok t, mkFunding (pending_requests w) (replies w) e).

(** [duration_since] saturates. *)
Definition evict_expired : SR F FlowError unit :=
  now ← clock;
  set_pending (filter (fun kv => saturating_sub now kv.2 < PENDING_REQUEST_TTL)).

Definition forward_reply (reply : ToServer) : SR F FlowError unit :=
  smodify (fun w => mkFunding (pending_requests w) (replies w ++ [reply]) (fenv w)).

Definition process_user_request (event : UserRequests) : SR F FlowError unit :=
  _ ← evict_expired;
  match event with
  | FundingInfo req_id =>
      now ← clock;
      _ ← set_pending (<[req_id := now]>);
      zoom fenv (fun e w => mkFunding (pending_requests w) (replies w) e) (send_get_funding_address req_id)
  | ApplyToStreamRequest _ | Admin _ => mret tt
  end.

(** The reply to a request that is pending *)
Definition reply_if_pending (req_id : bytes) (reply : ToServer) : SR F FlowError unit :=
  w ← sget;
  match pending_requests w !! req_id with
  | None => mret tt
  | Some _ => _ ← set_pending (base.delete req_id); forward_reply reply
  end.

Definition process_new_bitvmx_event (event : OutgoingBitVMXApiMessages) : SR F FlowError unit :=
  _ ← evict_expired;
  match event with
  | MsgFundingAddress req_id addr =>
      reply_if_pending req_id
        match require_network bitcoin_network addr with
        | Some a => ToMemberFundingInfo req_id (mkMemberFundingInfo a (hash_to_string my_address))
        | None => ToBitVmxWalletError req_id "BitVMX funding address does not match expected network"
        end
  | MsgWalletError req_id message => reply_if_pending req_id (ToBitVmxWalletError req_id message)
  | MsgWalletNotReady req_id => reply_if_pending req_id (ToBitVmxWalletError req_id "BitVMX wallet is not ready")
  | _ => mret tt
  end.

Inductive Input := InUserRequest (req : UserRequests) | InBitvmxEvent (event : OutgoingBitVMXApiMessages).

Definition process (i : Input) : SR F FlowError unit :=
  match i with
  | InUserRequest req => process_user_request req
  | InBitvmxEvent event => process_new_bitvmx_event event
  end.

(** Errors of the broker are logged by the coordinator. *)
Fixpoint process_all (l : list Input) (w : F) : F :=
  match l with
  | [] => w
  | i :: l => process_all l (snd (process i w))
  end.

(** ** Replies and requests *)

Definition reply_id (r : ToServer) : option bytes :=
  match r with ToMemberFundingInfo id _ | ToBitVmxWalletError id _ => Some id | _ => None end.

Definition asks (id : bytes) (i : Input) : bool :=
  match i with InUserRequest (FundingInfo id') => bool_decide (id' = id) | _ => false end.

Definition replies_to (id : bytes) (w : F) : nat := length (filter (fun r => reply_id r = Some id) (replies w)).
Definition open (id : bytes) (w : F) : nat := if bool_decide (is_Some (pending_requests w !! id)) then 1 else 0.

(** Evicting makes nothing pending. *)
Lemma evict_run w :
  exists w', evict_expired w = (Ok tt, w') /\ replies w' = replies w /\
    forall k t, pending_requests w' !! k = Some t -> pending_requests w !! k = Some t.
Proof.
  unfold evict_expired, clock, set_pending. unfold mbind, SR_bind. destruct (instant_now (fenv w)) as [t e].
  eexists. split; [done|]. split; [done|]. cbn. by intros k t' [? _]%map_lookup_filter_Some.
Qed.

Lemma open_mono id (w w' : F) :
  (forall k t, pending_requests w' !! k = Some t -> pending_requests w !! k = Some t) -> (open id w' <= open id w)%nat.
Proof.
  intros Hp. unfold open. destruct (bool_decide_reflect (is_Some (pending_requests w' !! id))) as [[t Ht]|]; [|lia].
  rewrite bool_decide_true; [lia|]. exists t. auto.
Qed.

Lemma reply_step id req_id reply w :
  reply_id reply = Some req_id ->
  let w' := snd (reply_if_pending req_id reply w) in (replies_to id w' + open id w' <= replies_to id w + open id w)%nat.
Proof.
  intros Hid. unfold reply_if_pending. unfold mbind, SR_bind. cbn.
  destruct (pending_requests w !! req_id) as [t|] eqn:Hp; cbn; [|done].
  unfold replies_to, open. cbn. rewrite filter_app, length_app. destruct (decide (req_id = id)) as [->|Hne].
  - rewrite filter_cons_True by done. rewrite lookup_delete_eq, Hp. cbn.
    lia.
  - rewrite filter_cons_False by (rewrite Hid; congruence). rewrite lookup_delete_ne by done. cbn. lia.
Qed.

Lemma process_step id i w :
  let w' := snd (process i w) in
  (replies_to id w' + open id w' <= replies_to id w + open id w + (if asks id i then 1 else 0))%nat.
Proof.
  assert (Hev : forall w1, replies w1 = replies w ->
    (forall k t, pending_requests w1 !! k = Some t -> pending_requests w !! k = Some t) ->
    (replies_to id w1 + open id w1 <= replies_to id w + open id w)%nat).
  { intros w1 Hr Hp. apply open_mono with (id := id) in Hp. unfold replies_to. rewrite Hr. lia. }
  destruct (evict_run w) as (w1 & Hrun & Hr & Hp). specialize (Hev w1 Hr Hp).
  destruct i as [req|event]; cbn [process]; unfold process_user_request, process_new_bitvmx_event.
  - rewrite (SR_bind_run _ _ _ _ _ Hrun). destruct req as [req_id| |]; cbn [asks snd]; [|cbn; lia..].
    unfold clock, set_pending, zoom. unfold mbind, SR_bind. destruct (instant_now (fenv w1)) as [now e]. cbn.
    destruct (send_get_funding_address req_id e) as [r e']. cbn. unfold replies_to, open in *. cbn [replies pending_requests].
    destruct (bool_decide_reflect (req_id = id)) as [->|Hne].
    + rewrite lookup_insert_eq. repeat case_bool_decide; lia.
    + rewrite lookup_insert_ne by done. lia.
  - rewrite (SR_bind_run _ _ _ _ _ Hrun). cbn [asks].
    assert (Hreply : forall req_id reply, reply_id reply = Some req_id ->
      let w' := snd (reply_if_pending req_id reply w1) in
      (replies_to id w' + open id w' <= replies_to id w + open id w + 0)%nat).
    { intros req_id reply Hid. pose proof (reply_step id req_id reply w1 Hid) as Hs. cbn zeta in *. lia. }
    destruct event; try (cbn; lia); apply Hreply; [|done..]. by destruct (require_network _ _).
Qed.

(** Every request of a user is answered at most once.  Whatever BitVMX sends, for
    each identifier there are never more replies to users than requests with this
    identifier; those that are still pending count as answered. *)
Theorem funding_answered_once (id : bytes) (l : list Input) (e : E) :
  let w := process_all l (mkFunding ∅ [] e) in
  (replies_to id w + open id w <= length (filter (fun i => asks id i = true) l))%nat.
Proof.
  assert (Hgen : forall w, let w' := process_all l w in
    (replies_to id w' + open id w' <= replies_to id w + open id w + length (filter (fun i => asks id i = true) l))%nat).
  { induction l as [|i l IH]; intros w; cbn [process_all]; [cbn; lia|].
    specialize (IH (snd (process i w))). pose proof (process_step id i w) as Hi. cbn zeta in *.
    rewrite filter_cons. destruct (asks id i) eqn:Ha; cbn [decide bool_eq_dec]; case_decide; try done; cbn [length]; lia. }
  specialize (Hgen (mkFunding ∅ [] e)). cbn zeta in *. unfold replies_to, open in *. cbn [pending_requests] in Hgen.
  rewrite lookup_empty in Hgen. cbn in Hgen. lia.
Qed.

End Processor.
