(* ===== verification/Monitor.v ===== *)
(** * The monitor of the coordinator (crates/coordinator/src/monitor.rs)

    It subscribes to the logs of the contracts and to the blocks, and polls the
    brokers of the indexers, of BitVMX and of the user API for messages. *)

From stdpp Require Import prelude gmap strings.
From S2P Require Import Prelude Types Events Bitvmx NativeBridge Flow Inputs Broker.
Open Scope Z_scope.

(** ** Interfaces *)

(** The four brokers, and [serde_json::from_value] for requests of users *)
Class MonitorBrokers `{JsonValue, FlowCodecs} (E : Type) := {
  log_send : ToServer -> SR E BrokerError bool;
  log_recv : SR E BrokerError (option FromServer);
  block_send : ToServer -> SR E BrokerError bool;
  block_recv : SR E BrokerError (option FromServer);
  user_recv : SR E BrokerError (option FromServer);
  bitvmx_recv : SR E BrokerError (option OutgoingBitVMXApiMessages);
  parse_user_request : Value -> option UserRequests
}.

(** What the coordinator uses: the trait [MonitorApi], on a monitor and its brokers *)
Class MonitorApi `{FlowCodecs, CommitteePayloads} (M E : Type) := {
  api_start_event_monitoring : SR (M * E) Fault unit;
  api_start_block_monitoring : SR (M * E) Fault unit;
  api_start_bitvmx_monitoring : SR (M * E) Fault unit;
  api_start_user_monitoring : SR (M * E) Fault unit;
  api_try_user_request : SR (M * E) Fault (option UserRequests);
  api_try_rsk_event : SR (M * E) Fault (option RskPegManagerEvents);
  api_try_block : SR (M * E) Fault (option RskBlockAndUncles);
  api_try_bitvmx_event : SR (M * E) Fault (option OutgoingBitVMXApiMessages);
  api_cancel_bitvmx_monitoring : SR (M * E) Fault unit
}.

(** ** State *)

(** [taken] lists the messages that the brokers of the indexers have taken. *)
Record Monitor := mkMonitor {
  peg_manager_addresses : list Address;
  block_monitoring_active : bool;
  log_monitoring_active : bool;
  bitvmx_monitoring_active : bool;
  user_monitoring_active : bool;
  taken : list ToServer
}.

Definition new_monitor (addresses : list Address) : Monitor := mkMonitor addresses false false false false [].

Definition set_block_active (b : bool) (m : Monitor) : Monitor :=
  mkMonitor (peg_manager_addresses m) b (log_monitoring_active m) (bitvmx_monitoring_active m) (user_monitoring_active m) (taken m).
Definition set_log_active (b : bool) (m : Monitor) : Monitor :=
  mkMonitor (peg_manager_addresses m) (block_monitoring_active m) b (bitvmx_monitoring_active m) (user_monitoring_active m) (taken m).
Definition set_bitvmx_active (b : bool) (m : Monitor) : Monitor :=
  mkMonitor (peg_manager_addresses m) (block_monitoring_active m) (log_monitoring_active m) b (user_monitoring_active m) (taken m).
Definition set_user_active (b : bool) (m : Monitor) : Monitor :=
  mkMonitor (peg_manager_addresses m) (block_monitoring_active m) (log_monitoring_active m) (bitvmx_monitoring_active m) b (taken m).
Definition add_taken (r : ToServer) (m : Monitor) : Monitor :=
  mkMonitor (peg_manager_addresses m) (block_monitoring_active m) (log_monitoring_active m) (bitvmx_monitoring_active m)
    (user_monitoring_active m) (taken m ++ [r]).

Section Monitor.
Context `{JsonValue, FlowCodecs, CommitteePayloads, !Bindings, !MonitorBrokers E}.
Abbreviation W := (Monitor * E)%type.

Definition on_brokers {Y A} (m : SR E Y A) : SR W Y A := zoom snd (fun e w => (w.1, e)) m.
Definition set_monitor (f : Monitor -> Monitor) : SR W Fault unit := smodify (fun w => (f w.1, w.2)).

(** [send_to_log_broker] and [send_to_block_broker], under a context *)
Definition deliver (send : ToServer -> SR E BrokerError bool) (c : string) (r : ToServer) : SR W Fault bool :=
  result ← fault_context c (or_fault from_broker (on_brokers (send r)));
  _ ← (if (result : bool) then set_monitor (add_taken r) else mret tt);
  mret result.

(** ** Subscriptions *)

Fixpoint subscribe_all (l : list Address) : SR W Fault unit :=
  match l with
  | [] => mret tt
  | addr :: l =>
      result ← deliver log_send "Broker error on SubscribeLogs" (SubscribeLogs addr);
      if negb result then fault "Broker could not deliver SubscribeLogs" else subscribe_all l
  end.

Definition start_event_monitoring : SR W Fault unit :=
  w ← sget;
  if log_monitoring_active w.1 then fault "Start Log monitoring requested, but it was already active" else
  _ ← subscribe_all (peg_manager_addresses w.1);
  set_monitor (set_log_active true).

Definition start_block_monitoring : SR W Fault unit :=
  w ← sget;
  if block_monitoring_active w.1 then fault "Start Block monitoring requested, but it was already active" else
  result ← deliver block_send "Broker error on SubscribeBlocks" SubscribeBlocks;
  if negb result then fault "Broker could not deliver SubscribeBlocks" else
  set_monitor (set_block_active true).

Definition start_bitvmx_monitoring : SR W Fault unit :=
  w ← sget;
  if bitvmx_monitoring_active w.1 then fault "Start BitVMX monitoring requested, but it was already active" else
  set_monitor (set_bitvmx_active true).

Definition start_user_monitoring : SR W Fault unit :=
  w ← sget;
  if user_monitoring_active w.1 then fault "Start User monitoring requested, but it was already active" else
  set_monitor (set_user_active true).

Fixpoint unsubscribe_all (l : list Address) : SR W Fault unit :=
  match l with
  | [] => mret tt
  | addr :: l =>
      result ← deliver log_send "Broker error on UnsubscribeLogs" (UnsubscribeLogs addr);
      if negb result then fault "Broker could not deliver UnsubscribeLogs" else unsubscribe_all l
  end.

Definition cancel_event_monitoring : SR W Fault unit :=
  w ← sget;
  if negb (log_monitoring_active w.1) then fault "Cancel Log monitoring requested, but it was not active" else
  _ ← unsubscribe_all (peg_manager_addresses w.1);
  set_monitor (set_log_active false).

Definition cancel_block_monitoring : SR W Fault unit :=
  w ← sget;
  if negb (block_monitoring_active w.1) then fault "Cancel Block monitoring requested, but it was not active" else
  result ← deliver block_send "Broker error on UnsubscribeBlocks" UnsubscribeBlocks;
  if negb result then fault "Broker could not deliver UnsubscribeBlocks" else
  set_monitor (set_block_active false).

Definition cancel_bitvmx_monitoring : SR W Fault unit :=
  w ← sget;
  if negb (bitvmx_monitoring_active w.1) then fault "Cancel BitVMX monitoring requested, but it was not active" else
  set_monitor (set_bitvmx_active false).

(** ** Polling *)

Definition poll {A} (recv : SR E BrokerError (option A)) : SR W Fault (option A) := or_fault from_broker (on_brokers recv).

(** An event that is not recognised is no event. *)
Definition try_event : SR W Fault (option RskPegManagerEvents) :=
  w ← sget;
  if negb (log_monitoring_active w.1) then fault "Log monitoring is not active" else
  received ← poll log_recv;
  match received with
  | Some (FromLog log) =>
      match decode log with
      | UnknownEvent => mret None
      | event => mret (Some event)
      end
  | Some _ => fault "Unexpected response type from Log Notifier"
  | None => mret None
  end.

Definition try_block : SR W Fault (option RskBlockAndUncles) :=
  w ← sget;
  if negb (block_monitoring_active w.1) then fault "Block monitoring is not active" else
  received ← poll block_recv;
  match received with
  | Some (FromBlock bau) => mret (Some bau)
  | Some _ => fault "Unexpected response type from Block broker"
  | None => mret None
  end.

Definition try_bitvmx_event : SR W Fault (option OutgoingBitVMXApiMessages) :=
  w ← sget;
  if negb (bitvmx_monitoring_active w.1) then fault "BitVMX monitoring is not active" else poll bitvmx_recv.

(** A request that cannot be read is dropped. *)
Definition try_user_request : SR W Fault (option UserRequests) :=
  received ← poll user_recv;
  match received with
  | Some (FromUserRequest v) => mret (parse_user_request v)
  | Some (FromMemberRequest req_id) => mret (Some (FundingInfo req_id))
  | Some _ => fault "Unexpected request from User"
  | None => mret None
  end.

#[export] Instance monitor_api : MonitorApi Monitor E := {|
  api_start_event_monitoring := start_event_monitoring;
  api_start_block_monitoring := start_block_monitoring;
  api_start_bitvmx_monitoring := start_bitvmx_monitoring;
  api_start_user_monitoring := start_user_monitoring;
  api_try_user_request := try_user_request;
  api_try_rsk_event := try_event;
  api_try_block := try_block;
  api_try_bitvmx_event := try_bitvmx_event;
  api_cancel_bitvmx_monitoring := cancel_bitvmx_monitoring
|}.

(** ** Events are polled under their subscriptions *)

Inductive Operation := OpStartEvents | OpStartBlocks | OpStartBitvmx | OpStartUser | OpCancelEvents | OpCancelBlocks | OpCancelBitvmx
| OpTryEvent | OpTryBlock | OpTryBitvmx | OpTryUser.

Definition operate (o : Operation) (w : W) : W :=
  match o with
  | OpStartEvents => snd (start_event_monitoring w)
  | OpStartBlocks => snd (start_block_monitoring w)
  | OpStartBitvmx => snd (start_bitvmx_monitoring w)
  | OpStartUser => snd (start_user_monitoring w)
  | OpCancelEvents => snd (cancel_event_monitoring w)
  | OpCancelBlocks => snd (cancel_block_monitoring w)
  | OpCancelBitvmx => snd (cancel_bitvmx_monitoring w)
  | OpTryEvent => snd (try_event w)
  | OpTryBlock => snd (try_block w)
  | OpTryBitvmx => snd (try_bitvmx_event w)
  | OpTryUser => snd (try_user_request w)
  end.

(** The last message on a contract that a notifier has taken is a subscription. *)
Definition subscribed_logs (a : Address) (l : list ToServer) : Prop :=
  exists l1 l2, l = l1 ++ SubscribeLogs a :: l2 /\ UnsubscribeLogs a ∉ l2.
Definition subscribed_blocks (l : list ToServer) : Prop :=
  exists l1 l2, l = l1 ++ SubscribeBlocks :: l2 /\ UnsubscribeBlocks ∉ l2.

(** Runs of the operations.  A cancellation that fails half-way leaves the monitor
    active with some contracts unsubscribed; the coordinator never cancels events. *)
Inductive operated (addresses : list Address) : W -> Prop :=
| operated_new e : operated addresses (new_monitor addresses, e)
| operated_step o w :
    operated addresses w -> (o = OpCancelEvents -> is_ok (fst (cancel_event_monitoring w)) = true) ->
    operated addresses (operate o w)
| operated_env w e : operated addresses w -> operated addresses (w.1, e).

Definition monitor_ok (addresses : list Address) (m : Monitor) : Prop :=
  peg_manager_addresses m = addresses /\
  (log_monitoring_active m = true -> forall a, a ∈ addresses -> subscribed_logs a (taken m)) /\
  (block_monitoring_active m = true -> subscribed_blocks (taken m)).

Lemma subscribed_logs_app a l x : UnsubscribeLogs a ∉ x -> subscribed_logs a l -> subscribed_logs a (l ++ x).
Proof. intros Hx (l1 & l2 & -> & Hl). exists l1, (l2 ++ x). rewrite <- app_assoc. split; [done|set_solver]. Qed.
Lemma subscribed_blocks_app l x : UnsubscribeBlocks ∉ x -> subscribed_blocks l -> subscribed_blocks (l ++ x).
Proof. intros Hx (l1 & l2 & -> & Hl). exists l1, (l2 ++ x). rewrite <- app_assoc. split; [done|set_solver]. Qed.

(** What else [deliver] leaves as it is *)
Definition takes (w w' : W) (l : list ToServer) : Prop :=
  taken w'.1 = taken w.1 ++ l /\ peg_manager_addresses w'.1 = peg_manager_addresses w.1 /\
  block_monitoring_active w'.1 = block_monitoring_active w.1 /\ log_monitoring_active w'.1 = log_monitoring_active w.1.

Lemma deliver_run send c r w :
  let '(res, w') := deliver send c r w in takes w w' (match res with Ok true => [r] | _ => [] end).
Proof.
  unfold deliver, fault_context, or_fault, on_brokers, zoom. unfold mbind, SR_bind.
  destruct (send r w.2) as [[[]|y] e]; cbn; split_and!; cbn; by rewrite ?app_nil_r.
Qed.

Lemma takes_trans w w' w'' l l' : takes w w' l -> takes w' w'' l' -> takes w w'' (l ++ l').
Proof. intros (Hm1 & Hm2 & Hm3 & Hm4) (G1 & G2 & G3 & G4). split_and!; [by rewrite G1, Hm1, app_assoc|congruence..]. Qed.

(** Subscribing or unsubscribing from contract to contract *)
Lemma each_run (f : Address -> ToServer) c msg (go : list Address -> SR W Fault unit) :
  go [] = mret tt ->
  (forall a l, go (a :: l) = (result ← deliver log_send c (f a); if negb result then fault msg else go l)) ->
  forall l w, let '(res, w') := go l w in
  exists done, done `prefix_of` l /\ takes w w' (f <$> done) /\ (is_ok res = true -> done = l).
Proof.
  intros Hnil Hcons l. induction l as [|a l IH]; intros w.
  - rewrite Hnil. exists []. split_and!; [done..| |done]. split_and!; [by rewrite app_nil_r|done..].
  - rewrite Hcons. unfold mbind, SR_bind. pose proof (deliver_run log_send c (f a) w) as Hd.
    destruct (deliver log_send c (f a) w) as [[[]|x] w1]; cbn.
    + specialize (IH w1). destruct (go l w1) as [res w2]. destruct IH as (done & Hp & Ht & Hok). exists (a :: done).
      split_and!; [by apply prefix_cons|by apply (takes_trans _ w1 _ [f a])|]. intros Hr. by rewrite Hok.
    + exists []. split_and!; [apply prefix_nil|done|done].
    + exists []. split_and!; [apply prefix_nil|done|done].
Qed.

Lemma takes_ok addresses w w' l :
  takes w w' l -> (forall a, UnsubscribeLogs a ∉ l) -> UnsubscribeBlocks ∉ l ->
  monitor_ok addresses w.1 -> monitor_ok addresses w'.1.
Proof.
  intros (Ht & Ha & Hb & Hl) Hul Hub (Hm1 & Hm2 & Hm3). split_and!; [congruence| |].
  - rewrite Hl, Ht. intros Hact a Hin. by apply subscribed_logs_app, Hm2.
  - rewrite Hb, Ht. intros Hact. by apply subscribed_blocks_app, Hm3.
Qed.

Lemma start_events_ok addresses w : monitor_ok addresses w.1 -> monitor_ok addresses (snd (start_event_monitoring w)).1.
Proof.
  intros Hok. unfold start_event_monitoring. rewrite SR_bind_run with (a := w) (s' := w) by done.
  destruct (log_monitoring_active w.1); [done|]. unfold mbind, SR_bind.
  pose proof (each_run SubscribeLogs "Broker error on SubscribeLogs" "Broker could not deliver SubscribeLogs" subscribe_all
    eq_refl (fun _ _ => eq_refl) (peg_manager_addresses w.1) w) as Hrun.
  destruct (subscribe_all (peg_manager_addresses w.1) w) as [[[]|x] w1]; destruct Hrun as (done & _ & Ht & Hall).
  - rewrite Hall in Ht by done. pose proof Hok as (Ha & _). rewrite Ha in Ht.
    pose proof (takes_ok addresses w w1 _ Ht) as (Hm1 & Hm2 & Hm3); [set_solver..|done|]. split_and!; [done| |done].
    cbn. intros _ a Hin. destruct Ht as (-> & _). apply list_elem_of_split in Hin as (l1 & l2 & Heq).
    exists (taken w.1 ++ (SubscribeLogs <$> l1)), (SubscribeLogs <$> l2). rewrite Heq, fmap_app, <- app_assoc. split; [done|set_solver].
  - cbn. apply (takes_ok addresses w w1 _ Ht); [set_solver..|done].
Qed.

Lemma cancel_events_ok addresses w :
  is_ok (fst (cancel_event_monitoring w)) = true ->
  monitor_ok addresses w.1 -> monitor_ok addresses (snd (cancel_event_monitoring w)).1.
Proof.
  intros Hres Hok. unfold cancel_event_monitoring in *. rewrite SR_bind_run with (a := w) (s' := w) in * by done.
  destruct (negb (log_monitoring_active w.1)); [done|]. unfold mbind, SR_bind in *.
  pose proof (each_run UnsubscribeLogs "Broker error on UnsubscribeLogs" "Broker could not deliver UnsubscribeLogs" unsubscribe_all
    eq_refl (fun _ _ => eq_refl) (peg_manager_addresses w.1) w) as Hrun.
  destruct (unsubscribe_all (peg_manager_addresses w.1) w) as [[[]|x] w1]; [|done].
  destruct Hrun as (done & _ & (Ht & Ha & Hb & _) & _). destruct Hok as (Hm1 & Hm2 & Hm3). split_and!; cbn; [congruence|done|].
  rewrite Hb, Ht. intros Hact. apply subscribed_blocks_app; [set_solver|auto].
Qed.

Lemma start_blocks_ok addresses w : monitor_ok addresses w.1 -> monitor_ok addresses (snd (start_block_monitoring w)).1.
Proof.
  intros Hok. unfold start_block_monitoring. rewrite SR_bind_run with (a := w) (s' := w) by done.
  destruct (block_monitoring_active w.1); [done|]. unfold mbind, SR_bind.
  pose proof (deliver_run block_send "Broker error on SubscribeBlocks" SubscribeBlocks w) as Ht.
  destruct (deliver _ _ _ w) as [[[]|x] w1]; cbn; try (eapply takes_ok; [exact Ht|set_solver..|done]).
  pose proof (takes_ok addresses w w1 _ Ht) as (Hm1 & Hm2 & Hm3); [set_solver..|done|]. split_and!; [done..|].
  cbn. intros _. destruct Ht as (-> & _). exists (taken w.1), []. split; [done|set_solver].
Qed.

Lemma cancel_blocks_ok addresses w : monitor_ok addresses w.1 -> monitor_ok addresses (snd (cancel_block_monitoring w)).1.
Proof.
  intros Hok. unfold cancel_block_monitoring. rewrite SR_bind_run with (a := w) (s' := w) by done.
  destruct (negb (block_monitoring_active w.1)); [done|]. unfold mbind, SR_bind.
  pose proof (deliver_run block_send "Broker error on UnsubscribeBlocks" UnsubscribeBlocks w) as Ht.
  destruct (deliver _ _ _ w) as [[[]|x] w1]; cbn; try (eapply takes_ok; [exact Ht|set_solver..|done]).
  destruct Ht as (Ht & Ha & _ & Hl). destruct Hok as (Hm1 & Hm2 & _). split_and!; cbn; [congruence| |done].
  rewrite Hl, Ht. intros Hact a Hin. apply subscribed_logs_app; [set_solver|auto].
Qed.

(** Polling changes no subscription. *)
Lemma poll_same {A B} (recv : SR E BrokerError (option A)) (k : option A -> SR W Fault B) w :
  (forall a w, (snd (k a w)).1 = w.1) -> (snd ((received ← poll recv; k received) w)).1 = w.1.
Proof.
  intros Hk. unfold poll, or_fault, on_brokers, zoom. unfold mbind, SR_bind.
  destruct (recv w.2) as [[a|y] e]; [by rewrite Hk|done].
Qed.

Lemma operate_ok addresses o w :
  (o = OpCancelEvents -> is_ok (fst (cancel_event_monitoring w)) = true) ->
  monitor_ok addresses w.1 -> monitor_ok addresses (operate o w).1.
Proof.
  intros Hc Hok. assert (Hpoll : forall w' : W, w'.1 = w.1 -> monitor_ok addresses w'.1) by (by intros w' ->).
  destruct o; cbn [operate]; [by apply start_events_ok|by apply start_blocks_ok| | |by apply cancel_events_ok; [apply Hc|]
    |by apply cancel_blocks_ok| |apply Hpoll..].
  - unfold start_bitvmx_monitoring, mbind, SR_bind. cbn. by destruct (bitvmx_monitoring_active w.1).
  - unfold start_user_monitoring, mbind, SR_bind. cbn. by destruct (user_monitoring_active w.1).
  - unfold cancel_bitvmx_monitoring, mbind, SR_bind. cbn. by destruct (bitvmx_monitoring_active w.1).
  - unfold try_event. rewrite SR_bind_run with (a := w) (s' := w) by done. case_match; [done|]. apply poll_same.
    intros [[| | | |]|] w'; try done. by case_match.
  - unfold try_block. rewrite SR_bind_run with (a := w) (s' := w) by done. case_match; [done|]. apply poll_same.
    by intros [[| | | |]|] w'.
  - unfold try_bitvmx_event. rewrite SR_bind_run with (a := w) (s' := w) by done. case_match; [done|].
    unfold poll, or_fault, on_brokers, zoom. by destruct (bitvmx_recv w.2) as [[]].
  - unfold try_user_request. apply poll_same. by intros [[| | | |]|] w'.
Qed.

(** Events and blocks are polled under their subscriptions.  After any sequence of
    operations in which no cancellation of the events failed half-way, a poll for
    events that succeeds is made while the last message on every contract that the
    log notifier has taken is a subscription, and likewise for blocks. *)
Theorem monitor_polls_subscribed addresses (w : W) :
  operated addresses w ->
  (is_ok (fst (try_event w)) = true -> forall a, a ∈ addresses -> subscribed_logs a (taken w.1)) /\
  (is_ok (fst (try_block w)) = true -> subscribed_blocks (taken w.1)).
Proof.
  intros Hw. assert (Hok : monitor_ok addresses w.1).
  { induction Hw as [e|o w Hw IH Hc|w e Hw IH]; [by split_and!|by apply operate_ok|done]. }
  destruct Hok as (_ & Hl & Hb). split.
  - unfold try_event. rewrite SR_bind_run with (a := w) (s' := w) by done. destruct (log_monitoring_active w.1); [auto|done].
  - unfold try_block. rewrite SR_bind_run with (a := w) (s' := w) by done. destruct (block_monitoring_active w.1); [auto|done].
Qed.

End Monitor.
