(* ===== verification/Coordinator.v ===== *)
(** * The coordinator (crates/coordinator/src/coordinator.rs, event_processor.rs)

    One loop polls the monitor for requests of users, messages of BitVMX, events and
    blocks, hands each to every processor, sends replies to users, watches BitVMX,
    and saves the context.  The processors are trait objects: what the loop needs of
    them is an interface, which the peg-in, peg-out, advance-funds, committee and
    funding-information processors implement.  A monitor that records what it gives
    ties the past of each processor to the messages and restarts of the process. *)

From stdpp Require Import prelude gmap strings.
From S2P Require Import Prelude BlockHeader Types Events Bitvmx NativeBridge BtcSignature Flow Processor Inputs Broker.
From S2P Require Import PeginFlow PegoutFlow OperatorTakeFlow PeginProcessor PegoutProcessor TakeProcessor.
From S2P Require Import CoordinatorStore CommitteeSetup SetupCommitteeFlow SetupProcessor FundingInfo Monitor.
Open Scope Z_scope.

(** ** Processors *)

(** What is handed to every processor; the last is [shutdown]. *)
Inductive Message `{FlowCodecs, CommitteePayloads} :=
| ForUser (req : UserRequests)
| ForBitvmx (event : OutgoingBitVMXApiMessages)
| ForRsk (event : RskPegManagerEvents)
| ForBlock (block : RskBlockAndUncles)
| ForShutdown.

(** Blocks have numbers below the last one of 64 bits. *)
Definition message_ok `{FlowCodecs, CommitteePayloads} (m : Message) : Prop :=
  match m with ForBlock b => 0 <= bu_number b < 2 ^ 64 - 1 | _ => True end.

(** What the processors share: the channel of replies to users and the services *)
Record Shared (E : Type) := mkShared { sh_replies : list ToServer; sh_env : E }.
Arguments mkShared {E}. Arguments sh_replies {E}. Arguments sh_env {E}.

(** The trait [EventProcessor], and the construction of a processor over what an
    earlier one has stored *)
Record EventProcessor `{FlowCodecs, CommitteePayloads} (E : Type) := mkEventProcessor {
  ep_state : Type;
  ep_process : Message -> SR (ep_state * Shared E) FlowError unit;
  ep_start : SR (ep_state * Shared E) FlowError unit
}.
Arguments mkEventProcessor {_ _ _ _ E}. Arguments ep_state {_ _ _ _ E}. Arguments ep_process {_ _ _ _ E}.
Arguments ep_start {_ _ _ _ E}.

(** [Box<dyn EventProcessor>] *)
Definition Boxed `{FlowCodecs, CommitteePayloads} (E : Type) : Type := { c : EventProcessor E & ep_state c }.

(** What a processor promises: [reach b l s] holds of the states it comes to.  [b] tells
    that it is not running, [l] lists its starts, [None], and the messages it took. *)
Class Lawful `{FlowCodecs, CommitteePayloads} {E} (c : EventProcessor E) := {
  reach : bool -> list (option Message) -> ep_state c -> Prop;
  reach_process l m s sh :
    reach false l s -> message_ok m ->
    reach (panicked (fst (ep_process c m (s, sh)))) (l ++ [Some m]) (snd (ep_process c m (s, sh))).1;
  reach_start b l s sh :
    reach b l s -> reach (negb (is_ok (fst (ep_start c (s, sh))))) (l ++ [None]) (snd (ep_start c (s, sh))).1
}.

(** ** The loop *)

Inductive BitvmxLiveness := LivenessUnknown | LivenessHealthy | LivenessNotResponding.

#[export] Instance BitvmxLiveness_eq_dec : EqDecision BitvmxLiveness.
Proof. solve_decision. Defined.

(** The contact with BitVMX: messages, pings, and pings that timed out, with their
    times *)
Inductive Contact := Heard (t : Z) | Pinged (t : Z) | Lost (t : Z).

(** Brokers, clock, shutdown flag and the store of the context, which is loaded into the
    services *)
Class CoordinatorServices (E : Type) := {
  now_instant : E -> Z * E;
  is_shutdown : E -> bool * E;
  user_send : ToServer -> SR E BrokerError bool;
  bitvmx_ping : SR E BrokerError bool;
  store_context : SR E Fault unit;
  load_context : SR E Fault unit
}.

Record LoopConfig := mkLoopConfig { bitvmx_not_responding_threshold : Z; bitvmx_ping_after_silence : Z }.

Record Coordinator `{FlowCodecs, CommitteePayloads} (M E : Type) := mkCoordinator {
  c_monitor : M;
  c_shared : Shared E;
  c_processors : list (Boxed E);
  c_last_msg : Z;
  c_ping : option Z;
  c_liveness : BitvmxLiveness;
  c_contact : list Contact
}.
Arguments mkCoordinator {_ _ _ _ M E}. Arguments c_monitor {_ _ _ _ M E}. Arguments c_shared {_ _ _ _ M E}.
Arguments c_processors {_ _ _ _ M E}. Arguments c_last_msg {_ _ _ _ M E}. Arguments c_ping {_ _ _ _ M E}.
Arguments c_liveness {_ _ _ _ M E}. Arguments c_contact {_ _ _ _ M E}.

Section Loop.
Context `{FlowCodecs, CommitteePayloads, !MonitorApi M E, !CoordinatorServices E} (cfg : LoopConfig).
Abbreviation C := (Coordinator M E).

Definition set_shared (f : Shared E -> Shared E) (c : C) : C :=
  mkCoordinator (c_monitor c) (f (c_shared c)) (c_processors c) (c_last_msg c) (c_ping c) (c_liveness c) (c_contact c).
Definition set_processors (l : list (Boxed E)) (sh : Shared E) (c : C) : C :=
  mkCoordinator (c_monitor c) sh l (c_last_msg c) (c_ping c) (c_liveness c) (c_contact c).
Definition set_contact (last : Z) (ping : option Z) (v : BitvmxLiveness) (l : list Contact) (c : C) : C :=
  mkCoordinator (c_monitor c) (c_shared c) (c_processors c) last ping v l.

Definition on_monitor {A} (m : SR (M * E) Fault A) : SR C Fault A :=
  fun c =>
    let '(r, (mon, e)) := m (c_monitor c, sh_env (c_shared c)) in
    (r, mkCoordinator mon (mkShared (sh_replies (c_shared c)) e) (c_processors c) (c_last_msg c) (c_ping c) (c_liveness c)
          (c_contact c)).
Definition on_cenv {Y A} (m : SR E Y A) : SR C Y A :=
  zoom (fun c => sh_env (c_shared c)) (fun e => set_shared (fun sh => mkShared (sh_replies sh) e)) m.
Definition read_cenv {A} (f : E -> A * E) : SR C Fault A := on_cenv (fun e => let '(a, e) := f e in (Ok a, e)).

(** An error of a processor is logged; a panic ends the process. *)
Fixpoint give_all (m : Message) (l : list (Boxed E)) (sh : Shared E) : result Fault unit * list (Boxed E) * Shared E :=
  match l with
  | [] => (Ok tt, [], sh)
  | existT c s :: l =>
      match ep_process c m (s, sh) with
      | (Err (FlowPanic msg), (s, sh)) => (Err (FaultPanic msg), existT c s :: l, sh)
      | (_, (s, sh)) => let '(r, l, sh) := give_all m l sh in (r, existT c s :: l, sh)
      end
  end.

Definition dispatch (m : Message) : SR C Fault unit :=
  fun c => let '(r, l, sh) := give_all m (c_processors c) (c_shared c) in (r, set_processors l sh c).

(** [handle_runtime_broker_result] *)
Definition is_recoverable_broker_error (causes : list fault_cause) : bool := existsb is_recoverable_transport_error causes.

Definition handle_runtime_broker_result {A} (m : SR C Fault (option A)) : SR C Fault (option A) :=
  fun c => match m c with
           | (Err (FaultChain causes), c) => if is_recoverable_broker_error causes then (Ok None, c) else (Err (FaultChain causes), c)
           | r => r
           end.

(** *** Watching BitVMX *)

(** Whatever keeps the ping from being sent is logged. *)
Definition send_bitvmx_ping : SR C Fault bool :=
  fun c => match on_cenv bitvmx_ping c with
           | (Ok sent, c) => (Ok sent, c)
           | (Err _, c) => (Ok false, c)
           end.

(** [Instant::elapsed] saturates. *)
Definition elapsed (since : Z) : SR C Fault Z := now ← read_cenv now_instant; mret (saturating_sub now since).

Definition expire_ping : SR C Fault unit :=
  c ← sget;
  match c_ping c with
  | None => mret tt
  | Some sent =>
      now ← read_cenv now_instant;
      if bitvmx_not_responding_threshold cfg <? saturating_sub now sent
      then smodify (fun c => set_contact (c_last_msg c) None LivenessNotResponding (c_contact c ++ [Lost now]) c)
      else mret tt
  end.

Definition check_bitvmx_liveness : SR C Fault unit :=
  _ ← expire_ping;
  c ← sget;
  silence ← elapsed (c_last_msg c);
  if (bitvmx_ping_after_silence cfg <? silence) && bool_decide (c_ping c = None) then
    sent ← send_bitvmx_ping;
    if (sent : bool) then
      now ← read_cenv now_instant;
      smodify (fun c => set_contact (c_last_msg c) (Some now) (c_liveness c) (c_contact c ++ [Pinged now]) c)
    else mret tt
  else mret tt.

Definition record_bitvmx_activity : SR C Fault unit :=
  now ← read_cenv now_instant;
  smodify (fun c => set_contact now None LivenessHealthy (c_contact c ++ [Heard now]) c).

(** *** Replies *)

(** A reply that cannot be delivered for now is dropped. *)
Definition send_user_reply (reply : ToServer) : SR C Fault unit :=
  fun c => match on_cenv (user_send reply) c with
           | (Ok _, c) => (Ok tt, c)
           | (Err e, c) => if is_recoverable_transport_error (FaultBroker e) then (Ok tt, c) else (Err (from_broker e), c)
           end.

Fixpoint send_replies (l : list ToServer) : SR C Fault unit :=
  match l with
  | [] => mret tt
  | reply :: l =>
      _ ← smodify (set_shared (fun sh => mkShared l (sh_env sh)));
      _ ← fault_context "Error sending user reply" (send_user_reply reply);
      send_replies l
  end.

(** *** Rounds *)

Definition poll_for {A} (what : string) (try : SR (M * E) Fault (option A)) (handle : A -> SR C Fault unit) : SR C Fault unit :=
  received ← handle_runtime_broker_result (fault_context what (on_monitor try));
  match received with Some a => handle a | None => mret tt end.

(** Sleeping, metrics and the summary of active flows are omitted. *)
Definition round : SR C Fault unit :=
  _ ← check_bitvmx_liveness;
  _ ← poll_for "Error getting User request" api_try_user_request (fun req => dispatch (ForUser req));
  c ← sget;
  _ ← send_replies (sh_replies (c_shared c));
  _ ← poll_for "Error getting BitVMX event" api_try_bitvmx_event (fun event =>
        _ ← record_bitvmx_activity; dispatch (ForBitvmx event));
  _ ← poll_for "Error getting event" api_try_rsk_event (fun event => dispatch (ForRsk event));
  _ ← poll_for "Error getting block" api_try_block (fun block => dispatch (ForBlock block));
  fault_context "Storing context in DB" (on_cenv store_context).

(** [fuel] bounds the rounds until the shutdown. *)
Fixpoint run_loop (fuel : nat) : SR C Fault unit :=
  match fuel with
  | O => sfail FaultFuel
  | S fuel =>
      stop ← read_cenv is_shutdown;
      if (stop : bool) then mret tt else
      _ ← round;
      run_loop fuel
  end.

(** The end of the loop, whether it stopped or failed *)
Definition finish : SR C Fault unit :=
  _ ← dispatch ForShutdown;
  _ ← fault_context "Final context save during shutdown" (on_cenv store_context);
  fault_context "Failed to cancel BitVMX event monitoring" (on_monitor api_cancel_bitvmx_monitoring).

(** A panic leaves no time to finish. *)
Definition run_and_finish (fuel : nat) : SR C Fault unit :=
  fun c => match run_loop fuel c with
           | (Err (FaultPanic msg), c) => (Err (FaultPanic msg), c)
           | (Err FaultFuel, c) => (Err FaultFuel, c)
           | (r, c) => (_ ← finish; slift r) c
           end.

(** The first ping is due at once, where the clock allows it. *)
Definition initial_last_msg : SR C Fault Z :=
  now ← read_cenv now_instant;
  if bitvmx_ping_after_silence cfg <=? now then mret (now - bitvmx_ping_after_silence cfg) else read_cenv now_instant.

Definition prepare : SR C Fault unit :=
  _ ← fault_context "Failed to start event monitoring" (on_monitor api_start_event_monitoring);
  _ ← fault_context "Failed to start block monitoring" (on_monitor api_start_block_monitoring);
  _ ← fault_context "Failed to start BitVMX event monitoring" (on_monitor api_start_bitvmx_monitoring);
  _ ← fault_context "Failed to start User request monitoring" (on_monitor api_start_user_monitoring);
  last_msg ← initial_last_msg;
  smodify (fun c => set_contact last_msg None LivenessUnknown (c_contact c) c).

Definition run (fuel : nat) : SR C Fault unit := _ ← prepare; run_and_finish fuel.

(** ** Construction *)

(** A processor that cannot start panics the process. *)
Fixpoint start_all (l : list (Boxed E)) (sh : Shared E) : result Fault unit * list (Boxed E) * Shared E :=
  match l with
  | [] => (Ok tt, [], sh)
  | existT c s :: l =>
      match ep_start c (s, sh) with
      | (Err _, (s, sh)) => (Err (FaultPanic "a processor could not start"), existT c s :: l, sh)
      | (Ok _, (s, sh)) => let '(r, l, sh) := start_all l sh in (r, existT c s :: l, sh)
      end
  end.

(** [Coordinator::new] over the stores that earlier processors left; the channel of
    replies is new. *)
Definition new (mon : M) (l : list (Boxed E)) (e : E) : result Fault unit * C :=
  match load_context e with
  | (Err _, e) =>
      (Err (FaultPanic "Failed to load context from DB"), mkCoordinator mon (mkShared [] e) l 0 None LivenessUnknown [])
  | (Ok _, e) =>
      let '(r, l, sh) := start_all l (mkShared [] e) in (r, mkCoordinator mon sh l 0 None LivenessUnknown [])
  end.

End Loop.

(** ** A monitor that keeps a record of the messages it has given *)

Section Recording.
Context `{FlowCodecs, CommitteePayloads, !MonitorApi M E}.

Definition unrecorded {A} (m : SR (M * E) Fault A) : SR ((M * list Message) * E) Fault A :=
  fun w => let '(r, (mon, e)) := m (w.1.1, w.2) in (r, ((mon, w.1.2), e)).
Definition recorded {A} (f : A -> Message) (try : SR (M * E) Fault (option A))
    : SR ((M * list Message) * E) Fault (option A) :=
  fun w => let '(r, (mon, e)) := try (w.1.1, w.2) in
    (r, ((mon, w.1.2 ++ match r with Ok (Some a) => [f a] | _ => [] end), e)).

#[export] Instance recording : MonitorApi (M * list Message) E := {|
  api_start_event_monitoring := unrecorded api_start_event_monitoring;
  api_start_block_monitoring := unrecorded api_start_block_monitoring;
  api_start_bitvmx_monitoring := unrecorded api_start_bitvmx_monitoring;
  api_start_user_monitoring := unrecorded api_start_user_monitoring;
  api_try_user_request := recorded ForUser api_try_user_request;
  api_try_rsk_event := recorded ForRsk api_try_rsk_event;
  api_try_block := recorded ForBlock api_try_block;
  api_try_bitvmx_event := recorded ForBitvmx api_try_bitvmx_event;
  api_cancel_bitvmx_monitoring := unrecorded api_cancel_bitvmx_monitoring
|}.

End Recording.

(** ** The processors under the loop *)

Section Processors.
Context `{FlowCodecs, CommitteePayloads, !MonitorApi M E, !CoordinatorServices E} (cfg : LoopConfig).
Abbreviation C := (Coordinator (M * list Message) E).

(** The messages that the monitor has given *)
Definition given (c : C) : list Message := (c_monitor c).2.
Definition events (l : list Message) : list (option Message) := None :: (Some <$> l).

Definition dead {A} (r : result Fault A) : bool := match r with Err (FaultPanic _) => true | _ => false end.

(** Part of what happened: all of it or, where the process died, all but the last. *)
Definition portion (died : bool) (all part : list (option Message)) : Prop :=
  part = all \/ died = true /\ exists x, all = part ++ [x].

Section Session.
(** The kinds of processors with their promises, and what each has been through
    before *)
Context (kinds : list ({ c : EventProcessor E & Lawful c } * list (option Message))).

(** Every processor is of its kind, and in a state that it promises to come to with
    what it has been through and its portion of what happened since. *)
Definition kept_promise (b : bool) (all : list (option Message))
    (k : { c : EventProcessor E & Lawful c } * list (option Message)) (p : Boxed E) : Prop :=
  exists bi s part, p = existT (projT1 k.1) s /\ reach (Lawful := projT2 k.1) bi (k.2 ++ part) s /\
    portion b all part /\ (b = false -> bi = false).
Definition processors_ok (b : bool) (all : list (option Message)) (l : list (Boxed E)) : Prop :=
  Forall2 (kept_promise b all) kinds l.

Lemma kept_weaken b all k p : kept_promise false all k p -> kept_promise b all k p.
Proof. intros (bi & s & part & -> & Hr & [->|[? _]] & Hb); [|done]. exists bi, s, all. split_and!; auto. by left. Qed.
Lemma kept_missed all x k p : kept_promise false all k p -> kept_promise true (all ++ [x]) k p.
Proof.
  intros (bi & s & part & -> & Hr & [->|[? _]] & Hb); [|done]. exists bi, s, all. split_and!; [done..| |done].
  right. by eauto.
Qed.
Lemma processors_weaken b all l : processors_ok false all l -> processors_ok b all l.
Proof. intros Hl. eapply Forall2_impl; [exact Hl|]. intros k p. apply kept_weaken. Qed.

Lemma give_all_ok ks all m l sh :
  Forall2 (kept_promise false all) ks l -> message_ok m ->
  let '(r, l', sh') := give_all m l sh in Forall2 (kept_promise (dead r) (all ++ [Some m])) ks l'.
Proof.
  intros Hl Hm. revert sh. induction Hl as [|k p kinds' l' Hk Hl IH]; intros sh; cbn [give_all]; [constructor|].
  destruct Hk as (bi & s & part & -> & Hr & [->|[? _]] & Hb); [|done]. rewrite (Hb eq_refl) in Hr.
  pose proof (reach_process (Lawful := projT2 k.1) _ m s sh Hr Hm) as Hp. rewrite <- app_assoc in Hp.
  assert (Hgo : forall r s' sh', ep_process (projT1 k.1) m (s, sh) = (r, (s', sh')) -> panicked r = false ->
    let '(r, l', _) := (let '(r, l, sh) := give_all m l' sh' in (r, existT (projT1 k.1) s' :: l, sh)) in
    Forall2 (kept_promise (dead r) (all ++ [Some m])) (k :: kinds') l').
  { intros r s' sh' Hrun Hpan. rewrite Hrun in Hp. cbn in Hp. rewrite Hpan in Hp. specialize (IH sh').
    destruct (give_all m l' sh') as [[r' l2] sh2]. constructor; [|done]. exists false, s', (all ++ [Some m]).
    split_and!; auto. by left. }
  destruct (ep_process (projT1 k.1) m (s, sh)) as [[[]|[causes|msg]] [s' sh']] eqn:Hrun; cbn in *; [by eapply Hgo..|].
  constructor; [exists true, s', (all ++ [Some m]); split_and!; auto; by left|].
  eapply Forall2_impl; [exact Hl|]. intros k' p'. apply kept_missed.
Qed.

(** A processor that has not been started yet *)
Definition waiting (k : { c : EventProcessor E & Lawful c } * list (option Message)) (p : Boxed E) : Prop :=
  exists bi s, p = existT (projT1 k.1) s /\ reach (Lawful := projT2 k.1) bi k.2 s.

Lemma waiting_missed k p : waiting k p -> kept_promise true (events []) k p.
Proof.
  intros (bi & s & -> & Hr). exists bi, s, []. rewrite app_nil_r. split_and!; [done..| |done]. right. split; [done|]. by exists None.
Qed.

Lemma start_all_ok ks l sh :
  Forall2 waiting ks l ->
  let '(r, l', sh') := start_all l sh in Forall2 (kept_promise (negb (is_ok r)) (events [])) ks l' /\ (is_ok r = false -> dead r = true).
Proof.
  intros Hl. revert sh. induction Hl as [|k p kinds' l' Hk Hl IH]; intros sh; cbn [start_all]; [by split; [constructor|]|].
  destruct Hk as (bi & s & -> & Hr). pose proof (reach_start (Lawful := projT2 k.1) bi _ s sh Hr) as Hp.
  destruct (ep_start (projT1 k.1) (s, sh)) as [[[]|x] [s' sh']]; cbn in *.
  - specialize (IH sh'). destruct (start_all l' sh') as [[r l2] sh2]. destruct IH as [IH Hdead]. split; [|done].
    constructor; [|done]. exists false, s', [None]. split_and!; auto. by left.
  - split; [|done]. constructor; [exists true, s', [None]; split_and!; auto; by left|].
    eapply Forall2_impl; [exact Hl|]. intros k' p'. apply waiting_missed.
Qed.

(** Computations that hand on what the monitor gives *)
Definition safe {A} (m : SR C Fault A) : Prop :=
  forall c, processors_ok false (events (given c)) (c_processors c) ->
    let '(r, c') := m c in processors_ok (dead r) (events (given c')) (c_processors c').

Lemma safe_frame {A} (m : SR C Fault A) :
  (forall c, c_processors (snd (m c)) = c_processors c /\ given (snd (m c)) = given c) -> safe m.
Proof.
  intros Hm c Hc. destruct (Hm c) as [Hp Hg]. destruct (m c) as [r c']. cbn in Hp, Hg. rewrite Hp, Hg. by apply processors_weaken.
Qed.
Lemma safe_ret {A} (a : A) : safe (mret a).
Proof. by apply safe_frame. Qed.
Lemma safe_bind {A B} (m : SR C Fault A) (f : A -> SR C Fault B) : safe m -> (forall a, safe (f a)) -> safe (m ≫= f).
Proof.
  intros Hm Hf c Hc. specialize (Hm c Hc). unfold mbind, SR_bind. destruct (m c) as [[a|x] c1]; [by apply Hf|done].
Qed.
Lemma safe_branch {A} (b : bool) (m n : SR C Fault A) : safe m -> safe n -> safe (if b then m else n).
Proof. by destruct b. Qed.
Lemma safe_context {A} msg (m : SR C Fault A) : safe m -> safe (fault_context msg m).
Proof. intros Hm c Hc. specialize (Hm c Hc). unfold fault_context. by destruct (m c) as [[a|[]] c']. Qed.
Lemma safe_sget : safe sget.
Proof. by apply safe_frame. Qed.
Lemma safe_unrecorded {A} (m : SR (M * E) Fault A) : safe (on_monitor (unrecorded m)).
Proof. apply safe_frame. intros c. unfold on_monitor, unrecorded. cbn. by destruct (m _) as [r [mon e]]. Qed.
Lemma safe_on_cenv {A} (m : SR E Fault A) : safe (on_cenv m).
Proof. apply safe_frame. intros c. unfold on_cenv, zoom. by destruct (m _) as [r e]. Qed.
Lemma safe_read_cenv {A} (f : E -> A * E) : safe (read_cenv f).
Proof. apply safe_on_cenv. Qed.
Lemma safe_set_contact f g h k :
  safe (smodify (fun c => set_contact (f c) (g c) (h c) (k c) c) : SR C Fault unit).
Proof. by apply safe_frame. Qed.
Lemma safe_ping : safe send_bitvmx_ping.
Proof. apply safe_frame. intros c. unfold send_bitvmx_ping, on_cenv, zoom. by destruct (bitvmx_ping _) as [[] e]. Qed.
Lemma safe_reply reply : safe (send_user_reply reply).
Proof.
  apply safe_frame. intros c. unfold send_user_reply, on_cenv, zoom. destruct (user_send _ _) as [[|x] e]; [done|].
  by destruct (is_recoverable_transport_error _).
Qed.

Create HintDb safe.
Hint Resolve safe_ret safe_branch safe_context safe_sget safe_unrecorded safe_on_cenv safe_read_cenv safe_set_contact
  safe_ping safe_reply : safe.
Hint Extern 1 (safe (_ ≫= _)) => apply safe_bind; [|intros ?] : safe.
Hint Extern 1 (safe (match ?x with _ => _ end)) => destruct x : safe.

Lemma safe_liveness : safe (check_bitvmx_liveness cfg).
Proof. unfold check_bitvmx_liveness, expire_ping, elapsed. auto 20 with safe. Qed.
Lemma safe_replies l : safe (send_replies l).
Proof. induction l as [|r l IH]; cbn [send_replies]; [auto with safe|]. apply safe_bind; [by apply safe_frame|]. auto with safe. Qed.

(** Handlers that hand on the last message *)
Definition delivers (m : Message) (h : SR C Fault unit) : Prop :=
  forall c l, given c = l ++ [m] -> processors_ok false (events l) (c_processors c) ->
    let '(r, c') := h c in processors_ok (dead r) (events (given c')) (c_processors c').

Lemma events_app l m : events (l ++ [m]) = events l ++ [Some m].
Proof. unfold events. by rewrite fmap_app. Qed.

Lemma delivers_dispatch m : message_ok m -> delivers m (dispatch m).
Proof.
  intros Hm c l Hl Hc. unfold dispatch. pose proof (give_all_ok kinds (events l) m (c_processors c) (c_shared c) Hc Hm) as Hg.
  destruct (give_all m (c_processors c) (c_shared c)) as [[r ps] sh].
  change (given (set_processors ps sh c)) with (given c). by rewrite Hl, events_app.
Qed.

Lemma delivers_activity m h : delivers m h -> delivers m (_ ← record_bitvmx_activity; h).
Proof.
  intros Hh c l Hl Hc. unfold record_bitvmx_activity, read_cenv, on_cenv, zoom, smodify. unfold mbind, SR_bind.
  destruct (now_instant _) as [now e]. by apply (Hh _ l).
Qed.

Lemma safe_poll {A} what (f : A -> Message) (try : SR (M * E) Fault (option A)) handle :
  (forall w a w', try w = (Ok (Some a), w') -> delivers (f a) (handle a)) -> safe (poll_for what (recorded f try) handle).
Proof.
  intros Hh c Hc. unfold poll_for, handle_runtime_broker_result, fault_context, on_monitor, recorded. unfold mbind, SR_bind.
  cbn. destruct (try ((c_monitor c).1, sh_env (c_shared c))) as [[[a|]|[causes|msg|]] [mon e]] eqn:Ht; cbn.
  - by eapply (Hh _ _ _ Ht).
  - unfold given. cbn. by rewrite app_nil_r.
  - unfold given. cbn. rewrite app_nil_r. by destruct (existsb is_recoverable_transport_error causes).
  - unfold given. cbn. rewrite app_nil_r. by apply processors_weaken.
  - unfold given. cbn. by rewrite app_nil_r.
Qed.

Hypothesis blocks_ok : forall (w : M * E) b w', api_try_block w = (Ok (Some b), w') -> 0 <= bu_number b < 2 ^ 64 - 1.

Lemma safe_round : safe (round cfg).
Proof.
  unfold round. apply safe_bind; [apply safe_liveness|intros _].
  apply safe_bind; [apply (safe_poll _ ForUser); intros; by apply delivers_dispatch|intros _].
  apply safe_bind; [apply safe_sget|intros c]. apply safe_bind; [apply safe_replies|intros _].
  apply safe_bind; [apply (safe_poll _ ForBitvmx); intros; by apply delivers_activity, delivers_dispatch|intros _].
  apply safe_bind; [apply (safe_poll _ ForRsk); intros; by apply delivers_dispatch|intros _].
  apply safe_bind; [apply (safe_poll _ ForBlock); intros; apply delivers_dispatch; cbn; by eapply blocks_ok|intros _].
  auto with safe.
Qed.

Lemma safe_loop fuel : safe (run_loop cfg fuel).
Proof.
  induction fuel as [|fuel IH]; cbn [run_loop]; [by apply safe_frame|].
  apply safe_bind; [auto with safe|intros stop]. apply safe_branch; [auto with safe|]. apply safe_bind; [apply safe_round|done].
Qed.

Lemma safe_prepare : safe (prepare cfg).
Proof.
  unfold prepare, initial_last_msg. do 4 (apply safe_bind; [apply safe_context, safe_unrecorded|intros _]).
  apply safe_bind; [auto with safe|intros last]. apply safe_set_contact.
Qed.

(** The loop ended, by a shutdown or an error. *)
Definition ended (r : result Fault unit) : bool :=
  match r with Err (FaultPanic _) | Err FaultFuel => false | _ => true end.

(** What the processors are to be handed in a run: what the monitor gives and, when the
    loop has ended, the shutdown. *)
Definition messages (fuel : nat) (c : C) : list Message :=
  match prepare cfg c with
  | (Err _, c1) => given c1
  | (Ok _, c1) => let '(r, c2) := run_loop cfg fuel c1 in given c2 ++ (if ended r then [ForShutdown] else [])
  end.

Lemma finish_ok (r : result Fault unit) c :
  dead r = false -> processors_ok false (events (given c)) (c_processors c) ->
  let '(r', c') := (_ ← finish; slift r) c in processors_ok (dead r') (events (given c ++ [ForShutdown])) (c_processors c').
Proof.
  intros Hr Hc. unfold finish. rewrite SR_bind_assoc, events_app. unfold mbind at 1, SR_bind at 1. unfold dispatch.
  pose proof (give_all_ok kinds (events (given c)) ForShutdown (c_processors c) (c_shared c) Hc I) as Hg.
  destruct (give_all ForShutdown (c_processors c) (c_shared c)) as [[[[]|x] ps] sh]; [|done].
  match goal with |- let '(_, _) := ?k ?c1 in _ => assert (Hk : c_processors (snd (k c1)) = ps) end.
  { unfold fault_context, on_cenv, zoom, on_monitor, slift. unfold mbind, SR_bind. cbn.
    destruct (store_context _) as [[u|[]] e]; try done. cbn. destruct (unrecorded _ _) as [[u'|[]] [mon e']]; done. }
  match goal with |- let '(_, _) := ?k ?c1 in _ => destruct (k c1) as [r' c'] end. cbn in Hk. rewrite Hk. by apply processors_weaken.
Qed.

Lemma run_operating fuel c :
  processors_ok false (events (given c)) (c_processors c) ->
  let '(r, c') := run cfg fuel c in processors_ok (dead r) (events (messages fuel c)) (c_processors c').
Proof.
  intros Hc. pose proof (safe_prepare c Hc) as Hp. unfold run, messages. unfold mbind, SR_bind.
  destruct (prepare cfg c) as [[[]|x] c1]; [|done]. cbn in Hp. unfold run_and_finish. pose proof (safe_loop fuel c1 Hp) as Hl.
  destruct (run_loop cfg fuel c1) as [[[]|[causes|msg|]] c2]; cbn [ended] in *;
    [by apply finish_ok|by apply finish_ok|by rewrite app_nil_r..].
Qed.

(** A process from its construction to its end *)
Definition life (fuel : nat) (mon : M) (l : list (Boxed E)) (e : E) : result Fault unit * C :=
  match new (mon, []) l e with
  | (Err x, c) => (Err x, c)
  | (Ok _, c) => run cfg fuel c
  end.

Definition life_events (fuel : nat) (mon : M) (l : list (Boxed E)) (e : E) : list (option Message) :=
  match new (mon, []) l e with
  | (Err _, _) => events []
  | (Ok _, c) => events (messages fuel c)
  end.

Lemma life_ok fuel mon l e :
  Forall2 waiting kinds l ->
  let '(r, c) := life fuel mon l e in processors_ok (dead r) (life_events fuel mon l e) (c_processors c).
Proof.
  intros Hl. unfold life, life_events, new. destruct (load_context e) as [[u|x] e1].
  - pose proof (start_all_ok kinds l (mkShared [] e1) Hl) as Hs. destruct (start_all l (mkShared [] e1)) as [[[[]|x] ps] sh].
    + apply run_operating. apply Hs.
    + destruct Hs as [Hs Hdead]. cbn in *. by rewrite Hdead.
  - eapply Forall2_impl; [exact Hl|]. apply waiting_missed.
Qed.

End Session.

(** *** Runs and restarts *)

(** The coordinator is started over what it has stored, runs, and is started again.  Of
    every process the list tells whether it died and what happened in it. *)
Inductive operating (first : list (Boxed E)) : list (bool * list (option Message)) -> C -> Prop :=
| op_first mon sh t : operating first [] (mkCoordinator (mon, []) sh first t None LivenessUnknown [])
| op_life log c fuel mon e :
    operating first log c ->
    let r := life fuel mon (c_processors c) e in
    operating first (log ++ [(dead r.1, life_events fuel mon (c_processors c) e)]) r.2.

(** What a processor has been through: every process, each from its start to its last
    message, which a process that died may not have handed on. *)
Definition heard (log : list (bool * list (option Message))) (l : list (option Message)) : Prop :=
  exists parts, l = mjoin parts /\ Forall2 (fun s part => portion s.1 s.2 part) log parts.

Definition alive (log : list (bool * list (option Message))) : Prop := exists all, last log = Some (false, all).

Lemma heard_snoc log l b all part : heard log l -> portion b all part -> heard (log ++ [(b, all)]) (l ++ part).
Proof.
  intros (parts & -> & Hp) Hpart. exists (parts ++ [part]). split; [by rewrite join_app; cbn; rewrite app_nil_r|].
  apply Forall2_app; [done|]. by constructor.
Qed.

Definition driven (log : list (bool * list (option Message))) (k : { c : EventProcessor E & Lawful c }) (p : Boxed E) : Prop :=
  exists b l s, p = existT (projT1 k) s /\ reach (Lawful := projT2 k) b l s /\ heard log l /\ (alive log -> b = false).

Lemma driven_waiting log kinds l :
  Forall2 (driven log) kinds l -> exists ks, ks.*1 = kinds /\ Forall (fun k => heard log k.2) ks /\ Forall2 waiting ks l.
Proof.
  induction 1 as [|k p kinds l (b & h & s & -> & Hr & Hh & _) _ (ks & <- & Hks & Hw)]; [by exists []|].
  exists ((k, h) :: ks). split_and!; [done|by constructor|]. constructor; [|done]. by exists b, s.
Qed.

Lemma operating_ok kinds first log c :
  (forall (w : M * E) b w', api_try_block w = (Ok (Some b), w') -> 0 <= bu_number b < 2 ^ 64 - 1) ->
  Forall2 (driven []) kinds first -> operating first log c -> Forall2 (driven log) kinds (c_processors c).
Proof.
  intros Hblocks Hfirst. induction 1 as [mon sh t|log c fuel mon e _ IH]; [done|].
  destruct (driven_waiting _ _ _ IH) as (ks & <- & Hks & Hw).
  pose proof (life_ok ks Hblocks fuel mon (c_processors c) e Hw) as Hl. unfold r.
  destruct (life fuel mon (c_processors c) e) as [r' c']. cbn. unfold processors_ok in Hl. clear -Hl Hks.
  induction Hl as [|k p ks l (bi & s & part & -> & Hr & Hpart & Hb) Hl IH]; [constructor|].
  apply Forall_cons in Hks as [Hk Hks]. constructor; [|by apply IH]. exists bi, (k.2 ++ part), s.
  split_and!; [done..|by apply heard_snoc|]. intros [all Ha]. rewrite last_snoc in Ha. injection Ha as Ha _. auto.
Qed.

End Processors.

(** ** Errors of the brokers *)

Section Faults.
Context `{FlowCodecs, CommitteePayloads, !MonitorApi M E, !CoordinatorServices E} (cfg : LoopConfig).
Abbreviation C := (Coordinator M E).

(** Computations that fail only with errors that are not recoverable *)
Definition unrecoverable {A} (m : SR C Fault A) : Prop :=
  forall c causes c', m c = (Err (FaultChain causes), c') -> is_recoverable_broker_error causes = false.

Lemma unrecoverable_ret {A} (a : A) : unrecoverable (mret a).
Proof. by intros c causes c'. Qed.
Lemma unrecoverable_sget : unrecoverable sget.
Proof. by intros c causes c'. Qed.
Lemma unrecoverable_modify f : unrecoverable (smodify f).
Proof. by intros c causes c'. Qed.
Lemma unrecoverable_read {A} (f : E -> A * E) : unrecoverable (read_cenv f).
Proof. intros c causes c'. unfold read_cenv, on_cenv, zoom. by destruct (f _). Qed.
Lemma unrecoverable_bind {A B} (m : SR C Fault A) (f : A -> SR C Fault B) :
  unrecoverable m -> (forall a, unrecoverable (f a)) -> unrecoverable (m ≫= f).
Proof.
  intros Hm Hf c causes c'. unfold mbind, SR_bind. destruct (m c) as [[a|x] c1] eqn:Hr; [apply Hf|].
  intros [= -> ->]. by eapply Hm.
Qed.
Lemma unrecoverable_if {A} (b : bool) (m n : SR C Fault A) : unrecoverable m -> unrecoverable n -> unrecoverable (if b then m else n).
Proof. by destruct b. Qed.
Lemma unrecoverable_context {A} msg (m : SR C Fault A) : unrecoverable m -> unrecoverable (fault_context msg m).
Proof.
  intros Hm c causes c'. unfold fault_context. destruct (m c) as [[a|[causes'|?|]] c1] eqn:Hr; try done.
  intros [= <- <-]. cbn. by eapply Hm.
Qed.
Lemma unrecoverable_ping : unrecoverable send_bitvmx_ping.
Proof. intros c causes c'. unfold send_bitvmx_ping, on_cenv, zoom. by destruct (bitvmx_ping _) as [[] e]. Qed.
Lemma unrecoverable_reply reply : unrecoverable (send_user_reply reply).
Proof.
  intros c causes c'. unfold send_user_reply, on_cenv, zoom. destruct (user_send _ _) as [[|y] e]; [done|].
  destruct (is_recoverable_transport_error (FaultBroker y)) eqn:Hr; [done|]. intros [= <- _].
  destruct y as [y| |]; cbn in *; by rewrite ?Hr.
Qed.
Lemma unrecoverable_dispatch m : unrecoverable (dispatch m).
Proof.
  intros c causes c'. unfold dispatch. destruct (give_all m (c_processors c) (c_shared c)) as [[r l] sh] eqn:Hg.
  intros [= -> _]. revert l sh Hg. generalize (c_processors c), (c_shared c).
  intros l. induction l as [|[k s] l IH]; intros sh0 l' sh; cbn [give_all]; [done|].
  assert (Hgo : forall (s' : ep_state k) sh', (let '(r, l, sh) := give_all m l sh' in (r, existT k s' :: l, sh)) =
    (Err (FaultChain causes), l', sh) -> is_recoverable_broker_error causes = false).
  { intros s' sh'. destruct (give_all m l sh') as [[r l2] sh2] eqn:Hg. intros [= -> _ _]. by eapply IH. }
  destruct (ep_process k m (s, sh0)) as [[|[]] [s' sh']]; [apply Hgo|apply Hgo|done].
Qed.

Create HintDb unrecoverable.
Hint Resolve unrecoverable_ret unrecoverable_sget unrecoverable_modify unrecoverable_read unrecoverable_if unrecoverable_context
  unrecoverable_ping unrecoverable_reply unrecoverable_dispatch : unrecoverable.
Hint Extern 1 (unrecoverable (_ ≫= _)) => apply unrecoverable_bind; [|intros ?] : unrecoverable.
Hint Extern 1 (unrecoverable (match ?x with _ => _ end)) => destruct x : unrecoverable.

Lemma unrecoverable_poll {A} what (try : SR (M * E) Fault (option A)) handle :
  (forall a, unrecoverable (handle a)) -> unrecoverable (poll_for what try handle).
Proof.
  intros Hh. unfold poll_for. apply unrecoverable_bind; [|intros [a|]; auto with unrecoverable].
  intros c causes c'. unfold handle_runtime_broker_result. destruct (fault_context _ _ c) as [[a|[causes'|?|]] c1]; try done.
  destruct (is_recoverable_broker_error causes') eqn:Hr; [done|]. by intros [= <- _].
Qed.

Lemma unrecoverable_replies l : unrecoverable (send_replies l).
Proof. induction l; cbn [send_replies]; auto 10 with unrecoverable. Qed.

(** The connection to a broker is broken: it was lost or closed, or the transport or the
    call failed. *)
Definition broken (x : fault_cause) : Prop :=
  exists e, (x = FaultRpc e \/ x = FaultBroker (BrokerServerError e)) /\
    (e = Disconnected \/ e = ClosedChannel \/ exists msg, e = IoError msg \/ e = RpcError msg).

Lemma broken_recoverable x : is_recoverable_transport_error x = true <-> broken x.
Proof.
  split.
  - destruct x as [msg|[e|msg|msg]|e]; try done; intros Hx; exists e; (split; [auto|]); destruct e; try done; eauto.
  - intros (e & [->| ->] & [->|[->|[msg [->| ->]]]]); done.
Qed.

Lemma unbroken_unrecoverable causes :
  is_recoverable_broker_error causes = false <-> Forall (fun x => ~ broken x) causes.
Proof.
  unfold is_recoverable_broker_error. induction causes as [|x l IH]; cbn; [by split; [constructor|]|].
  rewrite orb_false_iff, Forall_cons, IH, <- broken_recoverable, not_true_iff_false. done.
Qed.

(** The errors of the database come from no broker. *)
Hypothesis store_errors : forall e causes e',
  store_context e = (Err (FaultChain causes), e') -> Forall (fun x => ~ broken x) causes.

Lemma unrecoverable_store : unrecoverable (on_cenv store_context).
Proof.
  intros c causes c'. unfold on_cenv, zoom. destruct (store_context _) as [r e] eqn:Hs. intros [= -> _].
  apply unbroken_unrecoverable. by eapply store_errors.
Qed.

Lemma unrecoverable_loop fuel : unrecoverable (run_loop cfg fuel).
Proof.
  assert (Hround : unrecoverable (round cfg)).
  { unfold round, check_bitvmx_liveness, expire_ping, elapsed.
    apply unrecoverable_bind; [auto 20 with unrecoverable|intros _].
    apply unrecoverable_bind; [apply unrecoverable_poll; auto with unrecoverable|intros _].
    apply unrecoverable_bind; [auto with unrecoverable|intros c1].
    apply unrecoverable_bind; [apply unrecoverable_replies|intros _].
    apply unrecoverable_bind; [apply unrecoverable_poll; unfold record_bitvmx_activity; auto 10 with unrecoverable|intros _].
    apply unrecoverable_bind; [apply unrecoverable_poll; auto with unrecoverable|intros _].
    apply unrecoverable_bind; [apply unrecoverable_poll; auto with unrecoverable|intros _].
    apply unrecoverable_context, unrecoverable_store. }
  induction fuel as [|fuel IH]; cbn [run_loop]; [by intros ? ? ?|]. auto 10 with unrecoverable.
Qed.

(** C30: the loop of the coordinator outlives broken connections, and only those.  When
    the loop ends with an error, no cause of it is a broken connection to a broker: one
    that was lost or closed, or on which the transport or the call failed.  Polling a
    broker that fails with such a cause is as if there were no message; any other error
    of a broker is returned. *)
Theorem loop_outlives_transport_errors :
  (forall fuel (c c' : C) causes,
     run_loop cfg fuel c = (Err (FaultChain causes), c') -> Forall (fun x => ~ broken x) causes) /\
  (forall A what (try : SR (M * E) Fault (option A)) handle (c c' : C) causes,
     on_monitor try c = (Err (FaultChain causes), c') ->
     (Exists broken causes -> poll_for what try handle c = (Ok tt, c')) /\
     (Forall (fun x => ~ broken x) causes -> poll_for what try handle c = (Err (FaultChain (FaultMsg what :: causes)), c'))).
Proof.
  split.
  - intros fuel c c' causes Hr. apply unbroken_unrecoverable. by eapply unrecoverable_loop.
  - intros A what try handle c c' causes Hr.
    assert (Hp : handle_runtime_broker_result (fault_context what (on_monitor try)) c =
      if is_recoverable_broker_error causes then (Ok None, c') else (Err (FaultChain (FaultMsg what :: causes)), c')).
    { unfold handle_runtime_broker_result, fault_context. rewrite Hr. done. }
    unfold poll_for. split; intros Hb.
    + destruct (is_recoverable_broker_error causes) eqn:Hrec; [by rewrite (SR_bind_run _ _ _ _ _ Hp)|].
      apply unbroken_unrecoverable in Hrec. apply Exists_exists in Hb as (x & Hx & Hb).
      rewrite Forall_forall in Hrec. by destruct (Hrec x Hx).
    + apply unbroken_unrecoverable in Hb. rewrite Hb in Hp. by rewrite (SR_bind_err _ _ _ _ _ Hp).
Qed.

End Faults.

(** ** The contact with BitVMX *)

Section Contact.
Context `{FlowCodecs, CommitteePayloads, !MonitorApi M E, !CoordinatorServices E} (cfg : LoopConfig).
Abbreviation C := (Coordinator M E).

(** A contact is declared lost only right after a ping that was not answered for longer
    than the threshold, and a ping is sent only when none is open. *)
Definition contact_ok (l : list Contact) : Prop :=
  forall l1 x l2, l = l1 ++ x :: l2 ->
    match x with
    | Heard _ => True
    | Pinged _ => forall t, last l1 <> Some (Pinged t)
    | Lost t => exists t0, last l1 = Some (Pinged t0) /\ bitvmx_not_responding_threshold cfg < saturating_sub t t0
    end.

Definition contact_inv (c : C) : Prop :=
  contact_ok (c_contact c) /\ forall t, c_ping c = Some t <-> last (c_contact c) = Some (Pinged t).

Lemma contact_snoc l x :
  contact_ok l ->
  match x with
  | Heard _ => True
  | Pinged _ => forall t, last l <> Some (Pinged t)
  | Lost t => exists t0, last l = Some (Pinged t0) /\ bitvmx_not_responding_threshold cfg < saturating_sub t t0
  end -> contact_ok (l ++ [x]).
Proof.
  intros Hl Hx l1 y l2 Heq. destruct l2 as [|z l2 _] using rev_ind.
  - apply app_inj_tail in Heq as [-> ->]. done.
  - rewrite app_comm_cons, app_assoc in Heq. apply app_inj_tail in Heq as [-> _]. by apply (Hl l1 y l2).
Qed.

Definition tidy {A} (m : SR C Fault A) : Prop := forall c, contact_inv c -> contact_inv (snd (m c)).

Lemma tidy_frame {A} (m : SR C Fault A) :
  (forall c, c_contact (snd (m c)) = c_contact c /\ c_ping (snd (m c)) = c_ping c) -> tidy m.
Proof. intros Hm c Hc. destruct (Hm c) as [H3 H4]. unfold contact_inv. by rewrite H3, H4. Qed.
Lemma tidy_ret {A} (a : A) : tidy (mret a).
Proof. by apply tidy_frame. Qed.
Lemma tidy_sget : tidy sget.
Proof. by apply tidy_frame. Qed.
Lemma tidy_bind {A B} (m : SR C Fault A) (f : A -> SR C Fault B) : tidy m -> (forall a, tidy (f a)) -> tidy (m ≫= f).
Proof.
  intros Hm Hf c Hc. specialize (Hm c Hc). unfold mbind, SR_bind. destruct (m c) as [[a|x] c1]; [by apply Hf|done].
Qed.
Lemma tidy_if {A} (b : bool) (m n : SR C Fault A) : tidy m -> tidy n -> tidy (if b then m else n).
Proof. by destruct b. Qed.
Lemma tidy_context {A} msg (m : SR C Fault A) : tidy m -> tidy (fault_context msg m).
Proof. intros Hm c Hc. specialize (Hm c Hc). unfold fault_context. by destruct (m c) as [[a|[]] c']. Qed.
Lemma tidy_on_monitor {A} (m : SR (M * E) Fault A) : tidy (on_monitor m).
Proof. apply tidy_frame. intros c. unfold on_monitor. by destruct (m _) as [r [mon e]]. Qed.
Lemma tidy_on_cenv {A} (m : SR E Fault A) : tidy (on_cenv m).
Proof. apply tidy_frame. intros c. unfold on_cenv, zoom. by destruct (m _) as [r e]. Qed.
Lemma tidy_read_cenv {A} (f : E -> A * E) : tidy (read_cenv f).
Proof. apply tidy_on_cenv. Qed.
Lemma tidy_dispatch m : tidy (dispatch m).
Proof. apply tidy_frame. intros c. unfold dispatch. by destruct (give_all _ _ _) as [[r l] sh]. Qed.
Lemma tidy_ping : tidy send_bitvmx_ping.
Proof. apply tidy_frame. intros c. unfold send_bitvmx_ping, on_cenv, zoom. by destruct (bitvmx_ping _) as [[] e]. Qed.
Lemma tidy_replies l : tidy (send_replies l).
Proof.
  induction l as [|reply l IH]; cbn [send_replies]; [apply tidy_ret|]. apply tidy_bind; [by apply tidy_frame|intros _].
  apply tidy_bind; [|done]. apply tidy_context, tidy_frame. intros c. unfold send_user_reply, on_cenv, zoom.
  destruct (user_send _ _) as [[|y] e]; [done|]. by destruct (is_recoverable_transport_error _).
Qed.
Lemma tidy_poll {A} what (try : SR (M * E) Fault (option A)) handle : (forall a, tidy (handle a)) -> tidy (poll_for what try handle).
Proof.
  intros Hh. unfold poll_for. apply tidy_bind; [|intros [a|]; [apply Hh|apply tidy_ret]].
  intros c Hc. pose proof (tidy_context what (on_monitor try) (tidy_on_monitor try) c Hc) as Hm.
  unfold handle_runtime_broker_result. destruct (fault_context what (on_monitor try) c) as [[a|[causes|?|]] c1]; try done.
  by destruct (is_recoverable_broker_error causes).
Qed.

(** Reading the clock changes nothing else. *)
Lemma read_instant {B} (k : Z -> SR C Fault B) (P : C -> Prop) c :
  (forall now c1, c_contact c1 = c_contact c -> c_ping c1 = c_ping c -> P (snd (k now c1))) ->
  P (snd ((now ← read_cenv now_instant; k now) c)).
Proof.
  intros Hk. unfold read_cenv, on_cenv, zoom. unfold mbind, SR_bind. destruct (now_instant _) as [now e]. by apply Hk.
Qed.

Lemma tidy_expire : tidy (expire_ping cfg).
Proof.
  intros c [Hok Hp]. unfold expire_ping. rewrite SR_bind_run with (a := c) (s' := c) by done.
  destruct (c_ping c) as [sent|] eqn:Hping; [|split; [done|intros t; cbn; by rewrite Hping, Hp]].
  apply (read_instant _ contact_inv). intros now c1 Hc1 Hp1.
  destruct (Z.ltb_spec (bitvmx_not_responding_threshold cfg) (saturating_sub now sent)) as [Hlt|_].
  - cbn. unfold contact_inv. cbn. rewrite Hc1. split.
    + apply contact_snoc; [done|]. exists sent. split; [|done]. by apply Hp.
    + intros t. rewrite last_snoc. done.
  - cbn. unfold contact_inv. rewrite Hc1, Hp1, Hping. done.
Qed.

Lemma tidy_liveness : tidy (check_bitvmx_liveness cfg).
Proof.
  unfold check_bitvmx_liveness. apply tidy_bind; [apply tidy_expire|intros _]. intros c Hc.
  rewrite SR_bind_run with (a := c) (s' := c) by done. unfold elapsed.
  assert (Hsame : forall c1, c_contact c1 = c_contact c -> c_ping c1 = c_ping c -> contact_inv c1)
    by (intros c1 H3 H4; unfold contact_inv; by rewrite H3, H4).
  rewrite SR_bind_assoc. apply (read_instant _ contact_inv). intros now c1 H3 H4.
  rewrite SR_bind_run with (a := saturating_sub now (c_last_msg c)) (s' := c1) by done.
  destruct (_ <? _); cbn [andb]; [|by apply Hsame].
  destruct (bool_decide_reflect (c_ping c = None)) as [Hnone|_]; [|by apply Hsame].
  unfold send_bitvmx_ping, on_cenv, zoom. unfold mbind at 1, SR_bind at 1.
  destruct (bitvmx_ping (sh_env (c_shared c1))) as [[[]|y] e]; [|by apply Hsame..].
  apply (read_instant _ contact_inv). intros sent c2 H5 H6. cbn in H5. unfold contact_inv. cbn. rewrite H5, H3.
  destruct Hc as [Hok Hp]. split.
  - apply contact_snoc; [done|]. intros t Ht. apply Hp in Ht. by rewrite Hnone in Ht.
  - intros t. rewrite last_snoc. naive_solver.
Qed.

Lemma tidy_activity : tidy record_bitvmx_activity.
Proof.
  intros c [Hok Hp]. unfold record_bitvmx_activity. apply (read_instant _ contact_inv). intros now c1 H3 _.
  unfold contact_inv. cbn. rewrite H3. split; [by apply contact_snoc|]. intros t. rewrite last_snoc. done.
Qed.

Lemma tidy_round : tidy (round cfg).
Proof.
  unfold round. apply tidy_bind; [apply tidy_liveness|intros _].
  apply tidy_bind; [apply tidy_poll; intros; apply tidy_dispatch|intros _].
  apply tidy_bind; [apply tidy_sget|intros c]. apply tidy_bind; [apply tidy_replies|intros _].
  apply tidy_bind; [apply tidy_poll; intros; apply tidy_bind; [apply tidy_activity|intros _; apply tidy_dispatch]|intros _].
  apply tidy_bind; [apply tidy_poll; intros; apply tidy_dispatch|intros _].
  apply tidy_bind; [apply tidy_poll; intros; apply tidy_dispatch|intros _]. apply tidy_context, tidy_on_cenv.
Qed.

Lemma tidy_loop fuel : tidy (run_loop cfg fuel).
Proof.
  induction fuel as [|fuel IH]; cbn [run_loop]; [by apply tidy_frame|]. apply tidy_bind; [apply tidy_read_cenv|intros stop].
  apply tidy_if; [apply tidy_ret|]. apply tidy_bind; [apply tidy_round|done].
Qed.

(** Before the loop there is no contact. *)
Definition silent (c : C) : Prop := c_contact c = [] /\ c_ping c = None.

Lemma silent_inv c : silent c -> contact_inv c.
Proof. intros [Hc Hp]. unfold contact_inv. rewrite Hc, Hp. split; [|done]. intros l1 x l2 Heq. by destruct l1. Qed.

Lemma silent_bind {A B} (m : SR C Fault A) (k : A -> SR C Fault B) c :
  (forall c0, c_contact (snd (m c0)) = c_contact c0 /\ c_ping (snd (m c0)) = c_ping c0) ->
  silent c -> (forall a c1, silent c1 -> contact_inv (snd (k a c1))) -> contact_inv (snd ((m ≫= k) c)).
Proof.
  intros Hm [Hc Hp] Hk. destruct (Hm c) as [H3 H4]. unfold mbind, SR_bind.
  destruct (m c) as [[a|x] c1]; cbn in *; [apply Hk|apply silent_inv]; by unfold silent; rewrite H3, H4.
Qed.

Lemma silent_monitor {A} msg (m : SR (M * E) Fault A) (c : C) :
  c_contact (snd (fault_context msg (on_monitor m) c)) = c_contact c /\
  c_ping (snd (fault_context msg (on_monitor m) c)) = c_ping c.
Proof. unfold fault_context, on_monitor. by destruct (m _) as [[a|[]] [mon e]]. Qed.

Lemma silent_clock (c : C) :
  c_contact (snd (initial_last_msg cfg c)) = c_contact c /\ c_ping (snd (initial_last_msg cfg c)) = c_ping c.
Proof.
  unfold initial_last_msg, read_cenv, on_cenv, zoom. unfold mbind, SR_bind. destruct (now_instant _) as [now e].
  destruct (_ <=? _); [done|]. by destruct (now_instant _) as [now' e'].
Qed.

Lemma tidy_finish fuel : tidy (run_and_finish cfg fuel).
Proof.
  intros c Hc. unfold run_and_finish. pose proof (tidy_loop fuel c Hc) as Hl.
  assert (Hf : forall r : result Fault unit, tidy (_ ← finish; slift r)).
  { intros r. unfold finish. apply tidy_bind; [|intros _; by apply tidy_frame].
    apply tidy_bind; [apply tidy_dispatch|intros _]. apply tidy_bind; [apply tidy_context, tidy_on_cenv|intros _].
    apply tidy_context, tidy_on_monitor. }
  destruct (run_loop cfg fuel c) as [[[]|[causes|msg|]] c1]; [by apply Hf|by apply Hf|done|done].
Qed.

(** C31: BitVMX is declared lost for a reason.  In every run of the coordinator, each time
    BitVMX is declared not to respond, the last contact with it was a ping that had
    stayed without any message for longer than the threshold; and no ping is sent
    while another one is open. *)
Theorem bitvmx_lost_for_a_reason fuel mon (l : list (Boxed E)) (e : E) (c : C) :
  new mon l e = (Ok tt, c) -> contact_ok (c_contact (snd (run cfg fuel c))).
Proof.
  intros Hnew. assert (Hc : silent c).
  { unfold new in Hnew. destruct (load_context e) as [[u|x] e1]; [|discriminate Hnew].
    destruct (start_all _ _) as [[r l'] sh]. by injection Hnew as _ <-. }
  assert (Hinv : contact_inv (snd (run cfg fuel c))); [|apply Hinv]. unfold run, prepare. rewrite SR_bind_assoc.
  apply silent_bind; [intros; apply silent_monitor|done|]. intros _ c1 H1'.
  rewrite SR_bind_assoc. apply silent_bind; [intros; apply silent_monitor|done|]. intros _ c2 H2'. rewrite SR_bind_assoc.
  apply silent_bind; [intros; apply silent_monitor|done|]. intros _ c3 H3'.
  rewrite SR_bind_assoc. apply silent_bind; [intros; apply silent_monitor|done|]. intros _ c4 H4'. rewrite SR_bind_assoc.
  apply silent_bind; [intros; apply silent_clock|done|]. intros last_msg c5 H5'.
  apply tidy_finish, silent_inv. destruct H5' as [Hct _]. by split.
Qed.

End Contact.

(** ** The five processors *)

(** A processor of flows as a trait object: it shares the services with the others. *)
Section Hosted.
Context `{FlowCodecs, CommitteePayloads} {S D E X Q N : Type}.
Abbreviation P := (Processor S D E X Q N).

Definition hosted (process : Message -> SR P FlowError unit) (renew : P -> E -> P) (start : SR P FlowError unit)
    : EventProcessor E := {|
  ep_state := P;
  ep_process m '(p, sh) :=
    let '(r, p') := process m (set_env (sh_env sh) p) in (r, (p', mkShared (sh_replies sh) (penv p')));
  ep_start '(p, sh) :=
    let '(r, p') := start (renew p (sh_env sh)) in (r, (p', mkShared (sh_replies sh) (penv p')))
|}.

Lemma hosted_lawful process renew start (R : bool -> list (option Message) -> P -> Prop) :
  (forall l p e, R false l p -> R false l (set_env e p)) ->
  (forall l m p, R false l p -> message_ok m -> R (panicked (fst (process m p))) (l ++ [Some m]) (snd (process m p))) ->
  (forall b l p e, R b l p -> R (negb (is_ok (fst (start (renew p e))))) (l ++ [None]) (snd (start (renew p e)))) ->
  Lawful (hosted process renew start).
Proof.
  intros Henv Hproc Hstart. exists R.
  - intros l m p sh Hp Hm. cbn. pose proof (Hproc l m _ (Henv l p (sh_env sh) Hp) Hm) as Hr. by destruct (process m _) as [r p'].
  - intros b l p sh Hp. cbn. pose proof (Hstart b l p (sh_env sh) Hp) as Hr. by destruct (start _) as [r p'].
Defined.

(** The past of a processor, against what its host handed on *)
Definition handed {I} (input : Message -> I) (l : list (option Message)) : list (option I) :=
  (fun o => match o with Some m => Some (input m) | None => None end) <$> l.

Lemma inputs_took {I} (input : Message -> I) (past : list (Past P I)) (l : list (option Message)) p m :
  inputs_of past = handed input l -> inputs_of (past ++ [Took p (input m)]) = handed input (l ++ [Some m]).
Proof. intros Hp. unfold inputs_of, handed in *. by rewrite !fmap_app, Hp. Qed.
Lemma inputs_started {I} (input : Message -> I) (past : list (Past P I)) (l : list (option Message)) :
  inputs_of past = handed input l -> inputs_of (past ++ [Started]) = handed input (l ++ [None]).
Proof. intros Hp. unfold inputs_of, handed in *. by rewrite !fmap_app, Hp. Qed.

End Hosted.

(** [uses_fake_native_bridge] and [build_native_bridge_verifier] *)
Definition uses_fake_native_bridge (runtime_environment : string) : bool := eq_ignore_ascii_case runtime_environment "local-anvil".

Definition build_native_bridge_verifier (runtime_environment : string) (btc_confirmations buffer : Z) : NativeBridgeVerifier :=
  if uses_fake_native_bridge runtime_environment then Dummy else Real (saturating_add 32 btc_confirmations buffer).

Record FlowsConfig := mkFlowsConfig {
  fc_bitcoin_network : Network;
  fc_runtime_environment : string;
  fc_rsk_confirmations : Z;
  fc_btc_confirmations : Z;
  fc_btc_status_retry_blocks : Z;
  fc_advance_funds_timeout_secs : Z;
  fc_drp_program_definition : string;
  fc_btc_confirmations_buffer : Z
}.

Section Five.
Context `{FlowCodecs, !CommitteeCodecs, Keccak, Sha256, !JsonCodecs, !FundingAddresses, HashOrder}.
Context `{!EnvVars G, !BitvmxBroker G, !CommitteeServices G, !SetupServices G, !SetupProcessorServices (G := G)}.
Context `{!CommitteeServices (Env G), !BridgeNode (Env G), !SignatureContracts (Env G), !ForceFlags (Env G),
  !PeginServices (Env G), !PegoutServices (Env G), !AdvanceFundsServices (Env G)}.
Context `{!PeginProcessorServices (E := Env G), !PegoutProcessorServices (E := Env G), !TakeProcessorServices (E := Env G),
  !FundingServices (Env G)}.
Context (fc : FlowsConfig).

Definition fc_verifier : NativeBridgeVerifier :=
  build_native_bridge_verifier (fc_runtime_environment fc) (fc_btc_confirmations fc) (fc_btc_confirmations_buffer fc).

Definition pegin_config : PeginProcessor.Config :=
  PeginProcessor.mkConfig (fc_rsk_confirmations fc) (fc_btc_confirmations fc) (fc_btc_status_retry_blocks fc).
Definition pegout_config : PegoutProcessor.Config :=
  PegoutProcessor.mkConfig (fc_advance_funds_timeout_secs fc) (fc_rsk_confirmations fc) (fc_btc_confirmations fc)
    (fc_btc_status_retry_blocks fc) (Some (fc_runtime_environment fc)).
Definition take_config : TakeProcessor.Config :=
  TakeProcessor.mkConfig (fc_rsk_confirmations fc) (fc_btc_status_retry_blocks fc).

Definition pegin_input (m : Message) : PeginProcessor.Input :=
  match m with
  | ForUser req => PeginProcessor.InUserRequest req
  | ForBitvmx event => PeginProcessor.InBitvmxEvent event
  | ForRsk event => PeginProcessor.InRskEvent event
  | ForBlock block => PeginProcessor.InBlock block
  | ForShutdown => PeginProcessor.InShutdown
  end.
Definition pegout_input (m : Message) : PegoutProcessor.Input :=
  match m with
  | ForUser req => PegoutProcessor.InUserRequest req
  | ForBitvmx event => PegoutProcessor.InBitvmxEvent event
  | ForRsk event => PegoutProcessor.InRskEvent event
  | ForBlock block => PegoutProcessor.InBlock block
  | ForShutdown => PegoutProcessor.InShutdown
  end.
Definition take_input (m : Message) : TakeProcessor.Input :=
  match m with
  | ForUser req => TakeProcessor.InUserRequest req
  | ForBitvmx event => TakeProcessor.InBitvmxEvent event
  | ForRsk event => TakeProcessor.InRskEvent event
  | ForBlock block => TakeProcessor.InBlock block
  | ForShutdown => TakeProcessor.InShutdown
  end.
Definition setup_input (m : Message) : SetupProcessor.Input :=
  match m with
  | ForUser req => SetupProcessor.InUserRequest req
  | ForBitvmx event => SetupProcessor.InBitvmxEvent event
  | ForRsk event => SetupProcessor.InRskEvent event
  | ForBlock block => SetupProcessor.InBlock block
  | ForShutdown => SetupProcessor.InShutdown
  end.

Definition pegin_processor : EventProcessor (Env G) :=
  hosted (fun m => PeginProcessor.process fc_verifier pegin_config (pegin_input m))
    (fun p e => PeginProcessor.new_processor (disk p) (disk_tables p) e) (PeginProcessor.start pegin_config).
Definition pegout_processor : EventProcessor (Env G) :=
  hosted (fun m => PegoutProcessor.process fc_verifier pegout_config (pegout_input m))
    (fun p e => PegoutProcessor.new_processor (disk p) (disk_tables p) e) (PegoutProcessor.restore_or_new pegout_config).
Definition take_processor : EventProcessor (Env G) :=
  hosted (fun m => TakeProcessor.process fc_verifier take_config (take_input m))
    (fun p e => TakeProcessor.new_processor (disk p) (disk_tables p) e) (TakeProcessor.start take_config).
Definition setup_processor : EventProcessor (Env G) :=
  hosted (fun m => SetupProcessor.process (fc_bitcoin_network fc) (fc_drp_program_definition fc) (fc_btc_confirmations fc)
      (fc_rsk_confirmations fc) (setup_input m))
    (fun p e => SetupProcessor.new_processor (disk p) e) SetupProcessor.start.

(** The requests of users are kept in memory only. *)
Definition funding_processor : EventProcessor (Env G) := {|
  ep_state := gmap bytes Z;
  ep_process m '(pending, sh) :=
    let handle i := 
      let '(r, w) := FundingInfo.process (my_address (E := G)) (fc_bitcoin_network fc) i (mkFunding pending (sh_replies sh) (sh_env sh)) in
      (r, (pending_requests w, mkShared (replies w) (fenv w))) in
    match m with
    | ForUser req => handle (FundingInfo.InUserRequest req)
    | ForBitvmx event => handle (FundingInfo.InBitvmxEvent event)
    | _ => (Ok tt, (pending, sh))
    end;
  ep_start '(_, sh) := (Ok tt, (∅, sh))
|}.

(** The states of each processor, as its own theorems describe them, with the starts and
    messages that it takes to come there *)
Definition pegin_reach (b : bool) (l : list (option Message)) (p : ep_state pegin_processor) : Prop :=
  exists past, PeginProcessor.reachable fc_verifier pegin_config b past p /\ inputs_of past = handed pegin_input l.
Definition pegout_reach (b : bool) (l : list (option Message)) (p : ep_state pegout_processor) : Prop :=
  exists past, PegoutProcessor.reachable fc_verifier pegout_config b past p /\ inputs_of past = handed pegout_input l.
Definition take_reach (b : bool) (l : list (option Message)) (p : ep_state take_processor) : Prop :=
  exists past, TakeProcessor.reachable fc_verifier take_config b past p /\ inputs_of past = handed take_input l.
Definition setup_reach (b : bool) (l : list (option Message)) (p : ep_state setup_processor) : Prop :=
  exists past, SetupProcessor.reachable (fc_bitcoin_network fc) (fc_drp_program_definition fc) (fc_btc_confirmations fc)
    (fc_rsk_confirmations fc) b past p /\ inputs_of past = handed setup_input l.
Inductive funding_reach : bool -> list (option Message) -> ep_state funding_processor -> Prop :=
| F_empty : funding_reach true [] ∅
| F_start b l pending sh :
    funding_reach b l pending -> let r := ep_start funding_processor (pending, sh) in
    funding_reach (negb (is_ok (fst r))) (l ++ [None]) (snd r).1
| F_message l m pending sh :
    funding_reach false l pending -> let r := ep_process funding_processor m (pending, sh) in
    funding_reach (panicked (fst r)) (l ++ [Some m]) (snd r).1.

Definition pegin_lawful : Lawful pegin_processor.
Proof.
  apply (hosted_lawful _ _ _ pegin_reach).
  - intros l p e (past & Hp & Hl). exists past. split; [by apply PeginProcessor.R_env|done].
  - intros l m p (past & Hp & Hl) Hm. eexists. split; [apply PeginProcessor.R_input; [exact Hp|by destruct m]|by apply inputs_took].
  - intros b l p e (past & Hp & Hl). eexists. split; [by apply (PeginProcessor.R_start _ _ b past)|by apply inputs_started].
Defined.
Definition pegout_lawful : Lawful pegout_processor.
Proof.
  apply (hosted_lawful _ _ _ pegout_reach).
  - intros l p e (past & Hp & Hl). exists past. split; [by apply PegoutProcessor.R_env|done].
  - intros l m p (past & Hp & Hl) Hm. eexists. split; [apply PegoutProcessor.R_input; [exact Hp|by destruct m]|by apply inputs_took].
  - intros b l p e (past & Hp & Hl). eexists. split; [by apply (PegoutProcessor.R_start _ _ b past)|by apply inputs_started].
Defined.
Definition take_lawful : Lawful take_processor.
Proof.
  apply (hosted_lawful _ _ _ take_reach).
  - intros l p e (past & Hp & Hl). exists past. split; [by apply TakeProcessor.R_env|done].
  - intros l m p (past & Hp & Hl) Hm. eexists. split; [apply TakeProcessor.R_input; [exact Hp|by destruct m]|by apply inputs_took].
  - intros b l p e (past & Hp & Hl). eexists. split; [by apply (TakeProcessor.R_start _ _ b past)|by apply inputs_started].
Defined.
Definition setup_lawful : Lawful setup_processor.
Proof.
  apply (hosted_lawful _ _ _ setup_reach).
  - intros l p e (past & Hp & Hl). exists past. split; [by apply SetupProcessor.R_env|done].
  - intros l m p (past & Hp & Hl) Hm. eexists. split; [apply SetupProcessor.R_input; [exact Hp|by destruct m]|by apply inputs_took].
  - intros b l p e (past & Hp & Hl). eexists. split; [by apply (SetupProcessor.R_start _ _ _ _ b past)|by apply inputs_started].
Defined.
Definition funding_lawful : Lawful funding_processor := {|
  reach := funding_reach;
  reach_process l m s sh Hs _ := F_message l m s sh Hs;
  reach_start := F_start
|}.

Definition kinds_of_processors : list { c : EventProcessor (Env G) & Lawful c } :=
  [existT _ pegin_lawful; existT _ pegout_lawful; existT _ take_lawful; existT _ setup_lawful; existT _ funding_lawful].

(** Before the first start, with an empty store *)
Definition empty_processors (e : Env G) : list (Boxed (Env G)) :=
  [existT pegin_processor (PeginProcessor.new_processor ∅ None e); existT pegout_processor (PegoutProcessor.new_processor ∅ None e);
   existT take_processor (TakeProcessor.new_processor ∅ None e); existT setup_processor (SetupProcessor.new_processor ∅ e);
   existT funding_processor ∅].

Lemma empty_driven e : Forall2 (driven []) kinds_of_processors (empty_processors e).
Proof.
  repeat (constructor; [eexists true, [], _; split; [reflexivity|split;
    [|split; [exists []; by split|by intros [all Hall]]]]|]); [..|constructor].
  - exists []. split; [apply PeginProcessor.R_empty|done].
  - exists []. split; [apply PegoutProcessor.R_empty|done].
  - exists []. split; [apply TakeProcessor.R_empty|done].
  - exists []. split; [apply SetupProcessor.R_empty|done].
  - apply F_empty.
Qed.

(** C12: the loop hands every message to every processor, and restarts take them over.
    A monitor keeps a record of what it gives.  Through any number of processes, each
    started over what the one before has stored, over any brokers and services and
    through failures and panics, each of the five processors is in a state that it
    reaches on its own, as its own theorems describe it, with a past of exactly these
    starts and these messages in their order, and the shutdown at the end of a loop;
    only the last message of a process that died may be missing.  No processor is dead
    while the process runs. *)
Theorem coordinator_drives_processors `{!MonitorApi M (Env G), !CoordinatorServices (Env G)} cfg (e : Env G) log
    (c : Coordinator (M * list Message) (Env G)) :
  (forall (w : M * Env G) block w', api_try_block w = (Ok (Some block), w') -> 0 <= bu_number block < 2 ^ 64 - 1) ->
  operating cfg (empty_processors e) log c ->
  exists pegin pegout take setup funding,
    c_processors c = [existT pegin_processor pegin; existT pegout_processor pegout; existT take_processor take;
      existT setup_processor setup; existT funding_processor funding] /\
    let past_is {P} (R : bool -> list (option Message) -> P -> Prop) (p : P) :=
      exists b l, R b l p /\ heard log l /\ (alive log -> b = false) in
    past_is pegin_reach pegin /\ past_is pegout_reach pegout /\ past_is take_reach take /\ past_is setup_reach setup /\
    past_is funding_reach funding.
Proof.
  intros Hblocks Hop. pose proof (operating_ok cfg kinds_of_processors _ log c Hblocks (empty_driven e) Hop) as Hok.
  unfold kinds_of_processors in Hok.
  apply Forall2_cons_inv_l in Hok as (p1 & l1 & (b1 & h1 & s1 & -> & H1' & Hb1) & Hok & ->).
  apply Forall2_cons_inv_l in Hok as (p2 & l2 & (b2 & h2 & s2 & -> & H2' & Hb2) & Hok & ->).
  apply Forall2_cons_inv_l in Hok as (p3 & l3 & (b3 & h3 & s3 & -> & H3' & Hb3) & Hok & ->).
  apply Forall2_cons_inv_l in Hok as (p4 & l4 & (b4 & h4 & s4 & -> & H4' & Hb4) & Hok & ->).
  apply Forall2_cons_inv_l in Hok as (p5 & l5 & (b5 & h5 & s5 & -> & H5' & Hb5) & Hok & ->).
  apply Forall2_nil_inv_l in Hok as ->. exists s1, s2, s3, s4, s5. split; [done|]. cbn zeta.
  split_and!; [by exists b1, h1|by exists b2, h2|by exists b3, h3|by exists b4, h4|by exists b5, h5].
Qed.

End Five.

(** ** A short run

    The requests of users are given; BitVMX says nothing, and every look at the clock
    takes a second. *)

Module Sample.

#[export] Existing Instances Flow.Sample.codecs Flow.Sample.socket_addrs NativeBridge.Sample.crates
  Flow.Sample.committee_services Flow.Sample.node SetupCommitteeFlow.Sample.codecs SetupCommitteeFlow.Sample.keccak
  SetupCommitteeFlow.Sample.mix_hash PegoutProcessor.Sample.flags SetupProcessor.Sample.order.

Definition G : Type := list (result BrokerError (option UserRequests)) * Z.
Abbreviation E := (Env G).

#[export] Instance json : JsonCodecs := {|
  parse_pegin_accepted _ := None;
  parse_pegout_accepted _ := None;
  parse_funds_advance_spv _ := None;
  parse_union_spv_notification _ := None
|}.
#[export] Instance addresses : FundingAddresses := {| require_network _ a := Some a |}.
#[export] Instance env_vars : EnvVars G := {| env_var _ _ := VarNotPresent |}.
#[export] Instance broker : BitvmxBroker G := {| CommitteeSetup.broker_send _ g := (Ok tt, g) |}.
#[export] Instance setup_services : SetupServices G := {|
  is_whitelisted g := (Ok true, g);
  get_balance g := (Ok (10 ^ 30), g);
  get_minimum_deposit _ _ g := (Ok 1, g);
  SetupCommitteeFlow.contract_call _ g := (Ok tt, g);
  SetupCommitteeFlow.save_flow _ g := (Ok tt, g);
  SetupCommitteeFlow.signal_done _ _ _ g := (Ok tt, g)
|}.
#[export] Instance setup_processor_services : SetupProcessorServices (G := G) := {|
  setup_now _ := 0;
  delete_setup _ g := (Ok tt, g);
  load_setups g := (Ok tt, g)
|}.
#[export] Instance pegin_services : PeginServices E := {|
  PeginFlow.contract_call _ e := (Ok tt, e);
  PeginFlow.broker_send _ e := (Ok tt, e);
  PeginFlow.save_flow _ e := (Ok tt, e);
  PeginFlow.signal_done _ e := (Ok tt, e)
|}.
#[export] Instance pegout_services : PegoutServices E := {|
  PegoutFlow.contract_call _ e := (Ok tt, e);
  PegoutFlow.broker_send _ e := (Ok tt, e);
  PegoutFlow.save_flow _ e := (Ok tt, e);
  PegoutFlow.signal_done _ e := (Ok tt, e)
|}.
#[export] Instance take_services : AdvanceFundsServices E := {|
  OperatorTakeFlow.contract_call _ e := (Ok tt, e);
  get_accept_pegin_txid _ e := (Ok [5; 5], e);
  OperatorTakeFlow.broker_send _ e := (Ok tt, e);
  OperatorTakeFlow.save_flow _ e := (Ok tt, e);
  OperatorTakeFlow.signal_done _ _ e := (Ok tt, e)
|}.
#[export] Instance signature_services : SignatureContracts E := {| BtcSignature.contract_call _ e := (Ok tt, e) |}.
#[export] Instance pegin_processor_services : PeginProcessorServices (E := E) := {|
  PeginProcessor.im_member c e := CoordinatorStore.im_member c e.1;
  PeginProcessor.utc_now _ := 0;
  PeginProcessor.delete_flow _ e := (Ok tt, e);
  PeginProcessor.save_processor_state _ e := (Ok tt, e);
  PeginProcessor.load_flows e := (Ok tt, e);
  PeginProcessor.load_processor_state e := (Ok tt, e);
  subscribe_to_rsk_pegin _ e := (Ok tt, e)
|}.
#[export] Instance pegout_processor_services : PegoutProcessorServices (E := E) := {|
  PegoutProcessor.im_member c e := CoordinatorStore.im_member c e.1;
  PegoutProcessor.utc_now _ := 0;
  PegoutProcessor.delete_flow _ e := (Ok tt, e);
  PegoutProcessor.save_processor_state _ e := (Ok tt, e);
  PegoutProcessor.load_flows e := (Ok tt, e);
  PegoutProcessor.load_processor_state e := (Ok tt, e)
|}.
#[export] Instance take_processor_services : TakeProcessorServices (E := E) := {|
  TakeProcessor.im_member c e := CoordinatorStore.im_member c e.1;
  TakeProcessor.utc_now _ := 0;
  TakeProcessor.delete_flow _ e := (Ok tt, e);
  TakeProcessor.save_processor_state _ e := (Ok tt, e);
  TakeProcessor.load_flows e := (Ok tt, e);
  TakeProcessor.load_processor_state e := (Ok tt, e)
|}.

Definition tick (e : E) : Z * E := (e.2.2, (e.1, (e.2.1, e.2.2 + 10 ^ 9))).

#[export] Instance funding_services : FundingServices E := {|
  instant_now := tick;
  send_get_funding_address _ e := (Ok tt, e)
|}.
#[export] Instance coordinator_services : CoordinatorServices E := {|
  now_instant := tick;
  is_shutdown e := (false, e);
  user_send _ e := (Ok true, e);
  bitvmx_ping e := (Ok true, e);
  store_context e := (Ok tt, e);
  load_context e := (Ok tt, e)
|}.
#[export] Instance monitor : MonitorApi unit E := {|
  api_start_event_monitoring w := (Ok tt, w);
  api_start_block_monitoring w := (Ok tt, w);
  api_start_bitvmx_monitoring w := (Ok tt, w);
  api_start_user_monitoring w := (Ok tt, w);
  api_try_user_request w :=
    match w.2.2.1 with
    | [] => (Ok None, w)
    | r :: l => (match r with Ok o => Ok o | Err y => Err (from_broker y) end, (w.1, (w.2.1, (l, w.2.2.2))))
    end;
  api_try_rsk_event w := (Ok None, w);
  api_try_block w := (Ok None, w);
  api_try_bitvmx_event w := (Ok None, w);
  api_cancel_bitvmx_monitoring w := (Ok tt, w)
|}.

Definition cfg : LoopConfig := mkLoopConfig (2 * 10 ^ 9) (10 ^ 9).
Definition fc : FlowsConfig := mkFlowsConfig Regtest "regtest" 2 6 1 7200 "drp.yaml" 2.
Definition world (l : list (result BrokerError (option UserRequests))) : E := (new_context, (l, 10 ^ 12)).

Definition requests : list (result BrokerError (option UserRequests)) :=
  [Ok (Some (ApplyToStreamRequest (mkApplyToStream 1 Prover 100 200 300)));
   Err (BrokerServerError Disconnected); Ok (Some (FundingInfo [7])); Err (SerializationError "not a request")].

Definition begin : Coordinator unit E := snd (new tt (empty_processors fc (world requests)) (world requests)).

End Sample.

Section Witnesses.
Import Sample.

(** Two rounds, then the process is stopped and started again: the second process has
    given nothing yet. *)
Definition first_life : result Fault unit * Coordinator (unit * list Message) E :=
  life cfg 3 tt (empty_processors fc (world requests)) (world requests).
Definition second_life : result Fault unit * Coordinator (unit * list Message) E :=
  life cfg 1 tt (c_processors (snd first_life)) (world []).
Definition log : list (bool * list (option Message)) :=
  [(dead (fst first_life), life_events cfg 3 tt (empty_processors fc (world requests)) (world requests));
   (dead (fst second_life), life_events cfg 1 tt (c_processors (snd first_life)) (world []))].

(** The committee processor has taken a start, two requests, and a second start over its
    store. *)
Lemma coordinator_drives_processors_witness :
  (fun s => (s.1, length s.2)) <$> log = [(false, 3%nat); (false, 1%nat)] /\
  exists pegin pegout take setup funding b l,
    c_processors (snd second_life) = [existT (pegin_processor fc) pegin; existT (pegout_processor fc) pegout;
      existT (take_processor fc) take; existT (setup_processor fc) setup; existT (funding_processor fc) funding] /\
    setup_reach fc b l setup /\ heard log l /\ (alive log -> b = false).
Proof.
  split; [vm_compute; reflexivity|].
  pose proof (op_life cfg _ _ _ 1 tt (world []) (op_life cfg _ _ _ 3 tt (world requests)
    (op_first cfg (empty_processors fc (world requests)) tt (mkShared [] (world requests)) 0))) as Hop.
  destruct (coordinator_drives_processors fc cfg (world requests) log (snd second_life)) as
    (p1 & p2 & p3 & p4 & p5 & Hp & _ & _ & _ & (b & l & Hr & Hl & Hb) & _).
  - intros w block w' Hw. discriminate Hw.
  - exact Hop.
  - exists p1, p2, p3, p4, p5, b, l. split; [exact Hp|]. split; [exact Hr|]. split; [exact Hl|exact Hb].
Defined.

(** The broken connection of the second round does not stop the loop, the message of
    the fourth that cannot be read does. *)
Lemma loop_outlives_transport_errors_witness :
  fst (run_loop cfg 5 begin) =
    Err (FaultChain [FaultMsg "Error getting User request"; FaultBroker (SerializationError "not a request")]) /\
  Forall (fun x => ~ broken x) [FaultMsg "Error getting User request"; FaultBroker (SerializationError "not a request")].
Proof.
  assert (Hr : fst (run_loop cfg 5 begin) =
    Err (FaultChain [FaultMsg "Error getting User request"; FaultBroker (SerializationError "not a request")]))
    by (vm_compute; reflexivity).
  assert (Hstore : forall (e : E) causes e', store_context e = (Err (FaultChain causes), e') ->
    Forall (fun x => ~ broken x) causes) by (intros e causes e' He; unfold store_context, coordinator_services in He; discriminate He).
  split; [exact Hr|]. destruct (run_loop cfg 5 begin) as [r c'] eqn:Hrun. cbn in Hr. rewrite Hr in Hrun.
  exact (proj1 (loop_outlives_transport_errors cfg Hstore) 5%nat begin c' _ Hrun).
Defined.

(** BitVMX stays silent: a ping is sent, and times out. *)
Lemma bitvmx_lost_for_a_reason_witness :
  c_contact (snd (run cfg 3 begin)) = [Pinged 1002000000000; Lost 1006000000000; Pinged 1008000000000] /\
  contact_ok cfg (c_contact (snd (run cfg 3 begin))).
Proof.
  split; [vm_compute; reflexivity|].
  assert (Hnew : fst (new tt (empty_processors fc (world requests)) (world requests)) = Ok tt) by (vm_compute; reflexivity).
  apply (bitvmx_lost_for_a_reason cfg 3 tt (empty_processors fc (world requests)) (world requests)).
  unfold begin. rewrite <- Hnew. apply surjective_pairing.
Defined.

End Witnesses.
