(* ===== verification/WalletStore.v ===== *)
(** * The databases of the Bitcoin wallet (cli/bitcoin-wallet/src/utxo_store.rs, pending_tx_store.rs)

    One key-value database holds the outputs that the wallet may spend, one record
    for each, and another the transactions that it has sent and that are not
    confirmed.  The database, JSON and the parsers of rust-bitcoin are parameters;
    the keys, the records and the conversions are the code's. *)

From Stdlib Require Import Ascii.
From stdpp Require Import prelude gmap strings pretty.
From S2P Require Import Prelude Types Flow CoordinatorStore.
Open Scope Z_scope.

(** ** Texts *)

(** [str::parse] for an unsigned integer of [w] bits *)
Definition digit_val (c : ascii) : option Z :=
  let n := Z.of_N (N_of_ascii c) in if (48 <=? n) && (n <=? 57) then Some (n - 48) else None.

Fixpoint parse_digits (w acc : Z) (s : string) : option Z :=
  match s with
  | EmptyString => Some acc
  | String c s =>
      match digit_val c with
      | None => None
      | Some d => if acc * 10 + d <? 2 ^ w then parse_digits w (acc * 10 + d) s else None
      end
  end.

Definition parse_uint (w : Z) (s : string) : option Z :=
  match s with
  | EmptyString => None
  | String c s' =>
      if decide (c = "+"%char) then match s' with EmptyString => None | _ => parse_digits w 0 s' end
      else parse_digits w 0 s
  end.

(** [str::split] at a character: the part before the first one, and the others *)
Fixpoint split_first (c : ascii) (s : string) : string * list string :=
  match s with
  | EmptyString => (EmptyString, [])
  | String a s =>
      let '(p, l) := split_first c s in
      if decide (a = c) then (EmptyString, p :: l) else (String a p, l)
  end.
Definition split_on (c : ascii) (s : string) : list string := let '(p, l) := split_first c s in p :: l.

(** [str::rsplitn] with 2: what comes before the last character, and after it *)
Fixpoint rsplit_once (c : ascii) (s : string) : option (string * string) :=
  match s with
  | EmptyString => None
  | String a s =>
      match rsplit_once c s with
      | Some (before, after) => Some (String a before, after)
      | None => if decide (a = c) then Some (EmptyString, s) else None
      end
  end.

Fixpoint lacks (c : ascii) (s : string) : bool :=
  match s with EmptyString => true | String a s => negb (bool_decide (a = c)) && lacks c s end.

(** *** They read back what was printed *)

Lemma digit_val_char (x : N) : (x < 10)%N -> digit_val (pretty_N_char x) = Some (Z.of_N x).
Proof.
  intros Hx. assert (x = 0 \/ x = 1 \/ x = 2 \/ x = 3 \/ x = 4 \/ x = 5 \/ x = 6 \/ x = 7 \/ x = 8 \/ x = 9)%N by lia.
  destruct_or!; by subst.
Qed.

Lemma parse_digits_go w (x : N) s :
  Z.of_N x < 2 ^ w -> parse_digits w 0 (pretty_N_go x s) = parse_digits w (Z.of_N x) s.
Proof.
  revert s. induction (N.lt_wf_0 x) as [x _ IH]; intros s Hx.
  destruct (decide (x = 0)%N) as [->|Hne]; [done|]. rewrite pretty_N_go_step by lia.
  pose proof (N.div_mod x 10 ltac:(done)) as Hdm. pose proof (N.mod_lt x 10 ltac:(done)) as Hm.
  assert (Hlt : (x `div` 10 < x)%N) by (apply N.div_lt; lia).
  rewrite IH by (done || (eapply Z.lt_trans; [|exact Hx]; lia)). cbn [parse_digits]. rewrite digit_val_char by done.
  assert (Hv : Z.of_N (x `div` 10) * 10 + Z.of_N (x `mod` 10) = Z.of_N x) by lia. rewrite Hv.
  by rewrite (proj2 (Z.ltb_lt _ _) Hx).
Qed.

Lemma pretty_N_go_head (x : N) s :
  (0 < x)%N -> exists d s', (d < 10)%N /\ pretty_N_go x s = String (pretty_N_char d) s'.
Proof.
  revert s. induction (N.lt_wf_0 x) as [x _ IH]; intros s Hx. rewrite pretty_N_go_step by lia.
  pose proof (N.mod_lt x 10 ltac:(done)) as Hm.
  destruct (decide (x `div` 10 = 0)%N) as [->|Hne]; [by eexists _, _|].
  apply IH; [apply N.div_lt; lia|by apply N.neq_0_lt_0].
Qed.

Lemma pretty_N_char_not_plus d : (d < 10)%N -> pretty_N_char d <> "+"%char.
Proof. intros Hd Heq. pose proof (digit_val_char d Hd) as Hv. rewrite Heq in Hv. discriminate Hv. Qed.

Lemma parse_uint_pretty w (n : N) : Z.of_N n < 2 ^ w -> parse_uint w (pretty n) = Some (Z.of_N n).
Proof.
  intros Hn. unfold pretty, pretty_N. case_decide as H0.
  - subst. change (parse_uint w "0") with (if 0 <? 2 ^ w then Some 0 else None).
    by rewrite (proj2 (Z.ltb_lt 0 (2 ^ w)) Hn).
  - destruct (pretty_N_go_head n "" ltac:(lia)) as (d & s' & Hd & Hgo). pose proof (parse_digits_go w n "" Hn) as Hp.
    rewrite Hgo in Hp |- *. unfold parse_uint. by rewrite decide_False by (by apply pretty_N_char_not_plus).
Qed.

Lemma split_first_lacks c s : lacks c s = true -> split_first c s = (s, []).
Proof.
  induction s as [|a s IH]; [done|]. cbn. intros [Ha Hs]%andb_true_iff. rewrite IH by done.
  rewrite negb_true_iff, bool_decide_eq_false in Ha. by rewrite decide_False.
Qed.

Lemma split_on_app c s s' : lacks c s = true -> split_on c (s +:+ String c s') = s :: split_on c s'.
Proof.
  intros Hs. unfold split_on. assert (H1 : split_first c (s +:+ String c s') = (s, let '(p, l) := split_first c s' in p :: l)).
  { induction s as [|a s IH]; cbn [lacks] in Hs.
    - change ("" +:+ String c s') with (String c s'). cbn [split_first]. destruct (split_first c s'). by rewrite decide_True.
    - apply andb_true_iff in Hs as [Ha Hs]. rewrite negb_true_iff, bool_decide_eq_false in Ha.
      change (String a s +:+ String c s') with (String a (s +:+ String c s')). cbn [split_first]. rewrite IH by done.
      by rewrite decide_False. }
  rewrite H1. by destruct (split_first c s').
Qed.

Lemma rsplit_once_app c s s' : lacks c s' = true -> rsplit_once c (s +:+ String c s') = Some (s, s').
Proof.
  intros Hs. assert (H1 : rsplit_once c s' = None).
  { induction s' as [|a s' IH]; [done|]. cbn [lacks rsplit_once] in *. apply andb_true_iff in Hs as [Ha Hs]. rewrite IH by done.
    rewrite negb_true_iff, bool_decide_eq_false in Ha. by rewrite decide_False. }
  induction s as [|a s IH]; [change ("" +:+ String c s') with (String c s'); cbn [rsplit_once]; by rewrite H1, decide_True|].
  change (String a s +:+ String c s') with (String a (s +:+ String c s')). cbn [rsplit_once]. by rewrite IH.
Qed.

Lemma lacks_app c s s' : lacks c (s +:+ s') = lacks c s && lacks c s'.
Proof.
  induction s as [|a s IH]; [done|]. change (String a s +:+ s') with (String a (s +:+ s')). cbn [lacks].
  by rewrite IH, andb_assoc.
Qed.

(** A character that is neither a digit nor a letter *)
Lemma lacks_hex c l : hex_val c = None -> bytes_ok l -> lacks c (hex_encode l) = true.
Proof.
  intros Hc. induction l as [|b l IH]; intros Hl; [done|]. apply Forall_cons in Hl as [Hb Hl]. cbn [hex_encode lacks].
  unfold byte_ok in Hb. pose proof (Z.div_mod b 16). pose proof (Z.mod_pos_bound b 16).
  assert (Hd : forall d, 0 <= d < 16 -> bool_decide (hex_digit d = c) = false).
  { intros d Hd. rewrite bool_decide_eq_false. intros <-. pose proof (hex_val_digit d Hd) as Hv. congruence. }
  rewrite !Hd, IH by (done || lia). done.
Qed.

Lemma lacks_pretty c (n : N) : digit_val c = None -> lacks c (pretty n) = true.
Proof.
  intros Hc. assert (Hd : forall d, (d < 10)%N -> bool_decide (pretty_N_char d = c) = false).
  { intros d Hd. rewrite bool_decide_eq_false. intros <-. rewrite digit_val_char in Hc by done. discriminate Hc. }
  assert (Hgo : forall x s, lacks c s = true -> lacks c (pretty_N_go x s) = true).
  { intros x. induction (N.lt_wf_0 x) as [x _ IH]; intros s Hs. destruct (decide (x = 0)%N) as [->|Hne]; [done|].
    rewrite pretty_N_go_step by lia. apply IH; [apply N.div_lt; lia|]. cbn [lacks].
    by rewrite Hd by (apply N.mod_lt; done). }
  unfold pretty, pretty_N. case_decide; [|by apply Hgo].
  transitivity (negb (bool_decide (pretty_N_char 0 = c)) && true); [reflexivity|by rewrite Hd].
Qed.

(** ** Bitcoin data *)

Record OutPoint := mkOutPoint { txid : bytes; vout : Z }.

#[export] Instance OutPoint_eq_dec : EqDecision OutPoint.
Proof. solve_decision. Defined.
#[export] Instance OutPoint_countable : Countable OutPoint.
Proof. by apply (inj_countable' (fun o => (txid o, vout o)) (fun '(t, v) => mkOutPoint t v)); intros []. Defined.

Definition txid_ok (t : bytes) : Prop := length t = 32%nat /\ bytes_ok t.
Definition outpoint_ok (o : OutPoint) : Prop := txid_ok (txid o) /\ uint 32 (vout o).

#[export] Instance txid_ok_dec t : Decision (txid_ok t).
Proof. unfold txid_ok. apply _. Defined.
#[export] Instance outpoint_ok_dec o : Decision (outpoint_ok o).
Proof. unfold outpoint_ok. apply _. Defined.

Record TxIn := mkTxIn { previous_output : OutPoint; script_sig : bytes; sequence : Z; witness : list bytes }.
Record TxOut := mkTxOut { out_value : Z; script_pubkey : bytes }.
Record Transaction := mkTransaction { tx_version : Z; lock_time : Z; input : list TxIn; output : list TxOut }.

Record Utxo := mkUtxo { outpoint : OutPoint; value_sat : Z }.

#[export] Instance TxIn_eq_dec : EqDecision TxIn.
Proof. solve_decision. Defined.
#[export] Instance TxOut_eq_dec : EqDecision TxOut.
Proof. solve_decision. Defined.
#[export] Instance Transaction_eq_dec : EqDecision Transaction.
Proof. solve_decision. Defined.
#[export] Instance Utxo_eq_dec : EqDecision Utxo.
Proof. solve_decision. Defined.

(** [Txid::from_str]; addresses of a network, checked and not yet checked *)
Class BitcoinText := {
  parse_txid : string -> option bytes;
  BtcAddress : Type;
  UncheckedAddress : Type;
  address_to_string : BtcAddress -> string;
  address_from_str : string -> option UncheckedAddress;
  require_network : Network -> UncheckedAddress -> option BtcAddress;
  (** [serialize_hex], [Vec::from_hex] and [deserialize] *)
  serialize_hex : Transaction -> string;
  bytes_from_hex : string -> option bytes;
  deserialize : bytes -> option Transaction
}.

(** What is printed is read back. *)
Class BitcoinTextLaws `{BitcoinText} := {
  address_on : Network -> BtcAddress -> Prop;
  parse_txid_display t : txid_ok t -> parse_txid (txid_to_string t) = Some t;
  address_read n a : address_on n a -> address_from_str (address_to_string a) ≫= require_network n = Some a;
  transaction_read tx : bytes_from_hex (serialize_hex tx) ≫= deserialize = Some tx
}.

(** A transaction that the wallet has made, with what to record once it is sent *)
Record CreatedTransaction `{BitcoinText} := mkCreated {
  transaction : Transaction;
  change : option Utxo;
  fee_sat : Z;
  spent_indices : list nat;
  spent_utxos : list Utxo;
  change_value : Z;
  change_address : BtcAddress
}.
Arguments mkCreated {_}. Arguments transaction {_}. Arguments change {_}. Arguments fee_sat {_}. Arguments spent_indices {_}.
Arguments spent_utxos {_}. Arguments change_value {_}. Arguments change_address {_}.

(** ** Storage *)

(** [map_err] with a message of its own *)
Definition map_err {S A} (msg : string) (m : SR S failure A) : SR S failure A :=
  fun s => match m s with
           | (Err (Anyhow _), s') => (Err (Anyhow [msg]), s')
           | r => r
           end.

Class KeyScan (D : Type) := { partial_compare_keys : string -> SR D failure (list string) }.
Class KeyScanLaws (D : Type) `{DatabaseLaws D, !KeyScan D} := {
  partial_compare_keys_spec p d : contents (snd (partial_compare_keys p d)) = contents d /\
    forall l, fst (partial_compare_keys p d) = Ok l ->
      l ≡ₚ filter (fun k => starts_with p k = true) (map_to_list (contents d)).*1
}.

(** [SystemTime::now] since the epoch *)
Class WallClock (D : Type) := { unix_secs : D -> option Z }.

Inductive UtxoState := Available | SpentUnconfirmed.

#[export] Instance UtxoState_eq_dec : EqDecision UtxoState.
Proof. solve_decision. Defined.

Record StoredUtxo := mkStoredUtxo { s_value : Z; s_timestamp : Z; s_address : option string; s_state : UtxoState }.

Definition set_state (st : UtxoState) (s : StoredUtxo) : StoredUtxo :=
  mkStoredUtxo (s_value s) (s_timestamp s) (s_address s) st.

(** ** The store of outputs *)

Definition UTXO_PREFIX : string := "utxo/".

Definition utxo_key (o : OutPoint) : string :=
  UTXO_PREFIX +:+ txid_to_string (txid o) +:+ ":" +:+ pretty (Z.to_N (vout o)).

Section UtxoStore.
Context `{BitcoinText} {D : Type} `{!Database D, !KeyScan D, !WallClock D, !Json StoredUtxo}.

Definition key_to_outpoint (key : string) : result failure OutPoint :=
  match split_on "/" key with
  | [prefix; suffix] =>
      if negb (bool_decide (prefix = "utxo")) then Err (Anyhow ["invalid UTXO key: wrong prefix"]) else
      match rsplit_once ":" suffix with
      | None => Err (Anyhow ["missing txid in key"])
      | Some (txid_str, vout_str) =>
          txid ← ok_or (parse_txid txid_str) (Anyhow ["invalid txid in key"]);
          vout ← ok_or (parse_uint 32 vout_str) (Anyhow ["invalid vout in key"]);
          mret (mkOutPoint txid vout)
      end
  | _ => Err (Anyhow ["invalid UTXO key: wrong prefix"])
  end.

Definition current_timestamp (d : D) : Z := default 0 (unix_secs d).

Definition insert_with_timestamp (o : OutPoint) (value timestamp : Z) (address : string) : SR D failure unit :=
  map_err "failed to write utxo" (set (utxo_key o) (mkStoredUtxo value timestamp (Some address) Available)).

Definition insert (o : OutPoint) (value : Z) (address : string) : SR D failure unit :=
  d ← sget; insert_with_timestamp o value (current_timestamp d) address.

(** [mark_spent_unconfirmed] and [mark_available] *)
Definition mark (st : UtxoState) (o : OutPoint) : SR D failure unit :=
  stored ← map_err "failed to read utxo" (get (T := StoredUtxo) (utxo_key o));
  match stored with
  | None => bail "utxo not found"
  | Some s => map_err "failed to update utxo state" (set (utxo_key o) (set_state st s))
  end.

Definition remove (o : OutPoint) : SR D failure unit := map_err "failed to delete utxo" (db_delete (utxo_key o)).

Fixpoint read_utxos (predicate : StoredUtxo -> bool) (l : list (string * string)) : SR D failure (list (OutPoint * StoredUtxo)) :=
  match l with
  | [] => mret []
  | (key, value) :: l =>
      match from_json value with
      | None => bail "failed to deserialize utxo"
      | Some stored =>
          if predicate stored then
            o ← slift (key_to_outpoint key);
            rest ← read_utxos predicate l;
            mret ((o, stored) :: rest)
          else read_utxos predicate l
      end
  end.

Definition iter_utxos (predicate : StoredUtxo -> bool) : SR D failure (list (OutPoint * StoredUtxo)) :=
  l ← map_err "failed to iterate utxos" (partial_compare UTXO_PREFIX);
  read_utxos predicate l.

Definition load_all : SR D failure (list (OutPoint * StoredUtxo)) := iter_utxos (fun _ => true).

Definition load_by_address (address : string) : SR D failure (list (OutPoint * StoredUtxo)) :=
  iter_utxos (fun s => bool_decide (s_address s = Some address)).

Definition contains (o : OutPoint) : SR D failure bool :=
  exists_ ← map_err "failed to read utxo" (get (T := StoredUtxo) (utxo_key o));
  mret (bool_decide (is_Some exists_)).

Fixpoint delete_keys (msg : string) (l : list string) : SR D failure unit :=
  match l with
  | [] => mret tt
  | key :: l => _ ← map_err msg (db_delete key); delete_keys msg l
  end.

Definition clear : SR D failure unit :=
  l ← map_err "failed to iterate utxos" (partial_compare_keys UTXO_PREFIX);
  delete_keys "failed to delete utxo" l.

End UtxoStore.

(** *** Keys are read back *)

Section Keys.
Context `{BitcoinTextLaws}.

Lemma txid_to_string_lacks c t : hex_val c = None -> txid_ok t -> lacks c (txid_to_string t) = true.
Proof. intros Hc [_ Ht]. apply lacks_hex; [done|]. by apply Forall_reverse. Qed.

Lemma utxo_key_eq o : utxo_key o = "utxo" +:+ String "/" (txid_to_string (txid o) +:+ String ":" (pretty (Z.to_N (vout o)))).
Proof. reflexivity. Qed.

Lemma key_to_outpoint_key o : outpoint_ok o -> key_to_outpoint (utxo_key o) = Ok o.
Proof.
  intros [Ht Hv]. rewrite utxo_key_eq. unfold key_to_outpoint.
  assert (Hs : lacks "/" (txid_to_string (txid o) +:+ String ":" (pretty (Z.to_N (vout o)))) = true).
  { rewrite lacks_app, txid_to_string_lacks by done. cbn [lacks].
    rewrite lacks_pretty by done. reflexivity. }
  rewrite split_on_app by done. unfold split_on. rewrite split_first_lacks by done.
  rewrite bool_decide_eq_true_2 by done. cbn [negb].
  rewrite rsplit_once_app by (by apply lacks_pretty). rewrite parse_txid_display by done. cbn [ok_or mbind result_bind].
  unfold uint in Hv. rewrite parse_uint_pretty by lia. cbn. rewrite Z2N.id by lia. by destruct o.
Qed.

Lemma utxo_key_inj o o' : outpoint_ok o -> outpoint_ok o' -> utxo_key o = utxo_key o' -> o = o'.
Proof.
  intros Ho Ho' Heq. pose proof (key_to_outpoint_key o Ho) as Hk. rewrite Heq, key_to_outpoint_key in Hk by done. congruence.
Qed.

Lemma utxo_key_prefix o : starts_with UTXO_PREFIX (utxo_key o) = true.
Proof. unfold starts_with, utxo_key. rewrite strip_prefix_append. by apply bool_decide_eq_true. Qed.

End Keys.

(** ** What the wallet relies on *)

Class UtxoStoreApi (U : Type) := {
  us_insert : OutPoint -> Z -> string -> SR U failure unit;
  us_mark : UtxoState -> OutPoint -> SR U failure unit;
  us_remove : OutPoint -> SR U failure unit;
  us_load_all : SR U failure (list (OutPoint * StoredUtxo));
  us_load_by_address : string -> SR U failure (list (OutPoint * StoredUtxo));
  us_contains : OutPoint -> SR U failure bool;
  us_clear : SR U failure unit
}.

(** The store is a map from outputs to records.  An operation that fails changes
    nothing, but a failed [us_clear] may have removed some records. *)
Class UtxoStoreLaws (U : Type) `{UtxoStoreApi U} := {
  holds : U -> gmap OutPoint StoredUtxo -> Prop;
  us_insert_law u m o v a r u' :
    holds u m -> outpoint_ok o -> us_insert o v a u = (r, u') ->
    if is_ok r then exists ts, holds u' (<[o := mkStoredUtxo v ts (Some a) Available]> m) else holds u' m;
  us_mark_law u m st o r u' :
    holds u m -> outpoint_ok o -> us_mark st o u = (r, u') ->
    if is_ok r then exists s, m !! o = Some s /\ holds u' (<[o := set_state st s]> m) else holds u' m;
  us_remove_law u m o r u' :
    holds u m -> outpoint_ok o -> us_remove o u = (r, u') -> if is_ok r then holds u' (delete o m) else holds u' m;
  us_load_all_law u m r u' :
    holds u m -> us_load_all u = (r, u') -> holds u' m /\ forall l, r = Ok l -> l ≡ₚ map_to_list m;
  us_load_by_address_law u m a r u' :
    holds u m -> us_load_by_address a u = (r, u') ->
    holds u' m /\ forall l, r = Ok l -> l ≡ₚ filter (fun kv => s_address kv.2 = Some a) (map_to_list m);
  us_contains_law u m o r u' :
    holds u m -> outpoint_ok o -> us_contains o u = (r, u') ->
    holds u' m /\ forall b, r = Ok b -> b = bool_decide (is_Some (m !! o));
  us_clear_law u m r u' :
    holds u m -> us_clear u = (r, u') -> if is_ok r then holds u' ∅ else exists m', m' ⊆ m /\ holds u' m'
}.

#[export] Instance utxo_store `{BitcoinText, !Database D, !KeyScan D, !WallClock D, !Json StoredUtxo} : UtxoStoreApi D := {|
  us_insert := insert;
  us_mark := mark;
  us_remove := remove;
  us_load_all := load_all;
  us_load_by_address := load_by_address;
  us_contains := contains;
  us_clear := clear
|}.

(** *** Records under keys with a prefix *)

Section Keyed.
Context {D : Type} `{!Database D, !DatabaseLaws D, !KeyScan D, !KeyScanLaws D} `{Countable K} {V : Type} `{!Json V}.
Context (prefix : string) (key : K -> string) (key_fits : K -> Prop).
Hypothesis key_inj : forall k k', key_fits k -> key_fits k' -> key k = key k' -> k = k'.
Hypothesis key_prefix : forall k, starts_with prefix (key k) = true.

(** The records of the database with the prefix are those of [m]. *)
Definition keyed (d : D) (m : gmap K V) : Prop :=
  (forall k, key_fits k -> contents d !! key k = to_json <$> m !! k) /\
  (forall k, is_Some (m !! k) -> key_fits k) /\
  (forall raw, is_Some (contents d !! raw) -> starts_with prefix raw = true -> exists k, key_fits k /\ raw = key k).

Lemma keyed_same d d' m : contents d' = contents d -> keyed d m -> keyed d' m.
Proof. unfold keyed. by intros ->. Qed.

Lemma keyed_alter d d' m k f g :
  keyed d m -> key_fits k -> contents d' = partial_alter f (key k) (contents d) ->
  to_json <$> g (m !! k) = f (to_json <$> m !! k) -> keyed d' (partial_alter g k m).
Proof.
  intros (Hget & Hfit & Hraw) Hk Hd Hg. split_and!.
  - intros k' Hk'. rewrite Hd. destruct (decide (k = k')) as [<-|Hne].
    + by rewrite !lookup_partial_alter_eq, Hg, Hget.
    + rewrite !lookup_partial_alter_ne; [by apply Hget|done|]. intros Heq. by apply Hne, key_inj.
  - intros k' Hk'. destruct (decide (k = k')) as [<-|Hne]; [done|]. rewrite lookup_partial_alter_ne in Hk' by done. auto.
  - intros raw Hr Hs. destruct (decide (raw = key k)) as [->|Hne]; [eauto|].
    rewrite Hd, lookup_partial_alter_ne in Hr by done. auto.
Qed.

Lemma get_same (k : string) (d : D) : contents (snd (get (T := V) k d)) = contents d.
Proof.
  unfold get, mbind, SR_bind. destruct (db_get_spec k d) as [Hc _]. destruct (db_get k d) as [[[t|]|f] d']; cbn in *; [|done..].
  by destruct (from_json t).
Qed.

Lemma keyed_get d m k :
  keyed d m -> key_fits k ->
  let '(r, d') := get (T := V) (key k) d in keyed d' m /\ match r with Ok v => v = m !! k | Err _ => True end.
Proof.
  intros Hd Hk. pose proof (get_same (key k) d) as Hc. pose proof (get_ok (m !! k) d (key k) (proj1 Hd k Hk)) as Hg.
  destruct (get (key k) d) as [r d'] eqn:Hget. split; [by eapply keyed_same|]. destruct r as [v|e]; [|done].
  assert (Hok : is_ok (fst (db_get (key k) d)) = true).
  { unfold get, mbind, SR_bind in Hget. by destruct (db_get (key k) d) as [[]]. }
  specialize (Hg Hok). cbn in Hg. congruence.
Qed.

(** With the errors that the stores put in place of those of the database *)
Lemma keyed_get_err msg d m k :
  keyed d m -> key_fits k ->
  let '(r, d') := map_err msg (get (T := V) (key k)) d in keyed d' m /\ match r with Ok v => v = m !! k | Err _ => True end.
Proof.
  intros Hd Hk. pose proof (keyed_get d m k Hd Hk) as Hg. unfold map_err. by destruct (get (key k) d) as [[v|[]] d'].
Qed.

Lemma keyed_set_err msg d m k v :
  keyed d m -> key_fits k ->
  let '(r, d') := map_err msg (set (key k) v) d in if is_ok r then keyed d' (<[k := v]> m) else keyed d' m.
Proof.
  intros Hd Hk. pose proof (db_set_spec (key k) (to_json v) d) as Hs. unfold map_err, set.
  destruct (db_set _ _ d) as [[u|[]] d']; cbn in *; [|by eapply keyed_same..].
  by apply (keyed_alter d d' m k (fun _ => Some (to_json v)) (fun _ => Some v)).
Qed.

Lemma keyed_delete_err msg d m k :
  keyed d m -> key_fits k ->
  let '(r, d') := map_err msg (db_delete (key k)) d in if is_ok r then keyed d' (delete k m) else keyed d' m.
Proof.
  intros Hd Hk. pose proof (db_delete_spec (key k) d) as Hs. unfold map_err.
  destruct (db_delete _ d) as [[u|[]] d']; cbn in *; [|by eapply keyed_same..].
  by apply (keyed_alter d d' m k (fun _ => None) (fun _ => None)).
Qed.

Definition key_entry (x : K * V) : string * string := (key x.1, to_json x.2).

Lemma keyed_entries d m :
  keyed d m ->
  filter (fun kv => starts_with prefix kv.1 = true) (map_to_list (contents d)) ≡ₚ key_entry <$> map_to_list m.
Proof.
  intros (Hget & Hfit & Hraw). apply NoDup_Permutation.
  - apply NoDup_filter, NoDup_map_to_list.
  - apply NoDup_fmap_2_strong; [|apply NoDup_map_to_list].
    intros [k v] [k' v'] Hin Hin' Heq. apply elem_of_map_to_list in Hin, Hin'. apply (f_equal fst) in Heq.
    assert (k = k') as ->; [|congruence]. apply key_inj; eauto.
  - intros [raw v]. rewrite list_elem_of_filter, elem_of_map_to_list, list_elem_of_fmap. cbn [fst]. split.
    + intros [Hs Hr]. destruct (Hraw raw) as (k & Hk & ->); [eauto|done|]. rewrite Hget in Hr by done.
      apply fmap_Some in Hr as (x & Hm & ->). exists (k, x). split; [done|]. by apply elem_of_map_to_list.
    + intros ([k x] & Heq & Hin). apply elem_of_map_to_list in Hin. injection Heq as -> ->. cbn [fst snd].
      split; [apply key_prefix|]. rewrite Hget, Hin by eauto. done.
Qed.

(** Reading all records *)
Lemma keyed_scan msg d m :
  keyed d m ->
  let '(r, d') := map_err msg (partial_compare prefix) d in
  keyed d' m /\
  match r with
  | Ok l => exists es, l = key_entry <$> es /\ es ≡ₚ map_to_list m /\ Forall (fun x => key_fits x.1) es
  | Err _ => True
  end.
Proof.
  intros Hd. destruct (partial_compare_spec prefix d) as [Hc Hs]. unfold map_err.
  assert (Hd' : keyed (snd (partial_compare prefix d)) m) by (by eapply keyed_same).
  destruct (partial_compare prefix d) as [[l|[]] d']; cbn in *; [|done..]. split; [done|].
  specialize (Hs l eq_refl). rewrite (keyed_entries d m Hd) in Hs. apply Permutation_map_inv in Hs as (es & -> & Hes).
  exists es. split_and!; [done|done|]. rewrite Forall_forall. intros [k v] Hin. rewrite <- Hes in Hin.
  apply elem_of_map_to_list in Hin. apply Hd. eauto.
Qed.

Lemma delete_keys_ok msg l d m r d' :
  keyed d m -> (forall raw, raw ∈ l -> exists k, key_fits k /\ raw = key k) -> delete_keys msg l d = (r, d') ->
  exists m', m' ⊆ m /\ keyed d' m' /\ (is_ok r = true -> forall k, key k ∈ l -> key_fits k -> m' !! k = None).
Proof.
  revert d m. induction l as [|raw l IH]; intros d m Hd Hl; cbn [delete_keys].
  - intros [= <- <-]. exists m. split_and!; [done|done|]. by intros _ k Hk%not_elem_of_nil.
  - destruct (Hl raw ltac:(set_solver)) as (k & Hk & ->). unfold mbind, SR_bind.
    pose proof (keyed_delete_err msg d m k Hd Hk) as Hdel. destruct (map_err _ _ d) as [[[]|e] d1]; cbn [is_ok] in Hdel.
    + intros Hrun. apply (IH _ (delete k m)) in Hrun as (m' & Hsub & Hd' & Hgone); [|done|set_solver].
      exists m'. split_and!; [etrans; [exact Hsub|apply delete_subseteq]|done|].
      intros Hr k' Hin Hk'. apply elem_of_cons in Hin as [Heq|Hin]; [|by apply Hgone].
      apply key_inj in Heq; [|done..]. subst k'. eapply lookup_weaken_None; [|exact Hsub]. apply lookup_delete_eq.
    + intros [= <- <-]. by exists m.
Qed.

(** Deleting all of them *)
Lemma keyed_clear msg msg' d m r d' :
  keyed d m -> (l ← map_err msg (partial_compare_keys prefix); delete_keys msg' l) d = (r, d') ->
  if is_ok r then keyed d' ∅ else exists m', m' ⊆ m /\ keyed d' m'.
Proof.
  intros Hd. destruct (partial_compare_keys_spec prefix d) as [Hc Hs]. unfold mbind, SR_bind, map_err.
  assert (Hd1 : keyed (snd (partial_compare_keys prefix d)) m) by (by eapply keyed_same).
  destruct (partial_compare_keys prefix d) as [[l|[]] d1]; cbn in *; [|intros [= <- <-]; by exists m..].
  specialize (Hs l eq_refl). intros Hrun.
  assert (Hl : forall raw, raw ∈ l <-> exists k, is_Some (m !! k) /\ raw = key k).
  { intros raw. rewrite Hs, list_elem_of_filter, list_elem_of_fmap. destruct Hd as (Hget & Hfit & Hraw). split.
    - intros (Hp & [raw' v] & -> & Hin). apply elem_of_map_to_list in Hin. cbn [fst] in *.
      destruct (Hraw raw') as (k & Hk & ->); [eauto|done|]. rewrite Hget in Hin by done.
      apply fmap_Some in Hin as (x & Hm & _). eauto.
    - intros (k & [x Hk] & ->). split; [apply key_prefix|]. exists (key k, to_json x). split; [done|].
      apply elem_of_map_to_list. rewrite Hget, Hk by eauto. done. }
  apply (delete_keys_ok _ _ _ m) in Hrun as (m' & Hsub & Hd' & Hgone); [|done|].
  - destruct (is_ok r); [|eauto]. assert (m' = ∅) as ->; [|done]. apply map_empty. intros k.
    destruct (m' !! k) as [x|] eqn:Hm'; [|done]. assert (Hm : m !! k = Some x) by (by eapply lookup_weaken).
    rewrite <- Hm'. apply Hgone; [done|apply Hl; eauto|apply Hd; eauto].
  - intros raw Hin. apply Hl in Hin as (k & Hk & ->). exists k. split; [by apply Hd|done].
Qed.

End Keyed.

Section Refinement.
Context `{BitcoinTextLaws} {D : Type} `{!Database D, !DatabaseLaws D, !KeyScan D, !KeyScanLaws D, !WallClock D, !Json StoredUtxo}.

Definition utxos_in : D -> gmap OutPoint StoredUtxo -> Prop := keyed UTXO_PREFIX utxo_key outpoint_ok.

Lemma read_utxos_run (predicate : StoredUtxo -> bool) (l : list (OutPoint * StoredUtxo)) (d : D) :
  Forall (fun x => outpoint_ok x.1) l ->
  read_utxos predicate (key_entry utxo_key <$> l) d = (Ok (filter (fun x => predicate x.2 = true) l), d).
Proof.
  induction l as [|[o s] l IH]; intros Hl; [done|]. apply Forall_cons in Hl as [Ho Hl]. cbn [fst] in Ho.
  cbn [fmap list_fmap key_entry fst snd read_utxos]. rewrite from_to_json. rewrite filter_cons. cbn [snd].
  destruct (predicate s); [|by rewrite decide_False, IH]. rewrite decide_True by done.
  rewrite key_to_outpoint_key by done. cbn. unfold mbind, SR_bind. cbn. by rewrite IH.
Qed.

Lemma iter_utxos_ok predicate d m r d' :
  utxos_in d m -> iter_utxos predicate d = (r, d') ->
  utxos_in d' m /\ forall l, r = Ok l -> l ≡ₚ filter (fun x => predicate x.2 = true) (map_to_list m).
Proof.
  intros Hd. unfold iter_utxos, mbind, SR_bind.
  pose proof (keyed_scan UTXO_PREFIX utxo_key outpoint_ok utxo_key_inj utxo_key_prefix "failed to iterate utxos" d m Hd) as Hscan.
  destruct (map_err _ _ d) as [[l|e] d1]; [|intros [= <- <-]; by split; [apply Hscan|]].
  destruct Hscan as (Hd1 & es & -> & Hes & Hfit). rewrite read_utxos_run by done. intros [= <- <-]. split; [done|].
  intros l [= <-]. by rewrite Hes.
Qed.

#[export] Instance utxo_store_laws : UtxoStoreLaws D.
Proof.
  refine {| holds := utxos_in |}.
  - intros u m o v a r u' Hu Ho Hrun. cbn in Hrun. unfold insert, insert_with_timestamp, sget, mbind, SR_bind in Hrun.
    pose proof (keyed_set_err _ _ _ utxo_key_inj "failed to write utxo" u m o
      (mkStoredUtxo v (current_timestamp u) (Some a) Available) Hu Ho) as Hs.
    rewrite Hrun in Hs. destruct (is_ok r); eauto.
  - intros u m st o r u' Hu Ho Hrun. cbn in Hrun. unfold mark, mbind, SR_bind in Hrun.
    pose proof (keyed_get_err _ _ _ "failed to read utxo" u m o Hu Ho) as Hg.
    destruct (map_err _ _ u) as [[[s|]|e] u1]; destruct Hg as [Hu1 Hs]; [|by injection Hrun as <- <-..].
    pose proof (keyed_set_err _ _ _ utxo_key_inj "failed to update utxo state" u1 m o (set_state st s) Hu1 Ho) as Hset.
    rewrite Hrun in Hset. destruct (is_ok r); eauto.
  - intros u m o r u' Hu Ho Hrun. cbn in Hrun. unfold remove in Hrun.
    pose proof (keyed_delete_err _ _ _ utxo_key_inj "failed to delete utxo" u m o Hu Ho) as Hdel. by rewrite Hrun in Hdel.
  - intros u m r u' Hu Hrun. cbn in Hrun. apply (iter_utxos_ok _ u m) in Hrun as [Hu' Hl]; [|done]. split; [done|].
    intros l Hr. rewrite (Hl l Hr). by rewrite filter_all.
  - intros u m a r u' Hu Hrun. cbn in Hrun. apply (iter_utxos_ok _ u m) in Hrun as [Hu' Hl]; [|done]. split; [done|].
    intros l Hr. rewrite (Hl l Hr). apply reflexive_eq, list_filter_iff. intros x. apply bool_decide_eq_true.
  - intros u m o r u' Hu Ho Hrun. cbn in Hrun. unfold contains, mbind, SR_bind in Hrun.
    pose proof (keyed_get_err _ _ _ "failed to read utxo" u m o Hu Ho) as Hg.
    destruct (map_err _ _ u) as [[s|e] u1]; destruct Hg as [Hu1 Hs]; injection Hrun as <- <-; [|done]. split; [done|].
    intros b [= <-]. by rewrite Hs.
  - intros u m r u' Hu Hrun. exact (keyed_clear _ _ _ utxo_key_inj utxo_key_prefix _ _ u m r u' Hu Hrun).
Defined.

End Refinement.

(** ** The store of pending transactions *)

Definition PENDING_TX_PREFIX : string := "pending_tx/".

Definition pending_tx_key (t : bytes) : string := PENDING_TX_PREFIX +:+ txid_to_string t.

Record StoredTransaction := mkStoredTransaction {
  transaction_hex : string;
  change_outpoint : option OutPoint;
  stored_change_value : option Z;
  stored_fee_sat : Z;
  spent_outpoints : list OutPoint;
  spent_values : list Z;
  stored_change_address : string
}.

Section PendingStore.
Context `{BitcoinText} {D : Type} `{!Database D, !KeyScan D, !Json StoredTransaction}.

Definition from_created (c : CreatedTransaction) : StoredTransaction := {|
  transaction_hex := serialize_hex (transaction c);
  change_outpoint := outpoint <$> change c;
  stored_change_value := value_sat <$> change c;
  stored_fee_sat := fee_sat c;
  spent_outpoints := outpoint <$> spent_utxos c;
  spent_values := value_sat <$> spent_utxos c;
  stored_change_address := address_to_string (change_address c)
|}.

Definition to_created (n : Network) (s : StoredTransaction) : result failure CreatedTransaction :=
  tx_bytes ← ok_or (bytes_from_hex (transaction_hex s)) (Anyhow ["invalid transaction hex"]);
  tx ← ok_or (deserialize tx_bytes) (Anyhow ["failed to decode transaction"]);
  unchecked ← ok_or (address_from_str (stored_change_address s)) (Anyhow ["invalid change address"]);
  address ← ok_or (require_network n unchecked) (Anyhow ["address network mismatch"]);
  mret (mkCreated tx
    match change_outpoint s, stored_change_value s with Some o, Some v => Some (mkUtxo o v) | _, _ => None end
    (stored_fee_sat s) [] (zip_with mkUtxo (spent_outpoints s) (spent_values s)) (default 0 (stored_change_value s)) address).

Definition key_to_txid (key : string) : result failure bytes :=
  match split_on "/" key with
  | [prefix; txid_str] =>
      if negb (bool_decide (prefix = "pending_tx")) then Err (Anyhow ["invalid pending transaction key: wrong prefix"]) else
      ok_or (parse_txid txid_str) (Anyhow ["invalid txid in key"])
  | _ => Err (Anyhow ["invalid pending transaction key: wrong prefix"])
  end.

Definition save_pending (t : bytes) (c : CreatedTransaction) : SR D failure unit :=
  map_err "failed to save pending transaction" (set (pending_tx_key t) (from_created c)).

Definition load_pending (t : bytes) (n : Network) : SR D failure (option CreatedTransaction) :=
  stored ← map_err "failed to read pending transaction" (get (T := StoredTransaction) (pending_tx_key t));
  match stored with
  | Some s => c ← slift (to_created n s); mret (Some c)
  | None => mret None
  end.

Fixpoint read_pending (n : Network) (l : list (string * string)) : SR D failure (list (bytes * CreatedTransaction)) :=
  match l with
  | [] => mret []
  | (key, value) :: l =>
      match from_json value with
      | None => bail "failed to deserialize stored transaction"
      | Some stored =>
          t ← slift (key_to_txid key);
          created ← slift (to_created n stored);
          rest ← read_pending n l;
          mret ((t, created) :: rest)
      end
  end.

Definition load_all_pending (n : Network) : SR D failure (list (bytes * CreatedTransaction)) :=
  l ← map_err "failed to iterate pending transactions" (partial_compare PENDING_TX_PREFIX);
  read_pending n l.

Definition remove_pending (t : bytes) : SR D failure unit :=
  map_err "failed to delete pending transaction" (db_delete (pending_tx_key t)).

Definition clear_pending : SR D failure unit :=
  l ← map_err "failed to iterate pending transactions" (partial_compare_keys PENDING_TX_PREFIX);
  delete_keys "failed to delete pending transaction" l.

End PendingStore.

(** What a stored transaction does not keep *)
Definition forget_indices `{BitcoinText} (c : CreatedTransaction) : CreatedTransaction :=
  mkCreated (transaction c) (change c) (fee_sat c) [] (spent_utxos c) (change_value c) (change_address c).

(** The change is the change output, and goes to an address of the network. *)
Definition created_ok `{BitcoinTextLaws} (n : Network) (c : CreatedTransaction) : Prop :=
  change_value c = default 0 (value_sat <$> change c) /\ address_on n (change_address c).

Class PendingStoreApi `{BitcoinText} (P : Type) := {
  ps_save : bytes -> CreatedTransaction -> SR P failure unit;
  ps_load_all : Network -> SR P failure (list (bytes * CreatedTransaction));
  ps_remove : bytes -> SR P failure unit
}.

Class PendingStoreLaws `{BitcoinTextLaws} (P : Type) `{!PendingStoreApi P} := {
  holds_pending : Network -> P -> gmap bytes CreatedTransaction -> Prop;
  ps_save_law n p m t c r p' :
    holds_pending n p m -> txid_ok t -> created_ok n c -> ps_save t c p = (r, p') ->
    if is_ok r then holds_pending n p' (<[t := c]> m) else holds_pending n p' m;
  ps_remove_law n p m t r p' :
    holds_pending n p m -> txid_ok t -> ps_remove t p = (r, p') ->
    if is_ok r then holds_pending n p' (delete t m) else holds_pending n p' m;
  ps_load_all_law n p m r p' :
    holds_pending n p m -> ps_load_all n p = (r, p') ->
    holds_pending n p' m /\ forall l, r = Ok l -> l ≡ₚ prod_map id forget_indices <$> map_to_list m
}.

#[export] Instance pending_store `{BitcoinText, !Database D, !KeyScan D, !Json StoredTransaction} : PendingStoreApi D := {|
  ps_save := save_pending;
  ps_load_all := load_all_pending;
  ps_remove := remove_pending
|}.

Section PendingRefinement.
Context `{BitcoinTextLaws} {D : Type} `{!Database D, !DatabaseLaws D, !KeyScan D, !KeyScanLaws D, !Json StoredTransaction}.

Lemma pending_tx_key_eq t : pending_tx_key t = "pending_tx" +:+ String "/" (txid_to_string t).
Proof. reflexivity. Qed.

Lemma key_to_txid_key t : txid_ok t -> key_to_txid (pending_tx_key t) = Ok t.
Proof.
  intros Ht. rewrite pending_tx_key_eq. unfold key_to_txid. rewrite split_on_app by done. unfold split_on.
  rewrite split_first_lacks by (by apply txid_to_string_lacks). rewrite bool_decide_eq_true_2 by done. cbn [negb].
  by rewrite parse_txid_display.
Qed.

Lemma pending_tx_key_inj t t' : txid_ok t -> txid_ok t' -> pending_tx_key t = pending_tx_key t' -> t = t'.
Proof.
  intros Ht Ht' Heq. pose proof (key_to_txid_key t Ht) as Hk. rewrite Heq, key_to_txid_key in Hk by done. congruence.
Qed.

Lemma pending_tx_key_prefix t : starts_with PENDING_TX_PREFIX (pending_tx_key t) = true.
Proof. unfold starts_with, pending_tx_key. rewrite strip_prefix_append. by apply bool_decide_eq_true. Qed.

Lemma to_from_created n c : created_ok n c -> to_created n (from_created c) = Ok (forget_indices c).
Proof.
  intros [Hv Ha]. unfold to_created, from_created.
  cbn [transaction_hex stored_change_address change_outpoint stored_change_value stored_fee_sat spent_outpoints spent_values].
  pose proof (transaction_read (transaction c)) as Htx. destruct (bytes_from_hex _) as [raw|]; [|done]. cbn in Htx |- *.
  rewrite Htx. cbn. pose proof (address_read n (change_address c) Ha) as Hadr.
  destruct (address_from_str _) as [a|]; [|done]. cbn in Hadr |- *. rewrite Hadr. cbn. unfold forget_indices.
  rewrite Hv. unfold mret, result_ret. f_equal. f_equal.
  - by destruct (change c) as [[]|].
  - induction (spent_utxos c) as [|[] l IH]; [done|]. cbn. by rewrite IH.
Qed.

Definition pending_in (n : Network) (d : D) (m : gmap bytes CreatedTransaction) : Prop :=
  keyed PENDING_TX_PREFIX pending_tx_key txid_ok d (from_created <$> m) /\ map_Forall (fun _ c => created_ok n c) m.

Lemma read_pending_run n (es : list (bytes * CreatedTransaction)) (d : D) :
  Forall (fun x => txid_ok x.1 /\ created_ok n x.2) es ->
  read_pending n (key_entry pending_tx_key <$> (prod_map id from_created <$> es)) d = (Ok (prod_map id forget_indices <$> es), d).
Proof.
  induction es as [|[t c] es IH]; intros Hes; [done|]. apply Forall_cons in Hes as [[Ht Hc] Hes]. cbn [fst snd] in Ht, Hc.
  rewrite !fmap_cons. unfold key_entry at 1. cbn [prod_map fst snd read_pending]. rewrite from_to_json.
  change (id t) with t. rewrite key_to_txid_key by done. unfold mbind, SR_bind, slift. rewrite to_from_created by done.
  by rewrite IH.
Qed.

Lemma map_to_list_from_created (m : gmap bytes CreatedTransaction) :
  map_to_list (from_created <$> m) = prod_map id from_created <$> map_to_list m.
Proof. apply map_to_list_fmap. Qed.

#[export] Instance pending_store_laws : PendingStoreLaws D.
Proof.
  refine {| holds_pending := pending_in |}.
  - intros n p m t c r p' [Hp Hm] Ht Hc Hrun. cbn in Hrun. unfold save_pending in Hrun.
    pose proof (keyed_set_err _ _ _ pending_tx_key_inj "failed to save pending transaction" p _ t (from_created c) Hp Ht) as Hs.
    rewrite Hrun in Hs. destruct (is_ok r); [|done]. split; [by rewrite fmap_insert|by apply map_Forall_insert_2].
  - intros n p m t r p' [Hp Hm] Ht Hrun. cbn in Hrun. unfold remove_pending in Hrun.
    pose proof (keyed_delete_err _ _ _ pending_tx_key_inj "failed to delete pending transaction" p _ t Hp Ht) as Hs.
    rewrite Hrun in Hs. destruct (is_ok r); [|done]. split; [by rewrite fmap_delete|by apply map_Forall_delete].
  - intros n p m r p' [Hp Hm] Hrun. cbn in Hrun. unfold load_all_pending, mbind, SR_bind in Hrun.
    pose proof (keyed_scan _ _ _ pending_tx_key_inj pending_tx_key_prefix "failed to iterate pending transactions" p _ Hp) as Hs.
    destruct (map_err _ _ p) as [[l|e] p1]; [|injection Hrun as <- <-; by split; [split; [apply Hs|]|]].
    destruct Hs as (Hp1 & es & -> & Hes & Hfit). rewrite map_to_list_from_created in Hes.
    apply Permutation_map_inv in Hes as (es' & -> & Hes').
    rewrite read_pending_run in Hrun.
    + injection Hrun as <- <-. split; [done|]. intros l [= <-]. apply Permutation_map. by symmetry.
    + rewrite Forall_forall. intros [t c] Hin. split.
      * apply (proj1 (Forall_forall _ _) Hfit (t, from_created c)). apply list_elem_of_fmap. by exists (t, c).
      * rewrite <- Hes' in Hin. apply elem_of_map_to_list in Hin. by apply (Hm t c).
Defined.

End PendingRefinement.

(** ** Sequences of operations *)

Inductive UtxoOp :=
| OpInsert (o : OutPoint) (v : Z) (a : string)
| OpMark (st : UtxoState) (o : OutPoint)
| OpRemove (o : OutPoint)
| OpClear.

Definition utxo_op_ok (op : UtxoOp) : Prop :=
  match op with OpInsert o _ _ | OpMark _ o | OpRemove o => outpoint_ok o | OpClear => True end.

#[export] Instance utxo_op_ok_dec op : Decision (utxo_op_ok op).
Proof. destruct op; apply _. Defined.

(** What an operation that succeeded, or failed, does to the map *)
Inductive acts_on : UtxoOp -> bool -> gmap OutPoint StoredUtxo -> gmap OutPoint StoredUtxo -> Prop :=
| acts_insert o v a ts m : acts_on (OpInsert o v a) true m (<[o := mkStoredUtxo v ts (Some a) Available]> m)
| acts_mark st o s m : m !! o = Some s -> acts_on (OpMark st o) true m (<[o := set_state st s]> m)
| acts_remove o m : acts_on (OpRemove o) true m (delete o m)
| acts_clear m : acts_on OpClear true m ∅
| acts_failed op m : acts_on op false m m
| acts_clear_failed m m' : m' ⊆ m -> acts_on OpClear false m m'.

Section Sequences.
Context {U : Type} `{!UtxoStoreApi U}.

Definition run_utxo_op (op : UtxoOp) : SR U failure unit :=
  match op with
  | OpInsert o v a => us_insert o v a
  | OpMark st o => us_mark st o
  | OpRemove o => us_remove o
  | OpClear => us_clear
  end.

Inductive run_utxo_ops : list UtxoOp -> U -> gmap OutPoint StoredUtxo -> U -> gmap OutPoint StoredUtxo -> Prop :=
| run_nil u m : run_utxo_ops [] u m u m
| run_cons op ops u m m1 u' m' :
    acts_on op (is_ok (fst (run_utxo_op op u))) m m1 -> run_utxo_ops ops (snd (run_utxo_op op u)) m1 u' m' ->
    run_utxo_ops (op :: ops) u m u' m'.

Definition final_store (ops : list UtxoOp) (u : U) : U := foldl (fun u op => snd (run_utxo_op op u)) u ops.

Context `{!UtxoStoreLaws U}.

Lemma run_utxo_op_ok op u m :
  holds u m -> utxo_op_ok op ->
  exists m', acts_on op (is_ok (fst (run_utxo_op op u))) m m' /\ holds (snd (run_utxo_op op u)) m'.
Proof.
  intros Hu Hop. destruct (run_utxo_op op u) as [r u'] eqn:Hrun. cbn [fst snd]. destruct op as [o v a|st o|o|]; cbn in Hrun, Hop.
  - pose proof (us_insert_law u m o v a r u' Hu Hop Hrun) as Hs.
    destruct (is_ok r); [destruct Hs as [ts Hs]|]; eexists; (split; [constructor|exact Hs]).
  - pose proof (us_mark_law u m st o r u' Hu Hop Hrun) as Hs.
    destruct (is_ok r); [destruct Hs as (s & Hm & Hs)|]; eexists; (split; [by constructor|exact Hs]).
  - pose proof (us_remove_law u m o r u' Hu Hop Hrun) as Hs. destruct (is_ok r); eexists; (split; [constructor|exact Hs]).
  - pose proof (us_clear_law u m r u' Hu Hrun) as Hs.
    destruct (is_ok r); [eexists; by split; [constructor|]|]. destruct Hs as (m' & Hsub & Hs). exists m'. by split; [constructor|].
Qed.

Lemma run_utxo_ops_ok ops u m :
  holds u m -> Forall utxo_op_ok ops -> exists m', run_utxo_ops ops u m (final_store ops u) m' /\ holds (final_store ops u) m'.
Proof.
  revert u m. induction ops as [|op ops IH]; intros u m Hu Hops; [by eexists; split; [constructor|]|].
  apply Forall_cons in Hops as [Hop Hops]. destruct (run_utxo_op_ok op u m Hu Hop) as (m1 & Hact & Hu1).
  destruct (IH _ m1 Hu1 Hops) as (m' & Hrun & Hu'). exists m'. split; [by econstructor|done].
Qed.

End Sequences.

Section Databases.
Context `{BitcoinTextLaws} {D : Type} `{!Database D, !DatabaseLaws D, !KeyScan D, !KeyScanLaws D, !WallClock D, !Json StoredUtxo}.

(** The database of outputs is a map.  Through any inserts, marks, removals and
    clearings, each of which may fail, it holds exactly the records that the
    operations which succeeded have left; whenever the database answers, all records
    are read back, those of an address are exactly the ones stored for it, and an
    output is found exactly if it has a record. *)
Theorem utxo_store_refines (ops : list UtxoOp) (d : D) :
  utxos_in d ∅ -> Forall utxo_op_ok ops ->
  let d' := final_store ops d in
  exists m, run_utxo_ops ops d ∅ d' m /\
    (forall l, fst (load_all d') = Ok l -> l ≡ₚ map_to_list m) /\
    (forall a l, fst (load_by_address a d') = Ok l -> l ≡ₚ filter (fun kv => s_address kv.2 = Some a) (map_to_list m)) /\
    (forall o b, outpoint_ok o -> fst (contains o d') = Ok b -> b = bool_decide (is_Some (m !! o))).
Proof.
  intros Hd Hops d'. destruct (run_utxo_ops_ok (UtxoStoreLaws0 := utxo_store_laws) ops d ∅ Hd Hops) as (m & Hrun & Hm). fold d' in Hrun, Hm. exists m. split_and!.
  - done.
  - intros l Hl. destruct (load_all d') as [r d2] eqn:Heq. cbn in Hl. exact (proj2 (us_load_all_law d' m r d2 Hm Heq) l Hl).
  - intros a l Hl. destruct (load_by_address a d') as [r d2] eqn:Heq. cbn in Hl.
    exact (proj2 (us_load_by_address_law d' m a r d2 Hm Heq) l Hl).
  - intros o b Ho Hb. destruct (contains o d') as [r d2] eqn:Heq. cbn in Hb.
    exact (proj2 (us_contains_law d' m o r d2 Hm Ho Heq) b Hb).
Qed.

End Databases.

(** ** Concrete databases, in memory *)

Module Sample.

#[export] Existing Instances CoordinatorStore.Sample.json_countable CoordinatorStore.Sample.database
  CoordinatorStore.Sample.database_laws.
Abbreviation Db := CoordinatorStore.Sample.Db.
Abbreviation bits := CoordinatorStore.Sample.bits.
Abbreviation unbits := CoordinatorStore.Sample.unbits.

#[export] Instance TxIn_countable : Countable TxIn.
Proof.
  apply (inj_countable' (fun i => (previous_output i, script_sig i, sequence i, witness i))
    (fun '(o, s, q, w) => mkTxIn o s q w)). by intros [].
Defined.
#[export] Instance TxOut_countable : Countable TxOut.
Proof. apply (inj_countable' (fun o => (out_value o, script_pubkey o)) (fun '(v, s) => mkTxOut v s)). by intros []. Defined.
#[export] Instance Transaction_countable : Countable Transaction.
Proof.
  apply (inj_countable' (fun t => (tx_version t, lock_time t, input t, output t)) (fun '(v, l, i, o) => mkTransaction v l i o)).
  by intros [].
Defined.
#[export] Instance UtxoState_countable : Countable UtxoState.
Proof.
  apply (inj_countable' (fun s => bool_decide (s = Available)) (fun b : bool => if b then Available else SpentUnconfirmed)).
  by intros [].
Defined.
#[export] Instance StoredUtxo_eq_dec : EqDecision StoredUtxo.
Proof. solve_decision. Defined.
#[export] Instance StoredUtxo_countable : Countable StoredUtxo.
Proof.
  apply (inj_countable' (fun s => (s_value s, s_timestamp s, s_address s, s_state s)) (fun '(v, t, a, s) => mkStoredUtxo v t a s)).
  by intros [].
Defined.
#[export] Instance StoredTransaction_eq_dec : EqDecision StoredTransaction.
Proof. solve_decision. Defined.
#[export] Instance StoredTransaction_countable : Countable StoredTransaction.
Proof.
  apply (inj_countable' (fun s => (transaction_hex s, change_outpoint s, stored_change_value s, stored_fee_sat s,
    spent_outpoints s, spent_values s, stored_change_address s)) (fun '(h, o, v, f, l, k, a) => mkStoredTransaction h o v f l k a)).
  by intros [].
Defined.

(** A text as the numbers of its characters, and back *)
Fixpoint codes (s : string) : bytes :=
  match s with EmptyString => [] | String c s => Z.of_N (N_of_ascii c) :: codes s end.
Fixpoint uncodes (l : bytes) : string :=
  match l with [] => EmptyString | n :: l => String (ascii_of_N (Z.to_N n)) (uncodes l) end.
Lemma uncodes_codes s : uncodes (codes s) = s.
Proof. induction s as [|c s IH]; [done|]. cbn. by rewrite N2Z.id, ascii_N_embedding, IH. Qed.

(** Addresses are texts. *)
#[export] Instance bitcoin_text : BitcoinText := {|
  parse_txid s := match hex_decode s with Ok l => Some (reverse l) | Err _ => None end;
  BtcAddress := string;
  UncheckedAddress := string;
  address_to_string a := a;
  address_from_str s := Some s;
  require_network _ s := Some s;
  serialize_hex tx := bits (encode tx);
  bytes_from_hex s := Some (codes s);
  deserialize l := decode (unbits (uncodes l))
|}.
#[export] Instance bitcoin_text_laws : BitcoinTextLaws.
Proof.
  refine {| address_on _ _ := True |}.
  - intros t [_ Ht]. unfold parse_txid, bitcoin_text, txid_to_string. rewrite hex_decode_encode by (by apply Forall_reverse).
    by rewrite reverse_involutive.
  - done.
  - intros tx. cbn. by rewrite uncodes_codes, CoordinatorStore.Sample.unbits_bits, decode_encode.
Defined.

#[export] Instance key_scan : KeyScan Db := {|
  partial_compare_keys p d := (Ok (filter (fun k => starts_with p k = true) (map_to_list d).*1), d)
|}.
#[export] Instance key_scan_laws : KeyScanLaws Db.
Proof. split. intros p d. split; [done|]. by intros l [= <-]. Qed.
#[export] Instance clock : WallClock Db := {| unix_secs _ := Some 1700000000 |}.

Definition coin (n : Z) : OutPoint := mkOutPoint (be_bytes 32 n) (n mod 3).
Definition ops : list UtxoOp :=
  [OpInsert (coin 1) 5000 "mine"; OpInsert (coin 2) 700 "yours"; OpMark SpentUnconfirmed (coin 1); OpMark Available (coin 9);
   OpInsert (coin 3) 60000 "mine"; OpRemove (coin 2)].

End Sample.

Section Witness.
Import Sample.

Lemma utxo_store_refines_witness :
  exists m, run_utxo_ops Sample.ops (∅ : Db) ∅ (final_store Sample.ops (∅ : Db)) m /\
    map_to_list m ≡ₚ [(coin 1, mkStoredUtxo 5000 1700000000 (Some "mine") SpentUnconfirmed);
                      (coin 3, mkStoredUtxo 60000 1700000000 (Some "mine") Available)].
Proof.
  destruct (utxo_store_refines Sample.ops (∅ : Db)) as (m & Hrun & Hall & _).
  - split_and!; [done|by intros k [? ?]|by intros raw [? ?]].
  - by_decide.
  - exists m. split; [exact Hrun|]. symmetry. etransitivity; [|apply Hall; vm_compute; reflexivity]. apply perm_swap.
Defined.

End Witness.
