(* ===== verification/Wallet.v ===== *)
(** * The Bitcoin wallet (cli/bitcoin-wallet/src/wallet.rs, main.rs, config.rs, bitcoin/utils.rs)

    A wallet of P2WPKH outputs: it registers outputs, pays scripts with a fee by size,
    sends the transactions to a node, keeps them as pending until they are
    confirmed, and replaces them by ones with a higher fee.  Keys, signatures, sizes
    and identifiers of transactions are those of rust-bitcoin, a parameter; the
    stores are used through the interfaces of [WalletStore]. *)

From Stdlib Require Import Ascii.
From stdpp Require Import prelude gmap strings sorting.
From S2P Require Import Prelude Types Bitvmx Flow CoordinatorStore WalletStore.
Open Scope Z_scope.

(** ** Interfaces *)

Class BitcoinCrate `{BitcoinText} := {
  BtcPrivateKey : Type;
  BtcPublicKey : Type;
  private_key_from_wif : string -> option BtcPrivateKey;
  private_key_new : bytes -> Network -> BtcPrivateKey;
  (** the key is of the kind of the network *)
  key_on : Network -> BtcPrivateKey -> bool;
  public_key : BtcPrivateKey -> BtcPublicKey;
  public_key_from_slice : bytes -> option BtcPublicKey;
  is_compressed : BtcPublicKey -> bool;
  p2wpkh : BtcPublicKey -> Network -> BtcAddress;
  new_p2wpkh : BtcPublicKey -> bytes;
  x_only_public_key : BtcPublicKey -> bytes;
  address_script : BtcAddress -> bytes;
  (** [is_p2wpkh] or [is_p2pkh] *)
  is_key_hash_script : bytes -> bool;
  (** [OP_RETURN] and the data, unless they are too large *)
  op_return_script : bytes -> option bytes;
  (** the witness of an input, for the key, the script code and the amount *)
  sign_p2wpkh : BtcPrivateKey -> BtcPublicKey -> Transaction -> nat -> bytes -> Z -> option (list bytes);
  vsize : Transaction -> Z;
  compute_txid : Transaction -> bytes
}.

(** An output that the block explorer lists *)
Record BlockstreamUtxo := mkBlockstreamUtxo {
  bu_txid : string; bu_vout : Z; bu_value : Z; bu_confirmed : bool; bu_block_hash : option string
}.

(** The node, the block explorer and the random numbers *)
Class WalletNode (E : Type) := {
  send_raw_transaction : string -> SR E failure bytes;
  raw_transaction_hex : bytes -> option string -> SR E failure string;
  random_secret : E -> bytes * E;
  fetch_testnet_utxos : string -> SR E failure (list BlockstreamUtxo);
  getnewaddress : SR E failure string;
  generatetoaddress : Z -> string -> SR E failure unit;
  trusted_balance_sat : SR E failure Z;
  sendtoaddress : string -> Z -> SR E failure string;
  find_vout_for_address : string -> string -> SR E failure Z;
  parse_block_hash : string -> bool
}.

(** ** The wallet *)

Definition DEFAULT_SATS_PER_BYTE : Z := 5.
Definition DEFAULT_ENABLER_AMOUNT : Z := 1080.
Definition P2WPKH_DUST_LIMIT_SATS : Z := 330.

Inductive WalletMode := ModeDefault | ModeUser | ModeMember.

#[export] Instance WalletMode_eq_dec : EqDecision WalletMode.
Proof. solve_decision. Defined.

Record Wallet `{BitcoinCrate} (U P E : Type) := mkWallet {
  network : Network;
  private_keys : gmap string BtcPrivateKey;
  active_address : option BtcAddress;
  utxos : list Utxo;
  sats_per_byte : Z;
  utxo_db : U;
  rpc_configured : bool;
  pending_transactions : gmap bytes CreatedTransaction;
  pending_db : P;
  enabler_amount : Z;
  wallet_env : E
}.
Arguments mkWallet {_ _ U P E}. Arguments network {_ _ U P E}. Arguments private_keys {_ _ U P E}.
Arguments active_address {_ _ U P E}. Arguments utxos {_ _ U P E}. Arguments sats_per_byte {_ _ U P E}.
Arguments utxo_db {_ _ U P E}. Arguments rpc_configured {_ _ U P E}. Arguments pending_transactions {_ _ U P E}.
Arguments pending_db {_ _ U P E}. Arguments enabler_amount {_ _ U P E}. Arguments wallet_env {_ _ U P E}.

(** Up to [2 ^ n] steps of a loop *)
Fixpoint iterate {S R} (n : nat) (step : S -> S + R) (s : S) : S + R :=
  match n with
  | O => step s
  | Datatypes.S n => match iterate n step s with inl s => iterate n step s | inr r => inr r end
  end.

Section Wallet.
Context `{BitcoinCrate, !UtxoStoreApi U, !PendingStoreApi P, !WalletNode E}.
Abbreviation W := (Wallet U P E).

Definition set_keys (keys : gmap string BtcPrivateKey) (active : option BtcAddress) (w : W) : W :=
  mkWallet (network w) keys active (utxos w) (sats_per_byte w) (utxo_db w) (rpc_configured w) (pending_transactions w)
    (pending_db w) (enabler_amount w) (wallet_env w).
Definition set_utxos (l : list Utxo) (w : W) : W :=
  mkWallet (network w) (private_keys w) (active_address w) l (sats_per_byte w) (utxo_db w) (rpc_configured w)
    (pending_transactions w) (pending_db w) (enabler_amount w) (wallet_env w).
Definition set_sats_per_byte (sats : Z) (w : W) : W :=
  mkWallet (network w) (private_keys w) (active_address w) (utxos w) sats (utxo_db w) (rpc_configured w)
    (pending_transactions w) (pending_db w) (enabler_amount w) (wallet_env w).
Definition set_pending (m : gmap bytes CreatedTransaction) (w : W) : W :=
  mkWallet (network w) (private_keys w) (active_address w) (utxos w) (sats_per_byte w) (utxo_db w) (rpc_configured w) m
    (pending_db w) (enabler_amount w) (wallet_env w).

(** The stores and the environment of the wallet *)
Definition set_utxo_db (u : U) (w : W) : W :=
  mkWallet (network w) (private_keys w) (active_address w) (utxos w) (sats_per_byte w) u (rpc_configured w)
    (pending_transactions w) (pending_db w) (enabler_amount w) (wallet_env w).
Definition on_utxos {A} (m : SR U failure A) : SR W failure A := zoom utxo_db set_utxo_db m.
Definition on_pending {A} (m : SR P failure A) : SR W failure A :=
  zoom pending_db (fun p w => mkWallet (network w) (private_keys w) (active_address w) (utxos w) (sats_per_byte w) (utxo_db w)
    (rpc_configured w) (pending_transactions w) p (enabler_amount w) (wallet_env w)) m.
Definition on_node {A} (m : SR E failure A) : SR W failure A :=
  zoom wallet_env (fun e w => mkWallet (network w) (private_keys w) (active_address w) (utxos w) (sats_per_byte w) (utxo_db w)
    (rpc_configured w) (pending_transactions w) (pending_db w) (enabler_amount w) e) m.

(** [for x in l { f(x)?; }] *)
Fixpoint for_each {S X} (f : X -> SR S failure unit) (l : list X) : SR S failure unit :=
  match l with
  | [] => mret tt
  | x :: l => _ ← f x; for_each f l
  end.

(** *** Opening *)

(** [new_with_network], with the databases that were opened *)
Definition new_with_network (n : Network) (u : U) (p : P) (e : E) : result failure W :=
  match ps_load_all n p with
  | (Ok l, p) =>
      Ok (mkWallet n ∅ None [] DEFAULT_SATS_PER_BYTE u false (list_to_map (reverse l)) p DEFAULT_ENABLER_AMOUNT e)
  | (Err y, _) => Err y
  end.

Definition reload_active_utxos : SR W failure unit :=
  w ← sget;
  match active_address w with
  | Some address =>
      entries ← on_utxos (us_load_by_address (address_to_string address));
      smodify (set_utxos ((fun x => mkUtxo x.1 (s_value x.2)) <$> filter (fun x => s_state x.2 = Available) entries))
  | None => smodify (set_utxos [])
  end.

(** [set_network], with the databases of the other network *)
Definition set_network (n : Network) (opened : result failure (U * P)) : SR W failure bool :=
  w ← sget;
  if bool_decide (network w = n) then mret false else
  dbs ← slift opened;
  match ps_load_all n dbs.2 with
  | (Err y, _) => sfail y
  | (Ok l, p) =>
      _ ← sput (mkWallet n ∅ None [] (sats_per_byte w) dbs.1 (rpc_configured w) (list_to_map (reverse l)) p (enabler_amount w)
                  (wallet_env w));
      mret true
  end.

(** *** Keys *)

Definition require_active_address : SR W failure BtcAddress :=
  w ← sget; match active_address w with Some a => mret a | None => bail "import a private key first" end.

Definition require_active_private_key : SR W failure BtcPrivateKey :=
  address ← require_active_address;
  w ← sget;
  match private_keys w !! address_to_string address with
  | Some pk => mret pk
  | None => bail "no private key loaded"
  end.

Definition import_private_key (wif : string) : SR W failure BtcAddress :=
  private_key ← opt_context "failed to parse WIF private key" (private_key_from_wif wif);
  w ← sget;
  if negb (key_on (network w) private_key) then bail "private key network does not match current wallet network" else
  if negb (is_compressed (public_key private_key)) then bail "private key must correspond to a compressed public key" else
  let address := p2wpkh (public_key private_key) (network w) in
  _ ← smodify (set_keys (<[address_to_string address := private_key]> (private_keys w)) (Some address));
  _ ← reload_active_utxos;
  mret address.

Definition generate_address : SR W failure BtcAddress :=
  secret_key ← on_node (fun e => let '(s, e) := random_secret e in (Ok s, e));
  w ← sget;
  let private_key := private_key_new secret_key (network w) in
  if negb (is_compressed (public_key private_key)) then bail "generated private key must produce a compressed public key" else
  let address := p2wpkh (public_key private_key) (network w) in
  _ ← smodify (set_keys (<[address_to_string address := private_key]> (private_keys w))
                 (match active_address w with Some active => Some active | None => Some address end));
  _ ← reload_active_utxos;
  mret address.

Definition switch_active_address (address : BtcAddress) : SR W failure unit :=
  w ← sget;
  if negb (bool_decide (is_Some (private_keys w !! address_to_string address))) then bail "address is not managed by this wallet" else
  _ ← smodify (set_keys (private_keys w) (Some address));
  reload_active_utxos.

(** *** Outputs *)

Definition register_utxo (o : OutPoint) (amount : Z) : SR W failure unit :=
  address ← require_active_address;
  _ ← require_active_private_key;
  w ← sget;
  if existsb (fun u => bool_decide (outpoint u = o)) (utxos w) then bail "UTXO already registered" else
  known ← on_utxos (us_contains o);
  if (known : bool) then bail "UTXO already exists in the database" else
  _ ← on_utxos (us_insert o amount (address_to_string address));
  smodify (fun w => set_utxos (utxos w ++ [mkUtxo o amount]) w).

Definition clear_db : SR W failure unit := _ ← on_utxos us_clear; smodify (set_utxos []).

Definition clear_active_address_utxos : SR W failure nat :=
  w ← sget;
  match active_address w with
  | None => mret 0%nat
  | Some address =>
      entries ← on_utxos (us_load_by_address (address_to_string address));
      _ ← for_each (fun x => on_utxos (us_remove x.1)) entries;
      _ ← reload_active_utxos;
      mret (length entries)
  end.

(** *** Making transactions *)

(** The greedy selection: outputs in their order until the amount is met *)
Fixpoint select_from (required total : Z) (index : nat) (l : list Utxo) : option (list nat * list Utxo * Z) :=
  match l with
  | [] => Some ([], [], total)
  | u :: l =>
      match checked_add 64 total (value_sat u) with
      | None => None
      | Some total =>
          if required <=? total then Some ([index], [u], total) else
          match select_from required total (S index) l with
          | None => None
          | Some (indices, selected, total) => Some (index :: indices, u :: selected, total)
          end
      end
  end.

Definition select_utxos (w : W) (required : Z) : result failure (list nat * list Utxo * Z) :=
  match select_from required 0 0 (utxos w) with
  | None => Err (Anyhow ["overflow selecting UTXOs"])
  | Some (indices, selected, total) =>
      if total <? required then Err (Anyhow ["insufficient funds"]) else Ok (indices, selected, total)
  end.

Definition set_witness (index : nat) (wit : list bytes) (tx : Transaction) : Transaction :=
  mkTransaction (tx_version tx) (lock_time tx)
    (alter (fun i => mkTxIn (previous_output i) (script_sig i) (sequence i) wit) index (input tx)) (output tx).

Fixpoint sign_inputs (key : BtcPrivateKey) (pubkey : BtcPublicKey) (script_code : bytes) (index : nat) (spent : list Utxo)
    (tx : Transaction) : result failure Transaction :=
  match spent with
  | [] => Ok tx
  | u :: spent =>
      match sign_p2wpkh key pubkey tx index script_code (value_sat u) with
      | None => Err (Anyhow ["signature hash"])
      | Some wit => sign_inputs key pubkey script_code (S index) spent (set_witness index wit tx)
      end
  end.

Definition sign_transaction (key : BtcPrivateKey) (tx : Transaction) (spent : list Utxo) : result failure Transaction :=
  sign_inputs key (public_key key) (new_p2wpkh (public_key key)) 0 spent tx.

(** [Sequence::ENABLE_RBF_NO_LOCKTIME] *)
Definition ENABLE_RBF_NO_LOCKTIME : Z := 2 ^ 32 - 3.

Definition draft (outputs : list TxOut) (selected : list Utxo) (change_script : bytes) (include_change : bool) (change_value : Z)
    : Transaction :=
  mkTransaction 2 0 ((fun u => mkTxIn (outpoint u) [] ENABLE_RBF_NO_LOCKTIME []) <$> selected)
    (outputs ++ (if include_change then [mkTxOut change_value change_script] else [])).

(** How the inner loop ends: with a failure, with a larger amount to select, or with a
    signed transaction, its fee and its change *)
Inductive Attempt :=
| AttemptFailed (y : failure)
| SelectMore (required : Z)
| Signed (tx : Transaction) (fee change : Z).

(** A round of the loop ['build] on [include_change], [change_value] and [assumed_fee] *)
Definition build_round (key : BtcPrivateKey) (rate : Z) (outputs : list TxOut) (total_output : Z) (selected : list Utxo)
    (total_input : Z) (s : bool * Z * Z) : (bool * Z * Z) + Attempt :=
  let '(include_change, change_value, assumed_fee) := s in
  match sign_transaction key (draft outputs selected (new_p2wpkh (public_key key)) include_change change_value) selected with
  | Err y => inr (AttemptFailed y)
  | Ok signed =>
      match checked_mul 64 (vsize signed) rate with
      | None => inr (AttemptFailed (Anyhow ["fee computation overflowed"]))
      | Some fee =>
          match checked_add 64 total_output fee with
          | None => inr (AttemptFailed (Anyhow ["amount plus fee overflowed"]))
          | Some total_required =>
              if total_input <? total_required then inr (SelectMore total_required) else
              let new_change_value := total_input - total_output - fee in
              let should_include_change := P2WPKH_DUST_LIMIT_SATS <=? new_change_value in
              if (assumed_fee <? fee) &&
                 (negb (Bool.eqb should_include_change include_change) || negb (new_change_value =? change_value))
              then inl (should_include_change, new_change_value, fee)
              else
                let change_value := if include_change then change_value else 0 in
                match checked_sub total_input total_output ≫= fun v => checked_sub v change_value with
                | None => inr (AttemptFailed (Anyhow ["fee computation underflow"]))
                | Some effective_fee => inr (Signed signed effective_fee change_value)
                end
          end
      end
  end.

(** [2 ^ 64] rounds are more than the amounts of 64 bits allow. *)
Definition build_with (key : BtcPrivateKey) (rate : Z) (outputs : list TxOut) (total_output : Z) (selected : list Utxo)
    (total_input : Z) : Attempt :=
  let change_value := saturating_sub total_input total_output in
  match iterate 64 (build_round key rate outputs total_output selected total_input)
          (P2WPKH_DUST_LIMIT_SATS <=? change_value, change_value, 0) with
  | inl _ => AttemptFailed OutOfFuel
  | inr a => a
  end.

Definition created_from (signed : Transaction) (fee change : Z) (indices : list nat) (selected : list Utxo) (address : BtcAddress)
    : CreatedTransaction :=
  mkCreated signed
    (if 0 <? change then Some (mkUtxo (mkOutPoint (compute_txid signed) (Z.of_nat (length (output signed)) - 1)) change) else None)
    fee indices selected change address.

(** A round of the loop ['select] on the amount required *)
Definition select_round (w : W) (key : BtcPrivateKey) (address : BtcAddress) (outputs : list TxOut) (total_output required : Z)
    : Z + result failure CreatedTransaction :=
  match select_utxos w required with
  | Err y => inr (Err y)
  | Ok (indices, selected, total_input) =>
      match build_with key (sats_per_byte w) outputs total_output selected total_input with
      | AttemptFailed y => inr (Err y)
      | SelectMore required => inl required
      | Signed signed fee change => inr (Ok (created_from signed fee change indices selected address))
      end
  end.

Definition build_transaction_with_outputs (outputs : list TxOut) (total_output : Z) : SR W failure CreatedTransaction :=
  key ← require_active_private_key;
  address ← require_active_address;
  if negb (is_compressed (public_key key)) then bail "private key must correspond to a compressed public key" else
  w ← sget;
  match iterate 65 (select_round w key address outputs total_output) total_output with
  | inl _ => sfail OutOfFuel
  | inr r => slift r
  end.

Definition create_transaction_once (target_scripts : list bytes) (amount_sat : Z) : SR W failure CreatedTransaction :=
  if bool_decide (target_scripts = []) then bail "at least one target script is required" else
  total_amount ← opt_context "total amount overflowed" (checked_mul 64 amount_sat (Z.of_nat (length target_scripts)));
  build_transaction_with_outputs (mkTxOut amount_sat <$> target_scripts) total_amount.

Fixpoint create_times (target_scripts : list bytes) (amount_sat : Z) (count : nat) : SR W failure (list CreatedTransaction) :=
  match count with
  | O => mret []
  | S count =>
      tx ← create_transaction_once target_scripts amount_sat;
      rest ← create_times target_scripts amount_sat count;
      mret (tx :: rest)
  end.

Definition create_transactions (target_scripts : list bytes) (amount_sat : Z) (count : nat) : SR W failure (list CreatedTransaction) :=
  if bool_decide (count = 0%nat) then bail "count must be at least 1" else
  if bool_decide (target_scripts = []) then bail "at least one target script is required" else
  _ ← require_active_private_key;
  create_times target_scripts amount_sat count.

Definition create_pegin_op_return_data (packet_number : Z) (rsk_address reimbursement_xpk : bytes) : bytes :=
  str_bytes "RSK_PEGIN" ++ be_bytes 8 packet_number ++ rsk_address ++ reimbursement_xpk.

Definition create_pegin_transaction (stream_value packet_number : Z) (tmp_addr rsk_address_hex enabler_script_hex : string)
    : SR W failure CreatedTransaction :=
  key ← require_active_private_key;
  w ← sget;
  dest_addr ← opt_context "invalid destination address" (address_from_str tmp_addr);
  checked_addr ← opt_context "destination address network mismatch" (require_network (network w) dest_addr);
  rsk_address ← opt_context "invalid RSK address hex" (bytes_from_hex (trim_0x rsk_address_hex));
  if negb (bool_decide (length rsk_address = 20%nat)) then bail "RSK address must be 20 bytes" else
  enabler_script ← opt_context "invalid enabler scriptPubKey hex" (bytes_from_hex (trim_0x enabler_script_hex));
  op_return ← opt_context "OP_RETURN data too large"
    (op_return_script (create_pegin_op_return_data packet_number rsk_address (x_only_public_key (public_key key))));
  build_transaction_with_outputs
    [mkTxOut stream_value (address_script checked_addr); mkTxOut 0 op_return; mkTxOut (enabler_amount w) enabler_script]
    (wrapping_add 64 stream_value (enabler_amount w)).

(** *** Sending them *)

(** A result that is only logged *)
Definition ignore_err (m : SR W failure unit) : SR W failure unit :=
  fun w => match m w with (Err (Anyhow _), w) => (Ok tt, w) | r => r end.

Definition change_outpoint_of (c : CreatedTransaction) : OutPoint :=
  mkOutPoint (compute_txid (transaction c)) (Z.of_nat (length (output (transaction c))) - 1).

(** [retain] of the outputs with other outpoints *)
Definition without (spent : list OutPoint) (l : list Utxo) : list Utxo := filter (fun u => outpoint u ∉ spent) l.

Definition commit_spend_pending (created : CreatedTransaction) : SR W failure unit :=
  _ ← for_each (fun u => on_utxos (us_mark SpentUnconfirmed (outpoint u))) (spent_utxos created);
  _ ← smodify (fun w => set_utxos (without (outpoint <$> spent_utxos created) (utxos w)) w);
  _ ← (if 0 <? change_value created then
         _ ← on_utxos (us_insert (change_outpoint_of created) (change_value created) (address_to_string (change_address created)));
         smodify (fun w => set_utxos (utxos w ++ [mkUtxo (change_outpoint_of created) (change_value created)]) w)
       else mret tt);
  _ ← smodify (fun w => set_pending (<[compute_txid (transaction created) := created]> (pending_transactions w)) w);
  on_pending (ps_save (compute_txid (transaction created)) created).

Definition broadcast_transaction (created : CreatedTransaction) : SR W failure bytes :=
  w ← sget;
  if negb (rpc_configured w) then bail "RPC client required but not configured" else
  rpc_txid ← on_node (send_raw_transaction (serialize_hex (transaction created)));
  txid ← opt_context "failed to convert broadcast txid" (parse_txid (txid_to_string rpc_txid));
  _ ← ignore_err (commit_spend_pending created);
  mret txid.

(** [Vec::swap_remove] *)
Definition swap_remove (index : nat) (l : list Utxo) : option (list Utxo) :=
  match l !! index, last l with
  | Some _, Some u => Some (take (length l - 1) (<[index := u]> l))
  | _, _ => None
  end.

Fixpoint swap_remove_all (indices : list nat) (l : list Utxo) : option (list Utxo) :=
  match indices with
  | [] => Some l
  | index :: indices => swap_remove index l ≫= swap_remove_all indices
  end.

(** [update_utxos_after_spend]: the indices from the largest to the smallest *)
Definition commit_spend (created : CreatedTransaction) : SR W failure (option Utxo) :=
  _ ← for_each (fun u => on_utxos (us_remove (outpoint u))) (spent_utxos created);
  w ← sget;
  match swap_remove_all (reverse (merge_sort Nat.le (spent_indices created))) (utxos w) with
  | None => sfail (Panic "swap_remove index out of bounds")
  | Some l =>
      _ ← smodify (set_utxos l);
      if 0 <? change_value created then
        let change_utxo := mkUtxo (change_outpoint_of created) (change_value created) in
        _ ← on_utxos (us_insert (outpoint change_utxo) (change_value created) (address_to_string (change_address created)));
        _ ← smodify (fun w => set_utxos (utxos w ++ [change_utxo]) w);
        mret (Some change_utxo)
      else mret None
  end.

(** *** Replacing and confirming *)

(** The result of a computation, as a value *)
Definition attempt {A} (m : SR W failure A) : SR W failure (result failure A) := fun w => let '(r, w) := m w in (Ok r, w).

(** The outputs but the change *)
Definition payments (c : CreatedTransaction) : list TxOut :=
  take (length (output (transaction c)) - (if 0 <? change_value c then 1 else 0)) (output (transaction c)).

Definition replace_transaction (original_txid : bytes) (new_sats_per_byte : Z) : SR W failure CreatedTransaction :=
  w ← sget;
  match pending_transactions w !! original_txid with
  | None => bail "transaction is not pending"
  | Some original =>
      if new_sats_per_byte <=? sats_per_byte w then bail "new fee rate must be higher than current" else
      _ ← for_each (fun u => on_utxos (us_mark Available (outpoint u))) (spent_utxos original);
      _ ← smodify (set_utxos (spent_utxos original));
      _ ← smodify (set_sats_per_byte new_sats_per_byte);
      let total_output_amount := foldl (fun sum out => wrapping_add 64 sum (out_value out)) 0 (payments original) in
      built ← attempt (build_transaction_with_outputs (payments original) total_output_amount);
      _ ← smodify (set_sats_per_byte (sats_per_byte w));
      replacement ← slift built;
      _ ← smodify (set_utxos (utxos w));
      if fee_sat replacement <=? fee_sat original then
        _ ← for_each (fun u => on_utxos (us_mark SpentUnconfirmed (outpoint u))) (spent_utxos original);
        bail "replacement transaction fee must be higher than original"
      else
        _ ← smodify (fun w => set_pending (delete original_txid (pending_transactions w)) w);
        _ ← on_pending (ps_remove original_txid);
        let old_change_outpoint := mkOutPoint original_txid (Z.of_nat (length (output (transaction original))) - 1) in
        _ ← (if 0 <? change_value original then
               _ ← attempt (on_utxos (us_remove old_change_outpoint));
               smodify (fun w => set_utxos (without [old_change_outpoint] (utxos w)) w)
             else mret tt);
        mret replacement
  end.

Definition confirm_transaction (t : bytes) : SR W failure unit :=
  w ← sget;
  match pending_transactions w !! t with
  | None => bail "transaction is not pending"
  | Some created =>
      _ ← smodify (fun w => set_pending (delete t (pending_transactions w)) w);
      _ ← on_pending (ps_remove t);
      for_each (fun u => on_utxos (us_remove (outpoint u))) (spent_utxos created)
  end.

(** [fetch_utxo_amount] *)
Definition fetch_utxo_amount (t : bytes) (block_hash : option string) (n : Z) : SR W failure Z :=
  w ← sget;
  if negb (rpc_configured w) then bail "RPC client required but not configured" else
  tx_hex ← context "failed to fetch transaction from RPC" (on_node (raw_transaction_hex t block_hash));
  raw ← opt_context "invalid transaction hex from RPC" (bytes_from_hex tx_hex);
  tx ← opt_context "failed to decode transaction" (deserialize raw);
  out ← opt_context "specified vout not found in transaction" (output tx !! Z.to_nat n);
  mret (out_value out).

(** ** Commands *)

Inductive CommandOutcome := Continue | Exit.

(** What a line asks for; commands that only print are one. *)
Inductive Command :=
| CmdShow
| CmdExit
| CmdImport (wif : string)
| CmdGenerate
| CmdSwitch (address : BtcAddress)
| CmdRegister (o : OutPoint) (block_hash : string) (amount : option Z)
| CmdSend (scripts : list bytes) (amount : Z) (count : nat)
| CmdMineBlock
| CmdMineUtxo (amount : Z)
| CmdClearDb
| CmdClearFunds
| CmdRegisterAuto
| CmdPegin (stream_value packet_number : Z) (dest_addr rsk_address enabler_script : string)
| CmdReplace (t : bytes) (new_sats_per_byte : Z)
| CmdConfirm (t : bytes).

Definition fails {A} (msg : string) : result failure A := Err (Anyhow [msg]).
Definition expect {A} (o : option A) (msg : string) : result failure A := ok_or o (Anyhow [msg]).

Definition require_operational_mode (mode : WalletMode) : result failure unit :=
  fail_if (bool_decide (mode = ModeDefault)) (Anyhow ["Command is not available in default mode"]).

Definition parse_count (raw : option string) : result failure nat :=
  match raw with
  | None => Ok 1%nat
  | Some value =>
      count ← expect (parse_uint 64 value) "count must be a positive integer";
      if count =? 0 then fails "count must be at least 1" else Ok (Z.to_nat count)
  end.

(** The parts of a list with commas; parts of a line hold no white space. *)
Definition comma_list (s : string) : list string := filter (fun x => x <> "") (split_on "," s).

Definition pubkey_script (pk_hex : string) : result failure bytes :=
  raw ← expect (bytes_from_hex pk_hex) "public key must be hex";
  pk ← expect (public_key_from_slice raw) "invalid public key";
  if is_compressed pk then Ok (new_p2wpkh pk) else fails "public key must be compressed for P2WPKH".

Definition payee_script (n : Network) (address_str : string) : result failure bytes :=
  unchecked ← expect (address_from_str address_str) "invalid address format";
  checked ← expect (require_network n unchecked) "address does not match current network";
  if is_key_hash_script (address_script checked) then Ok (address_script checked)
  else fails "only P2WPKH (bech32) and P2PKH (base58) addresses are supported".

Fixpoint scripts_of (f : string -> result failure bytes) (l : list string) : result failure (list bytes) :=
  match l with
  | [] => Ok []
  | x :: l => script ← f x; rest ← scripts_of f l; Ok (script :: rest)
  end.

Definition parse_send (f : string -> result failure bytes) (what : string) (parts : list string) : result failure Command :=
  csv ← expect (head parts) what;
  amount_str ← expect (parts !! 1%nat) "expected amount in satoshis";
  amount ← expect (parse_uint 64 amount_str) "invalid amount (satoshis)";
  count ← parse_count (parts !! 2%nat);
  if bool_decide (comma_list csv = []) then fails "expected at least one entry in the comma-separated list" else
  scripts ← scripts_of f (comma_list csv);
  Ok (CmdSend scripts amount count).

Definition parse_register (w : W) (parts : list string) : result failure Command :=
  if bool_decide (active_address w = None) then fails "import or switch to an address before registering UTXOs" else
  txid_str ← expect (head parts) "expected txid";
  block_hash_str ← expect (parts !! 1%nat) "expected block hash";
  vout_str ← expect (parts !! 2%nat) "expected vout";
  amount ← match parts !! 3%nat with
           | Some value => v ← expect (parse_uint 64 value) "invalid amount (satoshis)"; Ok (Some v)
           | None => Ok None
           end;
  t ← expect (parse_txid txid_str) "invalid txid provided";
  if negb (parse_block_hash block_hash_str) then fails "invalid block hash" else
  n ← expect (parse_uint 32 vout_str) "invalid vout index";
  Ok (CmdRegister (mkOutPoint t n) block_hash_str amount).

Definition parse_pegin (parts : list string) : result failure Command :=
  stream_value_str ← expect (head parts) "expected stream value in satoshis";
  stream_value ← expect (parse_uint 64 stream_value_str) "invalid stream value (satoshis)";
  packet_number_str ← expect (parts !! 1%nat) "expected packet number";
  packet_number ← expect (parse_uint 64 packet_number_str) "invalid packet number";
  dest_addr ← expect (parts !! 2%nat) "expected destination address";
  rsk_address ← expect (parts !! 3%nat) "expected RSK address (hex)";
  enabler ← expect (parts !! 4%nat) "expected enabler scriptPubKey (hex)";
  Ok (CmdPegin stream_value packet_number dest_addr rsk_address enabler).

Definition parse_txid_arg (part : option string) : result failure bytes :=
  txid_str ← expect part "expected txid"; expect (parse_txid txid_str) "invalid txid format".

Definition parse_replace (parts : list string) : result failure Command :=
  _ ← expect (head parts) "expected txid";
  new_fee_str ← expect (parts !! 1%nat) "expected new fee rate (sats/byte)";
  t ← parse_txid_arg (head parts);
  rate ← expect (parse_uint 64 new_fee_str) "invalid fee rate (must be positive integer)";
  Ok (CmdReplace t rate).

Definition parse_mine_utxo (w : W) (parts : list string) : result failure Command :=
  if negb (bool_decide (network w = Regtest)) then fails "mine_utxo is only available on regtest" else
  if bool_decide (active_address w = None) || negb (rpc_configured w) then Ok CmdShow else
  amount ← match head parts with
           | Some s => expect (parse_uint 64 s) "invalid amount (satoshis)"
           | None => Ok 21000000
           end;
  Ok (CmdMineUtxo amount).

Definition parse_list_funds (parts : list string) : result failure Command :=
  if bool_decide (is_Some (parts !! 1%nat)) then fails "unexpected argument for list_funds" else
  match head parts with
  | None => Ok CmdShow
  | Some scope => if bool_decide (scope = "all") then Ok CmdShow else fails "invalid list_funds argument. Use 'all'."
  end.

Definition parse_switch (w : W) (parts : list string) : result failure Command :=
  address_str ← expect (head parts) "expected bech32 address";
  unchecked ← expect (address_from_str address_str) "invalid address format";
  checked ← expect (require_network (network w) unchecked) "address does not match current network";
  Ok (CmdSwitch checked).

(** The words of a line and what they ask for; some need an operational mode. *)
Definition command_table (w : W) (parts : list string) : list (string * (bool * result failure Command)) :=
  [("help", (false, Ok CmdShow)); ("exit", (false, Ok CmdExit)); ("quit", (false, Ok CmdExit));
   ("import_private_key", (false, wif ← expect (head parts) "expected WIF string"; Ok (CmdImport wif)));
   ("generate_address", (false, Ok CmdGenerate));
   ("list_addresses", (false, Ok CmdShow));
   ("switch_address", (true, parse_switch w parts));
   ("register_utxo", (true, parse_register w parts));
   ("list_funds", (false, parse_list_funds parts));
   ("send_to_pubkey", (true, parse_send pubkey_script "expected comma-separated list of public keys (hex)" parts));
   ("send_to_address", (true, parse_send (payee_script (network w)) "expected comma-separated address list" parts));
   ("mine_block", (true, if bool_decide (network w = Regtest) then Ok CmdMineBlock else fails "mine_block is only available on regtest"));
   ("mine_utxo", (true, parse_mine_utxo w parts));
   ("tx_status", (false, _ ← parse_txid_arg (head parts); Ok CmdShow));
   ("clear_db", (true, if bool_decide (network w = Regtest) then Ok CmdClearDb else fails "clear_db is only available on regtest"));
   ("clear_funds", (true, if bool_decide (active_address w = None) then fails "import or switch to an address before clearing UTXOs"
                          else Ok CmdClearFunds));
   ("register_utxos_auto", (true,
      if negb (bool_decide (network w = Testnet)) then fails "register_utxos_auto is only available on testnet" else
      if bool_decide (active_address w = None) then fails "import or switch to an address before auto-registering UTXOs"
      else Ok CmdRegisterAuto));
   ("create_pegin_tx", (true, parse_pegin parts));
   ("list_pending", (true, Ok CmdShow));
   ("replace_tx", (true, parse_replace parts));
   ("confirm_tx", (true, t ← parse_txid_arg (head parts); Ok (CmdConfirm t)));
   ("block_height", (false, Ok CmdShow))].

Definition parse_command (mode : WalletMode) (w : W) (line : list string) : result failure Command :=
  match line with
  | [] => Err (Panic "called `Option::unwrap()` on a `None` value")
  | command :: parts =>
      match snd <$> list_find (fun x => x.1 = command) (command_table w parts) with
      | None => fails "unknown command"
      | Some (_, (operational, parsed)) =>
          _ ← (if (operational : bool) then require_operational_mode mode else Ok tt); parsed
      end
  end.

(** Whether a transaction was sent is only printed. *)
Definition broadcast_and_print (created : CreatedTransaction) : SR W failure unit :=
  w ← sget;
  if rpc_configured w then ignore_err (_ ← broadcast_transaction created; mret tt) else mret tt.

(** [maybe_broadcast] *)
Definition maybe_broadcast (txs : list CreatedTransaction) : SR W failure unit :=
  w ← sget; if rpc_configured w then for_each broadcast_and_print txs else mret tt.

Definition MINER_FEE_BUFFER_SAT : Z := 10000.

(** The first part of [mine_utxo]: the output that funds the active address *)
Definition mine_output (amount_sat : Z) : SR W failure OutPoint :=
  active_addr ← require_active_address;
  miner_address ← context "failed to obtain mining address" (on_node getnewaddress);
  balance ← on_node trusted_balance_sat;
  _ ← (if balance <? saturating_add 64 amount_sat MINER_FEE_BUFFER_SAT
       then context "failed to pre-mine regtest blocks" (on_node (generatetoaddress 101 miner_address)) else mret tt);
  txid_hex ← context "failed to fund active address" (on_node (sendtoaddress (address_to_string active_addr) amount_sat));
  _ ← context "failed to confirm funding transaction" (on_node (generatetoaddress 1 miner_address));
  t ← opt_context "invalid txid returned by bitcoind" (parse_txid txid_hex);
  n ← context "failed to locate vout for wallet address"
        (on_node (find_vout_for_address txid_hex (address_to_string active_addr)));
  mret (mkOutPoint t n).

Definition mine_utxo (amount_sat : Z) : SR W failure unit :=
  o ← mine_output amount_sat;
  amount ← fetch_utxo_amount (txid o) None (vout o);
  register_utxo o amount.

(** [filter_confirmed_utxos] *)
Definition filter_confirmed_utxos (l : list BlockstreamUtxo) : list BlockstreamUtxo :=
  filter (fun u => bu_confirmed u && bool_decide (is_Some (bu_block_hash u)) = true) l.

Definition register_listed (u : BlockstreamUtxo) : SR W failure unit :=
  block_hash ← opt_context "missing block hash" (bu_block_hash u);
  t ← opt_context "invalid txid from Blockstream" (parse_txid (bu_txid u));
  if negb (parse_block_hash block_hash) then bail "invalid block hash from Blockstream" else
  register_utxo (mkOutPoint t (bu_vout u)) (bu_value u).

Definition register_utxos_auto : SR W failure unit :=
  active_address ← require_active_address;
  fetched ← on_node (fetch_testnet_utxos (address_to_string active_address));
  _ ← clear_active_address_utxos;
  for_each register_listed (filter_confirmed_utxos fetched).

Definition run_command (c : Command) : SR W failure CommandOutcome :=
  let done (m : SR W failure unit) : SR W failure CommandOutcome := _ ← m; mret Continue in
  match c with
  | CmdShow => mret Continue
  | CmdExit => mret Exit
  | CmdImport wif => done (_ ← import_private_key wif; mret tt)
  | CmdGenerate => done (_ ← generate_address; mret tt)
  | CmdSwitch address => done (switch_active_address address)
  | CmdRegister o block_hash amount => done (
      amount_sat ← match amount with
                   | Some v => mret v
                   | None => context "RPC client required to fetch UTXO amount" (fetch_utxo_amount (txid o) (Some block_hash) (vout o))
                   end;
      register_utxo o amount_sat)
  | CmdSend scripts amount count => done (created ← create_transactions scripts amount count; maybe_broadcast created)
  | CmdMineBlock => done (
      w ← sget;
      if negb (rpc_configured w) then mret tt else
      miner_address ← context "failed to obtain mining address" (on_node getnewaddress);
      context "failed to mine block on regtest" (on_node (generatetoaddress 1 miner_address)))
  | CmdMineUtxo amount => done (mine_utxo amount)
  | CmdClearDb => done clear_db
  | CmdClearFunds => done (_ ← clear_active_address_utxos; mret tt)
  | CmdRegisterAuto => done register_utxos_auto
  | CmdPegin v n a r e => done (created ← create_pegin_transaction v n a r e; broadcast_and_print created)
  | CmdReplace t rate => done (replacement ← replace_transaction t rate; broadcast_and_print replacement)
  | CmdConfirm t => done (confirm_transaction t)
  end.

(** A line, as its words *)
Definition handle_command (mode : WalletMode) (line : list string) : SR W failure CommandOutcome :=
  w ← sget;
  c ← slift (parse_command mode w line);
  run_command c.

End Wallet.

(** ** Loops end *)

Section Iterate.
Context {S R : Type} (step : S -> S + R) (I : S -> Prop) (mu : S -> Z).
Hypothesis step_down : forall s s', I s -> step s = inl s' -> I s' /\ 0 <= mu s' < mu s.

Lemma iterate_runs n s :
  I s ->
  match iterate n step s with
  | inl s' => I s' /\ mu s' + 2 ^ Z.of_nat n <= mu s /\ 0 <= mu s'
  | inr r => exists s', I s' /\ step s' = inr r
  end.
Proof.
  revert s. induction n as [|n IH]; intros s Hs; cbn [iterate].
  - destruct (step s) as [s'|r] eqn:Hstep; [|eauto]. destruct (step_down s s' Hs Hstep) as [Hs' Hmu].
    change (2 ^ Z.of_nat 0) with 1. split; [done|lia].
  - pose proof (IH s Hs) as H1. destruct (iterate n step s) as [s1|r]; [|done]. destruct H1 as (Hs1 & Hmu1 & Hpos1).
    pose proof (IH s1 Hs1) as H2. destruct (iterate n step s1) as [s2|r]; [|done]. destruct H2 as (Hs2 & Hmu2 & Hpos2).
    rewrite Nat2Z.inj_succ, Z.pow_succ_r by lia. split; [done|lia].
Qed.

(** A loop whose measure is below [2 ^ n] ends within [2 ^ n] rounds. *)
Lemma iterate_ends n s : I s -> mu s < 2 ^ Z.of_nat n -> exists r s', iterate n step s = inr r /\ I s' /\ step s' = inr r.
Proof.
  intros Hs Hmu. pose proof (iterate_runs n s Hs) as Hrun. destruct (iterate n step s) as [s'|r]; [lia|].
  destruct Hrun as (s' & Hs' & Hstep). eauto.
Qed.

End Iterate.

(** ** Payments *)

Definition sum_values (l : list Utxo) : Z := foldr (fun u sum => value_sat u + sum) 0 l.

Definition amounts_ok (l : list Utxo) : Prop := Forall (fun u => uint 64 (value_sat u)) l.

#[export] Instance amounts_ok_dec l : Decision (amounts_ok l).
Proof. unfold amounts_ok. apply _. Defined.

Lemma select_from_spec required total index l indices selected total' :
  select_from required total index l = Some (indices, selected, total') -> amounts_ok l -> 0 <= total < 2 ^ 64 ->
  (exists n, selected = take n l) /\ total' = total + sum_values selected /\ total <= total' < 2 ^ 64 /\
  (total' < required -> selected = l).
Proof.
  revert total index indices selected total'. induction l as [|u l IH]; intros total index indices selected total'; cbn [select_from].
  - intros [= <- <- <-] _ Ht. split; [by exists 0%nat|]. cbn. split_and!; [lia|lia|lia|done].
  - intros Hsel [Hu Hl]%Forall_cons Ht. unfold uint in Hu. unfold checked_add in Hsel.
    destruct (total + value_sat u <? 2 ^ 64) eqn:Hov; [|done]. reflect_bool.
    destruct (required <=? total + value_sat u) eqn:Hreq; reflect_bool.
    + injection Hsel as <- <- <-. split; [by exists 1%nat|]. cbn. split_and!; [lia|lia|lia|lia].
    + destruct (select_from required _ _ l) as [[[ixs sel] t]|] eqn:Hrest; [|done]. injection Hsel as <- <- <-.
      destruct (IH _ _ _ _ _ Hrest Hl ltac:(lia)) as ([n ->] & Hsum & Hbound & Hall).
      split; [by exists (S n)|]. cbn [sum_values foldr]. split_and!; [unfold sum_values in Hsum; lia|lia|lia|].
      intros Hlt. by rewrite (Hall Hlt).
Qed.

Lemma sum_values_nonneg l : amounts_ok l -> 0 <= sum_values l.
Proof. induction 1 as [|u l Hu _ IH]; [done|]. unfold sum_values, uint in *. cbn. lia. Qed.

Lemma select_from_total required total index l :
  amounts_ok l -> 0 <= total -> total + sum_values l < 2 ^ 64 -> is_Some (select_from required total index l).
Proof.
  revert total index. induction l as [|u l IH]; intros total index; cbn [select_from]; [eauto|].
  intros [Hu Hl]%Forall_cons Ht Hsum. unfold uint in Hu. cbn [sum_values foldr] in Hsum. fold (sum_values l) in Hsum.
  pose proof (sum_values_nonneg l Hl). unfold checked_add. rewrite (proj2 (Z.ltb_lt _ _)) by lia.
  destruct (required <=? _); [eauto|]. destruct (IH (total + value_sat u) (S index) Hl ltac:(lia) ltac:(lia)) as [[[ixs sel] t] ->].
  eauto.
Qed.

Section Payments.
Context `{BitcoinCrate, !UtxoStoreApi U, !PendingStoreApi P, !WalletNode E}.
Abbreviation W := (Wallet U P E).

Lemma sign_inputs_frame key pubkey script index spent tx tx' :
  sign_inputs key pubkey script index spent tx = Ok tx' ->
  previous_output <$> input tx' = previous_output <$> input tx /\ output tx' = output tx.
Proof.
  revert index tx. induction spent as [|u spent IH]; intros index tx; cbn [sign_inputs]; [by intros [= ->]|].
  destruct (sign_p2wpkh _ _ _ _ _ _) as [wit|]; [|done]. intros Hs. destruct (IH _ _ Hs) as [Hi Ho]. rewrite Hi, Ho.
  split; [|done]. unfold set_witness. cbn [input]. 
  apply list_eq. intros i. rewrite !list_lookup_fmap. destruct (decide (i = index)) as [->|Hne];
    [rewrite list_lookup_alter_eq|rewrite list_lookup_alter_ne by done]; by destruct (input tx !! _).
Qed.

Lemma sign_transaction_error key tx spent y : sign_transaction key tx spent = Err y -> exists chain, y = Anyhow chain.
Proof.
  unfold sign_transaction. generalize 0%nat. revert tx. induction spent as [|u spent IH]; intros tx index; cbn [sign_inputs]; [done|].
  destruct (sign_p2wpkh _ _ _ _ _ _); [apply IH|]. intros [= <-]. eauto.
Qed.

Section Build.
Context (key : BtcPrivateKey) (rate : Z) (outputs : list TxOut) (total_output : Z) (selected : list Utxo) (total_input : Z).
Hypothesis sizes : forall tx, 0 <= vsize tx.
Hypothesis rate_ok : 0 <= rate.
Hypothesis output_ok : 0 <= total_output <= total_input.
Hypothesis input_ok : total_input < 2 ^ 64.

(** The change is what the assumed fee leaves. *)
Definition build_inv (s : bool * Z * Z) : Prop :=
  let '(include_change, change_value, assumed_fee) := s in
  0 <= assumed_fee <= total_input - total_output /\ change_value = total_input - total_output - assumed_fee /\
  include_change = (P2WPKH_DUST_LIMIT_SATS <=? change_value).

(** What the inner loop returns *)
Definition attempt_ok (a : Attempt) : Prop :=
  match a with
  | AttemptFailed y => exists chain, y = Anyhow chain
  | SelectMore required => total_input < required < 2 ^ 64
  | Signed tx fee change =>
      total_input = total_output + change + fee /\ vsize tx * rate <= fee /\ (change = 0 \/ P2WPKH_DUST_LIMIT_SATS <= change) /\
      previous_output <$> input tx = outpoint <$> selected /\
      output tx = outputs ++ (if 0 <? change then [mkTxOut change (new_p2wpkh (public_key key))] else [])
  end.

Lemma build_round_ok s :
  build_inv s ->
  match build_round key rate outputs total_output selected total_input s with
  | inl s' => build_inv s' /\ 0 <= total_input - total_output - s'.2 < total_input - total_output - s.2
  | inr a => attempt_ok a
  end.
Proof.
  destruct s as [[inc ch] assumed]. intros (Ha & Hch & Hinc). unfold build_round.
  destruct (sign_transaction _ _ _) as [signed|y] eqn:Hsign; [|by eapply sign_transaction_error].
  unfold checked_mul. destruct (vsize signed * rate <? 2 ^ 64) eqn:Hmul; [|by eexists].
  set (fee := vsize signed * rate) in *. assert (Hfee : 0 <= fee) by (pose proof (sizes signed); unfold fee; lia).
  unfold checked_add. destruct (total_output + fee <? 2 ^ 64) eqn:Hadd; [|by eexists]. reflect_bool.
  destruct (total_input <? total_output + fee) eqn:Hmore; reflect_bool; [cbn; lia|].
  set (new_change := total_input - total_output - fee).
  destruct ((assumed <? fee) && _) eqn:Hagain.
  - reflect_bool. cbn. split_and!; lia.
  - assert (Hle : fee <= assumed).
    { destruct (assumed <? fee) eqn:Hlt; reflect_bool; [|done]. cbn [andb] in Hagain. apply orb_false_iff in Hagain as [_ Heq].
      reflect_bool. unfold new_change in Heq. lia. }
    destruct (sign_inputs_frame _ _ _ _ _ _ _ Hsign) as [Hin Hout]. unfold draft in Hin, Hout. cbn [input output] in Hin, Hout.
    assert (Hprev : previous_output <$> input signed = outpoint <$> selected) by (rewrite Hin, <- list_fmap_compose; done).
    unfold checked_sub. rewrite (proj2 (Z.leb_le _ _)) by lia. cbn [mbind option_bind].
    unfold P2WPKH_DUST_LIMIT_SATS in *. destruct inc; symmetry in Hinc; reflect_bool.
    + rewrite (proj2 (Z.leb_le _ _)) by lia. cbn [attempt_ok]. rewrite (proj2 (Z.ltb_lt _ _)) by lia.
      split_and!; [lia|lia|right; unfold P2WPKH_DUST_LIMIT_SATS; lia|done|done].
    + rewrite (proj2 (Z.leb_le _ _)) by lia. cbn [attempt_ok]. split_and!; [lia|lia|by left|done|done].
Qed.

Lemma build_with_ends :
  exists a s, build_inv s /\ build_round key rate outputs total_output selected total_input s = inr a /\
    build_with key rate outputs total_output selected total_input = a.
Proof.
  unfold build_with. set (step := build_round _ _ _ _ _ _). set (ch := saturating_sub total_input total_output).
  assert (Hch : ch = total_input - total_output) by (unfold ch, saturating_sub; lia).
  destruct (iterate_ends step build_inv (fun s => total_input - total_output - s.2)) with (n := 64%nat)
    (s := (P2WPKH_DUST_LIMIT_SATS <=? ch, ch, 0)) as (a & s' & -> & Hs' & Hstep); [| | |by exists a, s'].
  - intros s s' Hs Hstep. pose proof (build_round_ok s Hs) as Hr. fold step in Hr. by rewrite Hstep in Hr.
  - cbn. split_and!; [lia|lia|lia|done].
  - cbn [snd]. change (2 ^ Z.of_nat 64) with (2 ^ 64). lia.
Qed.

Lemma build_with_ok : attempt_ok (build_with key rate outputs total_output selected total_input).
Proof.
  destruct build_with_ends as (a & s & Hs & Hstep & ->). pose proof (build_round_ok s Hs) as Hr. by rewrite Hstep in Hr.
Qed.

(** With a bound on the size, no attempt fails. *)
Lemma build_round_live limit s :
  (forall include_change change, exists signed,
     sign_transaction key (draft outputs selected (new_p2wpkh (public_key key)) include_change change) selected = Ok signed /\
     vsize signed * rate <= limit) ->
  total_output + limit < 2 ^ 64 -> build_inv s ->
  match build_round key rate outputs total_output selected total_input s with
  | inr (AttemptFailed _) => False
  | inr (SelectMore required) => required <= total_output + limit
  | _ => True
  end.
Proof.
  destruct s as [[inc ch] assumed]. intros Hsign Hlimit (Ha & Hch & Hinc). unfold build_round.
  destruct (Hsign inc ch) as (signed & -> & Hsize). pose proof (sizes signed).
  unfold checked_mul, checked_add, checked_sub. rewrite !(proj2 (Z.ltb_lt _ (2 ^ 64))) by lia.
  destruct (total_input <? _) eqn:Hmore; reflect_bool; [lia|]. destruct ((assumed <? _) && _); [done|].
  rewrite (proj2 (Z.leb_le total_output total_input)) by lia. cbn [mbind option_bind].
  rewrite (proj2 (Z.leb_le _ _)); [done|]. destruct inc; lia.
Qed.

Lemma build_with_live limit :
  (forall include_change change, exists signed,
     sign_transaction key (draft outputs selected (new_p2wpkh (public_key key)) include_change change) selected = Ok signed /\
     vsize signed * rate <= limit) ->
  total_output + limit < 2 ^ 64 ->
  match build_with key rate outputs total_output selected total_input with
  | AttemptFailed _ => False
  | SelectMore required => required <= total_output + limit
  | Signed _ _ _ => True
  end.
Proof.
  intros Hsign Hlimit. destruct build_with_ends as (a & s & Hs & Hstep & ->).
  pose proof (build_round_live limit s Hsign Hlimit Hs) as Hr. by rewrite Hstep in Hr.
Qed.

End Build.

(** What a transaction that was created is *)
Definition pays (w : W) (outputs : list TxOut) (total_output : Z) (c : CreatedTransaction) : Prop :=
  (exists n, spent_utxos c = take n (utxos w)) /\
  previous_output <$> input (transaction c) = outpoint <$> spent_utxos c /\
  (exists key address, active_address w = Some address /\ private_keys w !! address_to_string address = Some key /\
     change_address c = address /\
     output (transaction c) = outputs ++ (if 0 <? change_value c then [mkTxOut (change_value c) (new_p2wpkh (public_key key))] else [])) /\
  sum_values (spent_utxos c) = total_output + change_value c + fee_sat c /\
  vsize (transaction c) * sats_per_byte w <= fee_sat c /\
  (change_value c = 0 \/ P2WPKH_DUST_LIMIT_SATS <= change_value c) /\
  change c = (if 0 <? change_value c then Some (mkUtxo (change_outpoint_of c) (change_value c)) else None).

Lemma require_key_ok (w : W) key address :
  active_address w = Some address -> private_keys w !! address_to_string address = Some key ->
  require_active_private_key w = (Ok key, w) /\ require_active_address w = (Ok address, w).
Proof.
  intros Ha Hk. unfold require_active_private_key, require_active_address, sget, mbind, SR_bind.
  rewrite Ha. cbn. by rewrite Hk.
Qed.

Lemma require_key_run (w : W) :
  (exists key address, active_address w = Some address /\ private_keys w !! address_to_string address = Some key /\
     require_active_private_key w = (Ok key, w) /\ require_active_address w = (Ok address, w)) \/
  (exists chain, require_active_private_key w = (Err (Anyhow chain), w)).
Proof.
  unfold require_active_private_key, require_active_address, sget, mbind, SR_bind.
  destruct (active_address w) as [address|]; [|right; by eexists]. cbn.
  destruct (private_keys w !! address_to_string address) as [key|] eqn:Hkey; [|right; by eexists].
  left. exists key, address. done.
Qed.

Section Run.
Context (w : W) (outputs : list TxOut) (total_output : Z).
Hypothesis amounts : amounts_ok (utxos w).
Hypothesis total_ok : uint 64 total_output.
Hypothesis rate_ok : 0 <= sats_per_byte w.
Hypothesis sizes : forall tx, 0 <= vsize tx.

Lemma select_round_ok key address required :
  active_address w = Some address -> private_keys w !! address_to_string address = Some key ->
  total_output <= required < 2 ^ 64 ->
  match select_round w key address outputs total_output required with
  | inl required' => required < required' < 2 ^ 64
  | inr (Ok c) => pays w outputs total_output c
  | inr (Err y) => exists chain, y = Anyhow chain
  end.
Proof.
  intros Ha Hk Hreq. unfold uint in total_ok. unfold select_round, select_utxos.
  destruct (select_from required 0 0 (utxos w)) as [[[indices selected] total_input]|] eqn:Hsel; [|by eexists].
  destruct (select_from_spec _ _ _ _ _ _ _ Hsel amounts ltac:(lia)) as ([n ->] & Hsum & Hbound & _).
  destruct (total_input <? required) eqn:Hless; reflect_bool; [by eexists|].
  pose proof (build_with_ok key (sats_per_byte w) outputs total_output (take n (utxos w)) total_input sizes rate_ok
    ltac:(lia) ltac:(lia)) as Hok.
  destruct (build_with _ _ _ _ _ _) as [y|required'|signed fee ch]; cbn [attempt_ok] in Hok; [done|lia|].
  destruct Hok as (Hfee & Hsize & Hdust & Hin & Hout). unfold pays, created_from.
  cbn [spent_utxos transaction fee_sat change_value change change_address].
  split_and!; [by exists n|done| |lia|done|done|done]. exists key, address. done.
Qed.

(** The loop ends in a round of an amount that is possible. *)
Lemma select_ends key address limit :
  active_address w = Some address -> private_keys w !! address_to_string address = Some key ->
  total_output <= limit < 2 ^ 64 ->
  (forall required required', total_output <= required <= limit ->
     select_round w key address outputs total_output required = inl required' -> required' <= limit) ->
  exists r required, iterate 65 (select_round w key address outputs total_output) total_output = inr r /\
    total_output <= required <= limit /\ select_round w key address outputs total_output required = inr r.
Proof.
  intros Ha Hk Hlimit Hstays. unfold uint in total_ok.
  apply (iterate_ends _ (fun r => total_output <= r <= limit) (fun r => 2 ^ 64 - r)).
  - intros r r' Hr Hstep. pose proof (select_round_ok key address r Ha Hk ltac:(lia)) as Hok. pose proof (Hstays r r' Hr Hstep).
    rewrite Hstep in Hok. lia.
  - lia.
  - change (2 ^ Z.of_nat 65) with (2 * 2 ^ 64). lia.
Qed.

Lemma build_run :
  snd (build_transaction_with_outputs outputs total_output w) = w /\
  match fst (build_transaction_with_outputs outputs total_output w) with
  | Ok c => pays w outputs total_output c
  | Err y => exists chain, y = Anyhow chain
  end.
Proof.
  unfold build_transaction_with_outputs. unfold uint in total_ok.
  destruct (require_key_run w) as [(key & address & Ha & Hk & Hkey & Haddr)|[chain Hkey]];
    [|rewrite (SR_bind_err _ _ _ _ _ Hkey); by split; [|eexists]].
  rewrite (SR_bind_run _ _ _ _ _ Hkey), (SR_bind_run _ _ _ _ _ Haddr).
  destruct (negb (is_compressed (public_key key))); [by split; [|eexists]|].
  rewrite SR_bind_run with (a := w) (s' := w) by done.
  destruct (select_ends key address (2 ^ 64 - 1) Ha Hk ltac:(lia)) as (r & required & -> & Hreq & Hstep).
  - intros r r' Hr Hstep. pose proof (select_round_ok key address r Ha Hk ltac:(lia)) as Hok. rewrite Hstep in Hok. lia.
  - pose proof (select_round_ok key address required Ha Hk ltac:(lia)) as Hok. rewrite Hstep in Hok. destruct r; done.
Qed.

Lemma select_round_live key address limit required :
  active_address w = Some address -> private_keys w !! address_to_string address = Some key ->
  (forall n include_change change, exists signed,
     sign_transaction key (draft outputs (take n (utxos w)) (new_p2wpkh (public_key key)) include_change change) (take n (utxos w)) =
       Ok signed /\ vsize signed * sats_per_byte w <= limit) ->
  total_output + limit <= sum_values (utxos w) < 2 ^ 64 -> total_output <= required <= total_output + limit ->
  match select_round w key address outputs total_output required with
  | inl required' => required' <= total_output + limit
  | inr (Ok _) => True
  | inr (Err _) => False
  end.
Proof.
  intros Ha Hk Hsign Hfunds Hreq. unfold uint in total_ok. unfold select_round, select_utxos.
  destruct (select_from_total required 0 0 (utxos w) amounts ltac:(lia) ltac:(lia)) as [[[indices selected] total_input] Hsel].
  rewrite Hsel. destruct (select_from_spec _ _ _ _ _ _ _ Hsel amounts ltac:(lia)) as ([n ->] & Hsum & Hbound & Hall).
  destruct (total_input <? required) eqn:Hless; reflect_bool.
  { rewrite (Hall Hless) in Hsum. lia. }
  pose proof (build_with_live key (sats_per_byte w) outputs total_output (take n (utxos w)) total_input sizes rate_ok
    ltac:(lia) ltac:(lia) limit (Hsign n) ltac:(lia)) as Hok.
  by destruct (build_with _ _ _ _ _ _).
Qed.

End Run.

(** C27: a payment is exact.  Whatever the outputs of the wallet, making a transaction ends:
    it changes nothing of the wallet, and either fails with an error, or spends a
    beginning of the wallet's outputs, pays exactly the outputs asked for and the
    change to the wallet's own script, and balances: what is spent is what is paid,
    the change and the fee; the fee is at least the size of the signed transaction
    times the rate, and there is no change below the dust limit. *)
Theorem payment_exact (w : W) outputs total_output :
  amounts_ok (utxos w) -> uint 64 total_output -> 0 <= sats_per_byte w -> (forall tx, 0 <= vsize tx) ->
  let '(r, w') := build_transaction_with_outputs outputs total_output w in
  w' = w /\
  match r with
  | Ok c => pays w outputs total_output c
  | Err y => exists chain, y = Anyhow chain
  end.
Proof.
  intros Ha Ht Hr Hs. pose proof (build_run w outputs total_output Ha Ht Hr Hs) as Hb.
  by destruct (build_transaction_with_outputs outputs total_output w) as [r w'].
Qed.

(** C28: a payment that is funded is made.  With a key for the active address that is
    compressed, outputs in the wallet of at least the amount and a limit on the fee,
    and every attempt signed within that limit, a transaction is made. *)
Theorem funded_payment_made (w : W) outputs total_output key address limit :
  amounts_ok (utxos w) -> uint 64 total_output -> 0 <= sats_per_byte w -> (forall tx, 0 <= vsize tx) ->
  active_address w = Some address -> private_keys w !! address_to_string address = Some key ->
  is_compressed (public_key key) = true ->
  (forall n include_change change, exists signed,
     sign_transaction key (draft outputs (take n (utxos w)) (new_p2wpkh (public_key key)) include_change change) (take n (utxos w)) =
       Ok signed /\ vsize signed * sats_per_byte w <= limit) ->
  total_output + limit <= sum_values (utxos w) < 2 ^ 64 ->
  exists c, build_transaction_with_outputs outputs total_output w = (Ok c, w).
Proof.
  intros Hamounts Htotal Hrate Hsizes Ha Hk Hcomp Hsign Hfunds.
  assert (Hlimit : 0 <= limit).
  { destruct (Hsign 0%nat false 0) as (signed & _ & Hs). pose proof (Hsizes signed). nia. }
  unfold build_transaction_with_outputs. destruct (require_key_ok w key address Ha Hk) as [Hkey Haddr].
  rewrite (SR_bind_run _ _ _ _ _ Hkey), (SR_bind_run _ _ _ _ _ Haddr), Hcomp. cbn [negb].
  rewrite SR_bind_run with (a := w) (s' := w) by done.
  assert (Hlive := fun r => select_round_live w outputs total_output Hamounts Htotal Hrate Hsizes key address limit r Ha Hk Hsign Hfunds).
  unfold uint in Htotal.
  destruct (select_ends w outputs total_output Hamounts Htotal Hrate Hsizes key address (total_output + limit) Ha Hk ltac:(lia))
    as (r & required & -> & Hreq & Hstep).
  - intros r r' Hr Hstep. specialize (Hlive r Hr). by rewrite Hstep in Hlive.
  - specialize (Hlive required Hreq). rewrite Hstep in Hlive. destruct r as [c|]; [by exists c|done].
Qed.

End Payments.

(** A wallet of numbers: keys are numbers, a signature is a byte, and a node accepts all. *)
Module Sample.

Export WalletStore.Sample.

#[export] Instance crate : BitcoinCrate := {|
  BtcPrivateKey := Z;
  BtcPublicKey := Z;
  private_key_from_wif s := parse_uint 64 s;
  private_key_new l _ := foldl (fun acc b => acc * 256 + b) 0 l;
  key_on _ _ := true;
  public_key k := k;
  public_key_from_slice l := Some (foldl (fun acc b => acc * 256 + b) 0 l);
  is_compressed _ := true;
  p2wpkh k _ := hex_encode (be_bytes 20 k);
  new_p2wpkh k := 0 :: 20 :: be_bytes 20 k;
  x_only_public_key k := be_bytes 32 k;
  address_script a := match hex_decode a with Ok l => 0 :: 20 :: l | Err _ => [] end;
  is_key_hash_script l := bool_decide (length l = 22%nat);
  op_return_script l := Some (106 :: l);
  sign_p2wpkh k _ _ _ _ _ := Some [[k mod 256]; be_bytes 33 k];
  vsize tx := 10 + 68 * Z.of_nat (length (input tx)) + 31 * Z.of_nat (length (output tx));
  compute_txid tx :=
    be_bytes 32 (foldl (fun acc o => acc * 1000003 + out_value o)
      (foldl (fun acc i => acc * 1009 + default 0 (last (txid (previous_output i))) + vout (previous_output i)) 17 (input tx)) (output tx)
      mod 2 ^ 256)
|}.

#[export] Instance node : WalletNode unit := {|
  send_raw_transaction _ := mret (be_bytes 32 0);
  raw_transaction_hex _ _ := sfail (Anyhow ["no such transaction"]);
  random_secret e := (be_bytes 32 7, e);
  fetch_testnet_utxos _ := mret [];
  getnewaddress := mret "miner";
  generatetoaddress _ _ := mret tt;
  trusted_balance_sat := mret 0;
  sendtoaddress _ _ := sfail (Anyhow ["no funds"]);
  find_vout_for_address _ _ := sfail (Anyhow ["no such output"]);
  parse_block_hash _ := true
|}.

Definition key : Z := 4242.
Definition address : string := hex_encode (be_bytes 20 key).
Definition payee : bytes := 0 :: 20 :: be_bytes 20 99.

(** A wallet with a key and the outputs given *)
Definition wallet (l : list Utxo) : Wallet Db Db unit :=
  mkWallet Regtest {[address := key]} (Some address) l DEFAULT_SATS_PER_BYTE ∅ true ∅ ∅ DEFAULT_ENABLER_AMOUNT tt.

Definition coins : list Utxo := [mkUtxo (coin 1) 5000; mkUtxo (coin 2) 60000; mkUtxo (coin 3) 800].

End Sample.

Section Witnesses.
Import Sample.

(** Two outputs are selected; the fee is that of two inputs and two outputs. *)
Lemma payment_exact_witness :
  exists c, build_transaction_with_outputs [mkTxOut 20000 payee] 20000 (wallet coins) = (Ok c, wallet coins) /\
    spent_utxos c = take 2 coins /\ fee_sat c = 208 * 5 /\ pays (wallet coins) [mkTxOut 20000 payee] 20000 c.
Proof.
  pose proof (payment_exact (wallet coins) [mkTxOut 20000 payee] 20000) as Hp.
  assert (Hb : is_ok (fst (build_transaction_with_outputs [mkTxOut 20000 payee] 20000 (wallet coins))) = true) by (vm_compute; reflexivity).
  assert (Hf : (c ← fst (build_transaction_with_outputs [mkTxOut 20000 payee] 20000 (wallet coins)); Ok (spent_utxos c, fee_sat c)) =
    Ok (take 2 coins, 208 * 5)) by (vm_compute; reflexivity).
  destruct (build_transaction_with_outputs _ _ _) as [[c|y] w']; [|done]. injection Hf as Hs Hfee.
  destruct Hp as [-> Hp]; [by_decide|by_decide|by_decide|intros tx; cbn; lia|]. exists c. done.
Defined.

Lemma funded_payment_made_witness :
  exists c, build_transaction_with_outputs [mkTxOut 20000 payee] 20000 (wallet coins) = (Ok c, wallet coins).
Proof.
  apply (funded_payment_made (wallet coins) [mkTxOut 20000 payee] 20000 key address 1380);
    [by_decide|by_decide|by_decide|intros tx; cbn; lia|done|by_decide|done| |by_decide].
  intros n inc ch. change (utxos (wallet coins)) with coins. unfold coins.
  destruct n as [|[|[|n]]]; cbn [take]; rewrite ?take_nil; destruct inc; eexists; (split; [reflexivity|by_decide]).
Defined.

End Witnesses.
