(* ===== verification/WalletSpending.v ===== *)
(** * What the Bitcoin wallet spends (cli/bitcoin-wallet/src/wallet.rs, main.rs)

    The commands of the wallet keep an invariant: the outputs in memory and those the
    store has as available are spent by no pending transaction, and no two pending
    transactions have an input in common.  The stores and the node may fail at any
    point.  The invariant relies on three conditions that the code does not check, on the
    outputs that are registered, on the change of a new transaction and on replacements
    that fail; sessions that break it show that the last two are needed.  A payment made
    several times is one transaction. *)

From stdpp Require Import prelude gmap strings sorting relations.
From S2P Require Import Prelude Types Bitvmx Flow CoordinatorStore WalletStore Wallet.
Open Scope Z_scope.

(** ** What is spent *)

Section Spending.
Context `{BitcoinCrate, !UtxoStoreApi U, !UtxoStoreLaws U, !PendingStoreApi P, !WalletNode E}.
Abbreviation W := (Wallet U P E).

(** The outputs a transaction spends, as the wallet lists them and as it has them *)
Definition spends (c : CreatedTransaction) : list OutPoint := outpoint <$> spent_utxos c.
Definition inputs_of (c : CreatedTransaction) : list OutPoint := previous_output <$> input (transaction c).

Lemma iterate_last {S R} n (step : S -> S + R) s r : iterate n step s = inr r -> exists s', step s' = inr r.
Proof.
  revert s. induction n as [|n IH]; intros s; cbn [iterate]; [eauto|].
  destruct (iterate n step s) as [s'|r'] eqn:Hn; [apply IH|]. intros [= ->]. eauto.
Qed.

Lemma select_from_prefix required total index l indices selected total' :
  select_from required total index l = Some (indices, selected, total') -> exists n, selected = take n l.
Proof.
  revert total index indices selected total'. induction l as [|u l IH]; intros total index indices selected total'; cbn [select_from].
  - intros [= _ <- _]. by exists 0%nat.
  - destruct (checked_add 64 total (value_sat u)) as [t|]; [|done]. destruct (required <=? t).
    + intros [= _ <- _]. by exists 1%nat.
    + destruct (select_from required t _ l) as [[[ixs sel] t']|] eqn:Hrest; [|done]. intros [= _ <- _].
      destruct (IH _ _ _ _ _ Hrest) as [n ->]. by exists (S n).
Qed.

Lemma build_with_inputs key rate outputs total_output selected total_input tx fee ch :
  build_with key rate outputs total_output selected total_input = Signed tx fee ch ->
  previous_output <$> input tx = outpoint <$> selected.
Proof.
  unfold build_with. destruct (iterate 64 _ _) as [|a] eqn:Hit; [done|]. intros ->.
  destruct (iterate_last _ _ _ _ Hit) as [[[inc ch'] assumed] Hstep]. unfold build_round in Hstep.
  destruct (sign_transaction _ _ _) as [signed|] eqn:Hsign; [|done]. 
  assert (signed = tx) as <- by (repeat case_match; congruence).
  destruct (sign_inputs_frame _ _ _ _ _ _ _ Hsign) as [-> _]. unfold draft. cbn [input]. by rewrite <- list_fmap_compose.
Qed.

(** Making a transaction changes nothing and takes outputs that the wallet has. *)
Lemma build_frame outputs total_output (w : W) r w' :
  build_transaction_with_outputs outputs total_output w = (r, w') ->
  w' = w /\ forall c, r = Ok c -> (exists n, spent_utxos c = take n (utxos w)) /\ inputs_of c = spends c.
Proof.
  unfold build_transaction_with_outputs.
  destruct (require_key_run w) as [(key & address & Ha & Hk & Hkey & Haddr)|[chain Hkey]];
    [|rewrite (SR_bind_err _ _ _ _ _ Hkey); by intros [= <- <-]].
  rewrite (SR_bind_run _ _ _ _ _ Hkey), (SR_bind_run _ _ _ _ _ Haddr).
  destruct (negb (is_compressed (public_key key))); [by intros [= <- <-]|].
  rewrite SR_bind_run with (a := w) (s' := w) by done.
  destruct (iterate 65 _ _) as [|r'] eqn:Hit; [by intros [= <- <-]|]. intros [= <- <-]. split; [done|]. intros c ->.
  destruct (iterate_last _ _ _ _ Hit) as [required Hstep]. unfold select_round, select_utxos in Hstep.
  destruct (select_from _ _ _ _) as [[[indices selected] total]|] eqn:Hsel; [|done].
  destruct (total <? required); [done|]. destruct (build_with _ _ _ _ _ _) eqn:Hbuild; try done.
  injection Hstep as <-. split; [by eapply select_from_prefix|]. by eapply build_with_inputs.
Qed.

Lemma create_once_frame scripts amount (w : W) r w' :
  create_transaction_once scripts amount w = (r, w') ->
  w' = w /\ forall c, r = Ok c -> (exists n, spent_utxos c = take n (utxos w)) /\ inputs_of c = spends c.
Proof.
  unfold create_transaction_once. case_bool_decide; [by intros [= <- <-]|].
  destruct (checked_mul 64 amount _); [apply build_frame|by intros [= <- <-]].
Qed.

(** The transactions of a repeated payment are the same. *)
Lemma create_times_same scripts amount count (w : W) r w' :
  create_times scripts amount count w = (r, w') ->
  w' = w /\ forall l, r = Ok l -> length l = count /\ forall c, c ∈ l -> create_transaction_once scripts amount w = (Ok c, w).
Proof.
  revert r w'. induction count as [|count IH]; intros r w'; cbn [create_times].
  - intros [= <- <-]. split; [done|]. intros l [= <-]. split; [done|]. intros c Hc. by apply elem_of_nil in Hc.
  - destruct (create_transaction_once scripts amount w) as [[c|y] w1] eqn:Honce.
    + destruct (create_once_frame _ _ _ _ _ Honce) as [-> _]. rewrite (SR_bind_run _ _ _ _ _ Honce).
      destruct (create_times scripts amount count w) as [[l|y] w1] eqn:Hrest; destruct (IH _ _ eq_refl) as [-> Hl].
      * rewrite (SR_bind_run _ _ _ _ _ Hrest). intros [= <- <-]. split; [done|]. intros l' [= <-].
        destruct (Hl l eq_refl) as [Hlen Hsame]. split; [cbn; lia|]. intros c' [->|Hc']%elem_of_cons; [done|]. auto.
      * rewrite (SR_bind_err _ _ _ _ _ Hrest). by intros [= <- <-].
    + destruct (create_once_frame _ _ _ _ _ Honce) as [-> _]. rewrite (SR_bind_err _ _ _ _ _ Honce). by intros [= <- <-].
Qed.

Lemma create_transactions_same scripts amount count (w : W) r w' :
  create_transactions scripts amount count w = (r, w') ->
  w' = w /\ forall l, r = Ok l -> length l = count /\ forall c, c ∈ l -> create_transaction_once scripts amount w = (Ok c, w).
Proof.
  unfold create_transactions. do 2 (case_bool_decide; [by intros [= <- <-]|]).
  destruct (require_key_run w) as [(key & address & _ & _ & Hkey & _)|[chain Hkey]].
  - rewrite (SR_bind_run _ _ _ _ _ Hkey). apply create_times_same.
  - rewrite (SR_bind_err _ _ _ _ _ Hkey). by intros [= <- <-].
Qed.

Lemma create_pegin_frame v n a rsk enabler (w : W) r w' :
  create_pegin_transaction v n a rsk enabler w = (r, w') ->
  w' = w /\ forall c, r = Ok c -> (exists n, spent_utxos c = take n (utxos w)) /\ inputs_of c = spends c.
Proof.
  unfold create_pegin_transaction.
  destruct (require_key_run w) as [(key & address & _ & _ & Hkey & _)|[chain Hkey]];
    [|rewrite (SR_bind_err _ _ _ _ _ Hkey); by intros [= <- <-]].
  rewrite (SR_bind_run _ _ _ _ _ Hkey), SR_bind_run with (a := w) (s' := w) by done.
  destruct (address_from_str a) as [dest|]; [|by intros [= <- <-]].
  rewrite SR_bind_run with (a := dest) (s' := w) by done.
  destruct (require_network (network w) dest) as [checked|]; [|by intros [= <- <-]].
  rewrite SR_bind_run with (a := checked) (s' := w) by done.
  destruct (bytes_from_hex (trim_0x rsk)) as [rb|]; [|by intros [= <- <-]].
  rewrite SR_bind_run with (a := rb) (s' := w) by done. case_bool_decide; [|by intros [= <- <-]]. cbn [negb].
  destruct (bytes_from_hex (trim_0x enabler)) as [eb|]; [|by intros [= <- <-]].
  rewrite SR_bind_run with (a := eb) (s' := w) by done.
  destruct (op_return_script _) as [script|]; [|by intros [= <- <-]].
  rewrite SR_bind_run with (a := script) (s' := w) by done. apply build_frame.
Qed.

(** *** The state of the outputs *)

Abbreviation Pending := (gmap bytes CreatedTransaction).

Definition txid_of (c : CreatedTransaction) : bytes := compute_txid (transaction c).

(** No pending transaction spends the output. *)
Definition unspent (pend : Pending) (o : OutPoint) : Prop := forall t c, pend !! t = Some c -> o ∉ spends c.

(** The outputs in memory are spent by no pending transaction, and those in the store
    that one spends are marked. *)
Record consistent (pend : Pending) (w : W) (m : gmap OutPoint StoredUtxo) : Prop := {
  cs_holds : holds (utxo_db w) m;
  cs_keys : forall o, is_Some (m !! o) -> outpoint_ok o;
  cs_memory : forall u, u ∈ utxos w -> outpoint_ok (outpoint u) /\ unspent pend (outpoint u);
  cs_store : forall o s, m !! o = Some s -> s_state s = Available -> unspent pend o
}.

Definition safe_with (pend : Pending) (w : W) : Prop := exists m, consistent pend w m.

Definition disjoint_pending (pend : Pending) : Prop :=
  forall t t' c c' o, pend !! t = Some c -> pend !! t' = Some c' -> o ∈ spends c -> o ∈ spends c' -> t = t'.

Definition pending_wf (pend : Pending) : Prop :=
  forall t c, pend !! t = Some c ->
    t = txid_of c /\ inputs_of c = spends c /\ Forall outpoint_ok (spends c) /\
    (0 < change_value c -> outpoint_ok (change_outpoint_of c)).

Definition wallet_ok (w : W) : Prop :=
  safe_with (pending_transactions w) w /\ disjoint_pending (pending_transactions w) /\ pending_wf (pending_transactions w).

Lemma unspent_weaken pend pend' o : pend' ⊆ pend -> unspent pend o -> unspent pend' o.
Proof. intros Hsub Ho t c Hc. eapply Ho, lookup_weaken; done. Qed.

Lemma safe_weaken pend pend' w : pend' ⊆ pend -> safe_with pend w -> safe_with pend' w.
Proof.
  intros Hsub (m & [Hh Hk Hm Hs]). exists m. split; [done|done| |].
  - intros u Hu. destruct (Hm u Hu). eauto using unspent_weaken.
  - eauto using unspent_weaken.
Qed.

(** Only the store and the outputs in memory matter. *)
Lemma safe_with_same pend w w' : utxo_db w' = utxo_db w -> utxos w' = utxos w -> safe_with pend w -> safe_with pend w'.
Proof. intros Hdb Hu (m & [Hh Hk Hm Hs]). exists m. split; [by rewrite Hdb|done|by rewrite Hu|done]. Qed.

Lemma safe_utxos pend l w :
  safe_with pend w -> (forall u, u ∈ l -> outpoint_ok (outpoint u) /\ unspent pend (outpoint u)) -> safe_with pend (set_utxos l w).
Proof. intros (m & [Hh Hk Hm Hs]) Hl. by exists m. Qed.

Lemma safe_fewer pend l w : safe_with pend w -> (forall u, u ∈ l -> u ∈ utxos w) -> safe_with pend (set_utxos l w).
Proof. intros Hw Hl. apply safe_utxos; [done|]. destruct Hw as (m & [_ _ Hm _]). auto. Qed.

(** A run keeps the outputs safe for [pend], and the pending transactions as they are;
    if it ends well, [Q] holds. *)
Definition runs {A : Type} (pend : Pending) (m : SR W failure A) (Q : A -> W -> Prop) (w : W) : Prop :=
  let '(r, w') := m w in
  safe_with pend w' /\ pending_transactions w' = pending_transactions w /\ forall a, r = Ok a -> Q a w'.

Lemma runs_bind {A B : Type} pend (m : SR W failure A) (f : A -> SR W failure B) Q w :
  runs pend m (fun a w' => safe_with pend w' -> pending_transactions w' = pending_transactions w -> runs pend (f a) Q w') w ->
  runs pend (m ≫= f) Q w.
Proof.
  unfold runs, mbind, SR_bind. destruct (m w) as [[a|y] w1]; [|by intros (? & ? & _)]. intros (Hs & Hp & HQ).
  specialize (HQ a eq_refl Hs Hp). destruct (f a w1) as [r w2]. by rewrite <- Hp.
Qed.

Lemma runs_mono {A : Type} pend (m : SR W failure A) (Q Q' : A -> W -> Prop) w :
  runs pend m Q w -> (forall a w', Q a w' -> Q' a w') -> runs pend m Q' w.
Proof. unfold runs. destruct (m w). intros (? & ? & ?) HQ. split_and!; auto. Qed.

Lemma runs_ret {A : Type} pend (a : A) (Q : A -> W -> Prop) w : safe_with pend w -> Q a w -> runs pend (mret a) Q w.
Proof. intros Hw HQ. split_and!; [done|done|]. by intros ? [= <-]. Qed.

Lemma runs_fail {A : Type} pend y (Q : A -> W -> Prop) w : safe_with pend w -> runs pend (sfail y) Q w.
Proof. intros Hw. split_and!; [done|done|]. by intros ? [=]. Qed.

Lemma runs_get pend (Q : W -> W -> Prop) w : safe_with pend w -> Q w w -> runs pend sget Q w.
Proof. intros Hw HQ. split_and!; [done|done|]. by intros ? [= <-]. Qed.

Lemma runs_opt {A : Type} pend msg (o : option A) (Q : A -> W -> Prop) w :
  safe_with pend w -> (forall a, o = Some a -> Q a w) -> runs pend (opt_context msg o) Q w.
Proof. intros Hw HQ. destruct o; [by apply runs_ret; auto|by apply runs_fail]. Qed.

Lemma runs_modify pend f (Q : unit -> W -> Prop) w :
  safe_with pend (f w) -> pending_transactions (f w) = pending_transactions w -> Q tt (f w) -> runs pend (smodify f) Q w.
Proof. intros Hw Hp HQ. split_and!; [done|done|]. by intros ? [= <-]. Qed.

Lemma runs_node {A : Type} pend (m : SR E failure A) (Q : A -> W -> Prop) w :
  safe_with pend w ->
  (forall a e w', m (wallet_env w) = (Ok a, e) -> utxos w' = utxos w -> Q a w') -> runs pend (on_node m) Q w.
Proof.
  intros Hw HQ. unfold runs, on_node, zoom. destruct (m (wallet_env w)) as [r e] eqn:Hm.
  split_and!; [by apply (safe_with_same pend w)|done|]. intros a ->. by eapply HQ.
Qed.

Lemma runs_context {A : Type} pend msg (m : SR W failure A) Q w : runs pend m Q w -> runs pend (context msg m) Q w.
Proof. unfold runs, context. destruct (m w) as [[a|[]] w1]; intros (? & ? & HQ); split_and!; try done; by intros ? [=]. Qed.

Lemma runs_for_each {X : Type} pend (f : X -> SR W failure unit) l w :
  (forall x w, x ∈ l -> safe_with pend w -> runs pend (f x) (fun _ _ => True) w) -> safe_with pend w ->
  runs pend (for_each f l) (fun _ _ => True) w.
Proof.
  revert w. induction l as [|x l IH]; intros w Hf Hw; cbn [for_each]; [by apply runs_ret|]. apply runs_bind.
  eapply runs_mono; [apply Hf; [left|done]|]. intros [] w' _ Hw' _. apply IH; [|done]. intros y w2 Hy. apply Hf. by right.
Qed.

(** *** The store *)

Lemma runs_utxos {A : Type} pend (op : SR U failure A) (Q : A -> W -> Prop) w :
  safe_with pend w ->
  (forall m r u, holds (utxo_db w) m -> (forall o, is_Some (m !! o) -> outpoint_ok o) -> op (utxo_db w) = (r, u) ->
     (forall o s, m !! o = Some s -> s_state s = Available -> unspent pend o) ->
     exists m', holds u m' /\ (forall o, is_Some (m' !! o) -> outpoint_ok o) /\
       (forall o s, m' !! o = Some s -> s_state s = Available -> unspent pend o) /\
       forall a w', r = Ok a -> utxos w' = utxos w -> Q a w') ->
  runs pend (on_utxos op) Q w.
Proof.
  intros (m & [Hh Hk Hm Hs]) Hop. unfold runs, on_utxos, zoom. destruct (op (utxo_db w)) as [r u] eqn:Hr.
  destruct (Hop m r u Hh Hk eq_refl Hs) as (m' & Hh' & Hk' & Hs' & HQ). split_and!; [by exists m'|done|]. eauto.
Qed.

Lemma runs_mark pend st o (Q : unit -> W -> Prop) w :
  outpoint_ok o -> safe_with pend w -> (st = Available -> unspent pend o) -> (forall w', utxos w' = utxos w -> Q tt w') ->
  runs pend (on_utxos (us_mark st o)) Q w.
Proof.
  intros Ho Hw Hst HQ. apply runs_utxos; [done|]. intros m r u Hh Hk Hr Hs. pose proof (us_mark_law _ _ _ _ _ _ Hh Ho Hr) as Hlaw.
  destruct (is_ok r) eqn:Hok; [|exists m; split_and!; [done..|]; intros [] ? ->; done].
  destruct Hlaw as (s & Hm & Hh'). exists (<[o := set_state st s]> m). split_and!; [done| | |by intros [] w' _; apply HQ].
  - intros o' [s' Ho']. apply lookup_insert_Some in Ho' as [[<- _]|[_ Ho']]; eauto.
  - intros o' s' Ho' Hav. apply lookup_insert_Some in Ho' as [[<- <-]|[_ Ho']]; eauto.
Qed.

Lemma runs_insert pend o v a (Q : unit -> W -> Prop) w :
  outpoint_ok o -> safe_with pend w -> unspent pend o -> (forall w', utxos w' = utxos w -> Q tt w') ->
  runs pend (on_utxos (us_insert o v a)) Q w.
Proof.
  intros Ho Hw Hun HQ. apply runs_utxos; [done|]. intros m r u Hh Hk Hr Hs. pose proof (us_insert_law _ _ _ _ _ _ _ Hh Ho Hr) as Hlaw.
  destruct (is_ok r) eqn:Hok; [|exists m; split_and!; [done..|]; intros [] ? ->; done].
  destruct Hlaw as (ts & Hh'). eexists. split_and!; [done| | |by intros [] w' _; apply HQ].
  - intros o' [s' Ho']. apply lookup_insert_Some in Ho' as [[<- _]|[_ Ho']]; eauto.
  - intros o' s' Ho' Hav. apply lookup_insert_Some in Ho' as [[<- _]|[_ Ho']]; eauto.
Qed.

Lemma runs_remove pend o (Q : unit -> W -> Prop) w :
  outpoint_ok o -> safe_with pend w -> (forall w', utxos w' = utxos w -> Q tt w') -> runs pend (on_utxos (us_remove o)) Q w.
Proof.
  intros Ho Hw HQ. apply runs_utxos; [done|]. intros m r u Hh Hk Hr Hs. pose proof (us_remove_law _ _ _ _ _ Hh Ho Hr) as Hlaw.
  destruct (is_ok r) eqn:Hok; [|exists m; split_and!; [done..|]; intros [] ? ->; done].
  eexists. split_and!; [done| | |by intros [] w' _; apply HQ].
  - intros o' [s' Ho']. apply lookup_delete_Some in Ho' as [_ Ho']; eauto.
  - intros o' s' Ho' Hav. apply lookup_delete_Some in Ho' as [_ Ho']; eauto.
Qed.

(** The records that are loaded are safe to use when they are available. *)
Lemma runs_load pend a w :
  safe_with pend w ->
  runs pend (on_utxos (us_load_by_address a)) (fun l w' => utxos w' = utxos w /\ forall x, x ∈ l -> outpoint_ok x.1 /\
    (s_state x.2 = Available -> unspent pend x.1)) w.
Proof.
  intros Hw. apply runs_utxos; [done|]. intros m r u Hh Hk Hr Hs.
  destruct (us_load_by_address_law _ _ _ _ _ Hh Hr) as [Hh' Hl]. exists m. split_and!; [done..|].
  intros l w' -> Hu. split; [done|]. intros [o s] Hx. rewrite (Hl l eq_refl) in Hx.
  apply list_elem_of_filter in Hx as [_ Hx]. apply elem_of_map_to_list in Hx. cbn. eauto.
Qed.

Lemma runs_contains pend o w : outpoint_ok o -> safe_with pend w -> runs pend (on_utxos (us_contains o)) (fun _ w' => utxos w' = utxos w) w.
Proof.
  intros Ho Hw. apply runs_utxos; [done|]. intros m r u Hh Hk Hr Hs.
  destruct (us_contains_law _ _ _ _ _ Hh Ho Hr) as [Hh' _]. by exists m.
Qed.

Lemma runs_clear pend w : safe_with pend w -> runs pend (on_utxos us_clear) (fun _ _ => True) w.
Proof.
  intros Hw. apply runs_utxos; [done|]. intros m r u Hh Hk Hr Hs. pose proof (us_clear_law _ _ _ _ Hh Hr) as Hlaw.
  assert (exists m', m' ⊆ m /\ holds u m') as (m' & Hsub & Hh').
  { destruct (is_ok r); [|done]. exists ∅. split; [apply map_empty_subseteq|done]. }
  exists m'. split_and!; [done| |by eauto using lookup_weaken|done].
  intros o [s Ho]. eauto using lookup_weaken.
Qed.

(** *** Operations that leave the pending transactions alone *)

Lemma runs_address pend w : safe_with pend w -> runs pend require_active_address (fun _ w' => w' = w) w.
Proof.
  intros Hw. unfold require_active_address. apply runs_bind, runs_get; [done|]. intros _ _.
  destruct (active_address w); [by apply runs_ret|by apply runs_fail].
Qed.

Lemma runs_key pend w : safe_with pend w -> runs pend require_active_private_key (fun _ w' => w' = w) w.
Proof.
  intros Hw. apply runs_bind. eapply runs_mono; [by apply runs_address|]. intros a ? -> _ _. apply runs_bind, runs_get; [done|].
  intros _ _. destruct (private_keys w !! _); [by apply runs_ret|by apply runs_fail].
Qed.

Lemma runs_reload pend w : safe_with pend w -> runs pend reload_active_utxos (fun _ _ => True) w.
Proof.
  intros Hw. apply runs_bind, runs_get; [done|]. intros _ _. destruct (active_address w) as [a|].
  - apply runs_bind. eapply runs_mono; [by apply runs_load|]. intros l w1 [_ Hl] Hw1 _. apply runs_modify; [|done..].
    apply safe_utxos; [done|]. intros u ([o s] & -> & [Hav Hx]%list_elem_of_filter)%list_elem_of_fmap.
    destruct (Hl _ Hx). cbn in *. auto.
  - apply runs_modify; [|done..]. apply safe_utxos; [done|]. intros u Hu. by apply elem_of_nil in Hu.
Qed.

Lemma runs_keys pend keys active w (Q : unit -> W -> Prop) :
  safe_with pend w -> Q tt (set_keys keys active w) -> runs pend (smodify (set_keys keys active)) Q w.
Proof. intros Hw HQ. apply runs_modify; [by apply (safe_with_same pend w)|done..]. Qed.

Lemma runs_import pend wif w : safe_with pend w -> runs pend (import_private_key wif) (fun _ _ => True) w.
Proof.
  intros Hw. apply runs_bind, runs_opt; [done|]. intros key _ _ _. apply runs_bind, runs_get; [done|]. intros _ _.
  repeat (case_match; [by apply runs_fail|]). apply runs_bind, runs_keys; [done|]. intros Hw1 _.
  apply runs_bind. eapply runs_mono; [by apply runs_reload|]. intros [] w2 _ Hw2 _. by apply runs_ret.
Qed.

Lemma runs_generate pend w : safe_with pend w -> runs pend generate_address (fun _ _ => True) w.
Proof.
  intros Hw. apply runs_bind, runs_node; [done|]. intros secret _ w1 _ _ Hw1 _. apply runs_bind, runs_get; [done|]. intros _ _.
  cbv zeta. destruct (is_compressed _); cbn [negb]; [|by apply runs_fail]. apply runs_bind, runs_keys; [done|]. intros Hw2 _.
  apply runs_bind. eapply runs_mono; [by apply runs_reload|]. intros [] w3 _ Hw3 _. by apply runs_ret.
Qed.

Lemma runs_switch pend a w : safe_with pend w -> runs pend (switch_active_address a) (fun _ _ => True) w.
Proof.
  intros Hw. apply runs_bind, runs_get; [done|]. intros _ _. case_match; [by apply runs_fail|].
  apply runs_bind, runs_keys; [done|]. intros Hw1 _. by apply runs_reload.
Qed.

Lemma runs_register pend o v w :
  outpoint_ok o -> unspent pend o -> safe_with pend w -> runs pend (register_utxo o v) (fun _ _ => True) w.
Proof.
  intros Ho Hun Hw. apply runs_bind. eapply runs_mono; [by apply runs_address|]. intros a ? -> _ _.
  apply runs_bind. eapply runs_mono; [by apply runs_key|]. intros key ? -> _ _. apply runs_bind, runs_get; [done|]. intros _ _.
  case_match; [by apply runs_fail|]. apply runs_bind. eapply runs_mono; [by apply runs_contains|]. intros known w1 _ Hw1 _.
  destruct known; [by apply runs_fail|]. apply runs_bind, runs_insert; [done..|]. intros w2 _ Hw2 _. apply runs_modify; [|done..].
  apply safe_utxos; [done|]. intros u [Hu|Hu]%elem_of_app; [|apply list_elem_of_singleton in Hu as ->; by split].
  destruct Hw2 as (m & [_ _ Hm _]). auto.
Qed.

Lemma runs_clear_db pend w : safe_with pend w -> runs pend clear_db (fun _ _ => True) w.
Proof.
  intros Hw. apply runs_bind. eapply runs_mono; [by apply runs_clear|]. intros [] w1 _ Hw1 _. apply runs_modify; [|done..].
  apply safe_fewer; [done|]. intros u Hu. by apply elem_of_nil in Hu.
Qed.

Lemma runs_clear_active pend w : safe_with pend w -> runs pend clear_active_address_utxos (fun _ _ => True) w.
Proof.
  intros Hw. apply runs_bind, runs_get; [done|]. intros _ _. destruct (active_address w) as [a|]; [|by apply runs_ret].
  apply runs_bind. eapply runs_mono; [by apply runs_load|]. intros l w1 [_ Hl] Hw1 _.
  apply runs_bind. eapply runs_mono; [apply runs_for_each; [|done]|].
  - intros [o s] w2 Hx Hw2. apply runs_remove; [apply (Hl _ Hx)|done..].
  - intros [] w2 _ Hw2 _. apply runs_bind. eapply runs_mono; [by apply runs_reload|]. intros [] w3 _ Hw3 _. by apply runs_ret.
Qed.

Lemma runs_fetch pend t h n w : safe_with pend w -> runs pend (fetch_utxo_amount t h n) (fun _ _ => True) w.
Proof.
  intros Hw. apply runs_bind, runs_get; [done|]. intros _ _. case_match; [by apply runs_fail|].
  apply runs_bind, runs_context, runs_node; [done|]. intros hex _ w1 _ _ Hw1 _.
  do 3 (apply runs_bind, runs_opt; [done|]; intros ? _ _ _). by apply runs_ret.
Qed.

Lemma runs_mine_output pend v w : safe_with pend w -> runs pend (mine_output v) (fun _ _ => True) w.
Proof.
  intros Hw. apply runs_bind. eapply runs_mono; [by apply runs_address|]. intros a ? -> _ _.
  apply runs_bind, runs_context, runs_node; [done|]. intros miner _ w1 _ _ Hw1 _.
  apply runs_bind, runs_node; [done|]. intros balance _ w2 _ _ Hw2 _.
  apply runs_bind. apply (runs_mono _ _ (fun _ _ => True)).
  { case_match; [|by apply runs_ret]. by apply runs_context, runs_node. }
  intros [] w3 _ Hw3 _. apply runs_bind, runs_context, runs_node; [done|]. intros h e w4 _ _ Hw4 _.
  apply runs_bind, runs_context, runs_node; [done|]. intros [] _ w5 _ _ Hw5 _.
  apply runs_bind, runs_opt; [done|]. intros t Ht _ _.
  apply runs_bind, runs_context, runs_node; [done|]. intros n e' w6 _ _ Hw6 _. by apply runs_ret.
Qed.

(** The result of a run, for what comes next *)
Lemma runs_result {A : Type} pend (m : SR W failure A) (Q : A -> W -> Prop) w :
  runs pend m Q w -> runs pend m (fun a w' => m w = (Ok a, w')) w.
Proof. unfold runs. destruct (m w) as [r w']. intros (? & ? & _). split_and!; [done|done|]. by intros a ->. Qed.

Lemma runs_mine pend v w :
  (forall o w', mine_output v w = (Ok o, w') -> outpoint_ok o /\ unspent pend o) ->
  safe_with pend w -> runs pend (mine_utxo v) (fun _ _ => True) w.
Proof.
  intros Hnode Hw. apply runs_bind. eapply runs_mono; [by eapply runs_result, runs_mine_output|].
  intros o w1 Ho Hw1 _. destruct (Hnode o w1 Ho). apply runs_bind. eapply runs_mono; [by apply runs_fetch|].
  intros amount w2 _ Hw2 _. by apply runs_register.
Qed.

Lemma runs_auto pend w :
  (forall a l e u t, active_address w = Some a -> fetch_testnet_utxos (address_to_string a) (wallet_env w) = (Ok l, e) ->
     u ∈ filter_confirmed_utxos l -> parse_txid (bu_txid u) = Some t ->
     outpoint_ok (mkOutPoint t (bu_vout u)) /\ unspent pend (mkOutPoint t (bu_vout u))) ->
  safe_with pend w -> runs pend register_utxos_auto (fun _ _ => True) w.
Proof.
  intros Hnode Hw. apply runs_bind. unfold require_active_address. apply runs_bind, runs_get; [done|]. intros _ _.
  destruct (active_address w) as [a|]; [apply runs_ret; [done|]; intros _ _|by apply runs_fail].
  apply runs_bind, runs_node; [done|]. intros l e w1 Hl _ Hw1 _.
  apply runs_bind. eapply runs_mono; [by apply runs_clear_active|]. intros k w2 _ Hw2 _.
  apply runs_for_each; [|done]. intros u w3 Hu Hw3. unfold register_listed.
  apply runs_bind, runs_opt; [done|]. intros h _ _ _. apply runs_bind, runs_opt; [done|]. intros t Ht _ _.
  case_match; [by apply runs_fail|]. destruct (Hnode _ _ _ _ _ eq_refl Hl Hu Ht). by apply runs_register.
Qed.

Lemma runs_pending {A : Type} pend (m : SR P failure A) (Q : A -> W -> Prop) w :
  safe_with pend w -> (forall a w', utxos w' = utxos w -> Q a w') -> runs pend (on_pending m) Q w.
Proof.
  intros Hw HQ. unfold runs, on_pending, zoom. destruct (m (pending_db w)) as [r p].
  split_and!; [by apply (safe_with_same pend w)|done|]. intros a ->. by apply HQ.
Qed.

Lemma runs_elim {A : Type} pend (m : SR W failure A) Q w r w' :
  runs pend m Q w -> m w = (r, w') ->
  safe_with pend w' /\ pending_transactions w' = pending_transactions w /\ forall a, r = Ok a -> Q a w'.
Proof. unfold runs. intros Hr Heq. by rewrite Heq in Hr. Qed.

(** *** Sending a transaction *)

(** The transaction spends what no other pending one does. *)
Definition sendable (pend : Pending) (c : CreatedTransaction) : Prop :=
  inputs_of c = spends c /\ Forall outpoint_ok (spends c) /\
  forall t c' o, pend !! t = Some c' -> t <> txid_of c -> o ∈ spends c -> o ∉ spends c'.

(** Its change is an output that neither a pending transaction nor the transaction itself spends. *)
Definition fresh (pend : Pending) (c : CreatedTransaction) : Prop :=
  0 < change_value c ->
  outpoint_ok (change_outpoint_of c) /\ unspent pend (change_outpoint_of c) /\ change_outpoint_of c ∉ spends c.

Definition marked (pend : Pending) (l : list OutPoint) (w : W) : Prop :=
  exists m, consistent pend w m /\ forall o s, o ∈ l -> m !! o = Some s -> s_state s = SpentUnconfirmed.

Lemma mark_one pend l o w r w' :
  outpoint_ok o -> marked pend l w -> on_utxos (us_mark SpentUnconfirmed o) w = (r, w') ->
  utxos w' = utxos w /\ pending_transactions w' = pending_transactions w /\ marked pend l w' /\
  (is_ok r = true -> marked pend (o :: l) w').
Proof.
  intros Ho (m & [Hh Hk Hm Hs] & Hl). unfold on_utxos, zoom.
  destruct (us_mark SpentUnconfirmed o (utxo_db w)) as [r' u] eqn:Hr. intros [= -> <-]. split; [done|]. split; [done|].
  pose proof (us_mark_law _ _ _ _ _ _ Hh Ho Hr) as Hlaw. destruct (is_ok r); [|split; [by exists m|done]].
  destruct Hlaw as (s & Hms & Hh').
  assert (Hc : marked pend (o :: l) (set_utxo_db u w)).
  { exists (<[o := set_state SpentUnconfirmed s]> m). split; [split; [done| |done|]|].
    - intros o' [s' Ho']. apply lookup_insert_Some in Ho' as [[<- _]|[_ Ho']]; eauto.
    - intros o' s' Ho' Hav. apply lookup_insert_Some in Ho' as [[<- <-]|[_ Ho']]; [done|eauto].
    - intros o' s' Hin Ho'. apply lookup_insert_Some in Ho' as [[<- <-]|[Hne Ho']]; [done|].
      apply elem_of_cons in Hin as [->|Hin]; [done|eauto]. }
  split; [|done]. destruct Hc as (m' & Hc & Hl'). exists m'. split; [done|]. intros o' s' Hin. apply Hl'. by right.
Qed.

Lemma mark_all pend l us w r w' :
  Forall (fun u => outpoint_ok (outpoint u)) us -> marked pend l w ->
  for_each (fun u => on_utxos (us_mark SpentUnconfirmed (outpoint u))) us w = (r, w') ->
  utxos w' = utxos w /\ pending_transactions w' = pending_transactions w /\ safe_with pend w' /\
  (is_ok r = true -> marked pend ((outpoint <$> us) ++ l) w').
Proof.
  intros Hus. revert l w. induction Hus as [|u us Hu _ IH]; intros l w Hl; cbn [for_each].
  - intros [= <- <-]. split_and!; [done|done| |done]. destruct Hl as (m & Hm & _). by exists m.
  - destruct (on_utxos (us_mark SpentUnconfirmed (outpoint u)) w) as [r1 w1] eqn:Hone.
    destruct (mark_one _ _ _ _ _ _ Hu Hl Hone) as (Hu1 & Hp1 & Hm1 & Hok). destruct r1 as [[]|y].
    + rewrite (SR_bind_run _ _ _ _ _ Hone). intros Hrest. destruct (IH _ _ (Hok eq_refl) Hrest) as (Hu2 & Hp2 & Hs2 & Hok2).
      split_and!; [congruence|congruence|done|]. intros Hr. destruct (Hok2 Hr) as (m & Hc & Hin). exists m. split; [done|].
      intros o s Ho. apply Hin. set_solver.
    + rewrite (SR_bind_err _ _ _ _ _ Hone). intros [= <- <-]. split_and!; [done|done| |done].
      destruct Hm1 as (m & Hm & _). by exists m.
Qed.

Lemma marks_pending st us (w w' : W) r :
  for_each (fun u => on_utxos (us_mark st (outpoint u))) us w = (r, w') -> pending_transactions w' = pending_transactions w.
Proof.
  revert w. induction us as [|u us IH]; intros w; cbn [for_each]; [by intros [= _ <-]|].
  destruct (on_utxos (us_mark st (outpoint u)) w) as [[[]|y] w1] eqn:Hone;
    (assert (Hp : pending_transactions w1 = pending_transactions w);
      [unfold on_utxos, zoom in Hone; destruct (us_mark _ _ _); by injection Hone as _ <-|]).
  - rewrite (SR_bind_run _ _ _ _ _ Hone). intros Hrest. by rewrite (IH _ Hrest).
  - rewrite (SR_bind_err _ _ _ _ _ Hone). by intros [= _ <-].
Qed.

(** With its inputs marked and out of memory, a transaction can be pending. *)
Lemma marked_safe pend c w :
  marked pend (spends c) w ->
  safe_with (<[txid_of c := c]> pend) (set_utxos (without (spends c) (utxos w)) w).
Proof.
  intros (m & [Hh Hk Hm Hs] & Hl). exists m. split; [done|done| |].
  - intros u [Hu Hin]%list_elem_of_filter. destruct (Hm u Hin) as [Hok Hun]. split; [done|].
    intros t c'. rewrite lookup_insert_Some. intros [[_ <-]|[_ Ht]]; [done|eauto].
  - intros o s Ho Hav t c'. rewrite lookup_insert_Some. intros [[_ <-]|[_ Ht]]; [|by eapply Hs].
    intros Hin. specialize (Hl o s Hin Ho). congruence.
Qed.

Lemma sendable_wf pend c :
  sendable pend c -> fresh pend c -> disjoint_pending pend -> pending_wf pend ->
  disjoint_pending (<[txid_of c := c]> pend) /\ pending_wf (<[txid_of c := c]> pend).
Proof.
  intros (Hin & Hok & Hdis) Hchange Hd Hwf. split.
  - intros t t' c1 c2 o. rewrite !lookup_insert_Some.
    intros [[<- <-]|[Hne H1]] [[<- <-]|[Hne' H2]] Ho1 Ho2; [done| | |by eapply Hd].
    + by destruct (Hdis _ _ o H2 ltac:(done) Ho1).
    + by destruct (Hdis _ _ o H1 ltac:(done) Ho2).
  - intros t c'. rewrite lookup_insert_Some. intros [[<- <-]|[_ Ht]]; [|by eapply Hwf].
    split_and!; [done..|]. intros Hpos. by apply Hchange.
Qed.

(** What is recorded of a transaction that was sent: all of it, or it is not pending. *)
Definition after_sending (c : CreatedTransaction) (w w' : W) : Prop :=
  wallet_ok w' /\
  (pending_transactions w' = pending_transactions w \/
   pending_transactions w' = <[txid_of c := c]> (pending_transactions w)).

(** The change of a transaction is safe to list where nothing spends it. *)
Lemma runs_change pend c w :
  (0 < change_value c -> outpoint_ok (change_outpoint_of c) /\ unspent pend (change_outpoint_of c)) -> safe_with pend w ->
  runs pend
    (if 0 <? change_value c then
       _ ← on_utxos (us_insert (change_outpoint_of c) (change_value c) (address_to_string (change_address c)));
       smodify (fun w => set_utxos (utxos w ++ [mkUtxo (change_outpoint_of c) (change_value c)]) w)
     else mret tt) (fun _ _ => True) w.
Proof.
  intros Hchange Hw. destruct (0 <? change_value c) eqn:Hpos; reflect_bool; [|by apply runs_ret].
  destruct (Hchange Hpos) as (Hok & Hun). apply runs_bind, runs_insert; [done..|]. intros w3 _ Hw3 _. apply runs_modify; [|done..].
  apply safe_utxos; [done|]. intros u [Hu|Hu]%elem_of_app; [|apply list_elem_of_singleton in Hu as ->; by split].
  destruct Hw3 as (m & [_ _ Hm _]). auto.
Qed.

Lemma fresh_unspent pend c :
  fresh pend c -> 0 < change_value c ->
  outpoint_ok (change_outpoint_of c) /\ unspent (<[txid_of c := c]> pend) (change_outpoint_of c).
Proof.
  intros Hchange Hpos. destruct (Hchange Hpos) as (Hok & Hun & Hnot). split; [done|].
  intros t c'. rewrite lookup_insert_Some. intros [[_ <-]|[_ Ht]]; [done|by eapply Hun].
Qed.

Lemma commit_ok c w :
  wallet_ok w -> sendable (pending_transactions w) c -> fresh (pending_transactions w) c ->
  after_sending c w (commit_spend_pending c w).2.
Proof.
  intros (Hsafe & Hd & Hwf) Hsend Hfresh. destruct (sendable_wf _ _ Hsend Hfresh Hd Hwf) as [Hd2 Hwf2].
  set (pend := pending_transactions w) in *. set (pend2 := <[txid_of c := c]> pend) in *. unfold commit_spend_pending.
  destruct (for_each (fun u => on_utxos (us_mark SpentUnconfirmed (outpoint u))) (spent_utxos c) w) as [r1 w1] eqn:Hmark.
  destruct (mark_all pend [] (spent_utxos c) w r1 w1) as (Hu1 & Hp1 & Hs1 & Hok1); [|destruct Hsafe as (m & Hm)|done|].
  { destruct Hsend as (_ & Hok & _). exact (proj1 (Forall_fmap _ _ _) Hok). }
  { exists m. split; [done|]. intros o s Ho. by apply elem_of_nil in Ho. }
  destruct r1 as [[]|y]; [|rewrite (SR_bind_err _ _ _ _ _ Hmark); split; [|by left]; unfold wallet_ok; cbn; by rewrite Hp1].
  rewrite (SR_bind_run _ _ _ _ _ Hmark). specialize (Hok1 eq_refl). rewrite app_nil_r in Hok1. apply marked_safe in Hok1.
  rewrite SR_bind_run with (a := tt) (s' := set_utxos (without (spends c) (utxos w1)) w1) by done.
  set (w2 := set_utxos _ _) in *. assert (Hp2 : pending_transactions w2 = pend) by done.
  assert (Hs2 : safe_with pend w2) by (apply safe_fewer; [done|]; by intros u [_ Hu]%list_elem_of_filter).
  pose proof (runs_change pend2 c w2 (fresh_unspent _ _ Hfresh) Hok1) as Hrun.
  assert (Hold : 0 < change_value c -> outpoint_ok (change_outpoint_of c) /\ unspent pend (change_outpoint_of c))
    by (intros Hpos; by destruct (Hfresh Hpos) as (? & ? & _)).
  pose proof (runs_change pend c w2 Hold Hs2) as Hrun'.
  match type of Hrun with runs _ ?mm _ _ => destruct (mm w2) as [[[]|y] w3] eqn:Hadd end;
    destruct (runs_elim _ _ _ _ _ _ Hrun Hadd) as (Hw3 & Hp3 & _);
    destruct (runs_elim _ _ _ _ _ _ Hrun' Hadd) as (Hw3' & _ & _).
  - rewrite (SR_bind_run _ _ _ _ _ Hadd).
    rewrite SR_bind_run with (a := tt) (s' := set_pending (<[txid_of c := c]> (pending_transactions w3)) w3) by done.
    set (w4 := set_pending _ _). assert (Hw4 : safe_with pend2 w4) by (by apply (safe_with_same pend2 w3)).
    destruct (on_pending (ps_save (compute_txid (transaction c)) c) w4) as [r5 w5] eqn:Hsave.
    destruct (runs_elim pend2 _ (fun _ _ => True) _ _ _ (runs_pending _ _ _ _ Hw4 (fun _ _ _ => I)) Hsave) as (Hw5 & Hp5 & _).
    assert (Hp : pending_transactions w5 = pend2) by (rewrite Hp5; cbn; by rewrite Hp3, Hp2).
    split; [|by right]. unfold wallet_ok. cbn. by rewrite Hp.
  - rewrite (SR_bind_err _ _ _ _ _ Hadd). split; [|left; cbn; by rewrite Hp3]. unfold wallet_ok. cbn. by rewrite Hp3, Hp2.
Qed.

Lemma taken_unspent pend w c :
  safe_with pend w -> (exists n, spent_utxos c = take n (utxos w)) /\ inputs_of c = spends c ->
  inputs_of c = spends c /\ Forall outpoint_ok (spends c) /\ forall o, o ∈ spends c -> unspent pend o.
Proof.
  intros (m & [_ _ Hm _]) [[n Hspent] Hin].
  assert (Hall : forall o, o ∈ spends c -> outpoint_ok o /\ unspent pend o).
  { intros o (u & -> & Hu)%list_elem_of_fmap. rewrite Hspent in Hu. apply Hm, (subseteq_take n), Hu. }
  split_and!; [done| |by intros o Ho; apply Hall]. apply Forall_forall. intros o Ho. by apply Hall.
Qed.

Lemma taken_sendable w c :
  wallet_ok w -> (exists n, spent_utxos c = take n (utxos w)) /\ inputs_of c = spends c -> sendable (pending_transactions w) c.
Proof.
  intros (Hs & _ & _) Hc. destruct (taken_unspent _ w c Hs Hc) as (Hin & Hok & Hun). split_and!; [done|done|].
  intros t c' o Ht _ Ho. by eapply Hun.
Qed.

Lemma resend pend pend' c :
  sendable pend c -> fresh pend c -> pend' = pend \/ pend' = <[txid_of c := c]> pend -> sendable pend' c /\ fresh pend' c.
Proof.
  intros Hsend Hfresh [->| ->]; [done|]. destruct Hsend as (Hin & Hok & Hdis). split.
  - split_and!; [done|done|]. intros t c' o. rewrite lookup_insert_Some. intros [[<- _]|[_ Ht]]; [done|by eapply Hdis].
  - intros Hpos. destruct (fresh_unspent _ _ Hfresh Hpos), (Hfresh Hpos) as (_ & _ & ?). by split_and!.
Qed.

Lemma ignore_err_state m (w : W) : (ignore_err m w).2 = (m w).2.
Proof. unfold ignore_err. by destruct (m w) as [[|[]] ?]. Qed.

Lemma wallet_ok_same (w w' : W) :
  utxo_db w' = utxo_db w -> utxos w' = utxos w -> pending_transactions w' = pending_transactions w -> wallet_ok w -> wallet_ok w'.
Proof. intros Hdb Hu Hp (Hs & Hd & Hwf). unfold wallet_ok. rewrite Hp. split_and!; [by apply (safe_with_same _ w)|done..]. Qed.

(** Sending leaves the wallet alone but for the node, or records the transaction. *)
Lemma broadcast_state c (w : W) :
  exists w1, utxo_db w1 = utxo_db w /\ utxos w1 = utxos w /\ pending_transactions w1 = pending_transactions w /\
    ((broadcast_transaction c w).2 = w1 \/ (broadcast_transaction c w).2 = (commit_spend_pending c w1).2).
Proof.
  unfold broadcast_transaction. rewrite SR_bind_run with (a := w) (s' := w) by done.
  destruct (rpc_configured w); cbn [negb]; [|exists w; split_and!; auto].
  destruct (on_node (send_raw_transaction (serialize_hex (transaction c))) w) as [[t|y] w1] eqn:Hsend;
    exists w1; assert (Hw1 : utxo_db w1 = utxo_db w /\ utxos w1 = utxos w /\ pending_transactions w1 = pending_transactions w)
      by (unfold on_node, zoom in Hsend; destruct (send_raw_transaction _ _); injection Hsend as _ <-; done);
    destruct Hw1 as (? & ? & ?); split_and!; try done; [|left; by rewrite (SR_bind_err _ _ _ _ _ Hsend)].
  rewrite (SR_bind_run _ _ _ _ _ Hsend). destruct (parse_txid (txid_to_string t)) as [t'|]; [right|by left].
  rewrite SR_bind_run with (a := t') (s' := w1) by done. rewrite <- (ignore_err_state (commit_spend_pending c)).
  unfold mbind, SR_bind. by destruct (ignore_err _ w1) as [[]].
Qed.

Lemma broadcast_ok c w :
  wallet_ok w -> sendable (pending_transactions w) c -> fresh (pending_transactions w) c ->
  after_sending c w (broadcast_and_print c w).2.
Proof.
  intros Hw Hsend Hfresh. unfold broadcast_and_print. rewrite SR_bind_run with (a := w) (s' := w) by done.
  destruct (rpc_configured w); [|by split; [|left]]. rewrite ignore_err_state.
  assert (Hst : forall A (m : SR W failure A), ((_ ← m; mret tt) w : result failure unit * W).2 = (m w).2).
  { intros A m. unfold mbind, SR_bind. by destruct (m w) as [[]]. }
  rewrite Hst. destruct (broadcast_state c w) as (w1 & Hdb & Hu & Hp & Hcase).
  assert (Hw1 : wallet_ok w1) by (by apply (wallet_ok_same w)). destruct Hcase as [->| ->]; [by split; [|left]|].
  rewrite <- Hp in Hsend, Hfresh. pose proof (commit_ok c w1 Hw1 Hsend Hfresh) as Hc. unfold after_sending in *.
  by rewrite Hp in Hc.
Qed.

Lemma send_all_ok c l w :
  (forall c', c' ∈ l -> c' = c) -> wallet_ok w -> sendable (pending_transactions w) c -> fresh (pending_transactions w) c ->
  wallet_ok (for_each broadcast_and_print l w).2.
Proof.
  revert w. induction l as [|c' l IH]; intros w Hl Hw Hsend Hfresh; cbn [for_each]; [done|].
  rewrite (Hl c') by (by left). destruct (broadcast_ok c w Hw Hsend Hfresh) as [Hw1 Hp1].
  destruct (broadcast_and_print c w) as [[[]|y] w1] eqn:Hb; cbn in Hw1, Hp1.
  - rewrite (SR_bind_run _ _ _ _ _ Hb). destruct (resend _ _ _ Hsend Hfresh Hp1).
    apply IH; [|done..]. intros c'' Hc. apply Hl. by right.
  - by rewrite (SR_bind_err _ _ _ _ _ Hb).
Qed.

Lemma runs_wallet_ok {A : Type} pend (m : SR W failure A) Q w :
  runs pend m Q w -> pending_transactions w = pend -> disjoint_pending pend -> pending_wf pend -> wallet_ok (m w).2.
Proof. unfold runs, wallet_ok. destruct (m w) as [r w']. intros (Hs & Hp & _) Hw Hd Hwf. cbn. by rewrite Hp, Hw. Qed.

(** *** Replacing and confirming *)

Lemma delete_unspent pend t c o : disjoint_pending pend -> pend !! t = Some c -> o ∈ spends c -> unspent (delete t pend) o.
Proof.
  intros Hd Ht Ho t' c' Ht' Ho'. apply lookup_delete_Some in Ht' as [Hne Ht']. apply Hne. by eapply Hd.
Qed.

Lemma delete_wf pend t : disjoint_pending pend -> pending_wf pend -> disjoint_pending (delete t pend) /\ pending_wf (delete t pend).
Proof.
  intros Hd Hwf. split.
  - intros t1 t2 c1 c2 o [_ H1]%lookup_delete_Some [_ H2]%lookup_delete_Some. by eapply Hd.
  - intros t1 c1 [_ H1]%lookup_delete_Some. by eapply Hwf.
Qed.

Lemma confirm_ok t w : wallet_ok w -> wallet_ok (confirm_transaction t w).2.
Proof.
  intros (Hs & Hd & Hwf). unfold confirm_transaction. rewrite SR_bind_run with (a := w) (s' := w) by done.
  destruct (pending_transactions w !! t) as [c|] eqn:Ht; [|done].
  destruct (delete_wf _ t Hd Hwf) as [Hd2 Hwf2]. destruct (Hwf t c Ht) as (_ & _ & Hok & _).
  set (w1 := set_pending (delete t (pending_transactions w)) w).
  rewrite SR_bind_run with (a := tt) (s' := w1) by done.
  assert (Hw1 : safe_with (delete t (pending_transactions w)) w1).
  { apply (safe_with_same _ w); [done..|]. eapply safe_weaken; [apply delete_subseteq|done]. }
  eapply runs_wallet_ok; [|done..]. apply runs_bind, runs_pending; [done|]. intros [] w2 _ Hw2 _. apply runs_for_each; [|done].
  intros u w3 Hu Hw3. apply runs_remove; [|done..]. rewrite Forall_forall in Hok. apply Hok. by apply list_elem_of_fmap_2.
Qed.

(** If a run ends well, [Q] holds. *)
Definition if_ok {A : Type} (m : SR W failure A) (Q : A -> W -> Prop) (w : W) : Prop := forall a w', m w = (Ok a, w') -> Q a w'.

Lemma if_ok_bind {A B : Type} (m : SR W failure A) (f : A -> SR W failure B) Q w :
  if_ok m (fun a => if_ok (f a) Q) w -> if_ok (m ≫= f) Q w.
Proof. intros Hm b w' (a & w1 & Ha & Hb)%SR_bind_ok. by eapply Hm. Qed.

Lemma if_ok_run {A : Type} (m : SR W failure A) (Q : A -> W -> Prop) w a w' : m w = (Ok a, w') -> Q a w' -> if_ok m Q w.
Proof. intros Hm HQ a' w2. rewrite Hm. by intros [= <- <-]. Qed.

Lemma if_ok_fail {A : Type} y (Q : A -> W -> Prop) w : if_ok (sfail y) Q w.
Proof. by intros a w'. Qed.

Lemma if_ok_runs {A : Type} pend (m : SR W failure A) (R Q : A -> W -> Prop) w :
  runs pend m R w ->
  (forall a w', R a w' -> safe_with pend w' -> pending_transactions w' = pending_transactions w -> Q a w') -> if_ok m Q w.
Proof. unfold runs, if_ok. intros Hr HQ a w' Heq. rewrite Heq in Hr. destruct Hr as (? & ? & ?). auto. Qed.

Section Replace.
Context (w : W) (t : bytes) (original : CreatedTransaction).
Hypothesis before : wallet_ok w.
Hypothesis is_pending : pending_transactions w !! t = Some original.
Let pend := delete t (pending_transactions w).

Lemma original_spent u : u ∈ spent_utxos original -> outpoint_ok (outpoint u) /\ unspent pend (outpoint u).
Proof.
  intros Hu. destruct before as (_ & Hd & Hwf). destruct (Hwf t original is_pending) as (_ & _ & Hok & _).
  assert (Hin : outpoint u ∈ spends original) by (by apply list_elem_of_fmap_2).
  rewrite Forall_forall in Hok. split; [auto|]. by eapply delete_unspent.
Qed.

Lemma safe_without_original : safe_with pend w.
Proof. destruct before as (Hs & _). eapply safe_weaken; [apply delete_subseteq|done]. Qed.

(** The inputs of the original are free for the replacement. *)
Lemma free_inputs (Q : unit -> W -> Prop) :
  (forall w', safe_with pend w' -> pending_transactions w' = pending_transactions w -> Q tt w') ->
  if_ok (for_each (fun u => on_utxos (us_mark Available (outpoint u))) (spent_utxos original)) Q w.
Proof.
  intros HQ. eapply if_ok_runs; [apply (runs_for_each pend); [|apply safe_without_original]|intros []; auto].
  intros u w2 Hu Hw2. destruct (original_spent u Hu). by apply runs_mark.
Qed.

(** The original is no longer pending; the other ones stay. *)
Lemma forget_original w1 c (old : OutPoint) (has_change : bool) :
  (has_change = true -> outpoint_ok old) ->
  safe_with pend w1 -> pending_transactions w1 = pending_transactions w -> sendable pend c ->
  if_ok (_ ← smodify (fun w => set_pending (delete t (pending_transactions w)) w);
         _ ← on_pending (ps_remove t);
         _ ← (if has_change then
                _ ← attempt (on_utxos (us_remove old));
                smodify (fun w => set_utxos (without [old] (utxos w)) w)
              else mret tt);
         mret c) (fun c' w' => c' = c /\ wallet_ok w' /\ sendable (pending_transactions w') c) w1.
Proof.
  intros Hold Hs1 Hp1 Hc. destruct before as (_ & Hd & Hwf). destruct (delete_wf _ t Hd Hwf) as [Hd2 Hwf2].
  apply if_ok_bind. eapply if_ok_run; [done|].
  assert (Hs2 : safe_with pend (set_pending (delete t (pending_transactions w1)) w1)) by (by apply (safe_with_same _ w1)).
  assert (Hp2 : pending_transactions (set_pending (delete t (pending_transactions w1)) w1) = pend) by (cbn; by rewrite Hp1).
  apply if_ok_bind. eapply if_ok_runs; [apply (runs_pending pend _ (fun _ _ => True)); done|]. intros [] w3 _ Hs3 Hp3. rewrite Hp2 in Hp3.
  apply if_ok_bind. apply (if_ok_runs pend _ (fun _ _ => True)).
  - destruct has_change; [|by apply runs_ret]. apply runs_bind.
    assert (Hrem : runs pend (attempt (on_utxos (us_remove old))) (fun _ _ => True) w3).
    { pose proof (runs_remove pend old (fun _ _ => True) w3 (Hold eq_refl) Hs3 ltac:(done)) as Hr. unfold runs, attempt in *.
      destruct (on_utxos (us_remove old) w3). by destruct Hr as (? & ? & _). }
    eapply runs_mono; [exact Hrem|]. intros _ w4 _ Hs4 _. apply runs_modify; [|done..]. apply safe_fewer; [done|].
    intros u Hu. by apply list_elem_of_filter in Hu as [_ ?].
  - intros [] w4 _ Hs4 Hp4. rewrite Hp3 in Hp4. eapply if_ok_run; [done|]. unfold wallet_ok. by rewrite Hp4.
Qed.

End Replace.

(** A replacement takes the place of the original, whose inputs it spends. *)
Lemma replace_ok t rate w c w' :
  wallet_ok w -> replace_transaction t rate w = (Ok c, w') -> wallet_ok w' /\ sendable (pending_transactions w') c.
Proof.
  intros Hw Hr. assert (Hok : if_ok (replace_transaction t rate) (fun c w' => wallet_ok w' /\ sendable (pending_transactions w') c) w);
    [|by apply Hok]. clear Hr c w'.
  unfold replace_transaction. apply if_ok_bind. eapply if_ok_run; [done|].
  destruct (pending_transactions w !! t) as [original|] eqn:Ht; [|apply if_ok_fail].
  destruct (rate <=? sats_per_byte w); [apply if_ok_fail|].
  apply if_ok_bind, (free_inputs w t original Hw Ht). intros w1 Hs1 Hp1. do 2 (apply if_ok_bind; eapply if_ok_run; [done|]).
  set (pend := delete t (pending_transactions w)) in *.
  assert (Hs2 : safe_with pend (set_sats_per_byte rate (set_utxos (spent_utxos original) w1))).
  { apply (safe_with_same _ (set_utxos (spent_utxos original) w1)); [done..|]. apply safe_utxos; [done|]. by apply original_spent. }
  set (w2 := set_sats_per_byte _ _) in *. cbv zeta. apply if_ok_bind. unfold attempt.
  match goal with |- context [build_transaction_with_outputs ?outs ?total] =>
    destruct (build_transaction_with_outputs outs total w2) as [built w3] eqn:Hb end. destruct (build_frame _ _ _ _ _ Hb) as [-> Hbuilt].
  apply (if_ok_run _ _ w2 built w2); [by rewrite Hb|]. apply if_ok_bind. eapply if_ok_run; [done|]. apply if_ok_bind.
  destruct built as [c|y]; [|apply if_ok_fail]. eapply if_ok_run; [done|].
  destruct (taken_unspent pend w2 c Hs2 (Hbuilt c eq_refl)) as (Hin & Hcok & Hun).
  apply if_ok_bind. eapply if_ok_run; [done|]. destruct (fee_sat c <=? fee_sat original).
  { apply if_ok_bind. intros [] ? _. apply if_ok_fail. }
  intros c' w' Hr. eapply (forget_original w t Hw) in Hr as (-> & ? & ?); [done|..].
  - intros Hpos. reflect_bool. destruct Hw as (_ & _ & Hwf). destruct (Hwf t original Ht) as (-> & _ & _ & Hold). by apply Hold.
  - apply safe_utxos; [by apply (safe_with_same _ w2)|]. destruct (safe_without_original w t Hw) as (m & [_ _ Hm _]). done.
  - done.
  - split_and!; [done..|]. intros t' c'' o Ht' _ Ho. by eapply Hun.
Qed.

(** The outputs of a replacement that is made, and then refused as its fee is not higher than
    that of the original, are marked again. *)
Definition fee_refused (t : bytes) (rate : Z) (w w' : W) : Prop :=
  exists original w1 c,
    pending_transactions w !! t = Some original /\ sats_per_byte w < rate /\
    for_each (fun u => on_utxos (us_mark Available (outpoint u))) (spent_utxos original) w = (Ok tt, w1) /\
    fst (build_transaction_with_outputs (payments original)
      (foldl (fun sum out => wrapping_add 64 sum (out_value out)) 0 (payments original))
      (set_sats_per_byte rate (set_utxos (spent_utxos original) w1))) = Ok c /\
    fee_sat c <= fee_sat original /\
    for_each (fun u => on_utxos (us_mark SpentUnconfirmed (outpoint u))) (spent_utxos original)
      (set_utxos (utxos w) (set_sats_per_byte (sats_per_byte w) (set_sats_per_byte rate (set_utxos (spent_utxos original) w1)))) =
      (Ok tt, w').

Lemma fee_refused_run t rate w w' :
  fee_refused t rate w w' -> exists y, replace_transaction t rate w = (Err y, w').
Proof.
  intros (original & w1 & c & Ht & Hrate & Hmark & Hb & Hfee & Hback). unfold replace_transaction.
  rewrite SR_bind_run with (a := w) (s' := w) by done. rewrite Ht, (proj2 (Z.leb_gt _ _)) by lia. rewrite (SR_bind_run _ _ _ _ _ Hmark).
  rewrite SR_bind_run with (a := tt) (s' := set_utxos (spent_utxos original) w1) by done.
  rewrite SR_bind_run with (a := tt) (s' := set_sats_per_byte rate (set_utxos (spent_utxos original) w1)) by done. cbv zeta.
  set (w2 := set_sats_per_byte rate _) in *.
  destruct (build_transaction_with_outputs (payments original) _ w2) as [r w3] eqn:Hrun in Hb. cbn in Hb. subst r.
  destruct (build_frame _ _ _ _ _ Hrun) as [-> _].
  rewrite SR_bind_run with (a := Ok c) (s' := w2) by (unfold attempt; by rewrite Hrun).
  rewrite SR_bind_run with (a := tt) (s' := set_sats_per_byte (sats_per_byte w) w2) by done.
  rewrite SR_bind_run with (a := c) (s' := set_sats_per_byte (sats_per_byte w) w2) by done.
  rewrite SR_bind_run with (a := tt) (s' := set_utxos (utxos w) (set_sats_per_byte (sats_per_byte w) w2)) by done.
  rewrite (proj2 (Z.leb_le _ _)) by done. rewrite (SR_bind_run _ _ _ _ _ Hback). by eexists.
Qed.

Lemma fee_refused_ok t rate w w' : wallet_ok w -> fee_refused t rate w w' -> wallet_ok w'.
Proof.
  intros Hw (original & w1 & c & Ht & _ & Hmark & _ & _ & Hback). pose proof Hw as ((m & [_ _ Hmem _]) & Hd & Hwf).
  set (pend := pending_transactions w) in *. set (w2 := set_utxos (utxos w) _) in Hback.
  destruct (free_inputs w t original Hw Ht (fun _ v => safe_with (delete t pend) v /\ pending_transactions v = pend)
    ltac:(done) tt w1 Hmark) as [Hs1 Hp1].
  destruct (Hwf t original Ht) as (Htxid & _ & Hok & _).
  assert (Hs2 : safe_with (delete t pend) w2).
  { destruct Hs1 as (m1 & [Hh Hk _ Hst]). exists m1. split; [done|done| |done]. intros u Hu. destruct (Hmem u Hu). split; [done|].
    eapply unspent_weaken; [apply delete_subseteq|done]. }
  destruct (mark_all (delete t pend) [] (spent_utxos original) w2 (Ok tt) w') as (Hu & Hp & _ & Hm); [| |done|].
  { exact (proj1 (Forall_fmap _ _ _) Hok). }
  { destruct Hs2 as (m2 & Hm2). exists m2. split; [done|]. intros o s Ho. by apply elem_of_nil in Ho. }
  specialize (Hm eq_refl). rewrite app_nil_r in Hm. apply marked_safe in Hm. rewrite <- Htxid, insert_delete_id in Hm by done.
  assert (Hpend : pending_transactions w' = pend) by (by rewrite Hp).
  unfold wallet_ok. rewrite Hpend. split; [|by split]. eapply (safe_with_same pend); [..|exact Hm]; [done|]. cbn.
  symmetry. rewrite Hu. cbn. apply filter_all. intros u Hin. destruct (Hmem u Hin) as [_ Hun]. by eapply Hun.
Qed.

(** *** Commands *)

(** The outputs that a command registers, with what the node and the explorer answer now,
    are outputs that no pending transaction spends. *)
Definition registers_unspent (w : W) (cmd : Command) : Prop :=
  let pend := pending_transactions w in
  match cmd with
  | CmdRegister o _ _ => outpoint_ok o /\ unspent pend o
  | CmdMineUtxo v => forall o w', mine_output v w = (Ok o, w') -> outpoint_ok o /\ unspent pend o
  | CmdRegisterAuto =>
      forall a l e u t, active_address w = Some a -> fetch_testnet_utxos (address_to_string a) (wallet_env w) = (Ok l, e) ->
      u ∈ filter_confirmed_utxos l -> parse_txid (bu_txid u) = Some t ->
      outpoint_ok (mkOutPoint t (bu_vout u)) /\ unspent pend (mkOutPoint t (bu_vout u))
  | _ => True
  end.

(** The change of the transaction that a command makes is spent by no transaction that is
    pending when it is sent. *)
Definition change_unspent (w : W) (cmd : Command) : Prop :=
  match cmd with
  | CmdSend scripts amount _ => forall c, create_transaction_once scripts amount w = (Ok c, w) -> fresh (pending_transactions w) c
  | CmdPegin v n a r e => forall c, create_pegin_transaction v n a r e w = (Ok c, w) -> fresh (pending_transactions w) c
  | CmdReplace t rate => forall c w', replace_transaction t rate w = (Ok c, w') -> fresh (pending_transactions w') c
  | _ => True
  end.

(** A replacement that fails does so before it changes anything, or for its fee. *)
Definition replaces_cleanly (w : W) (cmd : Command) : Prop :=
  match cmd with
  | CmdReplace t rate => forall y w', replace_transaction t rate w = (Err y, w') -> w' = w \/ fee_refused t rate w w'
  | _ => True
  end.

Lemma then_state {A B : Type} (m : SR W failure A) (b : B) (w : W) : ((_ ← m; mret b) w : result failure B * W).2 = (m w).2.
Proof. unfold mbind, SR_bind. by destruct (m w) as [[]]. Qed.

Lemma send_ok scripts amount count w :
  wallet_ok w -> (forall c, create_transaction_once scripts amount w = (Ok c, w) -> fresh (pending_transactions w) c) ->
  wallet_ok ((created ← create_transactions scripts amount count; maybe_broadcast created) w).2.
Proof.
  intros Hw Hfresh. destruct (create_transactions scripts amount count w) as [[l|y] w1] eqn:Hc;
    destruct (create_transactions_same _ _ _ _ _ _ Hc) as [-> Hsame]; [|by rewrite (SR_bind_err _ _ _ _ _ Hc)].
  rewrite (SR_bind_run _ _ _ _ _ Hc). unfold maybe_broadcast. rewrite SR_bind_run with (a := w) (s' := w) by done.
  destruct (rpc_configured w); [|done]. destruct (Hsame l eq_refl) as [_ Hl]. destruct l as [|c l]; [done|].
  pose proof (Hl c ltac:(by left)) as Honce. destruct (create_once_frame _ _ _ _ _ Honce) as [_ Htaken].
  apply (send_all_ok c); [|done|by apply taken_sendable; auto|auto]. intros c' Hc'. specialize (Hl c' Hc'). congruence.
Qed.

Lemma command_ok cmd w :
  wallet_ok w -> registers_unspent w cmd -> change_unspent w cmd -> replaces_cleanly w cmd -> wallet_ok (run_command cmd w).2.
Proof.
  intros Hw Hreg Hchange Hrep. pose proof Hw as (Hs & Hd & Hwf).
  assert (Hruns : forall m : SR W failure unit, runs (pending_transactions w) m (fun _ _ => True) w -> wallet_ok (m w).2).
  { intros m Hm. by eapply runs_wallet_ok. }
  destruct cmd; cbn [run_command registers_unspent change_unspent replaces_cleanly] in *; try done; rewrite then_state.
  - rewrite then_state. by eapply runs_wallet_ok; [apply runs_import|..].
  - rewrite then_state. by eapply runs_wallet_ok; [apply runs_generate|..].
  - by apply Hruns, runs_switch.
  - destruct Hreg as [Ho Hun]. apply Hruns, runs_bind. apply (runs_mono _ _ (fun _ _ => True)).
    + destruct amount; [by apply runs_ret|]. by apply runs_context, runs_fetch.
    + intros v w1 _ Hw1 _. by apply runs_register.
  - by apply send_ok.
  - apply Hruns, runs_bind, runs_get; [done|]. intros _ _. case_match; [by apply runs_ret|].
    apply runs_bind, runs_context, runs_node; [done|]. intros miner _ w1 _ _ Hw1 _. by apply runs_context, runs_node.
  - by apply Hruns, runs_mine.
  - by apply Hruns, runs_clear_db.
  - rewrite then_state. by eapply runs_wallet_ok; [apply runs_clear_active|..].
  - by apply Hruns, runs_auto.
  - destruct (create_pegin_transaction _ _ _ _ _ w) as [[c|y] w1] eqn:Hc; destruct (create_pegin_frame _ _ _ _ _ _ _ _ Hc) as [-> Htaken];
      [|by rewrite (SR_bind_err _ _ _ _ _ Hc)].
    rewrite (SR_bind_run _ _ _ _ _ Hc). apply broadcast_ok; [done|by apply taken_sendable; auto|auto].
  - destruct (replace_transaction t new_sats_per_byte w) as [[c|y] w1] eqn:Hr; [|rewrite (SR_bind_err _ _ _ _ _ Hr)].
    + rewrite (SR_bind_run _ _ _ _ _ Hr). destruct (replace_ok _ _ _ _ _ Hw Hr). apply broadcast_ok; eauto.
    + destruct (Hrep _ _ eq_refl) as [->|Hfee]; [done|by eapply fee_refused_ok].
  - by apply confirm_ok.
Qed.

(** A session: commands one after the other *)
Definition session (w : W) (cmds : list Command) : W := foldl (fun w cmd => (run_command cmd w).2) w cmds.

(** Each command of a session meets a condition where it is run. *)
Fixpoint during (condition : W -> Command -> Prop) (w : W) (cmds : list Command) : Prop :=
  match cmds with
  | [] => True
  | cmd :: cmds => condition w cmd /\ during condition (run_command cmd w).2 cmds
  end.

Lemma session_ok cmds w :
  wallet_ok w -> during registers_unspent w cmds -> during change_unspent w cmds -> during replaces_cleanly w cmds ->
  wallet_ok (session w cmds).
Proof.
  revert w. induction cmds as [|cmd cmds IH]; intros w Hw; [done|]. intros [Hreg Hregs] [Hch Hchs] [Hrep Hreps].
  apply IH; [by apply command_ok|done..].
Qed.

(** C26: the wallet does not spend an output twice, in a session that meets three conditions.
    After such a sequence of commands, with failures of the stores and of the node at any
    point, two transactions that are pending have no input in common, no output that the
    wallet would select is an input of one, and so a transaction that it makes conflicts
    with none.  The conditions, each on the state that the command finds:
    - an output that is registered, by hand, by mining or from the block explorer, is spent
      by no pending transaction ([registers_unspent]);
    - the change of a transaction that is made is spent by no transaction that is already
      pending, nor by itself ([change_unspent]);
    - a replacement that fails does so before it changes anything, or because its fee is
      not higher than that of the original ([replaces_cleanly]).
    The code checks none of them.  Without the second the wallet lists an output that a
    pending transaction spends ([spent_change_listed]), as in a session where the store fails
    once and a payment is not recorded ([unrecorded_payment_double_spends]); without the third it frees the inputs of a transaction that stays
    pending ([failed_replacement_frees_inputs]). *)
Theorem no_double_spend (w : W) (cmds : list Command) :
  wallet_ok w ->
  during registers_unspent w cmds -> during change_unspent w cmds -> during replaces_cleanly w cmds ->
  let w' := session w cmds in
  (forall t t' c c' o, pending_transactions w' !! t = Some c -> pending_transactions w' !! t' = Some c' ->
     o ∈ inputs_of c -> o ∈ inputs_of c' -> t = t') /\
  (forall u t c, u ∈ utxos w' -> pending_transactions w' !! t = Some c -> outpoint u ∉ inputs_of c) /\
  (forall outputs total c t c' o, build_transaction_with_outputs outputs total w' = (Ok c, w') ->
     pending_transactions w' !! t = Some c' -> o ∈ inputs_of c -> o ∉ inputs_of c').
Proof.
  intros Hw Hreg Hch Hrep w'. pose proof (session_ok cmds w Hw Hreg Hch Hrep) as ((m & [Hh Hk Hm Hst]) & Hd & Hwf). fold w' in Hm, Hd, Hwf.
  assert (Hin : forall t c, pending_transactions w' !! t = Some c -> inputs_of c = spends c) by (intros t c Ht; by apply (Hwf t c)).
  split_and!.
  - intros t t' c c' o Ht Ht'. rewrite (Hin _ _ Ht), (Hin _ _ Ht'). by eapply Hd.
  - intros u t c Hu Ht. rewrite (Hin _ _ Ht). destruct (Hm u Hu) as [_ Hun]. by eapply Hun.
  - intros outputs total c t c' o Hb Ht. destruct (build_frame _ _ _ _ _ Hb) as [_ Hc].
    destruct (taken_unspent (pending_transactions w') w' c ltac:(by exists m) (Hc c eq_refl)) as (-> & _ & Hun).
    intros Ho. rewrite (Hin _ _ Ht). by eapply Hun.
Qed.

(** A transaction that is recorded has its change listed, also when a pending transaction
    spends it: [commit_spend_pending] does not look. *)
Theorem spent_change_listed c t c' (w w' : W) :
  commit_spend_pending c w = (Ok tt, w') -> 0 < change_value c ->
  pending_transactions w !! t = Some c' -> t <> txid_of c -> change_outpoint_of c ∈ inputs_of c' ->
  exists u, u ∈ utxos w' /\ pending_transactions w' !! t = Some c' /\ outpoint u ∈ inputs_of c'.
Proof.
  intros Hc Hpos Ht Hne Hin. exists (mkUtxo (change_outpoint_of c) (change_value c)).
  unfold commit_spend_pending in Hc. rewrite (proj2 (Z.ltb_lt _ _)) in Hc by done.
  apply SR_bind_ok in Hc as ([] & w1 & Hmark & Hc). apply SR_bind_ok in Hc as ([] & w2 & [= <-] & Hc).
  apply SR_bind_ok in Hc as ([] & w3 & Hlist & Hc). apply SR_bind_ok in Hlist as ([] & w4 & Hins & [= <-]).
  apply SR_bind_ok in Hc as ([] & w5 & [= <-] & Hsave).
  assert (Hp1 : pending_transactions w1 = pending_transactions w) by (by eapply marks_pending).
  unfold on_utxos, on_pending, zoom in *. destruct (us_insert _ _ _ _) as [r u]. injection Hins as -> <-.
  destruct (ps_save _ _ _) as [r p]. injection Hsave as -> <-. cbn. rewrite Hp1. split_and!; [set_solver| |done].
  by rewrite lookup_insert_ne.
Qed.

(** A payment that is repeated is one transaction.  The transactions of a payment that
    is to be made [count] times are all the same: they spend the same outputs and have
    the same identifier, as the wallet does not change between them. *)
Theorem repeated_payment_is_one scripts amount count (w w' : W) l :
  create_transactions scripts amount count w = (Ok l, w') ->
  w' = w /\ length l = count /\ forall c c', c ∈ l -> c' ∈ l -> c = c' /\ txid_of c = txid_of c'.
Proof.
  intros Hc. destruct (create_transactions_same _ _ _ _ _ _ Hc) as [-> Hl]. destruct (Hl l eq_refl) as [Hlen Hsame].
  split_and!; [done..|]. intros c c' Hin Hin'. pose proof (Hsame c Hin). pose proof (Hsame c' Hin'). split; congruence.
Qed.

(** A replacement that fails frees what it should replace.  When the new transaction cannot be made,
    for want of funds for the higher fee, the original stays pending, but its inputs are
    available again, and they are all that the wallet has to select from. *)
Theorem failed_replacement_frees_inputs t rate (w w1 : W) original y :
  pending_transactions w !! t = Some original -> sats_per_byte w < rate ->
  for_each (fun u => on_utxos (us_mark Available (outpoint u))) (spent_utxos original) w = (Ok tt, w1) ->
  fst (build_transaction_with_outputs (payments original)
    (foldl (fun sum out => wrapping_add 64 sum (out_value out)) 0 (payments original))
    (set_sats_per_byte rate (set_utxos (spent_utxos original) w1))) = Err y ->
  exists w', replace_transaction t rate w = (Err y, w') /\ utxos w' = spent_utxos original /\
    pending_transactions w' = pending_transactions w1 /\ sats_per_byte w' = sats_per_byte w.
Proof.
  intros Ht Hrate Hmark Hb. unfold replace_transaction. rewrite SR_bind_run with (a := w) (s' := w) by done. rewrite Ht.
  rewrite (proj2 (Z.leb_gt _ _)) by lia. rewrite (SR_bind_run _ _ _ _ _ Hmark).
  rewrite SR_bind_run with (a := tt) (s' := set_utxos (spent_utxos original) w1) by done.
  rewrite SR_bind_run with (a := tt) (s' := set_sats_per_byte rate (set_utxos (spent_utxos original) w1)) by done. cbv zeta.
  set (w2 := set_sats_per_byte _ _) in *.
  destruct (build_transaction_with_outputs (payments original) _ w2) as [r w3] eqn:Hrun in Hb. cbn in Hb. subst r.
  destruct (build_frame _ _ _ _ _ Hrun) as [-> _].
  rewrite SR_bind_run with (a := Err y) (s' := w2) by (unfold attempt; by rewrite Hrun).
  rewrite SR_bind_run with (a := tt) (s' := set_sats_per_byte (sats_per_byte w) w2) by done.
  exists (set_sats_per_byte (sats_per_byte w) w2). split; [|done]. by apply SR_bind_err.
Qed.

End Spending.

(** ** A session *)

Section Witnesses.
Import Wallet.Sample.

(** The wallet with a key and no outputs, and after commands *)
Definition start : Wallet Db Db unit := wallet [].
Definition after (l : list Command) : Wallet Db Db unit := session start l.

Definition register_coin (n v : Z) : Command := CmdRegister (coin n) "" (Some v).
Definition pay (v : Z) (count : nat) : Command := CmdSend [payee] v count.

Lemma start_wallet_ok : wallet_ok start.
Proof.
  split; [|by split; intros t]. exists ∅. split; [|by intros o [? ?]|by intros u Hu; apply elem_of_nil in Hu|done].
  split_and!; [done|by intros k [? ?]|by intros raw [? ?]].
Qed.

Lemma repeated_payment_is_one_witness :
  exists l, create_transactions [payee] 1000 2 (wallet coins) = (Ok l, wallet coins) /\ length l = 2%nat /\
    forall c c', c ∈ l -> c' ∈ l -> c = c' /\ txid_of c = txid_of c'.
Proof.
  assert (Hok : is_ok (create_transactions [payee] 1000 2 (wallet coins)).1 = true) by (vm_compute; reflexivity).
  destruct (create_transactions [payee] 1000 2 (wallet coins)) as [[l|y] w'] eqn:Hc; [|done].
  destruct (repeated_payment_is_one _ _ _ _ _ _ Hc) as (-> & Hlen & Hsame).
  exists l. exact (conj eq_refl (conj Hlen Hsame)).
Defined.

(** The change of a payment, against the pending transactions *)
Lemma payment_change_unspent (w : Wallet Db Db unit) v count :
  (c ← (create_transaction_once [payee] v w).1;
   Ok (bool_decide (outpoint_ok (change_outpoint_of c)) && bool_decide (change_outpoint_of c ∉ spends c) &&
       bool_decide (Forall (fun kv => change_outpoint_of c ∉ spends kv.2) (map_to_list (pending_transactions w))))) = Ok true ->
  change_unspent w (pay v count).
Proof.
  intros Hcheck c Hc _. rewrite Hc in Hcheck. cbn in Hcheck. injection Hcheck as Hcheck. reflect_bool.
  split_and!; [done| |done]. intros t c' Ht%elem_of_map_to_list. rewrite Forall_forall in H0. by apply (H0 (t, c')).
Qed.

(** A replacement of a transaction that is not pending, two outputs, a payment that is made
    twice, and one that spends its change as well *)
Definition commands : list Command :=
  [CmdReplace (be_bytes 32 0) 9; register_coin 1 25000; register_coin 2 60000; pay 20000 2; pay 62000 1].

Lemma no_double_spend_witness :
  let w' := session start commands in
  size (pending_transactions w') = 2%nat /\
  (forall outputs total c t c' o, build_transaction_with_outputs outputs total w' = (Ok c, w') ->
     pending_transactions w' !! t = Some c' -> o ∈ inputs_of c -> o ∉ inputs_of c').
Proof.
  split; [vm_compute; reflexivity|]. apply (no_double_spend start commands start_wallet_ok); cbn [during commands].
  - split_and!; try exact I; (split; [by_decide|]); by intros t c.
  - split_and!; try exact I; [by intros c w'|apply payment_change_unspent; vm_compute; reflexivity..].
  - split_and!; try exact I. intros y w' [= _ <-]. by left.
Defined.

(** A payment of most of the funds, and what a replacement with a fee that is too high leaves *)
Definition paid : Wallet Db Db unit := after [register_coin 1 25000; pay 20000 1].
Definition original_tx : option (bytes * CreatedTransaction) := head (map_to_list (pending_transactions paid)).

Lemma failed_replacement_frees_inputs_witness :
  exists t original w', original_tx = Some (t, original) /\ replace_transaction t 100 paid = (Err (Anyhow ["insufficient funds"]), w') /\
    utxos w' = spent_utxos original /\
    (c ← (create_transaction_once [payee] 1000 w').1; Ok (inputs_of c)) = Ok (inputs_of original).
Proof.
  assert (Hmark : (match original_tx with
    | Some (_, o) => (for_each (fun u => on_utxos (us_mark Available (outpoint u))) (spent_utxos o) paid).1
    | None => Err OutOfFuel end) = Ok tt) by (vm_compute; reflexivity).
  assert (Hbuild : (match original_tx with
    | Some (_, o) =>
        c ← (build_transaction_with_outputs (payments o) (foldl (fun sum out => wrapping_add 64 sum (out_value out)) 0 (payments o))
          (set_sats_per_byte 100 (set_utxos (spent_utxos o)
            (for_each (fun u => on_utxos (us_mark Available (outpoint u))) (spent_utxos o) paid).2))).1; Ok tt
    | None => Ok tt end) = Err (Anyhow ["insufficient funds"])) by (vm_compute; reflexivity).
  assert (Hnext : (match original_tx with
    | Some (t, o) => (c ← (create_transaction_once [payee] 1000 (replace_transaction t 100 paid).2).1; Ok (inputs_of c)) = Ok (inputs_of o)
    | None => False end)) by (vm_compute; reflexivity).
  destruct original_tx as [[t original]|] eqn:Ho; [|done].
  assert (Ht : pending_transactions paid !! t = Some original)
    by (apply elem_of_map_to_list; unfold original_tx in Ho; by apply head_Some_elem_of).
  destruct (failed_replacement_frees_inputs t 100 paid _ original (Anyhow ["insufficient funds"]) Ht ltac:(by_decide)
    (eq_trans (surjective_pairing _) (f_equal2 pair Hmark eq_refl))) as (w' & Hr & Hu & _).
  - destruct (build_transaction_with_outputs _ _ _).1 as [c|y]; [discriminate Hbuild|]. injection Hbuild as ->. reflexivity.
  - exists t, original, w'. rewrite Hr in Hnext. split_and!; [reflexivity|exact Hr|exact Hu|exact Hnext].
Defined.

(** A store that refuses the next mark, if it is [broken] *)
Record Flaky := mkFlaky { broken : bool; good : Db }.

Definition on_good {A} (m : SR Db failure A) : SR Flaky failure A :=
  fun s => let '(r, d) := m (good s) in (r, mkFlaky (broken s) d).

#[local] Instance flaky_store : UtxoStoreApi Flaky := {|
  us_insert o v a := on_good (us_insert o v a);
  us_mark st o := fun s => if broken s then (Err (Anyhow ["disk full"]), mkFlaky false (good s)) else on_good (us_mark st o) s;
  us_remove o := on_good (us_remove o);
  us_load_all := on_good us_load_all;
  us_load_by_address a := on_good (us_load_by_address a);
  us_contains o := on_good (us_contains o);
  us_clear := on_good us_clear
|}.

Definition flaky_start : Wallet Flaky Db unit :=
  mkWallet Regtest {[address := key]} (Some address) [] DEFAULT_SATS_PER_BYTE (mkFlaky true ∅) true ∅ ∅ DEFAULT_ENABLER_AMOUNT tt.

(** The payment that is sent but not recorded, as the store fails, and its change *)
Definition unrecorded : Wallet Flaky Db unit := session flaky_start [register_coin (2 ^ 200) 25000; pay 20000 1].
Definition lost : option CreatedTransaction :=
  match create_transaction_once [payee] 20000 unrecorded with (Ok c, _) => Some c | _ => None end.
Definition lost_change : OutPoint := default (coin 0) (change_outpoint_of <$> lost).

(** The change is registered by hand and spent; then the payment, which is not pending, is
    made again. *)
Definition repaid : Wallet Flaky Db unit :=
  session unrecorded [CmdRegister lost_change "" (Some 4300); CmdSwitch address; pay 1000 1; pay 20000 1].

(** A store that fails once, after a payment was sent, leads the wallet to list an output
    that a pending transaction spends: the failure is only logged, the payment is not
    pending and its input stays listed, and a second payment of the same amount lists the
    change again. *)
Theorem unrecorded_payment_double_spends :
  exists u t c, u ∈ utxos repaid /\ pending_transactions repaid !! t = Some c /\ outpoint u ∈ inputs_of c.
Proof.
  assert (Hex : bool_decide (Exists (fun u => Exists (fun kv => outpoint u ∈ inputs_of kv.2) (map_to_list (pending_transactions repaid)))
    (utxos repaid)) = true) by (vm_compute; reflexivity).
  apply bool_decide_eq_true, Exists_exists in Hex as (u & Hu & ([t c] & Ht & Hin)%Exists_exists).
  apply elem_of_map_to_list in Ht. exists u, t, c. exact (conj Hu (conj Ht Hin)).
Qed.

End Witnesses.
