(* ===== verification/UserApi.v ===== *)
(** * The user API (crates/user-api/src/server.rs, errors.rs, sync_contracts_gateway.rs)

    An HTTP server for users, members and administrators: it checks requests and
    hands them to the contracts or, through a broker, to the coordinator.  Requests
    for funding information share one answer: the first asks the coordinator and the
    others wait for it.  These requests run concurrently, and one is dropped when its
    client goes away or after ten seconds; they are modelled as tasks that take their
    steps between [await]s in any order. *)

From Stdlib Require Import Ascii.
From stdpp Require Import prelude gmap strings relations.
From S2P Require Import Prelude Types Bitvmx Flow Inputs CoordinatorStore Broker.
Open Scope Z_scope.

(** ** Interfaces *)

(** A status and a body *)
Definition Reply `{JsonValue} : Type := Z * Value.

Record FailFlowReq := mkFailFlowReq { kind : string; ff_flow_id : bytes; reason : string }.
Record ApplyStreamReq `{JsonValue} := mkApplyStreamReq { apply_to_stream : Value }.
Arguments mkApplyStreamReq {_}.
Record PeginAddressHttpRequest := mkPeginAddressHttpRequest {
  rootstock_deposit_address : string; pa_value : Z; btc_reimbursement_pub_key : string
}.
Record UserRequestPegoutInput := mkUserRequestPegoutInput { amount_in_wei : Z; usr_pub_key : string }.

(** [json!], the text of errors, and the extractors of axum: a body that cannot be
    read is answered by a rejection. *)
Class ApiFormats `{JsonValue} := {
  json_object : list (string * Value) -> Value;
  json_string : string -> Value;
  json_uuid : bytes -> Value;
  broker_error_text : BrokerError -> string;
  read_fail_flow : string -> result Reply FailFlowReq;
  read_apply_stream : string -> result Reply ApplyStreamReq;
  read_pegin_address : string -> result Reply PeginAddressHttpRequest;
  read_request_pegout : string -> result Reply UserRequestPegoutInput
}.

(** [SyncContractsGatewayApi], with errors as texts; random identifiers and the clock,
    in milliseconds *)
Class UserGateway `{JsonValue} (E : Type) := {
  my_address : E -> string;
  get_temporary_pegin_address : PeginAddressHttpRequest -> SR E string Value;
  request_pegout : UserRequestPegoutInput -> SR E string Value;
  new_uuid : E -> bytes * E;
  instant_now : E -> Z * E
}.

(** How the coordinator reads a request: an enumeration is an object with the name of
    the variant as its key. *)
Class SerdeRequests `{ApiFormats} (from_value : Value -> option UserRequests) : Prop := {
  tag_apply v r : from_value (json_object [("ApplyToStream", v)]) = Some r -> exists input, r = ApplyToStreamRequest input;
  tag_fail_flow k id why r :
    from_value (json_object [("Admin", json_object [("FailFlow",
      json_object [("kind", json_string k); ("flow_id", json_uuid id); ("reason", json_string why)])])]) = Some r ->
    exists flow_kind, r = Admin (FailFlow flow_kind id why)
}.

(** ** Errors *)

Inductive ApiError :=
| InvalidData (msg : string)
| NotFound (msg : string)
| Unauthorized (msg : string)
| Forbidden (msg : string)
| InternalServerError (msg : string).

Record HttpRequest := mkHttpRequest {
  http_method : string; path : string;
  (** the header, if it is a text *)
  authorization : option string;
  body : string
}.

(** ** Checks *)

Definition verify_admin_auth (configured_token authorization : option string) : result ApiError unit :=
  match configured_token with
  | None | Some "" => Err (Unauthorized "admin endpoints disabled")
  | Some expected =>
      let provided := authorization ≫= strip_prefix "Bearer " in
      if bool_decide (provided = Some expected) then Ok tt else Err (Unauthorized "invalid token")
  end.

(** [str::trim] leaves nothing: all characters are white space, in UTF-8. *)
Definition code (c : ascii) : N := N_of_ascii c.
Fixpoint blank (s : string) : bool :=
  match s with
  | EmptyString => true
  | String a s1 =>
      if bool_decide (9 <= code a <= 13)%N || (code a =? 32)%N then blank s1 else
      match s1 with
      | EmptyString => false
      | String b s2 =>
          if (code a =? 194)%N && ((code b =? 133)%N || (code b =? 160)%N) then blank s2 else
          match s2 with
          | EmptyString => false
          | String c s3 =>
              if ((code a =? 225)%N && (code b =? 154)%N && (code c =? 128)%N) ||
                 ((code a =? 226)%N && (code b =? 128)%N && (bool_decide (128 <= code c <= 138)%N || (code c =? 168)%N || (code c =? 169)%N || (code c =? 175)%N)) ||
                 ((code a =? 226)%N && (code b =? 129)%N && (code c =? 159)%N) ||
                 ((code a =? 227)%N && (code b =? 128)%N && (code c =? 128)%N)
              then blank s3 else false
          end
      end
  end.

Definition ALLOWED_KINDS : list string := ["pegin"; "pegout"; "advance-funds"; "committee-setup"].

Fixpoint all_hex (s : string) : bool :=
  match s with EmptyString => true | String c s => bool_decide (is_Some (hex_val c)) && all_hex s end.

Definition prefixed_hex (length : nat) (key : string) : bool :=
  bool_decide (String.length key = length) && match strip_prefix "0x" key with Some rest => all_hex rest | None => false end.

(** [is_valid_compressed_pubkey] and [is_valid_xonly_pubkey] *)
Definition is_valid_compressed_pubkey : string -> bool := prefixed_hex 68.
Definition is_valid_xonly_pubkey : string -> bool := prefixed_hex 66.

Lemma strip_prefix_Some p s rest : strip_prefix p s = Some rest -> s = p +:+ rest.
Proof.
  revert s. induction p as [|a p IH]; intros s; cbn [strip_prefix]; [by intros [= ->]|].
  destruct s as [|b s]; [done|]. case_decide as Hab; [|done]. intros Hs. rewrite Hab, (IH s Hs). done.
Qed.

Section Api.
Context `{ApiFormats, !BrokerServer E, !UserGateway E}.
Context (destination : Identifier) (admin_token : option string).

Definition error_reply (status : Z) (msg : string) : Reply := (status, json_object [("error", json_string msg)]).

Definition into_response (e : ApiError) : Reply :=
  match e with
  | InvalidData msg => error_reply 400 msg
  | NotFound msg => error_reply 404 msg
  | Unauthorized msg => error_reply 401 msg
  | Forbidden msg => error_reply 403 msg
  | InternalServerError msg => error_reply 500 msg
  end.

Definition internal_error (e : BrokerError) : Reply := error_reply 500 (broker_error_text e).

Definition build_fail_flow_payload (b : FailFlowReq) : result ApiError Value :=
  if negb (bool_decide (kind b ∈ ALLOWED_KINDS)) then Err (InvalidData "kind must be one of the kinds of flows") else
  if blank (reason b) || (512 <? Z.of_nat (String.length (reason b))) then Err (InvalidData "reason must be 1..=512 chars") else
  Ok (json_object [("Admin", json_object [("FailFlow",
    json_object [("kind", json_string (kind b)); ("flow_id", json_uuid (ff_flow_id b)); ("reason", json_string (reason b))])])]).

Definition build_apply_stream_payload (b : ApplyStreamReq) : Value := json_object [("ApplyToStream", apply_to_stream b)].

(** ** State *)

(** A [Notify] is a number. *)
Inductive FundingInfoState := FundingEmpty | Loading (notify : nat) | Ready (info : MemberFundingInfo).

(** Where a request for funding information stands: about to lock the state; with a
    [Notify] to wait on; waiting, woken or not; about to ask the coordinator; polling
    for the reply; with the result to store; answered *)
Inductive Task :=
| TLock
| TRegister (notify : nat)
| TWaiting (notify : nat) (woken : bool)
| TAsk
| TPoll (req_id : bytes) (deadline : Z)
| TStore (r : result Reply MemberFundingInfo)
| TDone (r : result Reply MemberFundingInfo).

(** The server with the requests it has handled, what it handed to the broker and
    what it received *)
Record Api := mkApi {
  funding_info_state : FundingInfoState;
  tasks : gmap nat Task;
  next_notify : nat;
  next_task : nat;
  handled : list HttpRequest;
  sent : list FromServer;
  received : list (ToServer * Identifier);
  api_env : E
}.

Definition new_api (e : E) : Api := mkApi FundingEmpty ∅ 0 0 [] [] [] e.

Definition set_funding (s : FundingInfoState) (w : Api) : Api :=
  mkApi s (tasks w) (next_notify w) (next_task w) (handled w) (sent w) (received w) (api_env w).
Definition set_tasks (ts : gmap nat Task) (w : Api) : Api :=
  mkApi (funding_info_state w) ts (next_notify w) (next_task w) (handled w) (sent w) (received w) (api_env w).
Definition set_api_env (e : E) (w : Api) : Api :=
  mkApi (funding_info_state w) (tasks w) (next_notify w) (next_task w) (handled w) (sent w) (received w) e.
Definition add_handled (req : HttpRequest) (w : Api) : Api :=
  mkApi (funding_info_state w) (tasks w) (next_notify w) (next_task w) (handled w ++ [req]) (sent w) (received w) (api_env w).

Definition on_api_env {X A} (m : SR E X A) : SR Api X A := zoom api_env set_api_env m.

(** ** The broker *)

Definition send (msg : FromServer) : SR Api Reply unit :=
  fun w => let '(r, e) := server_send msg destination (api_env w) in
           (match r with Ok tt => Ok tt | Err y => Err (internal_error y) end,
            mkApi (funding_info_state w) (tasks w) (next_notify w) (next_task w) (handled w) (sent w ++ [msg]) (received w) e).

Definition try_recv : SR Api Reply (option (ToServer * Identifier)) :=
  fun w => let '(r, e) := server_recv (api_env w) in
           (match r with Ok o => Ok o | Err y => Err (internal_error y) end,
            mkApi (funding_info_state w) (tasks w) (next_notify w) (next_task w) (handled w) (sent w)
              (received w ++ match r with Ok (Some m) => [m] | _ => [] end) e).

(** ** Requests for funding information *)

Definition put_task (i : nat) (t : Task) (w : Api) : Api := set_tasks (<[i := t]> (tasks w)) w.

(** [request_funding_info]: the locked block at the head of the loop *)
Definition lock_state (i : nat) (w : Api) : Api :=
  match funding_info_state w with
  | Ready info => put_task i (TDone (Ok info)) w
  | Loading n => put_task i (TRegister n) w
  | FundingEmpty =>
      put_task i TAsk (mkApi (Loading (next_notify w)) (tasks w) (S (next_notify w)) (next_task w) (handled w) (sent w) (received w)
        (api_env w))
  end.

(** [fetch_funding_info]: the request, with nine seconds to answer *)
Definition ask (i : nat) (w : Api) : Api :=
  let '(req_id, e) := new_uuid (api_env w) in
  let '(now, e) := instant_now e in
  match send (FromMemberRequest req_id) (set_api_env e w) with
  | (Ok tt, w) => put_task i (TPoll req_id (now + 9000)) w
  | (Err y, w) => put_task i (TStore (Err y)) w
  end.

(** A round of its loop; messages that are not the reply are dropped. *)
Definition poll_reply (i : nat) (req_id : bytes) (deadline : Z) (w : Api) : Api :=
  let '(now, e) := instant_now (api_env w) in
  let w := set_api_env e w in
  if deadline <=? now then put_task i (TStore (Err (error_reply 408 "timed out waiting for member funding info"))) w else
  match try_recv w with
  | (Err y, w) => put_task i (TStore (Err y)) w
  | (Ok (Some (ToMemberFundingInfo response_id info, sender)), w) =>
      if bool_decide (response_id = req_id) && bool_decide (sender = destination) then put_task i (TStore (Ok info)) w
      else put_task i (TPoll req_id deadline) w
  | (Ok (Some (ToBitVmxWalletError response_id error, sender)), w) =>
      if bool_decide (response_id = req_id) && bool_decide (sender = destination) then put_task i (TStore (Err (error_reply 500 error))) w
      else put_task i (TPoll req_id deadline) w
  | (Ok _, w) => put_task i (TPoll req_id deadline) w
  end.

(** [Notify::notify_waiters] wakes those that wait. *)
Definition wake (n : nat) (t : Task) : Task :=
  match t with TWaiting n' woken => TWaiting n' (woken || (n =? n')%nat) | t => t end.

(** The second locked block: the result is stored and the waiting requests woken. *)
Definition store_result (i : nat) (r : result Reply MemberFundingInfo) (w : Api) : Api :=
  let woken := match funding_info_state w with Loading n => wake n <$> tasks w | _ => tasks w end in
  set_funding (match r with Ok info => Ready info | Err _ => FundingEmpty end) (set_tasks (<[i := TDone r]> woken) w).

(** A request goes on to its next [await], unless it waits or is answered. *)
Definition advance (i : nat) (w : Api) : option Api :=
  match tasks w !! i with
  | Some TLock => Some (lock_state i w)
  | Some (TRegister n) => Some (put_task i (TWaiting n false) w)
  | Some (TWaiting _ true) => Some (put_task i TLock w)
  | Some TAsk => Some (ask i w)
  | Some (TPoll req_id deadline) => Some (poll_reply i req_id deadline w)
  | Some (TStore r) => Some (store_result i r w)
  | Some (TWaiting _ false) | Some (TDone _) | None => None
  end.

Definition arrive (w : Api) : Api :=
  mkApi (funding_info_state w) (<[next_task w := TLock]> (tasks w)) (next_notify w) (S (next_task w)) (handled w) (sent w) (received w)
    (api_env w).

(** The reply of [member_funding_info] *)
Definition member_funding_info (r : result Reply MemberFundingInfo) : Reply :=
  match r with
  | Ok info => (200, json_object [("bitcoin_address", json_string (bitcoin_address info)); ("rsk_address", json_string (rsk_address info))])
  | Err reply => reply
  end.

(** ** Other requests *)

(** A reply either way *)
Definition reply_of (m : SR Api Reply Reply) : Api -> Reply * Api :=
  fun w => match m w with (Ok r, w) => (r, w) | (Err r, w) => (r, w) end.

Definition health_check : SR Api Reply Reply := mret (200, json_object [("status", json_string "ok")]).

Definition admin_fail_flow (req : HttpRequest) : SR Api Reply Reply :=
  b ← slift (read_fail_flow (body req));
  match build_fail_flow_payload b with
  | Err y => mret (into_response y)
  | Ok payload => _ ← send (FromUserRequest payload); mret (202, json_object [("result", json_string "accepted")])
  end.

(** [verify_admin_request], before the body is read *)
Definition verify_admin_request (req : HttpRequest) (next : SR Api Reply Reply) : SR Api Reply Reply :=
  match verify_admin_auth admin_token (authorization req) with
  | Err y => mret (into_response y)
  | Ok tt => next
  end.

Definition apply_stream (req : HttpRequest) : SR Api Reply Reply :=
  b ← slift (read_apply_stream (body req));
  _ ← send (FromUserRequest (build_apply_stream_payload b));
  mret (200, json_object [("result", json_string "ok")]).

(** A call of the contracts, with its error as a reply *)
Definition contracts_reply (m : SR E string Value) (ok : Value -> Value) : SR Api Reply Reply :=
  fun w => match on_api_env m w with
           | (Ok data, w) => (Ok (200, ok data), w)
           | (Err y, w) => (Ok (error_reply 500 y), w)
           end.

Definition pegin_address (req : HttpRequest) : SR Api Reply Reply :=
  b ← slift (read_pegin_address (body req));
  if negb (is_valid_xonly_pubkey (btc_reimbursement_pub_key b))
  then mret (error_reply 400 "btc_reimbursement_pub_key must be a valid 32-byte x-only public key hex string with 0x prefix (66 chars total)")
  else contracts_reply (get_temporary_pegin_address b) id.

Definition user_rsk_address : SR Api Reply Reply :=
  w ← sget; mret (200, json_object [("address", json_string (my_address (api_env w)))]).

Definition handle_request_pegout (req : HttpRequest) : SR Api Reply Reply :=
  b ← slift (read_request_pegout (body req));
  if bool_decide (usr_pub_key b = "") then mret (error_reply 400 "usr_pub_key is required") else
  if negb (is_valid_compressed_pubkey (usr_pub_key b))
  then mret (error_reply 400 "usr_pub_key must be a valid 33-byte compressed public key hex string with 0x prefix (68 chars total)")
  else contracts_reply (request_pegout b) (fun hash => json_object [("result", json_string "ok"); ("transaction_hash", hash)]).

Definition no_route (status : Z) : SR Api Reply Reply := mret (status, json_object []).

(** [get] also takes the method HEAD. *)
Definition is_get (req : HttpRequest) : bool := bool_decide (http_method req ∈ ["GET"; "HEAD"]).
Definition is_post (req : HttpRequest) : bool := bool_decide (http_method req = "POST").

(** The routes; another method on a path is not allowed. *)
Definition route (req : HttpRequest) : SR Api Reply Reply :=
  let at_path (p : string) := bool_decide (path req = p) in
  let only (allowed : bool) (h : SR Api Reply Reply) := if allowed then h else no_route 405 in
  if at_path "/health" then only (is_get req) health_check
  else if at_path "/user/pegin-address" then only (is_post req) (pegin_address req)
  else if at_path "/user/request-pegout" then only (is_post req) (handle_request_pegout req)
  else if at_path "/user/rsk-address" then only (is_get req) user_rsk_address
  else if at_path "/member/apply-stream" then only (is_post req) (apply_stream req)
  else if at_path "/member/funding-info" then no_route 405
  else if at_path "/admin/fail-flow" then verify_admin_request req (only (is_post req) (admin_fail_flow req))
  else no_route 404.

Definition is_funding_info (req : HttpRequest) : bool := is_get req && bool_decide (path req = "/member/funding-info").

Definition handle_request (req : HttpRequest) (w : Api) : Reply * Api := reply_of (route req) (add_handled req w).

(** ** Runs *)

(** A task that is dropped leaves the state as it is. *)
Definition drop_task (i : nat) (w : Api) : Api := set_tasks (delete i (tasks w)) w.

Inductive api_step : Api -> Api -> Prop :=
| StepRequest req w : is_funding_info req = false -> api_step w (handle_request req w).2
| StepArrive w : api_step w (arrive w)
| StepAdvance i w w' : advance i w = Some w' -> api_step w w'
| StepCancel i w t : tasks w !! i = Some t -> (forall r, t <> TDone r) -> api_step w (drop_task i w).

Definition api_runs (e : E) : Api -> Prop := rtc api_step (new_api e).

Lemma api_runs_ind e (P : Api -> Prop) :
  P (new_api e) -> (forall w w', P w -> api_step w w' -> P w') -> forall w, api_runs e w -> P w.
Proof. intros H0' Hstep w Hrun. revert H0'. unfold api_runs in Hrun. induction Hrun; eauto. Qed.

(** ** What reaches the coordinator *)

(** The request carries the token of the administrators. *)
Definition authorised (req : HttpRequest) : Prop :=
  path req = "/admin/fail-flow" /\ http_method req = "POST" /\
  exists token, admin_token = Some token /\ token <> "" /\ authorization req = Some ("Bearer " +:+ token).

Lemma verify_admin_auth_ok req :
  verify_admin_auth admin_token (authorization req) = Ok tt ->
  exists token, admin_token = Some token /\ token <> "" /\ authorization req = Some ("Bearer " +:+ token).
Proof.
  unfold verify_admin_auth. destruct admin_token as [[|c token]|]; [done| |done].
  case_bool_decide as Hp; [|done]. intros _. destruct (authorization req) as [auth|]; [|done]. cbn [mbind option_bind] in Hp.
  apply strip_prefix_Some in Hp as ->. eauto.
Qed.

(** What a message to the coordinator comes from *)
Definition justified (reqs : list HttpRequest) (msg : FromServer) : Prop :=
  match msg with
  | FromMemberRequest _ => True
  | FromUserRequest v =>
      (exists b, v = build_apply_stream_payload b) \/
      (exists req b, req ∈ reqs /\ authorised req /\ read_fail_flow (body req) = Ok b /\ build_fail_flow_payload b = Ok v)
  | _ => False
  end.

Lemma justified_more reqs reqs' msg : reqs ⊆ reqs' -> justified reqs msg -> justified reqs' msg.
Proof.
  intros Hsub. destruct msg; cbn; try done. intros [?|(r & b & Hr & Hrest)]; [by left|]. right. exists r, b. split; [|done].
  by apply Hsub.
Qed.

(** Requests leave the funding information alone; the messages they send are justified. *)
Definition harmless (reqs : list HttpRequest) (m : SR Api Reply Reply) : Prop :=
  forall w, exists msgs, (m w).2 = mkApi (funding_info_state w) (tasks w) (next_notify w) (next_task w) (handled w) (sent w ++ msgs)
    (received w) (api_env (m w).2) /\ Forall (fun msg => justified reqs msg /\ forall id, msg <> FromMemberRequest id) msgs.

Lemma harmless_pure reqs (m : SR Api Reply Reply) : (forall w, (m w).2 = set_api_env (api_env (m w).2) w) -> harmless reqs m.
Proof. intros Hm w. exists []. rewrite app_nil_r. by rewrite Hm at 1. Qed.

Lemma harmless_ret reqs r : harmless reqs (mret r).
Proof. apply harmless_pure. by intros []. Qed.

Lemma harmless_read {B} reqs (x : result Reply B) (k : B -> SR Api Reply Reply) :
  (forall b, x = Ok b -> harmless reqs (k b)) -> harmless reqs (slift x ≫= k).
Proof. destruct x as [b|y]; intros Hk; [exact (Hk b eq_refl)|]. apply harmless_pure. by intros []. Qed.

Lemma harmless_contracts reqs m ok : harmless reqs (contracts_reply m ok).
Proof.
  apply harmless_pure. intros w. unfold contracts_reply, on_api_env, zoom. by destruct (m (api_env w)) as [[] e], w.
Qed.

Lemma harmless_send reqs v (r : Reply) :
  justified reqs (FromUserRequest v) -> harmless reqs (_ ← send (FromUserRequest v); mret r).
Proof.
  intros Hv w. exists [FromUserRequest v]. unfold send, mbind, SR_bind.
  destruct (server_send _ _ _) as [[[]|y] e]; (split; [done|by constructor]).
Qed.

Lemma harmless_admin req :
  path req = "/admin/fail-flow" -> harmless [req] (verify_admin_request req (if is_post req then admin_fail_flow req else no_route 405)).
Proof.
  intros Hpath. unfold verify_admin_request. destruct (verify_admin_auth _ _) as [[]|y] eqn:Hauth; [|apply harmless_ret].
  destruct (is_post req) eqn:Hpost; [|apply harmless_ret]. apply harmless_read. intros b Hb.
  destruct (build_fail_flow_payload b) as [v|y] eqn:Hv; [|apply harmless_ret]. apply harmless_send. right.
  exists req, b. split; [by left|]. split; [|done]. apply bool_decide_eq_true in Hpost. split_and!; [done|done|].
  by apply verify_admin_auth_ok.
Qed.

Lemma harmless_route req : harmless [req] (route req).
Proof.
  unfold route. case_bool_decide; [destruct (is_get req); apply harmless_ret|].
  case_bool_decide. { destruct (is_post req); [|apply harmless_ret]. apply harmless_read. intros b _.
    destruct (negb _); [apply harmless_ret|apply harmless_contracts]. }
  case_bool_decide. { destruct (is_post req); [|apply harmless_ret]. apply harmless_read. intros b _.
    case_bool_decide; [apply harmless_ret|]. destruct (negb _); [apply harmless_ret|apply harmless_contracts]. }
  case_bool_decide; [destruct (is_get req); apply harmless_pure; by intros []|].
  case_bool_decide. { destruct (is_post req); [|apply harmless_ret]. apply harmless_read. intros b _. apply harmless_send. left. by exists b. }
  case_bool_decide; [apply harmless_ret|]. case_bool_decide; [|apply harmless_ret]. by apply harmless_admin.
Qed.

Lemma handle_frame req w :
  exists msgs e, (handle_request req w).2 =
    mkApi (funding_info_state w) (tasks w) (next_notify w) (next_task w) (handled w ++ [req]) (sent w ++ msgs) (received w) e /\
    Forall (fun msg => justified [req] msg /\ forall id, msg <> FromMemberRequest id) msgs.
Proof.
  destruct (harmless_route req (add_handled req w)) as (msgs & Hw & Hmsgs). exists msgs, (api_env (route req (add_handled req w)).2). split; [|exact Hmsgs].
  unfold handle_request, reply_of. destruct (route req (add_handled req w)) as [[r|r] w']; exact Hw.
Qed.

(** A request for funding information hands the broker at most a request to the member. *)
Lemma advance_frame i w w' :
  advance i w = Some w' ->
  handled w' = handled w /\ next_task w' = next_task w /\
  exists msgs recs, sent w' = sent w ++ msgs /\ received w' = received w ++ recs /\
    Forall (fun msg => exists id, msg = FromMemberRequest id) msgs.
Proof.
  unfold advance. destruct (tasks w !! i) as [t|]; [|done].
  destruct t as [|n|n []| |req_id deadline|r|r]; intros [= <-].
  - unfold lock_state. destruct (funding_info_state w); (split_and!; [done..|]; exists [], []; by rewrite !app_nil_r).
  - split_and!; [done..|]. exists [], []. by rewrite !app_nil_r.
  - split_and!; [done..|]. exists [], []. by rewrite !app_nil_r.
  - unfold ask, send. destruct (new_uuid (api_env w)) as [id e]. destruct (instant_now e) as [now e']. cbn.
    destruct (server_send _ _ _) as [[[]|y] e2]; (split_and!; [done..|]; exists [FromMemberRequest id], []; rewrite app_nil_r;
      split_and!; [done|done|]; constructor; [by exists id|done]).
  - unfold poll_reply, try_recv. destruct (instant_now (api_env w)) as [now e]. cbn.
    destruct (deadline <=? now); [split_and!; [done..|]; exists [], []; by rewrite !app_nil_r|].
    destruct (server_recv e) as [[[[m sender]|]|y] e2]; cbn.
    + destruct m; repeat case_match; (split_and!; [done..|]; exists []; eexists; rewrite app_nil_r; split_and!; [done|done|done]).
    + split_and!; [done..|]. exists [], []. by rewrite !app_nil_r.
    + split_and!; [done..|]. exists [], []. by rewrite !app_nil_r.
  - split_and!; [done..|]. exists [], []. by rewrite !app_nil_r.
Qed.

Lemma run_justified e w : api_runs e w -> Forall (justified (handled w)) (sent w).
Proof.
  revert w. apply api_runs_ind; [by constructor|]. intros w w' Hw Hstep. destruct Hstep as [req w _|w|i w w' Hadv|i w t Ht _]; [|done| |done].
  - destruct (handle_frame req w) as (msgs & e' & -> & Hmsgs). cbn. apply Forall_app. split.
    + eapply Forall_impl; [exact Hw|]. intros msg. apply justified_more. set_solver.
    + eapply Forall_impl; [exact Hmsgs|]. intros msg [Hm _]. eapply justified_more; [|exact Hm]. set_solver.
  - destruct (advance_frame _ _ _ Hadv) as (-> & _ & msgs & recs & -> & _ & Hmsgs). apply Forall_app. split; [done|].
    eapply Forall_impl; [exact Hmsgs|]. by intros ? [id ->].
Qed.

Lemma fail_flow_payload b v :
  build_fail_flow_payload b = Ok v ->
  kind b ∈ ALLOWED_KINDS /\ blank (reason b) = false /\ Z.of_nat (String.length (reason b)) <= 512 /\
  v = json_object [("Admin", json_object [("FailFlow",
    json_object [("kind", json_string (kind b)); ("flow_id", json_uuid (ff_flow_id b)); ("reason", json_string (reason b))])])].
Proof.
  unfold build_fail_flow_payload. case_bool_decide; [|done]. cbn [negb]. destruct (blank (reason b)); [done|].
  destruct (512 <? _) eqn:Hlen; [done|]. reflect_bool. cbn [orb]. intros [= <-]. split_and!; [done|done|lia|done].
Qed.

(** C24: only administrators reach the coordinator as such.  In every run of the server, a message that the
    coordinator reads as an administrator's request was caused by a request to
    [/admin/fail-flow] that carried the configured token, which is not empty; it is
    that request's, for one of the four kinds of flows and with a reason of at most 512
    bytes that is not blank.  Members, whose requests are handed on as they are, cannot
    forge one. *)
Theorem admin_requests_authorised from_value `{!SerdeRequests from_value} e w v r :
  api_runs e w -> FromUserRequest v ∈ sent w -> from_value v = Some (Admin r) ->
  exists req b flow_kind, req ∈ handled w /\ authorised req /\ read_fail_flow (body req) = Ok b /\
    r = FailFlow flow_kind (ff_flow_id b) (reason b) /\ kind b ∈ ALLOWED_KINDS /\ blank (reason b) = false /\
    Z.of_nat (String.length (reason b)) <= 512.
Proof.
  intros Hrun Hv Hr. pose proof (run_justified e w Hrun) as Hall. rewrite Forall_forall in Hall.
  destruct (Hall _ Hv) as [[b ->]|(req & b & Hreq & Hauth & Hread & Hb)].
  - apply tag_apply in Hr as [? ?]. done.
  - destruct (fail_flow_payload b v Hb) as (Hk & Hblank & Hlen & ->). apply tag_fail_flow in Hr as [flow_kind [= ->]].
    exists req, b, flow_kind. done.
Qed.

(** ** Funding information *)

(** The coordinator sent the information in reply to a request of the server. *)
Definition answered (w : Api) (info : MemberFundingInfo) : Prop :=
  exists id, FromMemberRequest id ∈ sent w /\ (ToMemberFundingInfo id info, destination) ∈ received w.

Definition task_ok (w : Api) (t : Task) : Prop :=
  match t with
  | TPoll id _ => FromMemberRequest id ∈ sent w
  | TStore (Ok info) | TDone (Ok info) => answered w info
  | _ => True
  end.

(** The request that asks the coordinator for all *)
Definition asking (t : Task) : bool := match t with TAsk | TPoll _ _ | TStore _ => true | _ => false end.
Definition waits_on (t : Task) : option nat := match t with TRegister n | TWaiting n _ => Some n | _ => None end.

Record api_ok (w : Api) : Prop := {
  ok_ids : forall i t, tasks w !! i = Some t -> (i < next_task w)%nat;
  ok_task : forall i t, tasks w !! i = Some t -> task_ok w t;
  ok_ready : forall info, funding_info_state w = Ready info -> answered w info;
  ok_loading : forall i t, tasks w !! i = Some t -> asking t = true -> exists n, funding_info_state w = Loading n;
  ok_one : forall i j ti tj, tasks w !! i = Some ti -> tasks w !! j = Some tj -> asking ti = true -> asking tj = true -> i = j;
  ok_notify : forall n, funding_info_state w = Loading n -> (n < next_notify w)%nat;
  ok_waits : forall i t n, tasks w !! i = Some t -> waits_on t = Some n -> (n < next_notify w)%nat
}.

Lemma answered_more w w' info : sent w ⊆ sent w' -> received w ⊆ received w' -> answered w info -> answered w' info.
Proof. intros Hs Hr (id & Hsent & Hrec). exists id. auto. Qed.

Lemma task_ok_more w w' t : sent w ⊆ sent w' -> received w ⊆ received w' -> task_ok w t -> task_ok w' t.
Proof. intros Hs Hr. destruct t as [| | | | |[]|[]]; cbn; try done; try by apply answered_more. apply Hs. Qed.

(** A task takes another state, the funding information stays. *)
Lemma put_ok i t t' w w' :
  api_ok w -> tasks w !! i = Some t -> tasks w' = <[i := t']> (tasks w) -> funding_info_state w' = funding_info_state w ->
  next_notify w' = next_notify w -> next_task w' = next_task w -> sent w ⊆ sent w' -> received w ⊆ received w' ->
  task_ok w' t' -> (asking t' = true -> asking t = true) -> (forall n, waits_on t' = Some n -> (n < next_notify w)%nat) -> api_ok w'.
Proof.
  intros [Hids Htask Hready Hload Hone Hnot Hwaits] Ht Hts Hf Hnn Hnt Hs Hr Hok Hask Hw. split; rewrite ?Hts, ?Hf, ?Hnn, ?Hnt.
  - intros j tj [[<- _]|[_ Hj]]%lookup_insert_Some; eauto.
  - intros j tj [[<- <-]|[_ Hj]]%lookup_insert_Some; [done|]. eapply task_ok_more; eauto.
  - intros info Hi. eapply answered_more; eauto.
  - intros j tj [[<- <-]|[_ Hj]]%lookup_insert_Some; eauto.
  - intros j k tj tk [[<- <-]|[Hne Hj]]%lookup_insert_Some [[<- <-]|[Hne' Hk]]%lookup_insert_Some Haj Hak; eauto.
  - done.
  - intros j tj n [[<- <-]|[_ Hj]]%lookup_insert_Some; eauto.
Qed.

Ltac same_logs := cbn; rewrite ?app_nil_r; set_solver.

Lemma ask_ok i w : api_ok w -> tasks w !! i = Some TAsk -> api_ok (ask i w).
Proof.
  intros Hw Ht. unfold ask, send. destruct (new_uuid (api_env w)) as [id e]. destruct (instant_now e) as [now e']. cbn.
  destruct (server_send _ _ _) as [[[]|y] e2]; (eapply put_ok; [exact Hw|exact Ht|reflexivity|done|done|done|same_logs|same_logs| |done|done]);
    cbn; set_solver.
Qed.

Lemma poll_ok i id deadline w : api_ok w -> tasks w !! i = Some (TPoll id deadline) -> api_ok (poll_reply i id deadline w).
Proof.
  intros Hw Ht. pose proof (ok_task w Hw i _ Ht) as Hid. cbn in Hid.
  assert (Hput : forall t' e recs, asking t' = true -> waits_on t' = None ->
    task_ok (mkApi (funding_info_state w) (<[i := t']> (tasks w)) (next_notify w) (next_task w) (handled w) (sent w) (received w ++ recs) e) t' ->
    api_ok (mkApi (funding_info_state w) (<[i := t']> (tasks w)) (next_notify w) (next_task w) (handled w) (sent w) (received w ++ recs) e)).
  { intros t' e recs Hask Hwait Hok. eapply put_ok; [exact Hw|exact Ht|reflexivity|done|done|done|same_logs|same_logs|exact Hok|done|].
    intros n Hn. congruence. }
  unfold poll_reply, try_recv. destruct (instant_now (api_env w)) as [now e]. cbn.
  destruct (deadline <=? now).
  { specialize (Hput (TStore (Err (error_reply 408 "timed out waiting for member funding info"))) e []). rewrite app_nil_r in Hput. by apply Hput. }
  destruct (server_recv e) as [[[[m sender]|]|y] e2]; cbn; [|by apply Hput|by apply Hput].
  destruct m as [| | | |response_id info|response_id error]; try (by apply Hput).
  - destruct (bool_decide (response_id = id) && bool_decide (sender = destination)) eqn:Hmatch; [|by apply Hput].
    reflect_bool. subst. apply Hput; [done..|]. exists id. split; [done|]. cbn. set_solver.
  - destruct (bool_decide (response_id = id) && bool_decide (sender = destination)); by apply Hput.
Qed.

Lemma lock_ok i w : api_ok w -> tasks w !! i = Some TLock -> api_ok (lock_state i w).
Proof.
  intros Hw Ht. unfold lock_state. destruct (funding_info_state w) as [|n|info] eqn:Hf.
  - destruct Hw as [Hids Htask Hready Hload Hone Hnot Hwaits].
    assert (Hnone : forall j tj, tasks w !! j = Some tj -> asking tj = true -> False).
    { intros j tj Hj Ha. destruct (Hload j tj Hj Ha) as [n Hn]. congruence. }
    split; cbn.
    + intros j tj [[<- _]|[_ Hj]]%lookup_insert_Some; eauto.
    + intros j tj [[<- <-]|[_ Hj]]%lookup_insert_Some; [done|]. by apply (task_ok_more w), (Htask j).
    + done.
    + eauto.
    + intros j k tj tk [[<- <-]|[Hne Hj]]%lookup_insert_Some [[<- <-]|[Hne' Hk]]%lookup_insert_Some Haj Hak; [done|..]; exfalso; eauto.
    + intros n [= <-]. lia.
    + intros j tj n [[<- <-]|[_ Hj]]%lookup_insert_Some Hn; [done|]. specialize (Hwaits j tj n Hj Hn). lia.
  - eapply put_ok; [exact Hw|exact Ht|reflexivity|by cbn; rewrite Hf|done|done|done|done|done|done|]. intros m [= <-]. by apply Hw.
  - eapply put_ok; [exact Hw|exact Ht|reflexivity|by cbn; rewrite Hf|done|done|done|done| |done|done]. cbn.
    by apply (answered_more w), (ok_ready w Hw).
Qed.

Lemma wake_same n t : waits_on (wake n t) = waits_on t /\ asking (wake n t) = asking t /\ forall w, task_ok w (wake n t) <-> task_ok w t.
Proof. by destruct t. Qed.

Lemma store_ok i r w : api_ok w -> tasks w !! i = Some (TStore r) -> api_ok (store_result i r w).
Proof.
  intros Hw Ht. pose proof (ok_task w Hw i _ Ht) as Hr. destruct (ok_loading w Hw i _ Ht eq_refl) as [n Hn].
  unfold store_result. rewrite Hn. destruct Hw as [Hids Htask Hready Hload Hone Hnot Hwaits].
  assert (Hother : forall j tj, j <> i -> (wake n <$> tasks w) !! j = Some tj -> exists t, tasks w !! j = Some t /\ tj = wake n t /\ asking t = false).
  { intros j tj Hne. rewrite lookup_fmap, fmap_Some. intros (t & Hj & ->). exists t. split_and!; [done|done|].
    destruct (asking t) eqn:Ha; [|done]. destruct Hne. by eapply Hone. }
  split; cbn.
  - intros j tj [[<- _]|[Hne Hj]]%lookup_insert_Some; [eauto|]. destruct (Hother j tj ltac:(done) Hj) as (t & Hj' & _). eauto.
  - intros j tj [[<- <-]|[Hne Hj]]%lookup_insert_Some; [by apply (task_ok_more w)|].
    destruct (Hother j tj ltac:(done) Hj) as (t & Hj' & -> & _). apply wake_same. by apply (task_ok_more w), (Htask j).
  - intros info Hi. destruct r as [info'|y]; [|done]. injection Hi as ->. by apply (answered_more w).
  - intros j tj [[<- <-]|[Hne Hj]]%lookup_insert_Some; [done|]. destruct (Hother j tj ltac:(done) Hj) as (t & _ & -> & Ha).
    destruct (wake_same n t) as (_ & -> & _). congruence.
  - intros j k tj tk [[<- <-]|[Hne Hj]]%lookup_insert_Some; [done|]. destruct (Hother j tj ltac:(done) Hj) as (t & _ & -> & Ha).
    destruct (wake_same n t) as (_ & -> & _). congruence.
  - intros m Hm. destruct r; done.
  - intros j tj m [[<- <-]|[Hne Hj]]%lookup_insert_Some; [done|]. destruct (Hother j tj ltac:(done) Hj) as (t & Hj' & -> & _).
    destruct (wake_same n t) as (-> & _ & _). eauto.
Qed.

Lemma advance_ok i w w' : api_ok w -> advance i w = Some w' -> api_ok w'.
Proof.
  intros Hw. unfold advance. destruct (tasks w !! i) as [t|] eqn:Ht; [|done].
  destruct t as [|n|n []| |req_id deadline|r|r]; intros [= <-]; [by apply lock_ok| | |by apply ask_ok|by apply poll_ok|by apply store_ok].
  - eapply put_ok; [exact Hw|exact Ht|reflexivity|done|done|done|done|done|done|done|]. intros m [= <-]. by apply (ok_waits w Hw i _ n Ht).
  - by eapply put_ok; [exact Hw|exact Ht|reflexivity|..].
Qed.

Lemma step_ok w w' : api_ok w -> api_step w w' -> api_ok w'.
Proof.
  intros Hw Hstep. destruct Hstep as [req w _|w|i w w' Hadv|i w t Ht _]; [| |by eapply advance_ok|].
  - destruct (handle_frame req w) as (msgs & e & -> & _). destruct Hw as [Hids Htask Hready Hload Hone Hnot Hwaits]. split; cbn; try done.
    + intros i t Hi. apply (task_ok_more w); [cbn; set_solver..|by eapply Htask].
    + intros info Hi. apply (answered_more w); [cbn; set_solver..|by apply Hready].
  - destruct Hw as [Hids Htask Hready Hload Hone Hnot Hwaits]. split; cbn; try done.
    + intros i t [[<- _]|[_ Hi]]%lookup_insert_Some; [lia|]. specialize (Hids i t Hi). lia.
    + intros i t [[_ <-]|[_ Hi]]%lookup_insert_Some; [done|]. by apply (task_ok_more w), (Htask i).
    + intros i t [[_ <-]|[_ Hi]]%lookup_insert_Some; [done|eauto].
    + intros i j ti tj [[_ <-]|[_ Hi]]%lookup_insert_Some [[_ <-]|[_ Hj]]%lookup_insert_Some; [done..|eauto].
    + intros i t n [[_ <-]|[_ Hi]]%lookup_insert_Some; [done|eauto].
  - destruct Hw as [Hids Htask Hready Hload Hone Hnot Hwaits]. split; cbn; try done.
    + intros j tj [_ Hj]%lookup_delete_Some. eauto.
    + intros j tj [_ Hj]%lookup_delete_Some. by apply (task_ok_more w), (Htask j).
    + intros j tj [_ Hj]%lookup_delete_Some. eauto.
    + intros j k tj tk [_ Hj]%lookup_delete_Some [_ Hk]%lookup_delete_Some. eauto.
    + intros j tj n [_ Hj]%lookup_delete_Some. eauto.
Qed.

Lemma api_run_ok e w : api_runs e w -> api_ok w.
Proof. revert w. apply api_runs_ind; [|exact step_ok]. by split; cbn. Qed.

(** C25: funding information is the coordinator's.  In every run of the server, through any interleaving of
    requests and whichever of them are dropped, a request is answered with information
    only if the coordinator sent it in reply to a request of the server, and at most
    one request at a time asks the coordinator. *)
Theorem funding_info_genuine e w :
  api_runs e w ->
  (forall i info, tasks w !! i = Some (TDone (Ok info)) -> answered w info) /\
  (forall i j ti tj, tasks w !! i = Some ti -> tasks w !! j = Some tj -> asking ti = true -> asking tj = true -> i = j).
Proof.
  intros Hrun%api_run_ok. split; [|by apply ok_one]. intros i info Hi. by apply (ok_task w Hrun i _ Hi).
Qed.

(** *** What a dropped request leaves behind *)

Definition is_member_request (msg : FromServer) : bool := match msg with FromMemberRequest _ => true | _ => false end.
Definition member_requests (w : Api) : list FromServer := filter (fun msg => is_member_request msg = true) (sent w).

(** The state says that a request asks, but none does. *)
Definition orphaned (n : nat) (w : Api) : Prop :=
  funding_info_state w = Loading n /\ forall i t, tasks w !! i = Some t -> asking t = false.

Lemma orphaned_step n w w' :
  orphaned n w -> api_step w w' ->
  orphaned n w' /\ member_requests w' = member_requests w /\
  forall i r, tasks w' !! i = Some (TDone r) -> tasks w !! i = Some (TDone r).
Proof.
  intros [Hn Hnone] Hstep. destruct Hstep as [req w _|w|i w w' Hadv|i w t Ht Hlive].
  - destruct (handle_frame req w) as (msgs & e & -> & Hmsgs). split_and!; [done| |done]. unfold member_requests. cbn. rewrite filter_app.
    assert (filter (fun msg => is_member_request msg = true) msgs = []) as ->; [|by rewrite app_nil_r].
    induction Hmsgs as [|msg msgs [_ Hmsg] _ IH]; [done|]. rewrite filter_cons, decide_False; [done|].
    destruct msg; try done. by destruct (Hmsg req_id).
  - split_and!; [split; [done|]|done|].
    + cbn. intros i t [[_ <-]|[_ Hi]]%lookup_insert_Some; [done|eauto].
    + cbn. by intros i r [[_ ?]|[_ Hi]]%lookup_insert_Some.
  - unfold advance in Hadv. destruct (tasks w !! i) as [t|] eqn:Ht; [|done].
    assert (Hput : forall t', asking t' = false -> (forall r, t' <> TDone r) ->
      orphaned n (put_task i t' w) /\ member_requests (put_task i t' w) = member_requests w /\
      forall j r, tasks (put_task i t' w) !! j = Some (TDone r) -> tasks w !! j = Some (TDone r)).
    { intros t' Ha Hd. split_and!; [split; [done|]|done|]; cbn.
      - intros j tj [[_ <-]|[_ Hj]]%lookup_insert_Some; [done|eauto].
      - intros j r [[_ Hr]|[_ Hj]]%lookup_insert_Some; [by destruct (Hd r)|done]. }
    specialize (Hnone i t Ht).
    destruct t as [|m|m []| |req_id deadline|r|r]; try done; injection Hadv as <-; try by apply Hput.
    unfold lock_state. rewrite Hn. by apply Hput.
  - split_and!; [split; [done|]|done|]; cbn.
    + intros j tj [_ Hj]%lookup_delete_Some. eauto.
    + by intros j r [_ Hj]%lookup_delete_Some.
Qed.

Lemma orphaned_run n w w' :
  rtc api_step w w' -> orphaned n w ->
  orphaned n w' /\ member_requests w' = member_requests w /\
  forall i r, tasks w' !! i = Some (TDone r) -> tasks w !! i = Some (TDone r).
Proof.
  induction 1 as [w|w w1 w2 Hstep _ IH]; [done|]. intros Ho. destruct (orphaned_step n w w1 Ho Hstep) as (Ho1 & Hm1 & Hd1).
  destruct (IH Ho1) as (Ho2 & Hm2 & Hd2). split_and!; [done|congruence|auto].
Qed.

(** C39: a dropped request blocks the funding information for good.  When the request that asks the coordinator is dropped, as
    when its client goes away, no later request for funding information is ever
    answered, and the coordinator is never asked again. *)
Theorem dropped_request_blocks_funding_info e w i t w' :
  api_runs e w -> tasks w !! i = Some t -> asking t = true -> rtc api_step (drop_task i w) w' ->
  (exists n, funding_info_state w' = Loading n) /\ member_requests w' = member_requests w /\
  forall j r, tasks w' !! j = Some (TDone r) -> tasks w !! j = Some (TDone r).
Proof.
  intros Hrun%api_run_ok Ht Hask Hlater. destruct (ok_loading w Hrun i t Ht Hask) as [n Hn].
  destruct (orphaned_run n (drop_task i w) w' Hlater) as ([Hn' _] & Hm & Hd).
  - split; [done|]. cbn. intros j tj [Hne Hj]%lookup_delete_Some. destruct (asking tj) eqn:Ha; [|done].
    destruct Hne. by apply (ok_one w Hrun i j t tj).
  - split_and!; [by exists n|done|]. intros j r Hj. specialize (Hd j r Hj). cbn in Hd. by apply lookup_delete_Some in Hd as [_ Hd].
Qed.

(** *** Waiting too late *)

(** A request with a [Notify] that will not be used again *)
Definition late (i n : nat) (w : Api) : Prop :=
  (i < next_task w)%nat /\ (n < next_notify w)%nat /\ funding_info_state w <> Loading n /\
  (tasks w !! i = None \/ tasks w !! i = Some (TRegister n) \/ tasks w !! i = Some (TWaiting n false)).

Lemma advance_next i w w' : advance i w = Some w' -> (next_notify w <= next_notify w')%nat /\
  forall n, funding_info_state w' = Loading n -> funding_info_state w = Loading n \/ n = next_notify w.
Proof.
  unfold advance. destruct (tasks w !! i) as [t|]; [|done].
  destruct t as [|n|n []| |req_id deadline|r|r]; intros [= <-]; try (split; [done|by left]).
  - unfold lock_state. destruct (funding_info_state w) eqn:Hf; cbn; (split; [lia|]); rewrite ?Hf; [|auto..]. intros n [= <-]. by right.
  - unfold ask, send. destruct (new_uuid (api_env w)). destruct (instant_now _). cbn. destruct (server_send _ _ _) as [[[]|y] e2];
      (split; [done|by left]).
  - unfold poll_reply, try_recv. destruct (instant_now (api_env w)) as [now e]. cbn. destruct (deadline <=? now); [split; [done|by left]|].
    destruct (server_recv e) as [[[[m sender]|]|y] e2]; [destruct m; cbn; repeat case_match|..]; (split; [done|by left]).
  - unfold store_result. cbn. split; [done|]. by destruct r.
Qed.

(** Another task's step leaves a waiting one alone, or wakes it. *)
Lemma advance_other i j w w' : advance i w = Some w' -> j <> i ->
  tasks w' !! j = tasks w !! j \/ exists n, funding_info_state w = Loading n /\ tasks w' !! j = wake n <$> tasks w !! j.
Proof.
  intros Hadv Hne. unfold advance in Hadv. destruct (tasks w !! i) as [t|]; [|done].
  destruct t as [|n|n []| |req_id deadline|r|r]; try done; injection Hadv as <-;
    try (left; cbn; by rewrite lookup_insert_ne by done).
  - left. unfold lock_state. destruct (funding_info_state w); cbn; by rewrite lookup_insert_ne by done.
  - left. unfold ask, send. destruct (new_uuid (api_env w)). destruct (instant_now _). cbn. destruct (server_send _ _ _) as [[[]|y] e2];
      cbn; by rewrite lookup_insert_ne by done.
  - left. unfold poll_reply, try_recv. destruct (instant_now (api_env w)) as [now e]. cbn.
    destruct (deadline <=? now); [cbn; by rewrite lookup_insert_ne by done|].
    destruct (server_recv e) as [[[[m sender]|]|y] e2]; [destruct m; cbn; repeat case_match|..]; cbn; by rewrite lookup_insert_ne by done.
  - unfold store_result. cbn. rewrite lookup_insert_ne by done. destruct (funding_info_state w) as [|n|]; [by left| |by left].
    right. exists n. split; [done|]. by rewrite lookup_fmap.
Qed.

Lemma late_step i n w w' : late i n w -> api_step w w' -> late i n w'.
Proof.
  intros (Hi & Hn & Hf & Ht) Hstep. destruct Hstep as [req w _|w|j w w' Hadv|j w t Hj _].
  - destruct (handle_frame req w) as (msgs & e & -> & _). done.
  - split_and!; cbn; [lia|done|done|]. rewrite lookup_insert_ne by lia. done.
  - destruct (advance_next j w w' Hadv) as [Hnext Hload]. destruct (advance_frame j w w' Hadv) as (_ & Hnt & _).
    split_and!; [lia|lia|intros Hl; destruct (Hload n Hl); [done|lia]|]. destruct (decide (i = j)) as [<-|Hne].
    + unfold advance in Hadv. destruct Ht as [Ht|[Ht|Ht]]; rewrite Ht in Hadv; try done. injection Hadv as <-.
      right. right. cbn. by rewrite lookup_insert_eq.
    + destruct (advance_other j i w w' Hadv ltac:(done)) as [->|(m & Hm & ->)]; [done|].
      destruct Ht as [->|[->| ->]]; cbn; [by left|by right; left|]. right. right.
      rewrite (proj2 (Nat.eqb_neq m n)); [done|]. intros ->. done.
  - split_and!; [done..|]. cbn. destruct (decide (i = j)) as [<-|Hne]; [left; by rewrite lookup_delete_eq|].
    by rewrite lookup_delete_ne by done.
Qed.

(** A request that starts to wait after the answer was announced is never woken. *)
Theorem late_waiter_starves e w i n w' :
  api_runs e w -> tasks w !! i = Some (TRegister n) -> funding_info_state w <> Loading n -> rtc api_step w w' ->
  tasks w' !! i = None \/ tasks w' !! i = Some (TRegister n) \/ tasks w' !! i = Some (TWaiting n false).
Proof.
  intros Hrun%api_run_ok Ht Hf Hlater.
  assert (Hlate : late i n w) by (split_and!; [by eapply (ok_ids w Hrun)|by eapply (ok_waits w Hrun)|done|by right; left]).
  assert (Hlate' : late i n w') by (clear - Hlate Hlater; induction Hlater; eauto using late_step). by destruct Hlate' as (_ & _ & _ & ?).
Qed.

End Api.

(** ** Keys in requests *)

Lemma all_hex_decodes n i s :
  String.length s = (2 * n)%nat -> all_hex s = true <-> exists l, decode_pairs i s = Ok l /\ length l = n.
Proof.
  revert i s. induction n as [|n IH]; intros i s Hs.
  - destruct s; [|done]. split; [by exists []|done].
  - destruct s as [|c [|c' s]]; [done|cbn in Hs; lia|]. cbn in Hs. specialize (IH (i + 2) s ltac:(lia)). cbn [all_hex decode_pairs].
    rewrite !andb_true_iff, !bool_decide_eq_true. destruct (hex_val c) as [hi|], (hex_val c') as [lo|]; cbn;
      try (split; [intros (? & ? & ?); by (destruct (is_Some_None (A := Z)))|by intros (? & ? & _)]).
    split.
    + intros (_ & _ & Hall). apply IH in Hall as (l & -> & Hl). cbn. eexists. split; [done|]. cbn. lia.
    + intros (l & Hl & Hlen). split_and!; [done..|]. apply IH. destruct (decode_pairs (i + 2) s) as [l'|]; [|done].
      cbn in Hl. injection Hl as <-. exists l'. split; [done|]. cbn in Hlen. lia.
Qed.

(** The keys that are passed on to the contracts are exactly the prefixed hexadecimal
    texts of as many bytes. *)
Theorem pubkey_check_exact (n : nat) key :
  prefixed_hex (2 * n + 2) key = true <-> exists rest l, key = "0x" +:+ rest /\ hex_decode rest = Ok l /\ length l = n.
Proof.
  unfold prefixed_hex, hex_decode. rewrite andb_true_iff, bool_decide_eq_true. split.
  - intros [Hlen Hhex]. destruct (strip_prefix "0x" key) as [rest|] eqn:Hp; [|done]. apply strip_prefix_Some in Hp as ->.
    change (S (S (String.length rest)) = 2 * n + 2)%nat in Hlen. assert (Hrest : String.length rest = (2 * n)%nat) by lia. apply (all_hex_decodes n 0 rest Hrest) in Hhex as (l & Hl & Hn).
    exists rest, l. rewrite Hrest, Nat.odd_mul. cbn. done.
  - intros (rest & l & -> & Hdec & Hn). rewrite strip_prefix_append. destruct (Nat.odd (String.length rest)) eqn:Hodd; [done|].
    assert (exists m, String.length rest = (2 * m)%nat) as [m Hm].
    { rewrite <- Nat.negb_even in Hodd. apply negb_false_iff, Nat.even_spec in Hodd as [m Hm]. by exists m. }
    assert (Hlm : length l = m).
    { clear Hn Hodd. revert rest l Hdec Hm. generalize 0. induction m as [|m IH]; intros i rest l Hdec Hm.
      - destruct rest; [|done]. by injection Hdec as <-.
      - destruct rest as [|c [|c' rest]]; [done|cbn in Hm; lia|]. cbn in Hm, Hdec. destruct (hex_val c), (hex_val c'); try done. cbn in Hdec.
        destruct (decode_pairs (i + 2) rest) as [l'|] eqn:Hl'; [|done]. injection Hdec as <-. cbn. f_equal. apply (IH _ _ _ Hl'). lia. }
    split; [change (S (S (String.length rest)) = 2 * n + 2)%nat; lia|]. apply (all_hex_decodes m 0 rest Hm). exists l. done.
Qed.

(** ** A server *)

(** Bodies are taken for the reason of a request; the broker has the messages given. *)
Module Sample.

Inductive json := JString (s : string) | JUuid (id : bytes) | JObject (l : list (string * json)).

#[export] Instance json_value : JsonValue := {| Value := json |}.

#[export] Instance formats : ApiFormats := {|
  json_object := JObject;
  json_string := JString;
  json_uuid := JUuid;
  broker_error_text _ := "broker";
  read_fail_flow s := Ok (mkFailFlowReq "pegin" (be_bytes 16 7) s);
  read_apply_stream s := Ok (mkApplyStreamReq (JString s));
  read_pegin_address _ := Err (422, JString "no");
  read_request_pegout s := Ok (mkUserRequestPegoutInput 1 s)
|}.

Definition kind_named (s : string) : option FlowKind :=
  if bool_decide (s = "pegin") then Some KindPegin else if bool_decide (s = "pegout") then Some KindPegout else None.

Definition from_value (v : json) : option UserRequests :=
  match v with
  | JObject [(k, x)] =>
      if bool_decide (k = "ApplyToStream") then Some (ApplyToStreamRequest (mkApplyToStream 1 Prover 1 1 1)) else
      match x with
      | JObject [(_, JObject [(_, JString name); (_, JUuid id); (_, JString why)])] =>
          flow_kind ← kind_named name; Some (Admin (FailFlow flow_kind id why))
      | _ => None
      end
  | _ => None
  end.

#[export] Instance serde : SerdeRequests from_value.
Proof.
  split; cbn.
  - intros v r [= <-]. eauto.
  - intros k id why r. destruct (kind_named k) as [flow_kind|]; [|done]. intros [= <-]. eauto.
Qed.

(** The messages that are waiting, and the time *)
Definition E : Type := list (ToServer * Identifier) * Z.

#[export] Instance broker : BrokerServer E := {|
  server_recv e := match e with (m :: l, t) => (Ok (Some m), (l, t)) | ([], t) => (Ok None, ([], t)) end;
  server_send _ _ e := (Ok tt, e)
|}.

#[export] Instance gateway : UserGateway E := {|
  my_address _ := "0x00";
  get_temporary_pegin_address _ := sfail "no";
  request_pegout _ := sfail "no";
  new_uuid e := (be_bytes 16 e.2, e);
  instant_now e := (e.2, (e.1, e.2 + 50))
|}.

Definition coordinator : Identifier := ("c0ffee", 101).
Definition token : option string := Some "secret".
Definition funding : MemberFundingInfo := mkMemberFundingInfo "bc1q" "0x11".
Definition start : E := ([(ToMemberFundingInfo (be_bytes 16 3) funding, coordinator); (ToMemberFundingInfo (be_bytes 16 0) funding, coordinator)], 0).

Abbreviation Server := (Api (E := E)).
Abbreviation step := (api_step coordinator token).

Definition by_admin : HttpRequest := mkHttpRequest "POST" "/admin/fail-flow" (Some "Bearer secret") "stuck".

(** A request that goes on [k] times *)
Fixpoint goes_on (k i : nat) (w : Server) : Server :=
  match k with O => w | S k => match advance coordinator i w with Some w => goes_on k i w | None => w end end.

Lemma goes_on_steps k i w : rtc step w (goes_on k i w).
Proof.
  revert w. induction k as [|k IH]; intros w; [done|]. cbn [goes_on]. destruct (advance coordinator i w) as [w1|] eqn:Hw1; [|done].
  eapply rtc_l; [by apply (StepAdvance _ _ i)|apply IH].
Qed.

End Sample.

Section Witnesses.
Import UserApi.Sample.

Lemma admin_requests_authorised_witness :
  let w := (handle_request coordinator token by_admin (new_api start)).2 in
  exists v, v ∈ sent w /\ exists req b flow_kind, req ∈ handled w /\ authorised token req /\ read_fail_flow (body req) = Ok b /\
    FailFlow KindPegin (be_bytes 16 7) "stuck" = FailFlow flow_kind (ff_flow_id b) (reason b) /\ kind b ∈ ALLOWED_KINDS /\
    blank (reason b) = false /\ Z.of_nat (String.length (reason b)) <= 512.
Proof.
  intros w. set (v := JObject [("Admin", JObject [("FailFlow",
    JObject [("kind", JString "pegin"); ("flow_id", JUuid (be_bytes 16 7)); ("reason", JString "stuck")])])] : @Value json_value).
  assert (Hv : FromUserRequest v ∈ sent w) by (vm_compute; left). exists (FromUserRequest v). split; [exact Hv|].
  apply (admin_requests_authorised (H := json_value) coordinator token from_value start w v (FailFlow KindPegin (be_bytes 16 7) "stuck")).
  - apply rtc_once, StepRequest. reflexivity.
  - exact Hv.
  - vm_compute. reflexivity.
Defined.

(** Another's reply comes first and is dropped. *)
Lemma funding_info_genuine_witness :
  let w := goes_on 5 0 (arrive (new_api start)) in
  tasks w !! 0%nat = Some (TDone (Ok funding)) /\ answered coordinator w funding.
Proof.
  intros w. assert (Ht : tasks w !! 0%nat = Some (TDone (Ok funding))) by (vm_compute; reflexivity). split; [exact Ht|].
  apply (funding_info_genuine coordinator token start w) with (i := 0%nat); [|exact Ht].
  eapply rtc_l; [apply StepArrive|apply goes_on_steps].
Defined.

(** The first request is dropped while it asks; the second one waits for ever. *)
Lemma dropped_request_blocks_funding_info_witness :
  let w := goes_on 3 0 (arrive (new_api start)) in
  let w' := goes_on 9 1 (arrive (drop_task 0 w)) in
  tasks w' !! 1%nat = Some (TWaiting 0 false) /\ (exists n, funding_info_state w' = Loading n) /\ member_requests w' = member_requests w.
Proof.
  intros w w'. split; [vm_compute; reflexivity|].
  destruct (dropped_request_blocks_funding_info coordinator token start w 0 (TPoll (be_bytes 16 0) 9000) w') as (Hl & Hm & _); [..|done].
  - eapply rtc_l; [apply StepArrive|apply goes_on_steps].
  - vm_compute. reflexivity.
  - reflexivity.
  - eapply rtc_l; [apply StepArrive|apply goes_on_steps].
Defined.

End Witnesses.
