(* ===== verification/Sender.v ===== *)
(** * Sending transactions to the contracts (crates/transaction-dispatcher/src/contracts/common.rs)

    A call of a contract is a transaction: its gas is estimated and raised, it is
    sent, and its receipt is awaited.  A transaction that failed because it ran out of gas is
    sent again with more.  The node is an interface that may fail at any point; the
    log lists the transactions that were handed to it and the receipts it gave. *)

From stdpp Require Import prelude gmap strings.
From S2P Require Import Prelude Types.
Open Scope Z_scope.

(** ** Interfaces *)

(** [alloy_contract::Error]: an error of the node, or a response with a code that is
    made here; loops may run out of fuel. *)
Inductive TxError := NodeError (msg : string) | ErrorResp (code : Z) (msg : string) | TxFuel.

Record TransactionReceipt := mkReceipt { status : bool; gas_used : Z; receipt_hash : bytes }.

(** The provider with a call that was built; [None] is an answer that did not come in
    the time of [timeout].  Times are in milliseconds. *)
Class TxProvider (Node : Type) := {
  tx_now : Node -> Z * Node;
  tx_sleep : Z -> Node -> Node;
  estimate_gas : Z -> SR Node string (option Z);
  get_gas_price : SR Node string Z;
  tx_send : Z -> Z -> Z -> SR Node string (option bytes);
  get_transaction_receipt : bytes -> SR Node string (option TransactionReceipt)
}.

(** The clock does not go back, and runs while the process sleeps. *)
Class TxProviderLaws (Node : Type) `{TxProvider Node} := {
  time_of : Node -> Z;
  now_law n t n' : tx_now n = (t, n') -> time_of n <= t <= time_of n';
  sleep_law d n : time_of n + d <= time_of (tx_sleep d n);
  receipt_law h n r n' : get_transaction_receipt h n = (r, n') -> time_of n <= time_of n'
}.

(** ** Gas *)

Definition BASE_GAS_HEADROOM_PERCENT : Z := 120.
Definition PER_ATTEMPT_BUMP_PERCENT : Z := 110.
Definition OOG_DETECTION_MARGIN_PERCENT : Z := 5.
Definition MAX_GAS_LIMIT : Z := 5000000.
Definition ETH_RPC_INTERNAL_ERROR : Z := -32603.
Definition ETH_RPC_INVALID_PARAMS : Z := -32602.
Definition ETH_RPC_TIMEOUT : Z := -32002.

Definition percent (p n : Z) : Z := saturating_mul 64 n p / 100.

Fixpoint bump (attempt : nat) (bumped : Z) : Z :=
  match attempt with O => bumped | S attempt => bump attempt (percent PER_ATTEMPT_BUMP_PERCENT bumped) end.

Definition bumped_gas (estimated : Z) (attempt : nat) : Z :=
  Z.max (bump attempt (percent BASE_GAS_HEADROOM_PERCENT estimated)) estimated.

Definition calculate_gas_limit_with_cap (estimated_gas : Z) (attempt : nat) : result TxError Z :=
  let gas_limit := bumped_gas estimated_gas attempt in
  if MAX_GAS_LIMIT <? gas_limit then Err (ErrorResp ETH_RPC_INVALID_PARAMS "Maximum gas limit exceeded") else Ok gas_limit.

Definition likely_oog (r : TransactionReceipt) (gas_limit : Z) : bool :=
  negb (status r) && (saturating_sub gas_limit (percent OOG_DETECTION_MARGIN_PERCENT gas_limit) <=? gas_used r).

(** ** Sending *)

Inductive TxEvent := Submitted (gas_limit : Z) | Included (r : TransactionReceipt).

Section Sender.
Context `{TxProvider Node}.
Abbreviation W := (Node * list TxEvent)%type.

Definition on_provider {A} (m : SR Node string A) : SR W TxError A :=
  fun w => let '(r, n) := m w.1 in (match r with Ok a => Ok a | Err msg => Err (NodeError msg) end, (n, w.2)).
Definition log_event (e : TxEvent) : SR W TxError unit := smodify (fun w => (w.1, w.2 ++ [e])).
Definition read_clock : SR W TxError Z := on_provider (fun n => let '(t, n) := tx_now n in (Ok t, n)).

Definition timeout_30sec : Z := 30 * 1000.
Definition timeout_1min : Z := 60 * 1000.
Definition timeout_2min : Z := 120 * 1000.
Definition timeout_5min : Z := 300 * 1000.

Definition new_transport_error {A} (msg : string) : SR W TxError A := sfail (ErrorResp ETH_RPC_INTERNAL_ERROR msg).

Definition estimate_gas_with_timeout : SR W TxError Z :=
  estimated ← on_provider (estimate_gas timeout_30sec);
  match estimated with
  | Some gas => mret gas
  | None => sfail (ErrorResp ETH_RPC_TIMEOUT "Gas estimation timeout")
  end.

(** The loop, with as many rounds as the fuel allows *)
Fixpoint poll_receipt (fuel : nat) (start : Z) (tx_hash : bytes) (poll_interval max_wait : Z) : SR W TxError TransactionReceipt :=
  match fuel with
  | O => sfail TxFuel
  | S fuel =>
      now ← read_clock;
      if max_wait <? now - start then new_transport_error "Receipt timeout" else
      found ← on_provider (get_transaction_receipt tx_hash);
      match found with
      | Some receipt => _ ← log_event (Included receipt); mret receipt
      | None =>
          _ ← on_provider (fun n => (Ok tt, tx_sleep poll_interval n));
          poll_receipt fuel start tx_hash poll_interval max_wait
      end
  end.

(** Each round sleeps, so that this many take longer than the wait. *)
Definition rounds (poll_interval max_wait : Z) : nat := Z.to_nat (max_wait / poll_interval + 2).

Definition wait_for_receipt (tx_hash : bytes) (poll_interval max_wait : Z) : SR W TxError TransactionReceipt :=
  start ← read_clock; poll_receipt (rounds poll_interval max_wait) start tx_hash poll_interval max_wait.

Definition send_transaction (gas_limit gas_price : Z) : SR W TxError TransactionReceipt :=
  _ ← log_event (Submitted gas_limit);
  pending_tx ← on_provider (tx_send timeout_1min gas_limit gas_price);
  match pending_tx with
  | None => new_transport_error "Transaction send timeout"
  | Some tx_hash => wait_for_receipt tx_hash 2000 timeout_2min
  end.

(** One attempt: the hash of a transaction that succeeded, or nothing when there is
    reason to try again *)
Definition send_attempt (start_time : Z) (bumps : nat) : SR W TxError (option bytes) :=
  now ← read_clock;
  if timeout_5min <? now - start_time then new_transport_error "Transaction timeout" else
  estimated_gas ← estimate_gas_with_timeout;
  gas_limit ← slift (calculate_gas_limit_with_cap estimated_gas bumps);
  gas_price ← on_provider get_gas_price;
  receipt ← send_transaction gas_limit gas_price;
  if status receipt then mret (Some (receipt_hash receipt)) else
  if likely_oog receipt gas_limit then mret None else
  _ ← estimate_gas_with_timeout;
  new_transport_error "Transaction failed but is neither retriable (no OOG) nor reverting (passes gas estimation): unexpected state.".

Fixpoint send_attempts (start_time : Z) (bumps remaining : nat) : SR W TxError bytes :=
  match remaining with
  | O => new_transport_error "Transaction failed after all attempts"
  | S remaining =>
      sent ← send_attempt start_time bumps;
      match sent with
      | Some hash => mret hash
      | None => send_attempts start_time (S bumps) remaining
      end
  end.

(** The number of attempts has 8 bits. *)
Definition send_tx_with_gas_bump (gas_bumps : Z) : SR W TxError bytes :=
  start_time ← read_clock;
  send_attempts start_time 0 (Z.to_nat (wrapping_add 8 gas_bumps 1)).

(** ** Every transaction is settled before the next *)

(** The log of a call, for its result: the transactions are sent one after the other,
    each within the limit and, but for the last, settled as having failed with nearly
    all its gas used; the result is the hash of the last if it succeeded. *)
Fixpoint settled (l : list TxEvent) (r : result TxError bytes) : Prop :=
  match l with
  | [] => exists y, r = Err y
  | [Submitted g] => g <= MAX_GAS_LIMIT /\ exists y, r = Err y
  | Submitted g :: Included rc :: l =>
      g <= MAX_GAS_LIMIT /\
      if status rc then l = [] /\ r = Ok (receipt_hash rc)
      else if likely_oog rc g then settled l r else l = [] /\ exists y, r = Err y
  | _ => False
  end.

Fixpoint submissions (l : list TxEvent) : nat :=
  match l with [] => 0 | Submitted _ :: l => S (submissions l) | Included _ :: l => submissions l end.
Fixpoint successes (l : list TxEvent) : nat :=
  match l with
  | [] => 0
  | Included rc :: l => (if status rc then 1 else 0) + successes l
  | Submitted _ :: l => successes l
  end.

(** A run adds to the log what [Q] says of its result. *)
Definition logs {A} (m : SR W TxError A) (Q : result TxError A -> list TxEvent -> Prop) : Prop :=
  forall w, exists l, (m w).2.2 = w.2 ++ l /\ Q (m w).1 l.

Lemma logs_bind {A B} (m : SR W TxError A) (f : A -> SR W TxError B) (Q : result TxError B -> list TxEvent -> Prop) :
  logs m (fun r l => match r with Ok a => logs (f a) (fun r' l' => Q r' (l ++ l')) | Err y => Q (Err y) l end) -> logs (m ≫= f) Q.
Proof.
  intros Hm w. destruct (Hm w) as (l & Hl & HQ). unfold mbind, SR_bind. destruct (m w) as [[a|y] w1]; cbn in *; [|by exists l].
  destruct (HQ w1) as (l' & Hl' & HQ'). exists (l ++ l'). by rewrite Hl', Hl, app_assoc.
Qed.

(** A step that logs nothing *)
Lemma logs_quiet {A} (m : SR W TxError A) (Q : result TxError A -> list TxEvent -> Prop) :
  (forall w, (m w).2.2 = w.2) -> (forall r, Q r []) -> logs m Q.
Proof. intros Hm HQ w. exists []. by rewrite app_nil_r. Qed.

Lemma on_provider_quiet {A} (m : SR Node string A) w : (on_provider m w).2.2 = w.2.
Proof. unfold on_provider. by destruct (m w.1). Qed.

Lemma logs_provider {A B} (m : SR Node string A) (f : A -> SR W TxError B) Q :
  (forall a, logs (f a) Q) -> (forall y, Q (Err y) []) -> logs (on_provider m ≫= f) Q.
Proof.
  intros Hf Hy. apply logs_bind, logs_quiet; [apply on_provider_quiet|]. intros [a|y]; [apply Hf|apply Hy].
Qed.

Lemma logs_lift {A B} (x : result TxError A) (f : A -> SR W TxError B) Q :
  (forall a, x = Ok a -> logs (f a) Q) -> (forall y, Q (Err y) []) -> logs (slift x ≫= f) Q.
Proof.
  intros Hf Hy. apply logs_bind. intros w. exists []. rewrite app_nil_r. split; [done|]. destruct x as [a|y]; [by apply Hf|apply Hy].
Qed.

Lemma logs_fail {A} y (Q : result TxError A -> list TxEvent -> Prop) : Q (Err y) [] -> logs (sfail y) Q.
Proof. intros HQ w. exists []. by rewrite app_nil_r. Qed.

Lemma logs_ret {A} (a : A) (Q : result TxError A -> list TxEvent -> Prop) : Q (Ok a) [] -> logs (mret a) Q.
Proof. intros HQ w. exists []. by rewrite app_nil_r. Qed.

Lemma logs_estimate {B} (f : Z -> SR W TxError B) Q :
  (forall a, logs (f a) Q) -> (forall y, Q (Err y) []) -> logs (estimate_gas_with_timeout ≫= f) Q.
Proof.
  intros Hf Hy. apply logs_bind, logs_provider; [|done]. intros [gas|]; [by apply logs_ret|by apply logs_fail].
Qed.

Lemma logs_poll fuel start h p m :
  logs (poll_receipt fuel start h p m) (fun r l => match r with Ok rc => l = [Included rc] | Err _ => l = [] end).
Proof.
  induction fuel as [|fuel IH]; cbn [poll_receipt]; [by apply logs_fail|]. apply logs_provider; [|done]. intros now.
  destruct (m <? now - start); [by apply logs_fail|]. apply logs_provider; [|done]. intros [rc|].
  - intros w. by exists [Included rc].
  - by apply logs_provider.
Qed.

Lemma logs_send g price :
  logs (send_transaction g price)
    (fun r l => match r with Ok rc => l = [Submitted g; Included rc] | Err _ => l = [Submitted g] end).
Proof.
  apply logs_bind. intros w. exists [Submitted g]. split; [done|]. change (log_event (Submitted g) w).1 with (@Ok TxError unit tt). cbn beta iota.
  apply logs_provider; [|done].
  intros [h|]; [|by apply logs_fail]. apply logs_provider; [|done]. intros start w1.
  destruct (logs_poll (rounds 2000 timeout_2min) start h 2000 timeout_2min w1) as (l & Hl & HQ). exists l. split; [done|].
  destruct (poll_receipt _ _ _ _ _ w1).1; by rewrite HQ.
Qed.

(** What an attempt logs: a transaction at most, with its receipt *)
Lemma logs_attempt start bumps :
  logs (send_attempt start bumps) (fun r l =>
    match r with
    | Ok sent => exists g rc, l = [Submitted g; Included rc] /\ g <= MAX_GAS_LIMIT /\
        match sent with Some h => status rc = true /\ h = receipt_hash rc | None => status rc = false /\ likely_oog rc g = true end
    | Err y => settled l (Err y) /\ (submissions l <= 1)%nat
    end).
Proof.
  assert (Hnil : forall y, settled [] (Err y) /\ (submissions [] <= 1)%nat) by (intros y; split; [by exists y|cbn; lia]).
  apply logs_provider; [|done]. intros now. destruct (timeout_5min <? _); [by apply logs_fail|].
  apply logs_estimate; [|done]. intros estimated. apply logs_lift; [|done]. intros g Hg.
  assert (Hmax : g <= MAX_GAS_LIMIT).
  { unfold calculate_gas_limit_with_cap in Hg. destruct (MAX_GAS_LIMIT <? _) eqn:Hcap; [done|]. reflect_bool. injection Hg as <-. lia. }
  apply logs_provider; [|done]. intros price. apply logs_bind. intros w. destruct (logs_send g price w) as (l & Hl & HQ).
  exists l. split; [done|]. clear Hl. destruct (send_transaction g price w).1 as [rc|y]; subst l.
  - destruct (status rc) eqn:Hst; [apply logs_ret; rewrite app_nil_r; by exists g, rc|].
    destruct (likely_oog rc g) eqn:Hoog; [apply logs_ret; rewrite app_nil_r; by exists g, rc|].
    assert (Hy : forall y, settled [Submitted g; Included rc] (Err y) /\ (submissions [Submitted g; Included rc] <= 1)%nat).
    { intros y. cbn. rewrite Hst, Hoog. split; [|lia]. split; [done|]. split; [done|]. by exists y. }
    apply logs_estimate; [intros gas; apply logs_fail|]; intros; rewrite app_nil_r; apply Hy.
  - split; [|cbn; lia]. split; [done|]. by exists y.
Qed.

Lemma logs_attempts start bumps remaining :
  logs (send_attempts start bumps remaining) (fun r l => settled l r /\ (submissions l <= remaining)%nat).
Proof.
  revert bumps. induction remaining as [|remaining IH]; intros bumps; cbn [send_attempts]; [apply logs_fail; split; [by eexists|done]|].
  apply logs_bind. intros w. destruct (logs_attempt start bumps w) as (l & Hl & HQ). exists l. split; [done|]. clear Hl.
  destruct (send_attempt start bumps w).1 as [[h|]|y].
  - destruct HQ as (g & rc & -> & Hg & Hst & ->). apply logs_ret. cbn. rewrite Hst. split; [done|lia].
  - destruct HQ as (g & rc & -> & Hg & Hst & Hoog). intros w'. destruct (IH (S bumps) w') as (l' & Hl' & Hs & Hn). exists l'.
    split; [done|]. cbn. rewrite Hst, Hoog. split; [done|]. lia.
  - destruct HQ as [Hs Hn]. split; [done|lia].
Qed.

(** At most one transaction of a settled log succeeded, and then the call did. *)
Lemma settled_once l r : settled l r -> successes l = (if is_ok r then 1 else 0)%nat.
Proof.
  revert r. induction l as [l IH] using (induction_ltof1 _ (@length TxEvent)); unfold ltof in IH. intros r Hs.
  destruct l as [|[g|rc] [|[g'|rc'] l]]; try done; cbn in Hs.
  - by destruct Hs as [y ->].
  - by destruct Hs as (_ & y & ->).
  - destruct Hs as [_ Hs]. cbn. destruct (status rc'); [by destruct Hs as [-> ->]|].
    destruct (likely_oog rc' g); [|by destruct Hs as (-> & y & ->)]. rewrite <- (IH l ltac:(cbn; lia) r Hs). done.
Qed.

(** C23: a call is one transaction.  Whatever the node answers, a call of a contract hands it at most one
    transaction more than it may raise the gas, one after the other: each within the
    limit of gas and, before the next, known to have failed with nearly all its gas used.
    None of them is known to have succeeded, or one is, and then the call returns its
    hash. *)
Theorem call_is_one_transaction gas_bumps (w : W) r w' :
  0 <= gas_bumps < 255 -> send_tx_with_gas_bump gas_bumps w = (r, w') ->
  exists l, w'.2 = w.2 ++ l /\ settled l r /\ Z.of_nat (submissions l) <= gas_bumps + 1 /\
    successes l = (if is_ok r then 1 else 0)%nat.
Proof.
  intros Hb Hr. assert (Hlogs : logs (send_tx_with_gas_bump gas_bumps) (fun r l => settled l r /\ Z.of_nat (submissions l) <= gas_bumps + 1)).
  { apply logs_provider; [|intros y; split; [by exists y|cbn; lia]]. intros start w0.
    destruct (logs_attempts start 0 (Z.to_nat (wrapping_add 8 gas_bumps 1)) w0) as (l & Hl & Hs & Hn). exists l. split; [done|].
    split; [done|]. unfold wrapping_add in Hn. rewrite Z.mod_small in Hn by lia. lia. }
  destruct (Hlogs w) as (l & Hl & Hs & Hn). rewrite Hr in Hl, Hs. cbn in Hl, Hs. exists l. split_and!; [done..|]. by apply settled_once.
Qed.

(** With all bits of the number of raises set, the number of attempts wraps around to
    none: nothing is sent. *)
Theorem largest_gas_bumps_sends_nothing (w : W) :
  exists y, (send_tx_with_gas_bump 255 w).1 = Err y /\ (send_tx_with_gas_bump 255 w).2.2 = w.2.
Proof.
  unfold send_tx_with_gas_bump, read_clock, on_provider, mbind, SR_bind. cbn.
  destruct (tx_now w.1) as [t n]. cbn. by eexists.
Qed.

(** ** Calls end *)

Section Ends.
Context `{!TxProviderLaws Node}.

(** A run does not run out of fuel. *)
Definition ends {A} (m : SR W TxError A) : Prop := forall w, (m w).1 <> Err TxFuel.

Lemma ends_bind {A B} (m : SR W TxError A) (f : A -> SR W TxError B) : ends m -> (forall a, ends (f a)) -> ends (m ≫= f).
Proof.
  intros Hm Hf w. specialize (Hm w). unfold mbind, SR_bind. destruct (m w) as [[a|y] w1]; [apply Hf|cbn in *; congruence].
Qed.

Lemma ends_provider {A} (m : SR Node string A) : ends (on_provider m).
Proof. intros w. unfold on_provider. by destruct (m w.1) as [[]]. Qed.

Lemma poll_ends fuel start h p m w :
  0 < p -> (0 < fuel)%nat -> m < time_of w.1 - start + p * (Z.of_nat fuel - 1) -> (poll_receipt fuel start h p m w).1 <> Err TxFuel.
Proof.
  intros Hp. revert w. induction fuel as [|fuel IH]; intros w Hf Htime; [lia|]. cbn [poll_receipt].
  unfold read_clock, on_provider, mbind, SR_bind. destruct (tx_now w.1) as [now n1] eqn:Hnow. cbn.
  pose proof (now_law _ _ _ Hnow) as Ht. destruct (m <? now - start) eqn:Hlate; reflect_bool; [done|]. cbn.
  destruct (get_transaction_receipt h n1) as [[[rc|]|y] n2] eqn:Hr; cbn; [done| |done].
  pose proof (receipt_law _ _ _ _ Hr). pose proof (sleep_law p n2).
  apply IH; [|cbn]; destruct fuel; try lia; exfalso; lia.
Qed.

(** The time of the wait is over before the rounds are. *)
Lemma wait_ends h p m : 0 < p -> 0 <= m -> ends (wait_for_receipt h p m).
Proof.
  intros Hp Hm w. unfold wait_for_receipt, read_clock, on_provider, mbind, SR_bind. destruct (tx_now w.1) as [start n] eqn:Hnow. cbn.
  pose proof (now_law _ _ _ Hnow). pose proof (Z.mul_div_le m p Hp). pose proof (Z.mul_succ_div_gt m p Hp).
  pose proof (Z.div_pos m p Hm Hp). apply poll_ends; [done|unfold rounds; lia|]. unfold rounds. cbn. nia.
Qed.

(** A call of a contract ends, with a hash or with an error that the node or a time-out
    accounts for. *)
Theorem call_ends gas_bumps : ends (send_tx_with_gas_bump gas_bumps).
Proof.
  assert (Hest : ends estimate_gas_with_timeout) by (apply ends_bind; [apply ends_provider|]; by intros [gas|] w).
  apply ends_bind; [apply ends_provider|]. intros start. generalize 0%nat. induction (Z.to_nat _) as [|k IH]; intros bumps; cbn [send_attempts];
    [by intros w|]. apply ends_bind; [|intros [h|]; [by intros w|apply IH]].
  apply ends_bind; [apply ends_provider|]. intros now. destruct (timeout_5min <? _); [by intros w|]. apply ends_bind; [done|].
  intros estimated. apply ends_bind; [intros w; unfold calculate_gas_limit_with_cap; by case_match|]. intros g.
  apply ends_bind; [apply ends_provider|]. intros price. apply ends_bind.
  - apply ends_bind; [by intros w|]. intros _. apply ends_bind; [apply ends_provider|]. intros [h|]; [|by intros w]. by apply wait_ends.
  - intros rc. case_match; [by intros w|]. case_match; [by intros w|]. apply ends_bind; [done|]. by intros _ w.
Qed.

End Ends.

End Sender.

(** ** Limits of gas *)

Definition saturated : Z := (2 ^ 64 - 1) / 100.

Lemma percent_raises b : 0 <= b -> Z.min b saturated <= percent PER_ATTEMPT_BUMP_PERCENT b.
Proof.
  intros Hb. unfold percent, saturating_mul, PER_ATTEMPT_BUMP_PERCENT, saturated, uint_max.
  destruct (Z.le_gt_cases (b * 110) (2 ^ 64 - 1)); [rewrite (Z.min_l (b * 110)) by lia|rewrite (Z.min_r (b * 110)) by lia].
  - etransitivity; [apply Z.le_min_l|]. apply Z.div_le_lower_bound; lia.
  - apply Z.le_min_r.
Qed.

Lemma bump_last k b : bump (S k) b = percent PER_ATTEMPT_BUMP_PERCENT (bump k b).
Proof. revert b. induction k as [|k IH]; intros b; [done|]. cbn [bump] in *. by rewrite IH. Qed.

Lemma percent_nonneg p b : 0 <= p -> 0 <= b -> 0 <= percent p b.
Proof. intros Hp Hb. unfold percent, saturating_mul, uint_max. apply Z.div_pos; [|lia]. apply Z.min_glb; lia. Qed.

Lemma bump_nonneg k b : 0 <= b -> 0 <= bump k b.
Proof. revert b. induction k as [|k IH]; intros b Hb; [done|]. cbn [bump]. apply IH. by apply percent_nonneg. Qed.

(** Limits that are accepted cover the estimate, and do not fall from an attempt to the next. *)
Theorem gas_limits_grow estimated k g' :
  0 <= estimated -> calculate_gas_limit_with_cap estimated (S k) = Ok g' ->
  exists g, calculate_gas_limit_with_cap estimated k = Ok g /\ estimated <= g <= g' /\ g' <= MAX_GAS_LIMIT.
Proof.
  intros He. unfold calculate_gas_limit_with_cap, bumped_gas. rewrite bump_last.
  set (b := bump k (percent BASE_GAS_HEADROOM_PERCENT estimated)).
  assert (Hb : 0 <= b) by (apply bump_nonneg, percent_nonneg; [done|lia]).
  destruct (MAX_GAS_LIMIT <? _) eqn:Hcap; [done|]. reflect_bool. intros [= <-]. pose proof (percent_raises b Hb) as Hraise.
  assert (Hsat : MAX_GAS_LIMIT < saturated) by done.
  rewrite (proj2 (Z.ltb_ge _ _)) by lia. eexists. split; [done|]. lia.
Qed.

(** ** A node *)

(** A chain on which a transaction succeeds with enough gas, if it is mined at all *)
Module Sample.

Record Chain := mkChain { enough : Z; clock : Z; mined : bool; last_limit : Z }.

#[export] Instance provider : TxProvider Chain := {|
  tx_now n := (clock n, n);
  tx_sleep d n := mkChain (enough n) (clock n + d) (mined n) (last_limit n);
  estimate_gas _ := mret (Some 100000);
  get_gas_price := mret 1;
  tx_send _ g _ := fun n => (Ok (Some (be_bytes 32 g)), mkChain (enough n) (clock n) (mined n) g);
  get_transaction_receipt h := fun n =>
    (Ok (if mined n then Some (mkReceipt (enough n <=? last_limit n) (Z.min (enough n) (last_limit n)) h) else None), n)
|}.

#[export] Instance provider_laws : TxProviderLaws Chain.
Proof.
  refine {| time_of := clock |}; cbn.
  - intros n t n' [= <- <-]. lia.
  - lia.
  - intros h n r n' [= _ <-]. lia.
Defined.

End Sample.

Section Witnesses.
Import Sender.Sample.

(** The first limit is not enough, the second is. *)
Lemma call_is_one_transaction_witness :
  exists h w' l, send_tx_with_gas_bump 3 (mkChain 130000 0 true 0, []) = (Ok h, w') /\ w'.2 = l /\ settled l (Ok h) /\ submissions l = 2%nat /\
    successes l = 1%nat.
Proof.
  destruct (send_tx_with_gas_bump 3 (mkChain 130000 0 true 0, [])) as [r w'] eqn:Hr.
  destruct (call_is_one_transaction 3 (mkChain 130000 0 true 0, []) r w') as (l & Hl & Hs & _ & Hn); [lia|exact Hr|].
  assert (Hok : is_ok (send_tx_with_gas_bump 3 (mkChain 130000 0 true 0, [])).1 = true) by (vm_compute; reflexivity).
  assert (Hcount : submissions (send_tx_with_gas_bump 3 (mkChain 130000 0 true 0, [])).2.2 = 2%nat) by (vm_compute; reflexivity).
  rewrite Hr in Hok, Hcount. destruct r as [h|y]; [|done]. cbn in Hl, Hcount. exists h, w', l. rewrite Hl in Hcount.
  split_and!; [reflexivity|exact Hl|exact Hs|exact Hcount|exact Hn].
Defined.

End Witnesses.
